(* ===== verification/_CoqProject ===== *)
-Q . S2P
Prelude.v
GoFloat.v
GoTime.v
Types.v
Util.v
DriverBase.v
Modbus.v
RuleEngine.v
Cache.v
DataBus.v
Alerts.v
Logging.v
OfflineBuffer.v
S7.v
JsonDecode.v
JsonText.v
RuleExpr.v
Json.v
JsonValue.v
CommandJson.v
PointJson.v
Sha256.v
Trace.v
Commands.v
Parser.v
EnvExpand.v
HttpPush.v
Mqtt.v
Notify.v
JsonlStore.v
WriteManager.v
Batcher.v
StoreForward.v
Scheduler.v
Config.v
Provider.v
OpcUa.v
Manager.v
Processing.v
Derived.v
Validate.v
ConfigPath.v
Backups.v
Executor.v
Engine.v
Runtime.v
Control.v
Discovery.v
Metrics.v
Stats.v
Streams.v
Net.v
Http.v
Server.v
Api.v
ApiEngine.v
ConfigApi.v
Exposition.v
Mcp.v
FieldDrivers.v
Startup.v
