(* ===== verification/Prelude.v ===== *)
(** * CoreC: a verification development

    CoreC is an industrial data-collection core written in Go: drivers read
    tags from devices, a scheduler turns the readings into data points, a rule
    engine routes the points, and batchers publish them through transports.

    This file is the root of the library: the shared notation, the model of
    Go's error values and fixed-width integers, the development's tactics and
    hints, and the generic lemmas the component files use. *)

From Stdlib Require Import ZArith Lia Ascii String List.
From stdpp Require Import base list gmap strings sorting numbers pretty.

Open Scope Z_scope.

Declare Scope corec_scope.
Delimit Scope corec_scope with corec.

(** ** Go's error values

    An [error] is a package-level sentinel ([errors.New]), a formatted error
    ([fmt.Errorf] without [%w]) or a wrapping error ([fmt.Errorf] with one
    [%w]).  Sentinels are compared by identity in Go; two sentinels of the
    program never share a message, so the message names the sentinel. *)
Inductive error : Type :=
| ErrNew (msg : string)
| ErrFmt (msg : string)
| ErrWrap (pre : string) (inner : error) (post : string).

#[export] Instance error_eq_dec : EqDecision error.
Proof. solve_decision. Defined.

(** The text of [err.Error()]. *)
Fixpoint error_text (e : error) : string :=
  match e with
  | ErrNew m | ErrFmt m => m
  | ErrWrap pre i post => pre +:+ error_text i +:+ post
  end.

(** [errors.Is(e, target)] for a sentinel target: unwrap until it is found. *)
Fixpoint errors_Is (e target : error) : bool :=
  if decide (e = target) then true
  else match e with ErrWrap _ i _ => errors_Is i target | _ => false end.

(** ** Results of Go functions

    [Panic] is a run-time panic (an index out of range, a nil dereference). *)
Inductive res (A : Type) : Type :=
| Ok (a : A)
| Err (e : error)
| Panic.
Arguments Ok {A} _.
Arguments Err {A} _.
Arguments Panic {A}.

Definition res_bind {A B} (r : res A) (k : A -> res B) : res B :=
  match r with Ok a => k a | Err e => Err e | Panic => Panic end.

Notation "'let!' x ':=' e 'in' k" := (res_bind e (fun x => k))
  (at level 10, x pattern, e at level 100, k at level 200) : corec_scope.
Open Scope corec_scope.

(** A slice index: out of range panics. *)
Definition go_index {A} (l : list A) (i : Z) : res A :=
  if decide (i < 0) then Panic
  else match l !! Z.to_nat i with Some a => Ok a | None => Panic end.

(** ** Fixed-width integers *)

Definition wrapu (w z : Z) : Z := z mod 2 ^ w.
Definition wraps (w z : Z) : Z := (z + 2 ^ (w - 1)) mod 2 ^ w - 2 ^ (w - 1).

Abbreviation u8 := (wrapu 8).
Abbreviation u16 := (wrapu 16).
Abbreviation u32 := (wrapu 32).
Abbreviation u64 := (wrapu 64).
Abbreviation i8 := (wraps 8).
Abbreviation i16 := (wraps 16).
Abbreviation i32 := (wraps 32).
Abbreviation i64 := (wraps 64).

Definition maxInt64 : Z := 2 ^ 63 - 1.
Definition minInt64 : Z := - 2 ^ 63.

(** Big-endian bytes: [binary.BigEndian.Uint16] and its kin on a byte list, and
    the [n] bytes its [Put] counterparts store. *)
Fixpoint be_uint (acc : Z) (bs : list Z) : Z :=
  match bs with [] => acc | b :: bs' => be_uint (Z.lor (Z.shiftl acc 8) b) bs' end.

Fixpoint be_put (n : nat) (z : Z) : list Z :=
  match n with O => [] | S n' => u8 (Z.shiftr z (8 * Z.of_nat n')) :: be_put n' z end.

(** ** Durations and instants, in nanoseconds *)

Definition nanosecond : Z := 1.
Definition millisecond : Z := 1000000.
Definition second : Z := 1000 * millisecond.
Definition minute : Z := 60 * second.

(** ** Strings: the parts of [strings] and [strconv] the program uses

    A Go string is a byte sequence, and so is [string].  Case mapping is that
    of the ASCII letters. *)

Definition str_contains (s sub : string) : bool :=
  match String.index 0 sub s with Some _ => true | None => false end.

Definition has_prefix (s p : string) : bool := String.prefix p s.

Definition ascii_lower (c : ascii) : ascii :=
  let n := N_of_ascii c in
  if decide (65 <= n <= 90)%N then ascii_of_N (n + 32) else c.

Definition ascii_upper (c : ascii) : ascii :=
  let n := N_of_ascii c in
  if decide (97 <= n <= 122)%N then ascii_of_N (n - 32) else c.

Fixpoint str_map (f : ascii -> ascii) (s : string) : string :=
  match s with
  | EmptyString => EmptyString
  | String c s' => String (f c) (str_map f s')
  end.

Definition to_lower : string -> string := str_map ascii_lower.
Definition to_upper : string -> string := str_map ascii_upper.

(** The value of a decimal digit. *)
Definition digit_val (c : ascii) : option Z :=
  let n := Z.of_N (N_of_ascii c) in
  if decide (48 <= n <= 57) then Some (n - 48) else None.

Fixpoint parse_digits (acc : Z) (s : string) : option Z :=
  match s with
  | EmptyString => Some acc
  | String c s' =>
      match digit_val c with
      | Some d => parse_digits (10 * acc + d) s'
      | None => None
      end
  end.

(** [strconv.ParseUint(s, 10, w)]: digits only, at least one, value below
    [2^w]. *)
Definition ParseUint (s : string) (w : Z) : option Z :=
  match s with
  | EmptyString => None
  | _ =>
      match parse_digits 0 s with
      | Some z => if decide (z < 2 ^ w) then Some z else None
      | None => None
      end
  end.

(** [strconv.ParseInt(s, 10, w)]: an optional sign and then digits. *)
Definition ParseInt (s : string) (w : Z) : option Z :=
  let chk (neg : bool) (t : string) :=
    match t with
    | EmptyString => None
    | _ =>
        match parse_digits 0 t with
        | Some z =>
            if neg then (if decide (z <= 2 ^ (w - 1)) then Some (- z) else None)
            else (if decide (z < 2 ^ (w - 1)) then Some z else None)
        | None => None
        end
    end in
  match s with
  | String "-"%char t => chk true t
  | String "+"%char t => chk false t
  | _ => chk false s
  end.

Definition digit_char (d : Z) : ascii := ascii_of_N (Z.to_N (48 + d)).

(** Decimal digits of [n] in front of [acc]. *)
Fixpoint dec_go (fuel : nat) (n : Z) (acc : string) : string :=
  match fuel with
  | O => acc
  | S fuel' =>
      let acc' := String (digit_char (n mod 10)) acc in
      if decide (n < 10) then acc' else dec_go fuel' (n / 10) acc'
  end.

(** A 64-bit integer has at most twenty digits. *)
Definition decimal (n : Z) : string := dec_go 20 n EmptyString.

(** [strconv.Itoa] and the verb [%d]. *)
Definition itoa (z : Z) : string :=
  if decide (z < 0) then String "-" (decimal (- z)) else decimal z.

Definition is_space (c : ascii) : bool :=
  let n := N_of_ascii c in
  bool_decide (n = 32 \/ 9 <= n <= 13)%N.

Fixpoint trim_left (s : string) : string :=
  match s with
  | String c s' => if is_space c then trim_left s' else s
  | EmptyString => s
  end.

Definition str_rev (s : string) : string :=
  String.string_of_list_ascii (List.rev (String.list_ascii_of_string s)).

(** [strings.TrimSpace]. *)
Definition TrimSpace (s : string) : string := str_rev (trim_left (str_rev (trim_left s))).


(** The verb [%q]: quotes, backslashes and control characters are escaped;
    bytes outside ASCII are copied. *)
Definition hex_char (d : N) : ascii := ascii_of_N (if (d <? 10)%N then 48 + d else 87 + d).

Definition quote_char (c : ascii) : string :=
  let n := N_of_ascii c in
  let esc (x : N) := String (ascii_of_N 92) (String (ascii_of_N x) EmptyString) in
  if decide (n = 34 \/ n = 92)%N then esc n
  else if decide (n = 7)%N then esc 97%N
  else if decide (n = 8)%N then esc 98%N
  else if decide (n = 9)%N then esc 116%N
  else if decide (n = 10)%N then esc 110%N
  else if decide (n = 11)%N then esc 118%N
  else if decide (n = 12)%N then esc 102%N
  else if decide (n = 13)%N then esc 114%N
  else if decide (n < 32 \/ n = 127)%N then
    esc 120%N +:+ String (hex_char (n / 16)) (String (hex_char (n mod 16)) EmptyString)
  else String c EmptyString.

Fixpoint quote_body (s : string) : string :=
  match s with
  | EmptyString => String (ascii_of_N 34) EmptyString
  | String c s' => quote_char c +:+ quote_body s'
  end.

Definition quote (s : string) : string := String (ascii_of_N 34) (quote_body s).

(** ** Stable sorting

    [sort.SliceStable] with a strict order [lt] has one result; insertion sort
    computes it. *)
Section stable_sort.
Context {A : Type} (lt : A -> A -> bool).

Fixpoint insert_stable (x : A) (l : list A) : list A :=
  match l with
  | [] => [x]
  | y :: l' => if lt y x then y :: insert_stable x l' else x :: l
  end.

Fixpoint stable_sort (l : list A) : list A :=
  match l with
  | [] => []
  | x :: l' => insert_stable x (stable_sort l')
  end.

Lemma insert_stable_perm x l : insert_stable x l ≡ₚ x :: l.
Proof.
  induction l as [|y l IH]; simpl; [done|].
  destruct (lt y x); [|done]. rewrite IH. constructor.
Qed.

Lemma stable_sort_perm l : stable_sort l ≡ₚ l.
Proof.
  induction l as [|x l IH]; simpl; [done|]. by rewrite insert_stable_perm, IH.
Qed.
End stable_sort.

(** Sorting by an integer key gives a list in key order. *)
Section sort_key.
Context {A : Type} (key : A -> Z).
Notation lt_key := (fun a b => bool_decide (key a < key b)).
Notation le_key := (fun a b => key a <= key b).

Lemma insert_stable_sorted x l :
  StronglySorted le_key l -> StronglySorted le_key (insert_stable lt_key x l).
Proof.
  induction 1 as [|y l Hs IH Hy]; simpl; [repeat constructor|].
  case_bool_decide.
  - constructor; [done|]. rewrite insert_stable_perm. constructor; [lia|done].
  - constructor; [by constructor|]. constructor; [lia|].
    eapply Forall_impl; [done|]. simpl. intros. lia.
Qed.

Lemma stable_sort_sorted l : StronglySorted le_key (stable_sort lt_key l).
Proof.
  induction l as [|x l IH]; simpl; [constructor|]. by apply insert_stable_sorted.
Qed.
End sort_key.

(** Sorting by a strict weak order gives a list in which nothing is followed by
    something less. *)
Section sort_lt.
Context {A : Type} (lt : A -> A -> bool).
Hypothesis lt_asym : forall a b, lt a b = true -> lt b a = false.
Hypothesis lt_neg_trans : forall a b c, lt b a = false -> lt c b = false -> lt c a = false.

Lemma insert_stable_ordered x l :
  StronglySorted (fun a b => lt b a = false) l -> StronglySorted (fun a b => lt b a = false) (insert_stable lt x l).
Proof.
  induction 1 as [|y l Hs IH Hy]; simpl; [repeat constructor|].
  destruct (lt y x) eqn:Hyx.
  - constructor; [done|]. rewrite insert_stable_perm. constructor; [by apply lt_asym|done].
  - constructor; [by constructor|]. constructor; [done|].
    eapply Forall_impl; [exact Hy|]. simpl. intros z Hz. by eapply lt_neg_trans.
Qed.

Lemma stable_sort_ordered l : StronglySorted (fun a b => lt b a = false) (stable_sort lt l).
Proof. induction l as [|x l IH]; simpl; [constructor|]. by apply insert_stable_ordered. Qed.
End sort_lt.

(** The order of strings. *)
Lemma string_ltb_cons c d (s t : string) :
  String.ltb (String c s) (String d t)
  = match (N_of_ascii c ?= N_of_ascii d)%N with Lt => true | Eq => String.ltb s t | Gt => false end.
Proof. unfold String.ltb. cbn [String.compare]. unfold Ascii.compare. by destruct (_ ?= _)%N. Qed.

Lemma string_ltb_asym (a b : string) : String.ltb a b = true -> String.ltb b a = false.
Proof.
  revert b. induction a as [|c a IH]; intros [|d b]; [done..|].
  rewrite !string_ltb_cons, (N.compare_antisym (N_of_ascii c)). destruct (_ ?= _)%N; simpl; auto.
Qed.

Lemma string_ltb_neg_trans (a b c : string) :
  String.ltb b a = false -> String.ltb c b = false -> String.ltb c a = false.
Proof.
  revert b c. induction a as [|x a IH]; intros [|y b] [|z c]; [done..|].
  rewrite !string_ltb_cons.
  destruct (N.compare_spec (N_of_ascii y) (N_of_ascii x)), (N.compare_spec (N_of_ascii z) (N_of_ascii y)),
    (N.compare_spec (N_of_ascii z) (N_of_ascii x)); try done; try lia; eauto.
Qed.

Lemma string_ltb_irrefl (a : string) : String.ltb a a = false.
Proof. destruct (String.ltb a a) eqn:E; [|done]. by rewrite (string_ltb_asym _ _ E) in E. Qed.

Lemma string_ltb_total (a b : string) : String.ltb a b = false -> String.ltb b a = false -> a = b.
Proof.
  revert b. induction a as [|c a IH]; intros [|d b]; [done..|].
  rewrite !string_ltb_cons, (N.compare_antisym (N_of_ascii c)).
  destruct (N.compare_spec (N_of_ascii c) (N_of_ascii d)) as [E| |]; simpl; [|done..].
  intros H1 H2. f_equal; [|auto]. by rewrite <-(ascii_N_embedding c), E, ascii_N_embedding.
Qed.

(** ** Tactics and hints *)

Create HintDb corec.
Create Rewrite HintDb corec.

#[export] Hint Rewrite @length_app @length_take @length_drop @length_insert
  @length_map @length_reverse : corec.

(** Reduce a comparison made with [decide] to linear arithmetic. *)
Ltac decide_lia := repeat case_decide; simpl in *; try lia; try done.

(** Split every [match] of the goal, keeping the equations. *)
Ltac split_match :=
  match goal with
  | |- context [match ?x with _ => _ end] => destruct x eqn:?
  end.

(** ** Lemmas on fixed-width integers *)

Lemma wrapu_range w z : 0 <= w -> 0 <= wrapu w z < 2 ^ w.
Proof. intros. apply Z.mod_pos_bound. lia. Qed.

Lemma wrapu_idem w z : wrapu w (wrapu w z) = wrapu w z.
Proof. unfold wrapu. apply Zmod_mod. Qed.

Lemma wrapu_small w z : 0 <= z < 2 ^ w -> wrapu w z = z.
Proof. apply Z.mod_small. Qed.

Lemma u64_add a b : u64 (u64 a + b) = u64 (a + b).
Proof. unfold wrapu. apply Zplus_mod_idemp_l. Qed.

Lemma wraps_small w z :
  0 < w -> - 2 ^ (w - 1) <= z < 2 ^ (w - 1) -> wraps w z = z.
Proof.
  intros Hw Hz. unfold wraps.
  replace (2 ^ w) with (2 * 2 ^ (w - 1)) by (rewrite <- Z.pow_succ_r by lia; f_equal; lia).
  rewrite Z.mod_small; lia.
Qed.

Lemma wraps_range w z : 0 < w -> - 2 ^ (w - 1) <= wraps w z < 2 ^ (w - 1).
Proof.
  intros Hw. unfold wraps.
  assert (2 ^ w = 2 * 2 ^ (w - 1)) as E
    by (rewrite <- Z.pow_succ_r by lia; f_equal; lia).
  pose proof (Z.mod_pos_bound (z + 2 ^ (w - 1)) (2 ^ w)) as H.
  rewrite E in *. lia.
Qed.

(** Reading a wrapped integer back at the other signedness is the identity on
    the residue. *)
Lemma wraps_wrapu w z : 0 < w -> wraps w (wrapu w z) = wraps w z.
Proof.
  intros. unfold wraps, wrapu. by rewrite Zplus_mod_idemp_l.
Qed.

Lemma wrapu_wraps w z : 0 < w -> wrapu w (wraps w z) = wrapu w z.
Proof.
  intros. unfold wraps, wrapu. rewrite Zminus_mod_idemp_l. f_equal. lia.
Qed.

Lemma testbit_high b n i : 0 <= b < 2 ^ n -> n <= i -> Z.testbit b i = false.
Proof.
  intros Hb Hi. destruct (decide (b = 0)) as [->|]; [apply Z.bits_0|].
  apply Z.bits_above_log2; [lia|]. apply Z.log2_lt_pow2; [lia|].
  apply Z.lt_le_trans with (2 ^ n); [lia|]. apply Z.pow_le_mono_r; lia.
Qed.

(** Concatenating a high and a low half is addition. *)
Lemma lor_shiftl_add a b n :
  0 <= n -> 0 <= b < 2 ^ n -> Z.lor (Z.shiftl a n) b = a * 2 ^ n + b.
Proof.
  intros Hn Hb. rewrite <- Z.shiftl_mul_pow2 by lia.
  assert (Z.land (Z.shiftl a n) b = 0) as E; [|pose proof (Z.add_lor_land (Z.shiftl a n) b); lia].
  apply Z.bits_inj'. intros i Hi. rewrite Z.land_spec, Z.bits_0.
  destruct (decide (i < n)).
  - by rewrite Z.shiftl_spec_low by lia.
  - by rewrite (testbit_high b n i), andb_false_r by lia.
Qed.

Lemma length_be_put n z : length (be_put n z) = n.
Proof. induction n as [|n IH]; simpl; [done|]. by rewrite IH. Qed.

Lemma be_put_range n z : Forall (fun b => 0 <= b < 256) (be_put n z).
Proof. induction n as [|n IH]; simpl; constructor; [apply (wrapu_range 8); lia|done]. Qed.

Lemma be_uint_put_go n z acc :
  be_uint acc (be_put n z) = acc * 2 ^ (8 * Z.of_nat n) + z mod 2 ^ (8 * Z.of_nat n).
Proof.
  revert acc. induction n as [|n IH]; intros acc.
  { simpl. rewrite Z.mod_1_r. lia. }
  cbn [be_put be_uint]. rewrite IH, lor_shiftl_add by (lia || apply (wrapu_range 8); lia).
  unfold wrapu. rewrite Z.shiftr_div_pow2 by lia.
  replace (8 * Z.of_nat (S n)) with (8 * Z.of_nat n + 8) by lia.
  rewrite Z.pow_add_r by lia. rewrite (Z.rem_mul_r z (2 ^ (8 * Z.of_nat n)) (2 ^ 8)) by lia. lia.
Qed.

Lemma be_uint_put n z :
  0 <= z < 2 ^ (8 * Z.of_nat n) -> be_uint 0 (be_put n z) = z.
Proof. intros. rewrite be_uint_put_go, Z.mod_small by lia. lia. Qed.

(** ** Lemmas on strings *)

Lemma digit_val_char d : 0 <= d <= 9 -> digit_val (digit_char d) = Some d.
Proof.
  intros Hd. unfold digit_val, digit_char. rewrite N_ascii_embedding by lia.
  rewrite Z2N.id by lia. rewrite decide_True by lia. f_equal. lia.
Qed.

Lemma dec_go_parse fuel n acc :
  0 <= n < 10 ^ Z.of_nat fuel -> (0 < fuel)%nat ->
  parse_digits 0 (dec_go fuel n acc) = parse_digits n acc.
Proof.
  revert n acc. induction fuel as [|fuel IH]; intros n acc Hn Hf; [lia|]. cbn [dec_go].
  pose proof (Z.mod_pos_bound n 10 ltac:(lia)) as Hm. pose proof (Z.div_mod n 10 ltac:(lia)) as Hd.
  case_decide as Hlt.
  - cbn [parse_digits]. rewrite digit_val_char by lia. rewrite Z.mod_small by lia. done.
  - destruct (decide (fuel = 0)%nat) as [->|]; [simpl in Hn; lia|].
    rewrite IH; [|split; [apply Z.div_pos; lia|]|lia].
    + cbn [parse_digits]. rewrite digit_val_char by lia. f_equal. lia.
    + apply Z.div_lt_upper_bound; [lia|]. rewrite Nat2Z.inj_succ, Z.pow_succ_r in Hn by lia. lia.
Qed.

Lemma str_app_cons c (a b : string) : String c a +:+ b = String c (a +:+ b).
Proof. done. Qed.

Lemma str_app_nil_r (s : string) : s +:+ EmptyString = s.
Proof. induction s as [|c s IH]; [done|]. by rewrite str_app_cons, IH. Qed.

Lemma str_app_assoc (a b c : string) : (a +:+ b) +:+ c = a +:+ (b +:+ c).
Proof. induction a as [|x a IH]; [done|]. by rewrite !str_app_cons, IH. Qed.

Lemma str_prefix_app (p b : string) : String.prefix p (p +:+ b) = true.
Proof.
  induction p as [|c p IH]; [by destruct b|]. rewrite str_app_cons. cbn [String.prefix].
  destruct (ascii_dec c c); [done|congruence].
Qed.

Lemma str_contains_app (a p b : string) : str_contains (a +:+ p +:+ b) p = true.
Proof.
  unfold str_contains. assert (exists n, String.index 0 p (a +:+ p +:+ b) = Some n) as [n ->]; [|done].
  induction a as [|c a [n IH]].
  - change (EmptyString +:+ p +:+ b) with (p +:+ b). pose proof (str_prefix_app p b) as Hp.
    destruct (p +:+ b) as [|c s] eqn:E; [destruct p; [by exists 0%nat|done]|].
    exists 0%nat. cbn [String.index]. by rewrite Hp.
  - rewrite str_app_cons. cbn [String.index]. rewrite IH.
    destruct (String.prefix p _); by eexists.
Qed.

Lemma str_app_length (a b : string) :
  String.length (a +:+ b) = (String.length a + String.length b)%nat.
Proof. induction a as [|c a IH]; [done|]. simpl. by rewrite IH. Qed.

Lemma dec_go_nonempty fuel n acc : (0 < fuel)%nat -> dec_go fuel n acc <> EmptyString.
Proof.
  revert n acc. induction fuel as [|fuel IH]; intros n acc Hf; [lia|]. cbn [dec_go].
  case_decide; [done|]. destruct (decide (fuel = 0)%nat) as [->|]; [done|]. apply IH. lia.
Qed.

Lemma ParseUint_decimal w n :
  0 <= n < 10 ^ 20 -> n < 2 ^ w -> ParseUint (decimal n) w = Some n.
Proof.
  intros Hn Hw. unfold ParseUint, decimal.
  destruct (dec_go 20 n EmptyString) as [|c s] eqn:E; [by apply dec_go_nonempty in E; [|lia]|].
  rewrite <- E, dec_go_parse by lia. simpl. by rewrite decide_True.
Qed.

(** ** Lemmas on lists *)

(** Sums. *)
Definition zsum (l : list Z) : Z := foldr Z.add 0 l.

Lemma zsum_app l k : zsum (l ++ k) = zsum l + zsum k.
Proof. induction l as [|x l IH]; cbn; [done|]. unfold zsum in *. rewrite IH. lia. Qed.

Lemma zsum_nonneg l : Forall (fun x => 0 <= x) l -> 0 <= zsum l.
Proof. induction 1; cbn; [done|]. unfold zsum in *. lia. Qed.

Lemma zsum_bound l m : Forall (fun x => x <= m) l -> zsum l <= m * Z.of_nat (length l).
Proof. induction 1; cbn; [lia|]. unfold zsum in *. lia. Qed.

Lemma zsum_fmap_add {A} (f g : A -> Z) l : zsum ((fun x => f x + g x) <$> l) = zsum (f <$> l) + zsum (g <$> l).
Proof. induction l as [|x l IH]; cbn; [done|]. unfold zsum in *. rewrite IH. lia. Qed.

(** One index of a range carries the value [n], the others nothing. *)
Lemma zsum_single (j k m : nat) n : (m <= j < m + k)%nat ->
  zsum ((fun i => if decide (i = j) then n else 0) <$> seq m k) = n.
Proof.
  revert m. induction k as [|k IH]; intros m Hj; [lia|]. cbn. case_decide as Hm.
  - assert (Hz : foldr Z.add 0 ((fun i => if decide (i = j) then n else 0) <$> seq (S m) k) = 0); [|lia].
    clear IH. subst j. assert (Hlt : (m < S m)%nat) by lia. revert Hlt. generalize (S m).
    induction k as [|k IH]; intros p Hp; cbn; [done|]. rewrite decide_False by lia. rewrite IH; lia.
  - unfold zsum in IH. rewrite (IH (S m)); lia.
Qed.

Lemma filter_none {A} (P : A -> Prop) `{forall x, Decision (P x)} (l : list A) :
  Forall (fun x => ~ P x) l -> filter P l = [].
Proof. induction 1 as [|x l Hx _ IH]; [done|]. by rewrite filter_cons_False. Qed.

Lemma filter_all {A} (P : A -> Prop) `{forall x, Decision (P x)} (l : list A) :
  Forall P l -> filter P l = l.
Proof. induction 1 as [|x l Hx _ IH]; [done|]. by rewrite filter_cons_True, IH. Qed.

Lemma Forall_filter {A} (P Q : A -> Prop) `{forall x, Decision (P x)} (l : list A) :
  Forall Q l -> Forall Q (filter P l).
Proof. rewrite !Forall_forall. intros Hl x [_ Hx]%list_elem_of_filter. auto. Qed.

Lemma filter_ext_in {A} (P Q : A -> Prop) `{forall x, Decision (P x)} `{forall x, Decision (Q x)}
    (l : list A) :
  (forall x, x ∈ l -> P x <-> Q x) -> filter P l = filter Q l.
Proof.
  induction l as [|x l IH]; intros Hl; [done|].
  assert (P x <-> Q x) by (apply Hl; constructor).
  rewrite !filter_cons, IH by (intros; apply Hl; by constructor). repeat case_decide; naive_solver.
Qed.

(** Grouping by a list of distinct keys that has every key is a permutation. *)
Lemma groups_perm {A K} `{EqDecision K} (key : A -> K) (keys : list K) (l : list A) :
  NoDup keys -> (forall x, x ∈ l -> key x ∈ keys) ->
  concat ((fun k => filter (fun x => key x = k) l) <$> keys) ≡ₚ l.
Proof.
  intros Hnd. revert l. induction Hnd as [|k keys Hk Hnd IH]; intros l Hl; simpl.
  { destruct l as [|x l]; [done|]. exfalso. apply (elem_of_nil (key x)). apply Hl. constructor. }
  etrans; [|apply (filter_app_complement (fun x => key x = k))]. f_equiv.
  rewrite <- (IH (filter (fun x => key x <> k) l)).
  - apply Permutation_refl'. f_equal. apply list_fmap_ext. intros i k' Hi.
    rewrite list_filter_filter. apply filter_ext_in. intros x Hx.
    assert (k' <> k) by (intros ->; apply Hk; by eapply list_elem_of_lookup_2). naive_solver.
  - intros x [Hx Hin]%list_elem_of_filter. specialize (Hl x Hin).
    apply elem_of_cons in Hl as [?|?]; done.
Qed.

Lemma StronglySorted_filter {A} (R : relation A) (P : A -> Prop) `{forall x, Decision (P x)} l :
  StronglySorted R l -> StronglySorted R (filter P l).
Proof.
  induction 1 as [|x l Hs IH Hx]; [constructor|]. rewrite filter_cons.
  case_decide; [|done]. constructor; [done|].
  apply Forall_forall. intros y [_ Hy]%list_elem_of_filter.
  rewrite Forall_forall in Hx. by apply Hx.
Qed.

Lemma StronglySorted_seq n k : StronglySorted lt (seq n k).
Proof.
  revert n. induction k as [|k IH]; intros n; simpl; [constructor|].
  constructor; [done|]. apply Forall_forall. intros i [? ?]%elem_of_seq. lia.
Qed.

Lemma StronglySorted_impl {A} (R R' : relation A) l :
  (forall x y, R x y -> R' x y) -> StronglySorted R l -> StronglySorted R' l.
Proof.
  intros Hi. induction 1 as [|x l Hs IH Hx]; constructor; [done|].
  eapply Forall_impl; [done|]. auto.
Qed.

(** ** Lemmas on results *)

Lemma res_bind_ok {A B} (r : res A) (k : A -> res B) b :
  res_bind r k = Ok b -> exists a, r = Ok a /\ k a = Ok b.
Proof. destruct r; naive_solver. Qed.

Lemma go_index_ok {A} (l : list A) i a :
  go_index l i = Ok a <-> 0 <= i /\ l !! Z.to_nat i = Some a.
Proof.
  unfold go_index. case_decide; [naive_solver lia|].
  destruct (l !! Z.to_nat i); naive_solver lia.
Qed.

Lemma go_index_lookup {A} (l : list A) i a :
  0 <= i -> l !! Z.to_nat i = Some a -> go_index l i = Ok a.
Proof. intros. by apply go_index_ok. Qed.
