(* ===== verification/GoFloat.v ===== *)
(** * IEEE 754 arithmetic of Go's [float32] and [float64]

    Values are the library's [spec_float] (a sign, a mantissa and an exponent,
    or a special), the operations are its correctly rounded ones at the two
    formats' parameters, and the bit encodings of [math.Float32frombits],
    [math.Float64bits] and their converses are written out.  A conversion to
    an integer type truncates; when the truncated value does not fit, the
    language leaves the result to the architecture, which is a parameter
    ([GoArch]).  A NaN has no payload here. *)

From Stdlib Require Import ZArith Lia SpecFloat.
From S2P Require Import Prelude.
From stdpp Require Import base list.

Open Scope Z_scope.

Definition float := spec_float.

(** A binary format: the width of the mantissa field and of the exponent. *)
Record fmt := mkFmt { fmt_prec : Z; fmt_emax : Z; fmt_ebits : Z }.

Definition F32 : fmt := mkFmt 24 128 8.
Definition F64 : fmt := mkFmt 53 1024 11.

Section format.
Variable f : fmt.

Definition fadd (x y : float) : float := SFadd (fmt_prec f) (fmt_emax f) x y.
Definition fsub (x y : float) : float := SFsub (fmt_prec f) (fmt_emax f) x y.
Definition fmul (x y : float) : float := SFmul (fmt_prec f) (fmt_emax f) x y.
Definition fdiv (x y : float) : float := SFdiv (fmt_prec f) (fmt_emax f) x y.

(** Conversion of an integer, and of a value of another format. *)
Definition f_of_Z (z : Z) : float :=
  binary_normalize (fmt_prec f) (fmt_emax f) z 0 false.

Definition f_round (x : float) : float :=
  match x with
  | S754_finite s m e =>
      binary_normalize (fmt_prec f) (fmt_emax f) (cond_Zopp s (Zpos m)) e s
  | _ => x
  end.

(** The bit encoding. *)
Definition f_emin : Z := emin (fmt_prec f) (fmt_emax f).
Definition f_hidden : Z := 2 ^ (fmt_prec f - 1).
Definition f_expmax : Z := 2 ^ fmt_ebits f - 1.
Definition f_signbit (s : bool) : Z :=
  if s then 2 ^ fmt_ebits f * f_hidden else 0.

Definition f_bits (x : float) : Z :=
  match x with
  | S754_zero s => f_signbit s
  | S754_infinity s => f_signbit s + f_expmax * f_hidden
  | S754_nan => f_expmax * f_hidden + f_hidden / 2
  | S754_finite s m e =>
      if decide (f_hidden <= Zpos m) then
        f_signbit s + (e - f_emin + 1) * f_hidden + (Zpos m - f_hidden)
      else f_signbit s + Zpos m
  end.

Definition f_frombits (b : Z) : float :=
  let s := bool_decide (2 ^ fmt_ebits f <= b / f_hidden) in
  let e := (b / f_hidden) mod 2 ^ fmt_ebits f in
  let m := b mod f_hidden in
  if decide (e = f_expmax) then
    (if decide (m = 0) then S754_infinity s else S754_nan)
  else if decide (e = 0) then
    match m with Zpos p => S754_finite s p f_emin | _ => S754_zero s end
  else
    match m + f_hidden with
    | Zpos p => S754_finite s p (e - 1 + f_emin)
    | _ => S754_zero s
    end.

Definition f_valid (x : float) : bool :=
  valid_binary (fmt_prec f) (fmt_emax f) x.
End format.

(** Comparisons ([==], [<], [<=] of Go are false on a NaN). *)
Definition feqb : float -> float -> bool := SFeqb.
Definition fltb : float -> float -> bool := SFltb.
Definition fleb : float -> float -> bool := SFleb.
Definition fabs : float -> float := SFabs.
Definition fopp : float -> float := SFopp.
Definition f_is_nan (x : float) : bool := match x with S754_nan => true | _ => false end.

(** Neither [math.IsNaN] nor [math.IsInf]. *)
Definition f_finite (f : float) : bool :=
  match f with S754_nan | S754_infinity _ => false | _ => true end.

Definition f_zero : float := S754_zero false.
Definition f_one : float := f_of_Z F64 1.

(** Truncation towards zero; none for NaN and the infinities. *)
Definition f_trunc (x : float) : option Z :=
  match x with
  | S754_zero _ => Some 0
  | S754_finite s m e => Some (cond_Zopp s (Z.shiftl (Zpos m) e))
  | _ => None
  end.

(** What the architecture does with an out-of-range conversion: the float, the
    signedness and the width. *)
Class GoArch := arch_f2i : float -> bool -> Z -> Z.

Section arch.
Context `{GoArch}.

Definition f_to_u (w : Z) (x : float) : Z :=
  match f_trunc x with
  | Some z => if decide (0 <= z < 2 ^ w) then z else wrapu w (arch_f2i x false w)
  | None => wrapu w (arch_f2i x false w)
  end.

Definition f_to_s (w : Z) (x : float) : Z :=
  match f_trunc x with
  | Some z =>
      if decide (- 2 ^ (w - 1) <= z < 2 ^ (w - 1)) then z
      else wraps w (arch_f2i x true w)
  | None => wraps w (arch_f2i x true w)
  end.
End arch.

(** The two conversions of the amd64 back end on values that do not fit a
    64-bit register: the integer indefinite value. *)
Definition amd64_f2i : GoArch := fun _ _ _ => - 2 ^ 63.

(** ** The bit encoding round trips *)

Definition fmt_ok (f : fmt) : Prop :=
  2 <= fmt_prec f /\ 2 <= fmt_ebits f /\
  fmt_emax f = 2 ^ (fmt_ebits f - 1).

Lemma F32_ok : fmt_ok F32.
Proof. by repeat split. Qed.

Lemma F64_ok : fmt_ok F64.
Proof. by repeat split. Qed.

Lemma digits2_pos_bound p :
  2 ^ (Zpos (digits2_pos p) - 1) <= Zpos p < 2 ^ Zpos (digits2_pos p).
Proof.
  induction p as [p IH|p IH|]; simpl digits2_pos; [| |done].
  all: rewrite Pos2Z.inj_succ; unfold Z.succ;
    rewrite (Z.add_simpl_r (Zpos (digits2_pos p)) 1).
  all: pose proof (Pos2Z.is_pos (digits2_pos p)).
  all: assert (2 ^ Z.pos (digits2_pos p) = 2 * 2 ^ (Z.pos (digits2_pos p) - 1)) as E1
    by (rewrite <- Z.pow_succ_r by lia; f_equal; lia).
  all: rewrite Z.pow_add_r by lia; lia.
Qed.

Section roundtrip.
Context (f : fmt) (Hf : fmt_ok f).

Lemma f_hidden_pos : 0 < f_hidden f /\ 2 ^ fmt_prec f = 2 * f_hidden f.
Proof.
  destruct Hf as (Hp & He & Hm). unfold f_hidden. split; [lia|].
  rewrite <- Z.pow_succ_r by lia. f_equal. lia.
Qed.

(** The mantissa of a valid finite value is normal, or its exponent is the
    smallest one. *)
Lemma f_valid_finite s m e :
  f_valid f (S754_finite s m e) = true ->
  (f_hidden f <= Zpos m < 2 * f_hidden f /\ f_emin f <= e < f_emin f + f_expmax f - 1)
  \/ (Zpos m < f_hidden f /\ e = f_emin f).
Proof.
  intros Hv. destruct Hf as (Hp & He & Hm). pose proof f_hidden_pos as [Hh HP].
  unfold f_valid, valid_binary, bounded, canonical_mantissa, fexp in Hv.
  apply andb_prop in Hv as [Hc Hb]. apply Z.eqb_eq in Hc. apply Z.leb_le in Hb.
  fold (f_emin f) in Hc.
  pose proof (digits2_pos_bound m) as [Hl Hu].
  set (d := Zpos (digits2_pos m)) in *.
  assert (d = fmt_prec f \/ d < fmt_prec f /\ e = f_emin f) as [Hd|[Hd ->]] by lia.
  - left. rewrite Hd in *. unfold f_hidden. fold (f_hidden f).
    split; [unfold f_hidden in *; lia|].
    unfold f_expmax, f_emin, emin in *.
    assert (2 ^ fmt_ebits f = 2 * 2 ^ (fmt_ebits f - 1))
      by (rewrite <- Z.pow_succ_r by lia; f_equal; lia).
    lia.
  - right. split; [|done].
    apply Z.lt_le_trans with (2 ^ d); [lia|]. apply Z.pow_le_mono_r; lia.
Qed.

(** Splitting [sign + e * hidden + m] into its three fields. *)
Lemma f_fields s e m :
  0 <= e < 2 ^ fmt_ebits f -> 0 <= m < f_hidden f ->
  let b := f_signbit f s + e * f_hidden f + m in
  bool_decide (2 ^ fmt_ebits f <= b / f_hidden f) = s /\
  (b / f_hidden f) mod 2 ^ fmt_ebits f = e /\ b mod f_hidden f = m.
Proof.
  intros He Hm b. pose proof f_hidden_pos as [Hh _].
  set (q := (if s then 2 ^ fmt_ebits f else 0) + e).
  assert (b = q * f_hidden f + m) as ->
    by (unfold b, q, f_signbit; destruct s; lia).
  rewrite Z.div_add_l, Z.div_small, Z.add_0_r by lia.
  rewrite Z.add_comm, Z_mod_plus_full, (Z.mod_small m) by lia.
  unfold q. destruct s.
  - rewrite bool_decide_eq_true_2 by lia. split_and!; [done| |done].
    rewrite Z.add_comm. replace (2 ^ fmt_ebits f) with (1 * 2 ^ fmt_ebits f) at 1 by lia.
    rewrite Z_mod_plus_full. by apply Z.mod_small.
  - rewrite bool_decide_eq_false_2 by lia. split_and!; [done| |done].
    by apply Z.mod_small.
Qed.

(** Decoding the fields of an encoding. *)
Lemma f_frombits_fields s e m :
  0 <= e < 2 ^ fmt_ebits f -> 0 <= m < f_hidden f ->
  f_frombits f (f_signbit f s + e * f_hidden f + m) =
  if decide (e = f_expmax f) then
    (if decide (m = 0) then S754_infinity s else S754_nan)
  else if decide (e = 0) then
    match m with Zpos p => S754_finite s p (f_emin f) | _ => S754_zero s end
  else
    match m + f_hidden f with
    | Zpos p => S754_finite s p (e - 1 + f_emin f)
    | _ => S754_zero s
    end.
Proof.
  intros He Hm. destruct (f_fields s e m He Hm) as (Es & Ee & Em).
  unfold f_frombits. by rewrite Es, Ee, Em.
Qed.

Lemma f_expmax_bound : 3 <= f_expmax f < 2 ^ fmt_ebits f.
Proof.
  destruct Hf as (? & He & _). unfold f_expmax.
  assert (2 ^ 2 <= 2 ^ fmt_ebits f) by (apply Z.pow_le_mono_r; lia). lia.
Qed.

Lemma f_frombits_bits x : f_valid f x = true -> f_frombits f (f_bits f x) = x.
Proof.
  intros Hv. pose proof f_hidden_pos as [Hh _]. pose proof f_expmax_bound as Hx.
  destruct x as [s|s| |s m e]; simpl.
  - replace (f_signbit f s) with (f_signbit f s + 0 * f_hidden f + 0) by lia.
    rewrite f_frombits_fields by lia. decide_lia.
  - replace (f_signbit f s + _) with (f_signbit f s + f_expmax f * f_hidden f + 0) by lia.
    rewrite f_frombits_fields by lia. decide_lia.
  - replace (f_expmax f * _ + _)
      with (f_signbit f false + f_expmax f * f_hidden f + f_hidden f / 2) by (simpl; lia).
    assert (1 <= f_hidden f / 2 < f_hidden f) as Hq.
    { destruct Hf as (Hp & _). unfold f_hidden in *.
      replace (fmt_prec f - 1) with (1 + (fmt_prec f - 2)) by lia.
      rewrite Z.pow_add_r, Z.pow_1_r, (Z.mul_comm 2), Z.div_mul by lia. lia. }
    rewrite f_frombits_fields by lia. decide_lia.
  - apply f_valid_finite in Hv as [[Hm He]|[Hm ->]].
    + rewrite decide_True by lia. rewrite f_frombits_fields by lia.
      rewrite !decide_False by lia.
      replace (Z.pos m - f_hidden f + f_hidden f) with (Z.pos m) by lia.
      f_equal. lia.
    + rewrite decide_False by lia.
      replace (f_signbit f s + _) with (f_signbit f s + 0 * f_hidden f + Z.pos m) by lia.
      rewrite f_frombits_fields by lia. decide_lia.
Qed.

Lemma f_bits_range x :
  f_valid f x = true -> 0 <= f_bits f x < 2 ^ (fmt_prec f + fmt_ebits f).
Proof.
  intros Hv. pose proof f_hidden_pos as [Hh HP]. pose proof f_expmax_bound as Hx.
  destruct Hf as (Hp & He & _).
  rewrite Z.pow_add_r, HP by lia.
  assert (forall s, 0 <= f_signbit f s <= 2 ^ fmt_ebits f * f_hidden f)
    as Hs by (intros []; unfold f_signbit; lia).
  destruct x as [s|s| |s m e]; simpl; try specialize (Hs s).
  - nia.
  - nia.
  - assert (f_hidden f / 2 < f_hidden f) by (apply Z.div_lt; lia).
    assert (0 <= f_hidden f / 2) by (apply Z.div_pos; lia). nia.
  - apply f_valid_finite in Hv as [[Hm Hee]|[Hm ->]]; case_decide; nia.
Qed.
End roundtrip.
