(* ===== verification/GoTime.v ===== *)
(** * [time.ParseDuration]

    The standard library's duration parser, as the configuration loader uses
    it: an optional sign, then numbers with an optional fraction and a unit.
    Durations are [int64] nanoseconds. *)

From Stdlib Require Import ZArith Lia String Ascii.
From stdpp Require Import base list strings.
From S2P Require Import Prelude GoFloat.

Open Scope Z_scope.

(** [leadingInt]: the digits at the head; none on overflow of [2^63]. *)
Fixpoint leadingInt (x : Z) (s : string) : option (Z * string) :=
  match s with
  | String c s' =>
      match digit_val c with
      | Some d =>
          if decide (x > 2 ^ 63 / 10) then None
          else let y := x * 10 + d in
               if decide (y > 2 ^ 63) then None else leadingInt y s'
      | None => Some (x, s)
      end
  | EmptyString => Some (x, s)
  end.

(** [leadingFraction]: the digits after the point and the power of ten, the
    digits beyond the precision skipped. *)
Fixpoint leadingFraction (x : Z) (scale : float) (overflow : bool) (s : string)
  : Z * float * string :=
  match s with
  | String c s' =>
      match digit_val c with
      | Some d =>
          if overflow then leadingFraction x scale true s'
          else if decide (x > (2 ^ 63 - 1) / 10) then leadingFraction x scale true s'
          else let y := x * 10 + d in
               if decide (y > 2 ^ 63) then leadingFraction x scale true s'
               else leadingFraction y (fmul F64 scale (f_of_Z F64 10)) false s'
      | None => (x, scale, s)
      end
  | EmptyString => (x, scale, s)
  end.

(** The unit: the characters up to the next digit or point. *)
Fixpoint leadingUnit (s : string) : string * string :=
  match s with
  | String c s' =>
      if decide (c = "."%char) then (EmptyString, s)
      else match digit_val c with
           | Some _ => (EmptyString, s)
           | None => let '(u, r) := leadingUnit s' in (String c u, r)
           end
  | EmptyString => (EmptyString, EmptyString)
  end.

Definition unitMap (u : string) : option Z :=
  if decide (u = "ns"%string) then Some 1
  else if decide (u = "us"%string) then Some 1000
  else if decide (u = "µs"%string) then Some 1000
  else if decide (u = "μs"%string) then Some 1000
  else if decide (u = "ms"%string) then Some millisecond
  else if decide (u = "s"%string) then Some second
  else if decide (u = "m"%string) then Some minute
  else if decide (u = "h"%string) then Some (60 * minute)
  else None.

(** One number with its unit, in nanoseconds, and the rest of the text. *)
Definition parseTerm `{GoArch} (s : string) : option (Z * string) :=
  match s with
  | EmptyString => None
  | String c _ =>
      if decide (c = "."%char \/ digit_val c <> None) then
        match leadingInt 0 s with
        | None => None
        | Some (v, s1) =>
            let pre := negb (String.length s =? String.length s1)%nat in
            let '(f, scale, s2, post) :=
              match s1 with
              | String "."%char t =>
                  let '(f, scale, t') := leadingFraction 0 f_one false t in
                  (f, scale, t', negb (String.length t =? String.length t')%nat)
              | _ => (0, f_one, s1, false)
              end in
            if negb pre && negb post then None
            else
              let '(u, s3) := leadingUnit s2 in
              match unitMap u with
              | None => None
              | Some unit =>
                  if decide (v > 2 ^ 63 / unit) then None
                  else
                    let v1 := v * unit in
                    if decide (f > 0) then
                      let v2 := v1 + f_to_u 64 (fmul F64 (f_of_Z F64 f)
                                  (fdiv F64 (f_of_Z F64 unit) scale)) in
                      if decide (v2 > 2 ^ 63) then None else Some (v2, s3)
                    else Some (v1, s3)
              end
        end
      else None
  end.

Fixpoint parseTerms `{GoArch} (fuel : nat) (d : Z) (s : string) : option Z :=
  match fuel with
  | O => None
  | S fuel' =>
      match s with
      | EmptyString => Some d
      | _ =>
          match parseTerm s with
          | None => None
          | Some (v, s') =>
              if decide (d + v > 2 ^ 63) then None else parseTerms fuel' (d + v) s'
          end
      end
  end.

(** Every term consumes at least one character, so the length of the text is
    enough fuel. *)
Definition ParseDuration `{GoArch} (s : string) : option Z :=
  let '(neg, t) :=
    match s with
    | String "-"%char t => (true, t)
    | String "+"%char t => (false, t)
    | _ => (false, s)
    end in
  if decide (t = "0"%string) then Some 0
  else match t with
       | EmptyString => None
       | _ =>
           match parseTerms (S (String.length t)) 0 t with
           | None => None
           | Some d =>
               if neg then Some (- d)
               else if decide (d > 2 ^ 63 - 1) then None else Some d
           end
       end.

(** ** The errors of [time.ParseDuration] *)

(** [quote] of package [time]: bytes outside printable ASCII are escaped. *)
Fixpoint time_quote_body (s : string) : string :=
  match s with
  | EmptyString => EmptyString
  | String c s' =>
      let n := N_of_ascii c in
      if decide (128 <= n \/ n < 32)%N then
        "\x" +:+ String (hex_char (n / 16)%N) (String (hex_char (n mod 16)%N) (time_quote_body s'))
      else if decide (n = 34 \/ n = 92)%N then String "\" (String c (time_quote_body s'))
      else String c (time_quote_body s')
  end.

Definition time_quote (s : string) : string :=
  String (ascii_of_N 34) (time_quote_body s +:+ String (ascii_of_N 34) EmptyString).

(** The unit a number is followed by, when the text starts with a number. *)
Definition unitAt (s : string) : option string :=
  match s with
  | EmptyString => None
  | String c _ =>
      if decide (c = "."%char \/ digit_val c <> None) then
        match leadingInt 0 s with
        | None => None
        | Some (_, s1) =>
            let pre := negb (String.length s =? String.length s1)%nat in
            let '(s2, post) :=
              match s1 with
              | String "."%char t =>
                  let '(_, _, t') := leadingFraction 0 f_one false t in
                  (t', negb (String.length t =? String.length t')%nat)
              | _ => (s1, false)
              end in
            if negb pre && negb post then None else Some (leadingUnit s2).1
        end
      else None
  end.

Fixpoint termsError `{GoArch} (fuel : nat) (d : Z) (orig s : string) : error :=
  let invalid := ErrFmt ("time: invalid duration " +:+ time_quote orig) in
  match fuel with
  | O => invalid
  | S fuel' =>
      match parseTerm s with
      | Some (v, s') =>
          if decide (d + v > 2 ^ 63) then invalid else termsError fuel' (d + v) orig s'
      | None =>
          match unitAt s with
          | Some EmptyString => ErrFmt ("time: missing unit in duration " +:+ time_quote orig)
          | Some u =>
              match unitMap u with
              | None => ErrFmt ("time: unknown unit " +:+ time_quote u +:+ " in duration "
                                +:+ time_quote orig)
              | Some _ => invalid
              end
          | None => invalid
          end
      end
  end.

(** The error [ParseDuration] returns for a text it does not accept. *)
Definition durationError `{GoArch} (s : string) : error :=
  let t := match s with
           | String "-"%char t | String "+"%char t => t
           | _ => s
           end in
  termsError (S (String.length t)) 0 s t.

(** ** Results fit in an [int64] *)

Lemma digit_val_range c d : digit_val c = Some d -> 0 <= d <= 9.
Proof. unfold digit_val. case_decide; naive_solver lia. Qed.

Lemma leadingInt_nonneg x s v t : 0 <= x -> leadingInt x s = Some (v, t) -> 0 <= v.
Proof.
  revert x. induction s as [|c s IH]; intros x Hx Hl; simpl in Hl; [naive_solver|].
  destruct (digit_val c) as [d|] eqn:E; [|naive_solver].
  apply digit_val_range in E. case_decide; [done|]. case_decide; [done|].
  eapply IH; [|done]. lia.
Qed.

Lemma unitMap_pos u z : unitMap u = Some z -> 0 < z.
Proof.
  unfold unitMap. intros Hz. repeat case_decide; simplify_eq; done.
Qed.

Lemma parseTerm_nonneg `{GoArch} s v t : parseTerm s = Some (v, t) -> 0 <= v.
Proof.
  unfold parseTerm. destruct s as [|c s]; [done|]. case_decide; [|done].
  destruct (leadingInt 0 _) as [[x s1]|] eqn:E; [|done].
  apply leadingInt_nonneg in E; [|lia].
  destruct (match s1 with EmptyString => _ | _ => _ end) as [[[f sc] s2] post].
  destruct (negb _ && negb post); [done|]. destruct (leadingUnit s2) as [u s3].
  destruct (unitMap u) as [z|] eqn:Eu; [|done]. apply unitMap_pos in Eu.
  case_decide; [done|]. case_decide.
  - case_decide; [done|]. intros [= <- <-].
    assert (0 <= f_to_u 64 (fmul F64 (f_of_Z F64 f) (fdiv F64 (f_of_Z F64 z) sc))); [|nia].
    unfold f_to_u. destruct (f_trunc _); [case_decide; [lia|]|];
      apply wrapu_range; lia.
  - intros [= <- <-]. nia.
Qed.

Lemma parseTerms_bound `{GoArch} fuel d s r :
  0 <= d <= 2 ^ 63 -> parseTerms fuel d s = Some r -> 0 <= r <= 2 ^ 63.
Proof.
  revert d s. induction fuel as [|fuel IH]; intros d s Hd Hr; [done|].
  simpl in Hr. destruct s; [naive_solver|].
  destruct (parseTerm _) as [[v s']|] eqn:E; [|done]. case_decide; [done|].
  apply parseTerm_nonneg in E. eapply IH; [|done]. lia.
Qed.

Lemma ParseDuration_range `{GoArch} s d :
  ParseDuration s = Some d -> minInt64 <= d <= maxInt64.
Proof.
  unfold ParseDuration, minInt64, maxInt64.
  destruct (match s with EmptyString => _ | _ => _ end) as [neg t].
  case_decide; [intros [= <-]; lia|]. destruct t as [|c t]; [done|].
  destruct (parseTerms _ _ _) as [r|] eqn:E; [|done].
  apply parseTerms_bound in E; [|lia]. destruct neg; [intros [= <-]; lia|].
  case_decide; [done|]. intros [= <-]. lia.
Qed.

(** ** Printing: [time.Duration.String] *)

(** [fmtFrac]: the [prec] digits of a fraction without trailing zeros. *)
Fixpoint fmtFrac (prec : nat) (v : Z) (tail : string) : string :=
  match prec with
  | O => match tail with EmptyString => EmptyString | _ => String "." tail end
  | S prec' =>
      let d := v mod 10 in
      fmtFrac prec' (v / 10)
        (match tail with
         | EmptyString => if decide (d = 0) then EmptyString else String (digit_char d) tail
         | _ => String (digit_char d) tail
         end)
  end.

Definition fmt_unit (u : Z) (prec : nat) (name : string) : string :=
  decimal (u / 10 ^ Z.of_nat prec) +:+ fmtFrac prec u EmptyString +:+ name.

Definition Duration_String (d : Z) : string :=
  let u := Z.abs d in
  let body :=
    if decide (u = 0) then "0s"%string
    else if decide (u < 1000) then fmt_unit u 0 "ns"
    else if decide (u < 1000000) then fmt_unit u 3 "µs"
    else if decide (u < second) then fmt_unit u 6 "ms"
    else
      let secs := u / second in
      let sec := decimal (secs mod 60) +:+ fmtFrac 9 u EmptyString +:+ "s" in
      let mins := secs / 60 in
      if decide (mins = 0) then sec
      else
        let min := decimal (mins mod 60) +:+ "m" +:+ sec in
        let hours := mins / 60 in
        if decide (hours = 0) then min else decimal hours +:+ "h" +:+ min in
  if decide (d < 0) then String "-" body else body.

(** [d.Round(m)] of a duration that is not negative, for [0 < m]. *)
Definition Duration_Round (d m : Z) : Z :=
  let r := d mod m in
  if decide (r + r < m) then d - r else d + m - r.

Example Duration_String_examples :
  (Duration_String 0, Duration_String 1500000, Duration_String 200000000,
   Duration_String 90000000000, Duration_String (-3723500000000), Duration_String 1500)
  = ("0s", "1.5ms", "200ms", "1m30s", "-1h2m3.5s", "1.5µs")%string.
Proof. vm_compute. reflexivity. Qed.

Example durationError_examples :
  error_text <$> [durationError (H := amd64_f2i) ""; durationError (H := amd64_f2i) "10";
    durationError (H := amd64_f2i) "1h5q"; durationError (H := amd64_f2i) "-x"]
  = ["time: invalid duration " +:+ time_quote ""; "time: missing unit in duration " +:+ time_quote "10";
     "time: unknown unit " +:+ time_quote "q" +:+ " in duration " +:+ time_quote "1h5q";
     "time: invalid duration " +:+ time_quote "-x"]%string.
Proof. vm_compute. reflexivity. Qed.

(** ** [t.Sub(u)] saturates *)
Definition time_Sub (t u : Z) : Z := Z.max minInt64 (Z.min maxInt64 (t - u)).

(** ** [d.Seconds()]: the whole seconds and the rest are converted apart *)
Definition Duration_Seconds (d : Z) : float :=
  fadd F64 (f_of_Z F64 (Z.quot d second)) (fdiv F64 (f_of_Z F64 (Z.rem d second)) (f_of_Z F64 (10 ^ 9))).
