(* ===== verification/Types.v ===== *)
(** * The shared data model ([core/types.go], [core/json_decode.go])

    The data types, qualities, connection states and actions, the dynamic
    values that flow through the program (Go's [any]), and the records built
    from them. *)

From Stdlib Require Import ZArith Lia String.
From stdpp Require Import base list gmap strings.
From S2P Require Import Prelude GoFloat.

Open Scope Z_scope.

(** ** Data types

    [DataType] is an [int]: the thirteen named codes, and any other integer a
    loader may store. *)
Inductive DataType : Type :=
| TypeBool | TypeInt8 | TypeInt16 | TypeInt32 | TypeInt64
| TypeUint8 | TypeUint16 | TypeUint32 | TypeUint64
| TypeFloat32 | TypeFloat64 | TypeString | TypeBytes
| TypeOther (n : Z).

#[export] Instance DataType_eq_dec : EqDecision DataType.
Proof. solve_decision. Defined.

(** [DataType(n)]. *)
Definition DataType_of_int (n : Z) : DataType :=
  match n with
  | 0 => TypeBool | 1 => TypeInt8 | 2 => TypeInt16 | 3 => TypeInt32
  | 4 => TypeInt64 | 5 => TypeUint8 | 6 => TypeUint16 | 7 => TypeUint32
  | 8 => TypeUint64 | 9 => TypeFloat32 | 10 => TypeFloat64
  | 11 => TypeString | 12 => TypeBytes
  | _ => TypeOther n
  end.

(** [dataTypeNames]. *)
Definition dataTypeNames (d : DataType) : option string :=
  match d with
  | TypeBool => Some "bool" | TypeInt8 => Some "int8" | TypeInt16 => Some "int16"
  | TypeInt32 => Some "int32" | TypeInt64 => Some "int64"
  | TypeUint8 => Some "uint8" | TypeUint16 => Some "uint16"
  | TypeUint32 => Some "uint32" | TypeUint64 => Some "uint64"
  | TypeFloat32 => Some "float32" | TypeFloat64 => Some "float64"
  | TypeString => Some "string" | TypeBytes => Some "bytes"
  | TypeOther _ => None
  end%string.

(** [DataType.String]. *)
Definition DataType_String (d : DataType) : string :=
  match dataTypeNames d with Some s => s | None => "unknown"%string end.

(** [dataTypeFromString]. *)
Definition dataTypeFromString : gmap string DataType :=
  list_to_map
    [("bool", TypeBool); ("int8", TypeInt8); ("int16", TypeInt16);
     ("int32", TypeInt32); ("int64", TypeInt64); ("uint8", TypeUint8);
     ("uint16", TypeUint16); ("uint32", TypeUint32); ("uint64", TypeUint64);
     ("float32", TypeFloat32); ("float64", TypeFloat64);
     ("string", TypeString); ("bytes", TypeBytes)]%string.

(** [ParseDataType]: the zero value of [DataType] and [false] on a miss. *)
Definition ParseDataType (s : string) : DataType * bool :=
  match dataTypeFromString !! s with
  | Some d => (d, true)
  | None => (TypeBool, false)
  end.

(** ** Qualities, connection states, actions *)

Inductive Quality : Type :=
| QualityGood | QualityBad | QualityUncertain | QualityOther (n : Z).

#[export] Instance Quality_eq_dec : EqDecision Quality.
Proof. solve_decision. Defined.

Definition Quality_String (q : Quality) : string :=
  match q with
  | QualityGood => "good" | QualityBad => "bad"
  | QualityUncertain => "uncertain" | QualityOther _ => "unknown"
  end.

Inductive ConnState : Type :=
| StateDisconnected | StateConnecting | StateConnected | StateError.

#[export] Instance ConnState_eq_dec : EqDecision ConnState.
Proof. solve_decision. Defined.

Definition ConnState_String (s : ConnState) : string :=
  match s with
  | StateDisconnected => "disconnected" | StateConnecting => "connecting"
  | StateConnected => "connected" | StateError => "error"
  end.

Inductive Action : Type :=
| ActionForward | ActionDrop | ActionAlert | ActionTransform | ActionMirror.

#[export] Instance Action_eq_dec : EqDecision Action.
Proof. solve_decision. Defined.

(** ** Dynamic values

    The dynamic types the program distinguishes in its type switches; any
    other dynamic type is [VOther] with its type's name. *)
Inductive Value : Type :=
| VNil
| VBool (b : bool)
| VInt (z : Z) | VInt8 (z : Z) | VInt16 (z : Z) | VInt32 (z : Z) | VInt64 (z : Z)
| VUint (z : Z) | VUint8 (z : Z) | VUint16 (z : Z) | VUint32 (z : Z) | VUint64 (z : Z)
| VFloat32 (f : float) | VFloat64 (f : float)
| VString (s : string)
| VBytes (l : list Z)
| VOther (tname : string).

(** ** Records *)

Record TagValue := mkTagValue {
  tv_Tag : string;
  tv_Value : Value;
  tv_Type : DataType;
  tv_Quality : Quality;
  tv_Timestamp : Z;
  tv_Error : option error;
}.

Record DataPoint := mkDataPoint {
  dp_Driver : string;
  dp_Device : string;
  dp_Group : string;
  dp_Tag : string;
  dp_Value : Value;
  dp_Type : DataType;
  dp_Quality : Quality;
  dp_Timestamp : Z;
  dp_Metadata : gmap string string;
  dp_IsStale : bool;
}.

Record WriteResult := mkWriteResult { wr_Success : bool; wr_Error : string }.

Record WriteCommand := mkWriteCommand {
  cmd_Driver : string;
  cmd_Device : string;
  cmd_Tag : string;
  cmd_Value : Value;
  cmd_Type : DataType;
  cmd_Source : string;
  cmd_Remote : string;
  cmd_Raw : bool;
}.

Record WriteAuditEntry := mkWriteAuditEntry {
  wa_Timestamp : Z;
  wa_Driver : string;
  wa_Device : string;
  wa_Tag : string;
  wa_Value : Value;
  wa_Type : DataType;
  wa_Success : bool;
  wa_Error : string;
  wa_Source : string;
  wa_Remote : string;
  wa_Raw : bool;
}.

Record DeadLetterEntry := mkDeadLetterEntry {
  dl_Command : WriteCommand;
  dl_Error : string;
  dl_FailedAt : Z;
  dl_Attempts : Z;
  dl_Transport : string;
}.

Record TagConfig := mkTagConfig {
  tc_Name : string;
  tc_Address : string;
  tc_Type : string;
  tc_Group : string;
  tc_Interval : string;
  tc_Scale : float;
  tc_Offset : float;
  tc_DeadBand : float;
  tc_EnforceInterval : string;
  tc_ReadTimeout : string;
  tc_Protect : string;
  tc_TriggerGroup : string;
  tc_Triggers : string;
}.

(** [core.DriverStatus] and [core.TransportStatus]. *)
Record DriverStatus := mkDriverStatus {
  ds_Name : string;
  ds_Type : string;
  ds_State : ConnState;
  ds_LastRead : Z;
  ds_LastError : string;
  ds_TagCount : Z;
  ds_ReadCount : Z;
  ds_ErrorCount : Z;
  ds_ReconnectCount : Z;
}.

Record TransportStatus := mkTransportStatus {
  ts_Name : string;
  ts_Type : string;
  ts_State : ConnState;
  ts_Published : Z;
  ts_Failed : Z;
  ts_Received : Z;
  ts_LastPublish : Z;
  ts_QueueSize : Z;
  ts_DroppedCommands : Z;
}.

(** A tag with the zero value in every optional field. *)
Definition TagConfig_zero : TagConfig :=
  mkTagConfig "" "" "" "" "" f_zero f_zero f_zero "" "" "" "" "".

(** ** Shared default constants *)

Definition DefaultTagInterval : Z := second.
Definition DefaultDataBusSize : Z := 8192.
Definition DefaultErrorThrottleWindow : Z := 10 * second.
Definition DefaultReconnectBackoff : Z := 2 * second.
Definition DefaultMaxReconnectBackoff : Z := 30 * second.
Definition DefaultCommandBufferSize : Z := 100.
Definition DefaultCommandConcurrency : Z := 16.
Definition DefaultHighPriorityWorkers : Z := 2.
Definition DefaultHighPriorityInterval : Z := second.
Definition DefaultAlertActiveWindow : Z := 15 * minute.
Definition DefaultBatchSize : Z := 100.
Definition DefaultMaxReconnectFailures : Z := 20.
Definition DefaultOfflineBufferMaxEntries : Z := 10000.
Definition DefaultDeadLetterMaxLen : Z := 1000.

(** The Go type of a value, for the messages ([%T]). *)
Definition typeName (v : Value) : string :=
  match v with
  | VNil => "<nil>" | VBool _ => "bool" | VInt _ => "int" | VInt8 _ => "int8" | VInt16 _ => "int16"
  | VInt32 _ => "int32" | VInt64 _ => "int64" | VUint _ => "uint" | VUint8 _ => "uint8"
  | VUint16 _ => "uint16" | VUint32 _ => "uint32" | VUint64 _ => "uint64" | VFloat32 _ => "float32"
  | VFloat64 _ => "float64" | VString _ => "string" | VBytes _ => "[]uint8" | VOther t => t
  end.

(** ** Lemmas *)

(** Printing a named type and parsing it back. *)
Lemma ParseDataType_String d :
  dataTypeNames d <> None -> ParseDataType (DataType_String d) = (d, true).
Proof. destruct d; intros H; try reflexivity; by destruct H. Qed.

Lemma ParseDataType_named s d : ParseDataType s = (d, true) -> DataType_String d = s.
Proof.
  unfold ParseDataType. destruct (dataTypeFromString !! s) as [d'|] eqn:E; [|done].
  intros [= ->]. unfold dataTypeFromString in E.
  apply elem_of_list_to_map_2 in E.
  rewrite !elem_of_cons in E.
  repeat destruct E as [[= -> ->]|E]; try reflexivity. by apply elem_of_nil in E.
Qed.
