(* ===== verification/Util.v ===== *)
(** * Shared helpers ([common/util/util.go])

    Settings accessors, connection-error classification, numeric conversions,
    the linear transform and its inverse, and the reconnect loop with its
    exponential backoff and circuit breaker. *)

From Stdlib Require Import ZArith Lia String.
From stdpp Require Import base list gmap strings.
From S2P Require Import Prelude GoFloat GoTime Types.

Open Scope Z_scope.

Definition defaultBackoffFallback : Z := 2 * second.
Definition defaultMaxBackoffFallback : Z := 30 * second.
Definition defaultCircuitBreakerBackoff : Z := 5 * minute.

(** ** Settings accessors *)

Section settings.
Context `{GoArch}.

Definition GetIntSetting (settings : gmap string Value) (key : string) (defaultVal : Z) : Z :=
  match settings !! key with
  | Some (VInt v) => v
  | Some (VInt64 v) => v
  | Some (VUint64 v) => i64 v
  | Some (VFloat64 f) => f_to_s 64 f
  | _ => defaultVal
  end.

Definition GetDurationSetting (settings : gmap string Value) (key : string) (defaultVal : Z) : Z :=
  match settings !! key with
  | Some (VString v) =>
      match ParseDuration v with Some d => d | None => defaultVal end
  | _ => defaultVal
  end.

Definition GetBoolSetting (settings : gmap string Value) (key : string) (defaultVal : bool) : bool :=
  match settings !! key with Some (VBool v) => v | _ => defaultVal end.

Definition GetStringSetting (settings : gmap string Value) (key defaultVal : string) : string :=
  match settings !! key with Some (VString v) => v | _ => defaultVal end.
End settings.

(** ** Connection errors *)

Definition connectionErrorKeywords : list string :=
  ["connection"; "broken pipe"; "EOF"; "reset"; "refused"; "timeout"; "closed";
   "aborted"; "deadline exceeded"]%string.

Definition IsConnectionError (err : option error) : bool :=
  match err with
  | None => false
  | Some e => existsb (str_contains (error_text e)) connectionErrorKeywords
  end.

(** ** Numeric conversions *)

Definition ToFloat64OK (v : Value) : float * bool :=
  match v with
  | VFloat64 f => (f, true)
  | VFloat32 f => (f_round F64 f, true)
  | VInt z | VInt8 z | VInt16 z | VInt32 z | VInt64 z
  | VUint z | VUint8 z | VUint16 z | VUint32 z | VUint64 z => (f_of_Z F64 z, true)
  | _ => (f_zero, false)
  end.

Definition ToFloat64 (v : Value) : float :=
  match ToFloat64OK v with
  | (f, true) => f
  | (_, false) => match v with VBool true => f_one | _ => f_zero end
  end.

Definition ToFloat32 (v : Value) : float :=
  match v with
  | VFloat64 f => f_round F32 f
  | VFloat32 f => f
  | VInt z | VInt32 z | VUint32 z => f_of_Z F32 z
  | _ => f_zero
  end.

Section conversions.
Context `{GoArch}.

Definition ToUint32 (v : Value) : Z :=
  match v with
  | VFloat64 f => f_to_u 32 f
  | VInt z | VInt32 z => u32 z
  | VUint32 z => z
  | VInt64 z | VUint64 z => u32 z
  | _ => 0
  end.

Definition ToUint64 (v : Value) : Z :=
  match v with
  | VFloat64 f | VFloat32 f => f_to_u 64 f
  | VInt z | VInt64 z => u64 z
  | VUint64 z => z
  | VInt32 z | VUint32 z | VInt16 z | VUint16 z => u64 z
  | _ => 0
  end.

Definition ToUint16 (v : Value) : Z :=
  match v with
  | VFloat64 f | VFloat32 f => f_to_u 16 f
  | VInt z | VInt16 z => u16 z
  | VUint16 z => z
  | VInt32 z | VUint32 z => u16 z
  | _ => 0
  end.
End conversions.

(** ** The linear transform

    [scale == 0 && offset == 0] means no transform; a zero scale with an offset
    counts as one. *)
Definition noTransform (scale offset : float) : bool :=
  feqb scale f_zero && feqb offset f_zero.

Definition effScale (scale : float) : float :=
  if feqb scale f_zero then f_one else scale.

Definition ApplyTransform (value : Value) (scale offset : float) : Value :=
  if noTransform scale offset then value
  else
    let scale := effScale scale in
    let lin x := fadd F64 (fmul F64 x scale) offset in
    match value with
    | VFloat32 v => VFloat32 (f_round F32 (lin (f_round F64 v)))
    | VFloat64 v => VFloat64 (lin v)
    | VInt8 v | VUint8 v | VInt16 v | VUint16 v | VInt32 v | VUint32 v
    | VInt64 v | VUint64 v | VInt v => VFloat64 (lin (f_of_Z F64 v))
    | _ => value
    end.

Definition InvertTransform (value : Value) (scale offset : float) : Value :=
  if noTransform scale offset then value
  else
    let scale := effScale scale in
    let inv x := fdiv F64 (fsub F64 x offset) scale in
    match value with
    | VFloat32 v => VFloat64 (inv (f_round F64 v))
    | VFloat64 v => VFloat64 (inv v)
    | VInt8 v | VUint8 v | VInt16 v | VUint16 v | VInt32 v | VUint32 v
    | VInt64 v | VUint64 v | VInt v => VFloat64 (inv (f_of_Z F64 v))
    | _ => value
    end.

(** ** The reconnect loop *)

(** [0.8] and [0.4] as [float64] constants. *)
Definition f_0_8 : float := fdiv F64 (f_of_Z F64 8) (f_of_Z F64 10).
Definition f_0_4 : float := fdiv F64 (f_of_Z F64 4) (f_of_Z F64 10).

(** [rand] is the sample of [rand.Float64()]. *)
Definition jitteredBackoff `{GoArch} (rand : float) (d : Z) : Z :=
  if decide (d <= 0) then d
  else f_to_s 64 (fmul F64 (f_of_Z F64 d) (fadd F64 f_0_8 (fmul F64 rand f_0_4))).

Record rl_state := mkRL {
  rl_backoff : Z;
  rl_failures : Z;
  rl_tripped : bool;
}.

Definition rl_init (initialBackoff : Z) : rl_state :=
  mkRL (if decide (initialBackoff <= 0) then defaultBackoffFallback else initialBackoff)
       0 false.

Definition rl_max (maxBackoff : Z) : Z :=
  if decide (maxBackoff <= 0) then defaultMaxBackoffFallback else maxBackoff.

(** The branch of the loop taken when [connect] fails. *)
Definition rl_fail (maxBackoff maxFailures : Z) (st : rl_state) : rl_state :=
  let failures := rl_failures st + 1 in
  if bool_decide (maxFailures > 0) && bool_decide (failures >= maxFailures)
     && negb (rl_tripped st) then
    mkRL defaultCircuitBreakerBackoff failures true
  else if negb (rl_tripped st) then
    mkRL (Z.min (i64 (rl_backoff st * 2)) maxBackoff) failures false
  else mkRL (rl_backoff st) failures (rl_tripped st).

(** How the loop ended on the inputs given so far. *)
Inductive rl_end := RLRunning | RLCancelled | RLConnected.

(** One iteration's inputs: the jitter sample, whether the context was
    cancelled during the wait, and what [connect] returned. *)
Record rl_input := mkRLInput {
  in_rand : float;
  in_cancelled : bool;
  in_connect : option error;
}.

(** The loop over its iterations' inputs.  Results: how it ended, the state,
    the counter and the waits made. *)
Fixpoint rl_loop `{GoArch} (maxBackoff maxFailures : Z) (ins : list rl_input)
    (st : rl_state) (counter : Z) : rl_end * rl_state * Z * list Z :=
  match ins with
  | [] => (RLRunning, st, counter, [])
  | i :: ins' =>
      let wait := jitteredBackoff (in_rand i) (rl_backoff st) in
      if in_cancelled i then (RLCancelled, st, counter, [wait])
      else match in_connect i with
           | None => (RLConnected, st, counter + 1, [wait])
           | Some _ =>
               let '(e, st', c', ws) :=
                 rl_loop maxBackoff maxFailures ins' (rl_fail maxBackoff maxFailures st)
                   (counter + 1) in
               (e, st', c', wait :: ws)
           end
  end.

Definition ReconnectLoopWithBreakerCounted `{GoArch} (ins : list rl_input)
    (initialBackoff maxBackoff maxFailures counter : Z)
    : rl_end * rl_state * Z * list Z :=
  rl_loop (rl_max maxBackoff) maxFailures ins (rl_init initialBackoff) counter.

(** ** Unknown settings *)

Definition sortStrings (l : list string) : list string := stable_sort String.ltb l.

Definition RejectUnknownSettings (settings : gmap string Value) (known : gset string)
    (kind : string) : option error :=
  if decide (size settings = 0%nat) then None
  else
    let unknown := filter (fun k => k ∉ known) (map_to_list settings).*1 in
    match unknown with
    | [] => None
    | _ =>
        Some (ErrFmt ("unknown " +:+ kind +:+ " setting(s): "
                      +:+ String.concat ", " (sortStrings unknown)
                      +:+ " (valid: " +:+ String.concat ", " (sortStrings (elements known))
                      +:+ ")"))
    end.

(** ** The schedule the reconnect loop follows

    The specification of the base delay before attempt [k] (from 0): doubling
    from the initial delay, capped, until [maxFailures] attempts have failed,
    and five minutes from then on. *)
Definition rl_base (initial maxB maxF : Z) (k : nat) : Z :=
  if bool_decide (0 < maxF <= Z.of_nat k) then defaultCircuitBreakerBackoff
  else if decide (k = 0%nat) then initial
  else Z.min (initial * 2 ^ Z.of_nat k) maxB.

(** The state reached after [k] failures in a row. *)
Definition rl_after (initial maxB maxF : Z) (k : nat) : rl_state :=
  mkRL (rl_base initial maxB maxF k) (Z.of_nat k) (bool_decide (0 < maxF <= Z.of_nat k)).

Section reconnect.
Context `{GoArch} (initial maxB maxF : Z).
Hypothesis Hinit : 0 < initial < 2 ^ 62.
Hypothesis Hmax : 0 < maxB < 2 ^ 62.

Lemma rl_base_pos k : 0 < rl_base initial maxB maxF k < 2 ^ 62.
Proof.
  unfold rl_base, defaultCircuitBreakerBackoff, minute, second, millisecond.
  repeat case_decide; try case_bool_decide; try lia.
Qed.

Lemma rl_fail_after k :
  rl_fail maxB maxF (rl_after initial maxB maxF k) = rl_after initial maxB maxF (S k).
Proof.
  pose proof (rl_base_pos k) as Hb. unfold rl_fail, rl_after; simpl rl_failures;
    simpl rl_tripped; simpl rl_backoff.
  replace (Z.of_nat k + 1) with (Z.of_nat (S k)) by lia.
  destruct (decide (0 < maxF <= Z.of_nat k)).
  - rewrite !(bool_decide_eq_true_2 (0 < maxF <= _)) by lia. simpl negb.
    rewrite andb_false_r. unfold rl_base. by rewrite !bool_decide_eq_true_2 by lia.
  - rewrite (bool_decide_eq_false_2 (0 < maxF <= Z.of_nat k)) by lia. simpl negb.
    rewrite andb_true_r. rewrite wraps_small by lia.
    destruct (decide (0 < maxF <= Z.of_nat (S k))).
    + rewrite (bool_decide_eq_true_2 (maxF > 0)), (bool_decide_eq_true_2 (_ >= _)) by lia.
      simpl. unfold rl_base. by rewrite bool_decide_eq_true_2 by lia.
    + unfold rl_base. rewrite (bool_decide_eq_false_2 (0 < maxF <= _)) by lia.
      replace (bool_decide (maxF > 0) && bool_decide (Z.of_nat (S k) >= maxF)) with false
        by (repeat case_bool_decide; simpl; done || lia).
      rewrite (bool_decide_eq_false_2 (0 < maxF <= Z.of_nat (S k))) by lia.
      rewrite (decide_False (P := S k = 0%nat)) by lia. f_equal.
      rewrite Nat2Z.inj_succ, Z.pow_succ_r by lia. case_decide; [subst; simpl; lia|]. lia.
Qed.

Lemma rl_loop_schedule ins k c :
  Forall (fun i => in_cancelled i = false /\ in_connect i <> None) ins ->
  rl_loop maxB maxF ins (rl_after initial maxB maxF k) c =
  (RLRunning, rl_after initial maxB maxF (k + length ins), c + Z.of_nat (length ins),
   imap (fun j i => jitteredBackoff (in_rand i) (rl_base initial maxB maxF (k + j))) ins).
Proof.
  intros Hi. revert k c. induction Hi as [|i ins [Hc Hn] _ IH]; intros k c.
  - simpl. by rewrite Z.add_0_r, Nat.add_0_r.
  - cbn [rl_loop]. rewrite Hc. destruct (in_connect i); [|done].
    rewrite rl_fail_after, IH. cbn [imap length rl_backoff rl_after].
    replace (S k + length ins)%nat with (k + S (length ins))%nat by lia.
    replace (c + 1 + Z.of_nat (length ins)) with (c + Z.of_nat (S (length ins))) by lia.
    rewrite Nat.add_0_r. do 2 f_equal.
    apply imap_ext. intros. simpl. do 2 f_equal. lia.
Qed.

(** While every attempt fails, the loop waits the jittered schedule
    [rl_base]: the initial delay, its doublings up to the cap, and after
    [maxFailures] failures the fixed five-minute delay; every attempt is
    counted. *)
Theorem reconnect_schedule ins c :
  Forall (fun i => in_cancelled i = false /\ in_connect i <> None) ins ->
  ReconnectLoopWithBreakerCounted ins initial maxB maxF c =
  (RLRunning, rl_after initial maxB maxF (length ins), c + Z.of_nat (length ins),
   imap (fun j i => jitteredBackoff (in_rand i) (rl_base initial maxB maxF j)) ins).
Proof.
  intros Hi. unfold ReconnectLoopWithBreakerCounted, rl_init, rl_max.
  rewrite !decide_False by lia.
  replace (mkRL initial 0 false) with (rl_after initial maxB maxF 0).
  - by rewrite rl_loop_schedule.
  - unfold rl_after, rl_base. rewrite bool_decide_eq_false_2 by lia. done.
Qed.
End reconnect.
