(* ===== verification/DriverBase.v ===== *)
(** * The driver lifecycle ([driverbase/driverbase.go])

    The state every southbound driver embeds, its operations, and the step
    relation in which they interleave with the reconnect goroutine.  The
    protocol connection is a type [C]; [connectFunc] follows the drivers'
    [connect] hooks ([openClient] of [driver/modbus/modbus_base.go]): on
    success it stores the connection and sets [StateConnected], on failure it
    leaves the driver as it was. *)

From Stdlib Require Import ZArith Lia String Relations.
From stdpp Require Import base list gmap strings relations.
From S2P Require Import Prelude GoFloat GoTime Types Util.

Open Scope Z_scope.

(** The driver's context: not set before the first [Start]. *)
Inductive ctx_state := CtxNone | CtxLive | CtxCancelled.

Record BaseDriver (C : Type) := mkBaseDriver {
  bd_state : ConnState;
  bd_conn : option C;
  bd_lastRead : Z;
  bd_lastError : string;
  bd_readCount : Z;
  bd_errorCount : Z;
  bd_reconnectCount : Z;
  bd_ctx : ctx_state;
  bd_loops : nat;  (* reconnect goroutines that have not returned *)
}.
Arguments mkBaseDriver {C} _ _ _ _ _ _ _ _ _.
Arguments bd_state {C} _.
Arguments bd_conn {C} _.
Arguments bd_lastRead {C} _.
Arguments bd_lastError {C} _.
Arguments bd_readCount {C} _.
Arguments bd_errorCount {C} _.
Arguments bd_reconnectCount {C} _.
Arguments bd_ctx {C} _.
Arguments bd_loops {C} _.

(** [WriteValueForTag]. *)
Definition WriteValueForTag (cmd : WriteCommand) (cfg : TagConfig) : Value :=
  if cmd_Raw cmd then cmd_Value cmd
  else InvertTransform (cmd_Value cmd) (tc_Scale cfg) (tc_Offset cfg).

Section ops.
Context {C : Type}.
Implicit Types d : BaseDriver C.

Definition bd_zero : BaseDriver C :=
  mkBaseDriver StateDisconnected None 0 "" 0 0 0 CtxNone 0.

Definition RecordError d : BaseDriver C :=
  mkBaseDriver (bd_state d) (bd_conn d) (bd_lastRead d) (bd_lastError d)
    (bd_readCount d) (u64 (bd_errorCount d + 1)) (bd_reconnectCount d)
    (bd_ctx d) (bd_loops d).

Definition AddReadCount (n : Z) d : BaseDriver C :=
  mkBaseDriver (bd_state d) (bd_conn d) (bd_lastRead d) (bd_lastError d)
    (u64 (bd_readCount d + n)) (bd_errorCount d) (bd_reconnectCount d)
    (bd_ctx d) (bd_loops d).

Definition SetLastRead (t : Z) d : BaseDriver C :=
  mkBaseDriver (bd_state d) (bd_conn d) t (bd_lastError d)
    (bd_readCount d) (bd_errorCount d) (bd_reconnectCount d)
    (bd_ctx d) (bd_loops d).

Definition SetLastErrorLocked (err : string) d : BaseDriver C :=
  mkBaseDriver (bd_state d) (bd_conn d) (bd_lastRead d) err
    (bd_readCount d) (bd_errorCount d) (bd_reconnectCount d)
    (bd_ctx d) (bd_loops d).

(** Update of the connection fields. *)
Definition set_conn (st : ConnState) (conn : option C) (loops : nat) d : BaseDriver C :=
  mkBaseDriver st conn (bd_lastRead d) (bd_lastError d)
    (bd_readCount d) (bd_errorCount d) (bd_reconnectCount d)
    (bd_ctx d) loops.

Definition set_ctx (c : ctx_state) d : BaseDriver C :=
  mkBaseDriver (bd_state d) (bd_conn d) (bd_lastRead d) (bd_lastError d)
    (bd_readCount d) (bd_errorCount d) (bd_reconnectCount d) c (bd_loops d).

(** [openClient]: what a successful connect stores. *)
Definition openClient (c : C) d : BaseDriver C :=
  SetLastErrorLocked "" (set_conn StateConnected (Some c) (bd_loops d) d).

Definition startReconnectLoop d : BaseDriver C :=
  set_conn (bd_state d) (bd_conn d) (S (bd_loops d)) d.

(** [Start]: the result of the initial connect is the argument. *)
Definition Start (r : C + error) d : BaseDriver C :=
  let d1 := set_ctx CtxLive d in
  match r with
  | inr e =>
      startReconnectLoop
        (SetLastErrorLocked (error_text e)
           (set_conn StateConnecting (bd_conn d1) (bd_loops d1) d1))
  | inl c => openClient c d1
  end.

(** The error [Start] returns with it: none, whatever the connect did. *)
Definition StartErr (r : C + error) d : option error * BaseDriver C := (None, Start r d).

(** [Stop] cancels the context, waits for the reconnect goroutines, and then
    closes the connection. *)
Definition Stop_cancel d : BaseDriver C :=
  match bd_ctx d with CtxNone => d | _ => set_ctx CtxCancelled d end.

Definition Stop_finish d : BaseDriver C := set_conn StateDisconnected None (bd_loops d) d.

(** [HandleConnectionLost]. *)
Definition HandleConnectionLost d : BaseDriver C :=
  match bd_state d with
  | StateConnecting | StateError => d
  | _ => startReconnectLoop (set_conn StateError None (bd_loops d) d)
  end.

(** One attempt of a reconnect goroutine: counted, and on success the
    goroutine returns. *)
Definition reconnect_attempt (r : C + error) d : BaseDriver C :=
  let d1 :=
    mkBaseDriver (bd_state d) (bd_conn d) (bd_lastRead d) (bd_lastError d)
      (bd_readCount d) (bd_errorCount d) (u64 (bd_reconnectCount d + 1))
      (bd_ctx d) (bd_loops d) in
  match r with
  | inl c => let d2 := openClient c d1 in
             set_conn (bd_state d2) (bd_conn d2) (Nat.pred (bd_loops d2)) d2
  | inr _ => d1
  end.

(** A reconnect goroutine that sees its context cancelled returns. *)
Definition reconnect_cancelled d : BaseDriver C :=
  set_conn (bd_state d) (bd_conn d) (Nat.pred (bd_loops d)) d.

(** The operations as they interleave.  [Start] is called on a driver whose
    goroutines have returned and that holds no connection: by the engine once,
    and by [Restart] after [Stop]. *)
Inductive bd_step : BaseDriver C -> BaseDriver C -> Prop :=
| step_start d r :
    bd_loops d = 0%nat -> bd_conn d = None -> bd_step d (Start r d)
| step_lost d : bd_step d (HandleConnectionLost d)
| step_attempt d r : bd_loops d <> 0%nat -> bd_step d (reconnect_attempt r d)
| step_exit d :
    bd_loops d <> 0%nat -> bd_ctx d = CtxCancelled -> bd_step d (reconnect_cancelled d)
| step_stop_cancel d : bd_step d (Stop_cancel d)
| step_stop_finish d :
    bd_loops d = 0%nat -> bd_ctx d <> CtxLive -> bd_step d (Stop_finish d)
| step_record_error d : bd_step d (RecordError d)
| step_read_count d n : bd_step d (AddReadCount n d)
| step_last_read d t : bd_step d (SetLastRead t d)
| step_last_error d s : bd_step d (SetLastErrorLocked s d).

Definition bd_reachable : BaseDriver C -> Prop := rtc bd_step bd_zero.

(** ** The lifecycle invariant *)

Record bd_inv d : Prop := mkBdInv {
  inv_conn : bd_conn d <> None <-> bd_state d = StateConnected;
  inv_one : (bd_loops d <= 1)%nat;
  inv_down : bd_loops d = 1%nat -> bd_state d = StateConnecting \/ bd_state d = StateError;
  inv_heal : bd_ctx d = CtxLive ->
             bd_state d = StateConnecting \/ bd_state d = StateError ->
             bd_loops d = 1%nat;
}.

Lemma bd_inv_zero : bd_inv bd_zero.
Proof. split; simpl; naive_solver lia. Qed.

Lemma bd_step_inv d d' : bd_inv d -> bd_step d d' -> bd_inv d'.
Proof.
  intros [Hc H1 Hd Hh] Hs. destruct Hs as [d r Hl Hn|d|d r Hl|d Hl Hx|d|d Hl Hx|d|d n|d t|d s].
  - destruct r; split; simpl; rewrite ?Hl, ?Hn; naive_solver lia.
  - unfold HandleConnectionLost.
    destruct (bd_state d) eqn:E; try by split; rewrite ?E.
    all: assert (bd_loops d = 0%nat) as Hl
      by (destruct (bd_loops d) as [|[|]]; [done|naive_solver|lia]).
    all: split; simpl; rewrite ?Hl; naive_solver lia.
  - assert (bd_loops d = 1%nat) as E by lia.
    destruct r; split; simpl; rewrite ?E; naive_solver lia.
  - assert (bd_loops d = 1%nat) as E by lia.
    split; simpl; rewrite ?E; try naive_solver lia. congruence.
  - unfold Stop_cancel. destruct (bd_ctx d) eqn:E; split; simpl; rewrite ?E; naive_solver.
  - split; simpl; rewrite ?Hl; naive_solver lia.
  - by split.
  - by split.
  - by split.
  - by split.
Qed.

Lemma bd_reachable_inv d : bd_reachable d -> bd_inv d.
Proof.
  unfold bd_reachable. intros Hr. remember bd_zero as z eqn:Ez.
  assert (bd_inv z) as Hz by (subst; apply bd_inv_zero). clear Ez.
  induction Hr as [|x y z Hxy _ IH]; [done|]. apply IH. by eapply bd_step_inv.
Qed.
End ops.

(** C27.  In every state a driver reaches, however its lifecycle calls,
    connection losses and reconnect attempts interleave: it holds a connection
    exactly when it reports [StateConnected]; at most one reconnect goroutine
    runs; and while the driver is started and down, one does run, and its next
    attempt that succeeds leaves the driver connected with that connection and
    no goroutine behind. *)
Theorem driver_lifecycle {C} (d : BaseDriver C) :
  bd_reachable d ->
  (bd_conn d <> None <-> bd_state d = StateConnected) /\
  (bd_loops d <= 1)%nat /\
  (bd_ctx d = CtxLive -> bd_state d <> StateDisconnected -> bd_state d <> StateConnected ->
   bd_loops d = 1%nat /\
   forall c, let d' := reconnect_attempt (inl c) d in
     bd_step d d' /\ bd_state d' = StateConnected /\ bd_conn d' = Some c /\
     bd_loops d' = 0%nat).
Proof.
  intros [Hc H1 Hd Hh]%bd_reachable_inv. split_and!; [done|done|].
  intros Hx Hn1 Hn2. assert (bd_loops d = 1%nat) as Hl
    by (apply Hh; [done|]; destruct (bd_state d); naive_solver).
  split; [done|]. intros c d'. split_and!; [|done..|simpl; lia].
  apply step_attempt. lia.
Qed.

Lemma driver_lifecycle_witness :
  let d := HandleConnectionLost (Start (inl 7) (@bd_zero Z)) in
  bd_loops d = 1%nat /\ bd_state (reconnect_attempt (inl 8) d) = StateConnected.
Proof.
  intros d.
  assert (bd_reachable d) as Hr.
  { eapply rtc_l; [apply (step_start bd_zero (inl 7)); reflexivity|].
    eapply rtc_l; [apply step_lost|]. apply rtc_refl. }
  destruct (driver_lifecycle d Hr) as (_ & _ & H).
  destruct (H eq_refl ltac:(discriminate) ltac:(discriminate)) as [Hl Ha].
  split; [exact Hl|]. exact (proj1 (proj2 (Ha 8))).
Defined.
