(* ===== verification/Modbus.v ===== *)
(** * The Modbus driver ([driver/modbus])

    Address parsing, the read path (resolution, batch planning, batched and
    individual reads with their retries, result assembly) and the write path.
    The Modbus client library is a parameter ([ModbusLib]): its operations act
    on a device state [D] through a client handle [C], and [env_wait] is a
    backoff wait, during which other goroutines may change the driver and the
    device and the context may be cancelled. *)

From Stdlib Require Import ZArith Lia String.
From stdpp Require Import base list gmap strings sorting.
From S2P Require Import Prelude GoFloat GoTime Types Util DriverBase.

Open Scope Z_scope.

(** ** Addresses *)

Inductive areaType := areaCoil | areaDiscreteInput | areaInputRegister | areaHoldingRegister.

#[export] Instance areaType_eq_dec : EqDecision areaType.
Proof. solve_decision. Defined.

Definition modbusCoilStart : Z := 1.
Definition modbusCoilEnd : Z := 9999.
Definition modbusDiscreteInputStart : Z := 10001.
Definition modbusDiscreteInputEnd : Z := 19999.
Definition modbusInputRegisterStart : Z := 30001.
Definition modbusInputRegisterEnd : Z := 39999.
Definition modbusHoldingRegStart : Z := 40001.
Definition modbusHoldingRegEnd : Z := 49999.
Definition modbusMaxBatchSize : Z := 125.

Record addrInfo := mkAddr { ai_area : areaType; ai_addr : Z }.

Inductive RegType := HOLDING_REGISTER | INPUT_REGISTER.

(** [addrInfo.regType] and [readBatch.regType]. *)
Definition regType (a : areaType) : RegType :=
  match a with areaInputRegister => INPUT_REGISTER | _ => HOLDING_REGISTER end.

Definition areaName (a : areaType) : string :=
  match a with
  | areaCoil => "coil"
  | areaDiscreteInput => "discrete-input"
  | areaInputRegister => "input-register"
  | areaHoldingRegister => "holding-register"
  end.

Definition isBitArea (a : areaType) : bool :=
  match a with areaCoil | areaDiscreteInput => true | _ => false end.

Definition parseModbusAddress (addr : string) : res addrInfo :=
  match ParseUint addr 32 with
  | None => Err (ErrFmt ("invalid address: " +:+ addr))
  | Some num =>
      if decide (modbusHoldingRegStart <= num <= modbusHoldingRegEnd) then
        Ok (mkAddr areaHoldingRegister (u16 (num - modbusHoldingRegStart)))
      else if decide (modbusInputRegisterStart <= num <= modbusInputRegisterEnd) then
        Ok (mkAddr areaInputRegister (u16 (num - modbusInputRegisterStart)))
      else if decide (modbusDiscreteInputStart <= num <= modbusDiscreteInputEnd) then
        Ok (mkAddr areaDiscreteInput (u16 (num - modbusDiscreteInputStart)))
      else if decide (modbusCoilStart <= num <= modbusCoilEnd) then
        Ok (mkAddr areaCoil (u16 (num - modbusCoilStart)))
      else if decide (num > 65535) then
        Err (ErrFmt ("address " +:+ addr +:+ " exceeds maximum Modbus register address (65535)"))
      else Ok (mkAddr areaHoldingRegister (u16 num))
  end.

(** ** The client library *)

Inductive mbException :=
| ErrIllegalFunction | ErrIllegalDataAddress | ErrIllegalDataValue
| ErrServerDeviceFailure | ErrAcknowledge | ErrServerDeviceBusy
| ErrMemoryParityError | ErrGWPathUnavailable | ErrGWTargetFailedToRespond.

Definition allExceptions : list mbException :=
  [ErrIllegalFunction; ErrIllegalDataAddress; ErrIllegalDataValue;
   ErrServerDeviceFailure; ErrAcknowledge; ErrServerDeviceBusy;
   ErrMemoryParityError; ErrGWPathUnavailable; ErrGWTargetFailedToRespond].

(** The driver while it serves calls: the device, the embedded base driver and
    the codes counted in [modbus_exception_total]. *)
Record mstate (D C : Type) := mkM {
  m_dev : D;
  m_drv : BaseDriver C;
  m_exc : list string;
}.
Arguments mkM {D C} _ _ _.
Arguments m_dev {D C} _.
Arguments m_drv {D C} _.
Arguments m_exc {D C} _.

Class ModbusLib (D C : Type) := {
  lib_ReadCoils : C -> Z -> Z -> D -> D * res (list bool);
  lib_ReadDiscreteInputs : C -> Z -> Z -> D -> D * res (list bool);
  lib_ReadRegisters : C -> Z -> Z -> RegType -> D -> D * res (list Z);
  lib_ReadCoil : C -> Z -> D -> D * res bool;
  lib_ReadDiscreteInput : C -> Z -> D -> D * res bool;
  lib_ReadRegister : C -> Z -> RegType -> D -> D * res Z;
  lib_ReadFloat32 : C -> Z -> RegType -> D -> D * res float;
  lib_WriteCoil : C -> Z -> bool -> D -> D * option error;
  lib_WriteRegister : C -> Z -> Z -> D -> D * option error;
  lib_WriteRegisters : C -> Z -> list Z -> D -> D * option error;
  lib_WriteFloat32 : C -> Z -> float -> D -> D * option error;
  lib_error : mbException -> error;
  env_wait : mstate D C -> mstate D C * option error;
}.

(** ** Decoding *)

Definition reg2 (a b : Z) : Z := Z.lor (u32 (Z.shiftl a 16)) b.

Definition reg4 (a b c d : Z) : Z :=
  Z.lor (Z.lor (Z.lor (u64 (Z.shiftl a 48)) (u64 (Z.shiftl b 32)))
               (u64 (Z.shiftl c 16))) d.

(** [binary.BigEndian.PutUint16] of successive registers and
    [binary.BigEndian.Uint32] / [Uint64] of the bytes. *)
Definition be_bytes16 (r : Z) : list Z := [Z.shiftr r 8; Z.land r 255].

Definition be_regs (rs : list Z) : Z := be_uint 0 (flat_map be_bytes16 rs).

Definition extractRegisterValue (regs : list Z) (offset : Z) (dt : DataType) : res Value :=
  let at_ i := go_index regs (offset + i) in
  match dt with
  | TypeBool => let! r := at_ 0 in Ok (VBool (negb (r =? 0)))
  | TypeUint16 => let! r := at_ 0 in Ok (VUint16 r)
  | TypeInt16 => let! r := at_ 0 in Ok (VInt16 (i16 r))
  | TypeUint32 => let! a := at_ 0 in let! b := at_ 1 in Ok (VUint32 (reg2 a b))
  | TypeInt32 => let! a := at_ 0 in let! b := at_ 1 in Ok (VInt32 (i32 (reg2 a b)))
  | TypeFloat32 =>
      let! a := at_ 0 in let! b := at_ 1 in
      Ok (VFloat32 (f_frombits F32 (be_regs [a; b])))
  | TypeFloat64 =>
      let! a := at_ 0 in let! b := at_ 1 in let! c := at_ 2 in let! d := at_ 3 in
      Ok (VFloat64 (f_frombits F64 (be_regs [a; b; c; d])))
  | TypeUint64 =>
      let! a := at_ 0 in let! b := at_ 1 in let! c := at_ 2 in let! d := at_ 3 in
      Ok (VUint64 (reg4 a b c d))
  | TypeInt64 =>
      let! a := at_ 0 in let! b := at_ 1 in let! c := at_ 2 in let! d := at_ 3 in
      Ok (VInt64 (i64 (reg4 a b c d)))
  | _ => Err (ErrFmt ("unsupported data type: " +:+ DataType_String dt))
  end.

(** ** Individual reads *)

Definition errModbusNotConnected : error :=
  ErrFmt "modbus: client is not connected (connection lost)".

(** Map the result of a library call, wrapping its error. *)
Definition lib_map {D A B} (pre : string) (f : A -> res B) (r : D * res A) : D * res B :=
  match r with
  | (d, Ok a) => (d, f a)
  | (d, Err e) => (d, Err (ErrWrap pre e ""))
  | (d, Panic) => (d, Panic)
  end.

Section reads.
Context {D C : Type} `{ModbusLib D C} `{EqDecision C} `{GoArch}.

Definition readSingleRegister (client : C) (ai : addrInfo) (dt : DataType) (d : D)
    : D * res Value :=
  lib_map ("read " +:+ DataType_String dt +:+ ": ")
    (fun val => Ok (if decide (dt = TypeInt16) then VInt16 (i16 val) else VUint16 val))
    (lib_ReadRegister client (ai_addr ai) (regType (ai_area ai)) d).

Definition readDoubleRegister (client : C) (ai : addrInfo) (dt : DataType) (d : D)
    : D * res Value :=
  lib_map ("read " +:+ DataType_String dt +:+ ": ")
    (fun regs =>
       let! a := go_index regs 0 in let! b := go_index regs 1 in
       let val := reg2 a b in
       Ok (if decide (dt = TypeInt32) then VInt32 (i32 val) else VUint32 val))
    (lib_ReadRegisters client (ai_addr ai) 2 (regType (ai_area ai)) d).

Definition readQuadRegister (client : C) (ai : addrInfo) (dt : DataType) (d : D)
    : D * res Value :=
  lib_map ("read " +:+ DataType_String dt +:+ ": ")
    (fun regs =>
       let! a := go_index regs 0 in let! b := go_index regs 1 in
       let! c := go_index regs 2 in let! e := go_index regs 3 in
       let val := reg4 a b c e in
       Ok (if decide (dt = TypeInt64) then VInt64 (i64 val) else VUint64 val))
    (lib_ReadRegisters client (ai_addr ai) 4 (regType (ai_area ai)) d).

Definition readBoolTag (client : C) (ai : addrInfo) (d : D) : D * res Value :=
  match ai_area ai with
  | areaCoil => lib_map "read coil: " (fun v => Ok (VBool v)) (lib_ReadCoil client (ai_addr ai) d)
  | areaDiscreteInput =>
      lib_map "read discrete input: " (fun v => Ok (VBool v))
        (lib_ReadDiscreteInput client (ai_addr ai) d)
  | _ =>
      lib_map "read bool register: " (fun v => Ok (VBool (negb (v =? 0))))
        (lib_ReadRegister client (ai_addr ai) (regType (ai_area ai)) d)
  end.

Definition readFloat64Tag (client : C) (ai : addrInfo) (d : D) : D * res Value :=
  lib_map "read float64: "
    (fun regs =>
       let! a := go_index regs 0 in let! b := go_index regs 1 in
       let! c := go_index regs 2 in let! e := go_index regs 3 in
       Ok (VFloat64 (f_frombits F64 (be_regs [a; b; c; e]))))
    (lib_ReadRegisters client (ai_addr ai) 4 (regType (ai_area ai)) d).

Definition readTag (client : option C) (ai : addrInfo) (dt : DataType) (tagName : string) (d : D)
    : D * res Value :=
  match client with
  | None => (d, Err errModbusNotConnected)
  | Some client =>
      if isBitArea (ai_area ai) && negb (bool_decide (dt = TypeBool)) then
        (d, Err (ErrFmt ("tag " +:+ tagName +:+ ": type " +:+ DataType_String dt
                   +:+ " is not supported on " +:+ areaName (ai_area ai)
                   +:+ " area (only bool is supported on coil/discrete-input areas)")))
      else
        match dt with
        | TypeBool => readBoolTag client ai d
        | TypeUint16 | TypeInt16 => readSingleRegister client ai dt d
        | TypeUint32 | TypeInt32 => readDoubleRegister client ai dt d
        | TypeFloat32 =>
            lib_map "read float32: " (fun v => Ok (VFloat32 v))
              (lib_ReadFloat32 client (ai_addr ai) (regType (ai_area ai)) d)
        | TypeFloat64 => readFloat64Tag client ai d
        | TypeUint64 | TypeInt64 => readQuadRegister client ai dt d
        | _ => (d, Err (ErrFmt ("unsupported data type: " +:+ DataType_String dt)))
        end
  end.

(** Updates of the driver state. *)
Definition with_dev (d : D) (m : mstate D C) : mstate D C := mkM d (m_drv m) (m_exc m).
Definition with_drv (f : BaseDriver C -> BaseDriver C) (m : mstate D C) : mstate D C :=
  mkM (m_dev m) (f (m_drv m)) (m_exc m).

(** [handleConnLostIfCurrent]: pointers are compared, nil included. *)
Definition handleConnLostIfCurrent (captured : option C) (m : mstate D C) : mstate D C :=
  if decide (bd_conn (m_drv m) = captured) then with_drv HandleConnectionLost m else m.

(** [recordException]: the error value itself is compared with the library's
    exception values. *)
Definition exceptionCode (x : mbException) : string :=
  match x with
  | ErrIllegalFunction => "illegal-function"
  | ErrIllegalDataAddress => "illegal-data-address"
  | ErrIllegalDataValue => "illegal-data-value"
  | ErrServerDeviceFailure => "server-device-failure"
  | ErrAcknowledge => "acknowledge"
  | ErrServerDeviceBusy => "server-device-busy"
  | ErrMemoryParityError => "memory-parity-error"
  | ErrGWPathUnavailable => "gateway-path-unavailable"
  | ErrGWTargetFailedToRespond => "gateway-target-failed-to-respond"
  end.

Definition recordException (err : error) (m : mstate D C) : mstate D C :=
  match List.find (fun x => bool_decide (err = lib_error x)) allExceptions with
  | Some x => mkM (m_dev m) (m_drv m) (m_exc m ++ [exceptionCode x])
  | None => m
  end.

(** [readTagWithRetry] with [n] attempts left ([maxRetry + 1] at the call; a
    negative [maxRetry] makes none).  Results: the final state, the client, whether
    the context was cancelled, and the value or error. *)
Fixpoint readTagWithRetry (n : nat) (client : option C) (ai : addrInfo) (dt : DataType)
    (tagName : string) (m : mstate D C) : mstate D C * option C * bool * res Value :=
  match n with
  | O => (m, client, false, Ok VNil)
  | S n' =>
      let '(d, r) := readTag client ai dt tagName (m_dev m) in
      let m := with_dev d m in
      match r with
      | Ok v => (m, client, false, Ok v)
      | Panic => (m, client, false, Panic)
      | Err e =>
          if bool_decide (n' <> 0%nat) && IsConnectionError (Some e) then
            let '(m, cancelled) := env_wait m in
            match cancelled with
            | Some ce => (handleConnLostIfCurrent client m, client, true, Err ce)
            | None =>
                match bd_conn (m_drv m) with
                | None => (m, None, false, Err e)
                | Some c => readTagWithRetry n' (Some c) ai dt tagName m
                end
            end
          else (m, client, false, Err e)
      end
  end.
End reads.

(** ** Batch planning *)

Record batchTagReq := mkReq {
  rq_name : string;
  rq_cfg : TagConfig;
  rq_ai : addrInfo;
  rq_dt : DataType;
  rq_qty : Z;
  rq_batchable : bool;
}.

Definition req_zero : batchTagReq :=
  mkReq "" TagConfig_zero (mkAddr areaCoil 0) TypeBool 0 false.

Definition batchQuantity (ai : addrInfo) (dt : DataType) : Z * bool :=
  if isBitArea (ai_area ai) then
    (if decide (dt = TypeBool) then (1, true) else (0, false))
  else
    match dt with
    | TypeBool | TypeUint16 | TypeInt16 => (1, true)
    | TypeUint32 | TypeInt32 | TypeFloat32 => (2, true)
    | TypeFloat64 | TypeUint64 | TypeInt64 => (4, true)
    | _ => (0, false)
    end.

Record readBatch := mkBatch {
  rb_area : areaType;
  rb_start : Z;
  rb_qty : Z;
  rb_indices : list nat;
}.

(** The request at an index; the planner only sees indices of [reqs]. *)
Definition req_at (reqs : list batchTagReq) (i : nat) : batchTagReq :=
  default req_zero (reqs !! i).

Section planner.
Context (area : areaType) (reqs : list batchTagReq) (maxBatch : Z).

Fixpoint merge_loop (cur : readBatch) (curEnd : Z) (indices : list nat) : list readBatch :=
  match indices with
  | [] => [cur]
  | idx :: rest =>
      let tStart := ai_addr (rq_ai (req_at reqs idx)) in
      let tEnd := u16 (tStart + rq_qty (req_at reqs idx)) in
      let mergedEnd := if decide (tEnd > curEnd) then tEnd else curEnd in
      let mergedQty := u16 (mergedEnd - rb_start cur) in
      if decide (tStart <= curEnd /\ mergedQty <= maxBatch) then
        merge_loop (mkBatch (rb_area cur) (rb_start cur) mergedQty (rb_indices cur ++ [idx]))
          mergedEnd rest
      else
        cur :: merge_loop (mkBatch area tStart (rq_qty (req_at reqs idx)) [idx]) tEnd rest
  end.

Definition mergeBatches (indices : list nat) : list readBatch :=
  match indices with
  | [] => []
  | i :: rest =>
      let start := ai_addr (rq_ai (req_at reqs i)) in
      let qty := rq_qty (req_at reqs i) in
      merge_loop (mkBatch area start qty [i]) (u16 (start + qty)) rest
  end.
End planner.

(** ** Batched reads *)

Section batches.
Context {D C : Type} `{ModbusLib D C} `{EqDecision C} `{GoArch}.

(** The decoding loops of [readBatch]: one value per index, or the first
    decode error. *)
Fixpoint decode_bits (bits : list bool) (reqs : list batchTagReq) (start : Z)
    (indices : list nat) (values : gmap nat Value) : res (gmap nat Value) :=
  match indices with
  | [] => Ok values
  | idx :: rest =>
      let offset := u16 (ai_addr (rq_ai (req_at reqs idx)) - start) in
      let! b := go_index bits offset in
      decode_bits bits reqs start rest (<[idx := VBool b]> values)
  end.

Fixpoint decode_regs (regs : list Z) (reqs : list batchTagReq) (start : Z)
    (indices : list nat) (values : gmap nat Value) : res (gmap nat Value) :=
  match indices with
  | [] => Ok values
  | idx :: rest =>
      let r := req_at reqs idx in
      let offset := u16 (ai_addr (rq_ai r) - start) in
      match extractRegisterValue regs offset (rq_dt r) with
      | Ok v => decode_regs regs reqs start rest (<[idx := v]> values)
      | Err e => Err (ErrWrap ("batch decode tag " +:+ rq_name r +:+ ": ") e "")
      | Panic => Panic
      end
  end.

Definition readBatchOnce (client : option C) (batch : readBatch) (reqs : list batchTagReq) (d : D)
    : D * res (gmap nat Value) :=
  match client with
  | None => (d, Err errModbusNotConnected)
  | Some c =>
      let pre := "batch read " +:+ areaName (rb_area batch) +:+ ": " in
      match rb_area batch with
      | areaCoil =>
          lib_map pre (fun bits => decode_bits bits reqs (rb_start batch) (rb_indices batch) ∅)
            (lib_ReadCoils c (rb_start batch) (rb_qty batch) d)
      | areaDiscreteInput =>
          lib_map pre (fun bits => decode_bits bits reqs (rb_start batch) (rb_indices batch) ∅)
            (lib_ReadDiscreteInputs c (rb_start batch) (rb_qty batch) d)
      | a =>
          lib_map pre (fun regs => decode_regs regs reqs (rb_start batch) (rb_indices batch) ∅)
            (lib_ReadRegisters c (rb_start batch) (rb_qty batch) (regType a) d)
      end
  end.

Fixpoint readBatchWithRetry (n : nat) (client : option C) (batch : readBatch)
    (reqs : list batchTagReq) (m : mstate D C)
    : mstate D C * option C * res (gmap nat Value) :=
  match n with
  | O => (m, client, Ok ∅)
  | S n' =>
      let '(d, r) := readBatchOnce client batch reqs (m_dev m) in
      let m := with_dev d m in
      match r with
      | Ok v => (m, client, Ok v)
      | Panic => (m, client, Panic)
      | Err e =>
          if bool_decide (n' <> 0%nat) && IsConnectionError (Some e) then
            let '(m, cancelled) := env_wait m in
            match cancelled with
            | Some ce => (m, client, Err ce)
            | None =>
                match bd_conn (m_drv m) with
                | None => (m, None, Err e)
                | Some c => readBatchWithRetry n' (Some c) batch reqs m
                end
            end
          else (m, client, Err e)
      end
  end.

(** The batches of one area, then the areas in the map's iteration order.
    [inr] is the early return (or a panic), [inl] the values so far. *)
Fixpoint run_batches (n : nat) (batches : list readBatch) (reqs : list batchTagReq)
    (client : option C) (values : gmap nat Value) (m : mstate D C)
    : mstate D C * option C * (gmap nat Value + res (gmap nat Value)) :=
  match batches with
  | [] => (m, client, inl values)
  | b :: rest =>
      match readBatchWithRetry n client b reqs m with
      | (m, client, Ok v) => run_batches n rest reqs client (v ∪ values) m
      | (m, client, Panic) => (m, client, inr Panic)
      | (m, None, Err _) => (m, None, inr (Ok values))
      | (m, Some c, Err _) => run_batches n rest reqs (Some c) values m
      end
  end.

Definition group_indices (reqs : list batchTagReq) (valid : list bool) (area : areaType)
    : list nat :=
  filter (fun i => (valid !! i = Some true /\ rq_batchable (req_at reqs i) = true)
                   /\ ai_area (rq_ai (req_at reqs i)) = area)
    (seq 0 (length reqs)).

Definition sort_indices (reqs : list batchTagReq) (indices : list nat) : list nat :=
  stable_sort (fun a c => bool_decide (ai_addr (rq_ai (req_at reqs a))
                                       < ai_addr (rq_ai (req_at reqs c)))) indices.

Fixpoint run_areas (n : nat) (order : list areaType) (reqs : list batchTagReq) (valid : list bool)
    (client : option C) (values : gmap nat Value) (m : mstate D C)
    : mstate D C * option C * res (gmap nat Value) :=
  match order with
  | [] => (m, client, Ok values)
  | area :: rest =>
      let batches :=
        mergeBatches area reqs modbusMaxBatchSize
          (sort_indices reqs (group_indices reqs valid area)) in
      match run_batches n batches reqs client values m with
      | (m, client, inl values) => run_areas n rest reqs valid client values m
      | (m, client, inr r) => (m, client, r)
      end
  end.

(** [performBatchReads]; [order] is the iteration order of the [groups] map,
    areas with no request having no batch. *)
Definition performBatchReads (n : nat) (order : list areaType) (client : option C)
    (reqs : list batchTagReq) (valid : list bool) (m : mstate D C)
    : mstate D C * option C * res (gmap nat Value) :=
  run_areas n order reqs valid client ∅ m.

(** ** [Read] *)

Record modbusConfig := mkModbusConfig {
  mc_name : string;
  mc_maxRetry : Z;
  mc_tags : gmap string TagConfig;
  mc_addrs : gmap string addrInfo;
}.

Definition attempts (cfg : modbusConfig) : nat := Z.to_nat (mc_maxRetry cfg + 1).

(** Phase 1: resolve one tag. *)
Definition resolve (cfg : modbusConfig) (tagName : string) : batchTagReq * bool :=
  match mc_tags cfg !! tagName, mc_addrs cfg !! tagName with
  | Some tc, Some ai =>
      let dt := (ParseDataType (tc_Type tc)).1 in
      let '(qty, ok) := batchQuantity ai dt in
      (mkReq tagName tc ai dt qty ok, true)
  | _, _ => (req_zero, false)
  end.

Definition goodValue (tagName : string) (req : batchTagReq) (now : Z) (v : Value) : TagValue :=
  mkTagValue tagName (ApplyTransform v (tc_Scale (rq_cfg req)) (tc_Offset (rq_cfg req)))
    (rq_dt req) QualityGood now None.

Definition badValue (tagName : string) (now : Z) (e : error) : TagValue :=
  mkTagValue tagName VNil TypeBool QualityBad now (Some e).

(** Phase 3: assemble the results in input order, reading individually what
    the batches did not deliver. *)
Fixpoint assemble (n : nat) (now : Z) (tags : list string) (i : nat)
    (reqs : list batchTagReq) (valid : list bool) (batchValues : gmap nat Value)
    (client : option C) (results : list TagValue) (m : mstate D C)
    : mstate D C * res (list TagValue) :=
  match tags with
  | [] => (m, Ok results)
  | tagName :: tags' =>
      if negb (default false (valid !! i)) then
        assemble n now tags' (S i) reqs valid batchValues client
          (results ++ [badValue tagName now (ErrFmt ("tag not found: " +:+ tagName))]) m
      else
        let req := req_at reqs i in
        match batchValues !! i with
        | Some rv =>
            assemble n now tags' (S i) reqs valid batchValues client
              (results ++ [goodValue tagName req now rv]) m
        | None =>
            match readTagWithRetry n client (rq_ai req) (rq_dt req) tagName m with
            | (m, client, aborted, Panic) => (m, Panic)
            | (m, client, aborted, Ok v) =>
                assemble n now tags' (S i) reqs valid batchValues client
                  (results ++ [goodValue tagName req now v]) m
            | (m, client, true, Err e) => (m, Err e)
            | (m, client, false, Err e) =>
                let m := with_drv RecordError m in
                let m := recordException e m in
                let m := with_drv (SetLastErrorLocked (error_text e)) m in
                let m := if IsConnectionError (Some e) then handleConnLostIfCurrent client m
                         else m in
                assemble n now tags' (S i) reqs valid batchValues client
                  (results ++ [badValue tagName now e]) m
            end
        end
  end.

Definition Read (cfg : modbusConfig) (order : list areaType) (now : Z) (tags : list string)
    (m : mstate D C) : mstate D C * res (list TagValue) :=
  let client := bd_conn (m_drv m) in
  let state := bd_state (m_drv m) in
  if negb (bool_decide (state = StateConnected)) || bool_decide (client = None) then
    (with_drv RecordError m,
     Err (ErrFmt ("driver " +:+ mc_name cfg +:+ " is not connected (state: "
                  +:+ ConnState_String state +:+ ")")))
  else
    let resolved := map (resolve cfg) tags in
    let reqs := resolved.*1 in
    let valid := resolved.*2 in
    match performBatchReads (attempts cfg) order client reqs valid m with
    | (m, client, Ok batchValues) =>
        match assemble (attempts cfg) now tags 0 reqs valid batchValues client [] m with
        | (m, Ok results) =>
            (with_drv (SetLastRead now)
               (with_drv (AddReadCount (Z.of_nat (length tags))) m), Ok results)
        | (m, r) => (m, r)
        end
    | (m, client, Err e) => (m, Err e)
    | (m, client, Panic) => (m, Panic)
    end.
End batches.

(** ** Writes *)

Section writes.
Context {D C : Type} `{ModbusLib D C} `{EqDecision C} `{GoArch}.

Definition writeTag (client : C) (ai : addrInfo) (cmd : WriteCommand) (d : D)
    : D * option error :=
  if isBitArea (ai_area ai) && negb (bool_decide (cmd_Type cmd = TypeBool)) then
    (d, Some (ErrFmt ("tag " +:+ cmd_Tag cmd +:+ ": type " +:+ DataType_String (cmd_Type cmd)
               +:+ " is not supported on " +:+ areaName (ai_area ai)
               +:+ " area (only bool is supported on coil/discrete-input areas)")))
  else
    match cmd_Type cmd with
    | TypeBool =>
        match cmd_Value cmd with
        | VBool val =>
            if decide (ai_area ai = areaCoil) then lib_WriteCoil client (ai_addr ai) val d
            else lib_WriteRegister client (ai_addr ai) (if val then 1 else 0) d
        | _ => (d, Some (ErrFmt ("expected bool value for tag " +:+ cmd_Tag cmd)))
        end
    | TypeUint16 | TypeInt16 =>
        lib_WriteRegister client (ai_addr ai) (ToUint16 (cmd_Value cmd)) d
    | TypeFloat32 => lib_WriteFloat32 client (ai_addr ai) (ToFloat32 (cmd_Value cmd)) d
    | TypeUint32 | TypeInt32 =>
        let val := ToUint32 (cmd_Value cmd) in
        lib_WriteRegisters client (ai_addr ai)
          [u16 (Z.shiftr val 16); u16 (Z.land val 65535)] d
    | dt => (d, Some (ErrFmt ("unsupported write type: " +:+ DataType_String dt)))
    end.

Definition with_Value (v : Value) (cmd : WriteCommand) : WriteCommand :=
  mkWriteCommand (cmd_Driver cmd) (cmd_Device cmd) (cmd_Tag cmd) v (cmd_Type cmd)
    (cmd_Source cmd) (cmd_Remote cmd) (cmd_Raw cmd).

(** One command of [Write]. *)
Definition writeOne (cfg : modbusConfig) (client : C) (cmd : WriteCommand) (m : mstate D C)
    : mstate D C * WriteResult :=
  match mc_addrs cfg !! cmd_Tag cmd with
  | None => (m, mkWriteResult false ("tag not found: " +:+ cmd_Tag cmd))
  | Some ai =>
      let tc := default TagConfig_zero (mc_tags cfg !! cmd_Tag cmd) in
      match ai_area ai with
      | areaDiscreteInput | areaInputRegister =>
          (m, mkWriteResult false ("tag " +:+ cmd_Tag cmd
                +:+ " is in a read-only area (discrete input/input register)"))
      | _ =>
          let cmd := with_Value (WriteValueForTag cmd tc) cmd in
          match writeTag client ai cmd (m_dev m) with
          | (d, None) => (with_dev d m, mkWriteResult true "")
          | (d, Some e) =>
              let m := recordException e (with_drv RecordError (with_dev d m)) in
              let m := if IsConnectionError (Some e)
                       then handleConnLostIfCurrent (Some client) m else m in
              (m, mkWriteResult false (error_text e))
          end
      end
  end.

Fixpoint writeAll (cfg : modbusConfig) (client : C) (cmds : list WriteCommand) (m : mstate D C)
    : mstate D C * list WriteResult :=
  match cmds with
  | [] => (m, [])
  | cmd :: rest =>
      let '(m, r) := writeOne cfg client cmd m in
      let '(m, rs) := writeAll cfg client rest m in (m, r :: rs)
  end.

Definition Write (cfg : modbusConfig) (cmds : list WriteCommand) (m : mstate D C)
    : mstate D C * res (list WriteResult) :=
  match bd_conn (m_drv m) with
  | Some client =>
      if decide (bd_state (m_drv m) = StateConnected) then
        let '(m, rs) := writeAll cfg client cmds m in (m, Ok rs)
      else (m, Err (ErrFmt ("driver " +:+ mc_name cfg +:+ " is not connected")))
  | None => (m, Err (ErrFmt ("driver " +:+ mc_name cfg +:+ " is not connected")))
  end.
End writes.

(** ** What a healthy device promises

    The library's documented behaviour against a device that answers: reads
    return the memory cells asked for and change nothing, writes change the
    cells written.  The default encoding of [ReadFloat32] and [WriteFloat32]
    is big-endian with the high word first. *)
Class ModbusDevice (D C : Type) `{ModbusLib D C} := {
  dev_bit : D -> areaType -> Z -> bool;
  dev_reg : D -> RegType -> Z -> Z;
  dev_reg_range d rt a : 0 <= dev_reg d rt a < 2 ^ 16;
  law_ReadCoils c a q d :
    0 <= a -> 1 <= q <= 125 -> a + q <= 65536 ->
    lib_ReadCoils c a q d = (d, Ok (map (dev_bit d areaCoil) (seqZ a q)));
  law_ReadDiscreteInputs c a q d :
    0 <= a -> 1 <= q <= 125 -> a + q <= 65536 ->
    lib_ReadDiscreteInputs c a q d = (d, Ok (map (dev_bit d areaDiscreteInput) (seqZ a q)));
  law_ReadRegisters c a q rt d :
    0 <= a -> 1 <= q <= 125 -> a + q <= 65536 ->
    lib_ReadRegisters c a q rt d = (d, Ok (map (dev_reg d rt) (seqZ a q)));
  law_ReadCoil c a d :
    0 <= a < 65536 -> lib_ReadCoil c a d = (d, Ok (dev_bit d areaCoil a));
  law_ReadDiscreteInput c a d :
    0 <= a < 65536 -> lib_ReadDiscreteInput c a d = (d, Ok (dev_bit d areaDiscreteInput a));
  law_ReadRegister c a rt d :
    0 <= a < 65536 -> lib_ReadRegister c a rt d = (d, Ok (dev_reg d rt a));
  law_ReadFloat32 c a rt d :
    0 <= a -> a + 2 <= 65536 ->
    lib_ReadFloat32 c a rt d =
    (d, Ok (f_frombits F32 (dev_reg d rt a * 2 ^ 16 + dev_reg d rt (a + 1))));
  law_WriteCoil c a v d :
    0 <= a < 65536 ->
    exists d', lib_WriteCoil c a v d = (d', None) /\ dev_bit d' areaCoil a = v;
  law_WriteRegister c a v d :
    0 <= a < 65536 -> 0 <= v < 2 ^ 16 ->
    exists d', lib_WriteRegister c a v d = (d', None) /\ dev_reg d' HOLDING_REGISTER a = v;
  law_WriteRegisters c a v1 v2 d :
    0 <= a -> a + 2 <= 65536 -> 0 <= v1 < 2 ^ 16 -> 0 <= v2 < 2 ^ 16 ->
    exists d', lib_WriteRegisters c a [v1; v2] d = (d', None) /\
      dev_reg d' HOLDING_REGISTER a = v1 /\ dev_reg d' HOLDING_REGISTER (a + 1) = v2;
  law_WriteFloat32 c a f d :
    0 <= a -> a + 2 <= 65536 -> f_valid F32 f = true ->
    exists d', lib_WriteFloat32 c a f d = (d', None) /\
      dev_reg d' HOLDING_REGISTER a = f_bits F32 f / 2 ^ 16 /\
      dev_reg d' HOLDING_REGISTER (a + 1) = f_bits F32 f mod 2 ^ 16;
}.

(** ** The planner covers every request within the protocol limit *)

Section planner_props.
Context (area : areaType) (reqs : list batchTagReq) (maxBatch : Z).

Definition rq_start (i : nat) : Z := ai_addr (rq_ai (req_at reqs i)).
Definition rq_size (i : nat) : Z := rq_qty (req_at reqs i).

(** A request that fits below the last address of its area. *)
Definition rq_fits (i : nat) : Prop :=
  0 <= rq_start i /\ 1 <= rq_size i <= maxBatch /\ rq_start i + rq_size i < 65536.

Definition rb_covers (b : readBatch) (i : nat) : Prop :=
  rb_start b <= rq_start i /\ rq_start i + rq_size i <= rb_start b + rb_qty b.

Record batch_ok (b : readBatch) : Prop := {
  bo_area : rb_area b = area;
  bo_start : 0 <= rb_start b;
  bo_qty : 1 <= rb_qty b <= maxBatch;
  bo_end : rb_start b + rb_qty b < 65536;
  bo_covers : Forall (rb_covers b) (rb_indices b);
}.

Lemma batch_ok_single i : rq_fits i -> batch_ok (mkBatch area (rq_start i) (rq_size i) [i]).
Proof.
  intros (? & ? & ?). split; simpl; try lia; [done|].
  repeat constructor; simpl; lia.
Qed.

Lemma merge_loop_ok cur curEnd idxs :
  batch_ok cur -> curEnd = rb_start cur + rb_qty cur ->
  Forall rq_fits idxs ->
  StronglySorted (fun i j => rq_start i <= rq_start j) idxs ->
  Forall (fun i => rb_start cur <= rq_start i) idxs ->
  Forall batch_ok (merge_loop area reqs maxBatch cur curEnd idxs) /\
  concat (map rb_indices (merge_loop area reqs maxBatch cur curEnd idxs))
  = rb_indices cur ++ idxs.
Proof.
  revert cur curEnd. induction idxs as [|i idxs IH]; intros cur curEnd Hb He Hf Hs Hl.
  { simpl. split; [by constructor|]. done. }
  inversion_clear Hf as [|? ? Hi Hf']. inversion_clear Hs as [|? ? Hs' Hi'].
  inversion_clear Hl as [|? ? Hli Hl']. simpl.
  fold (rq_start i). fold (rq_size i). destruct Hi as (Hi1 & Hi2 & Hi3). destruct Hb as [Ha Hb1 Hb2 Hb3 Hb4].
  rewrite (wrapu_small 16 (rq_start i + rq_size i)) by lia.
  set (mergedEnd := if decide (rq_start i + rq_size i > curEnd) then _ else _).
  assert (mergedEnd = Z.max curEnd (rq_start i + rq_size i)) as Hme
    by (unfold mergedEnd; case_decide; lia).
  rewrite (wrapu_small 16 (mergedEnd - rb_start cur)) by lia.
  case_decide as Hm.
  - destruct (IH (mkBatch (rb_area cur) (rb_start cur) (mergedEnd - rb_start cur)
                    (rb_indices cur ++ [i])) mergedEnd) as [H1 H2]; simpl; try done; [|lia|].
    + split; simpl; try lia; [done|]. apply Forall_app. split.
      * eapply Forall_impl; [done|]. intros j [? ?]. split; simpl; lia.
      * repeat constructor; simpl; lia.
    + split; [done|]. rewrite H2. simpl. by rewrite <- app_assoc.
  - destruct (IH (mkBatch area (rq_start i) (rq_size i) [i]) (rq_start i + rq_size i))
      as [H1 H2]; try done; [by apply batch_ok_single|].
    split; [by constructor|]. simpl. by rewrite H2.
Qed.

Lemma mergeBatches_ok idxs :
  Forall rq_fits idxs ->
  StronglySorted (fun i j => rq_start i <= rq_start j) idxs ->
  Forall batch_ok (mergeBatches area reqs maxBatch idxs) /\
  concat (map rb_indices (mergeBatches area reqs maxBatch idxs)) = idxs.
Proof.
  destruct idxs as [|i idxs]; intros Hf Hs; [done|]. simpl.
  inversion_clear Hf as [|? ? Hi Hf']. inversion_clear Hs as [|? ? Hs' Hi'].
  fold (rq_start i). fold (rq_size i).
  rewrite wrapu_small by (destruct Hi; lia).
  apply merge_loop_ok; try done. by apply batch_ok_single.
Qed.

Lemma sort_indices_sorted idxs :
  StronglySorted (fun i j => rq_start i <= rq_start j) (sort_indices reqs idxs).
Proof. apply (stable_sort_sorted rq_start). Qed.

Lemma sort_indices_perm idxs : sort_indices reqs idxs ≡ₚ idxs.
Proof. apply stable_sort_perm. Qed.
End planner_props.

(** ** Batched reads agree with individual reads *)

Lemma lookup_seqZ_map {A} (f : Z -> A) s q i :
  0 <= i < q -> go_index (map f (seqZ s q)) i = Ok (f (s + i)).
Proof.
  intros Hi. apply go_index_lookup; [lia|]. rewrite list_lookup_fmap, lookup_seqZ_lt by lia.
  simpl. do 2 f_equal. lia.
Qed.

Lemma reg2_add a b : 0 <= a < 2 ^ 16 -> 0 <= b < 2 ^ 16 -> reg2 a b = a * 2 ^ 16 + b.
Proof.
  intros. unfold reg2.
  rewrite wrapu_small by (rewrite Z.shiftl_mul_pow2; lia). by apply lor_shiftl_add.
Qed.

Lemma be_uint_byte acc a : 0 <= a < 2 ^ 16 ->
  Z.lor (Z.shiftl (Z.lor (Z.shiftl acc 8) (Z.shiftr a 8)) 8) (Z.land a 255) = acc * 2 ^ 16 + a.
Proof.
  intros Ha. rewrite Z.shiftr_div_pow2 by lia.
  replace 255 with (Z.ones 8) by done. rewrite Z.land_ones by lia.
  pose proof (Z.mod_pos_bound a (2 ^ 8)). pose proof (Z.div_mod a (2 ^ 8)).
  assert (0 <= a / 2 ^ 8 < 2 ^ 8)
    by (split; [apply Z.div_pos; lia|apply Z.div_lt_upper_bound; lia]).
  rewrite !lor_shiftl_add by lia. lia.
Qed.

Lemma be_regs_2 a b : 0 <= a < 2 ^ 16 -> 0 <= b < 2 ^ 16 -> be_regs [a; b] = a * 2 ^ 16 + b.
Proof.
  intros. unfold be_regs. cbn [flat_map be_bytes16 app be_uint]. by rewrite !be_uint_byte by lia.
Qed.

Section equivalence.
Context {D C : Type} `{ModbusDevice D C} `{EqDecision C}.
Implicit Types (d : D) (m : mstate D C).

(** What reading one request individually yields. *)
Definition tag_read (c : C) (d : D) (r : batchTagReq) : D * res Value :=
  readTag (Some c) (rq_ai r) (rq_dt r) (rq_name r) d.

Definition tag_value (c : C) (d : D) (r : batchTagReq) : Value :=
  match tag_read c d r with (_, Ok v) => v | _ => VNil end.

(** A request as [resolve] makes it, with its range below the end of the area. *)
Definition req_ok (r : batchTagReq) : Prop :=
  batchQuantity (rq_ai r) (rq_dt r) = (rq_qty r, true) /\
  0 <= ai_addr (rq_ai r) /\ ai_addr (rq_ai r) + rq_qty r < 65536.

Lemma batchQuantity_range ai dt q : batchQuantity ai dt = (q, true) -> 1 <= q <= 4.
Proof. unfold batchQuantity. repeat case_match; naive_solver lia. Qed.

Lemma req_ok_range r :
  req_ok r -> 1 <= rq_qty r <= 4 /\ 0 <= ai_addr (rq_ai r) /\
              ai_addr (rq_ai r) + rq_qty r < 65536.
Proof. intros (Hq & ? & ?). apply batchQuantity_range in Hq. lia. Qed.

Lemma extract_tag_read c d r start qty name :
  req_ok r -> isBitArea (ai_area (rq_ai r)) = false ->
  start <= ai_addr (rq_ai r) -> ai_addr (rq_ai r) + rq_qty r <= start + qty ->
  (d, extractRegisterValue (map (dev_reg d (regType (ai_area (rq_ai r)))) (seqZ start qty))
        (ai_addr (rq_ai r) - start) (rq_dt r))
  = readTag (Some c) (rq_ai r) (rq_dt r) name d.
Proof.
  intros (Hq & Ha & He) Hb Hs Hl. pose proof (batchQuantity_range _ _ _ Hq) as Hr.
  destruct r as [nm cfg [ar a] dt q ba]; simpl in *.
  unfold batchQuantity in Hq; simpl in Hq. rewrite Hb in Hq. rewrite Hb. simpl.
  set (rt := regType ar).
  assert (forall i, 0 <= i < q ->
    go_index (map (dev_reg d rt) (seqZ start qty)) (a - start + i) = Ok (dev_reg d rt (a + i))) as G.
  { intros i Hi. rewrite lookup_seqZ_map by lia. do 2 f_equal. lia. }
  assert (forall k i, 0 <= i < k -> go_index (map (dev_reg d rt) (seqZ a k)) i = Ok (dev_reg d rt (a + i))) as G'.
  { intros. by rewrite lookup_seqZ_map by lia. }
  destruct dt; simplify_eq; unfold extractRegisterValue; rewrite !G by lia; cbn [res_bind];
    unfold readSingleRegister, readDoubleRegister, readQuadRegister, readFloat64Tag, readBoolTag;
    simpl ai_addr; simpl ai_area.
  all: fold rt.
  all: rewrite ?law_ReadRegister, ?law_ReadRegisters, ?law_ReadFloat32 by lia; cbn [lib_map].
  all: rewrite ?G' by lia; cbn [res_bind]; rewrite ?Z.add_0_r; try done.
  - by destruct ar.
  - by rewrite be_regs_2 by apply dev_reg_range.
Qed.

Lemma bits_tag_read c d r start qty name :
  req_ok r -> isBitArea (ai_area (rq_ai r)) = true ->
  start <= ai_addr (rq_ai r) -> ai_addr (rq_ai r) + rq_qty r <= start + qty ->
  exists b, go_index (map (dev_bit d (ai_area (rq_ai r))) (seqZ start qty))
              (ai_addr (rq_ai r) - start) = Ok b /\
            readTag (Some c) (rq_ai r) (rq_dt r) name d = (d, Ok (VBool b)).
Proof.
  intros (Hq & Ha & He) Hb Hs Hl. pose proof (batchQuantity_range _ _ _ Hq) as Hr.
  destruct r as [nm cfg [ar a] dt q ba]; simpl in *.
  unfold batchQuantity in Hq; simpl in Hq. rewrite Hb in Hq.
  case_decide; simplify_eq. rewrite Hb. simpl. rewrite lookup_seqZ_map by lia.
  eexists. split; [done|]. replace (start + (a - start)) with a by lia.
  unfold readBoolTag. simpl. destruct ar; try done.
  - by rewrite law_ReadCoil by lia.
  - by rewrite law_ReadDiscreteInput by lia.
Qed.

Lemma tag_read_ok c d r : req_ok r -> tag_read c d r = (d, Ok (tag_value c d r)).
Proof.
  intros Hr. unfold tag_value, tag_read. destruct (isBitArea (ai_area (rq_ai r))) eqn:Eb.
  - destruct (bits_tag_read c d r (ai_addr (rq_ai r)) (rq_qty r) (rq_name r)) as (b & _ & ->);
      [done|done|lia|lia|done].
  - rewrite <- (extract_tag_read c d r (ai_addr (rq_ai r)) (rq_qty r) (rq_name r)) by (done || lia).
    destruct Hr as (Hq & Ha & He).
    destruct r as [nm cfg [ar a] dt q ba]; simpl in *.
    unfold batchQuantity in Hq; simpl in Hq. rewrite Eb in Hq. rewrite Z.sub_diag.
    destruct dt; simplify_eq; unfold extractRegisterValue;
      rewrite !lookup_seqZ_map by lia; done.
Qed.

(** The part of the value map one batch (or several) contributes. *)
Definition vals_for (c : C) (d : D) (reqs : list batchTagReq) (idxs : list nat)
    (old new : gmap nat Value) : Prop :=
  forall i, new !! i = if decide (i ∈ idxs) then Some (tag_value c d (req_at reqs i)) else old !! i.

Lemma vals_for_cons c d reqs i idxs old new :
  vals_for c d reqs idxs (<[i := tag_value c d (req_at reqs i)]> old) new ->
  vals_for c d reqs (i :: idxs) old new.
Proof.
  intros Hv j. rewrite Hv. destruct (decide (i = j)) as [->|Hn].
  - rewrite lookup_insert_eq, (decide_True (P := j ∈ j :: idxs)) by constructor.
    by case_decide.
  - rewrite lookup_insert_ne by done.
    destruct (decide (j ∈ idxs)); [rewrite decide_True by (by constructor); done|].
    rewrite decide_False; [done|]. intros [->|?]%elem_of_cons; done.
Qed.

Lemma decode_bits_ok c d reqs area start qty idxs acc :
  isBitArea area = true -> 0 <= start ->
  Forall (fun i => req_ok (req_at reqs i) /\ ai_area (rq_ai (req_at reqs i)) = area /\
            start <= rq_start reqs i /\ rq_start reqs i + rq_size reqs i <= start + qty) idxs ->
  exists M, decode_bits (map (dev_bit d area) (seqZ start qty)) reqs start idxs acc = Ok M /\
            vals_for c d reqs idxs acc M.
Proof.
  intros Hb Hst Hf. revert acc. induction Hf as [|i idxs (Hr & Ha & Hs & Hl) _ IH]; intros acc.
  { exists acc. split; [done|]. intros j. by rewrite decide_False by (by intros ?%elem_of_nil). }
  simpl. pose proof (req_ok_range _ Hr) as Hg'. unfold rq_start in *.
  rewrite wrapu_small by lia.
  destruct (bits_tag_read c d (req_at reqs i) start qty (rq_name (req_at reqs i)))
    as (b & Hg & Hv); [done|by rewrite Ha|done|done|].
  rewrite Ha in Hg. rewrite Hg. cbn [res_bind].
  destruct (IH (<[i:=VBool b]> acc)) as (M & HM & HV). exists M. split; [done|].
  apply vals_for_cons. unfold tag_value, tag_read. by rewrite Hv.
Qed.

Lemma decode_regs_ok c d reqs area start qty idxs acc :
  isBitArea area = false -> 0 <= start ->
  Forall (fun i => req_ok (req_at reqs i) /\ ai_area (rq_ai (req_at reqs i)) = area /\
            start <= rq_start reqs i /\ rq_start reqs i + rq_size reqs i <= start + qty) idxs ->
  exists M, decode_regs (map (dev_reg d (regType area)) (seqZ start qty)) reqs start idxs acc = Ok M /\
            vals_for c d reqs idxs acc M.
Proof.
  intros Hb Hst Hf. revert acc. induction Hf as [|i idxs (Hr & Ha & Hs & Hl) _ IH]; intros acc.
  { exists acc. split; [done|]. intros j. by rewrite decide_False by (by intros ?%elem_of_nil). }
  simpl. pose proof (req_ok_range _ Hr) as Hg'. unfold rq_start in *.
  rewrite wrapu_small by lia.
  pose proof (extract_tag_read c d (req_at reqs i) start qty (rq_name (req_at reqs i)) Hr)
    as He. rewrite Ha in He. specialize (He Hb Hs Hl).
  pose proof (tag_read_ok c d (req_at reqs i) Hr) as Ht. unfold tag_read in Ht.
  rewrite Ht in He. injection He as He. rewrite He.
  destruct (IH (<[i:=tag_value c d (req_at reqs i)]> acc)) as (M & HM & HV). exists M.
  split; [done|]. by apply vals_for_cons.
Qed.

(** A planned batch over good requests. *)
Definition good_batch (reqs : list batchTagReq) (b : readBatch) : Prop :=
  batch_ok (rb_area b) reqs modbusMaxBatchSize b /\
  Forall (fun i => req_ok (req_at reqs i) /\ ai_area (rq_ai (req_at reqs i)) = rb_area b)
    (rb_indices b).

Lemma readBatchOnce_ok c d reqs b :
  good_batch reqs b ->
  exists M, readBatchOnce (Some c) b reqs d = (d, Ok M) /\
            vals_for c d reqs (rb_indices b) ∅ M.
Proof.
  intros [[_ Hs Hq He Hc] Hf].
  assert (Forall (fun i => req_ok (req_at reqs i) /\ ai_area (rq_ai (req_at reqs i)) = rb_area b /\
            rb_start b <= rq_start reqs i /\
            rq_start reqs i + rq_size reqs i <= rb_start b + rb_qty b) (rb_indices b)) as Hall.
  { rewrite Forall_forall in Hc, Hf |- *. intros i Hi.
    destruct (Hc i Hi), (Hf i Hi). done. }
  unfold readBatchOnce, modbusMaxBatchSize in *. destruct (rb_area b) eqn:Ea.
  - destruct (decode_bits_ok c d reqs areaCoil (rb_start b) (rb_qty b) (rb_indices b) ∅)
      as (M & HM & HV); try done.
    exists M. rewrite law_ReadCoils by lia. simpl. by rewrite HM.
  - destruct (decode_bits_ok c d reqs areaDiscreteInput (rb_start b) (rb_qty b) (rb_indices b) ∅)
      as (M & HM & HV); try done.
    exists M. rewrite law_ReadDiscreteInputs by lia. simpl. by rewrite HM.
  - destruct (decode_regs_ok c d reqs areaInputRegister (rb_start b) (rb_qty b) (rb_indices b) ∅)
      as (M & HM & HV); try done.
    exists M. rewrite law_ReadRegisters by lia. simpl in *. by rewrite HM.
  - destruct (decode_regs_ok c d reqs areaHoldingRegister (rb_start b) (rb_qty b) (rb_indices b) ∅)
      as (M & HM & HV); try done.
    exists M. rewrite law_ReadRegisters by lia. simpl in *. by rewrite HM.
Qed.

Lemma with_dev_id m : with_dev (m_dev m) m = m.
Proof. by destruct m. Qed.

Lemma vals_for_app c d reqs l1 l2 old mid new :
  vals_for c d reqs l1 old mid -> vals_for c d reqs l2 mid new ->
  vals_for c d reqs (l1 ++ l2) old new.
Proof.
  intros Hv1 Hv2 i. rewrite Hv2, Hv1. repeat case_decide; set_solver.
Qed.

Lemma run_batches_ok n c batches reqs values m :
  Forall (good_batch reqs) batches ->
  exists V, run_batches (S n) batches reqs (Some c) values m = (m, Some c, inl V) /\
            vals_for c (m_dev m) reqs (concat (map rb_indices batches)) values V.
Proof.
  intros Hf. revert values. induction Hf as [|b batches Hb _ IH]; intros values.
  { exists values. split; [done|]. intros j. by rewrite decide_False by (by intros ?%elem_of_nil). }
  destruct (readBatchOnce_ok c (m_dev m) reqs b Hb) as (M & HM & HV).
  destruct (IH (M ∪ values)) as (V & Hrun & HV'). exists V.
  split; [cbn [run_batches readBatchWithRetry]; by rewrite HM, with_dev_id|].
  simpl. eapply vals_for_app; [|done].
  intros i. rewrite lookup_union, HV. case_decide.
  - by rewrite union_Some_l.
  - by rewrite lookup_empty, (left_id_L None _).
Qed.

(** The areas of a plan over good requests. *)
Lemma plan_good reqs valid area :
  (forall i, valid !! i = Some true -> req_ok (req_at reqs i)) ->
  let plan := mergeBatches area reqs modbusMaxBatchSize
                (sort_indices reqs (group_indices reqs valid area)) in
  Forall (good_batch reqs) plan /\
  concat (map rb_indices plan) ≡ₚ group_indices reqs valid area.
Proof.
  intros Hv plan. set (idxs := sort_indices reqs (group_indices reqs valid area)) in *.
  assert (forall i, i ∈ idxs -> req_ok (req_at reqs i) /\ ai_area (rq_ai (req_at reqs i)) = area)
    as Hin.
  { intros i. unfold idxs. rewrite sort_indices_perm. unfold group_indices.
    rewrite list_elem_of_filter. naive_solver. }
  destruct (mergeBatches_ok area reqs modbusMaxBatchSize idxs) as [Hok Hcat].
  - apply Forall_forall. intros i [Hi _]%Hin. apply req_ok_range in Hi.
    unfold rq_fits, modbusMaxBatchSize, rq_start, rq_size. lia.
  - apply sort_indices_sorted.
  - fold plan in Hok, Hcat. split; [|by rewrite Hcat; apply sort_indices_perm].
    rewrite Forall_forall in Hok |- *. intros b Hb. pose proof (Hok b Hb) as Hbo.
    split; [by rewrite (bo_area _ _ _ _ Hbo)|].
    apply Forall_forall. intros i Hi. rewrite (bo_area _ _ _ _ Hbo). apply Hin.
    rewrite <- Hcat. apply list_elem_of_In, in_concat. exists (rb_indices b).
    split; [apply in_map|]; by apply list_elem_of_In.
Qed.

Lemma run_areas_ok n c order reqs valid values m :
  (forall i, valid !! i = Some true -> req_ok (req_at reqs i)) ->
  exists V, run_areas (S n) order reqs valid (Some c) values m = (m, Some c, Ok V) /\
    vals_for c (m_dev m) reqs (flat_map (group_indices reqs valid) order) values V.
Proof.
  intros Hv. revert values. induction order as [|area order IH]; intros values.
  { exists values. split; [done|]. intros j. by rewrite decide_False by (by intros ?%elem_of_nil). }
  destruct (plan_good reqs valid area Hv) as [Hg Hp].
  cbn [run_areas]. set (plan := mergeBatches _ _ _ _) in *.
  destruct (run_batches_ok n c plan reqs values m Hg) as (V1 & Hr & HV1).
  destruct (IH V1) as (V & Hra & HV). exists V. rewrite Hr. split; [done|].
  simpl. eapply vals_for_app; [|done]. intros i. rewrite HV1.
  destruct (decide (i ∈ concat (map rb_indices plan))) as [Hi|Hi]; rewrite Hp in Hi;
    [by rewrite decide_True|by rewrite decide_False].
Qed.

(** Every batchable, valid request is in the group of its area. *)
Lemma group_indices_all reqs valid order i :
  (forall a, a ∈ order) -> (i < length reqs)%nat -> valid !! i = Some true ->
  rq_batchable (req_at reqs i) = true ->
  i ∈ flat_map (group_indices reqs valid) order.
Proof.
  intros Ho Hi Hv Hb. apply list_elem_of_In, in_flat_map.
  exists (ai_area (rq_ai (req_at reqs i))). split; [by apply list_elem_of_In|].
  apply list_elem_of_In. unfold group_indices. rewrite list_elem_of_filter, elem_of_seq.
  naive_solver lia.
Qed.

(** What [Read] reports for one tag when every value is at hand. *)
Definition read_spec (cfg : modbusConfig) (now : Z) (c : C) (d : D) (t : string) : TagValue :=
  match resolve cfg t with
  | (req, true) => goodValue t req now (tag_value c d req)
  | (_, false) => badValue t now (ErrFmt ("tag not found: " +:+ t))
  end.

Lemma assemble_ok n now cfg tags pre c V m :
  let reqs := (map (resolve cfg) (pre ++ tags)).*1 in
  let valid := (map (resolve cfg) (pre ++ tags)).*2 in
  (forall i, (length pre <= i)%nat -> valid !! i = Some true ->
     V !! i = Some (tag_value c (m_dev m) (req_at reqs i))) ->
  forall results,
  assemble n now tags (length pre) reqs valid V (Some c) results m =
  (m, Ok (results ++ map (read_spec cfg now c (m_dev m)) tags)).
Proof.
  revert pre. induction tags as [|t tags IH]; intros pre reqs valid HV results.
  { simpl. by rewrite app_nil_r. }
  specialize (IH (pre ++ [t])). rewrite <- !app_assoc, length_app in IH. cbn [app length] in IH.
  rewrite Nat.add_1_r in IH. fold reqs valid in IH.
  assert (reqs !! length pre = Some (resolve cfg t).1 /\ valid !! length pre = Some (resolve cfg t).2)
    as [Hq Hv].
  { unfold reqs, valid. rewrite !list_lookup_fmap, !lookup_app_r, Nat.sub_diag by done. done. }
  cbn [assemble map]. rewrite Hv. unfold read_spec at 1.
  assert (req_at reqs (length pre) = (resolve cfg t).1) as Hreq by (unfold req_at; by rewrite Hq).
  destruct (resolve cfg t) as [req [|]]; simpl default; cbn [negb fst snd] in *.
  - rewrite (HV (length pre)) by done. rewrite Hreq, IH by (intros; apply HV; [lia|done]).
    by rewrite <- app_assoc.
  - rewrite IH by (intros; apply HV; [lia|done]). by rewrite <- app_assoc.
Qed.
End equivalence.

(** ** A simulated device

    A device whose memory is a pair of functions; it never fails. *)
Module Sim.
Record dev := mkDev { bits : areaType -> Z -> bool; regs : RegType -> Z -> Z }.

Definition blank : dev := mkDev (fun _ _ => false) (fun _ _ => 0).

Definition reg (d : dev) (rt : RegType) (a : Z) : Z := u16 (regs d rt a).

Definition set_reg (a v : Z) (d : dev) : dev :=
  mkDev (bits d) (fun rt i => match rt with
                              | HOLDING_REGISTER => if decide (i = a) then v else regs d rt i
                              | _ => regs d rt i end).

Definition set_coil (a : Z) (v : bool) (d : dev) : dev :=
  mkDev (fun ar i => match ar with
                     | areaCoil => if decide (i = a) then v else bits d ar i
                     | _ => bits d ar i end) (regs d).

#[global] Instance lib : ModbusLib dev unit := {
  lib_ReadCoils _ a q d := (d, Ok (map (bits d areaCoil) (seqZ a q)));
  lib_ReadDiscreteInputs _ a q d := (d, Ok (map (bits d areaDiscreteInput) (seqZ a q)));
  lib_ReadRegisters _ a q rt d := (d, Ok (map (reg d rt) (seqZ a q)));
  lib_ReadCoil _ a d := (d, Ok (bits d areaCoil a));
  lib_ReadDiscreteInput _ a d := (d, Ok (bits d areaDiscreteInput a));
  lib_ReadRegister _ a rt d := (d, Ok (reg d rt a));
  lib_ReadFloat32 _ a rt d := (d, Ok (f_frombits F32 (reg d rt a * 2 ^ 16 + reg d rt (a + 1))));
  lib_WriteCoil _ a v d := (set_coil a v d, None);
  lib_WriteRegister _ a v d := (set_reg a v d, None);
  lib_WriteRegisters _ a vs d :=
    (foldl (fun d iv => set_reg (a + Z.of_nat iv.1) iv.2 d) d (imap pair vs), None);
  lib_WriteFloat32 _ a f d :=
    (set_reg (a + 1) (f_bits F32 f mod 2 ^ 16) (set_reg a (f_bits F32 f / 2 ^ 16) d), None);
  lib_error x := ErrNew (exceptionCode x);
  env_wait m := (m, None);
}.

#[global] Program Instance device : ModbusDevice dev unit := {
  dev_bit := bits;
  dev_reg := reg;
}.
Next Obligation. intros. apply wrapu_range. lia. Qed.
Next Obligation. done. Qed.
Next Obligation. done. Qed.
Next Obligation. done. Qed.
Next Obligation. done. Qed.
Next Obligation. done. Qed.
Next Obligation. done. Qed.
Next Obligation. done. Qed.
Next Obligation. intros. eexists. split; [done|]. simpl. by rewrite decide_True. Qed.
Next Obligation.
  intros. eexists. split; [done|]. unfold reg. simpl. rewrite decide_True by done.
  by apply wrapu_small.
Qed.
Next Obligation.
  intros. eexists. split; [done|]. unfold reg. simpl.
  rewrite decide_False, !decide_True by lia. by rewrite !wrapu_small by lia.
Qed.
Next Obligation.
  intros c a f d H1 H2 Hf. eexists. split; [done|]. unfold reg. simpl.
  rewrite decide_False, !decide_True by lia.
  pose proof (f_bits_range F32 F32_ok f Hf) as Hb. simpl in Hb.
  rewrite wrapu_small by
    (split; [apply Z.div_pos; lia|apply Z.div_lt_upper_bound; lia]).
  split; [done|]. apply wrapu_small, Z.mod_pos_bound. lia.
Qed.

(** A connected driver on a device. *)
Definition connected (d : dev) : mstate dev unit :=
  mkM d (Start (inl ()) bd_zero) [].
End Sim.

(** ** Theorems *)

(** Every configured tag has a batchable type and a range that ends before the
    last address of its area. *)
Definition cfg_ok (cfg : modbusConfig) : Prop :=
  forall t tc ai, mc_tags cfg !! t = Some tc -> mc_addrs cfg !! t = Some ai ->
  exists q, batchQuantity ai (ParseDataType (tc_Type tc)).1 = (q, true) /\
            0 <= ai_addr ai /\ ai_addr ai + q < 65536.

Definition all_areas : list areaType :=
  [areaCoil; areaDiscreteInput; areaInputRegister; areaHoldingRegister].

Lemma resolve_ok cfg t req :
  cfg_ok cfg -> resolve cfg t = (req, true) -> req_ok req /\ rq_batchable req = true.
Proof.
  intros Hc. unfold resolve.
  destruct (mc_tags cfg !! t) as [tc|] eqn:Et; [|done].
  destruct (mc_addrs cfg !! t) as [ai|] eqn:Ea; [|done].
  destruct (Hc t tc ai Et Ea) as (q & Hq & H0 & Hl). rewrite Hq. intros [= <-].
  unfold req_ok; simpl. by rewrite Hq.
Qed.

(** The batch planner, on the requests of one area that end
    below the area's last address: sorted and merged, they make batches that
    together contain every request exactly once, each batch asks for at least
    one and at most [maxBatch] registers inside the address space, and each
    request's range lies inside the range of the batch it was put in. *)
Theorem mergeBatches_covers area reqs maxBatch idxs :
  Forall (rq_fits reqs maxBatch) idxs ->
  let plan := mergeBatches area reqs maxBatch (sort_indices reqs idxs) in
  concat (map rb_indices plan) ≡ₚ idxs /\
  Forall (fun b =>
    rb_area b = area /\ 0 <= rb_start b /\ 1 <= rb_qty b <= maxBatch /\
    rb_start b + rb_qty b < 65536 /\
    Forall (rb_covers reqs b) (rb_indices b)) plan.
Proof.
  intros Hf plan. destruct (mergeBatches_ok area reqs maxBatch (sort_indices reqs idxs))
    as [Hok Hcat].
  - by rewrite sort_indices_perm.
  - apply sort_indices_sorted.
  - fold plan in Hok, Hcat. rewrite Hcat. split; [apply sort_indices_perm|].
    eapply Forall_impl; [done|]. by intros b [].
Qed.

(** Requests for registers 10-11, 12-15 and 30, out of order. *)
Definition sample_reqs : list batchTagReq :=
  [mkReq "c" TagConfig_zero (mkAddr areaHoldingRegister 30) TypeUint16 1 true;
   mkReq "b" TagConfig_zero (mkAddr areaHoldingRegister 12) TypeUint64 4 true;
   mkReq "a" TagConfig_zero (mkAddr areaHoldingRegister 10) TypeUint32 2 true].

Lemma mergeBatches_covers_witness :
  mergeBatches areaHoldingRegister sample_reqs 125 (sort_indices sample_reqs [0; 1; 2]%nat)
  = [mkBatch areaHoldingRegister 10 6 [2; 1]%nat; mkBatch areaHoldingRegister 30 1 [0]%nat] /\
  concat (map rb_indices (mergeBatches areaHoldingRegister sample_reqs 125
    (sort_indices sample_reqs [0; 1; 2]%nat))) ≡ₚ [0; 1; 2]%nat.
Proof.
  split; [vm_compute; reflexivity|].
  apply (mergeBatches_covers areaHoldingRegister sample_reqs 125 [0; 1; 2]%nat).
  repeat constructor; vm_compute; congruence.
Defined.

(** Batching changes nothing a caller can see: on a device that
    answers, [Read] of any list of configured or unknown tag names, in whatever
    order Go iterates over the areas, returns for each name, in the order
    asked, exactly what reading that tag alone with [readTag] gives (scaled),
    or a bad-quality entry for an unknown name; the device and the connection
    are untouched and only the read counter and the time of the last read
    change. *)
Lemma read_healthy {D C} `{ModbusDevice D C} `{EqDecision C}
    (cfg : modbusConfig) order now tags (m : mstate D C) c :
  cfg_ok cfg -> 0 <= mc_maxRetry cfg -> order ≡ₚ all_areas ->
  bd_state (m_drv m) = StateConnected -> bd_conn (m_drv m) = Some c ->
  Read cfg order now tags m =
  (with_drv (SetLastRead now) (with_drv (AddReadCount (Z.of_nat (length tags))) m),
   Ok (map (fun t =>
         match resolve cfg t with
         | (req, true) =>
             match readTag (Some c) (rq_ai req) (rq_dt req) (rq_name req) (m_dev m) with
             | (_, Ok v) => goodValue t req now v
             | (_, Err e) => badValue t now e
             | (_, Panic) => badValue t now (ErrFmt "")
             end
         | (_, false) => badValue t now (ErrFmt ("tag not found: " +:+ t))
         end) tags)).
Proof.
  intros Hc Hr Ho Hs Hcon. unfold Read. rewrite Hs, Hcon.
  rewrite bool_decide_eq_true_2, bool_decide_eq_false_2 by done. cbn [negb orb].
  set (reqs := (map (resolve cfg) tags).*1). set (valid := (map (resolve cfg) tags).*2).
  assert (forall i, valid !! i = Some true ->
            req_ok (req_at reqs i) /\ rq_batchable (req_at reqs i) = true /\ (i < length reqs)%nat) as Hv.
  { intros i Hi. unfold valid, reqs, req_at in *. rewrite !list_lookup_fmap in *.
    destruct (tags !! i) as [t|] eqn:Et; simpl in *; [|done].
    destruct (resolve cfg t) as [req []] eqn:Er; simpl in *; [|done].
    apply resolve_ok in Er as [??]; [|done]. split_and!; [done..|].
    rewrite !length_map. by eapply lookup_lt_Some. }
  unfold attempts. replace (Z.to_nat (mc_maxRetry cfg + 1)) with (S (Z.to_nat (mc_maxRetry cfg))) by lia.
  destruct (run_areas_ok (Z.to_nat (mc_maxRetry cfg)) c order reqs valid ∅ m) as (V & HV & Hvals).
  { intros i Hi. by apply Hv. }
  unfold performBatchReads. rewrite HV.
  rewrite (assemble_ok _ now cfg tags [] c V m).
  - do 3 f_equal. cbn [app]. apply map_ext. intros t. unfold read_spec.
    destruct (resolve cfg t) as [req []] eqn:Er; [|done].
    apply resolve_ok in Er as [Hreq _]; [|done].
    pose proof (tag_read_ok c (m_dev m) req Hreq) as Ht. unfold tag_read in Ht. by rewrite Ht.
  - intros i _ Hi. destruct (Hv i Hi) as (_ & Hb & Hlt). rewrite Hvals.
    rewrite decide_True; [done|]. apply group_indices_all; try done.
    intros a. rewrite Ho. destruct a; set_solver.
Qed.

(** A driver configuration from tags given as (name, type, address). *)
Definition mk_tag (name ty addr : string) : TagConfig :=
  mkTagConfig name addr ty "" "1s" f_zero f_zero f_zero "" "" "" "" "".

Definition addr_of (addr : string) : addrInfo :=
  match parseModbusAddress addr with Ok ai => ai | _ => mkAddr areaCoil 0 end.

Definition sample_cfg (tags : list (string * string * string)) : modbusConfig :=
  mkModbusConfig "plc" 3
    (list_to_map (map (fun t => (t.1.1, mk_tag t.1.1 t.1.2 t.2)) tags))
    (list_to_map (map (fun t => (t.1.1, addr_of t.2)) tags)).

Definition small_cfg : modbusConfig :=
  sample_cfg [("level", "uint32", "40011"); ("pump", "bool", "00004")]%string.

Lemma small_cfg_ok : cfg_ok small_cfg.
Proof.
  intros t tc ai Ht Ha. apply elem_of_list_to_map_2 in Ht. apply elem_of_list_to_map_2 in Ha.
  cbn [map] in Ht, Ha. rewrite !elem_of_cons, elem_of_nil in Ht.
  rewrite !elem_of_cons, elem_of_nil in Ha.
  destruct Ht as [[= -> ->]|[[= -> ->]|[]]]; destruct Ha as [Ha|[Ha|[]]]; simplify_eq.
  - exists 2. vm_compute. intuition congruence.
  - exists 1. vm_compute. intuition congruence.
Qed.

(** A value of a data type the driver writes, inside the type's range. *)
Definition typed_value (dt : DataType) (v : Value) : Prop :=
  match dt, v with
  | TypeBool, VBool _ => True
  | TypeUint16, VUint16 z => 0 <= z < 2 ^ 16
  | TypeInt16, VInt16 z => - 2 ^ 15 <= z < 2 ^ 15
  | TypeUint32, VUint32 z => 0 <= z < 2 ^ 32
  | TypeInt32, VInt32 z => - 2 ^ 31 <= z < 2 ^ 31
  | TypeFloat32, VFloat32 f => f_valid F32 f = true
  | _, _ => False
  end.

Lemma u32_halves v : 0 <= v < 2 ^ 32 ->
  u16 (Z.shiftr v 16) = v / 2 ^ 16 /\ u16 (Z.land v 65535) = v mod 2 ^ 16.
Proof.
  intros Hv. rewrite Z.shiftr_div_pow2 by lia.
  replace 65535 with (Z.ones 16) by done. rewrite Z.land_ones by lia. unfold wrapu.
  rewrite Zmod_mod. split; [|done]. apply Z.mod_small.
  split; [apply Z.div_pos; lia|apply Z.div_lt_upper_bound; lia].
Qed.

Section roundtrip.
Context {D C : Type} `{ModbusDevice D C} `{EqDecision C} `{GoArch}.

(** The 32-bit write and read of a pair of registers. *)
Lemma double_roundtrip (c : C) ai dt cmd name (d : D) u :
  ai_area ai = areaHoldingRegister -> 0 <= ai_addr ai -> ai_addr ai + 2 <= 65536 ->
  cmd_Type cmd = dt -> dt = TypeUint32 \/ dt = TypeInt32 ->
  ToUint32 (cmd_Value cmd) = u -> 0 <= u < 2 ^ 32 ->
  exists d', writeTag c ai cmd d = (d', None) /\
    readTag (Some c) ai dt name d' =
    (d', Ok (if decide (dt = TypeInt32) then VInt32 (i32 u) else VUint32 u)).
Proof.
  intros Ha H0' Hl Hdt Hty Hu Hr. pose proof (u32_halves u Hr) as [E1 E2].
  pose proof (Z.mod_pos_bound u (2 ^ 16)). pose proof (Z.div_mod u (2 ^ 16)).
  assert (0 <= u / 2 ^ 16 < 2 ^ 16)
    by (split; [apply Z.div_pos; lia|apply Z.div_lt_upper_bound; lia]).
  destruct (law_WriteRegisters c (ai_addr ai) (u / 2 ^ 16) (u mod 2 ^ 16) d)
    as (d' & Hw & Hr1 & Hr2); [lia..|].
  exists d'. split.
  - unfold writeTag. rewrite Ha, Hdt. destruct Hty as [-> | ->]; simpl;
      by rewrite Hu, E1, E2.
  - unfold readTag. rewrite Ha. destruct Hty as [-> | ->]; cbn [isBitArea andb];
      unfold readDoubleRegister; rewrite Ha, law_ReadRegisters by lia; cbn [lib_map];
      rewrite !lookup_seqZ_map by lia; cbn [res_bind regType];
      rewrite Z.add_0_r, Hr1, Hr2, reg2_add by lia;
      replace (u / 2 ^ 16 * 2 ^ 16 + u mod 2 ^ 16) with u by lia; done.
Qed.

Lemma single_roundtrip (c : C) ai dt cmd name (d : D) u :
  ai_area ai = areaHoldingRegister -> 0 <= ai_addr ai -> ai_addr ai < 65536 ->
  cmd_Type cmd = dt -> dt = TypeUint16 \/ dt = TypeInt16 ->
  ToUint16 (cmd_Value cmd) = u -> 0 <= u < 2 ^ 16 ->
  exists d', writeTag c ai cmd d = (d', None) /\
    readTag (Some c) ai dt name d' =
    (d', Ok (if decide (dt = TypeInt16) then VInt16 (i16 u) else VUint16 u)).
Proof.
  intros Ha H0' Hl Hdt Hty Hu Hr.
  destruct (law_WriteRegister c (ai_addr ai) u d) as (d' & Hw & Hr1); [lia..|].
  exists d'. split.
  - unfold writeTag. rewrite Ha, Hdt. destruct Hty as [-> | ->]; simpl; by rewrite Hu.
  - unfold readTag. rewrite Ha. destruct Hty as [-> | ->]; cbn [isBitArea andb];
      unfold readSingleRegister; rewrite Ha, law_ReadRegister by lia; cbn [lib_map regType];
      by rewrite Hr1.
Qed.

(** C23.  A write command carrying a value of its declared type
    to a coil (booleans) or to holding registers succeeds on a device that
    answers, and reading the tag back gives that very value: for booleans,
    16- and 32-bit integers of both signs, and every [float32]. *)
Theorem modbus_write_read (c : C) ai cmd name (d : D) :
  (ai_area ai = areaHoldingRegister \/ ai_area ai = areaCoil /\ cmd_Type cmd = TypeBool) ->
  0 <= ai_addr ai -> ai_addr ai + 2 <= 65536 ->
  typed_value (cmd_Type cmd) (cmd_Value cmd) ->
  exists d', writeTag c ai cmd d = (d', None) /\
    readTag (Some c) ai (cmd_Type cmd) name d' = (d', Ok (cmd_Value cmd)).
Proof.
  intros Ha H0' Hl Hv. unfold typed_value in Hv.
  destruct (cmd_Type cmd) eqn:Et, (cmd_Value cmd) as [|b|?|?|z|z|?|?|?|z|z|?|f|?|?|?|?] eqn:Ev; try done;
    try (destruct Ha as [Ha|[_ ?]]; [|done]).
  - destruct Ha as [Ha|[Ha _]].
    + destruct (law_WriteRegister c (ai_addr ai) (if b then 1 else 0) d) as (d' & Hw & Hr1);
        [lia|destruct b; lia|].
      exists d'. unfold writeTag, readTag, readBoolTag. rewrite Ha, Et, Ev. simpl. split; [done|].
      rewrite law_ReadRegister by lia. simpl. rewrite Hr1. by destruct b.
    + destruct (law_WriteCoil c (ai_addr ai) b d) as (d' & Hw & Hr1); [lia|].
      exists d'. unfold writeTag, readTag, readBoolTag. rewrite Ha, Et, Ev. simpl. split; [done|].
      rewrite law_ReadCoil by lia. simpl. by rewrite Hr1.
  - destruct (single_roundtrip c ai TypeInt16 cmd name d (u16 z)) as (d' & Hw & Hr);
      try done; [lia|auto|by rewrite Ev|apply wrapu_range; lia|].
    exists d'. rewrite Hr. rewrite decide_True, wraps_wrapu, wraps_small by (done || lia). done.
  - destruct (double_roundtrip c ai TypeInt32 cmd name d (u32 z)) as (d' & Hw & Hr);
      try done; [auto|by rewrite Ev|apply wrapu_range; lia|].
    exists d'. rewrite Hr. rewrite decide_True, wraps_wrapu, wraps_small by (done || lia). done.
  - destruct (single_roundtrip c ai TypeUint16 cmd name d z) as (d' & Hw & Hr);
      try done; [lia|auto|by rewrite Ev|]. exists d'. by rewrite Hr.
  - destruct (double_roundtrip c ai TypeUint32 cmd name d z) as (d' & Hw & Hr);
      try done; [auto|by rewrite Ev|]. exists d'. by rewrite Hr.
  - destruct (law_WriteFloat32 c (ai_addr ai) f d) as (d' & Hw & Hr1 & Hr2); [lia..|done|].
    exists d'. unfold writeTag, readTag. rewrite Ha, Et, Ev. simpl. split; [done|].
    rewrite law_ReadFloat32 by lia. simpl. rewrite Hr1, Hr2.
    pose proof (Z.div_mod (f_bits F32 f) (2 ^ 16)).
    replace (f_bits F32 f / 2 ^ 16 * 2 ^ 16 + f_bits F32 f mod 2 ^ 16) with (f_bits F32 f) by lia.
    by rewrite (f_frombits_bits F32 F32_ok f Hv).
Qed.
End roundtrip.

Lemma modbus_write_read_witness :
  let ai := mkAddr areaHoldingRegister 100 in
  let cmd := mkWriteCommand "plc" "" "t" (VInt32 (-5)) TypeInt32 "api" "" false in
  exists d', writeTag (H0 := amd64_f2i) () ai cmd Sim.blank = (d', None) /\
    readTag (Some ()) ai TypeInt32 "t" d' = (d', Ok (VInt32 (-5))).
Proof.
  intros ai cmd.
  apply (modbus_write_read (H1 := amd64_f2i) () ai cmd "t" Sim.blank).
  - left. reflexivity.
  - vm_compute. discriminate.
  - vm_compute. discriminate.
  - split; [vm_compute; discriminate|reflexivity].
Defined.

(** ** Findings *)

(** Two tags at the top of the holding registers, a [uint64] at
    65530 and a [uint32] at 65534, both inside the address space: the end of
    the second range is computed in 16 bits and wraps to 0, the merged request
    stays at four registers, and decoding the second tag indexes past the
    response, so [Read] panics on a healthy device. *)
Theorem modbus_read_wrap_panics :
  (Read (sample_cfg [("hi", "uint64", "65530"); ("lo", "uint32", "65534")]%string)
     all_areas 0 ["hi"; "lo"]%string (Sim.connected Sim.blank)).2 = Panic /\
  mergeBatches areaHoldingRegister
    [mkReq "hi" TagConfig_zero (mkAddr areaHoldingRegister 65530) TypeUint64 4 true;
     mkReq "lo" TagConfig_zero (mkAddr areaHoldingRegister 65534) TypeUint32 2 true]
    modbusMaxBatchSize [0; 1]%nat
  = [mkBatch areaHoldingRegister 65530 4 [0; 1]%nat].
Proof. split; vm_compute; reflexivity. Qed.

Section exceptions.
Context {D C : Type} `{ModbusLib D C} `{EqDecision C}.

(** An error that no library exception value equals. *)
Definition not_new (e : error) : Prop := match e with ErrNew _ => False | _ => True end.

Lemma lib_map_not_new {A B} pre (f : A -> res B) (r : D * res A) d e :
  (forall a e', f a = Err e' -> False) -> lib_map pre f r = (d, Err e) -> not_new e.
Proof. intros Hf. destruct r as [d' [a|e'|]]; simpl; intros [= <- ?]; naive_solver. Qed.

Lemma res_bind_no_err {A B} (r : res A) (k : A -> res B) :
  (forall e, r = Err e -> False) -> (forall a e, k a = Err e -> False) ->
  forall e, res_bind r k = Err e -> False.
Proof. destruct r; naive_solver. Qed.

Lemma go_index_no_err {A} (l : list A) i e : go_index l i = Err e -> False.
Proof. unfold go_index. case_decide; [done|]. by destruct (_ !! _). Qed.

Lemma readTag_not_new (client : option C) ai dt name (d : D) d' e :
  readTag client ai dt name d = (d', Err e) -> not_new e.
Proof.
  assert (forall a (e' : error) (v : Value), (fun _ : Z => Ok v) a = Err e' -> False) as Hok by done.
  destruct client as [c|]; simpl; [|by intros [= <- <-]].
  destruct (isBitArea _ && _); [by intros [= <- <-]|].
  destruct dt; try (by intros [= <- <-]);
    unfold readSingleRegister, readDoubleRegister, readQuadRegister, readBoolTag, readFloat64Tag;
    try destruct (ai_area ai); apply lib_map_not_new; try done.
  all: intros regs; repeat (apply res_bind_no_err; [apply go_index_no_err|intros ?]); done.
Qed.

Hypothesis lib_new : forall x, exists s, lib_error x = ErrNew s.
Hypothesis wait_exc : forall m, m_exc (env_wait m).1 = m_exc m.

Lemma recordException_not_new e (m : mstate D C) : not_new e -> recordException e m = m.
Proof.
  intros He. unfold recordException. destruct (List.find _ _) as [x|] eqn:E; [|done].
  apply List.find_some in E as [_ Hx%bool_decide_eq_true].
  destruct (lib_new x) as [s Hs]. rewrite Hx, Hs in He. done.
Qed.

Lemma handleConnLost_exc (cl : option C) (m : mstate D C) : m_exc (handleConnLostIfCurrent cl m) = m_exc m.
Proof. unfold handleConnLostIfCurrent. by case_decide. Qed.

Lemma readTagWithRetry_exc n cl ai dt name (m : mstate D C) m' cl' ab r :
  readTagWithRetry n cl ai dt name m = (m', cl', ab, r) ->
  m_exc m' = m_exc m /\ (forall e, ab = false -> r = Err e -> not_new e).
Proof.
  revert cl m. induction n as [|n IH]; intros cl m; cbn [readTagWithRetry].
  { intros [= <- <- <- <-]. done. }
  destruct (readTag _ _ _ _ _) as [d [v|e|]] eqn:Er; try by intros [= <- <- <- <-].
  apply readTag_not_new in Er. destruct (_ && _); [|intros [= <- <- <- <-]; naive_solver].
  pose proof (wait_exc (with_dev d m)) as Hw.
  destruct (env_wait (with_dev d m)) as [m1 [ce|]]; simpl in Hw.
  { intros [= <- <- <- <-]. by rewrite handleConnLost_exc, Hw. }
  destruct (bd_conn (m_drv m1)); [|intros [= <- <- <- <-]; naive_solver].
  intros Hr. destruct (IH _ _ Hr) as [-> ?]. by rewrite Hw.
Qed.

Lemma readBatchWithRetry_exc n cl b reqs (m : mstate D C) :
  m_exc (readBatchWithRetry n cl b reqs m).1.1 = m_exc m.
Proof.
  revert cl m. induction n as [|n IH]; intros cl m; cbn [readBatchWithRetry]; [done|].
  destruct (readBatchOnce _ _ _ _) as [d [v|e|]]; try done.
  destruct (_ && _); [|done]. pose proof (wait_exc (with_dev d m)) as Hw.
  destruct (env_wait (with_dev d m)) as [m1 [ce|]]; simpl in *; [done|].
  destruct (bd_conn (m_drv m1)); [|done]. by rewrite IH.
Qed.

Lemma run_batches_exc n bs reqs cl V (m : mstate D C) : m_exc (run_batches n bs reqs cl V m).1.1 = m_exc m.
Proof.
  revert cl V m. induction bs as [|b bs IH]; intros cl V m; [done|]. cbn [run_batches].
  pose proof (readBatchWithRetry_exc n cl b reqs m) as Hb.
  destruct (readBatchWithRetry _ _ _ _ _) as [[m1 [c1|]] [v|e|]]; simpl in *;
    rewrite ?IH; done.
Qed.

Lemma run_areas_exc n order reqs valid cl V (m : mstate D C) :
  m_exc (run_areas n order reqs valid cl V m).1.1 = m_exc m.
Proof.
  revert cl V m. induction order as [|a order IH]; intros cl V m; [done|]. cbn [run_areas].
  pose proof (run_batches_exc n (mergeBatches a reqs modbusMaxBatchSize
    (sort_indices reqs (group_indices reqs valid a))) reqs cl V m) as Hb.
  destruct (run_batches _ _ _ _ _ _) as [[m1 c1] [v|r]]; simpl in *; rewrite ?IH; done.
Qed.

Lemma assemble_exc n now tags i reqs valid V cl results (m : mstate D C) :
  m_exc (assemble n now tags i reqs valid V cl results m).1 = m_exc m.
Proof.
  revert i cl results m. induction tags as [|t tags IH]; intros i cl results m; [done|].
  cbn [assemble]. destruct (negb _); [by rewrite IH|]. destruct (V !! i); [by rewrite IH|].
  destruct (readTagWithRetry _ _ _ _ _ _) as [[[m1 c1] ab] r] eqn:Er.
  apply readTagWithRetry_exc in Er as [Hm Hn].
  destruct ab, r as [v|e|]; try by rewrite ?IH.
  rewrite IH. specialize (Hn e eq_refl eq_refl).
  rewrite recordException_not_new by done.
  destruct (IsConnectionError _); rewrite ?handleConnLost_exc; done.
Qed.

(** Whatever the device answers, [Read] never adds to
    [modbus_exception_total]: every library error reaches [recordException]
    wrapped in a message, and the comparison there is with the bare exception
    values, so an exception response to a read is never counted. *)
Theorem modbus_read_counts_no_exception cfg order now tags (m : mstate D C) :
  m_exc (Read cfg order now tags m).1 = m_exc m.
Proof.
  unfold Read. destruct (_ || _); [done|]. unfold performBatchReads.
  pose proof (run_areas_exc (attempts cfg) order (map (resolve cfg) tags).*1
    (map (resolve cfg) tags).*2 (bd_conn (m_drv m)) ∅ m) as Ha.
  destruct (run_areas _ _ _ _ _ _ _) as [[m1 c1] [V|e|]]; simpl in *; [|done|done].
  pose proof (assemble_exc (attempts cfg) now tags 0 (map (resolve cfg) tags).*1
    (map (resolve cfg) tags).*2 V c1 [] m1) as Hb.
  destruct (assemble _ _ _ _ _ _ _ _ _ _) as [m2 [rs|e|]]; simpl in *; congruence.
Qed.
End exceptions.

(** A device that answers every request with an illegal-address exception. *)
Definition failing_lib : ModbusLib unit unit :=
  let e {A} : res A := Err (ErrNew (exceptionCode ErrIllegalDataAddress)) in
  {| lib_ReadCoils _ _ _ d := (d, e);
     lib_ReadDiscreteInputs _ _ _ d := (d, e);
     lib_ReadRegisters _ _ _ _ d := (d, e);
     lib_ReadCoil _ _ d := (d, e);
     lib_ReadDiscreteInput _ _ d := (d, e);
     lib_ReadRegister _ _ _ d := (d, e);
     lib_ReadFloat32 _ _ _ d := (d, e);
     lib_WriteCoil _ _ _ d := (d, None);
     lib_WriteRegister _ _ _ d := (d, None);
     lib_WriteRegisters _ _ _ d := (d, None);
     lib_WriteFloat32 _ _ _ d := (d, None);
     lib_error x := ErrNew (exceptionCode x);
     env_wait m := (m, None) |}.

Lemma modbus_read_counts_no_exception_witness :
  let m := mkM () (Start (inl ()) bd_zero) [] in
  let r := Read (H := failing_lib) small_cfg all_areas 0 ["level"]%string m in
  m_exc r.1 = [] /\
  r.2 = Ok [badValue "level" 0
              (ErrWrap "read uint32: " (lib_error (ModbusLib := failing_lib) ErrIllegalDataAddress) "")].
Proof.
  intros m r. split; [|vm_compute; reflexivity].
  apply (modbus_read_counts_no_exception (H := failing_lib)).
  - intros x. eexists. reflexivity.
  - reflexivity.
Defined.
