(* ===== verification/RuleEngine.v ===== *)
(** * The rule engine ([rule/engine.go], [rule/rule_match.go],
    [rule/wrapper.go], [rule/rule_build.go], [rule/provider.go])

    Rules are stored once, in priority order, in [e_rules]; the driver index
    and the list of universal rules hold positions of that list, as the source
    holds pointers to the shared wrappers.  Sub-engines live in a heap, since a
    rule keeps the pointer it was built with.  The expression language is a
    parameter ([ExprLib]): compiled programs and their evaluation, which may
    fail. *)

From Stdlib Require Import ZArith Lia String Ascii.
From stdpp Require Import base list gmap strings sorting.
From S2P Require Import Prelude GoFloat Types.

Open Scope Z_scope.

(** ** Configuration ([core/rule.go]) *)

Record TransformConfig := mkTransform { tr_Expression : string; tr_TagRename : string }.

Record RuleConfig := mkRuleConfig {
  rc_Name : string;
  rc_Match : string;
  rc_Action : string;
  rc_Target : string;
  rc_Targets : list string;
  rc_Priority : Z;
  rc_Transform : option TransformConfig;
  rc_Continue : bool;
}.

(** ** String helpers *)

(** [strings.EqualFold]. *)
Definition EqualFold (a b : string) : bool := bool_decide (to_lower a = to_lower b).

(** [s[n:]]. *)
Fixpoint str_drop (n : nat) (s : string) : string :=
  match n, s with
  | S n', String _ s' => str_drop n' s'
  | _, _ => s
  end.

Definition dquote : ascii := ascii_of_N 34.
Definition squote : ascii := ascii_of_N 39.

(** The verb [%q], for text without quotes or escapes. *)
Definition quoted (s : string) : string := String dquote (s +:+ String dquote EmptyString).

(** ** The driver filter

    [driverFilterRe]: blanks, the word [driver] in any case, [==], a name in
    single or double quotes, blanks, and then [&&] or the end of the text. *)
Definition is_quote (c : ascii) : bool := bool_decide (c = dquote \/ c = squote).

(** The class [\s] of the regular expression. *)
Definition is_re_space (c : ascii) : bool :=
  let n := N_of_ascii c in bool_decide (n = 32 \/ n = 9 \/ n = 10 \/ n = 12 \/ n = 13)%N.

Fixpoint skip_re_space (s : string) : string :=
  match s with
  | String c s' => if is_re_space c then skip_re_space s' else s
  | EmptyString => s
  end.

(** The characters up to the next quote, and what follows it. *)
Fixpoint take_name (s : string) : option (string * string) :=
  match s with
  | EmptyString => None
  | String c s' =>
      if is_quote c then Some (EmptyString, s')
      else match take_name s' with
           | Some (n, r) => Some (String c n, r)
           | None => None
           end
  end.

Definition driverFilterMatch (s : string) : option string :=
  let s := skip_re_space s in
  if has_prefix (to_lower s) "driver" then
    let s := skip_re_space (str_drop 6 s) in
    if has_prefix s "==" then
      match skip_re_space (str_drop 2 s) with
      | String q s' =>
          if is_quote q then
            match take_name s' with
            | Some (EmptyString, _) => None
            | Some (n, r) =>
                let r := skip_re_space r in
                if has_prefix r "&&" || bool_decide (r = EmptyString) then Some n else None
            | None => None
            end
          else None
      | EmptyString => None
      end
    else None
  else None.

Definition extractDriverFilter (matchExpr : string) : string :=
  if EqualFold matchExpr "ALL" then EmptyString
  else match driverFilterMatch matchExpr with Some n => n | None => EmptyString end.

(** ** Rules *)

(** The expression language: [compileExpr] of [rule/expr.go] and the running
    of a program on a point, which gives a boolean or an evaluation error. *)
Class ExprLib (prog : Type) := {
  compileExpr : string -> res prog;
  runExpr : prog -> DataPoint -> option bool;
}.

(** What a rule delegates its match to: an expression ([None] for the literal
    ALL), a provider, or a sub-engine in the heap. *)
Inductive RuleKind (prog : Type) :=
| KSimple (expr : option prog)
| KRuleSet (provider : string)
| KSubRule (engine : nat).
Arguments KSimple {prog} _.
Arguments KRuleSet {prog} _.
Arguments KSubRule {prog} _.

Record Rule (prog : Type) := mkRule {
  r_name : string;
  r_match : string;
  r_kind : RuleKind prog;
  r_action : Action;
  r_target : string;
  r_targets : list string;
  r_priority : Z;
  r_transform : option TransformConfig;
  r_driverFilter : string;
  r_continue : bool;
}.
Arguments mkRule {prog} _ _ _ _ _ _ _ _ _ _.
Arguments r_name {prog} _.
Arguments r_match {prog} _.
Arguments r_kind {prog} _.
Arguments r_action {prog} _.
Arguments r_target {prog} _.
Arguments r_targets {prog} _.
Arguments r_priority {prog} _.
Arguments r_transform {prog} _.
Arguments r_driverFilter {prog} _.
Arguments r_continue {prog} _.

(** [ruleWrapper] with the evaluation-error counter of the rule's node. *)
Record ruleWrapper (prog : Type) := mkWrapper {
  w_rule : Rule prog;
  w_seq : nat;
  w_disabled : bool;
  w_hitCount : Z;
  w_hitAt : Z;
  w_missCount : Z;
  w_missAt : Z;
  w_evalErrors : Z;
  w_evalAt : Z;
}.
Arguments mkWrapper {prog} _ _ _ _ _ _ _ _ _.
Arguments w_rule {prog} _.
Arguments w_seq {prog} _.
Arguments w_disabled {prog} _.
Arguments w_hitCount {prog} _.
Arguments w_hitAt {prog} _.
Arguments w_missCount {prog} _.
Arguments w_missAt {prog} _.
Arguments w_evalErrors {prog} _.
Arguments w_evalAt {prog} _.

Definition newRuleWrapper {prog} (r : Rule prog) (seq : nat) : ruleWrapper prog :=
  mkWrapper r seq false 0 0 0 0 0 0.

(** [Engine] without its providers: the rules and the positions of the rules
    scoped to each driver and of the others. *)
Record Engine (prog : Type) := mkEngine {
  e_rules : list (ruleWrapper prog);
  e_driverIndex : gmap string (list nat);
  e_universalRules : list nat;
}.
Arguments mkEngine {prog} _ _ _.
Arguments e_rules {prog} _.
Arguments e_driverIndex {prog} _.
Arguments e_universalRules {prog} _.

Record MatchResult := mkMatchResult {
  mr_rule : nat;  (* position of the matched rule *)
  mr_targets : list string;
  mr_transform : option TransformConfig;
}.

(** ** Matching

    [kmatch] is the match of the wrapped rule: it may change a state [T] (the
    statistics of sub-engines) and reports whether it matched and whether the
    evaluation failed.  [now] gives the time read when the rule at a position
    is recorded. *)
Section matching.
Context {prog T : Type}.
Context (kmatch : Rule prog -> DataPoint -> T -> T * bool * bool).
Context (now : nat -> Z).

Definition record_hit (t : Z) (w : ruleWrapper prog) : ruleWrapper prog :=
  mkWrapper (w_rule w) (w_seq w) (w_disabled w) (u64 (w_hitCount w + 1)) t
    (w_missCount w) (w_missAt w) (w_evalErrors w) (w_evalAt w).

Definition record_miss (t : Z) (w : ruleWrapper prog) : ruleWrapper prog :=
  mkWrapper (w_rule w) (w_seq w) (w_disabled w) (w_hitCount w) (w_hitAt w)
    (u64 (w_missCount w + 1)) t (w_evalErrors w) (w_evalAt w).

Definition record_eval_error (t : Z) (w : ruleWrapper prog) : ruleWrapper prog :=
  mkWrapper (w_rule w) (w_seq w) (w_disabled w) (w_hitCount w) (w_hitAt w)
    (w_missCount w) (w_missAt w) (u64 (w_evalErrors w + 1)) t.

(** [ruleWrapper.Match]. *)
Definition wrapper_Match (t : Z) (p : DataPoint) (w : ruleWrapper prog) (s : T)
    : ruleWrapper prog * T * bool :=
  if w_disabled w then (w, s, false)
  else
    let '(s, ok, failed) := kmatch (w_rule w) p s in
    let w := if failed then record_eval_error t w else w in
    if ok then (record_hit t w, s, true) else (record_miss t w, s, false).

(** [ruleWrapper.RecordMiss]. *)
Definition RecordMiss (t : Z) (w : ruleWrapper prog) : ruleWrapper prog :=
  if w_disabled w then w else record_miss t w.

(** The state threaded through a match: the shared wrappers and [T]. *)
Definition mstate : Type := list (ruleWrapper prog) * T.

(** [tryMatch] of the rule at a position, with whether it stops the scan. *)
Definition tryMatch (p : DataPoint) (i : nat) (st : mstate)
    : mstate * option (MatchResult * bool) :=
  match st.1 !! i with
  | None => (st, None)
  | Some w =>
      let '(w', s', ok) := wrapper_Match (now i) p w st.2 in
      let st' := (<[i := w']> st.1, s') in
      if ok then
        let r := w_rule w in
        let targets :=
          match r_targets r with
          | [] => if decide (r_target r = EmptyString) then [] else [r_target r]
          | ts => ts
          end in
        (st', Some (mkMatchResult i targets (r_transform r), negb (r_continue r)))
      else (st', None)
  end.

(** [matchInRules]: the results, in order, up to the first terminal one. *)
Fixpoint matchInRules (p : DataPoint) (rules : list nat) (st : mstate)
    : mstate * list MatchResult :=
  match rules with
  | [] => (st, [])
  | i :: rest =>
      match tryMatch p i st with
      | (st, Some (r, true)) => (st, [r])
      | (st, Some (r, false)) =>
          let '(st, rs) := matchInRules p rest st in (st, r :: rs)
      | (st, None) => matchInRules p rest st
      end
  end.

Definition prio (ws : list (ruleWrapper prog)) (i : nat) : Z :=
  match ws !! i with Some w => r_priority (w_rule w) | None => 0 end.

Definition ruleSeq (ws : list (ruleWrapper prog)) (i : nat) : nat :=
  match ws !! i with Some w => w_seq w | None => 0 end.

(** [matchMerged]: which list the next rule comes from. *)
Definition takeA (ws : list (ruleWrapper prog)) (i j : nat) : bool :=
  bool_decide (prio ws i < prio ws j)
  || (bool_decide (prio ws i = prio ws j) && bool_decide (ruleSeq ws i <= ruleSeq ws j)%nat).

Fixpoint matchMerged (fuel : nat) (p : DataPoint) (listA listB : list nat) (st : mstate)
    : mstate * list MatchResult :=
  match fuel with
  | O => (st, [])
  | S fuel =>
      match listA, listB with
      | [], _ => matchInRules p listB st
      | _, [] => matchInRules p listA st
      | i :: listA', j :: listB' =>
          let '(k, la, lb) :=
            if takeA st.1 i j then (i, listA', listB) else (j, listA, listB') in
          match tryMatch p k st with
          | (st, Some (r, true)) => (st, [r])
          | (st, Some (r, false)) =>
              let '(st, rs) := matchMerged fuel p la lb st in (st, r :: rs)
          | (st, None) => matchMerged fuel p la lb st
          end
      end
  end.

(** Whether the miss of a rule of another driver is recorded. *)
Definition reached (ws : list (ruleWrapper prog)) (terminal : option nat) (i : nat) : bool :=
  match terminal with
  | None => true
  | Some t =>
      if decide (prio ws i > prio ws t) then false
      else if decide (prio ws i = prio ws t /\ (ruleSeq ws t <= ruleSeq ws i)%nat) then false
      else true
  end.

Definition miss_at (ws : list (ruleWrapper prog)) (i : nat) : list (ruleWrapper prog) :=
  alter (RecordMiss (now i)) i ws.

(** The last result, when its rule is terminal. *)
Definition terminal_of (ws : list (ruleWrapper prog)) (rs : list MatchResult) : option nat :=
  match last rs with
  | Some r =>
      match ws !! mr_rule r with
      | Some w => if r_continue (w_rule w) then None else Some (mr_rule r)
      | None => None
      end
  | None => None
  end.

(** [Engine.Match]; [order] is the iteration order of the driver index. *)
Definition Match (order : list string) (e : Engine prog) (p : DataPoint) (s : T)
    : Engine prog * T * list MatchResult :=
  let driverRules := default [] (e_driverIndex e !! dp_Driver p) in
  if decide (size (e_driverIndex e) = 0%nat) then
    let '(ws, s, rs) := matchInRules p (seq 0 (length (e_rules e))) (e_rules e, s) in
    (mkEngine ws (e_driverIndex e) (e_universalRules e), s, rs)
  else
    let '(ws, s, rs) :=
      matchMerged (S (length (e_universalRules e) + length driverRules)) p
        (e_universalRules e) driverRules (e_rules e, s) in
    let t := terminal_of ws rs in
    let others :=
      flat_map (fun d => if decide (d = dp_Driver p) then []
                         else filter (fun i => reached ws t i = true)
                                (default [] (e_driverIndex e !! d))) order in
    (mkEngine (foldl miss_at ws others) (e_driverIndex e) (e_universalRules e), s, rs).
End matching.

(** ** Building rules *)

Definition parseAction (s : string) : res Action :=
  let l := to_lower s in
  if decide (l = "forward"%string) then Ok ActionForward
  else if decide (l = "drop"%string) then Ok ActionDrop
  else if decide (l = "alert"%string) then Ok ActionAlert
  else if decide (l = "transform"%string) then Ok ActionTransform
  else if decide (l = "mirror"%string) then Ok ActionMirror
  else Err (ErrFmt ("unknown action: " +:+ s)).

Definition actionToString (a : Action) : string :=
  match a with
  | ActionForward => "forward" | ActionDrop => "drop" | ActionAlert => "alert"
  | ActionTransform => "transform" | ActionMirror => "mirror"
  end.

Definition cfg_targets (cfg : RuleConfig) : list string :=
  match rc_Targets cfg with
  | [] => if decide (rc_Target cfg = EmptyString) then [] else [rc_Target cfg]
  | ts => ts
  end.

Section build.
Context {prog : Type} `{ExprLib prog}.

(** A provider's compiled matchers; [None] is the node that matches all. *)
Definition provider : Type := list (option prog).

Definition newSimpleRule (cfg : RuleConfig) : res (Rule prog) :=
  let! action := parseAction (rc_Action cfg) in
  let mk expr :=
    mkRule (rc_Name cfg) (rc_Match cfg) (KSimple expr) action (rc_Target cfg)
      (cfg_targets cfg) (rc_Priority cfg) (rc_Transform cfg)
      (extractDriverFilter (rc_Match cfg)) (rc_Continue cfg) in
  if EqualFold (rc_Match cfg) "ALL" then Ok (mk None)
  else
    match compileExpr (rc_Match cfg) with
    | Ok node => Ok (mk (Some node))
    | Err e => Err (ErrWrap ("invalid match expression " +:+ quoted (rc_Match cfg) +:+ ": ") e "")
    | Panic => Panic
    end.

(** [newRuleSetRule] and [newSubRuleRef]: no transform and no driver filter. *)
Definition newRefRule (cfg : RuleConfig) (kind : RuleKind prog) : res (Rule prog) :=
  let! action := parseAction (rc_Action cfg) in
  Ok (mkRule (rc_Name cfg) (rc_Match cfg) kind action (rc_Target cfg)
        (cfg_targets cfg) (rc_Priority cfg) None EmptyString (rc_Continue cfg)).

Definition newRule (cfg : RuleConfig) (providers : gmap string provider)
    (subEngines : gmap string nat) : res (Rule prog) :=
  let m := TrimSpace (rc_Match cfg) in
  let upper := to_upper m in
  if has_prefix upper "RULE-SET:" then
    let name := str_drop 9 m in
    match providers !! name with
    | None => Err (ErrFmt ("rule provider " +:+ quoted name +:+ " not found"))
    | Some _ => newRefRule cfg (KRuleSet name)
    end
  else if has_prefix upper "SUB-RULE:" then
    let name := str_drop 9 m in
    match subEngines !! name with
    | None => Err (ErrFmt ("sub-rule group " +:+ quoted name +:+ " not found"))
    | Some id => newRefRule cfg (KSubRule id)
    end
  else newSimpleRule cfg.

Fixpoint newRules (cfgs : list RuleConfig) (providers : gmap string provider)
    (subEngines : gmap string nat) : res (list (Rule prog)) :=
  match cfgs with
  | [] => Ok []
  | cfg :: rest =>
      match newRule cfg providers subEngines with
      | Ok r => let! rs := newRules rest providers subEngines in Ok (r :: rs)
      | Err e => Err (ErrWrap ("failed to create rule " +:+ rc_Name cfg +:+ ": ") e "")
      | Panic => Panic
      end
  end.

Definition sort_rules (rules : list (Rule prog)) : list (Rule prog) :=
  stable_sort (fun a b => bool_decide (r_priority a < r_priority b)) rules.

Definition wrap_rules (rules : list (Rule prog)) : list (ruleWrapper prog) :=
  imap (fun i r => newRuleWrapper r i) rules.

(** The index loop of [SetRules] over the wrapped rules from position [i]. *)
Fixpoint build_index (i : nat) (ws : list (ruleWrapper prog))
    (driverIndex : gmap string (list nat)) (universal : list nat)
    : gmap string (list nat) * list nat :=
  match ws with
  | [] => (driverIndex, universal)
  | w :: rest =>
      let df := r_driverFilter (w_rule w) in
      if decide (df = EmptyString) then build_index (S i) rest driverIndex (universal ++ [i])
      else build_index (S i) rest
             (<[df := default [] (driverIndex !! df) ++ [i]]> driverIndex) universal
  end.

Definition engine_of (rules : list (Rule prog)) : Engine prog :=
  let ws := wrap_rules (sort_rules rules) in
  let '(di, un) := build_index 0 ws ∅ [] in mkEngine ws di un.

(** [Engine.SetRules]: the new engine, or an error and no change. *)
Definition SetRules (cfgs : list RuleConfig) (providers : gmap string provider)
    (subEngines : gmap string nat) : res (Engine prog) :=
  let! rules := newRules cfgs providers subEngines in Ok (engine_of rules).

(** ** Sub-rule groups *)

Definition extractSubRuleRef (m : string) : string :=
  let m := TrimSpace m in
  if has_prefix (to_upper m) "SUB-RULE:" then str_drop 9 m else EmptyString.

Section circular.
Context (groups : gmap string (list RuleConfig)).

(** The loop over a group's rules; [rec] checks a referenced group. *)
Fixpoint check_refs (rec : string -> option (option error)) (cfgs : list RuleConfig)
    : option (option error) :=
  match cfgs with
  | [] => Some None
  | rc :: rest =>
      let ref := extractSubRuleRef (rc_Match rc) in
      if decide (ref = EmptyString) then check_refs rec rest
      else match groups !! ref with
           | None =>
               Some (Some (ErrFmt ("sub-rule group " +:+ quoted ref
                 +:+ " referenced by " +:+ quoted (rc_Name rc) +:+ " not found")))
           | Some _ =>
               match rec ref with
               | Some None => check_refs rec rest
               | r => r
               end
           end
  end.

(** [checkCircular]; the outer option is the fuel. *)
Fixpoint checkCircular (fuel : nat) (name : string) (chain : list string)
    : option (option error) :=
  match fuel with
  | O => None
  | S fuel =>
      if decide (name ∈ chain) then
        Some (Some (ErrFmt ("circular sub-rule reference: [" +:+ String.concat " " chain
                            +:+ "] -> " +:+ name)))
      else
        check_refs (fun ref => checkCircular fuel ref (chain ++ [name]))
          (default [] (groups !! name))
  end.

Fixpoint detectCircularSubRules (order : list string) : option (option error) :=
  match order with
  | [] => Some None
  | name :: rest =>
      match checkCircular (S (S (size groups))) name [] with
      | Some None => detectCircularSubRules rest
      | r => r
      end
  end.
End circular.

(** The top engine with its providers, its current sub-engines and the heap of
    the sub-engines ever built. *)
Record RuleSystem := mkSystem {
  rs_top : Engine prog;
  rs_providers : gmap string provider;
  rs_subs : gmap string nat;
  rs_heap : gmap nat (Engine prog);
}.

(** Building the groups of [SetSubRules] in the map's iteration order: a fresh
    engine has no sub-engines of its own. *)
Fixpoint build_groups (order : list string) (groups : gmap string (list RuleConfig))
    (providers : gmap string provider) (built : list (string * Engine prog))
    : res (list (string * Engine prog)) :=
  match order with
  | [] => Ok built
  | name :: rest =>
      match SetRules (default [] (groups !! name)) providers ∅ with
      | Ok e => build_groups rest groups providers (built ++ [(name, e)])
      | Err e => Err (ErrWrap ("sub-rule group " +:+ name +:+ ": ") e "")
      | Panic => Panic
      end
  end.

Definition alloc_groups (built : list (string * Engine prog)) (heap : gmap nat (Engine prog))
    : gmap string nat * gmap nat (Engine prog) :=
  foldl (fun st ne =>
           let id := fresh (dom st.2) in
           (<[ne.1 := id]> st.1, <[id := ne.2]> st.2)) (∅, heap) built.

Definition SetSubRules (order order2 : list string) (groups : gmap string (list RuleConfig))
    (y : RuleSystem) : res RuleSystem :=
  let! built := build_groups order groups (rs_providers y) [] in
  match detectCircularSubRules groups order2 with
  | Some (Some e) => Err e
  | _ =>
      let '(subs, heap) := alloc_groups built (rs_heap y) in
      Ok (mkSystem (rs_top y) (rs_providers y) subs heap)
  end.

(** ** The match of the three rule kinds *)

Definition eval_node (n : option prog) (p : DataPoint) : bool * bool :=
  match n with
  | None => (true, false)
  | Some pr => match runExpr pr p with Some b => (b, false) | None => (false, true) end
  end.

(** [FileProvider.Match]. *)
Definition provider_Match (pv : provider) (p : DataPoint) : bool :=
  existsb (fun n => (eval_node n p).1) pv.

(** Inside a sub-engine, whose rules refer to no other sub-engine. *)
Definition kmatch_sub (providers : gmap string provider) (r : Rule prog) (p : DataPoint) (s : unit)
    : unit * bool * bool :=
  match r_kind r with
  | KSimple n => let '(ok, failed) := eval_node n p in (s, ok, failed)
  | KRuleSet name => (s, provider_Match (default [] (providers !! name)) p, false)
  | KSubRule _ => (s, false, false)
  end.

(** In the top engine: a sub-rule matches when its engine gives a result. *)
Definition kmatch_top (providers : gmap string provider) (now : nat -> nat -> Z)
    (order : nat -> list string) (r : Rule prog) (p : DataPoint) (heap : gmap nat (Engine prog))
    : gmap nat (Engine prog) * bool * bool :=
  match r_kind r with
  | KSubRule id =>
      match heap !! id with
      | Some e =>
          let '(e', _, rs) := Match (kmatch_sub providers) (now id) (order id) e p tt in
          (<[id := e']> heap, negb (bool_decide (rs = [])), false)
      | None => (heap, false, false)
      end
  | _ =>
      let '(_, ok, failed) := kmatch_sub providers r p tt in (heap, ok, failed)
  end.

(** ** Enabling and disabling, and the statistics *)

Definition set_disabled (v : bool) (w : ruleWrapper prog) : ruleWrapper prog :=
  mkWrapper (w_rule w) (w_seq w) v (w_hitCount w) (w_hitAt w) (w_missCount w) (w_missAt w)
    (w_evalErrors w) (w_evalAt w).

Definition SetRuleDisabled (index : Z) (v : bool) (e : Engine prog) : res (Engine prog) :=
  if decide (index < 0 \/ Z.of_nat (length (e_rules e)) <= index) then
    Err (ErrFmt ("rule index out of range: " +:+ itoa index))
  else Ok (mkEngine (alter (set_disabled v) (Z.to_nat index) (e_rules e))
             (e_driverIndex e) (e_universalRules e)).

Definition SetRuleDisabledByName (name : string) (v : bool) (e : Engine prog)
    : res (Engine prog) :=
  match list_find (fun w => r_name (w_rule w) = name) (e_rules e) with
  | Some (i, _) =>
      Ok (mkEngine (alter (set_disabled v) i (e_rules e)) (e_driverIndex e) (e_universalRules e))
  | None => Err (ErrFmt ("rule not found: " +:+ quoted name))
  end.

Definition RuleType (r : Rule prog) : string :=
  match r_kind r with KSimple _ => "simple" | KRuleSet _ => "rule-set" | KSubRule _ => "sub-rule" end.

(** [Payload]: a sub-rule reference prints its own name, not its group's. *)
Definition Payload (r : Rule prog) : string :=
  match r_kind r with
  | KSimple _ => r_match r
  | KRuleSet name => "RULE-SET:" +:+ name
  | KSubRule _ => "SUB-RULE:" +:+ r_name r
  end.

Record RuleStat := mkRuleStat {
  st_Index : nat;
  st_Name : string;
  st_Type : string;
  st_Match : string;
  st_Action : string;
  st_Target : string;
  st_Targets : list string;
  st_Priority : Z;
  st_Continue : bool;
  st_Disabled : bool;
  st_HitCount : Z;
  st_HitAt : Z;
  st_MissCount : Z;
  st_MissAt : Z;
  st_EvalErrors : Z;
  st_EvalAt : Z;
}.

Definition RuleStats (e : Engine prog) : list RuleStat :=
  imap (fun i w =>
    let r := w_rule w in
    mkRuleStat i (r_name r) (RuleType r) (Payload r) (actionToString (r_action r))
      (r_target r) (r_targets r) (r_priority r) (r_continue r) (w_disabled w)
      (w_hitCount w) (w_hitAt w) (w_missCount w) (w_missAt w)
      (w_evalErrors w) (w_evalAt w)) (e_rules e).
End build.

(** ** The indexed match is the linear scan *)

Section equivalence.
Context {prog T : Type}.
Context (kmatch : Rule prog -> DataPoint -> T -> T * bool * bool) (now : nat -> Z).
Implicit Types (ws : list (ruleWrapper prog)) (s : T) (p : DataPoint) (i j : nat).

(** The part of the wrappers a match never changes. *)
Definition stat ws : list (Rule prog * nat) := (fun w => (w_rule w, w_seq w)) <$> ws.

Definition df ws i : string :=
  match ws !! i with Some w => r_driverFilter (w_rule w) | None => EmptyString end.

Lemma stat_lookup ws ws' i :
  stat ws = stat ws' ->
  (fun w => (w_rule w, w_seq w)) <$> ws !! i = (fun w => (w_rule w, w_seq w)) <$> ws' !! i.
Proof. intros Hs. rewrite <- !list_lookup_fmap. unfold stat in Hs. by rewrite Hs. Qed.

Ltac stat_tac H i :=
  let E := fresh in pose proof (stat_lookup _ _ i H) as E;
  repeat match type of E with context [?l !! i] => destruct (l !! i) eqn:?; simpl in E end;
  simplify_eq; try congruence;
  try (match goal with Hw : w_rule _ = w_rule _ |- _ => rewrite Hw end; done).

Lemma stat_prio ws ws' i : stat ws = stat ws' -> prio ws i = prio ws' i.
Proof. intros Hs. unfold prio. stat_tac Hs i. Qed.
Lemma stat_seq ws ws' i : stat ws = stat ws' -> ruleSeq ws i = ruleSeq ws' i.
Proof. intros Hs. unfold ruleSeq. stat_tac Hs i. Qed.
Lemma stat_df ws ws' i : stat ws = stat ws' -> df ws i = df ws' i.
Proof. intros Hs. unfold df. stat_tac Hs i. Qed.
Lemma stat_length ws ws' : stat ws = stat ws' -> length ws = length ws'.
Proof. intros Hs. apply (f_equal length) in Hs. unfold stat in Hs. by rewrite !length_fmap in Hs. Qed.
Lemma stat_terminal ws ws' rs : stat ws = stat ws' -> terminal_of ws rs = terminal_of ws' rs.
Proof.
  intros Hs. unfold terminal_of. destruct (last rs) as [r|]; [|done].
  stat_tac Hs (mr_rule r).
Qed.

Lemma stat_insert ws i w w' :
  ws !! i = Some w -> w_rule w' = w_rule w -> w_seq w' = w_seq w -> stat (<[i := w']> ws) = stat ws.
Proof.
  intros Hi Hr Hq. unfold stat. rewrite list_fmap_insert, Hr, Hq. apply list_insert_id.
  by rewrite list_lookup_fmap, Hi.
Qed.

Lemma wrapper_Match_static t p w s w' s' ok :
  wrapper_Match kmatch t p w s = (w', s', ok) -> w_rule w' = w_rule w /\ w_seq w' = w_seq w.
Proof.
  unfold wrapper_Match. destruct (w_disabled w); [by intros [= <- <- <-]|].
  destruct (kmatch _ _ _) as [[s1 [|]] [|]]; by intros [= <- <- <-].
Qed.

Lemma fmap_alter_id {A B} (g : A -> B) (f : A -> A) i (l : list A) :
  (forall x, g (f x) = g x) -> g <$> alter f i l = g <$> l.
Proof.
  intros Hg. revert i. induction l as [|x l IH]; intros [|i]; simpl; try done.
  - by rewrite Hg.
  - f_equal. apply IH.
Qed.

Lemma miss_at_stat ws i : stat (miss_at now ws i) = stat ws.
Proof. apply fmap_alter_id. intros w. unfold RecordMiss. by destruct (w_disabled w). Qed.

Lemma foldl_miss_stat ws l : stat (foldl (miss_at now) ws l) = stat ws.
Proof. revert ws. induction l as [|i l IH]; intros ws; simpl; [done|]. by rewrite IH, miss_at_stat. Qed.

Lemma miss_at_comm ws i j : miss_at now (miss_at now ws i) j = miss_at now (miss_at now ws j) i.
Proof.
  unfold miss_at. destruct (decide (i = j)) as [->|Hn]; [done|]. by apply list_alter_alter_ne.
Qed.

Lemma foldl_miss_perm ws l l' :
  l ≡ₚ l' -> foldl (miss_at now) ws l = foldl (miss_at now) ws l'.
Proof.
  intros Hp. revert ws. induction Hp as [|i l l' _ IH|i j l|l1 l2 l3 _ IH1 _ IH2]; intros ws; simpl.
  - done.
  - apply IH.
  - by rewrite miss_at_comm.
  - by rewrite IH1.
Qed.

Lemma foldl_miss_at_head ws i l :
  foldl (miss_at now) (miss_at now ws i) l = miss_at now (foldl (miss_at now) ws l) i.
Proof.
  revert ws. induction l as [|j l IH]; intros ws; simpl; [done|]. by rewrite miss_at_comm, IH.
Qed.

Lemma tryMatch_stat p i ws s ws' s' o :
  tryMatch kmatch now p i (ws, s) = (ws', s', o) -> stat ws' = stat ws.
Proof.
  unfold tryMatch; simpl. destruct (ws !! i) as [w|] eqn:Ei; [|by intros [= <- <- <-]].
  destruct (wrapper_Match _ _ _ _ _) as [[w' s1] ok] eqn:Ew.
  apply wrapper_Match_static in Ew as [Hr Hq].
  destruct ok; intros [= <- <- <-]; by eapply stat_insert.
Qed.

Lemma matchInRules_stat p l ws s ws' s' rs :
  matchInRules kmatch now p l (ws, s) = (ws', s', rs) -> stat ws' = stat ws.
Proof.
  revert ws s rs. induction l as [|i l IH]; intros ws s rs; cbn [matchInRules]; [by intros [= <- <- <-]|].
  destruct (tryMatch _ _ _ _ _) as [[ws1 s1] [[r [|]]|]] eqn:Et; apply tryMatch_stat in Et.
  - by intros [= <- <- <-].
  - destruct (matchInRules _ _ _ _ _) as [[ws2 s2] rs2] eqn:Em. intros [= <- <- <-].
    rewrite (IH _ _ _ Em). done.
  - intros Em. by rewrite (IH _ _ _ Em).
Qed.

(** The results name rules of the list scanned. *)
Lemma matchInRules_elem p l st st' rs r :
  matchInRules kmatch now p l st = (st', rs) -> r ∈ rs -> mr_rule r ∈ l.
Proof.
  revert st rs. induction l as [|i l IH]; intros st rs; cbn [matchInRules].
  { intros [= <- <-] ?%elem_of_nil. done. }
  assert (forall st1 r1 b, tryMatch kmatch now p i st = (st1, Some (r1, b)) -> mr_rule r1 = i) as Hi.
  { intros st1 r1 b. unfold tryMatch. destruct (st.1 !! i); [|done].
    destruct (wrapper_Match _ _ _ _ _) as [[w' s1] [|]]; by intros [= <- <- <-]. }
  destruct (tryMatch _ _ _ _ _) as [st1 [[r1 [|]]|]] eqn:Et.
  - intros [= <- <-] ->%list_elem_of_singleton. rewrite (Hi _ _ _ eq_refl). constructor.
  - destruct (matchInRules _ _ _ _ _) as [st2 rs2] eqn:Em. intros [= <- <-] [->|Hr]%elem_of_cons.
    + rewrite (Hi _ _ _ eq_refl). constructor.
    + constructor. by eapply IH.
  - intros Em Hr. constructor. by eapply IH.
Qed.

Lemma terminal_elem p l st ws' s' rs t :
  matchInRules kmatch now p l st = (ws', s', rs) -> terminal_of ws' rs = Some t -> t ∈ l.
Proof.
  unfold terminal_of. intros Hm. destruct (last rs) as [r|] eqn:El; [|done].
  destruct (ws' !! mr_rule r); [|done]. destruct (r_continue _); [done|]. intros [= <-].
  eapply matchInRules_elem; [done|]. by apply last_Some_elem_of.
Qed.

(** Recording a miss elsewhere does not disturb a match. *)
Lemma tryMatch_miss_at p i j ws s :
  i <> j ->
  tryMatch kmatch now p i (miss_at now ws j, s) =
  let '(ws', s', o) := tryMatch kmatch now p i (ws, s) in (miss_at now ws' j, s', o).
Proof.
  intros Hn. unfold tryMatch; simpl. unfold miss_at. rewrite list_lookup_alter_ne by done.
  destruct (ws !! i) as [w|]; [|done].
  destruct (wrapper_Match _ _ _ _ _) as [[w' s1] ok].
  assert (<[i:=w']> (alter (RecordMiss (now j)) j ws) = alter (RecordMiss (now j)) j (<[i:=w']> ws)) as ->.
  { rewrite !list_insert_alter. by apply list_alter_alter_ne. }
  by destruct ok.
Qed.
Lemma matchInRules_miss_at p l j ws s :
  j ∉ l ->
  matchInRules kmatch now p l (miss_at now ws j, s) =
  let '(ws', s', rs) := matchInRules kmatch now p l (ws, s) in (miss_at now ws' j, s', rs).
Proof.
  revert ws s. induction l as [|i l IH]; intros ws s Hj; cbn [matchInRules]; [done|].
  apply not_elem_of_cons in Hj as [Hn Hj]. rewrite tryMatch_miss_at by done.
  destruct (tryMatch kmatch now p i (ws, s)) as [[ws1 s1] [[r [|]]|]]; [done| |].
  - rewrite IH by done. by destruct (matchInRules kmatch now p l (ws1, s1)) as [[ws2 s2] rs2].
  - by rewrite IH.
Qed.

(** The rules scoped to another driver than the point's. *)
Definition other ws p i : Prop := df ws i <> EmptyString /\ df ws i <> dp_Driver p.

#[local] Instance other_dec ws p i : Decision (other ws p i).
Proof. unfold other. apply _. Defined.

(** A rule with a driver filter matches no point of another driver, and
    evaluating it on one changes nothing and does not fail. *)
Definition filter_sound ws : Prop :=
  forall w p s, w ∈ ws -> r_driverFilter (w_rule w) <> EmptyString ->
  r_driverFilter (w_rule w) <> dp_Driver p -> kmatch (w_rule w) p s = (s, false, false).

Lemma filter_sound_stat ws ws' : stat ws = stat ws' -> filter_sound ws -> filter_sound ws'.
Proof.
  intros Hs Hf w p s [i Hi]%list_elem_of_lookup.
  pose proof (stat_lookup _ _ i Hs) as E. rewrite Hi in E.
  destruct (ws !! i) as [w0|] eqn:E0; [|done]. injection E as Er _. rewrite <- Er.
  intros. apply Hf; [|done..]. by eapply list_elem_of_lookup_2.
Qed.

Lemma other_stat ws ws' p j : stat ws = stat ws' -> other ws p j <-> other ws' p j.
Proof. intros Hs. unfold other. by rewrite (stat_df _ _ j Hs). Qed.

Lemma tryMatch_other p i ws s :
  filter_sound ws -> other ws p i ->
  tryMatch kmatch now p i (ws, s) = (miss_at now ws i, s, None).
Proof.
  intros Hf [H1 H2]. unfold tryMatch, df, miss_at in *; simpl.
  destruct (ws !! i) as [w|] eqn:Ei; [|done].
  unfold wrapper_Match, RecordMiss.
  destruct (w_disabled w) eqn:Ed.
  - rewrite list_insert_id by done. do 2 f_equal. symmetry. apply list_eq. intros j.
    rewrite list_lookup_alter. case_decide; [|done]. subst. rewrite Ei. simpl. by rewrite Ed.
  - rewrite Hf; [|by eapply list_elem_of_lookup_2|done..].
    do 2 f_equal. apply list_eq. intros j. rewrite list_lookup_alter.
    destruct (decide (i = j)) as [->|Hn].
    + rewrite list_lookup_insert_eq by (by eapply lookup_lt_Some). rewrite Ei. simpl. by rewrite Ed.
    + by rewrite list_lookup_insert_ne.
Qed.

(** Strictly before the terminal position, if there is one. *)
Definition before (t : option nat) i : Prop := match t with Some t => (i < t)%nat | None => True end.

#[local] Instance before_dec t i : Decision (before t i).
Proof. destruct t; simpl; apply _. Defined.

Lemma terminal_cons ws r rs :
  (rs = [] -> exists w, ws !! mr_rule r = Some w /\ r_continue (w_rule w) = true) ->
  terminal_of ws (r :: rs) = terminal_of ws rs.
Proof.
  intros Hr. destruct rs as [|r' rs]; [|done].
  destruct (Hr eq_refl) as (w & Hw & Hc). unfold terminal_of; simpl. by rewrite Hw, Hc.
Qed.

Lemma tryMatch_result p i ws s ws' s' r b :
  tryMatch kmatch now p i (ws, s) = (ws', s', Some (r, b)) ->
  exists w, ws' !! i = Some w /\ mr_rule r = i /\ r_continue (w_rule w) = negb b.
Proof.
  unfold tryMatch; simpl. destruct (ws !! i) as [w|] eqn:Ei; [|done].
  destruct (wrapper_Match _ _ _ _ _) as [[w' s1] ok] eqn:Ew.
  apply wrapper_Match_static in Ew as [Hr _].
  destruct ok; intros [= <- <- <- <-]. exists w'.
  rewrite list_lookup_insert_eq by (by eapply lookup_lt_Some). by rewrite Hr, negb_involutive.
Qed.

(** A linear scan is the scan of the relevant rules, with a miss recorded for
    every rule of another driver that the scan reaches. *)
Lemma scan_skip p l ws s :
  filter_sound ws -> StronglySorted lt l ->
  matchInRules kmatch now p l (ws, s) =
  let '(ws1, s1, rs) := matchInRules kmatch now p (filter (fun i => ~ other ws p i) l) (ws, s) in
  let t := terminal_of ws1 rs in
  (foldl (miss_at now) ws1 (filter (fun i => other ws p i /\ before t i) l), s1, rs).
Proof.
  intros Hf Hs. revert ws s Hf. induction Hs as [|i l Hs IH Hi]; intros ws s Hf; [done|].
  cbn [matchInRules]. destruct (decide (other ws p i)) as [Ho|Ho].
  - rewrite (filter_cons_False (fun i => ~ other ws p i)) by tauto.
    rewrite tryMatch_other by done.
    assert (stat (miss_at now ws i) = stat ws) as Hst by apply miss_at_stat.
    rewrite IH by (by eapply filter_sound_stat).
    assert (forall j, other (miss_at now ws i) p j <-> other ws p j) as Ho'.
    { intros j. unfold other. by rewrite (stat_df _ _ j Hst). }
    rewrite (list_filter_iff _ (fun j => ~ other ws p j)) by (intros; by rewrite Ho').
    rewrite matchInRules_miss_at.
    2:{ rewrite list_elem_of_filter. tauto. }
    destruct (matchInRules kmatch now p _ (ws, s)) as [[ws1 s1] rs] eqn:Em.
    cbn zeta. rewrite (stat_terminal _ ws1 rs) by apply miss_at_stat.
    rewrite filter_cons_True.
    + cbn [foldl]. do 2 f_equal.
      rewrite (list_filter_iff _ (fun j => other ws p j /\ before (terminal_of ws1 rs) j)); [done|].
      intros j. by rewrite Ho'.
    + split; [done|]. destruct (terminal_of ws1 rs) as [t|] eqn:Et; simpl; [|done].
      eapply terminal_elem in Em; [|done]. apply list_elem_of_filter in Em as [_ Hl].
      rewrite Forall_forall in Hi. by apply Hi.
  - rewrite (filter_cons_True (fun i => ~ other ws p i)) by done.
    assert (forall t, filter (fun i => other ws p i /\ before t i) (i :: l)
      = filter (fun i => other ws p i /\ before t i) l) as Hft.
    { intros t. apply filter_cons_False. tauto. }
    cbn [matchInRules].
    destruct (tryMatch kmatch now p i (ws, s)) as [[ws1 s1] [[r [|]]|]] eqn:Et.
    + cbn zeta. rewrite Hft.
      apply tryMatch_result in Et as (w & Hw & Hr & Hc).
      assert (terminal_of ws1 [r] = Some i) as ->
        by (unfold terminal_of; simpl; by rewrite Hr, Hw, Hc).
      rewrite filter_none; [done|]. eapply Forall_impl; [done|]. simpl. lia.
    + pose proof (tryMatch_stat _ _ _ _ _ _ _ Et) as Hst.
      apply tryMatch_result in Et as (w & Hw & Hr & Hc).
      rewrite IH by (by eapply filter_sound_stat).
      rewrite (list_filter_iff _ (fun j => ~ other ws p j)) by (intros; by rewrite (other_stat ws1 ws)).
      destruct (matchInRules kmatch now p _ (ws1, s1)) as [[ws2 s2] rs2] eqn:Em.
      cbn zeta. rewrite Hft. rewrite terminal_cons.
      * f_equal. f_equal. f_equal. apply list_filter_iff. intros j. by rewrite (other_stat ws1 ws).
      * intros _. apply matchInRules_stat in Em. pose proof (stat_lookup _ _ i Em) as E.
        rewrite Hw in E. rewrite Hr. destruct (ws2 !! i) as [w2|]; [|done].
        injection E as E _. exists w2. by rewrite E.
    + pose proof (tryMatch_stat _ _ _ _ _ _ _ Et) as Hst.
      rewrite IH by (by eapply filter_sound_stat).
      rewrite (list_filter_iff _ (fun j => ~ other ws p j)) by (intros; by rewrite (other_stat ws1 ws)).
      destruct (matchInRules kmatch now p _ (ws1, s1)) as [[ws2 s2] rs2] eqn:Em.
      cbn zeta. rewrite Hft. do 2 f_equal. f_equal.
      apply list_filter_iff. intros j. by rewrite (other_stat ws1 ws).
Qed.

(** Rules stored in priority order, each knowing its position. *)
Record seq_sorted ws : Prop := {
  ss_seq : forall i w, ws !! i = Some w -> w_seq w = i;
  ss_prio : forall i j, (i < j < length ws)%nat -> prio ws i <= prio ws j;
}.

Lemma seq_sorted_stat ws ws' : stat ws = stat ws' -> seq_sorted ws -> seq_sorted ws'.
Proof.
  intros Hs [H1 H2]. split.
  - intros i w Hi. pose proof (stat_lookup _ _ i Hs) as E. rewrite Hi in E.
    destruct (ws !! i) as [w0|] eqn:E0; [|done]. injection E as _ Eq. rewrite <- Eq. by apply H1.
  - intros i j Hij. rewrite <- !(stat_prio _ _ _ Hs). apply H2. by rewrite (stat_length _ _ Hs).
Qed.

Lemma ruleSeq_pos ws i : seq_sorted ws -> (i < length ws)%nat -> ruleSeq ws i = i.
Proof.
  intros [H1 _] Hi. unfold ruleSeq. destruct (lookup_lt_is_Some_2 ws i Hi) as [w Hw].
  rewrite Hw. by apply H1.
Qed.

Lemma takeA_lt ws i j :
  seq_sorted ws -> (i < length ws)%nat -> (j < length ws)%nat -> i <> j ->
  takeA ws i j = bool_decide (i <= j)%nat.
Proof.
  intros Hs Hi Hj Hn. pose proof (ss_prio _ Hs) as Hp. unfold takeA.
  rewrite !ruleSeq_pos by done. destruct (decide (i < j)%nat).
  - specialize (Hp i j ltac:(lia)). rewrite (bool_decide_eq_true_2 (i <= j)%nat) by lia.
    rewrite andb_true_r. destruct (decide (prio ws i < prio ws j)).
    + by rewrite bool_decide_eq_true_2.
    + rewrite (bool_decide_eq_true_2 (prio ws i = _)) by lia. apply orb_true_r.
  - specialize (Hp j i ltac:(lia)). rewrite (bool_decide_eq_false_2 (i <= j)%nat) by lia.
    rewrite bool_decide_eq_false_2 by lia. by rewrite andb_false_r.
Qed.

Lemma reached_before ws t i :
  seq_sorted ws -> (i < length ws)%nat ->
  (forall t', t = Some t' -> (t' < length ws)%nat /\ t' <> i) ->
  reached ws t i = true <-> before t i.
Proof.
  intros Hs Hi Ht. pose proof (ss_prio _ Hs) as Hp. unfold reached, before.
  destruct t as [t|]; [|done]. destruct (Ht t eq_refl) as [Htl Hti].
  rewrite !ruleSeq_pos by done. destruct (decide (i < t)%nat).
  - specialize (Hp i t ltac:(lia)). rewrite decide_False by lia. rewrite decide_False by lia. done.
  - specialize (Hp t i ltac:(lia)). case_decide; [lia|]. rewrite decide_True by lia. lia.
Qed.

Lemma matchMerged_merge fuel p A B ws s :
  (length A + length B < fuel)%nat -> seq_sorted ws ->
  Forall (fun i => i < length ws)%nat A -> Forall (fun i => i < length ws)%nat B ->
  (forall i, i ∈ A -> i ∉ B) ->
  matchMerged kmatch now fuel p A B (ws, s) =
  matchInRules kmatch now p (list_merge le A B) (ws, s).
Proof.
  revert A B ws s. induction fuel as [|fuel IH]; intros A B ws s Hl Hs HA HB Hd; [lia|].
  cbn [matchMerged]. destruct A as [|i A].
  { by rewrite list_merge_nil_l. }
  destruct B as [|j B]; [done|].
  rewrite list_merge_cons.
  inversion_clear HA as [|? ? Hi HA']. inversion_clear HB as [|? ? Hj HB'].
  assert (i <> j) as Hn by (intros ->; apply (Hd j); constructor).
  cbn [fst]. rewrite takeA_lt by done. simpl length in Hl.
  case_bool_decide as Hij; [rewrite decide_True by done|rewrite decide_False by done];
    cbn [matchInRules].
  - destruct (tryMatch kmatch now p i (ws, s)) as [[ws1 s1] [[r [|]]|]] eqn:Et; [done| |];
      apply tryMatch_stat in Et;
      (rewrite IH; [done|simpl; lia|by eapply seq_sorted_stat|..];
       rewrite ?(stat_length _ _ Et); try done; [by constructor|set_solver]).
  - destruct (tryMatch kmatch now p j (ws, s)) as [[ws1 s1] [[r [|]]|]] eqn:Et; [done| |];
      apply tryMatch_stat in Et;
      (rewrite IH; [done|simpl; lia|by eapply seq_sorted_stat|..];
       rewrite ?(stat_length _ _ Et); try done; [by constructor|set_solver]).
Qed.

(** The index of an engine: the universal rules and each driver's rules, in
    position order. *)
Record engine_wf (e : Engine prog) : Prop := {
  wf_sorted : seq_sorted (e_rules e);
  wf_universal : e_universalRules e
                 = filter (fun i => df (e_rules e) i = EmptyString) (seq 0 (length (e_rules e)));
  wf_index : forall d, d <> EmptyString ->
             default [] (e_driverIndex e !! d)
             = filter (fun i => df (e_rules e) i = d) (seq 0 (length (e_rules e)));
  wf_noempty : e_driverIndex e !! EmptyString = None;
}.

Lemma engine_wf_stat e ws :
  stat ws = stat (e_rules e) -> engine_wf e ->
  engine_wf (mkEngine ws (e_driverIndex e) (e_universalRules e)).
Proof.
  intros Hs [H1 H2 H3 H4]. split; simpl.
  - by eapply seq_sorted_stat.
  - rewrite H2, (stat_length _ _ Hs). apply list_filter_iff. intros. by rewrite (stat_df _ _ _ Hs).
  - intros d Hd. rewrite H3, (stat_length _ _ Hs) by done.
    apply list_filter_iff. intros. by rewrite (stat_df _ _ _ Hs).
  - done.
Qed.

(** The two merged lists are the positions of the relevant rules. *)
Lemma merge_relevant e p :
  engine_wf e ->
  list_merge le (e_universalRules e) (default [] (e_driverIndex e !! dp_Driver p))
  = filter (fun i => ~ other (e_rules e) p i) (seq 0 (length (e_rules e))).
Proof.
  intros [_ Hu Hx Hn]. set (ws := e_rules e) in *. set (l := seq 0 (length ws)) in *.
  assert (StronglySorted le l) as Hl
    by (eapply StronglySorted_impl; [|apply StronglySorted_seq]; lia).
  set (B := default [] (e_driverIndex e !! dp_Driver p)).
  assert (B = filter (fun i => dp_Driver p <> EmptyString /\ df ws i = dp_Driver p) l) as HB.
  { unfold B. destruct (decide (dp_Driver p = EmptyString)) as [E|E].
    - rewrite E, Hn. simpl. symmetry. apply filter_none. apply Forall_forall. tauto.
    - rewrite Hx by done. apply list_filter_iff. tauto. }
  rewrite HB, Hu. apply (Sorted_unique le).
  - apply Sorted_list_merge; [intros x y; lia|..];
      apply StronglySorted_Sorted, StronglySorted_filter, Hl.
  - apply StronglySorted_Sorted, StronglySorted_filter, Hl.
  - rewrite merge_Permutation. apply NoDup_Permutation.
    + apply NoDup_app. split_and!; [apply NoDup_filter, NoDup_seq| |apply NoDup_filter, NoDup_seq].
      intros i. rewrite !list_elem_of_filter. intros [E1 _] [[? E2] _]. congruence.
    + apply NoDup_filter, NoDup_seq.
    + intros i. rewrite elem_of_app, !list_elem_of_filter. unfold other.
      destruct (decide (df ws i = EmptyString)); destruct (decide (df ws i = dp_Driver p));
        intuition congruence.
Qed.

(** Lists of positions that a key tells apart. *)
Lemma flat_map_NoDup (f : string -> list nat) (key : nat -> string) order :
  NoDup order -> (forall d i, d ∈ order -> i ∈ f d -> key i = d) ->
  (forall d, NoDup (f d)) -> NoDup (flat_map f order).
Proof.
  intros Hnd. induction Hnd as [|d order Hd Hnd IH]; intros Hk Hf; simpl; [constructor|].
  apply NoDup_app. split_and!; [apply Hf| |apply IH; [intros; apply Hk; [by constructor|done]|done]].
  intros i Hi (d' & Hd' & Hi')%list_elem_of_In%in_flat_map.
  apply list_elem_of_In in Hd'. apply list_elem_of_In in Hi'.
  rewrite <- (Hk d i) in Hd by (done || constructor). rewrite <- (Hk d' i) in Hd'; [done| |done].
  by constructor.
Qed.

(** The misses recorded through the index, in any iteration order. *)
Lemma others_perm e p t order ws :
  engine_wf e -> stat ws = stat (e_rules e) ->
  order ≡ₚ elements (dom (e_driverIndex e)) ->
  (forall t', t = Some t' -> ~ other ws p t' /\ (t' < length ws)%nat) ->
  flat_map (fun d => if decide (d = dp_Driver p) then []
                     else filter (fun i => reached ws t i = true)
                            (default [] (e_driverIndex e !! d))) order
  ≡ₚ filter (fun i => other ws p i /\ before t i) (seq 0 (length ws)).
Proof.
  intros Hwf Hs Ho Ht.
  pose proof (engine_wf_stat e ws Hs Hwf) as [Hss _ Hx Hn]. simpl in *.
  assert (NoDup order) as Hnd by (rewrite Ho; apply NoDup_elements).
  assert (forall d i, d ∈ order -> i ∈ default [] (e_driverIndex e !! d) -> df ws i = d) as Hdf.
  { intros d i Hd. rewrite Ho in Hd. apply elem_of_elements, elem_of_dom in Hd as [l Hl].
    assert (d <> EmptyString) by (intros ->; by rewrite Hn in Hl).
    rewrite Hx, list_elem_of_filter by done. tauto. }
  apply NoDup_Permutation; [|apply NoDup_filter, NoDup_seq|].
  - apply (flat_map_NoDup _ (df ws)); [done|..].
    + intros d i Hd Hi. apply Hdf; [done|].
      destruct (decide (d = dp_Driver p)); [by apply elem_of_nil in Hi|].
      by apply list_elem_of_filter in Hi as [_ ?].
    + intros d. case_decide; [constructor|]. apply NoDup_filter.
      destruct (decide (d = EmptyString)) as [->|Hne]; [rewrite Hn; constructor|].
      rewrite Hx by done. apply NoDup_filter, NoDup_seq.
  - intros i. rewrite list_elem_of_In, in_flat_map, list_elem_of_filter, elem_of_seq.
    assert ((i < length ws)%nat -> other ws p i -> reached ws t i = true <-> before t i) as Hrb.
    { intros Hi Hoi. apply reached_before; [done..|]. intros t' Et.
      destruct (Ht t' Et). split; [done|]. intros ->. tauto. }
    split.
    + intros (d & Hd & Hi). apply list_elem_of_In in Hd. apply list_elem_of_In in Hi.
      destruct (decide (d = dp_Driver p)) as [Hdd|Hdd]; [by apply elem_of_nil in Hi|].
      apply list_elem_of_filter in Hi as [Hr Hi]. pose proof (Hdf d i Hd Hi) as Hdi.
      rewrite Ho in Hd. apply elem_of_elements, elem_of_dom in Hd as [l Hl].
      assert (d <> EmptyString) as Hde by (intros ->; by rewrite Hn in Hl).
      rewrite Hx, list_elem_of_filter, elem_of_seq in Hi by done.
      assert (other ws p i) by (unfold other; rewrite Hdi; done).
      split; [|lia]. split; [done|]. apply Hrb; [lia|done..].
    + intros [[Hoi Hb] Hi]. exists (df ws i). destruct Hoi as [H1 H2].
      assert (i ∈ default [] (e_driverIndex e !! df ws i)) as Hin.
      { rewrite Hx, list_elem_of_filter, elem_of_seq by done. split; [done|lia]. }
      split.
      * apply list_elem_of_In. rewrite Ho. apply elem_of_elements, elem_of_dom.
        destruct (e_driverIndex e !! df ws i); [done|]. by apply elem_of_nil in Hin.
      * apply list_elem_of_In. rewrite decide_False by done. apply list_elem_of_filter.
        split; [|done]. apply Hrb; [lia|by split|done].
Qed.

(** The rule that stops the scan is a relevant one. *)
Lemma terminal_relevant ws s p ws1 s1 rs t :
  matchInRules kmatch now p (filter (fun i => ~ other ws p i) (seq 0 (length ws))) (ws, s)
  = (ws1, s1, rs) ->
  terminal_of ws1 rs = Some t -> ~ other ws1 p t /\ (t < length ws1)%nat.
Proof.
  intros Em Ht. pose proof (matchInRules_stat _ _ _ _ _ _ _ Em) as Hst.
  rewrite (other_stat _ _ p t Hst), (stat_length _ _ Hst).
  eapply terminal_elem in Ht; [|done].
  apply list_elem_of_filter in Ht as [? [_ ?]%elem_of_seq]. split; [done|lia].
Qed.

Lemma Match_linear order e p s :
  engine_wf e -> filter_sound (e_rules e) -> order ≡ₚ elements (dom (e_driverIndex e)) ->
  Match kmatch now order e p s =
  let '(ws, s', rs) := matchInRules kmatch now p (seq 0 (length (e_rules e))) (e_rules e, s) in
  (mkEngine ws (e_driverIndex e) (e_universalRules e), s', rs).
Proof.
  intros Hwf Hf Ho. unfold Match. case_decide as Hsz; [done|].
  pose proof Hwf as [Hss Hu Hx Hn]. set (ws := e_rules e) in *.
  assert (forall P `{forall i, Decision (P i)},
    Forall (fun i => i < length ws)%nat (filter P (seq 0 (length ws)))) as Hlt.
  { intros P HP. apply Forall_forall. intros i [_ [_ Hi]%elem_of_seq]%list_elem_of_filter. lia. }
  rewrite matchMerged_merge; [|lia|done|by rewrite Hu| |].
  2:{ destruct (decide (dp_Driver p = EmptyString)) as [E|E];
        [rewrite E, Hn; constructor|by rewrite Hx]. }
  2:{ rewrite Hu. intros i [E _]%list_elem_of_filter.
      destruct (decide (dp_Driver p = EmptyString)) as [E'|E'];
        [rewrite E', Hn; apply not_elem_of_nil|].
      rewrite Hx, list_elem_of_filter by done. intros [? _]. congruence. }
  rewrite merge_relevant by done. fold ws.
  rewrite (scan_skip p (seq 0 (length ws)) ws s Hf (StronglySorted_seq _ _)).
  destruct (matchInRules kmatch now p (filter _ _) (ws, s)) as [[ws1 s1] rs] eqn:Em.
  cbn zeta. f_equal. f_equal. f_equal. pose proof (matchInRules_stat _ _ _ _ _ _ _ Em) as Hst.
  rewrite (foldl_miss_perm _ _ _ (others_perm e p (terminal_of ws1 rs) order ws1 Hwf Hst Ho
    (fun t Ht => terminal_relevant _ _ _ _ _ _ _ Em Ht))).
  rewrite (stat_length _ _ Hst). f_equal. apply list_filter_iff.
  intros i. by rewrite (other_stat _ _ p i Hst).
Qed.
End equivalence.

(** ** Engines that [SetRules] builds are indexed as the match expects *)

Section building.
Context {prog : Type}.
Implicit Types (ws : list (ruleWrapper prog)).

Lemma df_app_r ws ws' i : df (ws ++ ws') (length ws + i) = df ws' i.
Proof. unfold df. by rewrite lookup_app_r, Nat.add_comm, Nat.add_sub by lia. Qed.

Lemma build_index_spec ws pre di un :
  let r := build_index (length pre) ws di un in
  let pos := seq (length pre) (length ws) in
  r.2 = un ++ filter (fun i => df (pre ++ ws) i = EmptyString) pos /\
  forall d, d <> EmptyString ->
    default [] (r.1 !! d) = default [] (di !! d) ++ filter (fun i => df (pre ++ ws) i = d) pos.
Proof.
  revert pre di un. induction ws as [|w ws IH]; intros pre di un.
  { simpl. split; [by rewrite app_nil_r|]. intros. by rewrite app_nil_r. }
  assert (df (pre ++ w :: ws) (length pre) = r_driverFilter (w_rule w)) as Hd.
  { replace (length pre) with (length pre + 0)%nat by lia. by rewrite df_app_r. }
  specialize (IH (pre ++ [w])). rewrite <- app_assoc, length_app in IH. cbn [app length] in IH.
  rewrite Nat.add_1_r in IH. cbn [build_index length seq].
  case_decide as He.
  - destruct (IH di (un ++ [length pre])) as [H1 H2]. split.
    + rewrite H1, filter_cons_True by (by rewrite Hd). by rewrite <- app_assoc.
    + intros d Hne. rewrite H2, filter_cons_False by (try done; congruence). done.
  - destruct (IH (<[r_driverFilter (w_rule w):=default [] (di !! r_driverFilter (w_rule w))
      ++ [length pre]]> di) un) as [H1 H2]. split.
    + by rewrite H1, filter_cons_False by congruence.
    + intros d Hne. rewrite H2 by done.
      destruct (decide (r_driverFilter (w_rule w) = d)) as [<-|Hn].
      * rewrite lookup_insert_eq, filter_cons_True by done. simpl. by rewrite <- app_assoc.
      * rewrite lookup_insert_ne, filter_cons_False by congruence. done.
Qed.

Lemma build_index_noempty i ws di un :
  di !! EmptyString = None -> (build_index i ws di un).1 !! EmptyString = None.
Proof.
  revert i di un. induction ws as [|w ws IH]; intros i di un Hd; simpl; [done|].
  case_decide; apply IH; [done|]. by rewrite lookup_insert_ne.
Qed.

Lemma wrap_sorted (rules : list (Rule prog)) : seq_sorted (wrap_rules (sort_rules rules)).
Proof.
  set (l := sort_rules rules).
  assert (StronglySorted (fun a b => r_priority a <= r_priority b) l) as Hl
    by apply (stable_sort_sorted r_priority).
  clearbody l. unfold wrap_rules. split.
  - intros i w. rewrite list_lookup_imap. destruct (l !! i); simpl; by intros [= <-].
  - intros i j [Hij Hj]. rewrite length_imap in Hj. unfold prio. rewrite !list_lookup_imap.
    destruct (lookup_lt_is_Some_2 l i ltac:(lia)) as [a Ha].
    destruct (lookup_lt_is_Some_2 l j ltac:(lia)) as [b Hb]. rewrite Ha, Hb. simpl.
    revert i j Hij Hj Ha Hb. induction Hl as [|x l Hl IH Hx]; intros i j Hij Hj Ha Hb; [done|].
    destruct j as [|j]; [lia|]. destruct i as [|i]; simpl in *.
    + simplify_eq. rewrite Forall_forall in Hx. apply Hx. by eapply list_elem_of_lookup_2.
    + apply (IH i j); [lia|lia|done|done].
Qed.

Lemma engine_of_wf (rules : list (Rule prog)) : engine_wf (engine_of rules).
Proof.
  unfold engine_of. set (ws := wrap_rules (sort_rules rules)).
  pose proof (build_index_spec ws [] ∅ []) as [H1 H2].
  pose proof (build_index_noempty 0 ws ∅ [] (lookup_empty _)) as H3. simpl in H1, H2.
  destruct (build_index 0 ws ∅ []) as [di un]. simpl in *. split; simpl.
  - apply wrap_sorted.
  - done.
  - intros d Hd. rewrite H2 by done. by rewrite lookup_empty.
  - done.
Qed.

(** An engine as [SetRules] built it from [rules], after any matches and any
    enabling and disabling. *)
Definition runs (rules : list (Rule prog)) (e : Engine prog) : Prop :=
  stat (e_rules e) = stat (e_rules (engine_of rules)) /\
  e_driverIndex e = e_driverIndex (engine_of rules) /\
  e_universalRules e = e_universalRules (engine_of rules).

Lemma runs_wf rules e : runs rules e -> engine_wf e.
Proof.
  intros (Hs & Hd & Hu). pose proof (engine_wf_stat _ _ Hs (engine_of_wf rules)) as Hw.
  rewrite <- Hd, <- Hu in Hw. by destruct e.
Qed.

Lemma runs_disabled rules e i v :
  runs rules e ->
  runs rules (mkEngine (alter (set_disabled v) i (e_rules e)) (e_driverIndex e) (e_universalRules e)).
Proof.
  intros (Hs & Hd & Hu). split_and!; [|done..]. simpl. rewrite <- Hs. by apply fmap_alter_id.
Qed.
End building.

(** ** Theorems *)

(** The specification of a match: what comes up to and including the first
    element that does not continue. *)
Fixpoint until_terminal {A} (continues : A -> bool) (l : list A) : list A :=
  match l with
  | [] => []
  | x :: l' => if continues x then x :: until_terminal continues l' else [x]
  end.

Definition enabled_match {prog} (m : Rule prog -> DataPoint -> bool) (p : DataPoint)
    (ws : list (ruleWrapper prog)) (i : nat) : bool :=
  match ws !! i with Some w => negb (w_disabled w) && m (w_rule w) p | None => false end.

Definition continues {prog} (ws : list (ruleWrapper prog)) (i : nat) : bool :=
  match ws !! i with Some w => r_continue (w_rule w) | None => true end.

(** Updating a rule outside the list does not change the specification. *)
Lemma spec_insert {prog} (m : Rule prog -> DataPoint -> bool) p i w' ws l :
  i ∉ l ->
  until_terminal (continues (<[i:=w']> ws))
    (filter (fun j => enabled_match m p (<[i:=w']> ws) j = true) l) =
  until_terminal (continues ws) (filter (fun j => enabled_match m p ws j = true) l).
Proof.
  induction l as [|j l IH]; [done|]. intros [Hn Hi]%not_elem_of_cons. rewrite !filter_cons.
  assert (continues (<[i:=w']> ws) j = continues ws j /\
    enabled_match m p (<[i:=w']> ws) j = enabled_match m p ws j) as [Hc He].
  { unfold continues, enabled_match. by rewrite list_lookup_insert_ne. }
  rewrite He. case_decide; simpl; rewrite ?Hc, (IH Hi); done.
Qed.

Lemma matchInRules_spec {prog T} (m : Rule prog -> DataPoint -> bool) kmatch now p l ws (s : T) :
  (forall r s, exists er, kmatch r p s = (s, m r p, er)) ->
  NoDup l -> Forall (fun i => i < length ws)%nat l ->
  map mr_rule (matchInRules kmatch now p l (ws, s)).2 =
  until_terminal (continues ws) (filter (fun i => enabled_match m p ws i = true) l).
Proof.
  intros Hm Hnd. revert ws s. induction Hnd as [|i l Hi Hnd IH]; intros ws s Hl; [done|].
  inversion_clear Hl as [|? ? Hil Hl']. cbn [matchInRules].
  destruct (lookup_lt_is_Some_2 ws i Hil) as [w Hw].
  unfold tryMatch; cbn [fst snd]. rewrite Hw. unfold wrapper_Match.
  destruct (Hm (w_rule w) s) as [er Hk].
  pose proof (fun w' => spec_insert m p i w' ws l Hi) as Hut.
  destruct (w_disabled w) eqn:Ed.
  { rewrite filter_cons_False by (unfold enabled_match; rewrite Hw, Ed; done).
    rewrite IH; [apply Hut|]. by rewrite length_insert. }
  rewrite Hk. destruct (m (w_rule w) p) eqn:Em.
  - rewrite filter_cons_True by (unfold enabled_match; by rewrite Hw, Ed, Em).
    cbn [until_terminal]. unfold continues at 1. rewrite Hw.
    destruct (r_continue (w_rule w)) eqn:Ec; cbn [negb]; [|done].
    destruct (matchInRules _ _ _ _ _) as [st rs] eqn:Er. cbn [snd map mr_rule].
    f_equal. apply (f_equal snd) in Er. cbn [snd] in Er. rewrite <- Er, IH by (by rewrite length_insert).
    apply Hut.
  - rewrite filter_cons_False by (unfold enabled_match; by rewrite Hw, Ed, Em).
    rewrite IH by (by rewrite length_insert). apply Hut.
Qed.

Lemma wrap_rules_rules {prog} (l : list (Rule prog)) : w_rule <$> wrap_rules l = l.
Proof.
  unfold wrap_rules. apply list_eq. intros i. rewrite list_lookup_fmap, list_lookup_imap.
  by destruct (l !! i).
Qed.



(** *** Witnesses *)

(** Programs that are predicates on points, for closed examples. *)
Definition demo_rule (name : string) (f : DataPoint -> bool) (filter : string) (prio : Z)
    (cont : bool) : Rule (DataPoint -> bool) :=
  mkRule name "" (KSimple (Some f)) ActionForward "t" ["t"%string] prio None filter cont.

Definition demo_kmatch (r : Rule (DataPoint -> bool)) (p : DataPoint) (s : unit)
    : unit * bool * bool :=
  match r_kind r with KSimple (Some f) => (s, f p, false) | _ => (s, false, false) end.

Definition demo_point (driver tag : string) : DataPoint :=
  mkDataPoint driver "" "" tag VNil TypeBool QualityGood 0 ∅ false.

Definition on_driver (d : string) (p : DataPoint) : bool := bool_decide (dp_Driver p = d).

(** A rule for driver b (priority 1), a rule for driver a that continues
    (priority 1) and a universal rule (priority 0, only for tag x). *)
Definition demo_b := demo_rule "b-only" (on_driver "b") "b" 1 false.
Definition demo_a := demo_rule "a-only" (on_driver "a") "a" 1 true.
Definition demo_x := demo_rule "x" (fun p => bool_decide (dp_Tag p = "x"%string)) "" 0 false.
Definition demo_rules : list (Rule (DataPoint -> bool)) := [demo_b; demo_a; demo_x].

Lemma demo_filter_sound : filter_sound demo_kmatch (e_rules (engine_of demo_rules)).
Proof.
  intros w p s Hw.
  assert (e_rules (engine_of demo_rules)
    = [newRuleWrapper demo_x 0; newRuleWrapper demo_b 1; newRuleWrapper demo_a 2]) as E by reflexivity.
  rewrite E, !elem_of_cons, elem_of_nil in Hw. rename Hw into Hw'.
  destruct Hw' as [-> | [-> | [-> | []]]]; simpl; intros H1 H2; [done|..];
    unfold demo_kmatch; simpl; unfold on_driver; by rewrite bool_decide_eq_false_2 by congruence.
Qed.



(** The index is not sound for every expression it accepts: the
    text [driver == 'a' && tag == 'x' || tag == 'y'] is taken as scoped to
    driver a, although the disjunction also accepts other drivers' points. With
    the expression evaluated with the usual precedence, the point of driver b
    with tag y satisfies it, a linear scan finds the rule, and [Match] does
    not. *)
Theorem driver_filter_drops_disjunction :
  let text := ("driver == " +:+ String squote "a" +:+ String squote " && tag == "
               +:+ String squote "x" +:+ String squote " || tag == "
               +:+ String squote "y" +:+ String squote "")%string in
  let sem p := on_driver "a" p && bool_decide (dp_Tag p = "x"%string)
               || bool_decide (dp_Tag p = "y"%string) in
  let r := demo_rule "r" sem (extractDriverFilter text) 0 false in
  let e := engine_of [r] in
  let p := demo_point "b" "y" in
  extractDriverFilter text = "a"%string /\ sem p = true /\
  (matchInRules demo_kmatch (fun _ => 0) p [0%nat] (e_rules e, tt)).2 <> [] /\
  (Match demo_kmatch (fun _ => 0) ["a"%string] e p tt).2 = [].
Proof. vm_compute. split_and!; congruence. Qed.

(** ** Sub-rule groups *)

Section subrules.
Context {prog : Type} `{ExprLib prog}.

Lemma newRule_sub_rule cfg providers r :
  newRule cfg providers ∅ = Ok r -> extractSubRuleRef (rc_Match cfg) = EmptyString.
Proof.
  unfold newRule, extractSubRuleRef. set (m := TrimSpace (rc_Match cfg)).
  destruct (has_prefix (to_upper m) "SUB-RULE:") eqn:Es; [|done].
  assert (has_prefix (to_upper m) "RULE-SET:" = false) as ->.
  { unfold has_prefix in *. destruct (to_upper m) as [|c u]; [done|]. cbn [String.prefix] in *.
    revert Es. destruct (ascii_dec "S" c) as [<-|]; [|done]. done. }
  by rewrite lookup_empty.
Qed.

Lemma newRules_sub_rule cfgs providers rs :
  newRules cfgs providers ∅ = Ok rs ->
  Forall (fun cfg => extractSubRuleRef (rc_Match cfg) = EmptyString) cfgs.
Proof.
  revert rs. induction cfgs as [|cfg cfgs IH]; intros rs Hr; [constructor|].
  cbn [newRules] in Hr. destruct (newRule cfg providers ∅) as [r|?|] eqn:E; try done.
  apply res_bind_ok in Hr as (rs' & Hrs & _). constructor; [by eapply newRule_sub_rule|].
  by eapply IH.
Qed.

Lemma build_groups_sub_rule order groups providers built b :
  build_groups order groups providers built = Ok b ->
  Forall (fun name => Forall (fun cfg => extractSubRuleRef (rc_Match cfg) = EmptyString)
                        (default [] (groups !! name))) order.
Proof.
  revert built. induction order as [|name order IH]; intros built Hb; [constructor|].
  cbn [build_groups] in Hb. unfold SetRules in Hb.
  destruct (newRules _ _ _) as [rs|?|] eqn:E; try done. cbn [res_bind] in Hb.
  constructor; [by eapply newRules_sub_rule|]. by eapply IH.
Qed.

Lemma checkCircular_no_refs groups fuel name :
  Forall (fun cfg => extractSubRuleRef (rc_Match cfg) = EmptyString) (default [] (groups !! name)) ->
  checkCircular groups (S fuel) name [] = Some None.
Proof.
  intros Hf. cbn [checkCircular]. rewrite decide_False by apply not_elem_of_nil.
  revert Hf. generalize (default [] (groups !! name)). intros l Hf.
  induction Hf as [|cfg cfgs Hc _ IH]; [done|]. cbn [check_refs]. by rewrite decide_True.
Qed.

(** Sub-rule groups cannot refer to sub-rule groups: a set of
    groups in which any rule does is rejected, whatever the iteration order,
    because each group is compiled in an engine that has no sub-engines; the
    cycle detection that follows never reports anything. *)
Theorem nested_sub_rules_rejected order order2 groups (y : RuleSystem) :
  order ≡ₚ elements (dom groups) -> order2 ≡ₚ elements (dom groups) ->
  (forall g cfgs cfg y', groups !! g = Some cfgs -> cfg ∈ cfgs ->
     extractSubRuleRef (rc_Match cfg) <> EmptyString ->
     SetSubRules order order2 groups y <> Ok y') /\
  (forall b, build_groups order groups (rs_providers y) [] = Ok b ->
     detectCircularSubRules groups order2 = Some None).
Proof.
  intros Ho Ho2.
  assert (forall b, build_groups order groups (rs_providers y) [] = Ok b ->
    forall g, Forall (fun cfg => extractSubRuleRef (rc_Match cfg) = EmptyString)
                (default [] (groups !! g))) as Hall.
  { intros b Hb g. apply build_groups_sub_rule in Hb. rewrite Forall_forall in Hb.
    destruct (groups !! g) as [cfgs|] eqn:Eg; [|constructor]. specialize (Hb g).
    rewrite Eg in Hb. apply Hb. rewrite Ho. apply elem_of_elements, elem_of_dom. by eexists. }
  split.
  - intros g cfgs cfg y' Hg Hc He Hs. unfold SetSubRules in Hs.
    apply res_bind_ok in Hs as (b & Hb & _). specialize (Hall b Hb g). rewrite Hg in Hall.
    simpl in Hall. rewrite Forall_forall in Hall. by apply He, Hall.
  - intros b Hb. specialize (Hall b Hb). clear Ho2.
    induction order2 as [|n order2 IH]; [done|]. cbn [detectCircularSubRules].
    by rewrite checkCircular_no_refs.
Qed.
End subrules.

(** Every text compiles, for closed examples. *)
Definition demo_expr : ExprLib string :=
  {| compileExpr := Ok; runExpr := fun _ _ => Some false |}.

Definition demo_outer : RuleConfig := mkRuleConfig "o" "SUB-RULE:inner" "drop" "" [] 0 None false.
Definition demo_groups : gmap string (list RuleConfig) :=
  <["inner"%string := [mkRuleConfig "i" "ALL" "drop" "" [] 0 None false]]>
  (<["outer"%string := [demo_outer]]> ∅).

Lemma nested_sub_rules_rejected_witness :
  ~ exists y', SetSubRules (H := demo_expr) (elements (dom demo_groups)) (elements (dom demo_groups))
                 demo_groups (mkSystem (engine_of []) ∅ ∅ ∅) = Ok y'.
Proof.
  intros [y' Hy]. revert Hy.
  destruct (nested_sub_rules_rejected (H := demo_expr) (elements (dom demo_groups))
    (elements (dom demo_groups)) demo_groups (mkSystem (engine_of []) ∅ ∅ ∅)
    (reflexivity _) (reflexivity _)) as [Hn _].
  apply (Hn "outer"%string [demo_outer] demo_outer y').
  - reflexivity.
  - constructor.
  - vm_compute. discriminate.
Defined.
