(* ===== verification/Cache.v ===== *)
(** * The latest-value cache ([engine/cache.go])

    Sixty-four shards of per-driver maps, a driver's shard chosen by the FNV-1a
    hash of its name, and per driver a snapshot that is reused while the values
    have not changed.  The contract is a plain map from drivers to maps from
    tags to points; the theorems show that every sequence of operations answers
    as that map does, and that the snapshot protocol is safe when the two
    stores of an update interleave with readers. *)

From Stdlib Require Import ZArith Lia String Ascii.
From stdpp Require Import base list gmap strings relations.
From S2P Require Import Prelude GoFloat Types.

Open Scope Z_scope.

Definition numCacheShards : Z := 64.

Record driverCache := mkDC {
  dc_values : gmap string DataPoint;
  dc_snapshot : option (gmap string DataPoint);
  dc_dirty : bool;
}.

Abbreviation cacheShard := (gmap string driverCache).

Abbreviation LatestCache := (list cacheShard).

Definition NewLatestCache : LatestCache := replicate (Z.to_nat numCacheShards) ∅.

(** FNV-1a, 32 bits. *)
Fixpoint fnv1a (h : Z) (s : string) : Z :=
  match s with
  | EmptyString => h
  | String c s' => fnv1a (u32 (Z.lxor h (Z.of_N (N_of_ascii c)) * 16777619)) s'
  end.

Definition cacheShardIdx (driver : string) : nat :=
  Z.to_nat (fnv1a 2166136261 driver mod numCacheShards).

Definition shard_of (c : LatestCache) (driver : string) : cacheShard :=
  default ∅ (c !! cacheShardIdx driver).

Definition find_driver (c : LatestCache) (driver : string) : option driverCache :=
  shard_of c driver !! driver.

(** Store the record of a driver in its shard. *)
Definition put_driver (driver : string) (dc : driverCache) (c : LatestCache) : LatestCache :=
  alter (insert driver dc) (cacheShardIdx driver) c.

Definition Update (point : DataPoint) (c : LatestCache) : LatestCache :=
  let dc := default (mkDC ∅ None false) (find_driver c (dp_Driver point)) in
  put_driver (dp_Driver point)
    (mkDC (<[dp_Tag point := point]> (dc_values dc)) (dc_snapshot dc) true) c.

Definition Get (c : LatestCache) (driver tag : string) : option DataPoint :=
  match find_driver c driver with
  | None => None
  | Some dc => dc_values dc !! tag
  end.

(** [GetByDriver]: the snapshot when it is clean, otherwise a new one. *)
Definition GetByDriver (driver : string) (c : LatestCache)
    : LatestCache * option (gmap string DataPoint) :=
  match find_driver c driver with
  | None => (c, None)
  | Some dc =>
      match dc_dirty dc, dc_snapshot dc with
      | false, Some p => (c, Some p)
      | _, _ =>
          (put_driver driver (mkDC (dc_values dc) (Some (dc_values dc)) false) c,
           Some (dc_values dc))
      end
  end.

(** [GetAll]; [order] is the iteration order of each shard's map. *)
Definition GetAll (order : nat -> list string) (c : LatestCache) : gmap string DataPoint :=
  foldl (fun all i =>
    foldl (fun all d =>
      match default ∅ (c !! i) !! d with
      | Some dc => dc_values dc ∪ all
      | None => all
      end) all (order i)) ∅ (seq 0 (length c)).

Definition DeleteDriver (driver : string) (c : LatestCache) : LatestCache :=
  alter (delete driver) (cacheShardIdx driver) c.

Definition DeleteTag (driver tag : string) (c : LatestCache) : LatestCache :=
  match find_driver c driver with
  | None => c
  | Some dc => put_driver driver (mkDC (delete tag (dc_values dc)) (dc_snapshot dc) true) c
  end.

Definition Clear (c : LatestCache) : LatestCache := map (fun _ => ∅) c.

(** ** The contract *)

Abbreviation Spec := (gmap string (gmap string DataPoint)).

Definition spec_values (m : Spec) (d : string) : gmap string DataPoint := default ∅ (m !! d).

Inductive op :=
| OUpdate (p : DataPoint)
| OGet (d t : string)
| OGetByDriver (d : string)
| ODeleteDriver (d : string)
| ODeleteTag (d t : string)
| OClear.

Inductive answer :=
| ANone
| APoint (o : option DataPoint)
| AMap (m : gmap string DataPoint).

Definition step_impl (o : op) (c : LatestCache) : LatestCache * answer :=
  match o with
  | OUpdate p => (Update p c, ANone)
  | OGet d t => (c, APoint (Get c d t))
  | OGetByDriver d => let '(c, m) := GetByDriver d c in (c, AMap (default ∅ m))
  | ODeleteDriver d => (DeleteDriver d c, ANone)
  | ODeleteTag d t => (DeleteTag d t c, ANone)
  | OClear => (Clear c, ANone)
  end.

Definition step_spec (o : op) (m : Spec) : Spec * answer :=
  match o with
  | OUpdate p => (<[dp_Driver p := <[dp_Tag p := p]> (spec_values m (dp_Driver p))]> m, ANone)
  | OGet d t => (m, APoint (spec_values m d !! t))
  | OGetByDriver d => (m, AMap (spec_values m d))
  | ODeleteDriver d => (delete d m, ANone)
  | ODeleteTag d t => (<[d := delete t (spec_values m d)]> m, ANone)
  | OClear => (∅, ANone)
  end.

(** The answers to a sequence of operations. *)
Fixpoint run {S} (step : op -> S -> S * answer) (os : list op) (s : S) : list answer :=
  match os with
  | [] => []
  | o :: os' => let '(s', a) := step o s in a :: run step os' s'
  end.

(** ** The simulation *)

Lemma shard_idx_lt d : (cacheShardIdx d < 64)%nat.
Proof.
  unfold cacheShardIdx, numCacheShards.
  pose proof (Z.mod_pos_bound (fnv1a 2166136261 d) 64). lia.
Qed.

Lemma find_put c d dc d' :
  length c = 64%nat ->
  find_driver (put_driver d dc c) d' = if decide (d = d') then Some dc else find_driver c d'.
Proof.
  intros Hl. unfold find_driver, shard_of, put_driver.
  destruct (decide (cacheShardIdx d = cacheShardIdx d')) as [E|E].
  - rewrite <- E, list_lookup_alter_eq.
    destruct (lookup_lt_is_Some_2 c (cacheShardIdx d)) as [sh Hsh].
    { rewrite Hl. apply shard_idx_lt. }
    rewrite Hsh. simpl. case_decide as Hd; [subst; by rewrite lookup_insert_eq|].
    by rewrite lookup_insert_ne.
  - rewrite list_lookup_alter_ne by done. case_decide; [congruence|done].
Qed.

Lemma find_delete c d d' :
  find_driver (DeleteDriver d c) d' = if decide (d = d') then None else find_driver c d'.
Proof.
  unfold find_driver, shard_of, DeleteDriver.
  destruct (decide (cacheShardIdx d = cacheShardIdx d')) as [E|E].
  - rewrite <- E, list_lookup_alter_eq.
    destruct (c !! cacheShardIdx d) as [sh|] eqn:Hsh; simpl.
    + case_decide as Hd; [subst; by rewrite lookup_delete_eq|]. by rewrite lookup_delete_ne.
    + case_decide; by rewrite ?lookup_empty.
  - rewrite list_lookup_alter_ne by done. case_decide; [congruence|done].
Qed.

Lemma find_clear c d : find_driver (Clear c) d = None.
Proof.
  unfold find_driver, shard_of, Clear. change (map ?f c) with (f <$> c).
  rewrite list_lookup_fmap. destruct (c !! _); simpl; apply lookup_empty.
Qed.

(** A clean snapshot is the values. *)
Definition dc_ok (dc : driverCache) : Prop :=
  dc_dirty dc = false -> forall s, dc_snapshot dc = Some s -> s = dc_values dc.

Record sim (c : LatestCache) (m : Spec) : Prop := {
  sim_len : length c = 64%nat;
  sim_values : forall d, spec_values m d
                 = match find_driver c d with Some dc => dc_values dc | None => ∅ end;
  sim_snap : forall d dc, find_driver c d = Some dc -> dc_ok dc;
}.

Lemma sim_new : sim NewLatestCache ∅.
Proof.
  assert (forall d, find_driver NewLatestCache d = None) as Hf.
  { intros d. unfold find_driver, shard_of, NewLatestCache. rewrite lookup_replicate_2.
    - simpl. by rewrite lookup_empty.
    - apply shard_idx_lt. }
  split; [done|intros d; by rewrite Hf|intros d dc; by rewrite Hf].
Qed.

Lemma put_length d dc c : length (put_driver d dc c) = length c.
Proof. apply length_alter. Qed.

(** Replacing a driver's record by one with the right values. *)
Lemma sim_put c m d dc v :
  sim c m -> dc_values dc = v -> dc_ok dc -> sim (put_driver d dc c) (<[d := v]> m).
Proof.
  intros [Hl Hv Hs] Hdc Hok. split.
  - by rewrite put_length.
  - intros d'. rewrite find_put by done. unfold spec_values. case_decide as Hd.
    + subst. by rewrite lookup_insert_eq.
    + rewrite lookup_insert_ne by done. apply Hv.
  - intros d' dc'. rewrite find_put by done. case_decide; [by intros [= <-]|apply Hs].
Qed.

(** Replacing a driver's record by one with the same values. *)
Lemma sim_put_same c m d dc :
  sim c m -> dc_values dc = spec_values m d -> dc_ok dc -> sim (put_driver d dc c) m.
Proof.
  intros [Hl Hv Hs] Hdc Hok. split.
  - by rewrite put_length.
  - intros d'. rewrite find_put by done. case_decide as Hd; [by subst|apply Hv].
  - intros d' dc'. rewrite find_put by done. case_decide; [by intros [= <-]|apply Hs].
Qed.

Lemma step_sim o c m :
  sim c m ->
  (step_impl o c).2 = (step_spec o m).2 /\ sim (step_impl o c).1 (step_spec o m).1.
Proof.
  intros Hsim. pose proof Hsim as [Hl Hv Hs]. destruct o as [p|d t|d|d|d t|]; simpl.
  - split; [done|]. apply sim_put; [done| |done]. simpl. rewrite Hv.
    by destruct (find_driver c (dp_Driver p)).
  - split; [|done]. unfold Get. rewrite Hv. by destruct (find_driver c d).
  - unfold GetByDriver. rewrite Hv. destruct (find_driver c d) as [dc|] eqn:E; [|done].
    assert (sim (put_driver d (mkDC (dc_values dc) (Some (dc_values dc)) false) c) m) as Hp.
    { apply sim_put_same; [done|by rewrite Hv, E|]. by intros _ s [= <-]. }
    destruct (dc_dirty dc) eqn:Ed; [done|]. destruct (dc_snapshot dc) as [s|] eqn:Esn; [|done].
    simpl. rewrite (Hs d dc E Ed s Esn). done.
  - split; [done|]. split.
    + unfold DeleteDriver. by rewrite length_alter.
    + intros d'. rewrite find_delete. unfold spec_values.
      case_decide as Hd; [subst; by rewrite lookup_delete_eq|].
      rewrite lookup_delete_ne by done. apply Hv.
    + intros d' dc'. rewrite find_delete. case_decide; [done|apply Hs].
  - split; [done|]. unfold DeleteTag. rewrite Hv. destruct (find_driver c d) as [dc|] eqn:E.
    + by apply sim_put.
    + rewrite delete_empty. split; [done| |done]. intros d'. unfold spec_values.
      destruct (decide (d = d')) as [<-|Hd]; [by rewrite lookup_insert_eq, E|].
      rewrite lookup_insert_ne by done. apply Hv.
  - split; [done|]. split.
    + unfold Clear. by rewrite length_map.
    + intros d. by rewrite find_clear.
    + intros d dc. by rewrite find_clear.
Qed.

(** The sharded cache with its snapshots answers every sequence of
    updates, lookups, per-driver reads, evictions and clears exactly as a plain
    map from drivers to tag maps does. *)
Theorem cache_refines_map os : run step_impl os NewLatestCache = run step_spec os ∅.
Proof.
  assert (forall c m, sim c m -> run step_impl os c = run step_spec os m) as Hrun.
  { induction os as [|o os IH]; intros c m Hs; [done|]. simpl.
    pose proof (step_sim o c m Hs) as [Ha Hs'].
    destruct (step_impl o c) as [c' a], (step_spec o m) as [m' a']. simpl in *.
    rewrite Ha. f_equal. by apply IH. }
  apply Hrun, sim_new.
Qed.

(** ** The snapshot protocol under concurrency

    An update stores the value under the lock and sets the dirty flag after
    releasing it; a rebuild copies, stores the snapshot and clears the flag
    under the lock.  [r_pending] counts the updates between their two stores. *)
Record race := mkRace { r_dc : driverCache; r_pending : nat }.

Inductive race_step : race -> race -> Prop :=
| race_store r p :
    race_step r (mkRace (mkDC (<[dp_Tag p := p]> (dc_values (r_dc r))) (dc_snapshot (r_dc r))
                           (dc_dirty (r_dc r))) (S (r_pending r)))
| race_delete r t :
    race_step r (mkRace (mkDC (delete t (dc_values (r_dc r))) (dc_snapshot (r_dc r))
                           (dc_dirty (r_dc r))) (S (r_pending r)))
| race_mark r n :
    r_pending r = S n ->
    race_step r (mkRace (mkDC (dc_values (r_dc r)) (dc_snapshot (r_dc r)) true) n)
| race_rebuild r :
    race_step r (mkRace (mkDC (dc_values (r_dc r)) (Some (dc_values (r_dc r))) false)
                   (r_pending r)).

Definition race_init : race := mkRace (mkDC ∅ None false) 0.

(** However updates, evictions and snapshot rebuilds interleave,
    once no update is between storing its value and setting the dirty flag, the
    snapshot that the fast path of [GetByDriver] returns is the current map: no
    update is lost to a racing rebuild. *)
Theorem snapshot_never_stale r s :
  rtc race_step race_init r -> r_pending r = 0%nat ->
  dc_dirty (r_dc r) = false -> dc_snapshot (r_dc r) = Some s ->
  s = dc_values (r_dc r).
Proof.
  intros Hr.
  assert (r_pending r = 0%nat -> dc_ok (r_dc r)) as Hok.
  { remember race_init as r0 eqn:E0.
    assert (r_pending r0 = 0%nat -> dc_ok (r_dc r0)) as H0 by (intros _; by subst).
    clear E0. induction Hr as [|r1 r2 r3 Hs _ IH]; [done|]. apply IH. clear IH.
    destruct Hs as [r p|r t|r n Hn|r]; simpl; [lia|lia|by intros _|]. by intros _ _ s' [= <-]. }
  intros Hp Hd Hs. exact (Hok Hp Hd s Hs).
Qed.

Lemma snapshot_never_stale_witness :
  exists r, rtc race_step race_init r /\ r_pending r = 0%nat /\ dc_dirty (r_dc r) = false /\
    dc_snapshot (r_dc r) = Some (dc_values (r_dc r)).
Proof.
  set (p := mkDataPoint "plc" "" "" "t" (VInt 1) TypeInt64 QualityGood 0 ∅ false).
  set (m := <["t"%string := p]> (∅ : gmap string DataPoint)).
  exists (mkRace (mkDC m (Some m) false) 0).
  assert (rtc race_step race_init (mkRace (mkDC m (Some m) false) 0)) as Hr.
  { eapply rtc_l; [apply (race_store race_init p)|].
    eapply rtc_l; [apply race_rebuild|].
    eapply rtc_l; [apply race_mark; reflexivity|].
    eapply rtc_l; [apply race_rebuild|]. apply rtc_refl. }
  split; [exact Hr|]. split; [reflexivity|]. split; [reflexivity|].
  exact (f_equal Some (snapshot_never_stale _ m Hr eq_refl eq_refl eq_refl)).
Defined.
