(* ===== verification/DataBus.v ===== *)
(** * The data bus ([engine/databus.go])

    Two bounded channels with drop-oldest pushes, and the broadcast to
    subscribers.  [Push] makes three channel operations between which other
    producers and the workers may act, so it is a step relation as well as a
    function: the function is a push that nothing interrupts. *)

From Stdlib Require Import ZArith Lia String.
From stdpp Require Import base list gmap strings relations.
From S2P Require Import Prelude GoFloat Types.

Open Scope Z_scope.

(** A buffered channel: its capacity and what it holds, oldest first. *)
Record chan (A : Type) := mkChan { ch_cap : nat; ch_items : list A; ch_closed : bool }.
Arguments mkChan {A} _ _ _.
Arguments ch_cap {A} _.
Arguments ch_items {A} _.
Arguments ch_closed {A} _.

(** The non-blocking send and receive of a [select] with a default; a send on
    a closed channel panics ([None]). *)
Definition try_send {A} (x : A) (c : chan A) : option (chan A * bool) :=
  if ch_closed c then None
  else if decide (length (ch_items c) < ch_cap c)%nat then
    Some (mkChan (ch_cap c) (ch_items c ++ [x]) false, true)
  else Some (c, false).

Definition try_recv {A} (c : chan A) : chan A * option A :=
  match ch_items c with
  | [] => (c, None)
  | x :: rest => (mkChan (ch_cap c) rest (ch_closed c), Some x)
  end.

Record subscriber := mkSub { sub_filter : string; sub_id : nat; sub_ch : chan DataPoint }.

Record DataBus := mkBus {
  b_ch : chan DataPoint;
  b_highPriCh : chan DataPoint;
  b_subscribers : list subscriber;
  b_closed : bool;
  b_subCount : Z;
  b_dropped : Z;
  b_pushDropped : Z;
  b_highPriPushDropped : Z;
  b_nextSub : nat;  (* names the channels that were made *)
}.

Definition DefaultSubscriberBuffer : Z := 256.

Definition NewDataBus (bufferSize : Z) : DataBus :=
  let bufferSize := if decide (bufferSize <= 0) then 4096 else bufferSize in
  let highPriSize := bufferSize / 4 in
  let highPriSize := if decide (highPriSize > 1024) then 1024 else highPriSize in
  let highPriSize := if decide (highPriSize < 64) then 64 else highPriSize in
  mkBus (mkChan (Z.to_nat bufferSize) [] false) (mkChan (Z.to_nat highPriSize) [] false)
    [] false 0 0 0 0 0.

(** The body shared by [Push] and [PushHighPriority] on their channel: the
    channel and how many points were dropped.  The recovered panic of a send
    on a closed channel drops the point uncounted. *)
Definition push_chan (point : DataPoint) (c : chan DataPoint) : chan DataPoint * Z :=
  match try_send point c with
  | None => (c, 0)
  | Some (c1, true) => (c1, 0)
  | Some (c1, false) =>
      let '(c2, old) := try_recv c1 in
      let d1 := match old with Some _ => 1 | None => 0 end in
      match try_send point c2 with
      | None => (c2, d1)
      | Some (c3, true) => (c3, d1)
      | Some (c3, false) => (c3, d1 + 1)
      end
  end.

Definition Push (point : DataPoint) (b : DataBus) : DataBus :=
  if b_closed b then b
  else
    let '(c, d) := push_chan point (b_ch b) in
    mkBus c (b_highPriCh b) (b_subscribers b) (b_closed b) (b_subCount b) (b_dropped b)
      (b_pushDropped b + d) (b_highPriPushDropped b) (b_nextSub b).

Definition PushHighPriority (point : DataPoint) (b : DataBus) : DataBus :=
  if b_closed b then b
  else
    let '(c, d) := push_chan point (b_highPriCh b) in
    mkBus (b_ch b) c (b_subscribers b) (b_closed b) (b_subCount b) (b_dropped b)
      (b_pushDropped b) (b_highPriPushDropped b + d) (b_nextSub b).

(** [SubscribeWithBuffer]: the bus and the new subscriber's channel name. *)
Definition SubscribeWithBuffer (filter : string) (size : Z) (b : DataBus) : DataBus * nat :=
  let size := if decide (size <= 0) then DefaultSubscriberBuffer else size in
  let s := mkSub filter (b_nextSub b) (mkChan (Z.to_nat size) [] false) in
  (mkBus (b_ch b) (b_highPriCh b) (b_subscribers b ++ [s]) (b_closed b) (b_subCount b + 1)
     (b_dropped b) (b_pushDropped b) (b_highPriPushDropped b) (S (b_nextSub b)),
   b_nextSub b).

(** The function that [SubscribeWithBuffer] returns to unsubscribe. *)
Definition unsub (id : nat) (b : DataBus) : DataBus :=
  match list_find (fun s => sub_id s = id) (b_subscribers b) with
  | Some (i, _) =>
      mkBus (b_ch b) (b_highPriCh b)
        (take i (b_subscribers b) ++ drop (S i) (b_subscribers b)) (b_closed b)
        (b_subCount b - 1) (b_dropped b) (b_pushDropped b) (b_highPriPushDropped b) (b_nextSub b)
  | None => b
  end.

(** One subscriber of [Broadcast]: the subscriber and the drops counted;
    [None] is the panic of a send on a closed channel. *)
Definition deliver (point : DataPoint) (s : subscriber) : option (subscriber * Z) :=
  if bool_decide (sub_filter s <> EmptyString) && bool_decide (dp_Driver point <> sub_filter s)
  then Some (s, 0)
  else match try_send point (sub_ch s) with
       | None => None
       | Some (c, true) => Some (mkSub (sub_filter s) (sub_id s) c, 0)
       | Some (c, false) => Some (s, 1)
       end.

Fixpoint deliver_all (point : DataPoint) (l : list subscriber) : option (list subscriber * Z) :=
  match l with
  | [] => Some ([], 0)
  | s :: l' =>
      match deliver point s, deliver_all point l' with
      | Some (s', d), Some (l'', d') => Some (s' :: l'', d + d')
      | _, _ => None
      end
  end.

Definition Broadcast (point : DataPoint) (b : DataBus) : option DataBus :=
  if decide (b_subCount b = 0) then Some b
  else
    match deliver_all point (b_subscribers b) with
    | None => None
    | Some (l, d) =>
        Some (mkBus (b_ch b) (b_highPriCh b) l (b_closed b) (b_subCount b) (b_dropped b + d)
                (b_pushDropped b) (b_highPriPushDropped b) (b_nextSub b))
    end.

Definition close_chan {A} (c : chan A) : chan A := mkChan (ch_cap c) (ch_items c) true.

Definition Close (b : DataBus) : DataBus :=
  if b_closed b then b
  else mkBus (close_chan (b_ch b)) (close_chan (b_highPriCh b)) [] true 0
         (b_dropped b) (b_pushDropped b) (b_highPriPushDropped b) (b_nextSub b).

(** ** A push that nothing interrupts *)

Definition chan_ok {A} (c : chan A) : Prop :=
  ch_closed c = false /\ (0 < ch_cap c)%nat /\ (length (ch_items c) <= ch_cap c)%nat.

Lemma push_chan_spec p c :
  chan_ok c ->
  push_chan p c =
  if decide (length (ch_items c) < ch_cap c)%nat
  then (mkChan (ch_cap c) (ch_items c ++ [p]) false, 0)
  else (mkChan (ch_cap c) (tail (ch_items c) ++ [p]) false, 1).
Proof.
  intros (Ho & Hc & Hl). unfold push_chan, try_send. rewrite Ho. case_decide as Hd; [done|].
  unfold try_recv. destruct (ch_items c) as [|x l]; simpl in *; [lia|]. rewrite Ho.
  rewrite decide_True by lia. done.
Qed.

Lemma push_chan_ok p c : chan_ok c -> chan_ok (push_chan p c).1.
Proof.
  intros Hc. rewrite push_chan_spec by done. destruct Hc as (Ho & Hp & Hl).
  case_decide; unfold chan_ok; simpl; rewrite length_app; simpl; [lia|].
  destruct (ch_items c); simpl in *; lia.
Qed.

(** Pushing a list of points with nobody reading. *)
Definition push_all (ps : list DataPoint) (c : chan DataPoint) : chan DataPoint * Z :=
  foldl (fun st p => let '(c', d) := push_chan p st.1 in (c', st.2 + d)) (c, 0) ps.

(** Any number of pushes that nobody consumes leave the newest
    points in the channel, in order and as many as fit, and every point that is
    no longer there was counted as dropped. *)
Theorem push_keeps_newest cap ps :
  (0 < cap)%nat ->
  push_all ps (mkChan cap [] false) =
  (mkChan cap (drop (length ps - cap) ps) false,
   Z.of_nat (length ps - cap)).
Proof.
  intros Hc. induction ps as [|p ps IH] using rev_ind; [done|].
  unfold push_all in *. rewrite foldl_app, IH. cbn [foldl fst snd].
  rewrite push_chan_spec.
  2:{ split_and!; simpl; [done|done|]. rewrite length_drop. lia. }
  cbn [ch_items ch_cap]. rewrite length_drop, length_app. simpl length.
  case_decide as Hd.
  - replace (length ps - cap)%nat with 0%nat by lia.
    replace (length ps + 1 - cap)%nat with 0%nat by lia. done.
  - replace (length ps + 1 - cap)%nat with (S (length ps - cap)) by lia.
    f_equal; [|lia]. f_equal.
    rewrite drop_app_le by lia. f_equal.
    apply list_eq. intros i. rewrite lookup_tail, !lookup_drop. f_equal. lia.
Qed.

Lemma push_keeps_newest_witness :
  let p n := mkDataPoint "d" "" "" "t" (VInt n) TypeInt64 QualityGood n ∅ false in
  push_all [p 1; p 2; p 3] (mkChan 2 [] false) = (mkChan 2 [p 2; p 3] false, 1).
Proof. intros p. rewrite (push_keeps_newest 2 [p 1; p 2; p 3]); [reflexivity|lia]. Defined.

(** ** Concurrent pushes

    A producer between its three channel operations: about to send, about to
    evict after a full channel, about to send again. *)
Inductive producer := PSend (p : DataPoint) | PEvict (p : DataPoint) | PRetry (p : DataPoint).

(** The channel, the producers at work, the drop counter, and as history the
    number of pushes begun, the points sent and those taken out, in order, with
    whether a worker received them. *)
Record bus := mkB {
  bs_ch : chan DataPoint;
  bs_procs : gmap nat producer;
  bs_dropped : nat;
  bs_started : nat;
  bs_sent : list DataPoint;
  bs_taken : list (DataPoint * bool);
}.

Inductive bus_step : bus -> bus -> Prop :=
| bus_start b i p :
    bs_procs b !! i = None ->
    bus_step b (mkB (bs_ch b) (<[i := PSend p]> (bs_procs b)) (bs_dropped b)
                  (S (bs_started b)) (bs_sent b) (bs_taken b))
| bus_send b i p c :
    bs_procs b !! i = Some (PSend p) -> try_send p (bs_ch b) = Some (c, true) ->
    bus_step b (mkB c (delete i (bs_procs b)) (bs_dropped b) (bs_started b)
                  (bs_sent b ++ [p]) (bs_taken b))
| bus_full b i p c :
    bs_procs b !! i = Some (PSend p) -> try_send p (bs_ch b) = Some (c, false) ->
    bus_step b (mkB c (<[i := PEvict p]> (bs_procs b)) (bs_dropped b) (bs_started b)
                  (bs_sent b) (bs_taken b))
| bus_evict b i p c x :
    bs_procs b !! i = Some (PEvict p) -> try_recv (bs_ch b) = (c, Some x) ->
    bus_step b (mkB c (<[i := PRetry p]> (bs_procs b)) (S (bs_dropped b)) (bs_started b)
                  (bs_sent b) (bs_taken b ++ [(x, false)]))
| bus_evict_none b i p c :
    bs_procs b !! i = Some (PEvict p) -> try_recv (bs_ch b) = (c, None) ->
    bus_step b (mkB c (<[i := PRetry p]> (bs_procs b)) (bs_dropped b) (bs_started b)
                  (bs_sent b) (bs_taken b))
| bus_retry b i p c :
    bs_procs b !! i = Some (PRetry p) -> try_send p (bs_ch b) = Some (c, true) ->
    bus_step b (mkB c (delete i (bs_procs b)) (bs_dropped b) (bs_started b)
                  (bs_sent b ++ [p]) (bs_taken b))
| bus_give_up b i p c :
    bs_procs b !! i = Some (PRetry p) -> try_send p (bs_ch b) = Some (c, false) ->
    bus_step b (mkB c (delete i (bs_procs b)) (S (bs_dropped b)) (bs_started b)
                  (bs_sent b) (bs_taken b))
| bus_worker b c x :
    try_recv (bs_ch b) = (c, Some x) ->
    bus_step b (mkB c (bs_procs b) (bs_dropped b) (bs_started b)
                  (bs_sent b) (bs_taken b ++ [(x, true)])).

Definition bus_init (cap : nat) : bus := mkB (mkChan cap [] false) ∅ 0 0 [] [].

(** How many points workers received. *)
Definition received (b : bus) : nat := length (filter (fun t => t.2 = true) (bs_taken b)).

Record bus_inv (cap : nat) (b : bus) : Prop := {
  bi_open : ch_closed (bs_ch b) = false;
  bi_cap : ch_cap (bs_ch b) = cap;
  bi_len : (length (ch_items (bs_ch b)) <= cap)%nat;
  bi_fifo : (bs_taken b).*1 ++ ch_items (bs_ch b) = bs_sent b;
  bi_count : bs_started b = (size (bs_procs b) + length (ch_items (bs_ch b))
                             + received b + bs_dropped b)%nat;
}.

Lemma try_send_true {A} (x : A) c c' :
  try_send x c = Some (c', true) ->
  c' = mkChan (ch_cap c) (ch_items c ++ [x]) false /\ (length (ch_items c) < ch_cap c)%nat.
Proof. unfold try_send. destruct (ch_closed c); [done|]. case_decide; naive_solver. Qed.

Lemma try_send_false {A} (x : A) c c' : try_send x c = Some (c', false) -> c' = c.
Proof. unfold try_send. destruct (ch_closed c); [done|]. case_decide; naive_solver. Qed.

Lemma try_recv_some {A} (c c' : chan A) x :
  try_recv c = (c', Some x) ->
  exists l, ch_items c = x :: l /\ c' = mkChan (ch_cap c) l (ch_closed c).
Proof. unfold try_recv. destruct (ch_items c) as [|y l]; naive_solver. Qed.

Lemma try_recv_none {A} (c c' : chan A) : try_recv c = (c', None) -> c' = c.
Proof. unfold try_recv. destruct (ch_items c); naive_solver. Qed.

Lemma received_snoc l x (b : bool) :
  length (filter (fun t : DataPoint * bool => t.2 = true) (l ++ [(x, b)]))
  = (length (filter (fun t : DataPoint * bool => t.2 = true) l) + if b then 1 else 0)%nat.
Proof. rewrite filter_app, length_app. f_equal. by destruct b. Qed.

Lemma bus_step_inv cap b b' : bus_inv cap b -> bus_step b b' -> bus_inv cap b'.
Proof.
  intros [Ho Hc Hl Hf Hn] Hs. unfold received in Hn.
  destruct Hs as [b i p Hi|b i p c Hi Hc'|b i p c Hi Hc'|b i p c x Hi Hc'|b i p c Hi Hc'
                 |b i p c Hi Hc'|b i p c Hi Hc'|b c x Hc'].
  all: try (apply try_send_true in Hc' as [-> Hlt]).
  all: try (apply try_send_false in Hc' as ->).
  all: try (apply try_recv_some in Hc' as (l & El & ->)).
  all: try (apply try_recv_none in Hc' as ->).
  all: try (pose proof (map_size_delete_Some i (bs_procs b) (ex_intro _ _ Hi)) as Hsz;
            assert (size (bs_procs b) <> 0%nat) by
              (intros E; apply map_size_empty_inv in E; by rewrite E, lookup_empty in Hi)).
  all: split; simpl; unfold received; simpl; try done.
  all: rewrite ?El in *; rewrite ?length_app, ?received_snoc, ?fmap_app in *; simpl in *.
  all: rewrite ?(map_size_insert_None _ _ _ Hi), ?(map_size_insert_Some _ _ _ (ex_intro _ _ Hi)).
  all: try lia.
  all: try (by rewrite app_assoc, Hf).
  all: by rewrite <- app_assoc.
Qed.

(** Under every interleaving of concurrent pushes and worker
    receives the channel stays within its capacity, points leave it in the
    order they were sent, and every push that began is still at work, queued,
    received by a worker or counted in the drop counter: no point is lost
    silently and none is counted twice. *)
Theorem bus_conserves_points cap b :
  rtc bus_step (bus_init cap) b ->
  (length (ch_items (bs_ch b)) <= cap)%nat /\
  (bs_taken b).*1 ++ ch_items (bs_ch b) = bs_sent b /\
  bs_started b = (size (bs_procs b) + length (ch_items (bs_ch b)) + received b + bs_dropped b)%nat.
Proof.
  intros Hr. assert (bus_inv cap b) as [_ _ ? ? ?]; [|done].
  remember (bus_init cap) as b0 eqn:E0.
  assert (bus_inv cap b0) as H0 by (subst; split; simpl; done || lia).
  clear E0. induction Hr as [|b1 b2 b3 Hs _ IH]; [done|]. apply IH. by eapply bus_step_inv.
Qed.

Lemma bus_conserves_points_witness :
  let p n := mkDataPoint "d" "" "" "t" (VInt n) TypeInt64 QualityGood n ∅ false in
  exists b, rtc bus_step (bus_init 1) b /\ bs_started b = 2%nat /\ bs_dropped b = 1%nat /\
    2%nat = (size (bs_procs b) + length (ch_items (bs_ch b)) + received b + bs_dropped b)%nat.
Proof.
  intros p.
  assert (exists b, rtc bus_step (bus_init 1) b /\ bs_started b = 2%nat /\ bs_dropped b = 1%nat)
    as (b & Hr & Hs & Hd).
  { eexists. split.
    - eapply rtc_l; [apply (bus_start _ 0%nat (p 1)); reflexivity|].
      eapply rtc_l; [eapply (bus_send _ 0%nat (p 1)); reflexivity|].
      eapply rtc_l; [apply (bus_start _ 1%nat (p 2)); reflexivity|].
      eapply rtc_l; [eapply (bus_full _ 1%nat (p 2)); reflexivity|].
      eapply rtc_l; [eapply (bus_evict _ 1%nat (p 2)); reflexivity|].
      eapply rtc_l; [eapply (bus_retry _ 1%nat (p 2)); reflexivity|].
      apply rtc_refl.
    - split; reflexivity. }
  exists b. split; [exact Hr|]. split; [exact Hs|]. split; [exact Hd|].
  rewrite <- Hs. exact (proj2 (proj2 (bus_conserves_points 1 b Hr))).
Defined.

(** ** Subscribers *)

Inductive bus_op :=
| BPush (p : DataPoint) | BPushHigh (p : DataPoint) | BBroadcast (p : DataPoint)
| BSubscribe (filter : string) (size : Z) | BUnsub (id : nat) | BClose
| BRecv (id : nat).  (* a subscriber takes a point *)

Definition recv_sub (id : nat) (b : DataBus) : DataBus :=
  mkBus (b_ch b) (b_highPriCh b)
    (map (fun s => if decide (sub_id s = id)
                   then mkSub (sub_filter s) (sub_id s) (try_recv (sub_ch s)).1 else s)
       (b_subscribers b))
    (b_closed b) (b_subCount b) (b_dropped b) (b_pushDropped b) (b_highPriPushDropped b)
    (b_nextSub b).

(** An operation on the bus; [None] is a panic. *)
Definition bus_do (o : bus_op) (b : DataBus) : option DataBus :=
  match o with
  | BPush p => Some (Push p b)
  | BPushHigh p => Some (PushHighPriority p b)
  | BBroadcast p => Broadcast p b
  | BSubscribe f n => Some (SubscribeWithBuffer f n b).1
  | BUnsub id => Some (unsub id b)
  | BClose => Some (Close b)
  | BRecv id => Some (recv_sub id b)
  end.

Fixpoint bus_run (os : list bus_op) (b : DataBus) : option DataBus :=
  match os with
  | [] => Some b
  | o :: os' => match bus_do o b with Some b' => bus_run os' b' | None => None end
  end.

(** Registered subscribers have open channels, and the counter is exact. *)
Definition subs_ok (b : DataBus) : Prop :=
  Forall (fun s => ch_closed (sub_ch s) = false) (b_subscribers b) /\
  b_subCount b = Z.of_nat (length (b_subscribers b)).

Lemma deliver_all_ok p l :
  Forall (fun s => ch_closed (sub_ch s) = false) l ->
  exists l' d, deliver_all p l = Some (l', d) /\ length l' = length l /\
    Forall (fun s => ch_closed (sub_ch s) = false) l'.
Proof.
  induction 1 as [|s l Hs _ (l' & d & Hd & Hlen & Hf)]; [by eexists _, _|].
  cbn [deliver_all]. rewrite Hd. unfold deliver. destruct (_ && _).
  - eexists _, _. split; [done|]. simpl. split; [by rewrite Hlen|by constructor].
  - unfold try_send. rewrite Hs. case_decide.
    + eexists _, _. split; [done|]. simpl. split; [by rewrite Hlen|by constructor].
    + eexists _, _. split; [done|]. simpl. split; [by rewrite Hlen|by constructor].
Qed.

Lemma bus_do_ok o b : subs_ok b -> exists b', bus_do o b = Some b' /\ subs_ok b'.
Proof.
  intros [Hf Hc]. destruct o as [p|p|p|f n|id| |id]; simpl.
  - eexists. split; [done|]. unfold Push. destruct (b_closed b); [done|].
    by destruct (push_chan p (b_ch b)).
  - eexists. split; [done|]. unfold PushHighPriority. destruct (b_closed b); [done|].
    by destruct (push_chan p (b_highPriCh b)).
  - unfold Broadcast. case_decide; [by eexists|].
    destruct (deliver_all_ok p _ Hf) as (l' & d & -> & Hlen & Hf').
    eexists. split; [done|]. split; simpl; [done|by rewrite Hlen].
  - eexists. split; [done|]. split; simpl.
    + apply Forall_app. split; [done|]. by repeat constructor.
    + rewrite length_app. simpl. lia.
  - eexists. split; [done|]. unfold unsub.
    destruct (list_find _ _) as [[i s]|] eqn:E; [|done]. apply list_find_Some in E as (Hi & _).
    apply lookup_lt_Some in Hi. split; simpl.
    + apply Forall_app. split; [by apply Forall_take|by apply Forall_drop].
    + rewrite length_app, length_take, length_drop. lia.
  - eexists. split; [done|]. unfold Close. destruct (b_closed b); [done|]. by split.
  - eexists. split; [done|]. split; simpl; [|by rewrite length_map].
    apply Forall_map. eapply Forall_impl; [done|]. intros s Hs. simpl. case_decide; [|done].
    simpl. unfold try_recv. by destruct (ch_items (sub_ch s)).
Qed.

(** No sequence of pushes, broadcasts, subscriptions,
    cancellations and closings, the operations after a close included, ever
    sends on a closed subscriber channel: the bus does not panic, and the
    subscriber counter that lets [Broadcast] skip the lock is exact. *)
Theorem bus_never_panics size os :
  exists b, bus_run os (NewDataBus size) = Some b /\
    b_subCount b = Z.of_nat (length (b_subscribers b)).
Proof.
  assert (forall b, subs_ok b -> exists b', bus_run os b = Some b' /\ subs_ok b') as Hrun.
  { induction os as [|o os IH]; intros b Hb; [by exists b|]. simpl.
    destruct (bus_do_ok o b Hb) as (b1 & -> & Hb1). by apply IH. }
  destruct (Hrun (NewDataBus size)) as (b & Hb & Hc & Hn); [by split|]. by exists b.
Qed.
