(* ===== verification/Alerts.v ===== *)
(** * Alerts ([engine/alerts.go], [common/observable/observable.go])

    The registry of active alerts, their bounded history and the event stream.
    A fire creates or updates the alert of its rule, driver and tag; an alert
    that has not fired for a full window is cleared by the sweep.  Go ranges over
    maps in any order and sorts slices unstably, so those orders are arguments of
    the operations and any admissible order is a step of [am_step]. *)

From Stdlib Require Import ZArith Lia String.
From stdpp Require Import base list gmap strings relations sorting.
From S2P Require Import Prelude GoFloat GoTime Types DataBus.

Open Scope Z_scope.

(** ** Data *)

(** The zero [time.Time], in nanoseconds from the epoch. *)
Definition zeroTime : Z := - 62135596800 * second.

Record Alert := mkAlert {
  al_Key : string;
  al_Rule : string;
  al_Driver : string;
  al_Tag : string;
  al_Value : Value;
  al_Quality : Quality;
  al_FirstFired : Z;
  al_LastFired : Z;
  al_Count : Z;
  al_Acked : bool;
  al_AckedAt : Z;
}.

Inductive AlertEventType := AlertFired | AlertAcked | AlertCleared.

Record AlertEvent := mkAlertEvent {
  ae_Type : AlertEventType;
  ae_Alert : Alert;
  ae_At : Z;
}.

Definition alertRegistryCap : nat := 1000.
Definition alertHistoryCap : nat := 500.
Definition alertEventBufferSize : nat := 256.

(** ** The fan-out to stream subscribers *)

Module Observable.

Definition DefaultSubscriberBuffer : Z := 128.

Record Observable (T : Type) := mkObservable {
  ob_subs : list (nat * chan T);
  ob_dropped : Z;
  ob_next : nat;  (* names the channels that were made *)
}.
Arguments mkObservable {T} _ _ _.
Arguments ob_subs {T} _.
Arguments ob_dropped {T} _.
Arguments ob_next {T} _.

Section operations.
Context {T : Type}.

Definition NewObservable : Observable T := mkObservable [] 0 0.

(** One subscriber: the event is sent or, when its buffer is full, counted. *)
Definition offer (v : T) (c : chan T) : chan T * Z :=
  match try_send v c with
  | Some (c, true) => (c, 0)
  | _ => (c, 1)
  end.

(** The body of [start]'s loop for one event of the source. *)
Definition fanOut (v : T) (o : Observable T) : Observable T :=
  let sent := (fun s => (s.1, offer v s.2)) <$> ob_subs o in
  mkObservable ((fun s => (s.1, s.2.1)) <$> sent)
    (i64 (ob_dropped o + foldr Z.add 0 ((fun s => s.2.2) <$> sent))) (ob_next o).

Definition SubscribeWithBuffer (size : Z) (o : Observable T) : nat * Observable T :=
  let size := if decide (size <= 0) then DefaultSubscriberBuffer else size in
  (ob_next o, mkObservable (ob_subs o ++ [(ob_next o, mkChan (Z.to_nat size) [] false)])
                (ob_dropped o) (S (ob_next o))).

Definition Subscribe : Observable T -> nat * Observable T := SubscribeWithBuffer DefaultSubscriberBuffer.

Definition unsub (id : nat) (o : Observable T) : Observable T :=
  mkObservable (filter (fun s => s.1 <> id) (ob_subs o)) (ob_dropped o) (ob_next o).

(** What [start] does when the source is closed. *)
Definition finish (o : Observable T) : Observable T :=
  mkObservable ((fun s => (s.1, close_chan s.2)) <$> ob_subs o) (ob_dropped o) (ob_next o).

End operations.
End Observable.

(** ** The registry *)

Record alertManager := mkManager {
  am_active : gmap string Alert;
  am_firedByRule : gmap string Z;
  am_history : list AlertEvent;
  am_activeWindow : Z;
  am_eventCh : chan AlertEvent;
  am_eventBus : Observable.Observable AlertEvent;
  am_closed : bool;
}.

Definition newAlertManager (activeWindow : Z) : alertManager :=
  let activeWindow := if decide (activeWindow <= 0) then DefaultAlertActiveWindow else activeWindow in
  mkManager ∅ ∅ [] activeWindow (mkChan alertEventBufferSize [] false) Observable.NewObservable false.

Definition alertKey (rule driver tag : string) : string :=
  rule +:+ "|" +:+ driver +:+ "|" +:+ tag.

Definition minDuration (a b : Z) : Z := if decide (a < b) then a else b.

(** The period of the sweep ticker that [start] creates. *)
Definition sweepEvery (activeWindow : Z) : Z :=
  let every := Z.quot activeWindow 4 in
  let every := if decide (every < 30 * second) then 30 * second else every in
  minDuration every activeWindow.

Definition set_active (active : gmap string Alert) (am : alertManager) : alertManager :=
  mkManager active (am_firedByRule am) (am_history am) (am_activeWindow am) (am_eventCh am)
    (am_eventBus am) (am_closed am).

Definition appendHistoryLocked (ev : AlertEvent) (am : alertManager) : alertManager :=
  let history := am_history am ++ [ev] in
  let history := if decide (alertHistoryCap < length history)%nat
                 then drop (length history - alertHistoryCap) history else history in
  mkManager (am_active am) (am_firedByRule am) history (am_activeWindow am) (am_eventCh am)
    (am_eventBus am) (am_closed am).

(** A full buffer drops the event; the recovered panic of a send on a closed
    channel drops it as well. *)
Definition publish (ev : AlertEvent) (am : alertManager) : alertManager :=
  if am_closed am then am
  else
    match try_send ev (am_eventCh am) with
    | Some (c, _) => mkManager (am_active am) (am_firedByRule am) (am_history am)
                       (am_activeWindow am) c (am_eventBus am) (am_closed am)
    | None => am
    end.

Definition countFire (rule : string) (am : alertManager) : alertManager :=
  mkManager (am_active am)
    (<[rule := u64 (default 0 (am_firedByRule am !! rule) + 1)]> (am_firedByRule am))
    (am_history am) (am_activeWindow am) (am_eventCh am) (am_eventBus am) (am_closed am).

Definition newAlert (rule : string) (point : DataPoint) (now : Z) : Alert :=
  mkAlert (alertKey rule (dp_Driver point) (dp_Tag point)) rule (dp_Driver point) (dp_Tag point)
    (dp_Value point) (dp_Quality point) now zeroTime 0 false zeroTime.

(** [a.Value = ...; a.Quality = ...; a.LastFired = now; a.Count++]. *)
Definition fireAgain (point : DataPoint) (now : Z) (a : Alert) : Alert :=
  mkAlert (al_Key a) (al_Rule a) (al_Driver a) (al_Tag a) (dp_Value point) (dp_Quality point)
    (al_FirstFired a) now (u64 (al_Count a + 1)) (al_Acked a) (al_AckedAt a).

(** One alert leaves the full registry. *)
Definition evict (now : Z) (am : alertManager) (a : Alert) : alertManager :=
  let ev := mkAlertEvent AlertCleared a now in
  publish ev (appendHistoryLocked ev (set_active (delete (al_Key a) (am_active am)) am)).

(** [byLastFired] is the slice of the active alerts after the unstable sort. *)
Definition record (rule : string) (point : DataPoint) (now : Z) (byLastFired : list Alert)
    (am : alertManager) : alertManager :=
  let key := alertKey rule (dp_Driver point) (dp_Tag point) in
  let am := countFire rule am in
  let known := am_active am !! key in
  let a := default (newAlert rule point now) known in
  let am := set_active (<[key := fireAgain point now a]> (am_active am)) am in
  let n := size (am_active am) in
  let am := if decide (alertRegistryCap < n)%nat
            then foldl (evict now) am (take (n - alertRegistryCap) byLastFired) else am in
  match known with
  | Some _ => am
  | None => let ev := mkAlertEvent AlertFired a now in publish ev (appendHistoryLocked ev am)
  end.

Definition ack (key : string) (now : Z) (am : alertManager) : option error * alertManager :=
  match am_active am !! key with
  | None => (Some (ErrFmt ("no active alert with key " +:+ quote key)), am)
  | Some a =>
    let a := mkAlert (al_Key a) (al_Rule a) (al_Driver a) (al_Tag a) (al_Value a) (al_Quality a)
               (al_FirstFired a) (al_LastFired a) (al_Count a) true now in
    let ev := mkAlertEvent AlertAcked a now in
    (None, publish ev (appendHistoryLocked ev (set_active (<[key := a]> (am_active am)) am)))
  end.

(** The loop of [sweep] over the keys in the order of the range: the registry
    and the cleared events. *)
Definition sweepKey (now : Z) (st : alertManager * list AlertEvent) (key : string)
  : alertManager * list AlertEvent :=
  let '(am, cleared) := st in
  match am_active am !! key with
  | Some a =>
    if decide (time_Sub now (al_LastFired a) >= am_activeWindow am) then
      let ev := mkAlertEvent AlertCleared a now in
      (appendHistoryLocked ev (set_active (delete key (am_active am)) am), cleared ++ [ev])
    else (am, cleared)
  | None => (am, cleared)
  end.

Definition sweep (now : Z) (order : list string) (am : alertManager) : alertManager :=
  let '(am, cleared) := foldl (sweepKey now) (am, []) order in
  foldl (fun am ev => publish ev am) am cleared.

(** The slice [activeAlerts] returns, after its unstable sort, is any list of
    the active alerts ordered by their first fire; this one is stable. *)
Definition activeAlerts (am : alertManager) : list Alert :=
  stable_sort (fun a b => bool_decide (al_FirstFired a < al_FirstFired b)) (map_to_list (am_active am)).*2.

Definition alertHistory (am : alertManager) : list AlertEvent := reverse (am_history am).
Definition fireCounts (am : alertManager) : gmap string Z := am_firedByRule am.
Definition activeCount (am : alertManager) : nat := size (am_active am).

(** [stop] once the sweep goroutine is joined. *)
Definition stop (am : alertManager) : alertManager :=
  if am_closed am then am
  else mkManager (am_active am) (am_firedByRule am) (am_history am) (am_activeWindow am)
         (close_chan (am_eventCh am)) (am_eventBus am) true.

(** ** Runs of the registry *)

Inductive alert_op :=
| OFire (rule : string) (point : DataPoint) (now : Z)
| OAck (key : string) (now : Z)
| OSweep (now : Z)
| ONext                (* the fan-out goroutine takes one event *)
| OStop.

(** The orders the code may see: any range order of the keys, any result of
    the sort by last fire. *)
Definition by_last_fired (active : gmap string Alert) (l : list Alert) : Prop :=
  l ≡ₚ (map_to_list active).*2 /\ StronglySorted (fun a b => al_LastFired a <= al_LastFired b) l.

Definition fired_active (rule : string) (point : DataPoint) (now : Z) (am : alertManager)
  : gmap string Alert :=
  let key := alertKey rule (dp_Driver point) (dp_Tag point) in
  <[key := fireAgain point now (default (newAlert rule point now) (am_active am !! key))]> (am_active am).

(** The fan-out goroutine: one event from the source to every subscriber. *)
Definition next (am : alertManager) : alertManager :=
  match try_recv (am_eventCh am) with
  | (c, Some ev) => mkManager (am_active am) (am_firedByRule am) (am_history am) (am_activeWindow am) c
                      (Observable.fanOut ev (am_eventBus am)) (am_closed am)
  | (_, None) => am
  end.

Inductive am_step : alert_op -> alertManager -> alertManager -> Prop :=
| step_fire rule point now order am :
    by_last_fired (fired_active rule point now am) order ->
    am_step (OFire rule point now) am (record rule point now order am)
| step_ack key now am : am_step (OAck key now) am (ack key now am).2
| step_sweep now order am :
    order ≡ₚ (map_to_list (am_active am)).*1 ->
    am_step (OSweep now) am (sweep now order am)
| step_next am : am_step ONext am (next am)
| step_stop am : am_step OStop am (stop am).

Inductive am_steps : list alert_op -> alertManager -> alertManager -> Prop :=
| steps_nil am : am_steps [] am am
| steps_cons o os am am' am'' : am_step o am am' -> am_steps os am' am'' -> am_steps (o :: os) am am''.

Lemma am_steps_app os os' am am'' :
  am_steps (os ++ os') am am'' <-> exists am', am_steps os am am' /\ am_steps os' am' am''.
Proof.
  split.
  - revert am. induction os as [|o os IH]; intros am H; simpl in H; [by exists am; split; [constructor|]|].
    inversion_clear H as [|? ? ? am1 ? Hs Hr]. destruct (IH _ Hr) as (am' & ? & ?).
    exists am'. split; [by econstructor|done].
  - intros (am' & H & H'). induction H; simpl; [done|]. econstructor; [done|]. by apply IHam_steps.
Qed.

(** ** What the operations do to the active alerts *)

Lemma history_active ev am : am_active (appendHistoryLocked ev am) = am_active am.
Proof. done. Qed.

Lemma publish_active ev am : am_active (publish ev am) = am_active am.
Proof. unfold publish. destruct (am_closed am); [done|]. by destruct (try_send _ _) as [[]|]. Qed.

Lemma publish_window ev am : am_activeWindow (publish ev am) = am_activeWindow am.
Proof. unfold publish. destruct (am_closed am); [done|]. by destruct (try_send _ _) as [[]|]. Qed.

Lemma evict_active now am a : am_active (evict now am a) = delete (al_Key a) (am_active am).
Proof. unfold evict. by rewrite publish_active. Qed.

Lemma evicts_window now l am : am_activeWindow (foldl (evict now) am l) = am_activeWindow am.
Proof. revert am. induction l as [|a l IH]; intros am; simpl; [done|]. rewrite IH. unfold evict. by rewrite publish_window. Qed.

Lemma evicts_lookup now l am k :
  am_active (foldl (evict now) am l) !! k =
  if decide (k ∈ al_Key <$> l) then None else am_active am !! k.
Proof.
  revert am. induction l as [|a l IH]; intros am.
  { by destruct (decide _) as [Hin|]; [apply elem_of_nil in Hin|]. }
  rewrite fmap_cons. cbn [foldl]. rewrite IH, evict_active.
  destruct (decide (k ∈ al_Key <$> l)) as [Hin|Hin]; [by rewrite decide_True by (by right)|].
  destruct (decide (k = al_Key a)) as [->|Hne].
  - rewrite lookup_delete_eq, decide_True by left. done.
  - rewrite lookup_delete_ne by done. rewrite decide_False; [done|]. rewrite elem_of_cons. tauto.
Qed.

Lemma record_active rule point now order am :
  am_active (record rule point now order am) =
  let active := fired_active rule point now am in
  if decide (alertRegistryCap < size active)%nat
  then am_active (foldl (evict now) (set_active active (countFire rule am))
                    (take (size active - alertRegistryCap) order))
  else active.
Proof.
  unfold record. cbn zeta. change (am_active (countFire rule am)) with (am_active am).
  unfold fired_active. set (key := alertKey _ _ _).
  change (am_active (set_active ?m _)) with m.
  destruct (am_active am !! key); case_decide; simpl; by rewrite ?publish_active.
Qed.

Lemma record_window rule point now order am :
  am_activeWindow (record rule point now order am) = am_activeWindow am.
Proof.
  unfold record. cbn zeta. destruct (am_active (countFire rule am) !! _); case_decide;
    rewrite ?publish_window; simpl; by rewrite ?evicts_window.
Qed.

Lemma publishes_active evs am : am_active (foldl (fun am ev => publish ev am) am evs) = am_active am.
Proof. revert am. induction evs as [|e evs IH]; intros am; simpl; [done|]. by rewrite IH, publish_active. Qed.

Lemma publishes_window evs am :
  am_activeWindow (foldl (fun am ev => publish ev am) am evs) = am_activeWindow am.
Proof. revert am. induction evs as [|e evs IH]; intros am; simpl; [done|]. by rewrite IH, publish_window. Qed.

Definition expired (now window : Z) (a : Alert) : bool :=
  bool_decide (time_Sub now (al_LastFired a) >= window).

Lemma sweepKeys_spec now order am evs :
  am_activeWindow (foldl (sweepKey now) (am, evs) order).1 = am_activeWindow am /\
  forall k, am_active (foldl (sweepKey now) (am, evs) order).1 !! k =
    match am_active am !! k with
    | Some a => if expired now (am_activeWindow am) a && bool_decide (k ∈ order) then None else Some a
    | None => None
    end.
Proof.
  revert am evs. induction order as [|k0 order IH]; intros am evs; simpl.
  { split; [done|]. intros k. destruct (am_active am !! k); [|done].
    by rewrite andb_false_r. }
  destruct (am_active am !! k0) as [a0|] eqn:Hk0.
  - case_decide as Hx.
    + destruct (IH (appendHistoryLocked (mkAlertEvent AlertCleared a0 now)
        (set_active (delete k0 (am_active am)) am)) (evs ++ [mkAlertEvent AlertCleared a0 now])) as [-> Hl].
      split; [done|]. intros k. rewrite Hl. simpl. destruct (decide (k = k0)) as [->|Hne].
      * rewrite lookup_delete_eq, Hk0. unfold expired. rewrite !bool_decide_true by (done || by left). done.
      * rewrite lookup_delete_ne by done. destruct (am_active am !! k); [|done].
        by rewrite (bool_decide_ext (k ∈ k0 :: order) (k ∈ order)) by (rewrite elem_of_cons; tauto).
    + destruct (IH am evs) as [-> Hl]. split; [done|]. intros k. rewrite Hl.
      destruct (am_active am !! k) as [a|] eqn:Hk; [|done]. destruct (decide (k = k0)) as [->|Hne].
      * assert (a = a0) as -> by congruence. unfold expired.
        by rewrite (bool_decide_false (time_Sub _ _ >= _)) by done.
      * by rewrite (bool_decide_ext (k ∈ k0 :: order) (k ∈ order)) by (rewrite elem_of_cons; tauto).
  - destruct (IH am evs) as [-> Hl]. split; [done|]. intros k. rewrite Hl.
    destruct (am_active am !! k) as [a|] eqn:Hk; [|done]. assert (k <> k0) by congruence.
    by rewrite (bool_decide_ext (k ∈ k0 :: order) (k ∈ order)) by (rewrite elem_of_cons; tauto).
Qed.

Lemma sweep_spec now order am :
  order ≡ₚ (map_to_list (am_active am)).*1 ->
  am_activeWindow (sweep now order am) = am_activeWindow am /\
  forall k, am_active (sweep now order am) !! k =
    match am_active am !! k with
    | Some a => if expired now (am_activeWindow am) a then None else Some a
    | None => None
    end.
Proof.
  intros Ho. unfold sweep. destruct (sweepKeys_spec now order am []) as [Hw Hl].
  destruct (foldl _ _ order) as [am' evs]. rewrite publishes_window, publishes_active. split; [done|].
  intros k. simpl in Hl. rewrite Hl. destruct (am_active am !! k) as [a|] eqn:Hk; [|done].
  rewrite bool_decide_true, andb_true_r; [done|]. rewrite Ho. apply list_elem_of_fmap.
  exists (k, a). split; [done|]. by apply elem_of_map_to_list.
Qed.

(** ** The registry is bounded, and full it drops the oldest *)

Record am_inv (am : alertManager) : Prop := {
  ai_keys k a : am_active am !! k = Some a -> al_Key a = k;
  ai_size : (size (am_active am) <= alertRegistryCap)%nat;
  ai_history : (length (am_history am) <= alertHistoryCap)%nat;
  ai_events : (length (ch_items (am_eventCh am)) <= alertEventBufferSize)%nat /\
              ch_cap (am_eventCh am) = alertEventBufferSize;
  ai_closed : ch_closed (am_eventCh am) = am_closed am;
}.

Lemma appendHistory_length ev am : (length (am_history (appendHistoryLocked ev am)) <= alertHistoryCap)%nat.
Proof. unfold appendHistoryLocked. simpl. case_decide; rewrite ?length_drop; lia. Qed.

(** The parts of the invariant the event stream and the history have to do with. *)
Definition stream_ok (am : alertManager) : Prop :=
  (length (am_history am) <= alertHistoryCap)%nat /\
  (length (ch_items (am_eventCh am)) <= alertEventBufferSize)%nat /\
  ch_cap (am_eventCh am) = alertEventBufferSize /\ ch_closed (am_eventCh am) = am_closed am.

Lemma publish_stream ev am : stream_ok am -> stream_ok (publish ev am).
Proof.
  intros (Hh & Hl & Hc & Hcl). unfold publish. destruct (am_closed am) eqn:E; [by split_and!; rewrite ?E|].
  unfold try_send. rewrite Hcl. case_decide as Hd; split_and!; simpl; rewrite ?E; try done.
  rewrite length_app. simpl. lia.
Qed.

Lemma history_stream ev am : stream_ok am -> stream_ok (appendHistoryLocked ev am).
Proof. intros (_ & ? & ? & ?). split; [apply appendHistory_length|done]. Qed.

Lemma evict_stream now l am : stream_ok am -> stream_ok (foldl (evict now) am l).
Proof.
  revert am. induction l as [|a l IH]; intros am Hs; simpl; [done|].
  apply IH, publish_stream. by apply history_stream.
Qed.

Lemma record_stream rule point now order am : stream_ok am -> stream_ok (record rule point now order am).
Proof.
  intros Hs. unfold record. cbn zeta.
  destruct (am_active (countFire rule am) !! _); case_decide;
    try apply publish_stream, history_stream; try apply evict_stream; exact Hs.
Qed.

Lemma sweep_stream now order am : stream_ok am -> stream_ok (sweep now order am).
Proof.
  intros Hs. unfold sweep.
  assert (stream_ok (foldl (sweepKey now) (am, []) order).1) as Hs'.
  { generalize (@nil AlertEvent). revert am Hs. induction order as [|k order IH]; intros am Hs evs; simpl; [done|].
    destruct (am_active am !! k); [|by apply IH]. case_decide; [|by apply IH].
    apply IH. by apply history_stream. }
  destruct (foldl _ _ order) as [am' evs]. simpl in Hs'. clear Hs. revert am' Hs'.
  induction evs as [|e evs IH]; intros am' Hs; simpl; [done|]. by apply IH, publish_stream.
Qed.

Lemma fired_keys rule point now am k a :
  (forall k a, am_active am !! k = Some a -> al_Key a = k) ->
  fired_active rule point now am !! k = Some a -> al_Key a = k.
Proof.
  intros Hk. unfold fired_active. set (key := alertKey _ _ _).
  destruct (decide (key = k)) as [<-|Hne]; [|rewrite lookup_insert_ne by done; apply Hk].
  rewrite lookup_insert_eq. intros [= <-]. simpl.
  destruct (am_active am !! key) as [a'|] eqn:E; simpl; [by apply Hk|done].
Qed.

Lemma fired_size rule point now am :
  (size (fired_active rule point now am) <= S (size (am_active am)))%nat.
Proof.
  unfold fired_active. set (key := alertKey _ _ _). destruct (am_active am !! key) eqn:E.
  - rewrite map_size_insert_Some by (rewrite E; by eexists). lia.
  - rewrite map_size_insert_None by done. lia.
Qed.

(** The alerts of a sorted slice have the keys they are filed under, each once. *)
Lemma by_last_fired_keys (active : gmap string Alert) l :
  (forall k a, active !! k = Some a -> al_Key a = k) -> by_last_fired active l ->
  NoDup (al_Key <$> l) /\ length l = size active /\
  (forall a, a ∈ l <-> active !! al_Key a = Some a).
Proof.
  intros Hk [Hp _].
  assert (Hkeys : al_Key <$> (map_to_list active).*2 = (map_to_list active).*1).
  { rewrite <- list_fmap_compose. apply list_fmap_ext. intros i [k a] Hi. simpl. apply Hk.
    apply elem_of_map_to_list. by eapply list_elem_of_lookup_2. }
  split_and!.
  - rewrite Hp, Hkeys. apply NoDup_fst_map_to_list.
  - by rewrite Hp, length_fmap, length_map_to_list.
  - intros a. rewrite Hp, list_elem_of_fmap. split.
    + intros ([k a'] & -> & Hin%elem_of_map_to_list). simpl. by rewrite (Hk _ _ Hin).
    + intros Hl. exists (al_Key a, a). split; [done|]. by apply elem_of_map_to_list.
Qed.

Lemma delete_list_size (m m' : gmap string Alert) ks :
  NoDup ks -> (forall k, k ∈ ks -> is_Some (m !! k)) ->
  (forall k, m' !! k = if decide (k ∈ ks) then None else m !! k) ->
  (size m' + length ks = size m)%nat.
Proof.
  intros Hnd Hin Hm.
  assert (Hd : dom m' = dom m ∖ list_to_set ks).
  { apply set_eq. intros k. rewrite elem_of_difference, elem_of_list_to_set, !elem_of_dom, Hm.
    case_decide; [|naive_solver]. split; [by intros []|tauto]. }
  rewrite <- !size_dom, Hd. assert (list_to_set ks ⊆ dom m) as Hsub.
  { intros k. rewrite elem_of_list_to_set, elem_of_dom. apply Hin. }
  rewrite size_difference by done. rewrite size_list_to_set by done.
  apply subseteq_size in Hsub. rewrite size_list_to_set in Hsub by done. lia.
Qed.

(** What a fire leaves: at most the capacity, and what it evicts last fired no
    later than anything that stays. *)
Lemma record_evicts rule point now order am :
  am_inv am -> by_last_fired (fired_active rule point now am) order ->
  let am' := record rule point now order am in
  (size (am_active am') <= alertRegistryCap)%nat /\
  (forall k a, am_active am' !! k = Some a -> fired_active rule point now am !! k = Some a) /\
  (forall k k' a a', fired_active rule point now am !! k = Some a -> am_active am' !! k = None ->
     am_active am' !! k' = Some a' -> al_LastFired a <= al_LastFired a').
Proof.
  intros Hinv Ho am'. subst am'. rewrite record_active. cbn zeta.
  assert (Hk : forall k a, fired_active rule point now am !! k = Some a -> al_Key a = k).
  { intros k a. apply fired_keys, Hinv. }
  set (m := fired_active rule point now am) in *.
  destruct (by_last_fired_keys m order Hk Ho) as (Hnd & Hlen & Hin). destruct Ho as [_ Hsort].
  case_decide as Hc; [|split_and!; [lia|done|congruence]].
  set (n := (size m - alertRegistryCap)%nat).
  assert (Hl := evicts_lookup now (take n order) (set_active m (countFire rule am))). simpl in Hl.
  assert (Hgone : forall k, k ∈ al_Key <$> take n order -> is_Some (m !! k)).
  { intros k (a & -> & Ha)%list_elem_of_fmap. exists a. apply Hin. by eapply subseteq_take. }
  split_and!.
  - assert (Hndt : NoDup (al_Key <$> take n order)).
    { rewrite <- (take_drop n order), fmap_app in Hnd. by apply NoDup_app in Hnd as [? _]. }
    pose proof (delete_list_size m _ _ Hndt Hgone Hl) as Hs.
    rewrite length_fmap, length_take, Hlen in Hs. lia.
  - intros k a. rewrite Hl. by case_decide.
  - intros k k' a a' Hka. rewrite !Hl. case_decide as Hkt; [|congruence]. intros _.
    case_decide as Hkt'; [done|]. intros Hka'.
    apply list_elem_of_fmap in Hkt as (a1 & -> & Ha1).
    assert (a1 = a) as ->.
    { assert (Hx : a1 ∈ order) by (by eapply subseteq_take). apply Hin in Hx. congruence. }
    assert (Ha' : a' ∈ drop n order).
    { assert (Hx : a' ∈ order) by (apply Hin; by rewrite (Hk _ _ Hka')).
      rewrite <- (take_drop n order), elem_of_app in Hx. destruct Hx as [Hx|]; [|done].
      destruct Hkt'. apply list_elem_of_fmap. exists a'. by rewrite (Hk _ _ Hka'). }
    rewrite <- (take_drop n order) in Hsort.
    by apply (StronglySorted_app_1_elem_of _ _ _ _ _ Hsort).
Qed.

Lemma am_inv_stream am : am_inv am -> stream_ok am.
Proof. intros [_ _ ? [? ?] ?]. by split_and!. Qed.

Lemma am_inv_intro am :
  (forall k a, am_active am !! k = Some a -> al_Key a = k) ->
  (size (am_active am) <= alertRegistryCap)%nat -> stream_ok am -> am_inv am.
Proof. intros ? ? (? & ? & ? & ?). by constructor. Qed.

Lemma submap_size (m m' : gmap string Alert) :
  (forall k, is_Some (m' !! k) -> is_Some (m !! k)) -> (size m' <= size m)%nat.
Proof.
  intros H. rewrite <- !size_dom. apply subseteq_size. intros k. rewrite !elem_of_dom. apply H.
Qed.

Lemma am_step_inv o am am' : am_inv am -> am_step o am am' -> am_inv am'.
Proof.
  intros Hinv Hs. pose proof (am_inv_stream _ Hinv) as Hst.
  destruct Hs as [rule point now order am Ho|key now am|now order am Ho|am|am].
  - destruct (record_evicts _ _ _ _ _ Hinv Ho) as (Hsz & Hsub & _).
    apply am_inv_intro; [|done|by apply record_stream].
    intros k a Hk. eapply fired_keys; [apply Hinv|]. by apply Hsub.
  - unfold ack. destruct (am_active am !! key) as [a|] eqn:Hk; [|done]. simpl.
    apply am_inv_intro; [| |by apply publish_stream, history_stream].
    + intros k a'. rewrite publish_active. simpl. destruct (decide (key = k)) as [<-|Hne].
      * rewrite lookup_insert_eq. intros [= <-]. simpl. by apply Hinv.
      * rewrite lookup_insert_ne by done. apply Hinv.
    + rewrite publish_active. simpl. rewrite map_size_insert_Some by (rewrite Hk; by eexists). apply Hinv.
  - destruct (sweep_spec now order am Ho) as [_ Hl]. apply am_inv_intro; [| |by apply sweep_stream].
    + intros k a. rewrite Hl. destruct (am_active am !! k) eqn:Hk; [|done]. case_match; [done|].
      intros [= <-]. by apply Hinv.
    + etrans; [apply submap_size|apply Hinv]. intros k. rewrite Hl.
      destruct (am_active am !! k); [by eexists|by intros []].
  - unfold next. destruct (try_recv (am_eventCh am)) as [c [ev|]] eqn:Hr; [|done].
    apply am_inv_intro; [apply Hinv..|]. unfold try_recv in Hr.
    destruct (ch_items (am_eventCh am)) eqn:E; [done|]. injection Hr as <- <-.
    destruct Hst as (? & Hl & ? & ?). rewrite E in Hl. simpl in Hl. split_and!; simpl; try done; lia.
  - unfold stop. destruct (am_closed am); [done|]. apply am_inv_intro; [apply Hinv..|].
    by destruct Hst as (? & ? & ? & ?); split_and!.
Qed.

Lemma newAlertManager_inv w : am_inv (newAlertManager w).
Proof.
  apply am_inv_intro; [done|simpl; rewrite map_size_empty; lia|].
  split_and!; simpl; unfold alertHistoryCap, alertEventBufferSize; (lia || done).
Qed.

Lemma am_steps_inv os am am' : am_inv am -> am_steps os am am' -> am_inv am'.
Proof. intros Hi Hs. induction Hs; [done|]. eauto using am_step_inv. Qed.

(** However many rules fire on however many tags, the registry
    holds at most 1000 alerts, its history 500 events and the stream buffer 256;
    and when a fire makes the registry too large, what it drops last fired no
    later than anything it keeps. *)
Theorem alert_registry_bounded w os am :
  am_steps os (newAlertManager w) am ->
  (size (am_active am) <= 1000)%nat /\ (length (am_history am) <= 500)%nat /\
  (length (ch_items (am_eventCh am)) <= 256)%nat /\
  forall rule point now am', am_step (OFire rule point now) am am' ->
    forall k k' a a', fired_active rule point now am !! k = Some a -> am_active am' !! k = None ->
      am_active am' !! k' = Some a' -> al_LastFired a <= al_LastFired a'.
Proof.
  intros Hs. pose proof (am_steps_inv _ _ _ (newAlertManager_inv w) Hs) as Hinv.
  split_and!; [apply Hinv..|]. intros rule point now am' Hst. inversion Hst; subst.
  by apply record_evicts.
Qed.

(** ** What an active alert says *)

(** The fires of one identity since it was last cleared, oldest first, and when
    they were acknowledged. *)
Record episode := mkEpisode { ep_fires : list (string * DataPoint * Z); ep_ack : option Z }.

Definition last_fire (e : episode) : Z :=
  match last (ep_fires e) with Some f => f.2 | None => zeroTime end.

(** The life of one identity: it fires, is acknowledged while active, and ends
    when a sweep comes a full window after its last fire. *)
Definition ep_step (w : Z) (key : string) (e : option episode) (o : alert_op) : option episode :=
  match o with
  | OFire rule point now =>
    if decide (alertKey rule (dp_Driver point) (dp_Tag point) = key)
    then Some (match e with
               | Some e => mkEpisode (ep_fires e ++ [(rule, point, now)]) (ep_ack e)
               | None => mkEpisode [(rule, point, now)] None
               end)
    else e
  | OAck k now =>
    if decide (k = key) then (fun e => mkEpisode (ep_fires e) (Some now)) <$> e else e
  | OSweep now =>
    match e with
    | Some e => if decide (now - last_fire e >= w) then None else Some e
    | None => None
    end
  | ONext | OStop => e
  end.

Definition summary (key : string) (e : episode) : option Alert :=
  match ep_fires e, last (ep_fires e) with
  | (rule, first, t0) :: _, Some (_, point, t) =>
    Some (mkAlert key rule (dp_Driver first) (dp_Tag first) (dp_Value point) (dp_Quality point) t0 t
            (u64 (Z.of_nat (length (ep_fires e))))
            (match ep_ack e with Some _ => true | None => false end) (default zeroTime (ep_ack e)))
  | _, _ => None
  end.

(** The identities that fire in a run. *)
Definition fired_in (os : list alert_op) : gset string :=
  list_to_set (omap (fun o => match o with
    | OFire rule p _ => Some (alertKey rule (dp_Driver p) (dp_Tag p)) | _ => None end) os).

Lemma summary_some key e a : summary key e = Some a -> al_LastFired a = last_fire e.
Proof.
  unfold summary, last_fire. destruct (ep_fires e) as [|[[r f] t0] fs]; [done|].
  destruct (last _) as [[[r' p] t]|]; [|done]. by intros [= <-].
Qed.

Lemma summary_first rule point now :
  summary (alertKey rule (dp_Driver point) (dp_Tag point)) (mkEpisode [(rule, point, now)] None)
  = Some (fireAgain point now (newAlert rule point now)).
Proof. done. Qed.

Lemma summary_again key e a rule point now :
  summary key e = Some a ->
  summary key (mkEpisode (ep_fires e ++ [(rule, point, now)]) (ep_ack e)) = Some (fireAgain point now a).
Proof.
  unfold summary. simpl. destruct (ep_fires e) as [|[[r f] t0] fs] eqn:E; [done|].
  destruct (last ((r, f, t0) :: fs)) as [[[r' p'] t']|]; [|done]. intros [= <-].
  rewrite last_snoc. cbn [app]. unfold fireAgain. simpl. do 2 f_equal.
  unfold u64, wrapu. rewrite Zplus_mod_idemp_l. f_equal. rewrite length_app. simpl. lia.
Qed.

Lemma summary_ack key e a now :
  summary key e = Some a ->
  summary key (mkEpisode (ep_fires e) (Some now)) =
  Some (mkAlert (al_Key a) (al_Rule a) (al_Driver a) (al_Tag a) (al_Value a) (al_Quality a)
          (al_FirstFired a) (al_LastFired a) (al_Count a) true now).
Proof.
  unfold summary. simpl. destruct (ep_fires e) as [|[[r f] t0] fs]; [done|].
  destruct (last _) as [[[r' p] t]|]; [|done]. by intros [= <-].
Qed.

(** No eviction, and one step of the registry is one step of every identity. *)
Lemma am_step_episode o am am' E (w := am_activeWindow am) :
  0 < w <= maxInt64 ->
  (forall k, am_active am !! k = E k ≫= summary k) ->
  (forall rule p now, o = OFire rule p now -> (size (fired_active rule p now am) <= alertRegistryCap)%nat) ->
  (forall k e, E k = Some e -> is_Some (summary k e)) ->
  am_step o am am' ->
  am_activeWindow am' = w /\
  (forall k, am_active am' !! k = ep_step w k (E k) o ≫= summary k) /\
  (forall k e, ep_step w k (E k) o = Some e -> is_Some (summary k e)).
Proof.
  intros Hw HE Hsz Hsome Hs.
  assert (Hnone : forall k, am_active am !! k = None -> E k = None).
  { intros k. rewrite HE. destruct (E k) as [e|] eqn:He; [|done]. destruct (Hsome _ _ He) as [a Ha].
    simpl. congruence. }
  destruct Hs as [rule point now order am Ho|key now am|now order am Ho|am|am].
  - split; [apply record_window|]. specialize (Hsz _ _ _ eq_refl).
    assert (Hl : forall k, fired_active rule point now am !! k = ep_step w k (E k) (OFire rule point now) ≫= summary k).
    { intros k. unfold fired_active. simpl. set (key := alertKey _ _ _). case_decide as Hk.
      - subst k. rewrite lookup_insert_eq, HE. destruct (E key) as [e|] eqn:He; [|done].
        destruct (Hsome _ _ He) as [a Ha]. simpl. rewrite Ha. simpl. symmetry. by apply summary_again.
      - by rewrite lookup_insert_ne. }
    split.
    + intros k. rewrite record_active. cbn zeta. rewrite decide_False by lia. apply Hl.
    + intros k e He. simpl in He. case_decide as Hk; [|by eapply Hsome]. injection He as <-. subst k.
      destruct (E _) as [e|] eqn:He; [|by eexists]. destruct (Hsome _ _ He) as [a Ha].
      eexists. by apply summary_again.
  - assert (Hl : forall k, am_active (ack key now am).2 !! k = ep_step w k (E k) (OAck key now) ≫= summary k).
    { intros k. unfold ack. simpl. destruct (am_active am !! key) as [a|] eqn:Hk; simpl.
      - rewrite publish_active. simpl. case_decide as Hkk; [subst k|by rewrite lookup_insert_ne].
        rewrite lookup_insert_eq. rewrite HE in Hk. destruct (E key) as [e|]; [|done]. simpl in *.
        symmetry. by apply summary_ack.
      - case_decide as Hkk; [subst k|by rewrite HE]. by rewrite (Hnone _ Hk), Hk. }
    split_and!; [|done|].
    + unfold ack. destruct (am_active am !! key); [|done]. simpl. by rewrite publish_window.
    + intros k e He. simpl in He. case_decide as Hk; [subst k|by eapply Hsome].
      destruct (E key) as [e'|] eqn:He'; [|done]. injection He as <-. destruct (Hsome _ _ He') as [a Ha].
      eexists. by apply summary_ack.
  - destruct (sweep_spec now order am Ho) as [Hwin Hl]. split_and!; [done| |].
    + intros k. rewrite Hl, HE. simpl. destruct (E k) as [e|] eqn:He; [|done]. simpl.
      destruct (Hsome _ _ He) as [a Ha]. rewrite Ha. unfold expired.
      rewrite (summary_some _ _ _ Ha). subst w.
      case_decide as Hd; [rewrite bool_decide_true|rewrite bool_decide_false]; try done;
        unfold time_Sub, minInt64, maxInt64 in *; lia.
    + intros k e He. simpl in He. destruct (E k) as [e'|] eqn:He'; [|done]. case_decide; [done|].
      injection He as <-. by eapply Hsome.
  - split_and!; [| |done]; unfold next; by destruct (try_recv _) as [c [ev|]].
  - split_and!; [| |done]; unfold stop; by destruct (am_closed am).
Qed.

Lemma fired_in_cons o os :
  fired_in (o :: os) =
  (match o with OFire r p _ => {[alertKey r (dp_Driver p) (dp_Tag p)]} | _ => ∅ end) ∪ fired_in os.
Proof. destruct o; unfold fired_in; simpl; set_solver. Qed.

Lemma fired_dom rule point now am :
  dom (fired_active rule point now am) =
  {[alertKey rule (dp_Driver point) (dp_Tag point)]} ∪ dom (am_active am).
Proof. unfold fired_active. by rewrite dom_insert_L. Qed.

Lemma ep_step_dom w k e o : ep_step w k e o <> None -> e <> None \/ k ∈ fired_in [o].
Proof.
  destruct e as [e|]; [by left|]. destruct o as [r p t| | | |]; simpl; try done.
  - case_decide; [|done]. right. subst k. rewrite fired_in_cons. set_solver.
  - by case_decide.
Qed.

Lemma am_steps_episode os am am' E (w := am_activeWindow am) (known : gset string) :
  0 < w <= maxInt64 ->
  (forall k, am_active am !! k = E k ≫= summary k) ->
  (forall k e, E k = Some e -> is_Some (summary k e)) ->
  dom (am_active am) ⊆ known -> (size (known ∪ fired_in os) <= alertRegistryCap)%nat ->
  am_steps os am am' ->
  forall k, am_active am' !! k = foldl (ep_step w k) (E k) os ≫= summary k.
Proof.
  intros Hw HE Hsome Hdom Hsz Hs. revert E known HE Hsome Hdom Hsz.
  induction Hs as [am|o os am am1 am' Hs _ IH]; intros E known HE Hsome Hdom Hsz; [done|].
  rewrite fired_in_cons in Hsz.
  destruct (am_step_episode o am am1 E) as (Hw1 & HE1 & Hsome1); try done.
  { intros rule p now ->. rewrite <- size_dom, fired_dom. etrans; [|done]. apply subseteq_size. set_solver. }
  fold w in Hw1, HE1, Hsome1. intros k. simpl. cbn zeta in IH. rewrite Hw1 in IH.
  apply (IH Hw (fun k => ep_step w k (E k) o) (known ∪ fired_in [o])); [done..| |].
  - intros k' [a Ha]%elem_of_dom. rewrite HE1 in Ha.
    destruct (ep_step w k' (E k') o) as [e|] eqn:He; [|done].
    destruct (ep_step_dom w k' (E k') o) as [Hn|Hn]; [by rewrite He| |set_solver].
    destruct (E k') as [e'|] eqn:He'; [|done]. destruct (Hsome _ _ He') as [a' Ha'].
    apply elem_of_union_l, Hdom, elem_of_dom. exists a'. by rewrite HE, He'.
  - rewrite fired_in_cons. etrans; [|done]. apply subseteq_size. unfold fired_in. set_solver.
Qed.

(** C30.  While at most 1000 identities fire, the registry is
    exact: an identity is active if and only if it has fired and no sweep has
    come a full window after its last fire, and its alert is the summary of the
    fires since then -- rule, driver and tag of the first, value, quality and
    time of the last, their number, and the last acknowledgement, which later
    fires do not undo. *)
Theorem alert_episodes w os am k :
  0 < w <= maxInt64 -> (size (fired_in os) <= 1000)%nat ->
  am_steps os (newAlertManager w) am ->
  am_active am !! k = foldl (ep_step w k) None os ≫= summary k.
Proof.
  intros Hw Hsz Hs.
  assert (Hwin : am_activeWindow (newAlertManager w) = w) by (simpl; by rewrite decide_False by lia).
  rewrite <- Hwin. apply (am_steps_episode os (newAlertManager w) am (fun _ => None) ∅); try done.
  - by rewrite Hwin.
  - by rewrite union_empty_l_L.
Qed.

(** ** Silence clears an alert *)

Lemma sweepEvery_bounds w : 0 < w -> 0 < sweepEvery w <= w /\ (120 * second <= w -> sweepEvery w = w / 4).
Proof.
  intros Hw. unfold sweepEvery, minDuration. rewrite Z.quot_div_nonneg by lia.
  assert (0 <= w / 4 <= w) by (split; [apply Z.div_pos|apply Z.div_le_upper_bound]; lia).
  assert (Hsec : second = 1000000000) by done. rewrite Hsec. clear Hsec. split.
  - decide_lia.
  - intros. assert (30 * 1000000000 <= w / 4) by (apply Z.div_le_lower_bound; lia). decide_lia.
Qed.

(** A tick of a ticker falls in every interval of its period. *)
Lemma tick_between every start t :
  0 < every -> start <= t -> exists n, 0 < n /\ t <= start + n * every <= t + every.
Proof.
  intros He Hs. exists ((t - start) / every + 1).
  pose proof (Z.div_pos (t - start) every ltac:(lia) He).
  pose proof (Z.mod_pos_bound (t - start) every He). pose proof (Z.div_mod (t - start) every ltac:(lia)). nia.
Qed.

Definition fires (k : string) (o : alert_op) : Prop :=
  match o with OFire rule p _ => alertKey rule (dp_Driver p) (dp_Tag p) = k | _ => False end.

(** A step that does not fire an identity leaves its alert with its last fire,
    or clears it; and a sweep a full window later does clear it. *)
Lemma silent_step k o am am' t :
  am_inv am -> 0 < am_activeWindow am <= maxInt64 ->
  (forall a, am_active am !! k = Some a -> al_LastFired a = t) -> ~ fires k o -> am_step o am am' ->
  am_activeWindow am' = am_activeWindow am /\
  (forall a, am_active am' !! k = Some a -> al_LastFired a = t) /\
  (am_active am !! k = None -> am_active am' !! k = None) /\
  (forall now, o = OSweep now -> t + am_activeWindow am <= now -> am_active am' !! k = None).
Proof.
  intros Hinv Hw Ht Hk Hs.
  destruct Hs as [rule point now order am Ho|key now am|now order am Ho|am|am]; simpl in Hk.
  - destruct (record_evicts _ _ _ _ _ Hinv Ho) as (_ & Hsub & _).
    assert (Hf : fired_active rule point now am !! k = am_active am !! k)
      by (unfold fired_active; by rewrite lookup_insert_ne).
    split_and!; [apply record_window| |  |done].
    + intros a Ha%Hsub. rewrite Hf in Ha. by apply Ht.
    + intros Hn. destruct (am_active (record _ _ _ _ _) !! k) eqn:E; [|done]. apply Hsub in E. congruence.
  - unfold ack. destruct (am_active am !! key) as [a|] eqn:Hkey; [|by split_and!]. simpl.
    rewrite publish_window, publish_active. simpl. destruct (decide (key = k)) as [->|Hne].
    + rewrite lookup_insert_eq. split_and!; [done| |congruence|done].
      intros a' [= <-]. simpl. by apply Ht.
    + rewrite lookup_insert_ne by done. by split_and!.
  - destruct (sweep_spec now order am Ho) as [Hwin Hl]. rewrite Hl. split_and!; [done| | |].
    + intros a. destruct (am_active am !! k) eqn:E; [|done]. case_match; [done|]. intros [= <-]. by apply Ht.
    + by intros ->.
    + intros now' [= <-] Hn. destruct (am_active am !! k) as [a|] eqn:E; [|done].
      unfold expired. rewrite bool_decide_true; [done|]. rewrite (Ht a eq_refl).
      unfold time_Sub, minInt64, maxInt64 in *. lia.
  - unfold next. by destruct (try_recv _) as [c [ev|]]; split_and!.
  - unfold stop. by destruct (am_closed am); split_and!.
Qed.

Lemma silent_steps k os am am' t :
  am_inv am -> 0 < am_activeWindow am <= maxInt64 ->
  (forall a, am_active am !! k = Some a -> al_LastFired a = t) -> Forall (fun o => ~ fires k o) os ->
  am_steps os am am' ->
  (am_active am !! k = None -> am_active am' !! k = None) /\
  (forall now, OSweep now ∈ os -> t + am_activeWindow am <= now -> am_active am' !! k = None).
Proof.
  intros Hinv Hw Ht Hos Hs. induction Hs as [am|o os am am1 am' Hs _ IH].
  { split; [done|]. by intros now Hn%elem_of_nil. }
  inversion_clear Hos as [|? ? Ho Hos'].
  destruct (silent_step _ _ _ _ _ Hinv Hw Ht Ho Hs) as (Hw1 & Ht1 & Hn1 & Hsw).
  destruct IH as [IHn IHs]; [by eapply am_step_inv|by rewrite Hw1|done..|].
  split; [by auto|]. intros now [Heq|Hin]%elem_of_cons Hle.
  - apply IHn. by eapply Hsw.
  - rewrite Hw1 in IHs. by eapply IHs.
Qed.

Lemma am_steps_window os am am' : am_steps os am am' -> am_activeWindow am' = am_activeWindow am.
Proof.
  induction 1 as [|o os am am1 am' Hs _ IH]; [done|]. rewrite IH.
  destruct Hs as [| key now am |now order am Ho| |]; [apply record_window| | | |].
  - unfold ack. destruct (am_active am !! key); [|done]. simpl. by rewrite publish_window.
  - by apply sweep_spec.
  - unfold next. by destruct (try_recv _) as [c [ev|]].
  - unfold stop. by destruct (am_closed am).
Qed.

(** Every alert that falls silent is cleared: if an identity last
    fired at [t] and the sweep ticker, which started before, keeps ticking, then
    once a window and one sweep period have passed the alert is no longer
    active.  The sweep period is at most the window, and a quarter of it from two
    minutes on. *)
Theorem alert_clears w before rule point t after am start (k := alertKey rule (dp_Driver point) (dp_Tag point)) :
  0 < w <= maxInt64 ->
  am_steps (before ++ OFire rule point t :: after) (newAlertManager w) am ->
  Forall (fun o => ~ fires k o) after -> start <= t ->
  (forall n, 0 < n -> t < start + n * sweepEvery w <= t + w + sweepEvery w ->
     OSweep (start + n * sweepEvery w) ∈ after) ->
  am_active am !! k = None /\ 0 < sweepEvery w <= w /\ (120 * second <= w -> sweepEvery w = w / 4).
Proof.
  intros Hw Hs Hsilent Hst Hticks. destruct (sweepEvery_bounds w) as [Hb Hq]; [lia|]. split; [|done].
  apply am_steps_app in Hs as (am1 & Hs1 & Hs2). inversion Hs2 as [|? ? ? am2 ? Hf Hs3]; subst.
  assert (Hinv1 := am_steps_inv _ _ _ (newAlertManager_inv w) Hs1).
  assert (Hw2 : am_activeWindow am2 = w).
  { rewrite (am_steps_window _ _ _ (steps_cons _ _ _ _ _ Hf (steps_nil _))), (am_steps_window _ _ _ Hs1).
    simpl. by rewrite decide_False by lia. }
  destruct (tick_between (sweepEvery w) start (t + w)) as (n & Hn & Hlo & Hhi); [lia..|].
  apply (silent_steps k after am2 am t) with (now := start + n * sweepEvery w); try done.
  - by eapply am_step_inv.
  - by rewrite Hw2.
  - intros a Ha. inversion Hf as [? ? ? order ? Ho| | | |]; subst.
    destruct (record_evicts _ _ _ _ _ Hinv1 Ho) as (_ & Hsub & _). apply Hsub in Ha. unfold fired_active in Ha.
    fold k in Ha. rewrite lookup_insert_eq in Ha. by injection Ha as <-.
  - apply Hticks; lia.
  - lia.
Qed.

(** ** Departures from what the comments say *)

(** The event of a new alert copies it before its count and last fire are set:
    the stream and the history show a fired alert with no fire. *)
Theorem fired_event_counts_nothing rule point now order am :
  am_active am !! alertKey rule (dp_Driver point) (dp_Tag point) = None ->
  exists am0 ev, record rule point now order am = publish ev (appendHistoryLocked ev am0) /\
    ae_Type ev = AlertFired /\ al_Count (ae_Alert ev) = 0 /\ al_LastFired (ae_Alert ev) = zeroTime.
Proof.
  intros Hn. unfold record. cbn zeta. change (am_active (countFire rule am)) with (am_active am).
  rewrite Hn. simpl. eexists _, _. by split_and!.
Qed.

(** Different rules, drivers and tags may share one key. *)
Theorem alert_keys_collide :
  alertKey "a|b" "c" "t" = alertKey "a" "b|c" "t".
Proof. reflexivity. Qed.

(** An event that finds the stream's buffer full is dropped and counted nowhere. *)
Theorem full_stream_counts_nothing ev am :
  ch_closed (am_eventCh am) = false -> (ch_cap (am_eventCh am) <= length (ch_items (am_eventCh am)))%nat ->
  publish ev am = am.
Proof.
  intros Hc Hf. unfold publish. destruct (am_closed am) eqn:E; [done|]. unfold try_send.
  rewrite Hc, decide_False by lia. destruct am. simpl in *. by subst.
Qed.

(** With the default window the sweep comes every 225 seconds. *)
Theorem default_sweep_period : sweepEvery DefaultAlertActiveWindow = 225 * second.
Proof. reflexivity. Qed.

(** ** A concrete run *)

Module Demo.

Definition point (v : Z) : DataPoint :=
  mkDataPoint "plc" "" "" "t" (VInt v) TypeInt64 QualityGood 0 ∅ false.
Definition window : Z := 15 * minute.

Definition first : alertManager :=
  record "high" (point 1) 0 [fireAgain (point 1) 0 (newAlert "high" (point 1) 0)] (newAlertManager window).
Definition tick (n : Z) : alert_op := OSweep (n * sweepEvery window).
Definition ticks : list alert_op := [tick 1; tick 2; tick 3; tick 4; tick 5].

Definition sweeps (am : alertManager) : alertManager :=
  foldl (fun am n => sweep (n * sweepEvery window) (map_to_list (am_active am)).*1 am) am [1; 2; 3; 4; 5].

Lemma first_step : am_step (OFire "high" (point 1) 0) (newAlertManager window) first.
Proof. apply step_fire. split; [reflexivity|repeat constructor]. Qed.

Lemma sweeps_steps am : am_steps ticks am (sweeps am).
Proof.
  unfold sweeps, ticks, tick. simpl.
  repeat (econstructor; [by apply step_sweep|]). constructor.
Qed.

Lemma run : am_steps (OFire "high" (point 1) 0 :: ticks) (newAlertManager window) (sweeps first).
Proof. econstructor; [apply first_step|apply sweeps_steps]. Qed.

Lemma acked : am_steps [OFire "high" (point 1) 0; OAck "high|plc|t" 5] (newAlertManager window)
  (ack "high|plc|t" 5 first).2.
Proof. econstructor; [apply first_step|]. econstructor; [apply step_ack|constructor]. Qed.

End Demo.

Lemma alert_registry_bounded_witness : (size (am_active (Demo.sweeps Demo.first)) <= 1000)%nat.
Proof. exact (proj1 (alert_registry_bounded _ _ _ Demo.run)). Defined.

Lemma alert_episodes_witness :
  al_Acked <$> am_active (ack "high|plc|t" 5 Demo.first).2 !! "high|plc|t"%string = Some true.
Proof.
  rewrite (alert_episodes Demo.window [OFire "high" (Demo.point 1) 0; OAck "high|plc|t" 5] _ "high|plc|t"
    ltac:(split; [reflexivity|done]) ltac:(apply Nat.leb_le; vm_compute; reflexivity) Demo.acked).
  reflexivity.
Defined.

Lemma alert_clears_witness : am_active (Demo.sweeps Demo.first) !! "high|plc|t"%string = None.
Proof.
  refine (proj1 (alert_clears Demo.window [] "high" (Demo.point 1) 0 Demo.ticks _ 0 _ Demo.run _ _ _)).
  - split; [reflexivity|done].
  - repeat constructor; intros [].
  - lia.
  - intros n Hn Hb. assert (Hs : sweepEvery Demo.window = 225 * second) by reflexivity.
    assert (Hw : Demo.window = 900 * second) by reflexivity. assert (second = 1000000000) by reflexivity.
    assert (n = 1 \/ n = 2 \/ n = 3 \/ n = 4 \/ n = 5) as Hc by lia. rewrite Z.add_0_l.
    unfold Demo.ticks, Demo.tick. rewrite !elem_of_cons.
    destruct Hc as [->|[->|[->|[->| ->]]]]; tauto.
Defined.
