(* ===== verification/Logging.v ===== *)
(** * The log bus and its stream ([log], [hub/route/logs.go])

    Records that reach the logger are written to the console and published as
    events: the handler puts an event in a bounded channel or counts it as
    dropped, a goroutine fans the channel out to the subscribers, and every client
    of [/logs] relays its own subscription over a websocket.  The fan-out is that
    of [Alerts.Observable].

    The theorem shows what a client sees of the log under any interleaving of
    logging, fan-out, connecting and writing. *)

From Stdlib Require Import ZArith Lia String.
From stdpp Require Import base list gmap strings.
From S2P Require Import Prelude GoFloat GoTime Types DataBus Alerts.

Open Scope Z_scope.

(** ** Levels and records *)

Definition LevelDebug : Z := -4.
Definition LevelInfo : Z := 0.
Definition LevelWarn : Z := 4.
Definition LevelError : Z := 8.
Definition LevelSilent : Z := LevelError + 10.

(** A record of [log/slog]; the values of its attributes are as they print. *)
Record Record_ := mkRecord {
  rc_Time : Z;
  rc_Level : Z;
  rc_Message : string;
  rc_Attrs : list (string * string);
}.

Record Event := mkEvent {
  ev_Level : Z;
  ev_Type : string;
  ev_Payload : string;
  ev_Timestamp : Z;
}.

Definition levelType (l : Z) : string :=
  if decide (LevelError <= l) then "error"
  else if decide (LevelWarn <= l) then "warning"
  else if decide (LevelInfo <= l) then "info"
  else "debug".

Fixpoint writeAttrs (sb : string) (attrs : list (string * string)) : string :=
  match attrs with
  | [] => sb
  | (k, v) :: attrs => writeAttrs (sb +:+ " " +:+ k +:+ "=" +:+ v) attrs
  end.

Definition eventOf (r : Record_) : Event :=
  mkEvent (rc_Level r) (levelType (rc_Level r)) (writeAttrs (rc_Message r) (rc_Attrs r)) (rc_Time r).

(** ** The bus *)

Definition DefaultLogBufferSize : nat := 1024.

(** [lb_out]: the records written to the console. *)
Record logBus := mkLogBus {
  lb_level : Z;
  lb_ch : chan Event;
  lb_source : Observable.Observable Event;
  lb_sourceDropped : Z;
  lb_out : list Record_;
}.

Definition newBus : logBus :=
  mkLogBus LevelInfo (mkChan DefaultLogBufferSize [] false) Observable.NewObservable 0 [].

Definition Dropped (b : logBus) : Z := i64 (lb_sourceDropped b + Observable.ob_dropped (lb_source b)).

Definition SetLevel (l : Z) (b : logBus) : logBus :=
  mkLogBus l (lb_ch b) (lb_source b) (lb_sourceDropped b) (lb_out b).

(** [Init] sets the level and installs a handler of its own. *)
Definition Init (l : Z) (b : logBus) : logBus := SetLevel l b.

Definition Enabled (lvl : Z) (b : logBus) : bool := bool_decide (lb_level b <= lvl).

Definition publishRecord (r : Record_) (b : logBus) : logBus :=
  if decide (rc_Level r < lb_level b) then b
  else
    match try_send (eventOf r) (lb_ch b) with
    | Some (c, true) => mkLogBus (lb_level b) c (lb_source b) (lb_sourceDropped b) (lb_out b)
    | _ => mkLogBus (lb_level b) (lb_ch b) (lb_source b) (i64 (lb_sourceDropped b + 1)) (lb_out b)
    end.

(** The inner handler writes the record it is given, whatever its own level. *)
Definition Handle (r : Record_) (b : logBus) : logBus :=
  let b := publishRecord r b in
  mkLogBus (lb_level b) (lb_ch b) (lb_source b) (lb_sourceDropped b) (lb_out b ++ [r]).

(** A call of [slog]: the handler is asked first. *)
Definition slogLog (r : Record_) (b : logBus) : logBus :=
  if Enabled (rc_Level r) b then Handle r b else b.

(** [pushLog] with its formatted message. *)
Definition pushLog (l : Z) (now : Z) (payload : string) (b : logBus) : logBus :=
  if decide (l < lb_level b) then b
  else
    let at_ lvl := slogLog (mkRecord now lvl payload []) b in
    if decide (LevelError <= l) then at_ LevelError
    else if decide (LevelWarn <= l) then at_ LevelWarn
    else if decide (LevelInfo <= l) then at_ LevelInfo
    else at_ LevelDebug.

(** One turn of the fan-out goroutine. *)
Definition pump (b : logBus) : logBus :=
  match try_recv (lb_ch b) with
  | (c, Some ev) => mkLogBus (lb_level b) c (Observable.fanOut ev (lb_source b)) (lb_sourceDropped b) (lb_out b)
  | (_, None) => b
  end.

Definition on_source (f : Observable.Observable Event -> Observable.Observable Event) (b : logBus) : logBus :=
  mkLogBus (lb_level b) (lb_ch b) (f (lb_source b)) (lb_sourceDropped b) (lb_out b).

(** ** Clients of [/logs] *)

Inductive wsStatus := Open | ClosedNormal | ClosedInternal.

#[export] Instance wsStatus_eq_dec : EqDecision wsStatus.
Proof. solve_decision. Defined.

Record client := mkClient { cl_frames : list Event; cl_status : wsStatus }.

(** The server: the bus, the clients by the number of their subscription, and
    the history: the records logged at a level that was on, and the events fanned
    out. *)
Record server := mkServer {
  sv_bus : logBus;
  sv_clients : gmap nat client;
  sv_logged : list Record_;
  sv_fanned : list Event;
}.

Definition new_server : server := mkServer newBus ∅ [] [].

(** The event the channel of a subscriber gives, and the channels after it. *)
Definition takeFrom (id : nat) (o : Observable.Observable Event) : option Event * Observable.Observable Event :=
  match List.find (fun s => bool_decide (s.1 = id)) (Observable.ob_subs o) with
  | None => (None, o)
  | Some (_, c) =>
      let '(c', ev) := try_recv c in
      (ev, Observable.mkObservable
             ((fun s => if decide (s.1 = id) then (s.1, c') else s) <$> Observable.ob_subs o)
             (Observable.ob_dropped o) (Observable.ob_next o))
  end.

Inductive op :=
| OpLog (r : Record_)
| OpPushLog (l now : Z) (payload : string)
| OpSetLevel (l : Z)
| OpPump
| OpAccept
| OpRelay (id : nat) (written : bool)
| OpDisconnect (id : nat).

(** The deferred calls of [getLogs]: unsubscribe, and close with a status that
    only counts when the connection is still open. *)
Definition leave (id : nat) (frames : list Event) (status : wsStatus) (s : server) : server :=
  mkServer (on_source (Observable.unsub id) (sv_bus s)) (<[id := mkClient frames status]> (sv_clients s))
    (sv_logged s) (sv_fanned s).

Definition step (o : op) (s : server) : server :=
  let b := sv_bus s in
  match o with
  | OpLog r =>
      mkServer (slogLog r b) (sv_clients s)
        (if Enabled (rc_Level r) b then sv_logged s ++ [r] else sv_logged s) (sv_fanned s)
  | OpPushLog l now payload =>
      let b' := pushLog l now payload b in
      mkServer b' (sv_clients s) (sv_logged s ++ drop (length (lb_out b)) (lb_out b')) (sv_fanned s)
  | OpSetLevel l => mkServer (SetLevel l b) (sv_clients s) (sv_logged s) (sv_fanned s)
  | OpPump => mkServer (pump b) (sv_clients s) (sv_logged s) (sv_fanned s ++ take 1 (ch_items (lb_ch b)))
  | OpAccept =>
      let '(id, src) := Observable.Subscribe (lb_source b) in
      mkServer (on_source (const src) b) (<[id := mkClient [] Open]> (sv_clients s)) (sv_logged s) (sv_fanned s)
  | OpRelay id written =>
      match sv_clients s !! id with
      | Some (mkClient frames Open) =>
          match takeFrom id (lb_source b) with
          | (Some ev, src) =>
              let s := mkServer (on_source (const src) b) (sv_clients s) (sv_logged s) (sv_fanned s) in
              if written then
                mkServer (sv_bus s) (<[id := mkClient (frames ++ [ev]) Open]> (sv_clients s)) (sv_logged s) (sv_fanned s)
              else leave id frames ClosedInternal s
          | (None, _) => s
          end
      | _ => s
      end
  | OpDisconnect id =>
      match sv_clients s !! id with
      | Some (mkClient frames Open) => leave id frames ClosedNormal s
      | _ => s
      end
  end.

Definition run (ops : list op) : server := foldl (fun s o => step o s) new_server ops.

(** ** What a client sees *)

Lemma i64_add (a b : Z) : i64 (i64 a + b) = i64 (a + b).
Proof.
  unfold wraps. f_equal. set (M := 2 ^ 64). set (h := 2 ^ (64 - 1)).
  replace ((a + h) mod M - h + b + h) with ((a + h) mod M + b) by lia. rewrite Zplus_mod_idemp_l. f_equal. lia.
Qed.

(** A client's own part of the history: the events fanned out since it
    connected, of which it has a subsequence, all of them when nobody missed
    one. *)
Definition follows (fanned frames : list Event) (c : chan Event) (missed : nat) : Prop :=
  ch_closed c = false /\
  exists pre post, fanned = pre ++ post /\ sublist (frames ++ ch_items c) post /\
    (missed = O -> frames ++ ch_items c = post).

(** [lost]: events the full channel refused; [missed]: sends a full subscriber
    refused. *)
Record log_inv (s : server) (lost missed : nat) : Prop := {
  li_out : lb_out (sv_bus s) = sv_logged s;
  li_ch : ch_closed (lb_ch (sv_bus s)) = false;
  li_lost : lb_sourceDropped (sv_bus s) = i64 (Z.of_nat lost);
  li_count : (length (sv_fanned s) + length (ch_items (lb_ch (sv_bus s))) + lost = length (sv_logged s))%nat;
  li_events : sublist (sv_fanned s ++ ch_items (lb_ch (sv_bus s))) (eventOf <$> sv_logged s);
  li_missed : Observable.ob_dropped (lb_source (sv_bus s)) = i64 (Z.of_nat missed);
  li_ids : NoDup (Observable.ob_subs (lb_source (sv_bus s))).*1 /\
           Forall (fun i => (i < Observable.ob_next (lb_source (sv_bus s)))%nat)
             (Observable.ob_subs (lb_source (sv_bus s))).*1 /\
           (forall id c, sv_clients s !! id = Some c -> (id < Observable.ob_next (lb_source (sv_bus s)))%nat);
  li_open : forall id frames, sv_clients s !! id = Some (mkClient frames Open) ->
    exists c, (id, c) ∈ Observable.ob_subs (lb_source (sv_bus s)) /\ follows (sv_fanned s) frames c missed;
  li_gone : forall id c, sv_clients s !! id = Some c -> sublist (cl_frames c) (sv_fanned s);
}.

Lemma log_inv_new : log_inv new_server 0 0.
Proof.
  constructor; try done.
  split_and!; cbn; try constructor. intros id c Hc. by rewrite lookup_empty in Hc.
Qed.

Lemma logged_inv s lost missed b r :
  log_inv s lost missed -> lb_source b = lb_source (sv_bus s) -> lb_out b = lb_out (sv_bus s) ++ [r] ->
  (lb_ch b = mkChan (ch_cap (lb_ch (sv_bus s))) (ch_items (lb_ch (sv_bus s)) ++ [eventOf r]) false /\
   lb_sourceDropped b = lb_sourceDropped (sv_bus s)
   \/ lb_ch b = lb_ch (sv_bus s) /\ lb_sourceDropped b = i64 (lb_sourceDropped (sv_bus s) + 1)) ->
  exists lost', log_inv (mkServer b (sv_clients s) (sv_logged s ++ [r]) (sv_fanned s)) lost' missed.
Proof.
  intros [] Hs Ho [[Hc Hd]|[Hc Hd]].
  - exists lost. constructor; cbn [sv_bus sv_clients sv_logged sv_fanned]; rewrite ?Hs, ?Ho, ?Hc, ?Hd; cbn [ch_items ch_closed];
      try done; [by f_equal| |].
    + rewrite !length_app. cbn. lia.
    + rewrite (assoc_L (++)), fmap_app. by apply sublist_app.
  - exists (S lost). constructor; cbn [sv_bus sv_clients sv_logged sv_fanned]; rewrite ?Hs, ?Ho, ?Hc, ?Hd; try done; [by f_equal|..].
    + rewrite li_lost0, i64_add. f_equal. lia.
    + rewrite length_app. cbn. lia.
    + rewrite fmap_app. by apply sublist_inserts_r.
Qed.

Lemma Handle_cases r b :
  ch_closed (lb_ch b) = false -> lb_level b <= rc_Level r ->
  lb_source (Handle r b) = lb_source b /\ lb_out (Handle r b) = lb_out b ++ [r] /\
  (lb_ch (Handle r b) = mkChan (ch_cap (lb_ch b)) (ch_items (lb_ch b) ++ [eventOf r]) false /\
   lb_sourceDropped (Handle r b) = lb_sourceDropped b
   \/ lb_ch (Handle r b) = lb_ch b /\ lb_sourceDropped (Handle r b) = i64 (lb_sourceDropped b + 1)).
Proof.
  intros Hc Hl. unfold Handle, publishRecord, try_send. rewrite decide_False by lia. rewrite Hc.
  case_decide; cbn; by auto.
Qed.

Lemma slogLog_inv s lost missed r :
  log_inv s lost missed ->
  exists lost', log_inv (mkServer (slogLog r (sv_bus s)) (sv_clients s)
    (if Enabled (rc_Level r) (sv_bus s) then sv_logged s ++ [r] else sv_logged s) (sv_fanned s)) lost' missed.
Proof.
  intros Hi. unfold slogLog, Enabled. case_bool_decide; [|exists lost; by destruct s].
  destruct (Handle_cases r (sv_bus s)) as (H1 & H2 & H3); [apply Hi|done|]. by apply logged_inv with lost.
Qed.

Lemma pushLog_slog l now payload b :
  pushLog l now payload b = b \/
  exists r, pushLog l now payload b = slogLog r b.
Proof. unfold pushLog. repeat case_decide; eauto. Qed.

Lemma slogLog_out r b :
  drop (length (lb_out b)) (lb_out (slogLog r b)) = if Enabled (rc_Level r) b then [r] else [].
Proof.
  unfold slogLog. destruct (Enabled _ _).
  - assert (lb_out (Handle r b) = lb_out b ++ [r]) as ->; [|by rewrite drop_app_length].
    unfold Handle, publishRecord. cbn. by repeat case_match.
  - by rewrite drop_all.
Qed.

Lemma offer_follows fanned frames c missed v more :
  follows fanned frames c missed -> ((Observable.offer v c).2 = 1 -> (0 < more)%nat) ->
  follows (fanned ++ [v]) frames (Observable.offer v c).1 (missed + more).
Proof.
  intros (Hc & pre & post & -> & Hsub & Hall) Hm. revert Hm. unfold Observable.offer, try_send. rewrite Hc.
  case_decide; cbn; intros Hm; (split; [done|]); exists pre, (post ++ [v]); (split; [by rewrite (assoc_L (++))|]).
  - cbn [ch_items]. rewrite (assoc_L (++)). split; [by apply sublist_app|]. intros. rewrite Hall by lia. done.
  - split; [by apply sublist_inserts_r|]. intros. specialize (Hm eq_refl). lia.
Qed.

Lemma offers_count v (l : list (nat * chan Event)) :
  exists m, foldr Z.add 0 ((fun s => (Observable.offer v s.2).2) <$> l) = Z.of_nat m /\
    forall s, s ∈ l -> (Observable.offer v s.2).2 = 1 -> (0 < m)%nat.
Proof.
  induction l as [|s l (m & Hm & Hin)]; [exists O; split; [done|by intros ? ?%not_elem_of_nil]|].
  assert ((Observable.offer v s.2).2 = 0 \/ (Observable.offer v s.2).2 = 1) as [Hs|Hs]
    by (unfold Observable.offer; repeat case_match; auto).
  - exists m. cbn. rewrite Hm, Hs. split; [lia|]. intros x [->|Hx]%elem_of_cons H1; [lia|by eapply Hin].
  - exists (S m). cbn. rewrite Hm, Hs. split; [lia|]. intros. lia.
Qed.

Lemma pump_inv s lost missed :
  log_inv s lost missed ->
  exists missed', log_inv (step OpPump s) lost missed'.
Proof.
  intros Hi. cbn [step]. unfold pump, try_recv. destruct (ch_items (lb_ch (sv_bus s))) as [|ev rest] eqn:Ei.
  { exists missed. cbn [take]. rewrite (right_id_L [] (++)). by destruct s. }
  destruct (offers_count ev (Observable.ob_subs (lb_source (sv_bus s)))) as (m & Hm & Hin).
  exists (missed + m)%nat. destruct Hi. replace (take 1 (ev :: rest)) with [ev] by (by destruct rest).
  assert ((Observable.ob_subs (Observable.fanOut ev (lb_source (sv_bus s)))).*1
          = (Observable.ob_subs (lb_source (sv_bus s))).*1) as Hids.
  { cbn. rewrite <- !list_fmap_compose. done. }
  constructor; cbn [sv_bus sv_clients sv_logged sv_fanned lb_ch lb_source lb_sourceDropped lb_out ch_closed ch_items];
    try done.
  - rewrite Ei in li_count0. rewrite length_app. cbn in *. lia.
  - rewrite Ei in li_events0. by rewrite <- (assoc_L (++)).
  - cbn. rewrite <- list_fmap_compose. unfold compose. cbn. rewrite Hm, li_missed0, i64_add. f_equal. lia.
  - by rewrite Hids.
  - intros id frames Hid. destruct (li_open0 id frames Hid) as (c & Hc & Hf).
    exists (Observable.offer ev c).1. split; [|apply offer_follows; [done|]; by apply (Hin _ Hc)].
    cbn. rewrite <- list_fmap_compose. apply list_elem_of_fmap. by exists (id, c).
  - intros id c Hc. by apply sublist_inserts_r, (li_gone0 id).
Qed.

Lemma accept_inv s lost missed : log_inv s lost missed -> log_inv (step OpAccept s) lost missed.
Proof.
  intros []. destruct li_ids0 as (Hnd & Hlt & Hcl). cbn [step Observable.Subscribe Observable.SubscribeWithBuffer].
  assert (Observable.ob_next (lb_source (sv_bus s)) ∉ (Observable.ob_subs (lb_source (sv_bus s))).*1) as Hnew.
  { rewrite Forall_forall in Hlt. intros Hx%Hlt. lia. }
  constructor; cbn [sv_bus sv_clients sv_logged sv_fanned lb_ch lb_source lb_sourceDropped lb_out on_source
    Observable.ob_subs Observable.ob_dropped Observable.ob_next const]; try done.
  - rewrite fmap_app. split_and!.
    + apply NoDup_app. split_and!; [done| |by apply NoDup_singleton].
      intros x Hx. cbn. rewrite list_elem_of_singleton. by intros ->.
    + apply Forall_app. split; [eapply Forall_impl; [exact Hlt|]; cbn; lia|]. repeat constructor.
    + intros id c. destruct (decide (id = Observable.ob_next (lb_source (sv_bus s)))) as [->|Hne]; [lia|].
      rewrite lookup_insert_ne by done. intros Hc%Hcl. lia.
  - intros id frames. destruct (decide (id = Observable.ob_next (lb_source (sv_bus s)))) as [->|Hne].
    + rewrite lookup_insert_eq. intros [= <-]. eexists. split; [apply elem_of_app; right; by apply list_elem_of_singleton|].
      split; [done|]. exists (sv_fanned s), []. by rewrite (right_id_L [] (++)).
    + rewrite lookup_insert_ne by done. intros (c & Hc & Hf)%li_open0. exists c. split; [by apply elem_of_app; left|done].
  - intros id c. destruct (decide (id = Observable.ob_next (lb_source (sv_bus s)))) as [->|Hne].
    + rewrite lookup_insert_eq. intros [= <-]. apply sublist_nil_l.
    + rewrite lookup_insert_ne by done. apply li_gone0.
Qed.

Lemma leave_inv s lost missed id frames st :
  log_inv s lost missed -> is_Some (sv_clients s !! id) -> st <> Open -> sublist frames (sv_fanned s) ->
  log_inv (leave id frames st s) lost missed.
Proof.
  intros [] [c0 Hc0] Hst Hsub. destruct li_ids0 as (Hnd & Hlt & Hcl).
  constructor; cbn [leave sv_bus sv_clients sv_logged sv_fanned lb_ch lb_source lb_sourceDropped lb_out on_source
    Observable.ob_subs Observable.ob_dropped Observable.ob_next Observable.unsub]; try done.
  - split_and!.
    + eapply sublist_NoDup; [exact Hnd|]. apply fmap_sublist, sublist_filter.
    + rewrite Forall_forall in Hlt |- *. intros i (x & -> & [_ Hx]%list_elem_of_filter)%list_elem_of_fmap.
      apply Hlt, list_elem_of_fmap. by exists x.
    + intros i c. destruct (decide (i = id)) as [->|Hne]; [intros _; by eapply Hcl|].
      rewrite lookup_insert_ne by done. apply Hcl.
  - intros i fr. destruct (decide (i = id)) as [->|Hne]; [rewrite lookup_insert_eq; naive_solver|].
    rewrite lookup_insert_ne by done. intros (c & Hc & Hf)%li_open0. exists c. split; [|done].
    by apply list_elem_of_filter.
  - intros i c. destruct (decide (i = id)) as [->|Hne]; [rewrite lookup_insert_eq; by intros [= <-]|].
    rewrite lookup_insert_ne by done. apply li_gone0.
Qed.

Lemma find_sub id c (l : list (nat * chan Event)) :
  NoDup l.*1 -> (id, c) ∈ l -> List.find (fun s => bool_decide (s.1 = id)) l = Some (id, c).
Proof.
  induction l as [|[i x] l IH]; intros Hnd Hin; [by apply not_elem_of_nil in Hin|]. cbn in Hnd.
  apply NoDup_cons in Hnd as [Hi Hnd]. cbn [List.find fst]. case_bool_decide as Hid.
  - subst i. apply elem_of_cons in Hin as [[= ->]|Hin]; [done|]. destruct Hi. apply list_elem_of_fmap. by exists (id, c).
  - apply IH; [done|]. apply elem_of_cons in Hin as [[= ? ?]|Hin]; [congruence|done].
Qed.

(** The channel of one subscriber replaced. *)
Definition set_chan (id : nat) (c : chan Event) (l : list (nat * chan Event)) : list (nat * chan Event) :=
  (fun s => if decide (s.1 = id) then (s.1, c) else s) <$> l.

Lemma set_chan_ids id c l : (set_chan id c l).*1 = l.*1.
Proof.
  unfold set_chan. rewrite <- list_fmap_compose. apply list_fmap_ext. intros ? [i x] _. cbn. by case_decide.
Qed.

Lemma set_chan_at id c c' l : (id, c) ∈ l -> (id, c') ∈ set_chan id c' l.
Proof. intros Hin. apply list_elem_of_fmap. exists (id, c). split; [|done]. cbn. by rewrite decide_True. Qed.

Lemma set_chan_other id i c c' l : i <> id -> (i, c) ∈ l -> (i, c) ∈ set_chan id c' l.
Proof. intros Hne Hin. apply list_elem_of_fmap. exists (i, c). split; [|done]. cbn. by rewrite decide_False. Qed.

Lemma set_chan_unsub id c l : filter (fun s => s.1 <> id) (set_chan id c l) = filter (fun s => s.1 <> id) l.
Proof.
  induction l as [|[i x] l IH]; [done|]. unfold set_chan in *. rewrite fmap_cons, !filter_cons. cbn [fst].
  destruct (decide (i = id)); cbn [fst]; [by rewrite !decide_False by tauto|]. by rewrite !decide_True, IH by done.
Qed.

Lemma takeFrom_some id c ev rest o :
  NoDup (Observable.ob_subs o).*1 -> (id, c) ∈ Observable.ob_subs o -> ch_items c = ev :: rest ->
  takeFrom id o = (Some ev, Observable.mkObservable (set_chan id (mkChan (ch_cap c) rest (ch_closed c)) (Observable.ob_subs o))
                              (Observable.ob_dropped o) (Observable.ob_next o)).
Proof. intros Hnd Hin Hi. unfold takeFrom. rewrite (find_sub id c) by done. unfold try_recv. by rewrite Hi. Qed.

(** An event moves from a subscriber's channel to its frames. *)
Lemma written_inv s lost missed id frames c ev rest :
  log_inv s lost missed -> sv_clients s !! id = Some (mkClient frames Open) ->
  (id, c) ∈ Observable.ob_subs (lb_source (sv_bus s)) -> ch_items c = ev :: rest ->
  follows (sv_fanned s) frames c missed ->
  log_inv (mkServer
    (on_source (fun o => Observable.mkObservable (set_chan id (mkChan (ch_cap c) rest (ch_closed c)) (Observable.ob_subs o))
                           (Observable.ob_dropped o) (Observable.ob_next o)) (sv_bus s))
    (<[id := mkClient (frames ++ [ev]) Open]> (sv_clients s)) (sv_logged s) (sv_fanned s)) lost missed.
Proof.
  intros [] Ec Hc Ei (Hcc & pre & post & Hf & Hsub & Hall). destruct li_ids0 as (Hnd & Hlt & Hcl). rewrite Ei in Hsub, Hall.
  constructor; cbn [sv_bus sv_clients sv_logged sv_fanned lb_ch lb_source lb_sourceDropped lb_out on_source
    Observable.ob_subs Observable.ob_dropped Observable.ob_next]; try done.
  - rewrite set_chan_ids. split_and!; [done..|]. intros i x.
    destruct (decide (i = id)) as [->|Hne]; [intros _; by eapply Hcl|]. rewrite lookup_insert_ne by done. apply Hcl.
  - intros i fr. destruct (decide (i = id)) as [->|Hne].
    + rewrite lookup_insert_eq. intros [= <-]. eexists. split; [by eapply set_chan_at|].
      split; [done|]. exists pre, post. cbn [ch_items]. by rewrite <- (assoc_L (++)).
    + rewrite lookup_insert_ne by done. intros Hx. destruct (li_open0 _ _ Hx) as (c' & Hc' & Hf').
      exists c'. split; [by apply set_chan_other|done].
  - intros i x. destruct (decide (i = id)) as [->|Hne]; [|rewrite lookup_insert_ne by done; apply li_gone0].
    rewrite lookup_insert_eq. intros [= <-]. cbn. rewrite Hf. apply sublist_inserts_l.
    etrans; [|exact Hsub]. apply sublist_app; [done|]. apply sublist_skip, sublist_nil_l.
Qed.

Lemma relay_inv s lost missed id written :
  log_inv s lost missed -> log_inv (step (OpRelay id written) s) lost missed.
Proof.
  intros Hi. cbn [step]. destruct (sv_clients s !! id) as [[frames []]|] eqn:Ec; [|done..].
  destruct (li_open _ _ _ Hi _ _ Ec) as (c & Hc & Hf). pose proof (proj1 (li_ids _ _ _ Hi)) as Hnd.
  destruct (ch_items c) as [|ev rest] eqn:Ei.
  { unfold takeFrom. rewrite (find_sub id c) by done. unfold try_recv. by rewrite Ei. }
  rewrite (takeFrom_some id c ev rest) by done. destruct written; [exact (written_inv s lost missed id frames c ev rest Hi Ec Hc Ei Hf)|].
  assert (forall x, leave id frames ClosedInternal x =
    mkServer (on_source (Observable.unsub id) (sv_bus x)) (<[id := mkClient frames ClosedInternal]> (sv_clients x))
      (sv_logged x) (sv_fanned x)) as Hx by done.
  rewrite Hx. unfold on_source, Observable.unsub. cbn. rewrite set_chan_unsub.
  apply (leave_inv s lost missed id frames ClosedInternal); [done|by eexists|done|].
  exact (li_gone _ _ _ Hi _ _ Ec).
Qed.

Lemma step_inv o s lost missed :
  log_inv s lost missed -> exists lost' missed', log_inv (step o s) lost' missed'.
Proof.
  intros Hi. destruct o as [r|l now payload|l| | |id w|id].
  - destruct (slogLog_inv s lost missed r Hi) as [lost' ?]. eauto.
  - cbn [step]. destruct (pushLog_slog l now payload (sv_bus s)) as [->|[r ->]].
    + exists lost, missed. rewrite drop_all, (right_id_L [] (++)). by destruct s.
    + rewrite slogLog_out. destruct (slogLog_inv s lost missed r Hi) as [lost' ?]. exists lost', missed.
      by destruct (Enabled _ _); rewrite ?(right_id_L [] (++)).
  - exists lost, missed. destruct Hi. by constructor.
  - destruct (pump_inv s lost missed Hi) as [missed' ?]. eauto.
  - eauto using accept_inv.
  - eauto using relay_inv.
  - cbn [step]. destruct (sv_clients s !! id) as [[frames []]|] eqn:Ec; [|eauto..].
    exists lost, missed. apply leave_inv; [done|by eexists|done|]. exact (li_gone _ _ _ Hi _ _ Ec).
Qed.

