(* ===== verification/OfflineBuffer.v ===== *)
(** * The offline buffer ([engine/offlinebuffer.go])

    Failed publish batches are files of a directory, one JSON document each,
    named by their sequence number.  The directory is a map from names to
    entries; the encoding of a batch is a parameter ([EntryCodec]), and the
    faults of the file system are arguments of the operations. *)

From Stdlib Require Import ZArith Lia String Ascii.
From stdpp Require Import base list gmap strings sorting.
From S2P Require Import Prelude GoFloat Types.

Open Scope Z_scope.

Record offlineEntry := mkEntry {
  oe_Seq : Z;
  oe_Time : Z;
  oe_Points : list DataPoint;
  oe_Source : string;
}.

(** [json.Marshal] and [json.Unmarshal] of an entry. *)
Class EntryCodec (data : Type) := {
  marshal : offlineEntry -> option data;
  unmarshal : data -> option offlineEntry;
}.

Inductive dirent (data : Type) := DDir | DFile (d : data).
Arguments DDir {data}.
Arguments DFile {data} _.

Record OfflineBuffer (data : Type) := mkOB {
  ob_files : gmap string (dirent data);
  ob_maxEntries : Z;
  ob_nextSeq : Z;
  ob_drainCount : Z;
  ob_evictCount : Z;
}.
Arguments mkOB {data} _ _ _ _ _.
Arguments ob_files {data} _.
Arguments ob_maxEntries {data} _.
Arguments ob_nextSeq {data} _.
Arguments ob_drainCount {data} _.
Arguments ob_evictCount {data} _.

(** ** File names *)

Fixpoint zeros (n : nat) (s : string) : string :=
  match n with O => s | S n' => String "0" (zeros n' s) end.

(** [fmt.Sprintf("%010d.json", seq)]. *)
Definition seqFileName (seq : Z) : string :=
  zeros (10 - String.length (decimal seq)) (decimal seq) +:+ ".json".

(** [strings.TrimSuffix]. *)
Fixpoint trim_suffix (suf s : string) : string :=
  if decide (s = suf) then EmptyString
  else match s with
       | EmptyString => EmptyString
       | String c s' => String c (trim_suffix suf s')
       end.

Fixpoint has_suffix (suf s : string) : bool :=
  if decide (s = suf) then true
  else match s with EmptyString => false | String _ s' => has_suffix suf s' end.

Definition parseSeqFile (name : string) : option Z := ParseUint (trim_suffix ".json" name) 64.

Section ops.
Context {data : Type} `{EntryCodec data}.
Implicit Types (files : gmap string (dirent data)) (ob : OfflineBuffer data).

(** The sequence numbers of the files of a directory. *)
Definition dir_seqs files : list Z :=
  omap (fun e => match e with
                 | (_, DDir) => None
                 | (name, DFile _) => parseSeqFile name
                 end) (map_to_list files).

Definition sort_seqs (l : list Z) : list Z := stable_sort (fun a b => bool_decide (a < b)) l.

Definition scanMaxSeq files : Z := foldl Z.max 0 (dir_seqs files).

(** [NewOfflineBuffer] on a directory that exists. *)
Definition NewOfflineBuffer files (maxEntries : Z) : OfflineBuffer data :=
  let maxEntries := if decide (maxEntries <= 0) then DefaultOfflineBufferMaxEntries
                    else maxEntries in
  mkOB files maxEntries (u64 (scanMaxSeq files + 1)) 0 0.

(** [os.Remove]; [ok] says whether the file system allows it. *)
Definition os_remove (ok : string -> bool) (path : string) files
    : gmap string (dirent data) * bool :=
  match files !! path with
  | Some (DFile _) => if ok path then (delete path files, true) else (files, false)
  | _ => (files, false)
  end.

(** The eviction loop over the sorted sequence numbers. *)
Fixpoint evict_loop (ok : string -> bool) (maxEntries : Z) (seqs : list Z)
    files (evicted : Z) : gmap string (dirent data) * Z :=
  if decide (maxEntries <= Z.of_nat (length seqs)) then
    match seqs with
    | [] => (files, evicted)
    | oldest :: rest =>
        let '(files, removed) := os_remove ok (seqFileName oldest) files in
        evict_loop ok maxEntries rest files (if removed then u64 (evicted + 1) else evicted)
    end
  else (files, evicted).

Definition evictIfNeeded (ok : string -> bool) ob : OfflineBuffer data :=
  let '(files, ev) :=
    evict_loop ok (ob_maxEntries ob) (sort_seqs (dir_seqs (ob_files ob)))
      (ob_files ob) (ob_evictCount ob) in
  mkOB files (ob_maxEntries ob) (ob_nextSeq ob) (ob_drainCount ob) ev.

(** Where writing the file fails, and the error; after a failed step the
    temporary file is removed.  The directory sync is only logged. *)
Inductive push_fault := NoFault | FCreate (e : error) | FWrite (e : error) | FSync (e : error)
| FClose (e : error) | FRename (e : error).

Definition Push (ok : string -> bool) (fault : push_fault) (now : Z)
    (points : list DataPoint) (source : string) ob : OfflineBuffer data * option error :=
  match points with
  | [] => (ob, None)
  | _ =>
      let ob := evictIfNeeded ok ob in
      let seq := ob_nextSeq ob in
      let ob := mkOB (ob_files ob) (ob_maxEntries ob) (u64 (seq + 1)) (ob_drainCount ob)
                  (ob_evictCount ob) in
      match marshal (mkEntry seq now points source) with
      | None => (ob, Some (ErrFmt "offline buffer: marshal"))
      | Some d =>
          let failed what e := (ob, Some (ErrWrap ("offline buffer: " +:+ what +:+ ": ") e "")) in
          match fault with
          | FCreate e => failed "create"%string e
          | FWrite e => failed "write"%string e
          | FSync e => failed "fsync"%string e
          | FClose e => failed "close"%string e
          | FRename e => failed "rename"%string e
          | NoFault =>
              (mkOB (<[seqFileName seq := DFile d]> (ob_files ob)) (ob_maxEntries ob)
                 (ob_nextSeq ob) (ob_drainCount ob) (ob_evictCount ob), None)
          end
      end
  end.

(** ** Draining *)

(** The faults of a drain: reads that fail with something else than a missing
    file, and removals that fail. *)
Record drain_faults := mkFaults {
  df_read : string -> option error;
  df_remove : string -> bool;
}.

(** [publish k] says whether the [k]-th call of [tryPublish] succeeds.  The
    loop gives the files, the batches handed to [tryPublish], the number
    drained and the error. *)
Fixpoint drain_loop (ft : drain_faults) (publish : nat -> bool) (source : string)
    (seqs : list Z) files (calls : list (list DataPoint)) (drained : Z)
    : gmap string (dirent data) * list (list DataPoint) * Z * option error :=
  match seqs with
  | [] => (files, calls, drained, None)
  | seq :: rest =>
      let path := seqFileName seq in
      match df_read ft path with
      | Some e => (files, calls, drained, Some (ErrWrap "offline buffer: read entry: " e ""))
      | None =>
          match files !! path with
          | Some (DFile d) =>
              match unmarshal d with
              | None =>
                  drain_loop ft publish source rest (os_remove (df_remove ft) path files).1
                    calls drained
              | Some entry =>
                  if decide (oe_Source entry = source) then
                    if publish (length calls) then
                      drain_loop ft publish source rest
                        (os_remove (df_remove ft) path files).1
                        (calls ++ [oe_Points entry]) (drained + 1)
                    else (files, calls ++ [oe_Points entry], drained, None)
                  else drain_loop ft publish source rest files calls drained
              end
          | Some DDir =>
              (files, calls, drained,
               Some (ErrWrap "offline buffer: read entry: " (ErrNew "is a directory") ""))
          | None => drain_loop ft publish source rest files calls drained
          end
      end
  end.

Definition Drain (ft : drain_faults) (publish : nat -> bool) (source : string) ob
    : OfflineBuffer data * list (list DataPoint) * Z * option error :=
  let '(files, calls, drained, err) :=
    drain_loop ft publish source (sort_seqs (dir_seqs (ob_files ob))) (ob_files ob) [] 0 in
  (mkOB files (ob_maxEntries ob) (ob_nextSeq ob) (u64 (ob_drainCount ob + drained))
     (ob_evictCount ob), calls, drained, err).

(** [Len] counts the files with the suffix, whatever their names parse to. *)
Definition is_json (e : string * dirent data) : bool :=
  match e.2 with DFile _ => has_suffix ".json" e.1 | DDir => false end.

Definition Len ob : nat :=
  length (filter (fun e => is_json e = true) (map_to_list (ob_files ob))).
End ops.

(** ** File names round trip *)

Lemma parse_zeros n s : parse_digits 0 (zeros n s) = parse_digits 0 s.
Proof. induction n as [|n IH]; [done|]. cbn [zeros parse_digits]. by rewrite <- IH. Qed.

Lemma trim_suffix_app suf a :
  suf <> EmptyString -> trim_suffix suf (a +:+ suf) = a.
Proof.
  intros Hs. induction a as [|c a IH]; simpl.
  - destruct suf; [done|]. simpl. by rewrite decide_True.
  - rewrite decide_False; [by rewrite IH|]. intros E. apply (f_equal String.length) in E.
    simpl in E. rewrite str_app_length in E. lia.
Qed.

Lemma parse_seqFileName n : 0 <= n < 2 ^ 64 -> parseSeqFile (seqFileName n) = Some n.
Proof.
  intros Hn. unfold parseSeqFile, seqFileName. rewrite trim_suffix_app by done.
  unfold ParseUint. set (s := zeros _ _).
  assert (parse_digits 0 s = Some n) as Hp.
  { unfold s. rewrite parse_zeros. unfold decimal. rewrite dec_go_parse; [done|lia|lia]. }
  assert (s <> EmptyString) as Hne.
  { unfold s. destruct (10 - _)%nat; [|done]. simpl. apply dec_go_nonempty. lia. }
  destruct s; [done|]. rewrite Hp. by rewrite decide_True by lia.
Qed.

Lemma seqFileName_inj a b :
  0 <= a < 2 ^ 64 -> 0 <= b < 2 ^ 64 -> seqFileName a = seqFileName b -> a = b.
Proof.
  intros Ha Hb E. pose proof (parse_seqFileName a Ha) as E1. rewrite E in E1.
  rewrite (parse_seqFileName b Hb) in E1. congruence.
Qed.

Section props.
Context {data : Type} `{EntryCodec data}.
Implicit Types (files : gmap string (dirent data)) (ob : OfflineBuffer data).

(** Every file whose name is a number has the name this buffer gives it. *)
Definition dir_wf files : Prop :=
  forall name d s, files !! name = Some (DFile d) -> parseSeqFile name = Some s ->
  name = seqFileName s /\ 0 <= s < 2 ^ 64.

Definition entry_at files (s : Z) : option data :=
  match files !! seqFileName s with Some (DFile d) => Some d | _ => None end.

Lemma elem_dir_seqs files s :
  dir_wf files -> s ∈ dir_seqs files <-> 0 <= s < 2 ^ 64 /\ entry_at files s <> None.
Proof.
  intros Hwf. unfold dir_seqs, entry_at. rewrite list_elem_of_omap. split.
  - intros ([name [|d]] & Hin & Hp); [done|]. apply elem_of_map_to_list in Hin.
    destruct (Hwf name d s Hin Hp) as [-> Hs]. by rewrite Hin.
  - intros [Hs He]. destruct (files !! seqFileName s) as [[|d]|] eqn:E; try done.
    exists (seqFileName s, DFile d). split; [by apply elem_of_map_to_list|].
    by apply parse_seqFileName.
Qed.

Lemma NoDup_dir_seqs files : dir_wf files -> NoDup (dir_seqs files).
Proof.
  intros Hwf. unfold dir_seqs. pose proof (NoDup_map_to_list files) as Hnd.
  assert (forall e, e ∈ map_to_list files -> files !! e.1 = Some e.2) as Hin
    by (intros [n e]; apply elem_of_map_to_list).
  induction Hnd as [|[name e] l Hn Hnd IH]; [constructor|].
  assert (NoDup (omap (fun e => match e with (_, DDir) => None | (name, DFile _) => parseSeqFile name end) l)) as IHl
    by (apply IH; intros; apply Hin; by constructor).
  simpl. destruct e as [|d]; [done|]. destruct (parseSeqFile name) as [s|] eqn:Ep; [|done].
  constructor; [|done]. rewrite list_elem_of_omap. intros ([name' [|d']] & Hl & Hp'); [done|].
  assert (files !! name = Some (DFile d)) as E1 by (apply (Hin (name, DFile d)); constructor).
  assert (files !! name' = Some (DFile d')) as E2 by (apply (Hin (name', DFile d')); by constructor).
  destruct (Hwf _ _ _ E1 Ep) as [-> _], (Hwf _ _ _ E2 Hp') as [-> _].
  rewrite E1 in E2. apply Hn. by simplify_eq.
Qed.

(** The sequence numbers in order. *)
Definition seqs files : list Z := sort_seqs (dir_seqs files).

Lemma seqs_sorted files : StronglySorted Z.le (seqs files).
Proof. apply (stable_sort_sorted (fun z => z)). Qed.

Lemma seqs_perm files : seqs files ≡ₚ dir_seqs files.
Proof. apply stable_sort_perm. Qed.

Lemma elem_seqs files s :
  dir_wf files -> s ∈ seqs files <-> 0 <= s < 2 ^ 64 /\ entry_at files s <> None.
Proof. intros. rewrite seqs_perm. by apply elem_dir_seqs. Qed.

Lemma NoDup_seqs files : dir_wf files -> NoDup (seqs files).
Proof. intros. rewrite seqs_perm. by apply NoDup_dir_seqs. Qed.

(** Two directories with the same entries in order. *)
Lemma seqs_unique files l :
  dir_wf files -> NoDup l -> StronglySorted Z.le l ->
  (forall s, s ∈ l <-> 0 <= s < 2 ^ 64 /\ entry_at files s <> None) -> seqs files = l.
Proof.
  intros Hwf Hnd Hs Hin. apply (StronglySorted_unique Z.le); [apply seqs_sorted|done|].
  apply NoDup_Permutation; [by apply NoDup_seqs|done|]. intros s. by rewrite elem_seqs, Hin.
Qed.

Definition delete_seqs (l : list Z) files : gmap string (dirent data) :=
  foldl (fun f s => delete (seqFileName s) f) files l.

Lemma entry_at_delete files s s' :
  0 <= s < 2 ^ 64 -> 0 <= s' < 2 ^ 64 ->
  entry_at (delete (seqFileName s) files) s' = if decide (s = s') then None else entry_at files s'.
Proof.
  intros Hs Hs'. unfold entry_at. case_decide as E; [subst; by rewrite lookup_delete_eq|].
  rewrite lookup_delete_ne; [done|]. intros ?%seqFileName_inj; done.
Qed.

Lemma entry_at_delete_seqs l files s :
  Forall (fun x => 0 <= x < 2 ^ 64) l -> 0 <= s < 2 ^ 64 ->
  entry_at (delete_seqs l files) s = if decide (s ∈ l) then None else entry_at files s.
Proof.
  intros Hl Hs. revert files. induction Hl as [|x l Hx _ IH]; intros files.
  { by rewrite decide_False by apply not_elem_of_nil. }
  simpl. rewrite IH, entry_at_delete by done.
  destruct (decide (s ∈ l)); [by rewrite decide_True by (by constructor)|].
  destruct (decide (x = s)) as [->|Hn]; [by rewrite decide_True by constructor|].
  rewrite decide_False; [done|]. intros [->|?]%elem_of_cons; done.
Qed.

Lemma dir_wf_delete files name : dir_wf files -> dir_wf (delete name files).
Proof. intros Hwf n d s [_ Hn]%lookup_delete_Some Hp. by eapply Hwf. Qed.

Lemma dir_wf_delete_seqs l files : dir_wf files -> dir_wf (delete_seqs l files).
Proof.
  revert files. induction l as [|x l IH]; intros files Hwf; [done|]. simpl.
  by apply IH, dir_wf_delete.
Qed.

Lemma dir_wf_insert files s d :
  0 <= s < 2 ^ 64 -> dir_wf files -> dir_wf (<[seqFileName s := DFile d]> files).
Proof.
  intros Hs Hwf n d' s' [[<- [= <-]]|[Hn Hl]]%lookup_insert_Some Hp.
  - rewrite parse_seqFileName in Hp by done. by simplify_eq.
  - by eapply Hwf.
Qed.

Lemma evict_loop_spec max l files ev :
  1 <= max -> 0 <= ev < 2 ^ 64 -> NoDup l ->
  Forall (fun s => 0 <= s < 2 ^ 64 /\ entry_at files s <> None) l ->
  let k := Z.to_nat (Z.of_nat (length l) + 1 - max) in
  evict_loop (fun _ => true) max l files ev
  = (delete_seqs (take k l) files, u64 (ev + Z.of_nat k)).
Proof.
  intros Hmax Hev Hnd. revert files ev Hev. induction Hnd as [|s l Hs Hnd IH]; intros files ev Hev Hf.
  { simpl. rewrite decide_False by lia. rewrite firstn_nil. simpl.
    rewrite wrapu_small by lia. f_equal. lia. }
  inversion_clear Hf as [|? ? [Hr He] Hf']. cbn [evict_loop].
  case_decide as Hc; cbn [length] in *.
  - unfold entry_at in He. unfold os_remove.
    destruct (files !! seqFileName s) as [[|d]|] eqn:El; try done.
    rewrite IH.
    + replace (Z.to_nat (Z.of_nat (S (length l)) + 1 - max))
        with (S (Z.to_nat (Z.of_nat (length l) + 1 - max))) by lia.
      cbn [take]. f_equal. unfold wrapu. rewrite Zplus_mod_idemp_l. f_equal. lia.
    + apply wrapu_range. lia.
    + rewrite Forall_forall in Hf' |- *. intros s' Hs'. destruct (Hf' s' Hs') as [Hr' He'].
      split; [done|]. rewrite entry_at_delete by done. rewrite decide_False; [done|].
      by intros ->.
  - replace (Z.to_nat _) with 0%nat by lia. simpl. rewrite wrapu_small by lia. f_equal. lia.
Qed.

(** What a buffer keeps true of its directory. *)
Record ob_inv ob : Prop := {
  oi_wf : dir_wf (ob_files ob);
  oi_max : 1 <= ob_maxEntries ob;
  oi_next : 0 <= ob_nextSeq ob < 2 ^ 64 /\ Forall (fun s => s < ob_nextSeq ob) (seqs (ob_files ob));
  oi_evict : 0 <= ob_evictCount ob < 2 ^ 64;
}.

(** The directory after evicting the [k] oldest files and storing file [next]. *)
Section stored.
Context (files : gmap string (dirent data)) (k : nat) (next : Z) (d : data).
Hypothesis Hwf : dir_wf files.
Hypothesis Hnext : 0 <= next < 2 ^ 64.
Hypothesis Hlt : Forall (fun s => s < next) (seqs files).

Definition stored : gmap string (dirent data) :=
  <[seqFileName next := DFile d]> (delete_seqs (take k (seqs files)) files).

Lemma stored_wf : dir_wf stored.
Proof. by apply dir_wf_insert, dir_wf_delete_seqs. Qed.

Lemma seqs_range s : s ∈ seqs files -> 0 <= s < 2 ^ 64 /\ entry_at files s <> None /\ s < next.
Proof.
  intros Hs. pose proof Hs as Hs'. apply elem_seqs in Hs' as [Hr He]; [|done].
  rewrite Forall_forall in Hlt. by specialize (Hlt s Hs).
Qed.

Lemma stored_new : entry_at stored next = Some d.
Proof. unfold entry_at, stored. by rewrite lookup_insert_eq. Qed.

Lemma stored_old s :
  0 <= s < 2 ^ 64 -> s <> next ->
  entry_at stored s = if decide (s ∈ take k (seqs files)) then None else entry_at files s.
Proof.
  intros Hs Hn. rewrite <- (entry_at_delete_seqs (take k (seqs files)) files s); [|..|done].
  - unfold entry_at at 1, stored. rewrite lookup_insert_ne; [done|].
    intros E%seqFileName_inj; congruence.
  - apply Forall_take, Forall_forall. intros x Hx. by apply seqs_range in Hx as [? _].
Qed.

Lemma stored_kept s : s ∈ drop k (seqs files) -> s ∈ seqs files /\ s ∉ take k (seqs files).
Proof.
  pose proof (NoDup_seqs files Hwf) as Hnd. rewrite <- (take_drop k (seqs files)) in Hnd.
  apply NoDup_app in Hnd as (_ & Hdisj & _). intros Hs. split.
  - rewrite <- (take_drop k (seqs files)). apply elem_of_app. by right.
  - intros Ht. by eapply Hdisj.
Qed.

Lemma stored_kept_entry s : s ∈ drop k (seqs files) -> entry_at stored s = entry_at files s.
Proof.
  intros [Hs Hk]%stored_kept. apply seqs_range in Hs as (Hr & _ & Hl).
  rewrite stored_old, decide_False by (done || lia). done.
Qed.

Lemma stored_seqs : seqs stored = drop k (seqs files) ++ [next].
Proof.
  apply seqs_unique; [apply stored_wf|..].
  - apply NoDup_app. split_and!; [|intros s Hs ->%list_elem_of_singleton|apply NoDup_singleton].
    + pose proof (NoDup_seqs files Hwf) as Hnd. rewrite <- (take_drop k (seqs files)) in Hnd.
      by apply NoDup_app in Hnd as (_ & _ & ?).
    + apply stored_kept in Hs as [Hs _]. apply seqs_range in Hs. lia.
  - apply StronglySorted_app_2; [| |by repeat constructor].
    + intros s1 s2 [H1 _]%stored_kept ->%list_elem_of_singleton. apply seqs_range in H1. lia.
    + eapply (StronglySorted_app_1_r Z.le (take k (seqs files))). rewrite take_drop. apply seqs_sorted.
  - intros s. rewrite elem_of_app, list_elem_of_singleton.
    destruct (decide (s = next)) as [->|Hn]; [rewrite stored_new; naive_solver|]. split.
    + intros [Hs|]; [|done]. rewrite stored_kept_entry by done.
      apply stored_kept in Hs as [Hs _]. apply seqs_range in Hs. naive_solver.
    + intros [Hr He]. left. rewrite stored_old in He by done. case_decide as Ht; [done|].
      assert (s ∈ seqs files) as Hs by (by apply elem_seqs).
      rewrite <- (take_drop k (seqs files)) in Hs. apply elem_of_app in Hs as [?|?]; done.
Qed.
End stored.

(** Pushing a batch on a healthy file system keeps the newest
    batches: the sequence numbers on disk afterwards are the newest
    [maxEntries] of the old ones and the new one, in order; what was kept is
    unchanged, the new batch is stored under its number, the eviction counter
    grew by exactly the number of batches dropped, and the buffer's invariant
    holds again while numbers last. *)
Theorem offline_push_keeps_newest ob now p points source d :
  ob_inv ob -> marshal (mkEntry (ob_nextSeq ob) now (p :: points) source) = Some d ->
  let old := seqs (ob_files ob) in
  let k := Z.to_nat (Z.of_nat (length old) + 1 - ob_maxEntries ob) in
  let '(ob', err) := Push (fun _ => true) NoFault now (p :: points) source ob in
  err = None /\
  seqs (ob_files ob') = drop k old ++ [ob_nextSeq ob] /\
  Z.of_nat (length (seqs (ob_files ob'))) <= ob_maxEntries ob /\
  entry_at (ob_files ob') (ob_nextSeq ob) = Some d /\
  Forall (fun s => entry_at (ob_files ob') s = entry_at (ob_files ob) s) (drop k old) /\
  ob_evictCount ob' = u64 (ob_evictCount ob + Z.of_nat k) /\
  (ob_nextSeq ob + 1 < 2 ^ 64 -> ob_inv ob').
Proof.
  intros [Hwf Hmax [Hnext Hlt] Hev] Hm old k.
  unfold Push, evictIfNeeded. change (sort_seqs (dir_seqs (ob_files ob))) with old.
  rewrite (evict_loop_spec (ob_maxEntries ob) old (ob_files ob) (ob_evictCount ob));
    [|done|done|by apply NoDup_seqs|apply Forall_forall; intros s Hs; by apply elem_seqs].
  fold k. cbn [ob_files ob_maxEntries ob_nextSeq ob_drainCount ob_evictCount]. rewrite Hm.
  change (<[seqFileName (ob_nextSeq ob):=DFile d]> (delete_seqs (take k old) (ob_files ob)))
    with (stored (ob_files ob) k (ob_nextSeq ob) d).
  cbn [ob_files ob_evictCount]. rewrite stored_seqs by done. split_and!; try done.
  - rewrite length_app, length_drop. unfold k, old. cbn [length]. lia.
  - apply stored_new.
  - apply Forall_forall. intros s Hs. by apply stored_kept_entry.
  - intros Hov. split; simpl; [by apply stored_wf|done| |apply wrapu_range; lia].
    rewrite wrapu_small by lia. split; [lia|]. rewrite stored_seqs by done. apply Forall_app. split.
    + apply Forall_drop. eapply Forall_impl; [done|]. simpl. intros. lia.
    + repeat constructor. lia.
Qed.

(** A buffer opened on the directory of an earlier run
    numbers its batches above every batch found there, so a restart never
    overwrites one (below the last 64-bit number). *)
Theorem offline_restart_fresh files max :
  dir_wf files -> Forall (fun s => s < 2 ^ 64 - 1) (seqs files) ->
  ob_inv (NewOfflineBuffer files max) /\ seqs (ob_files (NewOfflineBuffer files max)) = seqs files.
Proof.
  intros Hwf Hb. split; [|done].
  assert (forall l a, Forall (fun s => s <= foldl Z.max a l) l /\ a <= foldl Z.max a l /\
    (0 <= a < 2 ^ 64 - 1 -> Forall (fun s => s < 2 ^ 64 - 1) l -> 0 <= foldl Z.max a l < 2 ^ 64 - 1)) as Hfold.
  { induction l as [|x l IH]; intros a; simpl; [split_and!; [constructor|lia|lia]|].
    destruct (IH (Z.max a x)) as (H1 & H2 & H3). split_and!; [constructor; [lia|done]|lia|].
    intros Ha Hx. inversion_clear Hx. apply H3; [lia|done]. }
  destruct (Hfold (dir_seqs files) 0) as (H1 & _ & H3).
  rewrite seqs_perm in Hb. specialize (H3 ltac:(lia) Hb).
  split; simpl; [done|case_decide; unfold DefaultOfflineBufferMaxEntries; lia| |lia].
  unfold scanMaxSeq. rewrite wrapu_small by lia. split; [lia|]. rewrite seqs_perm.
  eapply Forall_impl; [done|]. simpl. intros. lia.
Qed.

(** ** Draining *)

(** What one transport owns at a sequence number, and what a drain clears. *)
Definition owned files (source : string) (s : Z) : option (list DataPoint) :=
  d ← entry_at files s; e ← unmarshal d;
  if decide (oe_Source e = source) then Some (oe_Points e) else None.

Definition foreign files (source : string) (s : Z) : Prop :=
  exists d e, entry_at files s = Some d /\ unmarshal d = Some e /\ oe_Source e <> source.

#[export] Instance foreign_dec files (source : string) (s : Z) : Decision (foreign files source s).
Proof.
  unfold foreign. destruct (entry_at files s) as [d|]; [|right; naive_solver].
  destruct (unmarshal d) as [e|] eqn:E; [|right; naive_solver].
  destruct (decide (oe_Source e = source)); [right|left]; naive_solver.
Defined.

(** A drain that went through [pre] and stopped in front of [post]. *)
Record drain_result files (source : string) (publish : nat -> bool) (base : nat) (l pre post : list Z)
    (calls : list (list DataPoint)) (drained : Z) files' : Prop := {
  dr_split : l = pre ++ post;
  dr_ok : forall i, (base <= i < base + length (omap (owned files source) pre))%nat -> publish i = true;
  dr_drained : drained = Z.of_nat (length (omap (owned files source) pre));
  dr_calls :
    (post = [] /\ calls = omap (owned files source) pre) \/
    (exists s rest pts, post = s :: rest /\ owned files source s = Some pts /\
       publish (base + length (omap (owned files source) pre))%nat = false /\
       calls = omap (owned files source) pre ++ [pts]);
  dr_files : files' = delete_seqs (filter (fun s => ~ foreign files source s) pre) files;
}.

Definition healthy : drain_faults := mkFaults (fun _ => None) (fun _ => true).

Lemma owned_delete files s s' :
  0 <= s < 2 ^ 64 -> 0 <= s' < 2 ^ 64 -> s <> s' ->
  entry_at (delete (seqFileName s) files) s' = entry_at files s'.
Proof. intros. by rewrite entry_at_delete, decide_False. Qed.

Lemma omap_owned_agree files1 files2 source (l : list Z) :
  (forall s, s ∈ l -> entry_at files1 s = entry_at files2 s) ->
  omap (owned files1 source) l = omap (owned files2 source) l /\
  filter (fun s => ~ foreign files1 source s) l = filter (fun s => ~ foreign files2 source s) l.
Proof.
  intros Hl. induction l as [|s l IH]; [done|].
  destruct IH as [IH1 IH2]; [intros; apply Hl; by constructor|].
  assert (entry_at files1 s = entry_at files2 s) as E by (apply Hl; constructor). split.
  - assert (owned files1 source s = owned files2 source s) as Eo by (unfold owned; by rewrite E).
    simpl. rewrite Eo. destruct (owned files2 source s); [f_equal|]; exact IH1.
  - assert (foreign files1 source s <-> foreign files2 source s) as Ef by (unfold foreign; by rewrite E).
    rewrite !filter_cons, IH2. repeat case_decide; naive_solver.
Qed.

Lemma drain_result_cons files files1 source publish base s l pre post calls n files' :
  let o := option_list (owned files source s) in
  drain_result files1 source publish (base + length o) l pre post calls n files' ->
  (forall s', s' ∈ l -> entry_at files1 s' = entry_at files s') ->
  (owned files source s <> None -> publish base = true) ->
  files1 = delete_seqs (filter (fun s => ~ foreign files source s) [s]) files ->
  drain_result files source publish base (s :: l) (s :: pre) post (o ++ calls)
    (Z.of_nat (length o) + n) files'.
Proof.
  intros o [Hl Hok Hn Hc Hf] Hag Hp Hf1.
  destruct (omap_owned_agree files1 files source pre) as [E1 E2].
  { intros s' Hs'. apply Hag. rewrite Hl. apply elem_of_app. by left. }
  rewrite E1 in *. rewrite E2 in Hf.
  assert (omap (owned files source) (s :: pre) = o ++ omap (owned files source) pre) as E.
  { unfold o. simpl. by destruct (owned files source s). }
  split; rewrite ?E, ?length_app in *.
  - by rewrite Hl.
  - intros k Hk. destruct (decide (k < base + length o)%nat) as [Hlt|]; [|apply Hok; lia].
    unfold o in *. destruct (owned files source s); simpl in *; [|lia].
    replace k with base by lia. by apply Hp.
  - lia.
  - destruct Hc as [[-> ->]|(s' & rest & pts & -> & Ho & Hfail & ->)]; [by left|right].
    exists s', rest, pts. split_and!; [done| |by rewrite Nat.add_assoc|by rewrite app_assoc].
    unfold owned in Ho |- *. rewrite <- Hag; [done|]. rewrite Hl. apply elem_of_app. right. constructor.
  - rewrite Hf, Hf1. unfold delete_seqs. rewrite <- foldl_app. f_equal.
    rewrite !filter_cons. by case_decide.
Qed.

Lemma drain_loop_spec publish source l files calls drained :
  NoDup l -> Forall (fun s => 0 <= s < 2 ^ 64 /\ entry_at files s <> None) l ->
  exists pre post calls' n files',
    drain_loop healthy publish source l files calls drained
    = (files', calls ++ calls', drained + n, None) /\
    drain_result files source publish (length calls) l pre post calls' n files'.
Proof.
  intros Hnd. revert files calls drained. induction Hnd as [|s l Hs Hnd IH]; intros files calls drained Hf.
  { exists [], [], [], 0, files. split; [by rewrite app_nil_r, Z.add_0_r|].
    split; simpl; [done|intros; lia|done|by left|done]. }
  inversion_clear Hf as [|? ? [Hr He] Hf']. rewrite Forall_forall in Hf'.
  assert (forall s', s' ∈ l -> entry_at (delete (seqFileName s) files) s' = entry_at files s') as Hdel.
  { intros s' Hs'. apply owned_delete; [done|by apply Hf'|by intros ->]. }
  assert (Forall (fun s' => 0 <= s' < 2 ^ 64 /\ entry_at (delete (seqFileName s) files) s' <> None) l) as Hf1.
  { apply Forall_forall. intros s' Hs'. rewrite Hdel by done. by apply Hf'. }
  cbn [drain_loop df_read healthy]. unfold entry_at in He.
  destruct (files !! seqFileName s) as [[|d]|] eqn:El; try done.
  assert (entry_at files s = Some d) as Ed by (unfold entry_at; by rewrite El).
  unfold os_remove. rewrite El. cbn [df_remove healthy fst].
  pose proof (drain_result_cons files) as Hcons.
  destruct (unmarshal d) as [e|] eqn:Eu; [destruct (decide (oe_Source e = source)) as [Es|Es]|].
  - assert (owned files source s = Some (oe_Points e)) as Eo
      by (unfold owned; rewrite Ed; simpl; rewrite Eu; simpl; by rewrite decide_True).
    destruct (publish (length calls)) eqn:Ep.
    + destruct (IH _ (calls ++ [oe_Points e]) (drained + 1) Hf1) as (pre & post & calls' & n & files' & -> & Hd).
      exists (s :: pre), post, (oe_Points e :: calls'), (1 + n), files'.
      rewrite <- app_assoc, <- Z.add_assoc. split; [done|]. rewrite length_app in Hd. simpl in Hd.
      specialize (Hcons (delete (seqFileName s) files) source publish (length calls) s l pre post calls' n files').
      rewrite Eo in Hcons. simpl in Hcons.
      apply Hcons; [done..|]. rewrite filter_cons_True; [done|]. unfold foreign. naive_solver.
    + exists [], (s :: l), [oe_Points e], 0, files. rewrite Z.add_0_r. split; [done|].
      split; simpl; [done|intros; lia|done| |done]. right. exists s, l, (oe_Points e).
      by rewrite Nat.add_0_r.
  - assert (owned files source s = None) as Eo
      by (unfold owned; rewrite Ed; simpl; rewrite Eu; simpl; by rewrite decide_False).
    destruct (IH files calls drained) as (pre & post & calls' & n & files' & -> & Hd); [by apply Forall_forall|].
    exists (s :: pre), post, calls', n, files'. split; [done|].
    specialize (Hcons files source publish (length calls) s l pre post calls' n files').
    rewrite Eo in Hcons. simpl in Hcons. rewrite Nat.add_0_r in Hcons.
    apply Hcons; [done..|]. rewrite filter_cons_False; [done|]. unfold foreign. naive_solver.
  - assert (owned files source s = None) as Eo by (unfold owned; rewrite Ed; simpl; by rewrite Eu).
    destruct (IH _ calls drained Hf1) as (pre & post & calls' & n & files' & -> & Hd).
    exists (s :: pre), post, calls', n, files'. split; [done|].
    specialize (Hcons (delete (seqFileName s) files) source publish (length calls) s l pre post calls' n files').
    rewrite Eo in Hcons. simpl in Hcons. rewrite Nat.add_0_r in Hcons.
    apply Hcons; [done..|]. rewrite filter_cons_True; [done|]. unfold foreign. naive_solver.
Qed.

Lemma seqs_delete l files :
  dir_wf files -> Forall (fun s => 0 <= s < 2 ^ 64) l ->
  seqs (delete_seqs l files) = filter (fun s => s ∉ l) (seqs files).
Proof.
  intros Hwf Hl. apply seqs_unique; [by apply dir_wf_delete_seqs|..].
  - by apply NoDup_filter, NoDup_seqs.
  - apply StronglySorted_filter, seqs_sorted.
  - intros s. rewrite list_elem_of_filter, elem_seqs by done. split.
    + intros (Hn & Hr & He). split; [done|]. by rewrite entry_at_delete_seqs, decide_False.
    + intros [Hr He]. rewrite entry_at_delete_seqs in He by done. by case_decide.
Qed.

(** A drain on a healthy file system replays exactly the
    batches of its own transport, oldest first, until the transport refuses
    one or none is left: the numbers on disk split into a part that was gone
    through and a part that was not; every own batch of the first part was
    accepted and counted, the refused one (if any) is the head of the second.
    What remains on disk is the other transports' batches of the first part
    and all of the second, each one unchanged. *)
Theorem offline_drain_exact ob publish source :
  ob_inv ob ->
  let files := ob_files ob in
  let '(ob', calls, drained, err) := Drain healthy publish source ob in
  exists pre post,
    let own := omap (owned files source) pre in
    err = None /\ seqs files = pre ++ post /\
    drained = Z.of_nat (length own) /\
    ob_drainCount ob' = u64 (ob_drainCount ob + drained) /\
    (forall i, (i < length own)%nat -> publish i = true) /\
    ((post = [] /\ calls = own) \/
     (exists s rest pts, post = s :: rest /\ owned files source s = Some pts /\
        publish (length own) = false /\ calls = own ++ [pts])) /\
    seqs (ob_files ob') = filter (foreign files source) pre ++ post /\
    Forall (fun s => entry_at (ob_files ob') s = entry_at files s) (seqs (ob_files ob')).
Proof.
  intros [Hwf _ _ _] files. unfold Drain.
  destruct (drain_loop_spec publish source (seqs files) files [] 0) as
    (pre & post & calls & n & files' & Heq & [Hl Hok Hn Hc Hf]).
  { by apply NoDup_seqs. }
  { apply Forall_forall. intros s. by apply elem_seqs. }
  change (sort_seqs (dir_seqs (ob_files ob))) with (seqs files). fold files. rewrite Heq.
  cbn [ob_files ob_drainCount app]. rewrite Z.add_0_l. exists pre, post. cbn zeta.
  pose proof (NoDup_seqs files Hwf) as Hnd. rewrite Hl in Hnd.
  apply NoDup_app in Hnd as (Hnd1 & Hdisj & _).
  assert (Forall (fun s => 0 <= s < 2 ^ 64) (filter (fun s => ~ foreign files source s) pre)) as Hr.
  { apply Forall_forall. intros s [_ Hs]%list_elem_of_filter.
    eapply elem_seqs; [exact Hwf|]. fold files. rewrite Hl. apply elem_of_app. by left. }
  assert (seqs files' = filter (foreign files source) pre ++ post) as Hseqs.
  { rewrite Hf, seqs_delete, Hl, filter_app by done. f_equal.
    - apply filter_ext_in. intros s Hs. rewrite list_elem_of_filter.
      destruct (decide (foreign files source s)); naive_solver.
    - apply filter_all, Forall_forall. intros s Hs [_ Hs']%list_elem_of_filter. by eapply Hdisj. }
  split_and!; [done|done|done|done|intros; apply Hok; simpl; lia|done|done|].
  apply Forall_forall. intros s Hs. subst files'. rewrite seqs_delete in Hs by done.
  apply list_elem_of_filter in Hs as [Hs1 Hs2]. rewrite entry_at_delete_seqs, decide_False; try done.
  by eapply elem_seqs.
Qed.
End props.

(** ** A concrete buffer *)
Module Demo.
#[local] Instance plain : EntryCodec offlineEntry := {| marshal := Some; unmarshal := Some |}.

Definition point (tag : string) : DataPoint :=
  mkDataPoint "plc" "" "g" tag (VBool true) TypeBool QualityGood 0 ∅ false.
Definition entry (s : Z) (source : string) : offlineEntry :=
  mkEntry s 0 [point source] source.
Definition dir : gmap string (dirent offlineEntry) :=
  <[seqFileName 3 := DFile (entry 3 "mqtt")]>
  (<[seqFileName 2 := DFile (entry 2 "http")]>
  (<[seqFileName 1 := DFile (entry 1 "mqtt")]> ∅)).
Definition buffer : OfflineBuffer offlineEntry := NewOfflineBuffer dir 3.

Lemma dir_ok : dir_wf dir.
Proof. repeat (apply dir_wf_insert; [lia|]). intros n d s Hn. by rewrite lookup_empty in Hn. Qed.

Lemma buffer_inv : ob_inv buffer.
Proof.
  split; [apply dir_ok|vm_compute; congruence| |vm_compute; split; congruence].
  split; [vm_compute; split; congruence|]. vm_compute. repeat constructor.
Qed.
End Demo.

Lemma offline_push_keeps_newest_witness :
  seqs (ob_files (Push (H := Demo.plain) (fun _ => true) NoFault 7 [Demo.point "x"] "http" Demo.buffer).1)
  = [2; 3; 4].
Proof.
  pose proof (offline_push_keeps_newest (H := Demo.plain) Demo.buffer 7 (Demo.point "x") [] "http"
    (mkEntry (ob_nextSeq Demo.buffer) 7 [Demo.point "x"] "http") Demo.buffer_inv eq_refl) as Hw.
  revert Hw.
  match goal with |- context [Push ?a ?b ?c ?d ?e ?f] => destruct (Push a b c d e f) as [ob' err] end.
  intros (_ & Hs & _). cbn [fst]. rewrite Hs. vm_compute. reflexivity.
Defined.

Lemma offline_restart_fresh_witness :
  ob_inv (NewOfflineBuffer Demo.dir 3) /\ seqs (ob_files (NewOfflineBuffer Demo.dir 3)) = seqs Demo.dir.
Proof.
  refine (offline_restart_fresh Demo.dir 3 Demo.dir_ok _).
  assert (seqs Demo.dir = [1; 2; 3]) as -> by (vm_compute; reflexivity). repeat constructor; lia.
Defined.

(** The second own batch is refused: the first one is gone, the rest stays. *)
Lemma offline_drain_exact_witness :
  exists pre post,
    seqs (ob_files Demo.buffer) = pre ++ post /\
    seqs (ob_files (Drain (H := Demo.plain) healthy (fun k => Nat.eqb k 0) "mqtt" Demo.buffer).1.1.1)
    = filter (foreign (H := Demo.plain) (ob_files Demo.buffer) "mqtt") pre ++ post.
Proof.
  pose proof (offline_drain_exact (H := Demo.plain) Demo.buffer (fun k => Nat.eqb k 0) "mqtt"
    Demo.buffer_inv) as Hw.
  revert Hw.
  match goal with |- context [Drain ?a ?b ?c ?d] => destruct (Drain a b c d) as [[[ob' calls] n] err] end.
  intros (pre & post & Hw).
  exists pre, post. destruct Hw as (_ & Hs & _ & _ & _ & _ & Hf & _). exact (conj Hs Hf).
Defined.
