(* ===== verification/S7.v ===== *)
(** * The S7 driver ([driver/s7])

    Address parsing, the value codec, the planner that merges tags into area
    reads, and the read and write paths.  The client library gos7 is a
    parameter: [S7Helper] for its byte helpers and [S7Lib] for the area reads
    and writes of a client [C] on a device [D]. *)

From Stdlib Require Import ZArith Lia String Ascii.
From stdpp Require Import base list gmap strings sorting.
From S2P Require Import Prelude GoFloat GoTime Types Util DriverBase.

Open Scope Z_scope.

(** ** Addresses *)

Inductive s7Area := areaDB | areaM | areaI | areaQ.

#[export] Instance s7Area_eq_dec : EqDecision s7Area.
Proof. solve_decision. Defined.

(** The value of the [iota] constant. *)
Definition area_num (a : s7Area) : Z :=
  match a with areaDB => 0 | areaM => 1 | areaI => 2 | areaQ => 3 end.

Definition s7MaxBatchSize : nat := 220.
Definition s7MergeGapLimit : Z := 32.
Definition s7MaxPDUReadLen : Z := 480.

Record s7Address := mkS7Addr {
  sa_area : s7Area;
  sa_dbNumber : Z;
  sa_start : Z;
  sa_bit : Z;
  sa_size : Z;
  sa_isBit : bool;
}.

(** *** The address syntax

    The four regular expressions are deterministic: digits are taken greedily
    and what follows a group of digits is not a digit. *)

(** The rest after a prefix in capital letters, matched case-insensitively. *)
Fixpoint strip_ci (p s : string) : option string :=
  match p, s with
  | EmptyString, _ => Some s
  | String c p', String d s' => if decide (ascii_upper d = c) then strip_ci p' s' else None
  | _, EmptyString => None
  end.

Fixpoint span_digits (s : string) : string * string :=
  match s with
  | EmptyString => (EmptyString, EmptyString)
  | String c s' =>
      match digit_val c with
      | Some _ => let '(ds, r) := span_digits s' in (String c ds, r)
      | None => (EmptyString, s)
      end
  end.

(** One letter of a class. *)
Definition letter_in (cls : list ascii) (s : string) : option (ascii * string) :=
  match s with
  | String c s' =>
      if decide (ascii_upper c ∈ cls) then Some (ascii_upper c, s') else None
  | EmptyString => None
  end.

(** [(\d+)(?:\.(\d+))?$]: the second group is empty when it is absent. *)
Definition match_offset (s : string) : option (string * string) :=
  match span_digits s with
  | (EmptyString, _) => None
  | (ds, EmptyString) => Some (ds, EmptyString)
  | (ds, String "."%char r) =>
      match span_digits r with
      | (EmptyString, _) => None
      | (bs, EmptyString) => Some (ds, bs)
      | _ => None
      end
  | _ => None
  end.

(** [reDB]: the groups m[1] to m[4]. *)
Definition reDB (s : string) : option (string * string * string * string) :=
  s ← strip_ci "DB" s;
  match span_digits s with
  | (EmptyString, _) => None
  | (m1, s) =>
      s ← strip_ci ".DB" s;
      '(kind, s) ← letter_in ["X"; "B"; "W"; "D"]%char s;
      '(m3, m4) ← match_offset s;
      Some (m1, String kind EmptyString, m3, m4)
  end.

(** [reM], [reI] and [reQ]: a letter of the area, an optional size letter and
    the offset; the groups m[1] to m[3]. *)
Definition reShort (cls : list ascii) (s : string) : option (string * string * string) :=
  '(_, s) ← letter_in cls s;
  let '(kind, s) :=
    match letter_in ["B"; "W"; "D"]%char s with
    | Some (k, s) => (String k EmptyString, s)
    | None => (EmptyString, s)
    end in
  '(m2, m3) ← match_offset s;
  Some (kind, m2, m3).

Definition reM : string -> option (string * string * string) := reShort ["M"]%char.
Definition reI : string -> option (string * string * string) := reShort ["I"; "E"]%char.
Definition reQ : string -> option (string * string * string) := reShort ["Q"; "A"]%char.

(** [strconv.Atoi] of digits with its error dropped: a value out of range is
    the largest integer. *)
Definition atoi_digits (s : string) : Z :=
  match parse_digits 0 s with Some z => Z.min z maxInt64 | None => 0 end.

Definition dataSizeForKind (kind : string) (dt : DataType) : Z :=
  if decide (kind = "X"%string) then 1
  else if decide (kind = "B"%string) then 1
  else if decide (kind = "W"%string) then 2
  else if decide (kind = "D"%string) then 4
  else match dt with
       | TypeBool => 1
       | TypeInt8 | TypeUint8 => 1
       | TypeInt16 | TypeUint16 => 2
       | TypeInt32 | TypeUint32 | TypeFloat32 => 4
       | TypeInt64 | TypeUint64 | TypeFloat64 => 8
       | _ => 2
       end.

Definition validateBitOffset (bit : Z) : res unit :=
  if decide (bit < 0 \/ bit > 7) then
    Err (ErrFmt ("s7: bit offset " +:+ itoa bit +:+ " out of range (must be 0–7)"))
  else Ok tt.

(** The branch of a short address form. *)
Definition shortAddress (area : s7Area) (m : string * string * string) (dt : DataType)
    : res s7Address :=
  let '(kind, m2, m3) := m in
  let byteOffset := atoi_digits m2 in
  let '(bitOffset, isBit) :=
    if decide (m3 <> EmptyString) then (atoi_digits m3, true)
    else if decide (kind = EmptyString) then (0, bool_decide (dt = TypeBool))
    else (0, false) in
  let! _ := validateBitOffset bitOffset in
  Ok (mkS7Addr area 0 byteOffset bitOffset (dataSizeForKind kind dt) isBit).

Definition parseS7Address (addrStr : string) (dt : DataType) : res s7Address :=
  let addrStr := TrimSpace addrStr in
  match reDB addrStr with
  | Some (m1, kind, m3, m4) =>
      let dbNum := atoi_digits m1 in
      let byteOffset := atoi_digits m3 in
      let bitOffset := if decide (m4 <> EmptyString) then atoi_digits m4 else 0 in
      let! _ := validateBitOffset bitOffset in
      Ok (mkS7Addr areaDB dbNum byteOffset bitOffset (dataSizeForKind kind dt)
            (bool_decide (kind = "X"%string)))
  | None =>
      match reM addrStr with
      | Some m => shortAddress areaM m dt
      | None =>
          match reI addrStr with
          | Some m => shortAddress areaI m dt
          | None =>
              match reQ addrStr with
              | Some m => shortAddress areaQ m dt
              | None => Err (ErrFmt ("unrecognized s7 address format: " +:+ addrStr))
              end
          end
      end
  end.

(** ** The codec *)

(** gos7's byte helpers.  A string read looks at the whole slice, its spare
    capacity included, and may index out of range. *)
Class S7Helper := {
  h_GetBoolAt : Z -> Z -> bool;
  h_SetBoolAt : Z -> Z -> bool -> Z;
  h_GetRealAt : list Z -> float;
  h_SetRealAt : list Z -> float -> list Z;
  h_GetLRealAt : list Z -> float;
  h_SetLRealAt : list Z -> float -> list Z;
  h_GetStringAt : list Z -> list Z -> res string;
}.

Definition s7RequiredSize (dt : DataType) : Z :=
  match dt with
  | TypeBool | TypeUint8 | TypeInt8 | TypeString => 1
  | TypeUint16 | TypeInt16 => 2
  | TypeUint32 | TypeInt32 | TypeFloat32 => 4
  | TypeUint64 | TypeInt64 | TypeFloat64 => 8
  | _ => 0
  end.

Section codec.
Context `{S7Helper} `{GoArch}.

(** [binary.BigEndian.UintN(buf)]: a short buffer panics. *)
Definition be_read (n : nat) (buf : list Z) : res Z :=
  if decide (length buf < n)%nat then Panic else Ok (be_uint 0 (take n buf)).

Definition decodeS7TypedValue (buf spare : list Z) (addr : s7Address) (dt : DataType)
    : res Value :=
  match dt with
  | TypeBool => let! b := go_index buf 0 in Ok (VBool (h_GetBoolAt b (sa_bit addr)))
  | TypeUint8 => let! b := go_index buf 0 in Ok (VUint8 b)
  | TypeInt8 => let! b := go_index buf 0 in Ok (VInt8 (i8 b))
  | TypeUint16 => let! v := be_read 2 buf in Ok (VUint16 v)
  | TypeInt16 => let! v := be_read 2 buf in Ok (VInt16 (i16 v))
  | TypeUint32 => let! v := be_read 4 buf in Ok (VUint32 v)
  | TypeInt32 => let! v := be_read 4 buf in Ok (VInt32 (i32 v))
  | TypeFloat32 => Ok (VFloat32 (h_GetRealAt buf))
  | TypeFloat64 => Ok (VFloat64 (h_GetLRealAt buf))
  | TypeString => let! s := h_GetStringAt buf spare in Ok (VString s)
  | _ => Err (ErrFmt ("s7: unsupported read data type: " +:+ DataType_String dt))
  end.

Definition decodeS7Buffer (buf spare : list Z) (addr : s7Address) (dt : DataType) : res Value :=
  if sa_isBit addr then
    let! b := go_index buf 0 in Ok (VBool (h_GetBoolAt b (sa_bit addr)))
  else
    let requiredSize := s7RequiredSize dt in
    if decide (requiredSize > 0 /\ Z.of_nat (length buf) < requiredSize) then
      Err (ErrFmt ("s7: buffer too small for type " +:+ DataType_String dt +:+ ": have "
             +:+ itoa (Z.of_nat (length buf)) +:+ " bytes, need " +:+ itoa requiredSize))
    else decodeS7TypedValue buf spare addr dt.

(** [binary.BigEndian.PutUintN(buf, v)] on a buffer that is long enough. *)
Definition be_store (n : nat) (v : Z) (buf : list Z) : list Z := be_put n v ++ drop n buf.

(** [copy(dst, src)]. *)
Definition go_copy (dst src : list Z) : list Z :=
  take (length dst) src ++ drop (length src) dst.

Definition encodeS7Value (v : Value) (addr : s7Address) (dt : DataType) : res (list Z) :=
  let requiredSize := s7RequiredSize dt in
  if decide (requiredSize > 0 /\ sa_size addr < requiredSize) then
    Err (ErrFmt ("s7: address buffer too small for write type " +:+ DataType_String dt
           +:+ ": have " +:+ itoa (sa_size addr) +:+ " bytes, need " +:+ itoa requiredSize))
  else if decide (sa_size addr < 0) then Panic
  else
    let buf := replicate (Z.to_nat (sa_size addr)) 0 in
    match dt with
    | TypeBool => Ok (match v with VBool true => <[0%nat := 1]> buf | _ => buf end)
    | TypeUint8 | TypeInt8 => Ok (<[0%nat := u8 (ToUint16 v)]> buf)
    | TypeUint16 | TypeInt16 => Ok (be_store 2 (ToUint16 v) buf)
    | TypeUint32 | TypeInt32 => Ok (be_store 4 (ToUint32 v) buf)
    | TypeUint64 | TypeInt64 => Ok (be_store 8 (ToUint64 v) buf)
    | TypeFloat32 => Ok (h_SetRealAt buf (ToFloat32 v))
    | TypeFloat64 => Ok (h_SetLRealAt buf (ToFloat64 v))
    | TypeBytes =>
        match v with
        | VBytes b => Ok (go_copy buf b)
        | _ => Err (ErrFmt "s7: bytes write requires []byte value")
        end
    | TypeString => Err (ErrFmt "s7: writing string is not supported")
    | _ => Err (ErrFmt ("s7: unsupported write data type: " +:+ DataType_String dt))
    end.
End codec.

(** ** The read planner *)

Record s7ReadTag := mkTag {
  rt_index : nat;
  rt_name : string;
  rt_addr : s7Address;
  rt_dt : DataType;
  rt_scale : float;
  rt_offset : float;
}.

Record s7ReadSegment := mkSeg {
  sg_area : s7Area;
  sg_dbNumber : Z;
  sg_start : Z;
  sg_length : Z;
  sg_entries : list s7ReadTag;
}.

Definition appendMergedSegment (segments : list s7ReadSegment) (area : s7Area) (dbNumber : Z)
    (tag : s7ReadTag) : list s7ReadSegment :=
  let a := rt_addr tag in
  let fresh := segments ++ [mkSeg area dbNumber (sa_start a) (sa_size a) [tag]] in
  match last segments with
  | None => fresh
  | Some cur =>
      if decide (sg_area cur = area /\ sg_dbNumber cur = dbNumber) then
        let gap := i64 (sa_start a - i64 (sg_start cur + sg_length cur)) in
        let mergedLen := i64 (i64 (sa_start a + sa_size a) - sg_start cur) in
        if decide (gap <= s7MergeGapLimit /\ mergedLen <= s7MaxPDUReadLen) then
          let len := if decide (mergedLen > sg_length cur) then mergedLen else sg_length cur in
          removelast segments ++
            [mkSeg (sg_area cur) (sg_dbNumber cur) (sg_start cur) len (sg_entries cur ++ [tag])]
        else fresh
      else fresh
  end.

(** The grouping by area and block. *)
Definition groupKey : Type := s7Area * Z.

Definition key_of (t : s7ReadTag) : groupKey := (sa_area (rt_addr t), sa_dbNumber (rt_addr t)).

(** The keys in order of first appearance. *)
Fixpoint first_keys (seen : list groupKey) (tags : list s7ReadTag) : list groupKey :=
  match tags with
  | [] => []
  | t :: rest =>
      if decide (key_of t ∈ seen) then first_keys seen rest
      else key_of t :: first_keys (key_of t :: seen) rest
  end.

Definition key_lt (a b : groupKey) : bool :=
  if decide (a.1 <> b.1) then bool_decide (area_num a.1 < area_num b.1)
  else bool_decide (a.2 < b.2).

Definition sort_group (group : list s7ReadTag) : list s7ReadTag :=
  stable_sort (fun a b => bool_decide (sa_start (rt_addr a) < sa_start (rt_addr b))) group.

Definition plan_group (tags : list s7ReadTag) (segments : list s7ReadSegment) (k : groupKey)
    : list s7ReadSegment :=
  foldl (fun segs t => appendMergedSegment segs k.1 k.2 t) segments
    (sort_group (filter (fun t => key_of t = k) tags)).

Definition planS7ReadSegments (tags : list s7ReadTag) : list s7ReadSegment :=
  foldl (plan_group tags) [] (stable_sort key_lt (first_keys [] tags)).

(** ** The client library and the driver state *)

(** An area read fills the caller's buffer of the given length; an area write
    sends the buffer. *)
Class S7Lib (D C : Type) := {
  lib_AGReadDB : C -> Z -> Z -> nat -> D -> D * (list Z + error);
  lib_AGReadMB : C -> Z -> nat -> D -> D * (list Z + error);
  lib_AGReadEB : C -> Z -> nat -> D -> D * (list Z + error);
  lib_AGReadAB : C -> Z -> nat -> D -> D * (list Z + error);
  lib_AGWriteDB : C -> Z -> Z -> list Z -> D -> D * option error;
  lib_AGWriteMB : C -> Z -> list Z -> D -> D * option error;
  lib_AGWriteEB : C -> Z -> list Z -> D -> D * option error;
  lib_AGWriteAB : C -> Z -> list Z -> D -> D * option error;
}.

Record s7state (D C : Type) := mkS { s_dev : D; s_drv : BaseDriver C }.
Arguments mkS {D C} _ _.
Arguments s_dev {D C} _.
Arguments s_drv {D C} _.

Record s7Config := mkS7Config {
  sc_name : string;
  sc_tags : gmap string TagConfig;
  sc_addrs : gmap string s7Address;
}.

(** The tag loop of [Init]: the tag is stored before its address is parsed. *)
Fixpoint init_tags (tags : list TagConfig) (c : s7Config) : res unit * s7Config :=
  match tags with
  | [] => (Ok tt, c)
  | tag :: rest =>
      let ts := <[tc_Name tag := tag]> (sc_tags c) in
      let dt := (ParseDataType (tc_Type tag)).1 in
      match parseS7Address (tc_Address tag) dt with
      | Ok addr => init_tags rest (mkS7Config (sc_name c) ts (<[tc_Name tag := addr]> (sc_addrs c)))
      | Err e => (Err (ErrWrap ("tag " +:+ tc_Name tag +:+ ": invalid s7 address "
                         +:+ quote (tc_Address tag) +:+ ": ") e ""), mkS7Config (sc_name c) ts (sc_addrs c))
      | Panic => (Panic, c)
      end
  end.

Section driver.
Context {D C : Type} `{S7Lib D C} `{EqDecision C} `{S7Helper} `{GoArch}.
Implicit Types st : s7state D C.

Definition on_drv (f : BaseDriver C -> BaseDriver C) st : s7state D C :=
  mkS (s_dev st) (f (s_drv st)).

Definition handleConnLostIfCurrent (captured : C) st : s7state D C :=
  if decide (bd_conn (s_drv st) = Some captured) then on_drv HandleConnectionLost st else st.

Definition recordReadFailure (err : error) st : s7state D C :=
  on_drv (SetLastErrorLocked (error_text err)) (on_drv RecordError st).

Definition readS7Area (client : C) (area : s7Area) (dbNumber start : Z) (n : nat) (d : D)
    : D * (list Z + error) :=
  match area with
  | areaDB => lib_AGReadDB client dbNumber start n d
  | areaM => lib_AGReadMB client start n d
  | areaI => lib_AGReadEB client start n d
  | areaQ => lib_AGReadAB client start n d
  end.

(** [buf[lo:hi]]: the slice and the spare capacity behind it. *)
Definition go_slice (buf : list Z) (lo hi : Z) : res (list Z * list Z) :=
  if decide (0 <= lo <= hi /\ hi <= Z.of_nat (length buf)) then
    Ok (take (Z.to_nat (hi - lo)) (drop (Z.to_nat lo) buf), drop (Z.to_nat hi) buf)
  else Panic.

Definition s7BadTagValue (name : string) (now : Z) (e : error) : TagValue :=
  mkTagValue name VNil TypeBool QualityBad now (Some e).

Definition s7GoodTagValue (tag : s7ReadTag) (val : Value) (now : Z) : TagValue :=
  mkTagValue (rt_name tag) (ApplyTransform val (rt_scale tag) (rt_offset tag))
    (rt_dt tag) QualityGood now None.

(** The decoding loop of [readMergedSegment]. *)
Fixpoint decode_entries (buf : list Z) (segStart : Z) (entries : list s7ReadTag) (now : Z)
    (values : list TagValue) st : res (list TagValue * s7state D C) :=
  match entries with
  | [] => Ok (values, st)
  | tag :: rest =>
      let off := i64 (sa_start (rt_addr tag) - segStart) in
      let! (sub, spare) := go_slice buf off (i64 (off + sa_size (rt_addr tag))) in
      match decodeS7Buffer sub spare (rt_addr tag) (rt_dt tag) with
      | Panic => Panic
      | Err derr =>
          let derr := ErrWrap "s7 read error: " derr "" in
          decode_entries buf segStart rest now
            (<[rt_index tag := s7BadTagValue (rt_name tag) now derr]> values)
            (recordReadFailure derr st)
      | Ok val =>
          decode_entries buf segStart rest now
            (<[rt_index tag := s7GoodTagValue tag val now]> values) st
      end
  end.

Definition readMergedSegment (client : C) (seg : s7ReadSegment) (now : Z)
    (values : list TagValue) st : res (list TagValue * s7state D C) :=
  if decide (sg_length seg < 0) then Panic
  else
    let '(d, r) := readS7Area client (sg_area seg) (sg_dbNumber seg) (sg_start seg)
                     (Z.to_nat (sg_length seg)) (s_dev st) in
    let st := mkS d (s_drv st) in
    match r with
    | inr e =>
        let err := ErrWrap "s7 read error: " e "" in
        let st := recordReadFailure err st in
        let st := if IsConnectionError (Some err) then handleConnLostIfCurrent client st else st in
        Ok (foldl (fun vs tag => <[rt_index tag := s7BadTagValue (rt_name tag) now err]> vs)
              values (sg_entries seg), st)
    | inl buf => decode_entries buf (sg_start seg) (sg_entries seg) now values st
    end.

Definition readAddress (client : C) (addr : s7Address) (dt : DataType) (d : D) : D * res Value :=
  if decide (sa_size addr < 0) then (d, Panic)
  else
    match readS7Area client (sa_area addr) (sa_dbNumber addr) (sa_start addr)
            (Z.to_nat (sa_size addr)) d with
    | (d, inr e) => (d, Err (ErrWrap "s7 read error: " e ""))
    | (d, inl buf) => (d, decodeS7Buffer buf [] addr dt)
    end.

Definition readBitTag (client : C) (tag : s7ReadTag) (now : Z) st
    : res TagValue * s7state D C :=
  let '(d, r) := readAddress client (rt_addr tag) (rt_dt tag) (s_dev st) in
  let st := mkS d (s_drv st) in
  match r with
  | Panic => (Panic, st)
  | Ok val => (Ok (s7GoodTagValue tag val now), st)
  | Err err =>
      let st := recordReadFailure err st in
      let st := if IsConnectionError (Some err) then handleConnLostIfCurrent client st else st in
      (Ok (s7BadTagValue (rt_name tag) now err), st)
  end.

(** Phase 1 of [readS7Batch]: a tag that resolves, with its result slot. *)
Definition resolve (cfg : s7Config) (i : nat) (name : string) : option s7ReadTag :=
  match sc_tags cfg !! name, sc_addrs cfg !! name with
  | Some tc, Some addr =>
      Some (mkTag i name addr (ParseDataType (tc_Type tc)).1 (tc_Scale tc) (tc_Offset tc))
  | _, _ => None
  end.

Fixpoint resolve_all (cfg : s7Config) (i : nat) (batch : list string) : list s7ReadTag :=
  match batch with
  | [] => []
  | name :: rest =>
      match resolve cfg i name with
      | Some t => t :: resolve_all cfg (S i) rest
      | None => resolve_all cfg (S i) rest
      end
  end.

(** The result slots after phase 1; a slot of a resolved tag is still the zero
    value. *)
Definition TagValue_zero : TagValue := mkTagValue "" VNil TypeBool QualityGood 0 None.

Definition initial_value (cfg : s7Config) (now : Z) (name : string) : TagValue :=
  match resolve cfg 0 name with
  | Some _ => TagValue_zero
  | None => s7BadTagValue name now (ErrFmt ("tag not found: " +:+ name))
  end.

Fixpoint read_segments (client : C) (segs : list s7ReadSegment) (now : Z)
    (values : list TagValue) st : res (list TagValue * s7state D C) :=
  match segs with
  | [] => Ok (values, st)
  | seg :: rest =>
      let! (values, st) := readMergedSegment client seg now values st in
      read_segments client rest now values st
  end.

Fixpoint read_bits (client : C) (tags : list s7ReadTag) (now : Z)
    (values : list TagValue) st : res (list TagValue * s7state D C) :=
  match tags with
  | [] => Ok (values, st)
  | tag :: rest =>
      let '(r, st) := readBitTag client tag now st in
      let! v := r in
      read_bits client rest now (<[rt_index tag := v]> values) st
  end.

Definition readS7Batch (cfg : s7Config) (client : C) (batch : list string) (now : Z) st
    : res (list TagValue * s7state D C) :=
  let values := initial_value cfg now <$> batch in
  let tags := resolve_all cfg 0 batch in
  let wordTags := filter (fun t => sa_isBit (rt_addr t) = false) tags in
  let bitTags := filter (fun t => sa_isBit (rt_addr t) = true) tags in
  let! (values, st) := read_segments client (planS7ReadSegments wordTags) now values st in
  read_bits client bitTags now values st.

(** The batch loop of [Read]; every batch takes at least one tag, so
    [length tags] rounds are enough. *)
Fixpoint read_batches (fuel : nat) (cfg : s7Config) (client : C) (tags : list string) (now : Z)
    (results : list TagValue) st : res (list TagValue * s7state D C) :=
  match fuel, tags with
  | _, [] => Ok (results, st)
  | O, _ => Panic
  | S fuel, _ =>
      let batch := take s7MaxBatchSize tags in
      let! (vs, st) := readS7Batch cfg client batch now st in
      read_batches fuel cfg client (drop s7MaxBatchSize tags) now (results ++ vs)
        (on_drv (AddReadCount (Z.of_nat (length batch))) st)
  end.

Definition Read (cfg : s7Config) (now : Z) (tags : list string) st
    : res (list TagValue * s7state D C) + (error * s7state D C) :=
  match bd_state (s_drv st), bd_conn (s_drv st) with
  | StateConnected, Some client =>
      inl (let! (results, st) := read_batches (length tags) cfg client tags now [] st in
           Ok (results, on_drv (SetLastRead now) st))
  | _, _ =>
      inr (ErrFmt ("driver " +:+ sc_name cfg +:+ " is not connected"), on_drv RecordError st)
  end.

(** ** Writes *)

(** The read of the containing byte and the byte written back. *)
Definition bit_read (client : C) (addr : s7Address) (d : D) : D * res Z :=
  match readS7Area client (sa_area addr) (sa_dbNumber addr) (sa_start addr) 1 d with
  | (d, inr e) => (d, Err (ErrWrap "failed to read before bit-write: " e ""))
  | (d, inl buf) => (d, go_index buf 0)
  end.

Definition area_write (client : C) (addr : s7Address) (buf : list Z) (d : D) : D * option error :=
  match sa_area addr with
  | areaDB => lib_AGWriteDB client (sa_dbNumber addr) (sa_start addr) buf d
  | areaM => lib_AGWriteMB client (sa_start addr) buf d
  | areaI => lib_AGWriteEB client (sa_start addr) buf d
  | areaQ => lib_AGWriteAB client (sa_start addr) buf d
  end.

Definition bit_byte (addr : s7Address) (v : Value) (cur : Z) : Z :=
  h_SetBoolAt cur (sa_bit addr) (match v with VBool b => b | _ => false end).

Definition writeAddress (client : C) (addr : s7Address) (cmd : WriteCommand) (d : D)
    : D * res unit :=
  match encodeS7Value (cmd_Value cmd) addr (cmd_Type cmd) with
  | Panic => (d, Panic)
  | Err e => (d, Err (ErrWrap ("s7 encode " +:+ cmd_Tag cmd +:+ ": ") e ""))
  | Ok buf =>
      let send buf d :=
        match area_write client addr buf d with
        | (d, None) => (d, Ok tt)
        | (d, Some e) => (d, Err e)
        end in
      if sa_isBit addr then
        match bit_read client addr d with
        | (d, Ok cur) => send [bit_byte addr (cmd_Value cmd) cur] d
        | (d, Err e) => (d, Err e)
        | (d, Panic) => (d, Panic)
        end
      else send buf d
  end.

Definition writeOne (cfg : s7Config) (client : C) (cmd : WriteCommand) st
    : res WriteResult * s7state D C :=
  match sc_addrs cfg !! cmd_Tag cmd with
  | None => (Ok (mkWriteResult false ("tag not found: " +:+ cmd_Tag cmd)), st)
  | Some addr =>
      let tc := default TagConfig_zero (sc_tags cfg !! cmd_Tag cmd) in
      let cmd := mkWriteCommand (cmd_Driver cmd) (cmd_Device cmd) (cmd_Tag cmd)
                   (WriteValueForTag cmd tc) (cmd_Type cmd) (cmd_Source cmd)
                   (cmd_Remote cmd) (cmd_Raw cmd) in
      let '(d, r) := writeAddress client addr cmd (s_dev st) in
      let st := mkS d (s_drv st) in
      match r with
      | Panic => (Panic, st)
      | Ok _ => (Ok (mkWriteResult true ""), st)
      | Err err =>
          let st := on_drv RecordError st in
          let st := if IsConnectionError (Some err) then handleConnLostIfCurrent client st else st in
          (Ok (mkWriteResult false (error_text err)), st)
      end
  end.

Fixpoint write_all (cfg : s7Config) (client : C) (cmds : list WriteCommand)
    (results : list WriteResult) st : res (list WriteResult) * s7state D C :=
  match cmds with
  | [] => (Ok results, st)
  | cmd :: rest =>
      match writeOne cfg client cmd st with
      | (Ok r, st) => write_all cfg client rest (results ++ [r]) st
      | (Err e, st) => (Err e, st)
      | (Panic, st) => (Panic, st)
      end
  end.

Definition Write (cfg : s7Config) (cmds : list WriteCommand) st
    : res (list WriteResult) * s7state D C :=
  match bd_state (s_drv st), bd_conn (s_drv st) with
  | StateConnected, Some client => write_all cfg client cmds [] st
  | _, _ => (Err (ErrFmt ("driver " +:+ sc_name cfg +:+ " is not connected")), st)
  end.
End driver.

(** ** Well-formed addresses *)

Record addr_wf (a : s7Address) : Prop := {
  aw_start : 0 <= sa_start a <= maxInt64;
  aw_bit : 0 <= sa_bit a <= 7;
  aw_size : 1 <= sa_size a <= 8;
}.

Lemma parse_digits_nonneg s acc z : 0 <= acc -> parse_digits acc s = Some z -> 0 <= z.
Proof.
  revert acc. induction s as [|c s IH]; intros acc Ha Hp; simpl in Hp; [by simplify_eq|].
  destruct (digit_val c) as [d|] eqn:Ed; [|done]. eapply IH; [|done].
  unfold digit_val in Ed. case_decide; simplify_eq. lia.
Qed.

Lemma atoi_digits_range s : 0 <= atoi_digits s <= maxInt64.
Proof.
  unfold atoi_digits, maxInt64. destruct (parse_digits 0 s) as [z|] eqn:E; [|lia].
  apply parse_digits_nonneg in E; lia.
Qed.

Lemma dataSizeForKind_range kind dt : 1 <= dataSizeForKind kind dt <= 8.
Proof. unfold dataSizeForKind. repeat case_decide; destruct dt; lia. Qed.

Lemma validateBitOffset_ok bit u : validateBitOffset bit = Ok u -> 0 <= bit <= 7.
Proof. unfold validateBitOffset. case_decide; [done|lia]. Qed.

Lemma shortAddress_wf area m dt a : shortAddress area m dt = Ok a -> addr_wf a.
Proof.
  destruct m as [[kind m2] m3]. unfold shortAddress.
  destruct (if decide (m3 <> _) then _ else _) as [bit isBit].
  intros (u & Hb%validateBitOffset_ok & [= <-])%res_bind_ok.
  split; simpl; auto using atoi_digits_range, dataSizeForKind_range.
Qed.

Lemma parseS7Address_wf s dt a : parseS7Address s dt = Ok a -> addr_wf a.
Proof.
  unfold parseS7Address. destruct (reDB _) as [[[[m1 kind] m3] m4]|].
  - intros (u & Hb%validateBitOffset_ok & [= <-])%res_bind_ok.
    split; simpl; auto using atoi_digits_range, dataSizeForKind_range.
  - destruct (reM _) as [m|]; [apply shortAddress_wf|].
    destruct (reI _) as [m|]; [apply shortAddress_wf|].
    destruct (reQ _) as [m|]; [apply shortAddress_wf|done].
Qed.

(** What [Init] establishes of the address table. *)
Definition cfg_wf (c : s7Config) : Prop := map_Forall (fun _ a => addr_wf a) (sc_addrs c).

Lemma init_tags_wf tags c c' : cfg_wf c -> init_tags tags c = (Ok tt, c') -> cfg_wf c'.
Proof.
  revert c. induction tags as [|t tags IH]; intros c Hc Hi; simpl in Hi; [by simplify_eq|].
  destruct (parseS7Address _ _) as [a| |] eqn:Ep; try done.
  eapply IH; [|done]. apply map_Forall_insert_2; [by eapply parseS7Address_wf|done].
Qed.

(** ** The planner *)

Section planner.
Implicit Types (t : s7ReadTag) (l : list s7ReadTag) (s : s7ReadSegment) (segs : list s7ReadSegment).

Abbreviation t_start t := (sa_start (rt_addr t)).
Abbreviation t_size t := (sa_size (rt_addr t)).

Definition seg_key s : groupKey := (sg_area s, sg_dbNumber s).

(** Every tag of a segment lies in its range, which one read can carry. *)
Record seg_ok s : Prop := {
  so_start : 0 <= sg_start s <= maxInt64;
  so_length : 1 <= sg_length s <= s7MaxPDUReadLen;
  so_entries : Forall (fun t => key_of t = seg_key s /\ sg_start s <= t_start t /\
                                t_start t + t_size t <= sg_start s + sg_length s) (sg_entries s);
}.

(** Two segments one after the other in the same block could not have been
    one: the first tag of the second is too far, or too far out. *)
Definition not_mergeable s1 s2 : Prop :=
  seg_key s1 = seg_key s2 ->
  exists t, head (sg_entries s2) = Some t /\ sg_start s2 = t_start t /\
    (t_start t - (sg_start s1 + sg_length s1) > s7MergeGapLimit \/
     t_start t + t_size t - sg_start s1 > s7MaxPDUReadLen).

(** What holds while a plan is built. *)
Record plan_ok segs : Prop := {
  po_ok : Forall seg_ok segs;
  po_nonempty : Forall (fun s => exists t, head (sg_entries s) = Some t /\ sg_start s = t_start t) segs;
  po_greedy : forall i s1 s2, segs !! i = Some s1 -> segs !! S i = Some s2 -> not_mergeable s1 s2;
}.

Definition entries segs : list s7ReadTag := concat (sg_entries <$> segs).

(** Appending a tag that does not start before the newest segment of its
    block does not overflow. *)
Lemma merge_arith (A L B S : Z) :
  0 <= A <= maxInt64 -> 1 <= L <= s7MaxPDUReadLen -> A <= B <= maxInt64 -> 1 <= S <= 8 ->
  i64 (B - i64 (A + L)) = B - (A + L) /\
  (B - (A + L) <= s7MergeGapLimit -> i64 (i64 (B + S) - A) = B + S - A).
Proof.
  unfold maxInt64, s7MaxPDUReadLen, s7MergeGapLimit. intros. split.
  - unfold wraps.
    replace (B - ((A + L + 2 ^ (64 - 1)) mod 2 ^ 64 - 2 ^ (64 - 1)) + 2 ^ (64 - 1))
      with (B + 2 ^ 64 - (A + L + 2 ^ (64 - 1)) mod 2 ^ 64) by lia.
    rewrite Zminus_mod_idemp_r. rewrite Z.mod_small; lia.
  - intros. unfold wraps.
    replace ((B + S + 2 ^ (64 - 1)) mod 2 ^ 64 - 2 ^ (64 - 1) - A + 2 ^ (64 - 1))
      with ((B + S + 2 ^ (64 - 1)) mod 2 ^ 64 - A) by lia.
    rewrite Zminus_mod_idemp_l. rewrite Z.mod_small; lia.
Qed.

Lemma plan_ok_fresh segs s :
  plan_ok segs -> seg_ok s ->
  (exists t, head (sg_entries s) = Some t /\ sg_start s = t_start t) ->
  (forall cur, last segs = Some cur -> not_mergeable cur s) -> plan_ok (segs ++ [s]).
Proof.
  intros [Hok Hne Hg] Hs Hh Hlast. split; [by apply Forall_app_2; [|constructor]..|].
  intros i s1 s2 H1 H2. apply lookup_app_Some in H2 as [H2|[Hi H2]].
  - apply (Hg i); [|done]. rewrite lookup_app_l in H1; [done|]. apply lookup_lt_Some in H2. lia.
  - apply list_lookup_singleton_Some in H2 as [Hl ->]. apply Hlast.
    rewrite last_lookup. rewrite lookup_app_l in H1 by lia. rewrite <- H1. f_equal. lia.
Qed.

Lemma plan_ok_grow segs cur cur' :
  plan_ok (segs ++ [cur]) -> seg_ok cur' ->
  seg_key cur' = seg_key cur -> sg_start cur' = sg_start cur ->
  head (sg_entries cur') = head (sg_entries cur) -> plan_ok (segs ++ [cur']).
Proof.
  intros [Hok Hne Hg] Hs Hk Hst Hh. apply Forall_app in Hok as [Hok _], Hne as [Hne Hn1].
  rewrite Forall_singleton in Hn1. apply plan_ok_fresh; [split; [done..|]|done| |].
  - intros i s1 s2 H1 H2. apply (Hg i); rewrite lookup_app_l; try done; by eapply lookup_lt_Some.
  - rewrite Hh, Hst. exact Hn1.
  - intros s0 Hl. rewrite last_lookup in Hl.
    assert (not_mergeable s0 cur) as Hn.
    { pose proof (lookup_lt_Some _ _ _ Hl). apply (Hg (pred (length segs))).
      - by rewrite lookup_app_l.
      - apply lookup_app_Some. right. split; [lia|].
        replace (S (pred (length segs)) - length segs)%nat with 0%nat by lia. done. }
    unfold not_mergeable in *. by rewrite Hk, Hh, Hst.
Qed.

Lemma append_ok segs k t :
  plan_ok segs -> addr_wf (rt_addr t) -> key_of t = k ->
  (forall cur, last segs = Some cur -> seg_key cur = k -> sg_start cur <= t_start t) ->
  let segs' := appendMergedSegment segs k.1 k.2 t in
  plan_ok segs' /\ entries segs' = entries segs ++ [t] /\
  (exists cur, last segs' = Some cur /\ seg_key cur = k /\ sg_start cur <= t_start t) /\
  (forall s, s ∈ segs' -> seg_key s = k \/ exists s0, s0 ∈ segs /\ seg_key s = seg_key s0).
Proof.
  intros Hp [Hst Hbit Hsz] Hk Hlast. set (fresh := mkSeg k.1 k.2 (t_start t) (t_size t) [t]).
  assert (seg_key fresh = k) as Hfk by (by destruct k).
  assert (seg_ok fresh) as Hfok.
  { split; simpl; [done|unfold s7MaxPDUReadLen; lia|]. constructor; [|constructor]. split_and!; simpl; [by rewrite Hk, <- Hfk|lia|lia]. }
  assert (forall (Hl : forall cur, last segs = Some cur -> not_mergeable cur fresh),
    let segs' := segs ++ [fresh] in
    plan_ok segs' /\ entries segs' = entries segs ++ [t] /\
    (exists cur, last segs' = Some cur /\ seg_key cur = k /\ sg_start cur <= t_start t) /\
    (forall s, s ∈ segs' -> seg_key s = k \/ exists s0, s0 ∈ segs /\ seg_key s = seg_key s0)) as Hfresh.
  { intros Hl segs'. split_and!.
    - apply plan_ok_fresh; [done..|by exists t|done].
    - unfold segs', entries. by rewrite fmap_app, concat_app.
    - exists fresh. split_and!; [apply last_snoc|done|simpl; lia].
    - intros s [Hs| ->%list_elem_of_singleton]%elem_of_app; [right; by exists s|by left]. }
  unfold appendMergedSegment. fold fresh. destruct (last segs) as [cur|] eqn:El; [|by apply Hfresh].
  destruct (decide (sg_area cur = k.1 /\ sg_dbNumber cur = k.2)) as [[E1 E2]|Hn].
  2: { apply Hfresh. intros c [= <-] E. rewrite Hfk in E. destruct k. unfold seg_key in E.
       simplify_eq. by destruct Hn. }
  assert (seg_key cur = k) as Hck by (unfold seg_key; rewrite E1, E2; by destruct k).
  specialize (Hlast cur eq_refl Hck). apply last_Some in El as [init ->].
  assert (seg_ok cur) as [Hcs Hcl Hce].
  { destruct Hp as [Hok _ _]. apply Forall_app in Hok as [_ Hc]. by rewrite Forall_singleton in Hc. }
  destruct (merge_arith (sg_start cur) (sg_length cur) (t_start t) (t_size t)) as [Eg Em]; [done..|lia|done|].
  rewrite Eg. destruct (decide _) as [[Hg Hm]|Hn].
  - rewrite Em in * by done. rewrite removelast_last. split_and!.
    + eapply plan_ok_grow; [done| |done|done|].
      * split; simpl; [done|case_decide; lia|]. apply Forall_app. split.
        -- eapply Forall_impl; [done|]. simpl. intros t' (? & ? & ?). case_decide; split_and!; (done || lia).
        -- constructor; [|constructor]. split_and!; [by rewrite Hk, <- Hck|lia|case_decide; lia].
      * destruct Hp as [_ Hne _]. apply Forall_app in Hne as [_ Hc].
        rewrite Forall_singleton in Hc. destruct Hc as (t0 & Hh & _). simpl. by destruct (sg_entries cur).
    + unfold entries. rewrite !fmap_app, !concat_app. simpl. by rewrite !app_nil_r, app_assoc.
    + eexists. rewrite last_snoc. split_and!; [done|done|simpl; lia].
    + intros s [Hs| ->%list_elem_of_singleton]%elem_of_app; [|by left].
      right. exists s. split; [|done]. apply elem_of_app. by left.
  - apply Hfresh. intros c [= <-] _. exists t. split_and!; [done..|].
    destruct (decide (t_start t - (sg_start cur + sg_length cur) <= s7MergeGapLimit)) as [Hg|]; [|lia].
    right. rewrite Em in Hn by done. lia.
Qed.

Lemma group_fold_ok k l segs :
  plan_ok segs -> Forall (fun t => addr_wf (rt_addr t) /\ key_of t = k) l ->
  StronglySorted (fun a b => t_start a <= t_start b) l ->
  (forall cur t, last segs = Some cur -> seg_key cur = k -> t ∈ l -> sg_start cur <= t_start t) ->
  let segs' := foldl (fun segs t => appendMergedSegment segs k.1 k.2 t) segs l in
  plan_ok segs' /\ entries segs' = entries segs ++ l /\
  (forall s, s ∈ segs' -> seg_key s = k \/ exists s0, s0 ∈ segs /\ seg_key s = seg_key s0).
Proof.
  intros Hp Hl Hs. revert segs Hp. induction Hs as [|t l Hs IH Ht]; intros segs Hp Hlast; simpl.
  { rewrite app_nil_r. split_and!; [done..|]. intros s Hin. right. by exists s. }
  inversion_clear Hl as [|? ? [Hw Hk] Hl']. rewrite Forall_forall in Ht.
  destruct (append_ok segs k t Hp Hw Hk) as (Hp' & He' & (cur & Hc1 & Hc2 & Hc3) & Hk').
  { intros cur E1 E2. apply Hlast; [done..|constructor]. }
  destruct (IH Hl' _ Hp') as (Hp2 & He2 & Hk2).
  { intros cur' t' E1 E2 Hin. rewrite Hc1 in E1. simplify_eq. specialize (Ht t' Hin). lia. }
  split_and!; [done|by rewrite He2, He', <- app_assoc|].
  intros s Hin. destruct (Hk2 s Hin) as [?|(s0 & Hs0 & E)]; [by left|].
  rewrite E. by apply Hk'.
Qed.

Lemma plan_group_ok tags segs k :
  Forall (fun t => addr_wf (rt_addr t)) tags -> plan_ok segs ->
  Forall (fun s => seg_key s <> k) segs ->
  plan_ok (plan_group tags segs k) /\
  entries (plan_group tags segs k) = entries segs ++ sort_group (filter (fun t => key_of t = k) tags) /\
  (forall s, s ∈ plan_group tags segs k -> seg_key s = k \/ exists s0, s0 ∈ segs /\ seg_key s = seg_key s0).
Proof.
  intros Hw Hp Hn. apply group_fold_ok; [done| | |].
  - unfold sort_group. rewrite stable_sort_perm. apply Forall_forall.
    intros t [Hk Ht]%list_elem_of_filter. rewrite Forall_forall in Hw. auto.
  - apply (stable_sort_sorted (fun t => t_start t)).
  - intros cur t El Ek. rewrite Forall_forall in Hn. exfalso. eapply Hn; [|done].
    by apply last_Some_elem_of.
Qed.

Lemma plan_fold_ok tags keys segs :
  Forall (fun t => addr_wf (rt_addr t)) tags -> NoDup keys -> plan_ok segs ->
  (forall s k, s ∈ segs -> k ∈ keys -> seg_key s <> k) ->
  plan_ok (foldl (plan_group tags) segs keys) /\
  entries (foldl (plan_group tags) segs keys)
  = entries segs ++ concat ((fun k => sort_group (filter (fun t => key_of t = k) tags)) <$> keys).
Proof.
  intros Hw Hnd. revert segs. induction Hnd as [|k keys Hk Hnd IH]; intros segs Hp Hn; simpl.
  { by rewrite app_nil_r. }
  destruct (plan_group_ok tags segs k Hw Hp) as (Hp' & He' & Hk').
  { apply Forall_forall. intros s Hs. apply Hn; [done|constructor]. }
  destruct (IH _ Hp') as [Hp2 He2].
  - intros s k' Hs Hk2. destruct (Hk' s Hs) as [->|(s0 & Hs0 & ->)]; [by intros ->|].
    apply Hn; [done|by constructor].
  - split; [done|]. by rewrite He2, He', <- app_assoc.
Qed.

Lemma first_keys_spec seen l :
  NoDup (first_keys seen l) /\
  (forall k, k ∈ first_keys seen l <-> k ∉ seen /\ exists t, t ∈ l /\ key_of t = k).
Proof.
  revert seen. induction l as [|t l IH]; intros seen; simpl.
  { split; [constructor|]. intros k. split; [by intros ?%elem_of_nil|].
    by intros (_ & t & ?%elem_of_nil & _). }
  case_decide as Hd.
  - destruct (IH seen) as [H1 H2]. split; [done|]. intros k. rewrite H2. set_solver.
  - destruct (IH (key_of t :: seen)) as [H1 H2]. split.
    + constructor; [|done]. rewrite H2. set_solver.
    + intros k. rewrite elem_of_cons, H2. destruct (decide (k = key_of t)) as [->|]; set_solver.
Qed.

Lemma plan_spec tags :
  Forall (fun t => addr_wf (rt_addr t)) tags ->
  plan_ok (planS7ReadSegments tags) /\ entries (planS7ReadSegments tags) ≡ₚ tags.
Proof.
  intros Hw. unfold planS7ReadSegments. set (keys := stable_sort key_lt _).
  destruct (first_keys_spec [] tags) as [Hnd Hin].
  assert (keys ≡ₚ first_keys [] tags) as Hk by apply stable_sort_perm.
  destruct (plan_fold_ok tags keys [] Hw) as [Hp He].
  - by rewrite Hk.
  - split; [constructor..|done].
  - by intros s k ?%elem_of_nil.
  - split; [done|]. rewrite He. simpl. etrans; [|apply (groups_perm key_of keys tags)].
    + clear. induction keys as [|k ks IH]; [done|]. simpl. unfold sort_group at 1.
      by rewrite stable_sort_perm, IH.
    + by rewrite Hk.
    + intros t Ht. rewrite Hk, Hin. split; [apply not_elem_of_nil|by exists t].
Qed.

(** The planner turns the tags into segments that carry each tag
    exactly once; every tag of a segment is in the segment's block and inside
    its byte range, no segment is longer than one telegram, and neighbouring
    segments of a block are apart only because the next tag was beyond the gap
    limit or would have made the read too long. *)
Theorem s7_plan_covers tags :
  Forall (fun t => addr_wf (rt_addr t)) tags ->
  let segs := planS7ReadSegments tags in
  entries segs ≡ₚ tags /\ Forall seg_ok segs /\
  (forall i s1 s2, segs !! i = Some s1 -> segs !! S i = Some s2 -> not_mergeable s1 s2).
Proof. intros Hw. destruct (plan_spec tags Hw) as [[Hok _ Hg] He]. done. Qed.
End planner.

(** ** Devices that answer *)

(** The bytes from [start] on of a block of memory. *)
Definition mem_slice (m : Z -> Z) (start : Z) (n : nat) : list Z :=
  (fun i => m (start + Z.of_nat i)) <$> seq 0 n.

(** Where an address lives: only data blocks are numbered. *)
Definition block_of (area : s7Area) (db : Z) : Z :=
  match area with areaDB => db | _ => 0 end.

(** What gos7 documents of its byte helpers. *)
Class S7HelperLaws `{S7Helper} : Prop := {
  law_get_bool b pos : 0 <= pos <= 7 -> h_GetBoolAt b pos = Z.testbit b pos;
  law_set_bool b pos v : 0 <= pos <= 7 ->
    h_SetBoolAt b pos v = if v then Z.setbit b pos else Z.clearbit b pos;
  law_get_real buf : (4 <= length buf)%nat ->
    h_GetRealAt buf = f_frombits F32 (be_uint 0 (take 4 buf));
  law_set_real buf x : (4 <= length buf)%nat ->
    h_SetRealAt buf x = be_put 4 (f_bits F32 x) ++ drop 4 buf;
  law_get_lreal buf : (8 <= length buf)%nat ->
    h_GetLRealAt buf = f_frombits F64 (be_uint 0 (take 8 buf));
  law_set_lreal buf x : (8 <= length buf)%nat ->
    h_SetLRealAt buf x = be_put 8 (f_bits F64 x) ++ drop 8 buf;
}.

(** A device that answers: its memory, what a read returns and what a write
    does to it. *)
Definition wrote {D} (mem : D -> s7Area -> Z -> Z -> Z) (area : s7Area) (db start : Z)
    (buf : list Z) (d : D) (r : D * option error) : Prop :=
  r.2 = None /\
  forall area' db' i,
    mem r.1 area' db' i
    = if decide (area' = area /\ db' = db /\ start <= i < start + Z.of_nat (length buf))
      then default 0 (buf !! Z.to_nat (i - start))
      else mem d area' db' i.

Class S7Device (D C : Type) `{S7Lib D C} := {
  dev_mem : D -> s7Area -> Z -> Z -> Z;
  dev_byte d area db i : 0 <= dev_mem d area db i < 256;
  law_AGReadDB c db start n d :
    lib_AGReadDB c db start n d = (d, inl (mem_slice (dev_mem d areaDB db) start n));
  law_AGReadMB c start n d :
    lib_AGReadMB c start n d = (d, inl (mem_slice (dev_mem d areaM 0) start n));
  law_AGReadEB c start n d :
    lib_AGReadEB c start n d = (d, inl (mem_slice (dev_mem d areaI 0) start n));
  law_AGReadAB c start n d :
    lib_AGReadAB c start n d = (d, inl (mem_slice (dev_mem d areaQ 0) start n));
  law_AGWriteDB c db start buf d : Forall (fun b => 0 <= b < 256) buf ->
    wrote dev_mem areaDB db start buf d (lib_AGWriteDB c db start buf d);
  law_AGWriteMB c start buf d : Forall (fun b => 0 <= b < 256) buf ->
    wrote dev_mem areaM 0 start buf d (lib_AGWriteMB c start buf d);
  law_AGWriteEB c start buf d : Forall (fun b => 0 <= b < 256) buf ->
    wrote dev_mem areaI 0 start buf d (lib_AGWriteEB c start buf d);
  law_AGWriteAB c start buf d : Forall (fun b => 0 <= b < 256) buf ->
    wrote dev_mem areaQ 0 start buf d (lib_AGWriteAB c start buf d);
}.

Section device.
Context {D C : Type} `{S7Device D C}.

Lemma dev_read c area db start n d :
  readS7Area c area db start n d
  = (d, inl (mem_slice (dev_mem d area (block_of area db)) start n)).
Proof.
  destruct area; simpl;
    [apply law_AGReadDB|apply law_AGReadMB|apply law_AGReadEB|apply law_AGReadAB].
Qed.

Lemma dev_write c addr buf d :
  Forall (fun b => 0 <= b < 256) buf ->
  wrote dev_mem (sa_area addr) (block_of (sa_area addr) (sa_dbNumber addr)) (sa_start addr)
    buf d (area_write c addr buf d).
Proof.
  intros. unfold area_write. destruct (sa_area addr); simpl;
    [by apply law_AGWriteDB|by apply law_AGWriteMB|by apply law_AGWriteEB|by apply law_AGWriteAB].
Qed.
End device.

Lemma length_mem_slice m start n : length (mem_slice m start n) = n.
Proof. unfold mem_slice. by rewrite length_fmap, length_seq. Qed.

Lemma mem_slice_lookup m start n i : (i < n)%nat -> mem_slice m start n !! i = Some (m (start + Z.of_nat i)).
Proof. intros. unfold mem_slice. rewrite list_lookup_fmap, lookup_seq_lt by done. done. Qed.

Lemma mem_slice_sub m start n off k :
  (off + k <= n)%nat ->
  take k (drop off (mem_slice m start n)) = mem_slice m (start + Z.of_nat off) k.
Proof.
  intros Hk. apply list_eq. intros i. destruct (decide (i < k)%nat) as [Hi|Hi].
  - rewrite lookup_take_lt by done. rewrite lookup_drop, !mem_slice_lookup by lia.
    do 2 f_equal. lia.
  - rewrite !lookup_ge_None_2; [done|rewrite length_mem_slice; lia|].
    rewrite length_take, length_drop, length_mem_slice. lia.
Qed.

(** ** Reading *)

Section reading.
Context {D C : Type} `{S7Device D C} `{EqDecision C} `{S7Helper} `{GoArch}.
Implicit Types (st : s7state D C) (d : D).

(** What a device in state [d] holds at a tag's own address. *)
Definition tag_bytes d (a : s7Address) : list Z :=
  mem_slice (dev_mem d (sa_area a) (block_of (sa_area a) (sa_dbNumber a))) (sa_start a)
    (Z.to_nat (sa_size a)).

(** The reference: decode the tag's own bytes. *)
Definition tag_value d (now : Z) (t : s7ReadTag) : TagValue :=
  match decodeS7Buffer (tag_bytes d (rt_addr t)) [] (rt_addr t) (rt_dt t) with
  | Ok v => s7GoodTagValue t v now
  | Err e => s7BadTagValue (rt_name t) now (ErrWrap "s7 read error: " e "")
  | Panic => TagValue_zero
  end.

Definition name_value (cfg : s7Config) d (now : Z) (name : string) : TagValue :=
  match resolve cfg 0 name with
  | Some t => tag_value d now t
  | None => s7BadTagValue name now (ErrFmt ("tag not found: " +:+ name))
  end.

(** A tag the reader handles without looking beyond its slice. *)
Definition tag_ok (t : s7ReadTag) : Prop := addr_wf (rt_addr t) /\ rt_dt t <> TypeString.

Lemma decode_spare buf spare a dt :
  dt <> TypeString -> decodeS7Buffer buf spare a dt = decodeS7Buffer buf [] a dt.
Proof. intros. unfold decodeS7Buffer, decodeS7TypedValue. destruct dt; done. Qed.

Lemma decode_no_panic buf a dt :
  dt <> TypeString -> (1 <= length buf)%nat -> decodeS7Buffer buf [] a dt <> Panic.
Proof.
  intros Hs Hl. assert (exists b, go_index buf 0 = Ok b) as [b Hb].
  { destruct buf as [|b buf]; [simpl in Hl; lia|]. by exists b. }
  unfold decodeS7Buffer, decodeS7TypedValue, be_read. rewrite Hb. destruct (sa_isBit a); [done|].
  destruct (decide _) as [|Hn]; [done|]. destruct dt; simpl in *; try done;
    rewrite decide_False by lia; done.
Qed.

(** The states a read can leave behind: only the error record changes. *)
Definition same_link st st' : Prop :=
  s_dev st' = s_dev st /\ bd_state (s_drv st') = bd_state (s_drv st) /\
  bd_conn (s_drv st') = bd_conn (s_drv st) /\ bd_readCount (s_drv st') = bd_readCount (s_drv st) /\
  bd_ctx (s_drv st') = bd_ctx (s_drv st) /\ bd_loops (s_drv st') = bd_loops (s_drv st).

#[local] Instance same_link_preorder : PreOrder same_link.
Proof. split; [intros st|intros s1 s2 s3]; unfold same_link; intuition congruence. Qed.

Lemma recordReadFailure_link e st : same_link st (recordReadFailure e st).
Proof. done. Qed.

(** Storing the value of each tag of a list in its slot. *)
Definition store d (now : Z) (values : list TagValue) (l : list s7ReadTag) : list TagValue :=
  foldl (fun vs t => <[rt_index t := tag_value d now t]> vs) values l.

Lemma decode_entries_spec seg now values st :
  seg_ok seg -> Forall tag_ok (sg_entries seg) ->
  exists st', same_link st st' /\
    decode_entries
      (mem_slice (dev_mem (s_dev st) (sg_area seg) (block_of (sg_area seg) (sg_dbNumber seg)))
         (sg_start seg) (Z.to_nat (sg_length seg)))
      (sg_start seg) (sg_entries seg) now values st
    = Ok (store (s_dev st) now values (sg_entries seg), st').
Proof.
  intros [Hst Hlen Hin]. unfold maxInt64, s7MaxPDUReadLen in *.
  set (d := s_dev st). assert (s_dev st = d) as Hd by done. clearbody d.
  revert values st Hd. induction Hin as [|t l (Hk & Ht1 & Ht2) _ IH]; intros values st Hd Hok; simpl.
  { exists st. done. }
  inversion_clear Hok as [|? ? [[Hs1 Hs2 Hs3] Hns] Hok']. unfold maxInt64 in *.
  rewrite (wraps_small 64 (sa_start (rt_addr t) - sg_start seg)) by lia.
  rewrite (wraps_small 64) by lia. unfold go_slice. rewrite length_mem_slice.
  rewrite decide_True by lia. cbn [res_bind]. rewrite mem_slice_sub by lia.
  replace (mem_slice _ _ _) with (tag_bytes d (rt_addr t)).
  2: { unfold tag_bytes. unfold key_of, seg_key in Hk. injection Hk as -> ->. f_equal; lia. }
  rewrite decode_spare by done.
  assert (forall v st1, tag_value d now t = v -> same_link st st1 -> exists st',
    same_link st st' /\
    decode_entries (mem_slice (dev_mem d (sg_area seg) (block_of (sg_area seg) (sg_dbNumber seg)))
       (sg_start seg) (Z.to_nat (sg_length seg))) (sg_start seg) l now (<[rt_index t:=v]> values) st1
    = Ok (store d now (<[rt_index t:=tag_value d now t]> values) l, st')) as Hnext.
  { intros v st1 <- Hl1. destruct (IH (<[rt_index t:=tag_value d now t]> values) st1) as (st' & Hl' & He);
      [destruct Hl1; congruence|done|]. exists st'. split; [by etrans|done]. }
  assert (decodeS7Buffer (tag_bytes d (rt_addr t)) [] (rt_addr t) (rt_dt t) <> Panic) as Hnp.
  { apply decode_no_panic; [done|]. unfold tag_bytes. rewrite length_mem_slice. lia. }
  destruct (decodeS7Buffer _ _ _ _) as [v|e|] eqn:Ed; [..|done]; apply Hnext;
    unfold tag_value; rewrite ?Ed; done.
Qed.

Lemma store_app d now values l1 l2 :
  store d now (store d now values l1) l2 = store d now values (l1 ++ l2).
Proof. symmetry. apply foldl_app. Qed.

Lemma read_segments_spec client segs now values st :
  Forall seg_ok segs -> Forall tag_ok (entries segs) ->
  exists st', same_link st st' /\
    read_segments client segs now values st = Ok (store (s_dev st) now values (entries segs), st').
Proof.
  intros Hs. revert values st. induction Hs as [|seg segs Hseg Hs IH]; intros values st Ht; simpl.
  { by exists st. }
  unfold entries in Ht. simpl in Ht. apply Forall_app in Ht as [Ht1 Ht2].
  destruct (decode_entries_spec seg now values st Hseg Ht1) as (st1 & Hl1 & He1).
  unfold readMergedSegment. destruct Hseg as [_ Hlen _]. rewrite decide_False by lia.
  rewrite dev_read. destruct st as [dv drv]. cbn [s_dev s_drv] in *. rewrite He1. cbn [res_bind].
  destruct (IH (store dv now values (sg_entries seg)) st1 Ht2) as (st2 & Hl2 & He2).
  exists st2. split; [by etrans|]. rewrite He2. destruct Hl1 as [-> _]. by rewrite store_app.
Qed.

Lemma read_bits_spec client tags now values st :
  Forall (fun t => tag_ok t /\ sa_isBit (rt_addr t) = true) tags ->
  read_bits client tags now values st = Ok (store (s_dev st) now values tags, st).
Proof.
  intros Ht. revert values. induction Ht as [|t l [[Hw Hns] Hb] Ht IH]; intros values; simpl; [done|].
  unfold readBitTag, readAddress. destruct Hw as [_ _ Hsz]. rewrite decide_False by lia.
  rewrite dev_read. destruct st as [dv drv]. cbn [s_dev s_drv] in *.
  assert (decodeS7Buffer (tag_bytes dv (rt_addr t)) [] (rt_addr t) (rt_dt t) <> Panic) as Hnp.
  { apply decode_no_panic; [done|]. unfold tag_bytes. rewrite length_mem_slice. lia. }
  fold (tag_bytes dv (rt_addr t)).
  destruct (decodeS7Buffer _ _ _ _) as [v|e|] eqn:Ed; [| |done].
  - cbn [res_bind]. rewrite IH. unfold store. simpl. unfold tag_value at 3. by rewrite Ed.
  - unfold decodeS7Buffer in Ed. rewrite Hb in Ed. unfold go_index in Ed. by repeat case_match.
Qed.

(** Slots: the tags of a batch write their own slot and no other. *)
Lemma store_lookup d now l values i exp :
  (forall t, t ∈ l -> rt_index t = i -> tag_value d now t = exp) ->
  (i < length values)%nat ->
  store d now values l !! i = if decide (i ∈ rt_index <$> l) then Some exp else values !! i.
Proof.
  unfold store. revert values. induction l as [|t l IH]; intros values He Hi.
  { by rewrite decide_False by apply not_elem_of_nil. }
  cbn [foldl]. rewrite fmap_cons.
  rewrite IH; [|intros; apply He; [by right|done]|by rewrite length_insert].
  destruct (decide (i ∈ rt_index <$> l)) as [Hin|Hn]; [by rewrite decide_True by (apply elem_of_cons; by right)|].
  destruct (decide (rt_index t = i)) as [<-|Hne].
  - rewrite decide_True by (apply elem_of_cons; by left). rewrite list_lookup_insert_eq by done. f_equal. apply He; [constructor|done].
  - rewrite decide_False by (rewrite elem_of_cons; naive_solver). by rewrite list_lookup_insert_ne.
Qed.

Lemma store_length d now l values : length (store d now values l) = length values.
Proof.
  unfold store. revert values. induction l as [|t l IH]; intros values; [done|].
  simpl. by rewrite IH, length_insert.
Qed.

Lemma elem_resolve_all cfg n batch t :
  t ∈ resolve_all cfg n batch <->
  exists j name, batch !! j = Some name /\ resolve cfg (n + j) name = Some t.
Proof.
  revert n. induction batch as [|name batch IH]; intros n; simpl.
  { split; [by intros ?%elem_of_nil|by intros (j & name & ? & _)]. }
  assert (t ∈ resolve_all cfg (S n) batch <->
    exists j nm, (name :: batch) !! S j = Some nm /\ resolve cfg (n + S j) nm = Some t) as IH'.
  { rewrite IH. by setoid_rewrite <- Nat.add_succ_comm. }
  destruct (resolve cfg n name) as [t0|] eqn:Er.
  - rewrite elem_of_cons, IH'. split.
    + intros [->|(j & nm & Hj & Hr)]; [exists 0%nat, name; by rewrite Nat.add_0_r|by exists (S j), nm].
    + intros ([|j] & nm & Hj & Hr); [|right; by exists j, nm]. left.
      simpl in Hj. rewrite Nat.add_0_r in Hr. congruence.
  - rewrite IH'. split.
    + intros (j & nm & Hj & Hr). by exists (S j), nm.
    + intros ([|j] & nm & Hj & Hr); [|by exists j, nm].
      simpl in Hj. rewrite Nat.add_0_r in Hr. congruence.
Qed.

(** A tag resolved with another slot has the same value. *)
Lemma resolve_slot cfg i name :
  resolve cfg i name = (fun t => mkTag i (rt_name t) (rt_addr t) (rt_dt t) (rt_scale t) (rt_offset t))
                       <$> resolve cfg 0 name.
Proof. unfold resolve. by destruct (sc_tags cfg !! name), (sc_addrs cfg !! name). Qed.

Lemma resolve_value cfg i name t d now :
  resolve cfg i name = Some t -> rt_index t = i /\ tag_value d now t = name_value cfg d now name.
Proof.
  rewrite resolve_slot. unfold name_value. destruct (resolve cfg 0 name) as [t0|]; [|done].
  intros [= <-]. done.
Qed.

(** No requested tag is a string. *)
Definition names_ok (cfg : s7Config) (names : list string) : Prop :=
  Forall (fun name => forall t, resolve cfg 0 name = Some t -> rt_dt t <> TypeString) names.

Lemma resolve_all_ok cfg batch :
  cfg_wf cfg -> names_ok cfg batch -> Forall tag_ok (resolve_all cfg 0 batch).
Proof.
  intros Hc Hn. apply Forall_forall. intros t (j & name & Hj & Hr)%elem_resolve_all.
  rewrite resolve_slot in Hr. destruct (resolve cfg 0 name) as [t0|] eqn:E0; [|done].
  simpl in Hr. simplify_eq. split; simpl.
  - unfold resolve in E0. destruct (sc_tags cfg !! name), (sc_addrs cfg !! name) as [a|] eqn:Ea; try done.
    simplify_eq. simpl. eapply Hc; done.
  - unfold names_ok in Hn. rewrite Forall_lookup in Hn. by eapply Hn.
Qed.

Lemma readS7Batch_spec cfg client batch now st :
  cfg_wf cfg -> names_ok cfg batch ->
  exists st', same_link st st' /\
    readS7Batch cfg client batch now st = Ok (name_value cfg (s_dev st) now <$> batch, st').
Proof.
  intros Hc Hn. pose proof (resolve_all_ok cfg batch Hc Hn) as Hok. unfold readS7Batch.
  set (tags := resolve_all cfg 0 batch) in *. set (words := filter _ tags). set (bits := filter _ tags).
  destruct (plan_spec words) as [[Hseg _ _] Hperm].
  { apply Forall_filter. eapply Forall_impl; [done|]. by intros t [? _]. }
  destruct (read_segments_spec client (planS7ReadSegments words) now
    (initial_value cfg now <$> batch) st Hseg) as (st' & Hl & ->).
  { rewrite Hperm. by apply Forall_filter. }
  exists st'. split; [done|]. cbn [res_bind]. rewrite read_bits_spec.
  2: { apply Forall_forall. intros t [Hb Ht]%list_elem_of_filter.
       rewrite Forall_forall in Hok. auto. }
  destruct Hl as [-> _]. rewrite store_app. do 2 f_equal. apply list_eq. intros j. rewrite list_lookup_fmap.
  destruct (batch !! j) as [name|] eqn:Ej.
  2: { apply lookup_ge_None_1 in Ej. simpl. apply lookup_ge_None_2.
       rewrite store_length, length_fmap. done. }
  assert (forall t, t ∈ entries (planS7ReadSegments words) ++ bits <-> t ∈ tags) as Hall.
  { intros t. rewrite elem_of_app, Hperm. unfold words, bits. rewrite !list_elem_of_filter.
    destruct (sa_isBit (rt_addr t)); naive_solver. }
  rewrite (store_lookup _ _ _ _ j (name_value cfg (s_dev st) now name)).
  - destruct (decide _) as [|Hni]; [done|]. rewrite list_lookup_fmap, Ej. simpl. f_equal.
    unfold initial_value, name_value. destruct (resolve cfg 0 name) as [t0|] eqn:E0; [|done].
    exfalso. apply Hni. apply list_elem_of_fmap. pose proof (resolve_slot cfg j name) as Er.
    rewrite E0 in Er. simpl in Er. eexists. split; [|apply Hall, elem_resolve_all; by exists j, name]. done.
  - intros t Ht <-. apply Hall, elem_resolve_all in Ht as (j' & nm & Hj' & Hr).
    apply (resolve_value _ _ _ _ (s_dev st) now) in Hr as [Hi Hv]. simpl in Hi. congruence.
  - rewrite length_fmap. by eapply lookup_lt_Some.
Qed.

Lemma read_batches_spec fuel cfg client names now results st :
  cfg_wf cfg -> names_ok cfg names -> (length names <= fuel)%nat ->
  exists st',
    read_batches fuel cfg client names now results st
    = Ok (results ++ (name_value cfg (s_dev st) now <$> names), st') /\
    s_dev st' = s_dev st /\ bd_state (s_drv st') = bd_state (s_drv st) /\
    bd_conn (s_drv st') = bd_conn (s_drv st) /\
    u64 (bd_readCount (s_drv st')) = u64 (bd_readCount (s_drv st) + Z.of_nat (length names)).
Proof.
  intros Hc. revert names results st. induction fuel as [|fuel IH]; intros names results st Hn Hf.
  - destruct names; [|simpl in Hf; lia]. exists st. simpl. rewrite app_nil_r, Z.add_0_r. done.
  - destruct names as [|n0 names'].
    { exists st. simpl. rewrite app_nil_r, Z.add_0_r. done. }
    set (names := n0 :: names') in *.
    assert (read_batches (S fuel) cfg client names now results st =
      let! (vs, st) := readS7Batch cfg client (take s7MaxBatchSize names) now st in
      read_batches fuel cfg client (drop s7MaxBatchSize names) now (results ++ vs)
        (on_drv (AddReadCount (Z.of_nat (length (take s7MaxBatchSize names)))) st)) as -> by done.
    destruct (readS7Batch_spec cfg client (take s7MaxBatchSize names) now st Hc) as (st1 & Hl & ->).
    { by apply Forall_take. }
    cbn [res_bind]. destruct Hl as (Hd & Hs & Hcn & Hrc & _).
    destruct (IH (drop s7MaxBatchSize names)
      (results ++ (name_value cfg (s_dev st) now <$> take s7MaxBatchSize names))
      (on_drv (AddReadCount (Z.of_nat (length (take s7MaxBatchSize names)))) st1))
      as (st' & He & Hd' & Hs' & Hcn' & Hrc').
    { by apply Forall_drop. }
    { rewrite length_drop. unfold s7MaxBatchSize. simpl in *. lia. }
    exists st'. rewrite He. cbn [on_drv s_dev s_drv AddReadCount bd_state bd_conn bd_readCount] in *.
    rewrite Hd, <- app_assoc, <- fmap_app, take_drop. split_and!; [done|congruence..|].
    rewrite Hrc', Hrc. unfold wrapu. rewrite Zplus_mod_idemp_l. f_equal.
    rewrite length_take, length_drop. lia.
Qed.

End reading.

(** ** Writing *)

Section writing.
Context {D C : Type} `{S7Device D C} `{EqDecision C} `{S7HelperLaws} `{GoArch}.

Abbreviation bytes := (Forall (fun b => 0 <= b < 256)).

(** A value of a declared type, as the decoder of write commands builds it. *)
Definition typed (dt : DataType) (v : Value) : Prop :=
  match dt, v with
  | TypeBool, VBool _ => True
  | TypeUint16, VUint16 z => 0 <= z < 2 ^ 16
  | TypeInt16, VInt16 z => - 2 ^ 15 <= z < 2 ^ 15
  | TypeUint32, VUint32 z => 0 <= z < 2 ^ 32
  | TypeInt32, VInt32 z => - 2 ^ 31 <= z < 2 ^ 31
  | TypeFloat32, VFloat32 f => f_valid F32 f = true
  | TypeFloat64, VFloat64 f => f_valid F64 f = true
  | _, _ => False
  end.

Lemma be_store_spec n z buf :
  (n <= length buf)%nat -> 0 <= z < 2 ^ (8 * Z.of_nat n) -> bytes buf ->
  length (be_store n z buf) = length buf /\ bytes (be_store n z buf) /\
  be_read n (be_store n z buf) = Ok z /\ be_uint 0 (take n (be_store n z buf)) = z.
Proof.
  intros Hn Hz Hb. unfold be_read, be_store.
  assert (take n (be_put n z ++ drop n buf) = be_put n z) as Et
    by (apply take_app_length'; symmetry; apply length_be_put).
  assert (length (be_put n z ++ drop n buf) = length buf) as El
    by (rewrite length_app, length_be_put, length_drop; lia).
  rewrite Et, be_uint_put by done. split_and!; [done| | |done].
  - apply Forall_app. split; [apply be_put_range|by apply Forall_drop].
  - by rewrite decide_False by lia.
Qed.

Lemma zeros_ok n : length (replicate n 0) = n /\ bytes (replicate n 0).
Proof. split; [apply length_replicate|]. apply Forall_replicate. lia. Qed.

(** Encoding and decoding a value that is not a single bit. *)
Lemma encode_decode v a dt :
  addr_wf a -> sa_isBit a = false -> (dt = TypeBool -> sa_bit a = 0) ->
  s7RequiredSize dt <= sa_size a -> typed dt v ->
  exists buf, encodeS7Value v a dt = Ok buf /\ length buf = Z.to_nat (sa_size a) /\ bytes buf /\
    decodeS7Buffer buf [] a dt = Ok v.
Proof.
  intros [_ _ Hsz] Hb Hbit Hr Ht. destruct (zeros_ok (Z.to_nat (sa_size a))) as [Hl Hz].
  unfold encodeS7Value, decodeS7Buffer. rewrite Hb, decide_False by lia.
  rewrite decide_False by lia. set (zs := replicate _ 0) in *.
  assert (forall n z, 0 <= z < 2 ^ (8 * Z.of_nat n) -> Z.of_nat n <= sa_size a ->
    length (be_store n z zs) = Z.to_nat (sa_size a) /\ bytes (be_store n z zs) /\
    be_read n (be_store n z zs) = Ok z /\ be_uint 0 (take n (be_store n z zs)) = z) as Hst.
  { intros n z Hzr Hn. rewrite <- Hl. apply be_store_spec; [lia|done|done]. }
  assert (forall buf : list Z, length buf = Z.to_nat (sa_size a) ->
    ~ (s7RequiredSize dt > 0 /\ Z.of_nat (length buf) < s7RequiredSize dt)) as Hbig by (intros; lia).
  destruct dt, v as [|b|?|?|z|z|?|?|?|z|z|?|f|f|?|?|?]; try done; simpl in Ht, Hr.
  - exists (if b then <[0%nat:=1]> zs else zs). split; [by destruct b|].
    assert (length (if b then <[0%nat:=1]> zs else zs) = Z.to_nat (sa_size a)) as Hlb
      by (destruct b; rewrite ?length_insert; done).
    split_and!; [done|destruct b; [apply Forall_insert; [done|lia]|done]|].
    rewrite decide_False by (by apply Hbig). unfold decodeS7TypedValue.
    rewrite (go_index_lookup _ 0 (if b then 1 else 0)); [|done|].
    + simpl. rewrite law_get_bool, Hbit by (rewrite ?Hbit by done; lia || done). by destruct b.
    + destruct b; [by rewrite list_lookup_insert_eq by lia|]. apply lookup_replicate. lia.
  - destruct (Hst 2%nat (u16 z) ltac:(apply wrapu_range; lia) ltac:(lia)) as (H1' & H2' & H3' & _).
    exists (be_store 2 (u16 z) zs). split_and!; [done..|]. rewrite decide_False by (by apply Hbig). unfold decodeS7TypedValue. rewrite H3'. cbn [res_bind].
    by rewrite wraps_wrapu, wraps_small by lia.
  - destruct (Hst 4%nat (u32 z) ltac:(apply wrapu_range; lia) ltac:(lia)) as (H1' & H2' & H3' & _).
    exists (be_store 4 (u32 z) zs). split_and!; [done..|]. rewrite decide_False by (by apply Hbig). unfold decodeS7TypedValue. rewrite H3'. cbn [res_bind].
    by rewrite wraps_wrapu, wraps_small by lia.
  - destruct (Hst 2%nat z ltac:(lia) ltac:(lia)) as (H1' & H2' & H3' & _).
    exists (be_store 2 z zs). split_and!; [done..|]. rewrite decide_False by (by apply Hbig). unfold decodeS7TypedValue. by rewrite H3'.
  - destruct (Hst 4%nat z ltac:(lia) ltac:(lia)) as (H1' & H2' & H3' & _).
    exists (be_store 4 z zs). split_and!; [done..|]. rewrite decide_False by (by apply Hbig). unfold decodeS7TypedValue. by rewrite H3'.
  - destruct (Hst 4%nat (f_bits F32 f) ltac:(by apply (f_bits_range F32 F32_ok)) ltac:(lia)) as (H1' & H2' & _ & H4').
    exists (be_store 4 (f_bits F32 f) zs). rewrite law_set_real by lia. fold (be_store 4 (f_bits F32 f) zs).
    split_and!; [done..|]. rewrite decide_False by (by apply Hbig). unfold decodeS7TypedValue.
    by rewrite law_get_real, H4', f_frombits_bits by (apply F32_ok || done || lia).
  - destruct (Hst 8%nat (f_bits F64 f) ltac:(by apply (f_bits_range F64 F64_ok)) ltac:(lia)) as (H1' & H2' & _ & H4').
    exists (be_store 8 (f_bits F64 f) zs). rewrite law_set_lreal by lia. fold (be_store 8 (f_bits F64 f) zs).
    split_and!; [done..|]. rewrite decide_False by (by apply Hbig). unfold decodeS7TypedValue.
    by rewrite law_get_lreal, H4', f_frombits_bits by (apply F64_ok || done || lia).
Qed.

Lemma set_bool_byte b pos v :
  0 <= b < 256 -> 0 <= pos <= 7 -> 0 <= h_SetBoolAt b pos v < 256.
Proof.
  intros Hb Hp. rewrite law_set_bool by done.
  assert (forall x, (forall n, 8 <= n -> Z.testbit x n = false) -> 0 <= x -> 0 <= x < 256) as Hx.
  { intros x Hn H0x. split; [done|]. destruct (decide (x = 0)) as [->|]; [lia|].
    change 256 with (2 ^ 8). apply Z.log2_lt_pow2; [lia|].
    destruct (decide (8 <= Z.log2 x)) as [Hl|]; [|lia]. pose proof (Z.bit_log2 x ltac:(lia)) as Ht.
    rewrite Hn in Ht by done. done. }
  destruct v; apply Hx.
  - intros n Hn. rewrite Z.setbit_neq by lia. by apply (testbit_high b 8).
  - apply Z.lor_nonneg. split; [lia|]. apply Z.shiftl_nonneg. lia.
  - intros n Hn. rewrite Z.clearbit_neq by lia. by apply (testbit_high b 8).
  - apply Z.ldiff_nonneg. lia.
Qed.

Lemma set_bool_bits b pos v n :
  0 <= pos <= 7 -> 0 <= n ->
  Z.testbit (h_SetBoolAt b pos v) n = if decide (n = pos) then v else Z.testbit b n.
Proof.
  intros Hp Hn. rewrite law_set_bool by done. case_decide as E; [subst n|]; destruct v.
  - by rewrite Z.setbit_eq.
  - by rewrite Z.clearbit_eq.
  - by rewrite Z.setbit_neq by lia.
  - by rewrite Z.clearbit_neq by lia.
Qed.

Lemma wrote_slice d area db start buf r :
  wrote dev_mem area db start buf d r -> mem_slice (dev_mem r.1 area db) start (length buf) = buf.
Proof.
  intros [_ Hw]. apply list_eq. intros i. destruct (decide (i < length buf)%nat) as [Hi|Hi].
  - rewrite mem_slice_lookup by done. rewrite Hw, decide_True by (split_and!; [done..|lia|lia]).
    replace (Z.to_nat _) with i by lia. apply lookup_lt_is_Some_2 in Hi as [b Hb]. by rewrite Hb.
  - rewrite !lookup_ge_None_2; [done|lia|]. rewrite length_mem_slice. lia.
Qed.

(** The bits a write to an address may change. *)
Definition written (a : s7Address) (area : s7Area) (db i n : Z) : Prop :=
  area = sa_area a /\ db = block_of (sa_area a) (sa_dbNumber a) /\
  if sa_isBit a then i = sa_start a /\ n = sa_bit a
  else sa_start a <= i < sa_start a + sa_size a.

Lemma bit_write_read (c : C) a cmd b (d : D) :
  addr_wf a -> sa_isBit a = true -> cmd_Type cmd = TypeBool -> cmd_Value cmd = VBool b ->
  exists d',
    writeAddress c a cmd d = (d', Ok tt) /\ readAddress c a TypeBool d' = (d', Ok (VBool b)) /\
    (forall area db i n, 0 <= n -> ~ written a area db i n ->
       Z.testbit (dev_mem d' area db i) n = Z.testbit (dev_mem d area db i) n).
Proof.
  intros [_ Hb7 Hsz] Eb Et Ev. unfold writeAddress, written. rewrite Eb, Et, Ev.
  destruct (encodeS7Value (VBool b) a TypeBool) as [enc|e|] eqn:Een.
  2-3: exfalso; revert Een; unfold encodeS7Value; simpl; by rewrite !decide_False by lia.
  unfold bit_read. rewrite dev_read.
  rewrite (go_index_lookup _ 0 _ ltac:(lia) (mem_slice_lookup _ _ 1 0 ltac:(lia))).
  rewrite Z.add_0_r. set (cur := dev_mem d _ _ _). pose proof (dev_byte d (sa_area a)
    (block_of (sa_area a) (sa_dbNumber a)) (sa_start a)) as Hcur. fold cur in Hcur.
  unfold bit_byte. set (nb := h_SetBoolAt _ _ _).
  assert (Forall (fun b => 0 <= b < 256) [nb]) as Hnb by (repeat constructor; by apply set_bool_byte).
  pose proof (dev_write c a [nb] d Hnb) as [Herr Hmem]. destruct (area_write c a [nb] d) as [d' err].
  simpl in Herr, Hmem. subst err. exists d'. split_and!; [done| |].
  - unfold readAddress. rewrite decide_False, dev_read by lia. f_equal. unfold decodeS7Buffer. rewrite Eb.
    rewrite (go_index_lookup _ 0 nb); [|lia|].
    + simpl. rewrite law_get_bool by done. unfold nb. by rewrite set_bool_bits, decide_True by lia.
    + rewrite mem_slice_lookup by lia. f_equal. rewrite Z.add_0_r, Hmem.
      rewrite decide_True by (split_and!; [done..|lia|lia]). by rewrite Z.sub_diag.
  - intros area db i n Hn Hnw. rewrite Hmem. destruct (decide _) as [(-> & -> & Hi)|]; [|done].
    assert (i = sa_start a) as -> by lia. rewrite Z.sub_diag.
    change (default 0 ([nb] !! Z.to_nat 0)) with nb. unfold nb. rewrite set_bool_bits by lia. by rewrite decide_False by naive_solver.
Qed.


(** A write command for an 8-bit integer tag reports success and
    stores zero, whatever the value: the encoder converts through [ToUint16],
    which does not know 8-bit integers.  Reading the tag back gives zero. *)
Theorem s7_int8_write_zero (c : C) a cmd (d : D) z zero :
  addr_wf a -> sa_isBit a = false ->
  (cmd_Type cmd = TypeInt8 /\ cmd_Value cmd = VInt8 z /\ zero = VInt8 0 \/
   cmd_Type cmd = TypeUint8 /\ cmd_Value cmd = VUint8 z /\ zero = VUint8 0) ->
  exists d', writeAddress c a cmd d = (d', Ok tt) /\ readAddress c a (cmd_Type cmd) d' = (d', Ok zero).
Proof.
  intros [_ _ Hsz] Eb Hc. destruct (zeros_ok (Z.to_nat (sa_size a))) as [Hl Hz].
  set (zs := replicate (Z.to_nat (sa_size a)) 0) in *.
  assert (zs !! 0%nat = Some 0) as Hz0 by (apply lookup_replicate; lia).
  assert (encodeS7Value (cmd_Value cmd) a (cmd_Type cmd) = Ok zs) as He.
  { unfold encodeS7Value. destruct Hc as [(-> & -> & _)|(-> & -> & _)]; simpl;
      rewrite !decide_False by lia; f_equal; by apply list_insert_id. }
  unfold writeAddress. rewrite He, Eb. pose proof (dev_write c a zs d Hz) as Hw.
  destruct (area_write c a zs d) as [d' err]. pose proof Hw as [Herr _]. simpl in Herr. subst err.
  exists d'. split; [done|]. unfold readAddress. rewrite decide_False, dev_read, <- Hl by lia.
  apply wrote_slice in Hw. simpl in Hw. rewrite Hw. unfold decodeS7Buffer. rewrite Eb.
  destruct Hc as [(-> & _ & ->)|(-> & _ & ->)]; simpl; rewrite decide_False by lia;
    by rewrite (go_index_lookup _ 0 0) by done.
Qed.

(** A single-bit write with another task's operation between its read and its
    write; [writeMu] keeps other single-bit writes out, and nothing else. *)
Definition bit_write_around (c : C) (a : s7Address) (v : Value) (other : D -> D) (d : D) : D :=
  match bit_read c a d with
  | (d, Ok cur) => (area_write c a [bit_byte a v cur] (other d)).1
  | (d, _) => d
  end.

Lemma bit_write_alone c a cmd b d :
  addr_wf a -> sa_isBit a = true -> cmd_Type cmd = TypeBool -> cmd_Value cmd = VBool b ->
  (writeAddress c a cmd d).1 = bit_write_around c a (VBool b) id d.
Proof.
  intros [_ _ Hsz] Eb Et Ev. unfold writeAddress, bit_write_around. rewrite Eb, Et, Ev.
  destruct (encodeS7Value (VBool b) a TypeBool) as [enc|e|] eqn:Een.
  2-3: exfalso; revert Een; unfold encodeS7Value; simpl; by rewrite !decide_False by lia.
  destruct (bit_read c a d) as [d' [cur|e|]]; [|done|done]. simpl.
  by destruct (area_write _ _ _ _) as [d2 [e|]].
Qed.

(** A write of the whole byte by another task between the read and
    the write of a single-bit write is lost: the device ends with the very
    memory it would have had without it, although that write succeeded. *)
Theorem s7_bit_write_loses_byte (c : C) a a2 cmd2 v (d : D) :
  addr_wf a -> sa_isBit a = true -> sa_isBit a2 = false -> sa_size a2 = 1 ->
  sa_area a2 = sa_area a -> sa_dbNumber a2 = sa_dbNumber a -> sa_start a2 = sa_start a ->
  cmd_Type cmd2 = TypeUint8 ->
  (writeAddress c a2 cmd2 d).2 = Ok tt /\
  forall area db i,
    dev_mem (bit_write_around c a v (fun d => (writeAddress c a2 cmd2 d).1) d) area db i
    = dev_mem (bit_write_around c a v id d) area db i.
Proof.
  intros [_ Hb7 Hsz] Eb Eb2 Hs2 Ea Ed Es Et.
  assert (encodeS7Value (cmd_Value cmd2) a2 TypeUint8 = Ok [u8 (ToUint16 (cmd_Value cmd2))]) as He
    by (unfold encodeS7Value; rewrite Hs2; done).
  assert (bytes [u8 (ToUint16 (cmd_Value cmd2))]) as Hby
    by (constructor; [apply (wrapu_range 8); lia|constructor]).
  pose proof (dev_write c a2 _ d Hby) as [Herr Hm].
  unfold writeAddress. rewrite Et, He, Eb2. destruct (area_write c a2 _ d) as [d2 err] eqn:Ew.
  simpl in Herr, Hm. subst err. split; [done|]. intros area db i. unfold bit_write_around, bit_read.
  rewrite dev_read, (go_index_lookup _ 0 _ ltac:(lia) (mem_slice_lookup _ _ 1 0 ltac:(lia))).
  set (nb := bit_byte _ _ _). rewrite Ew.
  assert (bytes [nb]) as Hnb by (constructor; [apply set_bool_byte; [apply dev_byte|done]|constructor]).
  destruct (dev_write c a [nb] d2 Hnb) as [_ ->].
  destruct (dev_write c a [nb] (id d) Hnb) as [_ ->].
  destruct (decide _) as [|Hn]; [done|].
  rewrite Hm, decide_False; [done|]. rewrite Ea, Ed, Es. intros (-> & -> & Hi).
  apply Hn. split_and!; [done..|simpl; lia|simpl; lia].
Qed.
End writing.

(** ** A simulated controller *)
Module Sim.
Definition mem : Type := s7Area -> Z -> Z -> Z.

Definition read (area : s7Area) (db start : Z) (n : nat) (d : mem) : mem * (list Z + error) :=
  (d, inl (mem_slice (fun i => u8 (d area db i)) start n)).

Definition write (area : s7Area) (db start : Z) (buf : list Z) (d : mem) : mem * option error :=
  (fun area' db' i =>
     if decide (area' = area /\ db' = db /\ start <= i < start + Z.of_nat (length buf))
     then default 0 (buf !! Z.to_nat (i - start)) else d area' db' i, None).

#[local] Instance lib : S7Lib mem unit := {|
  lib_AGReadDB _ db := read areaDB db;
  lib_AGReadMB _ := read areaM 0;
  lib_AGReadEB _ := read areaI 0;
  lib_AGReadAB _ := read areaQ 0;
  lib_AGWriteDB _ db := write areaDB db;
  lib_AGWriteMB _ := write areaM 0;
  lib_AGWriteEB _ := write areaI 0;
  lib_AGWriteAB _ := write areaQ 0;
|}.

#[local] Instance helper : S7Helper := {|
  h_GetBoolAt b pos := Z.testbit b pos;
  h_SetBoolAt b pos v := if v then Z.setbit b pos else Z.clearbit b pos;
  h_GetRealAt buf := f_frombits F32 (be_uint 0 (take 4 buf));
  h_SetRealAt buf x := be_put 4 (f_bits F32 x) ++ drop 4 buf;
  h_GetLRealAt buf := f_frombits F64 (be_uint 0 (take 8 buf));
  h_SetLRealAt buf x := be_put 8 (f_bits F64 x) ++ drop 8 buf;
  h_GetStringAt _ _ := Ok "";
|}.

#[local] Instance helper_laws : S7HelperLaws.
Proof. split; done. Qed.

Lemma write_wrote area db start buf d :
  Forall (fun b => 0 <= b < 256) buf ->
  wrote (fun (d : mem) area db i => u8 (d area db i)) area db start buf d (write area db start buf d).
Proof.
  intros Hb. split; [done|]. intros area' db' i. unfold write. simpl. case_decide as Hd; [|done].
  apply wrapu_small. destruct (buf !! Z.to_nat (i - start)) as [b|] eqn:E; [|simpl; lia].
  rewrite Forall_lookup in Hb. by eapply Hb.
Qed.

#[local] Instance dev : S7Device mem unit.
Proof.
  refine {| dev_mem := fun (d : mem) area db i => u8 (d area db i) |};
    try done; intros; try (by apply write_wrote). apply (wrapu_range 8). lia.
Defined.

(** Two words with a gap, a bit, and a name that is not configured. *)
Definition tag (name addr typ : string) : TagConfig :=
  mkTagConfig name addr typ "" "" f_zero f_zero f_zero "" "" "" "" "".
Definition tags : list TagConfig :=
  [tag "w" "DB1.DBW0" "uint16"; tag "far" "db1.dbw10" "int16"; tag "bit" "M3.5" "bool"].
Definition empty : s7Config := mkS7Config "plc" ∅ ∅.
Definition cfg : s7Config := (init_tags tags empty).2.
Definition names : list string := ["far"; "w"; "none"; "bit"]%string.
Definition start : s7state mem unit :=
  mkS (fun _ _ i => i + 1) (set_conn StateConnected (Some tt) 0 bd_zero).
Definition cmd (dt : DataType) (v : Value) : WriteCommand :=
  mkWriteCommand "plc" "" "w" v dt "api" "" false.
Definition word : s7Address := mkS7Addr areaDB 1 0 0 2 false.
Definition byte : s7Address := mkS7Addr areaM 0 3 0 1 false.
Definition bit : s7Address := mkS7Addr areaM 0 3 5 1 true.

Lemma word_wf : addr_wf word.
Proof. split; vm_compute; split; congruence. Qed.

Lemma byte_wf : addr_wf byte.
Proof. split; vm_compute; split; congruence. Qed.

Lemma bit_wf : addr_wf bit.
Proof. split; vm_compute; split; congruence. Qed.
End Sim.

Lemma s7_plan_covers_witness :
  entries (planS7ReadSegments [mkTag 0 "w" Sim.word TypeUint16 f_zero f_zero;
                               mkTag 1 "b" Sim.byte TypeUint8 f_zero f_zero])
  ≡ₚ [mkTag 0 "w" Sim.word TypeUint16 f_zero f_zero; mkTag 1 "b" Sim.byte TypeUint8 f_zero f_zero].
Proof.
  apply s7_plan_covers. constructor; [apply Sim.word_wf|]. constructor; [apply Sim.byte_wf|constructor].
Defined.



Lemma s7_int8_write_zero_witness :
  exists d',
    writeAddress (H := Sim.lib) (H0 := Sim.helper) (H1 := amd64_f2i) tt Sim.byte
      (Sim.cmd TypeInt8 (VInt8 5)) (s_dev Sim.start) = (d', Ok tt) /\
    readAddress (H := Sim.lib) (H0 := Sim.helper) tt Sim.byte TypeInt8 d' = (d', Ok (VInt8 0)).
Proof.
  exact (s7_int8_write_zero (H0 := Sim.dev) (H1 := Sim.helper) (H3 := amd64_f2i) tt Sim.byte
    (Sim.cmd TypeInt8 (VInt8 5)) (s_dev Sim.start) 5 (VInt8 0) Sim.byte_wf eq_refl
    (or_introl (conj eq_refl (conj eq_refl eq_refl)))).
Defined.

Lemma s7_bit_write_loses_byte_witness :
  dev_mem (S7Device := Sim.dev)
    (bit_write_around (H := Sim.lib) (H1 := Sim.helper) tt Sim.bit (VBool true)
       (fun d => (writeAddress (H := Sim.lib) (H0 := Sim.helper) (H1 := amd64_f2i) tt Sim.byte
                    (Sim.cmd TypeUint8 (VInt 255)) d).1) (s_dev Sim.start)) areaM 0 3
  = dev_mem (S7Device := Sim.dev)
      (bit_write_around (H := Sim.lib) (H1 := Sim.helper) tt Sim.bit (VBool true) id (s_dev Sim.start)) areaM 0 3.
Proof.
  apply (s7_bit_write_loses_byte (H0 := Sim.dev) (H2 := Sim.helper_laws) (H3 := amd64_f2i) tt Sim.bit
    Sim.byte (Sim.cmd TypeUint8 (VInt 255)) (VBool true) (s_dev Sim.start) Sim.bit_wf);
    reflexivity.
Defined.
