(* ===== verification/JsonDecode.v ===== *)
(** * Typed JSON values ([core/json_decode.go])

    Rebuilding the value of a data point or a write command from its raw JSON
    token and its declared type.  The parts of [encoding/json] and [strconv]
    that are used beyond integers are parameters ([JsonLib]). *)

From Stdlib Require Import ZArith Lia String Ascii.
From stdpp Require Import base list strings.
From S2P Require Import Prelude GoFloat Types.

Open Scope Z_scope.

Class JsonLib := {
  json_any : string -> option Value;           (* json.Unmarshal into an any *)
  json_string : string -> option string;       (* ... into a string *)
  json_bytes : string -> option (list Z);      (* ... into a []byte *)
  parse_float : fmt -> string -> option float; (* strconv.ParseFloat *)
}.

Section decode.
Context `{JsonLib}.

Definition decodeDefaultAny (raw : string) : Value :=
  match json_any raw with Some v => v | None => VNil end.

(** The token is never empty here. *)
Definition isNumberToken (text : string) : bool :=
  match text with
  | String c _ => bool_decide (c = "-"%char) || bool_decide (is_Some (digit_val c))
  | EmptyString => false
  end.

Definition decodeSignedToken (text : string) (dt : DataType) : Value :=
  if negb (isNumberToken text) then decodeDefaultAny text
  else
    match ParseInt text 64 with
    | None => decodeDefaultAny text
    | Some v =>
        match dt with
        | TypeInt8 => VInt8 (i8 v)
        | TypeInt16 => VInt16 (i16 v)
        | TypeInt32 => VInt32 (i32 v)
        | _ => VInt64 v
        end
    end.

Definition decodeUnsignedToken (text : string) (dt : DataType) : Value :=
  if negb (isNumberToken text) then decodeDefaultAny text
  else
    match ParseUint text 64 with
    | None => decodeDefaultAny text
    | Some v =>
        match dt with
        | TypeUint8 => VUint8 (u8 v)
        | TypeUint16 => VUint16 (u16 v)
        | TypeUint32 => VUint32 (u32 v)
        | _ => VUint64 v
        end
    end.

Definition decodeFloatToken (text : string) (dt : DataType) : Value :=
  if negb (isNumberToken text) then decodeDefaultAny text
  else if decide (dt = TypeFloat32) then
    match parse_float F32 text with
    | Some v => VFloat32 v
    | None => decodeDefaultAny text
    end
  else
    match parse_float F64 text with
    | Some v => VFloat64 v
    | None => decodeDefaultAny text
    end.

Definition decodeBoolToken (text : string) : Value :=
  if decide (text = "true"%string \/ text = "false"%string)
  then VBool (bool_decide (text = "true"%string))
  else decodeDefaultAny text.

Definition starts_quote (text : string) : bool :=
  match text with String c _ => bool_decide (c = ascii_of_N 34) | EmptyString => false end.

Definition decodeStringToken (text : string) : Value :=
  if starts_quote text then
    match json_string text with Some s => VString s | None => decodeDefaultAny text end
  else decodeDefaultAny text.

Definition decodeBytesToken (text : string) : Value :=
  if starts_quote text then
    match json_bytes text with Some b => VBytes b | None => decodeDefaultAny text end
  else decodeDefaultAny text.

Definition decodeValueByType (raw : string) (dt : DataType) : Value :=
  if decide (raw = EmptyString \/ raw = "null"%string) then VNil
  else
    match dt with
    | TypeInt8 | TypeInt16 | TypeInt32 | TypeInt64 => decodeSignedToken raw dt
    | TypeUint8 | TypeUint16 | TypeUint32 | TypeUint64 => decodeUnsignedToken raw dt
    | TypeFloat32 | TypeFloat64 => decodeFloatToken raw dt
    | TypeBool => decodeBoolToken raw
    | TypeString => decodeStringToken raw
    | TypeBytes => decodeBytesToken raw
    | _ => decodeDefaultAny raw
    end.
End decode.

(** ** Integers survive *)

Lemma decimal_head n :
  0 <= n < 10 ^ 20 ->
  exists c s, decimal n = String c s /\ is_Some (digit_val c) /\ parse_digits 0 (String c s) = Some n.
Proof.
  intros Hn. assert (parse_digits 0 (decimal n) = Some n) as Hp
    by (unfold decimal; by rewrite dec_go_parse by lia).
  destruct (decimal n) as [|c s] eqn:E; [by apply dec_go_nonempty in E; [|lia]|].
  exists c, s. split_and!; [done| |done]. simpl in Hp. destruct (digit_val c); [by eexists|done].
Qed.

Lemma digit_not c c' : is_Some (digit_val c) -> digit_val c' = None -> c <> c'.
Proof. intros [d Hd] Hn ->. congruence. Qed.

(** Tokens of integers are number tokens, and parse back. *)
Lemma itoa_token z :
  - 2 ^ 63 <= z < 2 ^ 64 ->
  itoa z <> EmptyString /\ itoa z <> "null"%string /\ isNumberToken (itoa z) = true.
Proof.
  intros Hz. unfold itoa. case_decide; [done|].
  destruct (decimal_head z) as (c & s & -> & Hc & _); [lia|]. split_and!; [done| |].
  - intros [= -> _]. by destruct Hc.
  - simpl. rewrite (bool_decide_true (is_Some _)) by done. apply orb_true_r.
Qed.

Lemma ParseInt_itoa z : - 2 ^ 63 <= z < 2 ^ 63 -> ParseInt (itoa z) 64 = Some z.
Proof.
  intros Hz. unfold itoa. case_decide as Hn.
  - destruct (decimal_head (- z)) as (c & s & -> & Hc & Hp); [lia|]. unfold ParseInt.
    rewrite Hp. rewrite decide_True by lia. f_equal. lia.
  - destruct (decimal_head z) as (c & s & -> & Hc & Hp); [lia|]. unfold ParseInt.
    pose proof (digit_not c "-" Hc eq_refl). pose proof (digit_not c "+" Hc eq_refl).
    assert (forall (A : Type) (x y w : A), (match c with "-"%char => x | "+"%char => y | _ => w end) = w) as Hm.
    { intros. destruct c as [[] [] [] [] [] [] [] []]; done. }
    rewrite Hm, Hp. by rewrite decide_True by lia.
Qed.

(** The value an integer has at a type: its residue at the type's width. *)
Definition int_value (dt : DataType) (z : Z) : option Value :=
  match dt with
  | TypeInt8 => Some (VInt8 (i8 z))
  | TypeInt16 => Some (VInt16 (i16 z))
  | TypeInt32 => Some (VInt32 (i32 z))
  | TypeInt64 => Some (VInt64 (i64 z))
  | TypeUint8 => Some (VUint8 (u8 z))
  | TypeUint16 => Some (VUint16 (u16 z))
  | TypeUint32 => Some (VUint32 (u32 z))
  | TypeUint64 => Some (VUint64 (u64 z))
  | _ => None
  end.

(** What the parsers accept for a type. *)
Definition parse_range (dt : DataType) (z : Z) : Prop :=
  match dt with
  | TypeInt8 | TypeInt16 | TypeInt32 | TypeInt64 => - 2 ^ 63 <= z < 2 ^ 63
  | _ => 0 <= z < 2 ^ 64
  end.

(** An integer token decodes at its declared type. *)
Lemma decode_itoa `{JsonLib} dt z v :
  int_value dt z = Some v -> parse_range dt z -> decodeValueByType (itoa z) dt = v.
Proof.
  intros Hv Hr. assert (- 2 ^ 63 <= z < 2 ^ 64) as Hz by (destruct dt; simpl in Hr; lia).
  destruct (itoa_token z Hz) as (Hne & Hnn & Hnum).
  unfold decodeValueByType. rewrite decide_False by naive_solver.
  assert (0 <= z < 2 ^ 64 -> ParseUint (itoa z) 64 = Some z) as Hu.
  { intros. unfold itoa. rewrite decide_False by lia. apply ParseUint_decimal; lia. }
  destruct dt; simpl in Hv, Hr; simplify_eq; unfold decodeSignedToken, decodeUnsignedToken;
    rewrite Hnum; simpl; rewrite ?ParseInt_itoa, ?Hu by lia; try done.
  - f_equal. by rewrite (wraps_small 64) by lia.
  - f_equal. by rewrite (wrapu_small 64) by lia.
Qed.

(** An integer printed as a JSON number and decoded at a declared
    integer type is that integer, exactly, over the whole 64-bit range
    (in particular beyond the 53 bits of a float): the residue at the declared
    width, which is the integer itself when it fits. *)
Theorem json_integer_exact `{JsonLib} dt z v :
  int_value dt z = Some v -> parse_range dt z -> decodeValueByType (itoa z) dt = v.
Proof. apply decode_itoa. Qed.

Lemma json_integer_exact_witness :
  @decodeValueByType (Build_JsonLib (fun _ => None) (fun _ => None) (fun _ => None) (fun _ _ => None))
    "9007199254740993" TypeInt64 = VInt64 9007199254740993.
Proof.
  apply (json_integer_exact (H := Build_JsonLib (fun _ => None) (fun _ => None) (fun _ => None)
    (fun _ _ => None)) TypeInt64 9007199254740993).
  - vm_compute. reflexivity.
  - simpl. lia.
Defined.
