(* ===== verification/JsonText.v ===== *)
(** * JSON string literals ([encoding/json])

    The text of a JSON string as the standard library reads and writes it:
    UTF-8 with the replacement character for malformed input, the escapes of
    the encoder (HTML-safe, as [json.Marshal] produces them) and of the decoder
    (surrogate pairs included), the scanner's grammar of literals and of
    numbers.  A Go string is a list of bytes, here a [string].

    The lemmas show that the encoder's output is a literal the scanner accepts
    ([body_ok_esc]) and that decoding it gives the string back when it is valid
    UTF-8 ([unq_esc]), which every decoded string is ([utf8_unq]). *)

From Stdlib Require Import ZArith Lia String Ascii.
From stdpp Require Import base list strings.
From S2P Require Import Prelude.

Open Scope Z_scope.

Definition byte (c : ascii) : Z := Z.of_N (N_of_ascii c).
Definition chr (z : Z) : ascii := ascii_of_N (Z.to_N z).

Definition dquote : ascii := ascii_of_N 34.
Definition bslash : ascii := ascii_of_N 92.

Definition within (lo hi z : Z) : bool := (lo <=? z) && (z <=? hi).

(** ** UTF-8 *)

(** A continuation byte. *)
Definition cont (c : ascii) : bool := within 128 191 (byte c).

(** The well-formed sequences of two, three and four bytes. *)
Definition valid2 (a b : ascii) : bool := within 194 223 (byte a) && cont b.

Definition valid3 (a b c : ascii) : bool :=
  (((byte a =? 224) && within 160 191 (byte b))
   || (within 225 236 (byte a) && cont b)
   || ((byte a =? 237) && within 128 159 (byte b))
   || (within 238 239 (byte a) && cont b)) && cont c.

Definition valid4 (a b c d : ascii) : bool :=
  (((byte a =? 240) && within 144 191 (byte b))
   || (within 241 243 (byte a) && cont b)
   || ((byte a =? 244) && within 128 143 (byte b))) && cont c && cont d.

Inductive utf8 : string -> Prop :=
| utf8_nil : utf8 EmptyString
| utf8_1 a s : byte a < 128 -> utf8 s -> utf8 (String a s)
| utf8_2 a b s : valid2 a b = true -> utf8 s -> utf8 (String a (String b s))
| utf8_3 a b c s : valid3 a b c = true -> utf8 s -> utf8 (String a (String b (String c s)))
| utf8_4 a b c d s : valid4 a b c d = true -> utf8 s ->
    utf8 (String a (String b (String c (String d s)))).

(** [utf8.AppendRune] on a scalar value. *)
Definition encode_rune (r : Z) : string :=
  if r <? 128 then String (chr r) EmptyString
  else if r <? 2048 then
    String (chr (192 + r / 64)) (String (chr (128 + r mod 64)) EmptyString)
  else if r <? 65536 then
    String (chr (224 + r / 4096))
      (String (chr (128 + r / 64 mod 64)) (String (chr (128 + r mod 64)) EmptyString))
  else
    String (chr (240 + r / 262144))
      (String (chr (128 + r / 4096 mod 64))
        (String (chr (128 + r / 64 mod 64)) (String (chr (128 + r mod 64)) EmptyString))).

(** [unicode.ReplacementChar] as bytes. *)
Definition fffd : string := encode_rune 65533.

(** ** Decoding a literal ([unquoteBytes]) *)

Definition hex_val (c : ascii) : option Z :=
  let z := byte c in
  if within 48 57 z then Some (z - 48)
  else if within 97 102 z then Some (z - 87)
  else if within 65 70 z then Some (z - 55)
  else None.

Definition is_hex (c : ascii) : bool := match hex_val c with Some _ => true | None => false end.

Definition hexd (c : ascii) : Z := default 0 (hex_val c).

Definition u4 (a b c d : ascii) : Z := ((hexd a * 16 + hexd b) * 16 + hexd c) * 16 + hexd d.

Definition is_surrogate (r : Z) : bool := within 55296 57343 r.

(** [utf16.DecodeRune] of a pair; none when it is not a high and a low
    surrogate in this order. *)
Definition utf16_pair (r1 r2 : Z) : option Z :=
  if within 55296 56319 r1 && within 56320 57343 r2
  then Some ((r1 - 55296) * 1024 + (r2 - 56320) + 65536) else None.

(** The character a one-letter escape stands for. *)
Definition unesc (e : ascii) : ascii :=
  match byte e with
  | 98 => chr 8 | 102 => chr 12 | 110 => chr 10 | 114 => chr 13 | 116 => chr 9
  | _ => e
  end.

(** The pair that follows a high surrogate, when there is one. *)
Definition low_half (r : Z) (b u g1 g2 g3 g4 : ascii) : option Z :=
  if bool_decide (b = bslash) && bool_decide (u = "u"%char)
     && is_hex g1 && is_hex g2 && is_hex g3 && is_hex g4
  then utf16_pair r (u4 g1 g2 g3 g4) else None.

Fixpoint unq (s : string) : string :=
  match s with
  | EmptyString => EmptyString
  | String c s1 =>
      if bool_decide (c = bslash) then
        match s1 with
        | EmptyString => EmptyString
        | String e s2 =>
            if bool_decide (e = "u"%char) then
              match s2 with
              | String h1 (String h2 (String h3 (String h4 s3))) =>
                  let r := u4 h1 h2 h3 h4 in
                  if is_surrogate r then
                    match s3 with
                    | String b (String u (String g1 (String g2 (String g3 (String g4 s4))))) =>
                        match low_half r b u g1 g2 g3 g4 with
                        | Some d => encode_rune d +:+ unq s4
                        | None => fffd +:+ unq s3
                        end
                    | _ => fffd +:+ unq s3
                    end
                  else encode_rune r +:+ unq s3
              | _ => EmptyString
              end
            else String (unesc e) (unq s2)
        end
      else if byte c <? 128 then String c (unq s1)
      else
        match s1 with
        | EmptyString => fffd +:+ unq s1
        | String c1 s2 =>
            if valid2 c c1 then String c (String c1 (unq s2))
            else
              match s2 with
              | EmptyString => fffd +:+ unq s1
              | String c2 s3 =>
                  if valid3 c c1 c2 then String c (String c1 (String c2 (unq s3)))
                  else
                    match s3 with
                    | EmptyString => fffd +:+ unq s1
                    | String c3 s4 =>
                        if valid4 c c1 c2 c3
                        then String c (String c1 (String c2 (String c3 (unq s4))))
                        else fffd +:+ unq s1
                    end
              end
        end
  end.

(** ** Encoding a string ([appendString] with HTML escapes) *)

Definition hexc (d : Z) : ascii := chr (if d <? 10 then 48 + d else 87 + d).

(** [\u00XX]. *)
Definition u00 (z : Z) : string :=
  String bslash (String "u" (String "0" (String "0"
    (String (hexc (z / 16)) (String (hexc (z mod 16)) EmptyString))))).

Definition is_html (c : ascii) : bool :=
  match byte c with 60 | 62 | 38 => true | _ => false end.

Definition esc_ascii (c : ascii) : string :=
  match byte c with
  | 34 | 92 => String bslash (String c EmptyString)
  | 8 => String bslash (String "b" EmptyString)
  | 12 => String bslash (String "f" EmptyString)
  | 10 => String bslash (String "n" EmptyString)
  | 13 => String bslash (String "r" EmptyString)
  | 9 => String bslash (String "t" EmptyString)
  | _ => if (byte c <? 32) || is_html c then u00 (byte c) else String c EmptyString
  end.

(** U+2028 and U+2029, which are not valid in JavaScript source. *)
Definition is_linesep (a b c : ascii) : bool :=
  (byte a =? 226) && (byte b =? 128) && within 168 169 (byte c).

Definition esc_linesep (c : ascii) : string :=
  String bslash (String "u" (String "2" (String "0" (String "2"
    (String (hexc (byte c mod 16)) EmptyString))))).

Definition esc_invalid : string :=
  String bslash (String "u" (String "f" (String "f" (String "f" (String "d" EmptyString))))).

Fixpoint esc (s : string) : string :=
  match s with
  | EmptyString => EmptyString
  | String c s1 =>
      if byte c <? 128 then esc_ascii c +:+ esc s1
      else
        match s1 with
        | EmptyString => esc_invalid +:+ esc s1
        | String c1 s2 =>
            if valid2 c c1 then String c (String c1 (esc s2))
            else
              match s2 with
              | EmptyString => esc_invalid +:+ esc s1
              | String c2 s3 =>
                  if valid3 c c1 c2 then
                    (if is_linesep c c1 c2 then esc_linesep c2 +:+ esc s3
                     else String c (String c1 (String c2 (esc s3))))
                  else
                    match s3 with
                    | EmptyString => esc_invalid +:+ esc s1
                    | String c3 s4 =>
                        if valid4 c c1 c2 c3
                        then String c (String c1 (String c2 (String c3 (esc s4))))
                        else esc_invalid +:+ esc s1
                    end
              end
        end
  end.

(** The escapes [json.Marshal] applies to a raw literal it copies
    ([appendCompact] with HTML escapes). *)
Fixpoint hesc (s : string) : string :=
  match s with
  | EmptyString => EmptyString
  | String c s1 =>
      if is_html c then u00 (byte c) +:+ hesc s1
      else
        match s1 with
        | String c1 (String c2 s3) =>
            if is_linesep c c1 c2 then esc_linesep c2 +:+ hesc s3 else String c (hesc s1)
        | _ => String c (hesc s1)
        end
  end.

(** ** The scanner's literals *)

Definition is_simple_esc (e : ascii) : bool :=
  match byte e with
  | 98 | 102 | 110 | 114 | 116 | 92 | 47 | 34 => true
  | _ => false
  end.

Definition push1 (a : ascii) (r : option (string * string)) : option (string * string) :=
  match r with Some (b, t) => Some (String a b, t) | None => None end.

(** The body of a literal up to its closing quote, and what follows. *)
Fixpoint lex_str (s : string) : option (string * string) :=
  match s with
  | EmptyString => None
  | String c s1 =>
      if bool_decide (c = dquote) then Some (EmptyString, s1)
      else if bool_decide (c = bslash) then
        match s1 with
        | EmptyString => None
        | String e s2 =>
            if is_simple_esc e then push1 c (push1 e (lex_str s2))
            else if bool_decide (e = "u"%char) then
              match s2 with
              | String h1 (String h2 (String h3 (String h4 s3))) =>
                  if is_hex h1 && is_hex h2 && is_hex h3 && is_hex h4
                  then push1 c (push1 e (push1 h1 (push1 h2 (push1 h3 (push1 h4 (lex_str s3))))))
                  else None
              | _ => None
              end
            else None
        end
      else if byte c <? 32 then None
      else push1 c (lex_str s1)
  end.

(** Bodies the scanner accepts. *)
Inductive body_ok : string -> Prop :=
| body_nil : body_ok EmptyString
| body_char c s : c <> dquote -> c <> bslash -> 32 <= byte c -> body_ok s -> body_ok (String c s)
| body_esc e s : is_simple_esc e = true -> body_ok s -> body_ok (String bslash (String e s))
| body_u h1 h2 h3 h4 s :
    is_hex h1 && is_hex h2 && is_hex h3 && is_hex h4 = true -> body_ok s ->
    body_ok (String bslash (String "u" (String h1 (String h2 (String h3 (String h4 s)))))).

(** ** Numbers *)

Definition is_digit (c : ascii) : bool := within 48 57 (byte c).

Fixpoint span_digits (s : string) : string * string :=
  match s with
  | String c s1 =>
      if is_digit c then let '(a, b) := span_digits s1 in (String c a, b) else (EmptyString, s)
  | EmptyString => (EmptyString, EmptyString)
  end.

(** At least one digit. *)
Definition lex_digits (s : string) : option (string * string) :=
  match span_digits s with
  | (EmptyString, _) => None
  | (a, b) => Some (a, b)
  end.

Definition lex_int (s : string) : option (string * string) :=
  match s with
  | String c s1 =>
      if bool_decide (c = "0"%char) then Some (String c EmptyString, s1) else lex_digits s
  | EmptyString => None
  end.

Definition lex_frac (s : string) : option (string * string) :=
  match s with
  | String c s1 =>
      if bool_decide (c = "."%char) then push1 c (lex_digits s1) else Some (EmptyString, s)
  | EmptyString => Some (EmptyString, s)
  end.

Definition lex_exp (s : string) : option (string * string) :=
  match s with
  | String c s1 =>
      if bool_decide (c = "e"%char) || bool_decide (c = "E"%char) then
        match s1 with
        | String g s2 =>
            if bool_decide (g = "+"%char) || bool_decide (g = "-"%char)
            then push1 c (push1 g (lex_digits s2)) else push1 c (lex_digits s1)
        | EmptyString => None
        end
      else Some (EmptyString, s)
  | EmptyString => Some (EmptyString, s)
  end.

(** Two lexers in sequence. *)
Definition lex_then (l1 l2 : string -> option (string * string)) (s : string)
    : option (string * string) :=
  match l1 s with
  | Some (a, t) => match l2 t with Some (b, u) => Some (a +:+ b, u) | None => None end
  | None => None
  end.

Definition lex_sign (s : string) : option (string * string) :=
  match s with
  | String c s1 =>
      if bool_decide (c = "-"%char) then Some (String c EmptyString, s1) else Some (EmptyString, s)
  | EmptyString => Some (EmptyString, s)
  end.

Definition lex_num : string -> option (string * string) :=
  lex_then lex_sign (lex_then lex_int (lex_then lex_frac lex_exp)).

Definition num_ok (s : string) : Prop := lex_num s = Some (s, EmptyString).

(** ** Bytes *)

Lemma byte_range c : 0 <= byte c < 256.
Proof. unfold byte. pose proof (N_ascii_bounded c). lia. Qed.

Lemma byte_chr z : 0 <= z < 256 -> byte (chr z) = z.
Proof. intros. unfold byte, chr. rewrite N_ascii_embedding; lia. Qed.

Lemma byte_inj a b : byte a = byte b -> a = b.
Proof.
  unfold byte. intros H. rewrite <- (ascii_N_embedding a), <- (ascii_N_embedding b). f_equal. lia.
Qed.

(** Quotients and remainders by constants. *)
Ltac dm_lia := Z.to_euclidean_division_equations; lia.

(** Byte tests as linear arithmetic. *)
Ltac byte_lia :=
  unfold valid2, valid3, valid4, cont, within, is_digit in *;
  rewrite ?andb_true_iff, ?orb_true_iff, ?Z.leb_le, ?Z.eqb_eq in *; lia.

Lemma valid2_lead a b : valid2 a b = true -> 194 <= byte a <= 223.
Proof. byte_lia. Qed.

Lemma valid3_lead a b c : valid3 a b c = true -> 224 <= byte a <= 239.
Proof. byte_lia. Qed.

Lemma valid4_lead a b c d : valid4 a b c d = true -> 240 <= byte a <= 244.
Proof. byte_lia. Qed.

Lemma valid2_not a b : 224 <= byte a -> valid2 a b = false.
Proof. intros. apply not_true_iff_false. intros ?%valid2_lead. lia. Qed.

Lemma valid3_not a b c : 240 <= byte a -> valid3 a b c = false.
Proof. intros. apply not_true_iff_false. intros ?%valid3_lead. lia. Qed.

(** Every decision on a sequence is taken from its lead byte. *)
Lemma lead_tests a :
  128 <= byte a -> bool_decide (a = bslash) = false /\ (byte a <? 128) = false
  /\ is_html a = false /\ a <> dquote /\ a <> bslash.
Proof.
  intros H. assert (a <> bslash) by (intros ->; by vm_compute in H).
  assert (a <> dquote) by (intros ->; by vm_compute in H).
  split_and!; [by apply bool_decide_eq_false|lia| |done|done].
  unfold is_html. destruct (byte a) as [|p|p] eqn:E; [done| |done].
  do 7 (destruct p as [p|p|]; try done; try lia).
Qed.

(** ** Decoded strings are valid UTF-8 *)

Lemma utf8_app s t : utf8 s -> utf8 t -> utf8 (s +:+ t).
Proof. induction 1; intros; simpl; [done|by constructor; auto..]. Qed.

Lemma utf8_rune r : 0 <= r < 1114112 -> is_surrogate r = false -> utf8 (encode_rune r).
Proof.
  intros Hr Hs. unfold encode_rune. unfold is_surrogate, within in Hs. repeat case_match.
  - apply utf8_1; [rewrite byte_chr; dm_lia|constructor].
  - apply utf8_2; [|constructor]. unfold valid2, cont. rewrite !byte_chr by dm_lia. unfold within.
    rewrite !andb_true_iff, !Z.leb_le. dm_lia.
  - apply utf8_3; [|constructor]. unfold valid3, cont. rewrite !byte_chr by dm_lia. unfold within in *.
    rewrite ?andb_true_iff, ?orb_true_iff, ?Z.leb_le, ?Z.eqb_eq.
    rewrite andb_false_iff, !Z.leb_gt in Hs. dm_lia.
  - apply utf8_4; [|constructor]. unfold valid4, cont. rewrite !byte_chr by dm_lia. unfold within in *.
    rewrite ?andb_true_iff, ?orb_true_iff, ?Z.leb_le, ?Z.eqb_eq. dm_lia.
Qed.

Lemma utf8_fffd : utf8 fffd.
Proof. by apply utf8_rune. Qed.

Lemma hexd_range c : 0 <= hexd c < 16.
Proof.
  unfold hexd, hex_val, within. repeat case_match; simpl; try lia;
    rewrite ?andb_true_iff, ?Z.leb_le in *; lia.
Qed.

Lemma u4_range a b c d : 0 <= u4 a b c d < 65536.
Proof.
  unfold u4. pose proof (hexd_range a). pose proof (hexd_range b).
  pose proof (hexd_range c). pose proof (hexd_range d). lia.
Qed.

Lemma utf16_pair_rune r1 r2 d :
  utf16_pair r1 r2 = Some d -> 0 <= d < 1114112 /\ is_surrogate d = false.
Proof.
  unfold utf16_pair, is_surrogate, within. case_match; [|done]. intros [= <-].
  rewrite ?andb_true_iff, ?Z.leb_le in *. rewrite andb_false_iff, !Z.leb_gt. lia.
Qed.

Lemma low_half_rune r b u g1 g2 g3 g4 d :
  low_half r b u g1 g2 g3 g4 = Some d -> 0 <= d < 1114112 /\ is_surrogate d = false.
Proof. unfold low_half. case_match; [apply utf16_pair_rune|done]. Qed.

(** Strings by their length. *)
Lemma string_len_ind (P : string -> Prop) :
  (forall s, (forall t, (String.length t < String.length s)%nat -> P t) -> P s) -> forall s, P s.
Proof.
  intros H s. remember (String.length s) as n eqn:E. revert s E.
  induction (lt_wf n) as [n _ IH]. intros s ->. apply H. intros t Ht. by eapply IH.
Qed.

Lemma unesc_ascii e : byte e < 128 -> byte (unesc e) < 128.
Proof.
  intros. unfold unesc. destruct (byte e) as [|p|p] eqn:E; [lia| |lia].
  do 7 (destruct p as [p|p|]; try (rewrite E; lia); try (rewrite byte_chr; lia)); lia.
Qed.

Lemma simple_esc_ascii e : is_simple_esc e = true -> byte e < 128 /\ e <> "u"%char.
Proof.
  unfold is_simple_esc. intros H. split.
  - destruct (byte e) as [|p|p] eqn:E; [lia| |lia].
    do 7 (destruct p as [p|p|]; try done; try lia).
  - by intros ->.
Qed.

Lemma body_ok_tail c s : body_ok (String c s) -> 128 <= byte c -> body_ok s.
Proof. intros H Hc. inversion H; subst; try done; by vm_compute in Hc. Qed.

Lemma valid2_conts a b : valid2 a b = true -> 128 <= byte b.
Proof. byte_lia. Qed.

Lemma valid3_conts a b c : valid3 a b c = true -> 128 <= byte b /\ 128 <= byte c.
Proof. byte_lia. Qed.

Lemma valid4_conts a b c d :
  valid4 a b c d = true -> 128 <= byte b /\ 128 <= byte c /\ 128 <= byte d.
Proof. byte_lia. Qed.

(** Decoding a literal the scanner accepts gives valid UTF-8. *)
Lemma utf8_unq s : body_ok s -> utf8 (unq s).
Proof.
  induction s as [s IH] using string_len_ind. intros Hs.
  assert (forall t, (String.length t < String.length s)%nat -> body_ok t -> utf8 (fffd +:+ unq t)) as IHf
    by (intros; apply utf8_app; [apply utf8_fffd|auto]).
  destruct Hs as [|c s Hq Hb Hc Hs|e s He Hs|h1 h2 h3 h4 s Hh Hs].
  - constructor.
  - cbn [unq]. rewrite bool_decide_eq_false_2 by done.
    destruct (byte c <? 128) eqn:E; [constructor; [lia|apply IH; simpl; auto with lia]|].
    assert (utf8 (fffd +:+ unq s)) as Hf by (apply IHf; simpl; auto with lia).
    destruct s as [|c1 s]; [done|]. destruct (valid2 c c1) eqn:V2.
    { constructor; [done|]. apply IH; [simpl; lia|]. eauto using body_ok_tail, valid2_conts. }
    destruct s as [|c2 s]; [done|]. destruct (valid3 c c1 c2) eqn:V3.
    { destruct (valid3_conts _ _ _ V3). constructor; [done|]. apply IH; [simpl; lia|].
      eauto using body_ok_tail. }
    destruct s as [|c3 s]; [done|]. destruct (valid4 c c1 c2 c3) eqn:V4; [|done].
    destruct (valid4_conts _ _ _ _ V4) as (? & ? & ?). constructor; [done|].
    apply IH; [simpl; lia|]. eauto using body_ok_tail.
  - destruct (simple_esc_ascii e He). cbn [unq]. rewrite bool_decide_eq_true_2 by done.
    rewrite bool_decide_eq_false_2 by done. constructor; [by apply unesc_ascii|].
    apply IH; [simpl; lia|done].
  - cbn [unq]. rewrite !bool_decide_eq_true_2 by done. cbv zeta.
    destruct (is_surrogate _) eqn:Sg.
    2:{ apply utf8_app; [apply utf8_rune; [pose proof (u4_range h1 h2 h3 h4); lia|done]|].
        apply IH; [simpl; lia|done]. }
    assert (utf8 (fffd +:+ unq s)) as Hf by (apply IHf; simpl; auto with lia).
    do 6 (destruct s as [|? s]; [done|]).
    destruct (low_half _ _ _ _ _ _ _) eqn:L; [|done].
    destruct (low_half_rune _ _ _ _ _ _ _ _ L). apply utf8_app; [by apply utf8_rune|].
    apply IH; [simpl; lia|]. revert L. unfold low_half. case_match; [|done]. intros _.
    rewrite !andb_true_iff, !bool_decide_eq_true in H1. destruct H1 as (((((-> & ->) & ?) & ?) & ?) & ?).
    inversion Hs; subst; done.
Qed.

(** ** Encoding, then decoding *)

Lemma unq_esc_ascii c t : byte c < 128 -> unq (esc_ascii c +:+ t) = String c (unq t).
Proof. destruct c as [[] [] [] [] [] [] [] []]; intros H; try (by vm_compute in H); reflexivity. Qed.

Lemma linesep_bytes a b c :
  is_linesep a b c = true -> a = chr 226 /\ b = chr 128 /\ (c = chr 168 \/ c = chr 169).
Proof.
  unfold is_linesep, within. rewrite !andb_true_iff, !Z.eqb_eq, !Z.leb_le. intros H.
  split_and!; [by apply byte_inj; rewrite byte_chr by lia; lia..|].
  destruct (decide (byte c = 168)); [left|right]; apply byte_inj; rewrite byte_chr by lia; lia.
Qed.

(** One well-formed sequence is decoded as itself. *)
Lemma unq_lead2 a b t : valid2 a b = true -> unq (String a (String b t)) = String a (String b (unq t)).
Proof.
  intros V. destruct (lead_tests a) as (E1 & E2 & _); [apply valid2_lead in V; lia|].
  cbn [unq]. by rewrite E1, E2, V.
Qed.

Lemma unq_lead3 a b c t :
  valid3 a b c = true ->
  unq (String a (String b (String c t))) = String a (String b (String c (unq t))).
Proof.
  intros V. pose proof (valid3_lead _ _ _ V). destruct (lead_tests a) as (E1 & E2 & _); [lia|].
  cbn [unq]. by rewrite E1, E2, valid2_not, V by lia.
Qed.

Lemma unq_lead4 a b c d t :
  valid4 a b c d = true ->
  unq (String a (String b (String c (String d t)))) = String a (String b (String c (String d (unq t)))).
Proof.
  intros V. pose proof (valid4_lead _ _ _ _ V). destruct (lead_tests a) as (E1 & E2 & _); [lia|].
  cbn [unq]. by rewrite E1, E2, valid2_not, valid3_not, V by lia.
Qed.

Lemma esc_lead2 a b t : valid2 a b = true -> esc (String a (String b t)) = String a (String b (esc t)).
Proof.
  intros V. destruct (lead_tests a) as (E1 & E2 & _); [apply valid2_lead in V; lia|].
  cbn [esc]. by rewrite E2, V.
Qed.

Lemma esc_lead3 a b c t :
  valid3 a b c = true ->
  esc (String a (String b (String c t))) =
  if is_linesep a b c then esc_linesep c +:+ esc t else String a (String b (String c (esc t))).
Proof.
  intros V. pose proof (valid3_lead _ _ _ V). destruct (lead_tests a) as (E1 & E2 & _); [lia|].
  cbn [esc]. by rewrite E2, valid2_not, V by lia.
Qed.

Lemma esc_lead4 a b c d t :
  valid4 a b c d = true ->
  esc (String a (String b (String c (String d t)))) = String a (String b (String c (String d (esc t)))).
Proof.
  intros V. pose proof (valid4_lead _ _ _ _ V). destruct (lead_tests a) as (E1 & E2 & _); [lia|].
  cbn [esc]. by rewrite E2, valid2_not, valid3_not, V by lia.
Qed.

(** Valid UTF-8 survives the encoder and the decoder. *)
Lemma unq_esc s : utf8 s -> unq (esc s) = s.
Proof.
  induction 1 as [|a s Ha Hs IH|a b s V Hs IH|a b c s V Hs IH|a b c d s V Hs IH].
  - done.
  - cbn [esc]. rewrite (proj2 (Z.ltb_lt _ _) Ha), unq_esc_ascii by done. by rewrite IH.
  - by rewrite esc_lead2, unq_lead2, IH.
  - rewrite esc_lead3 by done. destruct (is_linesep a b c) eqn:L; [|by rewrite unq_lead3, IH].
    destruct (linesep_bytes _ _ _ L) as (-> & -> & [-> | ->]); rewrite <- IH at 2; reflexivity.
  - by rewrite esc_lead4, unq_lead4, IH.
Qed.

(** ** The encoder's output is a literal *)

Lemma body_ok_esc_ascii c t : byte c < 128 -> body_ok t -> body_ok (esc_ascii c +:+ t).
Proof.
  intros H Ht. destruct c as [[] [] [] [] [] [] [] []]; try (by vm_compute in H);
    first [ by apply (body_u _ _ _ _ t)
          | by apply (body_esc _ t)
          | by apply (body_char _ t) ].
Qed.

Lemma body_ok_high c s : 128 <= byte c -> body_ok s -> body_ok (String c s).
Proof. intros H Hs. destruct (lead_tests c H) as (_ & _ & _ & ? & ?). constructor; auto with lia. Qed.

Lemma body_ok_linesep a b c t : is_linesep a b c = true -> body_ok t -> body_ok (esc_linesep c +:+ t).
Proof.
  intros L Ht. destruct (linesep_bytes _ _ _ L) as (_ & _ & [-> | ->]); by apply (body_u _ _ _ _ t).
Qed.

Lemma body_ok_esc s : body_ok (esc s).
Proof.
  induction s as [s IH] using string_len_ind. destruct s as [|c s]; [constructor|]. cbn [esc].
  destruct (byte c <? 128) eqn:E; [apply body_ok_esc_ascii; [lia|apply IH; simpl; lia]|].
  assert (128 <= byte c) by lia.
  assert (body_ok (esc_invalid +:+ esc s)) as Hi
    by (apply (body_u "f" "f" "f" "d" (esc s)); [done|apply IH; simpl; lia]).
  destruct s as [|c1 s]; [done|]. destruct (valid2 c c1) eqn:V2.
  { apply valid2_conts in V2. do 2 (apply body_ok_high; [lia|]). apply IH; simpl; lia. }
  destruct s as [|c2 s]; [done|]. destruct (valid3 c c1 c2) eqn:V3.
  { destruct (is_linesep c c1 c2) eqn:L; [eapply body_ok_linesep; [done|apply IH; simpl; lia]|].
    apply valid3_conts in V3. do 3 (apply body_ok_high; [lia|]). apply IH; simpl; lia. }
  destruct s as [|c3 s]; [done|]. destruct (valid4 c c1 c2 c3) eqn:V4; [|done].
  apply valid4_conts in V4. do 4 (apply body_ok_high; [lia|]). apply IH; simpl; lia.
Qed.

(** ** Escaping a raw literal *)

Lemma hesc_plain c t : is_html c = false -> byte c <> 226 -> hesc (String c t) = String c (hesc t).
Proof.
  intros Hh H. cbn [hesc]. rewrite Hh. do 2 (destruct t as [|? t]; [done|]).
  case_match eqn:L; [|done]. destruct (linesep_bytes _ _ _ L) as (-> & _). done.
Qed.

Lemma str_app_nil_l (s : string) : EmptyString +:+ s = s.
Proof. done. Qed.

(** Evaluates the closed prefix of an appended text. *)
Ltac eval_prefix :=
  match goal with
  | |- context [?e +:+ _] => let v := eval vm_compute in e in change e with v
  end; rewrite ?str_app_cons, ?str_app_nil_l.

Lemma hesc_esc_ascii c t : byte c < 128 -> hesc (esc_ascii c +:+ t) = esc_ascii c +:+ hesc t.
Proof.
  intros H. destruct c as [[] [] [] [] [] [] [] []]; try (by vm_compute in H);
    eval_prefix; by rewrite !hesc_plain.
Qed.

Lemma hesc_linesep a b c t :
  is_linesep a b c = true -> hesc (esc_linesep c +:+ t) = esc_linesep c +:+ hesc t.
Proof.
  intros L. destruct (linesep_bytes _ _ _ L) as (_ & _ & [-> | ->]);
    eval_prefix; by rewrite !hesc_plain.
Qed.

Lemma hesc_cont c t : 128 <= byte c -> byte c <> 226 -> hesc (String c t) = String c (hesc t).
Proof. intros H ?. destruct (lead_tests c H) as (_ & _ & ? & _). by apply hesc_plain. Qed.

Lemma valid3_tail a b c : valid3 a b c = true -> byte b <= 191 /\ byte c <= 191.
Proof. byte_lia. Qed.

Lemma valid4_tail a b c d : valid4 a b c d = true -> byte b <= 191 /\ byte c <= 191 /\ byte d <= 191.
Proof. byte_lia. Qed.

Lemma hesc_lead3 a b c t :
  valid3 a b c = true -> is_linesep a b c = false ->
  hesc (String a (String b (String c t))) = String a (String b (String c (hesc t))).
Proof.
  intros V L. pose proof (valid3_lead _ _ _ V). pose proof (valid3_conts _ _ _ V).
  pose proof (valid3_tail _ _ _ V). destruct (lead_tests a) as (_ & _ & Hh & _); [lia|].
  transitivity (String a (hesc (String b (String c t)))).
  - cbn [hesc]. by rewrite Hh, L.
  - by rewrite !hesc_cont by lia.
Qed.

(** The encoder's literals are copied as they are. *)
Lemma hesc_esc s : hesc (esc s) = esc s.
Proof.
  induction s as [s IH] using string_len_ind. destruct s as [|c s]; [done|]. cbn [esc].
  destruct (byte c <? 128) eqn:E.
  { rewrite hesc_esc_ascii by lia. f_equal. apply IH. simpl. lia. }
  assert (hesc (esc_invalid +:+ esc s) = esc_invalid +:+ esc s) as Hi.
  { eval_prefix. rewrite !hesc_plain by done. rewrite IH by (simpl; lia). done. }
  destruct s as [|c1 s]; [done|]. destruct (valid2 c c1) eqn:V2.
  { assert (byte c1 <= 191) by byte_lia. pose proof (valid2_conts _ _ V2).
    pose proof (valid2_lead _ _ V2). rewrite !hesc_cont, IH by (simpl; lia). done. }
  destruct s as [|c2 s]; [done|]. destruct (valid3 c c1 c2) eqn:V3.
  { destruct (is_linesep c c1 c2) eqn:L.
    - erewrite hesc_linesep by done. f_equal. apply IH. simpl. lia.
    - rewrite hesc_lead3 by done. rewrite IH by (simpl; lia). done. }
  destruct s as [|c3 s]; [done|]. destruct (valid4 c c1 c2 c3) eqn:V4; [|done].
  pose proof (valid4_lead _ _ _ _ V4). pose proof (valid4_conts _ _ _ _ V4).
  pose proof (valid4_tail _ _ _ _ V4). rewrite !hesc_cont, IH by (simpl; lia). done.
Qed.

Lemma simple_esc_plain e : is_simple_esc e = true -> is_html e = false /\ byte e <> 226.
Proof.
  intros H. destruct (simple_esc_ascii e H). split; [|lia].
  destruct e as [[] [] [] [] [] [] [] []]; by vm_compute in H.
Qed.

Lemma hex_plain e : is_hex e = true -> is_html e = false /\ byte e <> 226.
Proof. intros H. destruct e as [[] [] [] [] [] [] [] []]; by vm_compute in H. Qed.

Lemma body_ok_hesc s : body_ok s -> body_ok (hesc s).
Proof.
  induction s as [s IH] using string_len_ind. intros Hs.
  destruct Hs as [|c s Hq Hb Hc Hs|e s He Hs|h1 h2 h3 h4 s Hh Hs].
  - constructor.
  - assert (body_ok (String c (hesc s))) as Hp
      by (constructor; [done..|apply IH; [simpl; lia|done]]).
    cbn [hesc]. destruct (is_html c) eqn:H.
    { assert (body_ok (hesc s)) by (apply IH; [simpl; lia|done]).
      destruct c as [[] [] [] [] [] [] [] []]; try (by vm_compute in H); by apply (body_u _ _ _ _ (hesc s)). }
    destruct s as [|c1 [|c2 s]]; [done..|]. destruct (is_linesep c c1 c2) eqn:L; [|done].
    eapply body_ok_linesep; [done|]. apply IH; [simpl; lia|].
    destruct (linesep_bytes _ _ _ L) as (_ & -> & [-> | ->]);
      refine (body_ok_tail _ _ (body_ok_tail _ _ Hs _) _); by apply Z.leb_le.
  - destruct (simple_esc_plain e He). rewrite !hesc_plain by done. apply body_esc; [done|].
    apply IH; [simpl; lia|done].
  - pose proof Hh as Hh'. rewrite !andb_true_iff in Hh'. destruct Hh' as (((H1 & H2) & H3) & H4).
    apply hex_plain in H1, H2, H3, H4. rewrite !hesc_plain by naive_solver.
    apply body_u; [done|]. apply IH; [simpl; lia|done].
Qed.

(** ** Scanning a literal *)

Lemma lex_str_body b r : body_ok b -> lex_str (b +:+ String dquote r) = Some (b, r).
Proof.
  induction 1 as [|c s Hq Hb Hc Hs IH|e s He Hs IH|h1 h2 h3 h4 s Hh Hs IH]; simpl.
  - done.
  - rewrite !bool_decide_eq_false_2 by done. rewrite (proj2 (Z.ltb_ge _ _)) by lia. by rewrite IH.
  - by rewrite He, IH.
  - by rewrite Hh, IH.
Qed.

Lemma push1_some a r b t : push1 a r = Some (b, t) -> exists b', r = Some (b', t) /\ b = String a b'.
Proof. destruct r as [[b' t']|]; simpl; [|done]. intros [= <- <-]. eauto. Qed.

Lemma lex_str_sound s b r : lex_str s = Some (b, r) -> s = b +:+ String dquote r /\ body_ok b.
Proof.
  revert b r. induction s as [s IH] using string_len_ind. intros b r H.
  destruct s as [|c s]; [done|]. cbn [lex_str] in H.
  case_bool_decide; [simplify_eq; split; [done|constructor]|].
  case_bool_decide; subst.
  2:{ destruct (byte c <? 32) eqn:E; [done|]. apply push1_some in H as (b' & H & ->).
      apply IH in H as [-> ?]; [|simpl; lia]. split; [done|constructor; auto with lia]. }
  destruct s as [|e s]; [done|]. destruct (is_simple_esc e) eqn:He.
  { apply push1_some in H as (? & H & ->). apply push1_some in H as (b' & H & ->).
    apply IH in H as [-> ?]; [|simpl; lia]. split; [done|by constructor]. }
  case_bool_decide; [subst|done]. do 4 (destruct s as [|? s]; [done|]).
  destruct (is_hex _ && _ && _ && _) eqn:Hh; [|done].
  do 6 (apply push1_some in H as (? & H & ->)).
  apply IH in H as [-> ?]; [|simpl; lia]. split; [done|by constructor].
Qed.

(** ** Scanning a number *)

(** What may follow a number in a JSON text. *)
Definition stop (r : string) : bool :=
  match r with
  | EmptyString => true
  | String c _ =>
      negb (is_digit c || bool_decide (c = "."%char) || bool_decide (c = "e"%char)
            || bool_decide (c = "E"%char) || bool_decide (c = "-"%char))
  end.

(** A rest that leads a lexer to the same decisions as [b]: the same first
    character, or what may follow a number in place of the end. *)
Definition compat (b b' : string) : Prop :=
  match b', b with
  | EmptyString, _ => True
  | String c' _, String c _ => c = c'
  | String _ _, EmptyString => stop b' = true
  end.

(** A lexer splits its input, and looks at the rest only up to [compat]. *)
Definition lexer (l : string -> option (string * string)) : Prop :=
  forall s a b, l s = Some (a, b) ->
    s = a +:+ b /\ forall b', compat b b' -> l (a +:+ b') = Some (a, b').

Lemma span_digits_spec s a b :
  span_digits s = (a, b) ->
  s = a +:+ b /\ forall b', compat b b' -> span_digits (a +:+ b') = (a, b').
Proof.
  revert a b. induction s as [|c s IH]; intros a b H; simpl in H.
  - simplify_eq. split; [done|]. intros [|c r] Hr; [done|]. rewrite str_app_nil_l. simpl in *.
    by destruct (is_digit c).
  - destruct (is_digit c) eqn:D.
    + destruct (span_digits s) as [a' b'] eqn:E. simplify_eq. destruct (IH _ _ eq_refl) as [-> Hx].
      split; [done|]. intros r Hr. rewrite !str_app_cons. simpl. by rewrite D, Hx.
    + simplify_eq. split; [done|]. intros [|c' r] Hr; [done|]. rewrite str_app_nil_l. simpl in *.
      subst. by rewrite D.
Qed.

Lemma lexer_digits : lexer lex_digits.
Proof.
  intros s a b H. unfold lex_digits in *. destruct (span_digits s) as [a' b'] eqn:E.
  destruct (span_digits_spec _ _ _ E) as [-> Hx]. destruct a' as [|c a']; [done|]. simplify_eq.
  split; [done|]. intros r Hr. by rewrite Hx.
Qed.

Lemma lexer_then l1 l2 : lexer l1 -> lexer l2 -> lexer (lex_then l1 l2).
Proof.
  intros H1 H2 s a b H. unfold lex_then in *. destruct (l1 s) as [[a1 t]|] eqn:E1; [|done].
  destruct (l2 t) as [[b1 u]|] eqn:E2; [|done]. simplify_eq.
  destruct (H1 _ _ _ E1) as [-> X1]. destruct (H2 _ _ _ E2) as [-> X2].
  split; [by rewrite str_app_assoc|]. intros r Hr. rewrite str_app_assoc, X1; [by rewrite X2|].
  by destruct b1.
Qed.

Lemma lexer_push c l s a b :
  lexer l -> push1 c (l s) = Some (a, b) ->
  exists a', a = String c a' /\ s = a' +:+ b /\ l s = Some (a', b)
    /\ forall r, compat b r -> push1 c (l (a' +:+ r)) = Some (a, r).
Proof.
  intros Hl (a' & E & ->)%push1_some. destruct (Hl _ _ _ E) as [-> X].
  exists a'. split_and!; [done..|]. intros r Hr. by rewrite X.
Qed.

(** Lexers that may consume nothing. *)
Lemma lexer_skip (l : string -> option (string * string)) s :
  l EmptyString = Some (EmptyString, EmptyString) ->
  (forall c t, stop (String c t) = true -> l (String c t) = Some (EmptyString, String c t)) ->
  (forall c t t', l (String c t) = Some (EmptyString, String c t) ->
    l (String c t') = Some (EmptyString, String c t')) ->
  l s = Some (EmptyString, s) ->
  forall b', compat s b' -> l (EmptyString +:+ b') = Some (EmptyString, b').
Proof.
  intros H0 Hs Hc H [|c' r] Hr; [done|]. rewrite str_app_nil_l. destruct s as [|c s]; simpl in Hr.
  - by apply Hs.
  - subst. eauto.
Qed.

Lemma stop_not c t :
  stop (String c t) = true ->
  c <> "-"%char /\ c <> "."%char /\ c <> "e"%char /\ c <> "E"%char.
Proof. intros H. split_and!; intros ->; by vm_compute in H. Qed.

Lemma lexer_sign : lexer lex_sign.
Proof.
  intros s a b H. assert (lex_sign s = Some (EmptyString, s) ->
    forall b', compat s b' -> lex_sign (EmptyString +:+ b') = Some (EmptyString, b')) as Hk.
  { apply lexer_skip; [done| |].
    - intros c t (? & _)%stop_not. simpl. by rewrite bool_decide_eq_false_2.
    - intros c t t'. simpl. by case_bool_decide. }
  destruct s as [|c s]; simpl in H; [simplify_eq; by split; [|apply Hk]|].
  case_bool_decide as E; simplify_eq; [done|]. split; [done|]. apply Hk. simpl.
  by rewrite bool_decide_eq_false_2.
Qed.

Lemma lexer_int : lexer lex_int.
Proof.
  intros [|c s] a b H; simpl in H; [done|]. case_bool_decide as E; [by simplify_eq|].
  destruct (lexer_digits _ _ _ H) as [Hs X]. split; [done|]. intros r Hr. specialize (X r Hr).
  destruct a as [|c' a]; [unfold lex_digits in H; repeat case_match; simplify_eq|].
  rewrite str_app_cons in *. simplify_eq. simpl. by rewrite bool_decide_eq_false_2.
Qed.

Lemma lexer_frac : lexer lex_frac.
Proof.
  intros s a b H. assert (lex_frac s = Some (EmptyString, s) ->
    forall b', compat s b' -> lex_frac (EmptyString +:+ b') = Some (EmptyString, b')) as Hk.
  { apply lexer_skip; [done| |].
    - intros c t (_ & ? & _)%stop_not. simpl. by rewrite bool_decide_eq_false_2.
    - intros c t t'. simpl. case_bool_decide; [|done]. by intros (? & ? & ?)%push1_some. }
  destruct s as [|c s]; simpl in H; [simplify_eq; by split; [|apply Hk]|].
  case_bool_decide as E.
  - destruct (lexer_push _ _ _ _ _ lexer_digits H) as (a' & -> & -> & _ & X). split; [done|].
    intros r Hr. rewrite str_app_cons. simpl. rewrite bool_decide_eq_true_2 by done. by apply X.
  - simplify_eq. split; [done|]. apply Hk. simpl. by rewrite bool_decide_eq_false_2.
Qed.

Lemma lexer_exp : lexer lex_exp.
Proof.
  intros s a b H. assert (lex_exp s = Some (EmptyString, s) ->
    forall b', compat s b' -> lex_exp (EmptyString +:+ b') = Some (EmptyString, b')) as Hk.
  { apply lexer_skip; [done| |].
    - intros c t (_ & _ & ? & ?)%stop_not. simpl. by rewrite !bool_decide_eq_false_2.
    - intros c t t'. simpl. case_match; [|done]. repeat case_match; try done;
        by intros (? & ? & ?)%push1_some. }
  destruct s as [|c s]; simpl in H; [simplify_eq; by split; [|apply Hk]|].
  destruct (bool_decide _ || bool_decide _) eqn:E.
  2:{ simplify_eq. split; [done|]. apply Hk. simpl. by rewrite E. }
  destruct s as [|g s]; [done|]. destruct (bool_decide (g = "+"%char) || _) eqn:G.
  - apply push1_some in H as (a0 & H & ->).
    destruct (lexer_push _ _ _ _ _ lexer_digits H) as (a' & -> & -> & _ & X). split; [done|].
    intros r Hr. rewrite !str_app_cons. simpl. by rewrite E, G, X.
  - destruct (lexer_push _ _ _ _ _ lexer_digits H) as (a' & -> & Hs & Hd & X).
    rewrite Hs. split; [done|]. intros r Hr. rewrite !str_app_cons. specialize (X r Hr).
    destruct a' as [|g' a']; [unfold lex_digits in Hd; repeat case_match; simplify_eq|].
    rewrite str_app_cons in *. simplify_eq. simpl. by rewrite E, G.
Qed.

Lemma lexer_num : lexer lex_num.
Proof.
  repeat apply lexer_then; [apply lexer_sign|apply lexer_int|apply lexer_frac|apply lexer_exp].
Qed.

(** A number is scanned whole in front of what may follow it. *)
Lemma lex_num_ok s r : num_ok s -> stop r = true -> lex_num (s +:+ r) = Some (s, r).
Proof. intros H Hr. destruct (lexer_num _ _ _ H) as [_ X]. apply X. by destruct r. Qed.

(** What is scanned as a number is one. *)
Lemma lex_num_sound s a b : lex_num s = Some (a, b) -> s = a +:+ b /\ num_ok a.
Proof.
  intros H. destruct (lexer_num _ _ _ H) as [? X]. split; [done|].
  specialize (X EmptyString I). by rewrite str_app_nil_r in X.
Qed.

Lemma is_digit_char d : 0 <= d <= 9 -> is_digit (digit_char d) = true.
Proof.
  intros. unfold is_digit, within, byte, digit_char. rewrite N_ascii_embedding by lia.
  rewrite andb_true_iff, !Z.leb_le. lia.
Qed.

Lemma digit_char_zero d : 0 < d <= 9 -> digit_char d <> "0"%char.
Proof.
  intros Hd H. assert (byte (digit_char d) = 48) as E by (by rewrite H).
  unfold byte, digit_char in E. rewrite N_ascii_embedding in E; lia.
Qed.

(** A number prints as digits, the first not zero unless it is zero. *)
Lemma dec_go_span fuel n acc :
  0 <= n < 10 ^ Z.of_nat fuel -> (0 < fuel)%nat -> span_digits acc = (acc, EmptyString) ->
  exists c t, dec_go fuel n acc = String c t
    /\ span_digits (String c t) = (String c t, EmptyString) /\ (0 < n -> c <> "0"%char).
Proof.
  revert n acc. induction fuel as [|fuel IH]; intros n acc Hn Hf Ha; [lia|]. cbn [dec_go].
  pose proof (Z.mod_pos_bound n 10 ltac:(lia)). assert (span_digits (String (digit_char (n mod 10)) acc)
    = (String (digit_char (n mod 10)) acc, EmptyString)) as Hs.
  { simpl. by rewrite is_digit_char, Ha by lia. }
  case_decide.
  - eexists _, _. split_and!; [done|done|]. intros. apply digit_char_zero.
    rewrite Z.mod_small by lia. lia.
  - destruct (decide (fuel = 0)%nat) as [->|]; [simpl in Hn; lia|].
    destruct (IH (n / 10) (String (digit_char (n mod 10)) acc)) as (c & t & -> & Ht & Hc); [|lia|done|].
    + split; [apply Z.div_pos; lia|]. apply Z.div_lt_upper_bound; [lia|].
      rewrite Nat2Z.inj_succ, Z.pow_succ_r in Hn by lia. lia.
    + eexists _, _. split_and!; [done|done|]. intros _. apply Hc.
      apply Z.div_str_pos. lia.
Qed.

Lemma num_ok_itoa z : - 10 ^ 20 < z < 10 ^ 20 -> num_ok (itoa z).
Proof.
  intros Hz. assert (forall n, 0 <= n < 10 ^ 20 -> lex_int (decimal n) = Some (decimal n, EmptyString)
    /\ lex_sign (decimal n) = Some (EmptyString, decimal n)) as Hd.
  { intros n Hn. destruct (dec_go_span 20 n EmptyString) as (c & t & E & Hs & Hc); [lia|lia|done|].
    unfold decimal. rewrite E. assert (is_digit c = true) as Dc
      by (simpl in Hs; by destruct (is_digit c)).
    split; simpl.
    - case_bool_decide as Ez; [|unfold lex_digits; by rewrite Hs]. subst.
      destruct (decide (n = 0)) as [->|]; [|exfalso; apply Hc; [lia|done]].
      vm_compute in E. by simplify_eq.
    - rewrite bool_decide_eq_false_2; [done|]. intros ->. by vm_compute in Dc. }
  unfold num_ok, itoa, lex_num, lex_then. case_decide.
  - destruct (Hd (- z)) as [Hi _]; [lia|]. simpl. rewrite Hi. simpl. by rewrite ?str_app_nil_r.
  - destruct (Hd z) as [Hi Hs]; [lia|]. rewrite Hs, Hi. simpl. by rewrite ?str_app_nil_r.
Qed.

Lemma utf8_ascii s : List.forallb (fun c => byte c <? 128) (String.list_ascii_of_string s) = true -> utf8 s.
Proof.
  induction s as [|c s IH]; simpl; [constructor|]. rewrite andb_true_iff, Z.ltb_lt. intros []. constructor; auto.
Qed.

Lemma digits_utf8 s t : span_digits s = (s, t) -> utf8 s.
Proof.
  revert t. induction s as [|c s IH]; intros t Hs; [constructor|]. simpl in Hs.
  destruct (is_digit c) eqn:Hc; [|done]. destruct (span_digits s) as [d r] eqn:E. injection Hs as -> ->.
  constructor; [|by eapply IH]. unfold is_digit, within in Hc. lia.
Qed.

Lemma itoa_utf8 z : - 10 ^ 20 < z < 10 ^ 20 -> utf8 (itoa z).
Proof.
  intros Hz. assert (forall n, 0 <= n < 10 ^ 20 -> utf8 (decimal n)) as Hd.
  { intros n Hn. destruct (dec_go_span 20 n EmptyString) as (c & t & E & Hs & _); [lia|lia|done|].
    unfold decimal. rewrite E. by eapply digits_utf8. }
  unfold itoa. case_decide; [constructor; [done|]|]; apply Hd; lia.
Qed.
