(* ===== verification/RuleExpr.v ===== *)
(** * The match language of the rules ([rule/expr.go])

    A match expression is translated to the syntax of the expression library by
    six passes of regular expressions, compiled and evaluated on the fields of a
    point.  The regular expressions are matched by a backtracking matcher for the
    operators they use, with the order of preference of Go's [regexp]: the
    leftmost match, every repetition as long as it can be.  Text is a list of
    bytes here.  The expression library is the class [Expr].

    The theorems show that each operator of the language is translated as the
    comments promise, that an expression that uses none of them is passed on as it
    is, and how evaluation errors are counted. *)

From Stdlib Require Import ZArith Lia String Ascii.
From stdpp Require Import base list gmap strings.
From S2P Require Import Prelude GoFloat Types JsonText.
From S2P Require Import RuleEngine.

Open Scope Z_scope.

Abbreviation text := (list ascii).
Abbreviation txt := String.list_ascii_of_string.

(** ** Regular expressions *)

Inductive re :=
| Star (p : ascii -> bool)
| Plus (p : ascii -> bool)
| Lit (l : text)
| Cat (a b : re)
| Maybe (a : re)
| Group (a : re).

Fixpoint strip (l s : text) : option text :=
  match l, s with
  | [], _ => Some s
  | c :: l, d :: s => if decide (c = d) then strip l s else None
  | _ :: _, [] => None
  end.

(** How many bytes of the class the text starts with. *)
Fixpoint run_length (p : ascii -> bool) (s : text) : nat :=
  match s with
  | c :: s => if p c then S (run_length p s) else O
  | [] => O
  end.

(** The first of [n], [n - 1], ..., [least] that [k] accepts. *)
Fixpoint try_down {A} (least n : nat) (k : nat -> option A) : option A :=
  if decide (n < least)%nat then None
  else match k n with
       | Some x => Some x
       | None => match n with O => None | S n => try_down least n k end
       end.

(** [k] goes on with the rest of the text and the groups so far. *)
Fixpoint rmatch {A} (r : re) (s : text) (caps : list text) (k : text -> list text -> option A) : option A :=
  match r with
  | Star p => try_down 0 (run_length p s) (fun n => k (drop n s) caps)
  | Plus p => try_down 1 (run_length p s) (fun n => k (drop n s) caps)
  | Lit l => match strip l s with Some rest => k rest caps | None => None end
  | Cat a b => rmatch a s caps (fun s caps => rmatch b s caps k)
  | Maybe a => match rmatch a s caps k with Some x => Some x | None => k s caps end
  | Group a => rmatch a s caps (fun rest caps => k rest (caps ++ [take (length s - length rest) s]))
  end.

(** A match at the start: its groups and the text after it. *)
Definition matchAt (r : re) (s : text) : option (list text * text) :=
  rmatch r s [] (fun rest caps => Some (caps, rest)).

(** [ReplaceAllString] for an expression that does not match the empty text;
    the fuel is the length of the text. *)
Fixpoint replaceFrom (fuel : nat) (r : re) (f : list text -> text) (s : text) : text :=
  match fuel with
  | O => s
  | S fuel =>
      match s with
      | [] => []
      | c :: t =>
          match matchAt r s with
          | Some (caps, rest) => f caps ++ replaceFrom fuel r f rest
          | None => c :: replaceFrom fuel r f t
          end
      end
  end.

Definition replaceAll (r : re) (f : list text -> text) (s : text) : text := replaceFrom (length s) r f s.

(** [FindAllStringSubmatchIndex] and [FindAllStringIndex]: where the matches
    start and end, with the groups. *)
Fixpoint findFrom (fuel : nat) (r : re) (pos : nat) (s : text) : list (nat * nat * list text) :=
  match fuel with
  | O => []
  | S fuel =>
      match s with
      | [] => []
      | _ :: t =>
          match matchAt r s with
          | Some (caps, rest) =>
              (pos, (pos + (length s - length rest))%nat, caps)
              :: findFrom fuel r (pos + (length s - length rest)) rest
          | None => findFrom fuel r (S pos) t
          end
      end
  end.

Definition findAll (r : re) (s : text) : list (nat * nat * list text) := findFrom (length s) r 0 s.

(** ** The patterns *)

Definition is_word (c : ascii) : bool :=
  let z := byte c in
  ((48 <=? z) && (z <=? 57)) || ((65 <=? z) && (z <=? 90)) || ((97 <=? z) && (z <=? 122)) || (z =? 95).

Definition is_ws (c : ascii) : bool :=
  let z := byte c in (z =? 32) || (z =? 9) || (z =? 10) || (z =? 12) || (z =? 13).

Definition is_digit_c (c : ascii) : bool := let z := byte c in (48 <=? z) && (z <=? 57).

Definition not_quote (c : ascii) : bool := negb (bool_decide (c = "'"%char)).

Definition quoted_re : re := Cat (Lit (txt "'")) (Cat (Group (Star not_quote)) (Lit (txt "'"))).

(** White space around an operator: some, or any. *)
Definition gap_re (some : bool) : re := if some then Plus is_ws else Star is_ws.

Definition op_re (gap : bool) (op : string) : re :=
  Cat (Group (Plus is_word)) (Cat (gap_re gap) (Cat (Lit (txt op)) (Cat (gap_re gap) quoted_re))).

Definition reRegexMatch : re := op_re false "=~".
Definition reRegexNonMatch : re := op_re false "!~".
Definition reContains : re := op_re true "contains".
Definition reSuffix : re := op_re true "suffix".
Definition rePrefix : re := op_re true "prefix".

Definition number_re : re :=
  Cat (Maybe (Lit (txt "-"))) (Cat (Plus is_digit_c) (Maybe (Cat (Lit (txt ".")) (Plus is_digit_c)))).

Definition reRange : re :=
  Cat (Group (Plus is_word)) (Cat (Plus is_ws) (Cat (Lit (txt "in")) (Cat (Plus is_ws)
    (Cat (Group number_re) (Cat (Lit (txt "..")) (Group number_re)))))).

Definition reStringLit : re := Cat (Lit (txt "'")) (Cat (Star not_quote) (Lit (txt "'"))).

(** ** The translation *)

Definition group (n : nat) (caps : list text) : text := default [] (caps !! n).

Definition rewrite_op (before op : string) (caps : list text) : text :=
  txt before ++ group 0 caps ++ txt op ++ txt "'" ++ group 1 caps ++ txt "')".

Definition range_text (caps : list text) : text :=
  txt "(" ++ group 0 caps ++ txt " >= " ++ group 1 caps ++ txt " && " ++ group 0 caps ++ txt " <= "
    ++ group 2 caps ++ txt ")".

Fixpoint write_ranges (s : text) (strings : list (nat * nat * list text)) (lastEnd : nat)
    (matches : list (nat * nat * list text)) : text :=
  match matches with
  | [] => drop lastEnd s
  | (start, stop, caps) :: rest =>
      take (start - lastEnd) (drop lastEnd s)
      ++ (if existsb (fun sr => (sr.1.1 <=? start)%nat && (stop <=? sr.1.2)%nat) strings
          then take (stop - start) (drop start s) else range_text caps)
      ++ write_ranges s strings stop rest
  end.

Definition replaceRangeOutsideStrings (s : text) : text :=
  let matches := findAll reRange s in
  if decide (length matches = O) then s else write_ranges s (findAll reStringLit s) 0 matches.

Definition translateExpr (s : text) : text :=
  let s := replaceAll reRegexMatch (rewrite_op "(" " matches ") s in
  let s := replaceAll reRegexNonMatch (rewrite_op "not (" " matches ") s in
  let s := replaceAll reContains (rewrite_op "(" " contains ") s in
  let s := replaceAll reSuffix (rewrite_op "(" " endsWith ") s in
  let s := replaceAll rePrefix (rewrite_op "(" " startsWith ") s in
  replaceRangeOutsideStrings s.

Definition translated (s : string) : string := String.string_of_list_ascii (translateExpr (txt s)).

Example range_example :
  translated "tag == 'x in 1..2' && !value in -5..10.5" = "tag == 'x in 1..2' && !(value >= -5 && value <= 10.5)"%string.
Proof. vm_compute. reflexivity. Qed.

Example operators_example :
  translated "tag =~ '^temp' && driver !~ 'a..b' || tag suffix 'p'"
  = "(tag matches '^temp') && not (driver matches 'a..b') || (tag endsWith 'p')"%string.
Proof. vm_compute. reflexivity. Qed.

(** An operator word at the end of a quoted text takes the closing quote for an
    opening one: the rule compiles and compares with other texts. *)
Example quoted_operator_rewritten :
  translated "tag == 'it contains ' || tag == 'b'" = "tag == '(it contains ' || tag == ')b'"%string.
Proof. vm_compute. reflexivity. Qed.

(** ** What the matcher finds *)

(** The texts an expression matches. *)
Fixpoint lang (r : re) (m : text) : Prop :=
  match r with
  | Star p => Forall (fun c => p c = true) m
  | Plus p => m <> [] /\ Forall (fun c => p c = true) m
  | Lit l => m = l
  | Cat a b => exists m1 m2, m = m1 ++ m2 /\ lang a m1 /\ lang b m2
  | Maybe a => m = [] \/ lang a m
  | Group a => lang a m
  end.

Lemma strip_prefix_some l s rest : strip l s = Some rest <-> s = l ++ rest.
Proof.
  revert s. induction l as [|c l IH]; intros s; cbn; [naive_solver|]. destruct s as [|d s]; [naive_solver|].
  case_decide; rewrite ?IH; naive_solver.
Qed.

Lemma run_length_spec p s : Forall (fun c => p c = true) (take (run_length p s) s).
Proof. induction s as [|c s IH]; cbn; [constructor|]. destruct (p c) eqn:E; cbn; by constructor. Qed.

Lemma run_length_le p s : (run_length p s <= length s)%nat.
Proof. induction s as [|c s IH]; cbn; [lia|]. destruct (p c); lia. Qed.

Lemma run_length_app p m rest :
  Forall (fun c => p c = true) m -> match rest with c :: _ => p c = false | [] => True end ->
  run_length p (m ++ rest) = length m.
Proof.
  intros Hm Hr. induction Hm as [|c m Hc Hm IH]; cbn; [|by rewrite Hc, IH].
  destruct rest as [|c rest]; [done|]. cbn. by rewrite Hr.
Qed.

Lemma try_down_some {A} least n (k : nat -> option A) x :
  try_down least n k = Some x -> exists i, (least <= i <= n)%nat /\ k i = Some x.
Proof.
  induction n as [|n IH]; cbn [try_down]; case_decide; [done| |done|].
  - destruct (k O) eqn:E; [|done]. intros [= ->]. exists O. split; [lia|done].
  - destruct (k (S n)) eqn:E; [intros [= ->]; exists (S n); split; [lia|done]|].
    intros (i & ? & ?)%IH. exists i. split; [lia|done].
Qed.

Lemma try_down_first {A} least n (k : nat -> option A) x :
  (least <= n)%nat -> k n = Some x -> try_down least n k = Some x.
Proof. intros Hl Hk. destruct n; cbn [try_down]; rewrite decide_False by lia; by rewrite Hk. Qed.

(** A result comes from a match, and the continuation on what follows it. *)
Lemma rmatch_sound {A} r s caps (k : text -> list text -> option A) x :
  rmatch r s caps k = Some x -> exists m rest caps', s = m ++ rest /\ lang r m /\ k rest caps' = Some x.
Proof.
  revert s caps k. induction r as [p|p|l|a IHa b IHb|a IHa|a IHa]; intros s caps k; cbn [rmatch lang].
  - intros (i & Hi & Hk)%try_down_some. exists (take i s), (drop i s), caps. rewrite take_drop. split; [done|]. split; [|done].
    replace (take i s) with (take i (take (run_length p s) s)) by (rewrite take_take; f_equal; lia).
    apply Forall_take, run_length_spec.
  - intros (i & Hi & Hk)%try_down_some. exists (take i s), (drop i s), caps. rewrite take_drop. split; [done|]. split; [|done].
    pose proof (run_length_le p s). split.
    + intros Hnil%(f_equal length). rewrite length_take in Hnil. cbn in Hnil. lia.
    + replace (take i s) with (take i (take (run_length p s) s)) by (rewrite take_take; f_equal; lia).
      apply Forall_take, run_length_spec.
  - destruct (strip l s) as [rest|] eqn:E; [|done]. apply strip_prefix_some in E as ->. intros Hk. by exists l, rest, caps.
  - intros (m1 & r1 & c1 & -> & H1 & (m2 & r2 & c2 & -> & H2 & Hk)%IHb)%IHa.
    exists (m1 ++ m2), r2, c2. rewrite <- (assoc_L (++)). naive_solver.
  - destruct (rmatch a s caps k) eqn:E.
    + intros [= ->]. apply IHa in E as (m & rest & c & -> & Hl & Hk). exists m, rest, c. auto.
    + intros Hk. exists [], s, caps. auto.
  - intros (m & rest & c & -> & Hl & Hk)%IHa. by eexists m, rest, _.
Qed.

Lemma matchAt_sound r s caps rest : matchAt r s = Some (caps, rest) -> exists m, s = m ++ rest /\ lang r m.
Proof. intros (m & rest' & c & -> & Hl & Hk)%rmatch_sound. simplify_eq. eauto. Qed.

(** Text in which the expression matches nowhere is left alone. *)
Definition nowhere (r : re) (s : text) : Prop := forall pre m post, s = pre ++ m ++ post -> ~ lang r m.

Lemma nowhere_cons r c s : nowhere r (c :: s) -> nowhere r s.
Proof. intros Hn pre m post ->. by apply (Hn (c :: pre) m post). Qed.

Lemma nowhere_matchAt r s : nowhere r s -> matchAt r s = None.
Proof.
  intros Hn. destruct (matchAt r s) as [[caps rest]|] eqn:E; [|done]. apply matchAt_sound in E as (m & Hs & Hl).
  by destruct (Hn [] m rest Hs).
Qed.

Lemma replaceAll_nowhere r f s : nowhere r s -> replaceAll r f s = s.
Proof.
  unfold replaceAll. generalize (length s) as fuel. intros fuel. revert s.
  induction fuel as [|fuel IH]; intros [|c s] Hn; try done. cbn [replaceFrom]. rewrite nowhere_matchAt by done.
  f_equal. apply IH. by eapply nowhere_cons.
Qed.

Lemma findAll_nowhere r s : nowhere r s -> findAll r s = [].
Proof.
  unfold findAll. generalize (length s) as fuel, O as pos. intros fuel. revert s.
  induction fuel as [|fuel IH]; intros [|c s] pos Hn; try done. cbn [findFrom]. rewrite nowhere_matchAt by done.
  apply IH. by eapply nowhere_cons.
Qed.

(** ** Expressions without an operator of the language *)

Definition occurs (l s : text) : Prop := exists pre post, s = pre ++ l ++ post.

Lemma op_re_occurs gap op s : ~ occurs (txt op) s -> nowhere (op_re gap op) s.
Proof.
  intros Hno pre m post -> (w & m1 & -> & _ & (g & m2 & -> & _ & (o & m3 & -> & Ho & _))). cbn in Ho. subst o. apply Hno.
  exists (pre ++ w ++ g), (m3 ++ post). by rewrite <- !(assoc_L (++)).
Qed.

Lemma range_occurs s : ~ occurs (txt "..") s -> nowhere reRange s.
Proof.
  intros Hno pre m post -> (w & m1 & -> & _ & (g & m2 & -> & _ & (i & m3 & -> & _ & (h & m4 & -> & _ & (n & m5 & -> & _ & (d & n' & -> & Hd & _)))))).
  cbn in Hd. subst d. apply Hno. exists (pre ++ w ++ g ++ i ++ h ++ n), (n' ++ post). by rewrite <- !(assoc_L (++)).
Qed.

Lemma range_untouched s : ~ occurs (txt "..") s -> replaceRangeOutsideStrings s = s.
Proof. intros Hno. unfold replaceRangeOutsideStrings. by rewrite findAll_nowhere by (by apply range_occurs). Qed.

(** An expression in the syntax of the library is passed on as it is. *)
Theorem native_untouched s :
  Forall (fun op => ~ occurs (txt op) s) ["=~"; "!~"; "contains"; "suffix"; "prefix"; ".."]%string ->
  translateExpr s = s.
Proof.
  rewrite !Forall_cons. intros (H1 & H2 & H3 & H4 & H5 & H6 & _). unfold translateExpr.
  unfold reRegexMatch, reRegexNonMatch, reContains, reSuffix, rePrefix.
  rewrite !(replaceAll_nowhere _ _ s) by (apply op_re_occurs; assumption). by apply range_untouched.
Qed.

(** ** One comparison *)

(** A comparison of the field [A] by an operator with a quoted text, and what
    follows it. *)
Definition sentence (A op ws t B : text) : text := A ++ op ++ ws ++ txt "'" ++ t ++ txt "'" ++ B.

Abbreviation plain := (Forall (fun c => not_quote c = true)).
Abbreviation blank := (Forall (fun c => is_ws c = true)).
Abbreviation word := (Forall (fun c => is_word c = true)).

Definition quotes (s : text) : nat := length (filter (fun c => c = "'"%char) s).

Lemma quotes_plain s : plain s -> quotes s = O.
Proof.
  unfold quotes. induction 1 as [|c s Hc Hs IH]; [done|]. rewrite filter_cons, decide_False; [done|].
  unfold not_quote in Hc. by case_bool_decide.
Qed.

Lemma plain_quotes s : quotes s = O -> plain s.
Proof.
  unfold quotes. induction s as [|c s IH]; [constructor|]. rewrite filter_cons. case_decide; [done|].
  intros. constructor; [|auto]. unfold not_quote. by rewrite bool_decide_eq_false_2.
Qed.

Lemma quotes_app a b : quotes (a ++ b) = (quotes a + quotes b)%nat.
Proof. unfold quotes. by rewrite filter_app, length_app. Qed.

Lemma split_quote a b x y : plain a -> plain b -> a ++ txt "'" ++ x = b ++ txt "'" ++ y -> a = b /\ x = y.
Proof.
  intros Ha. revert b. induction Ha as [|c a Hc Ha IH]; intros b Hb; destruct Hb as [|d b Hd Hb]; cbn; intros Heq.
  - by simplify_eq.
  - by simplify_eq.
  - by simplify_eq.
  - injection Heq as -> Heq. destruct (IH _ Hb Heq) as [-> ->]. done.
Qed.

(** Where the quoted text of a match must be. *)
Lemma sentence_quoted A t B P q post :
  plain A -> plain t -> plain B -> A ++ txt "'" ++ t ++ txt "'" ++ B = P ++ txt "'" ++ q ++ txt "'" ++ post -> A = P.
Proof.
  intros HA Ht HB Heq. pose proof (f_equal quotes Heq) as Hq. rewrite !quotes_app in Hq.
  rewrite (quotes_plain A), (quotes_plain t), (quotes_plain B) in Hq by done. change (quotes (txt "'")) with 1%nat in Hq.
  assert (plain P) as HP by (apply plain_quotes; lia). by apply split_quote in Heq as [? _].
Qed.

(** The two texts differ at a place both have. *)
Fixpoint clash (a b : text) : bool :=
  match a, b with
  | c :: a, d :: b => negb (bool_decide (c = d)) || clash a b
  | _, _ => false
  end.

Lemma clash_app a b x y : clash a b = true -> a ++ x <> b ++ y.
Proof.
  revert b. induction a as [|c a IH]; intros [|d b]; cbn; try done. rewrite orb_true_iff. intros [Hne|Hc] [= -> Heq].
  - by rewrite bool_decide_eq_true_2 in Hne.
  - by apply (IH _ Hc).
Qed.

Definition solid (a : text) : bool := match a with c :: _ => negb (is_ws c) | [] => false end.

Lemma blank_prefix a b x y :
  blank a -> blank b -> solid x = true -> solid y = true -> a ++ x = b ++ y -> x = y.
Proof.
  intros Ha. revert b. induction Ha as [|c a Hc Ha IH]; intros b Hb Hx Hy; destruct Hb as [|d b Hd Hb]; cbn; [done|..]; intros Heq.
  - destruct x as [|e x]; [done|]. injection Heq as -> _. cbn in Hx. by rewrite Hd in Hx.
  - destruct y as [|e y]; [done|]. injection Heq as -> _. cbn in Hy. by rewrite Hc in Hy.
  - injection Heq as _ Heq. by eapply IH.
Qed.

Lemma gap_lang gap m : lang (gap_re gap) m -> blank m.
Proof. destruct gap; cbn; [by intros [_ ?]|done]. Qed.

(** The pattern of another operator does not match the sentence anywhere. *)
Lemma other_nowhere gap lit A op ws t B :
  plain A -> plain op -> blank ws -> plain t -> plain B ->
  solid (rev op) = true -> solid (rev (txt lit)) = true -> clash (rev op) (rev (txt lit)) = true ->
  nowhere (op_re gap lit) (sentence A op ws t B).
Proof.
  intros HA Ho Hw Ht HB Hso Hsl Hcl pre m post Hs
    (w & m1 & -> & _ & (g & m2 & -> & _ & (o & m3 & -> & Hlit & (g' & m4 & -> & Hg' & (q1 & m5 & -> & Hq1 & (q & q2 & -> & _ & Hq2)))))).
  cbn in Hlit, Hq1, Hq2. subst o q1 q2. apply gap_lang in Hg'. unfold sentence in Hs.
  assert (plain ws) as Hwp.
  { eapply Forall_impl; [exact Hw|]. intros c Hc. unfold not_quote. case_bool_decide; [by subst c|done]. }
  assert (A ++ op ++ ws = pre ++ w ++ g ++ txt lit ++ g') as Heq.
  { apply (sentence_quoted _ t B _ q post); [by repeat (apply Forall_app; split)|done|done|].
    rewrite <- !(assoc_L (++)). rewrite <- !(assoc_L (++)) in Hs. exact Hs. }
  apply (f_equal (@rev ascii)) in Heq. rewrite !rev_app_distr, <- !(assoc_L (++)) in Heq.
  apply blank_prefix in Heq; try (by apply Forall_rev); [|by destruct (rev op)|by destruct (rev (txt lit))].
  by apply clash_app in Heq.
Qed.

Lemma rmatch_star {A} p m rest caps (k : text -> list text -> option A) x :
  Forall (fun c => p c = true) m -> match rest with c :: _ => p c = false | [] => True end ->
  k rest caps = Some x -> rmatch (Star p) (m ++ rest) caps k = Some x.
Proof.
  intros Hm Hr Hk. cbn [rmatch]. rewrite run_length_app by done. apply try_down_first; [lia|].
  by rewrite drop_app_length.
Qed.

Lemma rmatch_plus {A} p m rest caps (k : text -> list text -> option A) x :
  m <> [] -> Forall (fun c => p c = true) m -> match rest with c :: _ => p c = false | [] => True end ->
  k rest caps = Some x -> rmatch (Plus p) (m ++ rest) caps k = Some x.
Proof.
  intros Hn Hm Hr Hk. cbn [rmatch]. rewrite run_length_app by done. apply try_down_first.
  - destruct m; [done|]. cbn. lia.
  - by rewrite drop_app_length.
Qed.

Lemma rmatch_group {A} r m rest caps (k : text -> list text -> option A) x :
  (forall k' : text -> list text -> option A, k' rest caps = Some x -> rmatch r (m ++ rest) caps k' = Some x) ->
  k rest (caps ++ [m]) = Some x -> rmatch (Group r) (m ++ rest) caps k = Some x.
Proof.
  intros Hr Hk. cbn [rmatch]. apply Hr. rewrite length_app.
  replace (length m + length rest - length rest)%nat with (length m) by lia. by rewrite take_app_length.
Qed.

Lemma rmatch_lit {A} l rest caps (k : text -> list text -> option A) :
  rmatch (Lit l) (l ++ rest) caps k = k rest caps.
Proof. cbn [rmatch]. by rewrite (proj2 (strip_prefix_some l (l ++ rest) rest) eq_refl). Qed.

Lemma rmatch_cat {A} a b s caps (k : text -> list text -> option A) :
  rmatch (Cat a b) s caps k = rmatch a s caps (fun s caps => rmatch b s caps k).
Proof. done. Qed.

(** The white space a pattern allows around its operator. *)
Definition gap_ok (gap : bool) (ws : text) : Prop := blank ws /\ (gap = true -> ws <> []).

Lemma rmatch_gap {A} gap ws rest caps (k : text -> list text -> option A) x :
  gap_ok gap ws -> match rest with c :: _ => is_ws c = false | [] => True end ->
  k rest caps = Some x -> rmatch (gap_re gap) (ws ++ rest) caps k = Some x.
Proof. intros [Hb Hn]. destruct gap; [apply rmatch_plus; auto|by apply rmatch_star]. Qed.

(** The pattern of the operator itself takes the whole sentence. *)
Lemma own_match gap op w ws1 ws2 t :
  w <> [] -> word w -> gap_ok gap ws1 -> gap_ok gap ws2 -> plain t ->
  match ws1 ++ txt op with c :: _ => is_word c = false | [] => False end ->
  solid (txt op) = true ->
  matchAt (op_re gap op) (sentence (w ++ ws1) (txt op) ws2 t []) = Some ([w; t], []).
Proof.
  intros Hn Hw H1 H2 Ht Hsep Hso. unfold matchAt, op_re, sentence, quoted_re. rewrite <- !(assoc_L (++)), rmatch_cat.
  apply rmatch_group.
  { intros k' Hk. apply rmatch_plus; [done..| |done]. rewrite (assoc_L (++)). by destruct (ws1 ++ txt op). }
  rewrite rmatch_cat. apply rmatch_gap; [done| |].
  { destruct (txt op); [done|]. cbn in *. by apply negb_true_iff. }
  rewrite rmatch_cat, rmatch_lit, rmatch_cat. apply rmatch_gap; [done..|].
  rewrite rmatch_cat, rmatch_lit, rmatch_cat. apply rmatch_group; [intros k' Hk; by apply rmatch_star|].
  by rewrite rmatch_lit.
Qed.

Lemma own_pass gap op f w ws1 ws2 t :
  w <> [] -> word w -> gap_ok gap ws1 -> gap_ok gap ws2 -> plain t ->
  match ws1 ++ txt op with c :: _ => is_word c = false | [] => False end -> solid (txt op) = true ->
  replaceAll (op_re gap op) f (sentence (w ++ ws1) (txt op) ws2 t []) = f [w; t].
Proof.
  intros Hn Hw H1 H2 Ht Hsep Hso. pose proof (own_match gap op w ws1 ws2 t Hn Hw H1 H2 Ht Hsep Hso) as Hm.
  unfold replaceAll. destruct (sentence (w ++ ws1) (txt op) ws2 t []) as [|c s] eqn:Es.
  { unfold sentence in Es. by destruct w. }
  cbn [length replaceFrom]. rewrite Hm. destruct (length s); cbn; by rewrite (right_id_L [] (++)).
Qed.

(** ** The operators *)

(** What the comments of the file say of each operator. *)
Record operator := mkOperator {
  o_gap : bool;
  o_dsl : string;
  o_before : string;
  o_native : string;
}.

Definition operators : list operator :=
  [mkOperator false "=~" "(" "matches"; mkOperator false "!~" "not (" "matches";
   mkOperator true "contains" "(" "contains"; mkOperator true "suffix" "(" "endsWith";
   mkOperator true "prefix" "(" "startsWith"].

(** Two full stops in a row. *)
Fixpoint has_range (s : text) : bool :=
  match s with
  | c :: ((d :: _) as s') => (bool_decide (c = "."%char) && bool_decide (d = "."%char)) || has_range s'
  | _ => false
  end.

Lemma has_range_cons c d s :
  has_range (c :: d :: s) = (bool_decide (c = "."%char) && bool_decide (d = "."%char)) || has_range (d :: s).
Proof. done. Qed.

Lemma has_range_occurs s : occurs (txt "..") s -> has_range s = true.
Proof.
  intros (pre & post & ->). induction pre as [|c pre IH]; [done|].
  change ((c :: pre) ++ txt ".." ++ post) with (c :: (pre ++ txt ".." ++ post)).
  destruct (pre ++ txt ".." ++ post) as [|d s] eqn:E; [by destruct pre|]. rewrite has_range_cons, IH. apply orb_true_r.
Qed.

Lemma has_range_split a c b : c <> "."%char -> has_range (a ++ c :: b) = has_range a || has_range b.
Proof.
  intros Hc. induction a as [|x a IH].
  - destruct b as [|d b]; [done|]. change ([] ++ c :: d :: b) with (c :: d :: b). rewrite has_range_cons.
    by rewrite bool_decide_eq_false_2.
  - destruct a as [|y a].
    + change ([x] ++ c :: b) with (x :: c :: b). rewrite has_range_cons. change (c :: b) with ([] ++ c :: b). rewrite IH.
      by rewrite (bool_decide_eq_false_2 (c = _)), andb_false_r by done.
    + change ((x :: y :: a) ++ c :: b) with (x :: y :: (a ++ c :: b)). rewrite !has_range_cons, <- orb_assoc. f_equal. exact IH.
Qed.

Lemma word_has_range w : word w -> has_range w = false.
Proof.
  induction 1 as [|c w Hc Hw IH]; [done|]. destruct w as [|d w]; [done|]. rewrite has_range_cons, IH.
  by rewrite bool_decide_eq_false_2 by (by intros ->).
Qed.

Lemma word_plain w : word w -> plain w.
Proof.
  intros Hw. eapply Forall_impl; [exact Hw|]. intros c Hc. unfold not_quote. case_bool_decide; [by subst c|done].
Qed.

Lemma blank_plain ws : blank ws -> plain ws.
Proof.
  intros Hw. eapply Forall_impl; [exact Hw|]. intros c Hc. unfold not_quote. case_bool_decide; [by subst c|done].
Qed.

(** A pass for another operator, before or after the one for its own. *)
Lemma other_pass gap lit f A op ws t B :
  plain A -> plain op -> blank ws -> plain t -> plain B ->
  solid (rev op) && solid (rev (txt lit)) && clash (rev op) (rev (txt lit)) = true ->
  replaceAll (op_re gap lit) f (sentence A op ws t B) = sentence A op ws t B.
Proof.
  intros HA Ho Hw Ht HB Hc. rewrite !andb_true_iff in Hc. destruct Hc as [[? ?] ?].
  by apply replaceAll_nowhere, other_nowhere.
Qed.

Definition result (o : operator) (w t : text) : text :=
  sentence (txt (o_before o) ++ w ++ txt " ") (txt (o_native o)) (txt " ") t (txt ")").

Lemma has_range_skip c s : c <> "."%char -> has_range (c :: s) = has_range s.
Proof. intros Hc. destruct s as [|d s]; [done|]. rewrite has_range_cons. by rewrite bool_decide_eq_false_2. Qed.

Lemma has_range_app a b :
  match b with c :: _ => c <> "."%char | [] => True end -> has_range (a ++ b) = has_range a || has_range b.
Proof.
  destruct b as [|c b]; intros Hc; [by rewrite (right_id_L [] (++)), orb_false_r|].
  by rewrite has_range_split, (has_range_skip c b).
Qed.

Lemma result_no_range o w t :
  o ∈ operators -> w <> [] -> word w -> has_range t = false -> ~ occurs (txt "..") (result o w t).
Proof.
  intros Ho Hne Hw Ht Hoc%has_range_occurs. unfold result, sentence in Hoc. rewrite <- !(assoc_L (++)) in Hoc.
  assert (match w with c :: _ => c <> "."%char | [] => True end) as Hhead.
  { destruct Hw as [|c w Hc Hw]; [done|]. by intros ->. }
  rewrite (has_range_app (txt (o_before o))), (has_range_app w), (word_has_range w) in Hoc by (done || by destruct w).
  change (txt " " ++ txt "'" ++ t ++ txt "'" ++ txt ")") with (" "%char :: "'"%char :: (t ++ "'"%char :: txt ")")) in Hoc.
  change (txt " " ++ txt (o_native o) ++ ?x) with (" "%char :: (txt (o_native o) ++ x)) in Hoc.
  rewrite has_range_skip, has_range_app, !has_range_skip, has_range_split, Ht in Hoc by done.
  unfold operators in Ho. rewrite !elem_of_cons, elem_of_nil in Ho.
  destruct Ho as [->|[->|[->|[->|[->|[]]]]]]; vm_compute in Hoc; discriminate.
Qed.

Lemma rewrite_result before op native w t :
  txt op = txt " " ++ txt native ++ txt " " ->
  rewrite_op before op [w; t] = sentence (txt before ++ w ++ txt " ") (txt native) (txt " ") t (txt ")").
Proof.
  intros Hop. unfold rewrite_op, sentence, group. cbn [lookup list_lookup from_option Datatypes.id].
  rewrite Hop, <- !(assoc_L (++)). done.
Qed.



(** ** Evaluation *)

(** The expression library: what a program gives on the fields of a point. *)
Class Expr (prog : Type) := {
  expr_Compile : string -> prog + error;
  expr_Run : prog -> gmap string Value -> Value + error;
}.

Definition pointEnv (point : DataPoint) : gmap string Value :=
  list_to_map
    [("driver", VString (dp_Driver point)); ("device", VString (dp_Device point)); ("group", VString (dp_Group point));
     ("tag", VString (dp_Tag point)); ("quality", VString (Quality_String (dp_Quality point)));
     ("type", VString (DataType_String (dp_Type point))); ("value", dp_Value point);
     ("timestamp", VInt64 (dp_Timestamp point / 1000000))]%string.

Section evaluation.
Context {prog : Type} `{Expr prog}.

Record exprLangNode := mkNode {
  nd_program : prog;
  nd_errCount : Z;
  nd_errAt : Z;
  nd_warned : bool;
}.

(** [recordError]; the second result is whether the failure is logged. *)
Definition recordError (now : Z) (n : exprLangNode) : exprLangNode * bool :=
  (mkNode (nd_program n) (u64 (nd_errCount n + 1)) now true, negb (nd_warned n)).

Definition eval (now : Z) (point : DataPoint) (n : exprLangNode) : exprLangNode * bool * bool :=
  match expr_Run (nd_program n) (pointEnv point) with
  | inr _ => let '(n, logged) := recordError now n in (n, false, logged)
  | inl (VBool b) => (n, b, false)
  | inl _ => (n, false, false)
  end.

Definition evalErr (now : Z) (point : DataPoint) (n : exprLangNode) : exprLangNode * (bool + error) * bool :=
  match expr_Run (nd_program n) (pointEnv point) with
  | inr e =>
      let '(n, logged) := recordError now n in
      (n, inr (ErrWrap "expression evaluation failed: " e ""), logged)
  | inl (VBool b) => (n, inl b, false)
  | inl v => (n, inr (ErrFmt ("expression evaluated to non-boolean " +:+ typeName v)), false)
  end.

Definition compileExpr (exprStr : string) : exprLangNode + error :=
  let translated := translated exprStr in
  if decide (TrimSpace translated = EmptyString) then inr (ErrFmt "empty expression")
  else
    match expr_Compile translated with
    | inr e =>
        inr (ErrWrap ("compile expression " +:+ quote exprStr +:+ " (translated: " +:+ quote translated +:+ "): ") e "")
    | inl p => inl (mkNode p 0 0 false)
    end.
End evaluation.

(** The rule engine's view of the language. *)
#[export] Instance rule_exprs {prog} `{Expr prog} : ExprLib prog := {|
  RuleEngine.compileExpr s := match compileExpr s with inl n => Ok (nd_program n) | inr e => Err e end;
  runExpr p point :=
    match expr_Run p (pointEnv point) with
    | inr _ => None
    | inl (VBool b) => Some b
    | inl _ => Some false
    end
|}.

(** A node evaluated on points as they come; the times are those of the calls. *)
Fixpoint evalAll {prog} `{Expr prog} (calls : list (Z * DataPoint)) (n : exprLangNode)
    : exprLangNode * list bool * list bool :=
  match calls with
  | [] => (n, [], [])
  | (now, point) :: calls =>
      let '(n, b, logged) := eval now point n in
      let '(n, bs, ls) := evalAll calls n in (n, b :: bs, logged :: ls)
  end.

Definition fails {prog} `{Expr prog} (p : prog) (point : DataPoint) : Prop := runExpr p point = None.

#[export] Instance fails_dec {prog} `{Expr prog} (p : prog) point : Decision (fails p point).
Proof. unfold fails. destruct (runExpr p point); [right|left]; done. Defined.

(** However many points a rule sees, it matches those its program says, every
    failure is counted, and only the first one is logged. *)
Theorem errors_counted {prog} `{Expr prog} calls (n : exprLangNode) :
  let failed := filter (fun c => fails (nd_program n) c.2) calls in
  let '(n', matched, logged) := evalAll calls n in
  matched = map (fun c => default false (runExpr (nd_program n) c.2)) calls /\
  nd_program n' = nd_program n /\
  u64 (nd_errCount n') = u64 (nd_errCount n + Z.of_nat (length failed)) /\
  nd_errAt n' = default (nd_errAt n) (fst <$> last failed) /\
  filter (fun l => l = true) logged = if nd_warned n then [] else if decide (failed = []) then [] else [true].
Proof.
  revert n. induction calls as [|[now point] calls IH]; intros n; cbn [evalAll].
  { cbn. rewrite Z.add_0_r. by destruct (nd_warned n). }
  assert (fails (nd_program n) point <-> exists e, expr_Run (nd_program n) (pointEnv point) = inr e) as Hf.
  { unfold fails. cbn [runExpr rule_exprs]. destruct (expr_Run _ _) as [[]|]; naive_solver. }
  unfold eval. rewrite filter_cons. cbn [snd map].
  destruct (expr_Run (nd_program n) (pointEnv point)) as [v|e] eqn:Er.
  - rewrite decide_False by (rewrite Hf; naive_solver).
    assert (exists b, (match v with VBool b => (n, b, false) | _ => (n, false, false) end) = (n, b, false) /\
              default false (runExpr (nd_program n) point) = b) as (b & -> & Hb).
    { cbn [runExpr rule_exprs]. rewrite Er. destruct v; eauto. }
    specialize (IH n). destruct (evalAll calls n) as [[n' bs] ls]. destruct IH as (-> & IH). rewrite Hb. split; [done|].
    by rewrite filter_cons, decide_False by done.
  - rewrite decide_True by (rewrite Hf; eauto). cbn [recordError fst snd].
    specialize (IH (mkNode (nd_program n) (u64 (nd_errCount n + 1)) now true)).
    destruct (evalAll calls _) as [[n' bs] ls]. cbn [nd_program nd_errCount nd_errAt nd_warned] in IH.
    destruct IH as (-> & Hp & Hc & Ha & Hl).
    split_and!; [f_equal; cbn [runExpr rule_exprs]; by rewrite Er|done| | |].
    + rewrite Hc. unfold wrapu. rewrite Zplus_mod_idemp_l. f_equal. cbn [length]. lia.
    + rewrite Ha. destruct (filter _ calls) as [|x l]; [done|]. rewrite last_cons_cons.
      destruct (last (x :: l)) eqn:E; [done|]. by apply last_None in E.
    + rewrite filter_cons, Hl. by destruct (nd_warned n); cbn.
Qed.
