(* ===== verification/Json.v ===== *)
(** * JSON documents ([encoding/json])

    The documents the program exchanges: the syntax tree of a text with its
    literals kept verbatim (so that a [json.RawMessage] is the tree of its
    text), the parser, the compact printer, and the two uses of an object the
    program makes: decoding into a map from keys to raw values, and decoding
    into a struct by field names.

    The theorems show that the parser reads back what the printer writes
    ([parse_print]), that fuel does not matter beyond the length of the text
    ([pvalue_fuel]), and that a map that is marshalled and unmarshalled is the
    same map ([unmarshal_marshal_map]). *)

From Stdlib Require Import ZArith Lia String Ascii.
From stdpp Require Import base list gmap strings sorting.
From S2P Require Import Prelude JsonText.

Open Scope Z_scope.

Unset Elimination Schemes.

(** The literals are the text between the quotes of a string, or of a number. *)
Inductive json : Type :=
| JNull
| JBool (b : bool)
| JNum (lit : string)
| JStr (body : string)
| JArr (l : list json)
| JObj (l : list (string * json)).

Set Elimination Schemes.

Section json_ind.
Variable P : json -> Prop.
Hypothesis HNull : P JNull.
Hypothesis HBool : forall b, P (JBool b).
Hypothesis HNum : forall s, P (JNum s).
Hypothesis HStr : forall s, P (JStr s).
Hypothesis HArr : forall l, Forall P l -> P (JArr l).
Hypothesis HObj : forall l, Forall (fun kv => P kv.2) l -> P (JObj l).

Fixpoint json_ind (v : json) : P v :=
  match v with
  | JNull => HNull
  | JBool b => HBool b
  | JNum s => HNum s
  | JStr s => HStr s
  | JArr l =>
      HArr l ((fix go l : Forall P l :=
        match l with
        | [] => Forall_nil_2 _
        | x :: l => Forall_cons_2 _ x l (json_ind x) (go l)
        end) l)
  | JObj l =>
      HObj l ((fix go l : Forall (fun kv => P kv.2) l :=
        match l with
        | [] => Forall_nil_2 _
        | x :: l => Forall_cons_2 _ x l (json_ind x.2) (go l)
        end) l)
  end.
End json_ind.

(** ** The parser *)

(** The scanner's white space. *)
Definition is_ws (c : ascii) : bool :=
  match byte c with 32 | 9 | 13 | 10 => true | _ => false end.

Fixpoint skip_ws (s : string) : string :=
  match s with
  | String c t => if is_ws c then skip_ws t else s
  | EmptyString => s
  end.

(** The next character that is not white space, and what follows. *)
Definition token (s : string) : option (ascii * string) :=
  match skip_ws s with String c t => Some (c, t) | EmptyString => None end.

Fixpoint strip (w s : string) : option string :=
  match w, s with
  | EmptyString, _ => Some s
  | String a w, String b s => if bool_decide (a = b) then strip w s else None
  | String _ _, EmptyString => None
  end.

Definition literal (w : string) (v : json) (s : string) : option (json * string) :=
  match strip w s with Some r => Some (v, r) | None => None end.

(** [maxNestingDepth]. *)
Definition maxNestingDepth : Z := 10000.

(** A scalar, at its first character. *)
Definition pscalar (s : string) : option (json * string) :=
  match s with
  | String c t =>
      if bool_decide (c = dquote) then
        match lex_str t with Some (b, r) => Some (JStr b, r) | None => None end
      else if bool_decide (c = "t"%char) then literal "true" (JBool true) s
      else if bool_decide (c = "f"%char) then literal "false" (JBool false) s
      else if bool_decide (c = "n"%char) then literal "null" JNull s
      else match lex_num s with Some (l, r) => Some (JNum l, r) | None => None end
  | EmptyString => None
  end.

(** [d] is the number of arrays and objects around the value. *)
Fixpoint pvalue (n : nat) (d : Z) (s : string) : option (json * string) :=
  match n with
  | O => None
  | S n =>
      match token s with
      | None => None
      | Some (c, t) =>
          if bool_decide (c = "{"%char) then
            if bool_decide (d < maxNestingDepth) then
              match token t with
              | Some (c', r) =>
                  if bool_decide (c' = "}"%char) then Some (JObj [], r)
                  else
                    match pmembers n (d + 1) t with
                    | Some (l, r) => Some (JObj l, r)
                    | None => None
                    end
              | None => None
              end
            else None
          else if bool_decide (c = "["%char) then
            if bool_decide (d < maxNestingDepth) then
              match token t with
              | Some (c', r) =>
                  if bool_decide (c' = "]"%char) then Some (JArr [], r)
                  else
                    match pelems n (d + 1) t with
                    | Some (l, r) => Some (JArr l, r)
                    | None => None
                    end
              | None => None
              end
            else None
          else pscalar (String c t)
      end
  end
with pelems (n : nat) (d : Z) (s : string) : option (list json * string) :=
  match n with
  | O => None
  | S n =>
      match pvalue n d s with
      | None => None
      | Some (v, t) =>
          match token t with
          | None => None
          | Some (c, r) =>
              if bool_decide (c = ","%char) then
                match pelems n d r with Some (l, r') => Some (v :: l, r') | None => None end
              else if bool_decide (c = "]"%char) then Some ([v], r)
              else None
          end
      end
  end
with pmembers (n : nat) (d : Z) (s : string) : option (list (string * json) * string) :=
  match n with
  | O => None
  | S n =>
      match token s with
      | None => None
      | Some (q, t) =>
          if bool_decide (q = dquote) then
            match lex_str t with
            | None => None
            | Some (k, t) =>
                match token t with
                | None => None
                | Some (c, t) =>
                    if bool_decide (c = ":"%char) then
                      match pvalue n d t with
                      | None => None
                      | Some (v, t) =>
                          match token t with
                          | None => None
                          | Some (c, r) =>
                              if bool_decide (c = ","%char) then
                                match pmembers n d r with
                                | Some (l, r') => Some ((k, v) :: l, r')
                                | None => None
                                end
                              else if bool_decide (c = "}"%char) then Some ([(k, v)], r)
                              else None
                          end
                      end
                    else None
                end
            end
          else None
      end
  end.

(** Two calls per character are enough ([pvalue_fuel]). *)
Definition fuel_for (s : string) : nat := 2 * String.length s + 2.

(** A whole text. *)
Definition parse (s : string) : option json :=
  match pvalue (fuel_for s) 0 s with
  | Some (v, r) => if bool_decide (skip_ws r = EmptyString) then Some v else None
  | None => None
  end.

(** ** The compact printer *)

Definition quoted (b : string) : string := String dquote (b +:+ String dquote EmptyString).

Fixpoint commas (l : list string) : string :=
  match l with
  | [] => EmptyString
  | [s] => s
  | s :: l => s +:+ String "," (commas l)
  end.

Fixpoint print (v : json) : string :=
  match v with
  | JNull => "null"
  | JBool true => "true"
  | JBool false => "false"
  | JNum l => l
  | JStr b => quoted b
  | JArr l => String "[" (commas (List.map print l) +:+ "]")
  | JObj l => String "{" (commas (List.map (fun kv => quoted kv.1 +:+ String ":" (print kv.2)) l) +:+ "}")
  end.

(** The literals are ones the scanner accepts. *)
Fixpoint wf (v : json) : Prop :=
  match v with
  | JNull | JBool _ => True
  | JNum l => num_ok l
  | JStr b => body_ok b
  | JArr l => fold_right (fun x p => wf x /\ p) True l
  | JObj l => fold_right (fun kv p => (body_ok kv.1 /\ wf kv.2) /\ p) True l
  end.

(** How deep arrays and objects nest. *)
Fixpoint nesting (v : json) : Z :=
  match v with
  | JArr l => 1 + fold_right (fun x n => Z.max (nesting x) n) 0 l
  | JObj l => 1 + fold_right (fun kv n => Z.max (nesting kv.2) n) 0 l
  | _ => 0
  end.

(** ** Reading back what was printed *)

Lemma skip_ws_none c s : is_ws c = false -> skip_ws (String c s) = String c s.
Proof. intros H. simpl. by rewrite H. Qed.

Lemma token_head c s : is_ws c = false -> token (String c s) = Some (c, s).
Proof. intros H. unfold token. by rewrite skip_ws_none. Qed.

Lemma strip_app w r : strip w (w +:+ r) = Some r.
Proof. induction w as [|c w IH]; [done|]. rewrite str_app_cons. simpl. by rewrite bool_decide_eq_true_2. Qed.

Lemma strip_some w s r : strip w s = Some r -> s = w +:+ r.
Proof.
  revert s. induction w as [|c w IH]; intros s H; simpl in H; [by simplify_eq|].
  destruct s as [|b s]; [done|]. case_bool_decide; [|done]. subst. by rewrite str_app_cons, <- (IH s).
Qed.

Lemma literal_ok w v r : literal w v (w +:+ r) = Some (v, r).
Proof. unfold literal. by rewrite strip_app. Qed.

(** The first character of a printed value. *)
Definition starts (s : string) (P : ascii -> Prop) : Prop := exists c t, s = String c t /\ P c.

Lemma digit_head c : is_digit c = true -> is_ws c = false /\ c <> dquote /\ c <> "{"%char
  /\ c <> "["%char /\ c <> "t"%char /\ c <> "f"%char /\ c <> "n"%char /\ c <> "]"%char /\ c <> "}"%char.
Proof.
  intros H. split; [|split_and!; intros ->; by vm_compute in H].
  unfold is_ws. unfold is_digit, within in H. rewrite andb_true_iff, !Z.leb_le in H.
  repeat case_match; try done; lia.
Qed.

Lemma num_ok_head l : num_ok l -> starts l (fun c => is_ws c = false /\ c <> dquote /\ c <> "{"%char
  /\ c <> "["%char /\ c <> "t"%char /\ c <> "f"%char /\ c <> "n"%char /\ c <> "]"%char /\ c <> "}"%char).
Proof.
  intros H. unfold num_ok, lex_num, lex_then in H. destruct l as [|c l]; [done|]. exists c, l. split; [done|].
  simpl in H. case_bool_decide as Em; [by subst|]. simpl in H. case_bool_decide as Ez; [by subst|].
  unfold lex_digits in H. destruct (span_digits (String c l)) as [a b] eqn:E. simpl in E.
  destruct (is_digit c) eqn:D; [by apply digit_head|]. by simplify_eq.
Qed.

(** ** Fuel *)

Notation len := String.length.

Lemma skip_ws_len s : (len (skip_ws s) <= len s)%nat.
Proof. induction s as [|c s IH]; simpl; [done|]. destruct (is_ws c); simpl; lia. Qed.

Lemma token_len s c t : token s = Some (c, t) -> (len t < len s)%nat.
Proof.
  unfold token. pose proof (skip_ws_len s). destruct (skip_ws s) as [|c' t'] eqn:E; [done|].
  intros [= -> ->]. simpl in *. lia.
Qed.

Lemma lex_str_len s b r : lex_str s = Some (b, r) -> (len r < len s)%nat.
Proof. intros (-> & _)%lex_str_sound. rewrite str_app_length. simpl. lia. Qed.

Lemma num_ok_nonempty : ~ num_ok EmptyString.
Proof. done. Qed.

Lemma pscalar_len s v r : pscalar s = Some (v, r) -> (len r < len s)%nat.
Proof.
  unfold pscalar, literal. destruct s as [|c t]; [done|].
  destruct (bool_decide (c = dquote)).
  { destruct (lex_str t) as [[b r']|] eqn:E; [|done]. intros [= <- <-].
    apply lex_str_len in E. simpl. lia. }
  repeat (case_bool_decide; [case_match eqn:E; [|done]; intros [= <- <-];
    apply strip_some in E; rewrite E, str_app_length; simpl; lia|]).
  destruct (lex_num _) as [[l r']|] eqn:E; [|done]. intros [= <- <-].
  apply lex_num_sound in E as [E Hl]. rewrite E, str_app_length.
  destruct l; [by apply num_ok_nonempty in Hl|]. simpl. lia.
Qed.

Definition consumes (n : nat) : Prop :=
  (forall d s v r, pvalue n d s = Some (v, r) -> (len r < len s)%nat)
  /\ (forall d s v r, pelems n d s = Some (v, r) -> (len r < len s)%nat)
  /\ (forall d s v r, pmembers n d s = Some (v, r) -> (len r < len s)%nat).

Ltac len_facts :=
  repeat match goal with
  | H : token _ = Some _ |- _ => apply token_len in H
  | H : lex_str _ = Some _ |- _ => apply lex_str_len in H
  end.

Lemma parser_consumes n : consumes n.
Proof.
  induction n as [|n (IHv & IHe & IHm)]; [done|].
  split_and!; intros d s v r H; cbn [pvalue pelems pmembers] in H.
  - destruct (token s) as [[c t]|] eqn:T; [|done]. apply token_len in T.
    assert (pscalar (String c t) = Some (v, r) -> (len r < len s)%nat) as Hs.
    { intros Hp%pscalar_len. simpl in Hp. lia. }
    repeat case_match; try done; simplify_eq; eauto; len_facts;
      repeat match goal with
      | H : pelems n _ _ = Some _ |- _ => apply IHe in H
      | H : pmembers n _ _ = Some _ |- _ => apply IHm in H
      end; lia.
  - repeat case_match; try done; simplify_eq; len_facts;
      repeat match goal with
      | H : pvalue n _ _ = Some _ |- _ => apply IHv in H
      | H : pelems n _ _ = Some _ |- _ => apply IHe in H
      end; lia.
  - repeat case_match; try done; simplify_eq; len_facts;
      repeat match goal with
      | H : pvalue n _ _ = Some _ |- _ => apply IHv in H
      | H : pmembers n _ _ = Some _ |- _ => apply IHm in H
      end; lia.
Qed.

(** Any two fuels that cover the length agree. *)
Definition fuel_free (s : string) : Prop :=
  (forall d n m, (2 * len s + 1 <= n)%nat -> (2 * len s + 1 <= m)%nat -> pvalue n d s = pvalue m d s)
  /\ (forall d n m, (2 * len s + 2 <= n)%nat -> (2 * len s + 2 <= m)%nat -> pelems n d s = pelems m d s)
  /\ (forall d n m, (2 * len s + 2 <= n)%nat -> (2 * len s + 2 <= m)%nat -> pmembers n d s = pmembers m d s).

Lemma parser_fuel s : fuel_free s.
Proof.
  induction s as [s IH] using string_len_ind.
  assert (forall d n m, (2 * len s + 1 <= n)%nat -> (2 * len s + 1 <= m)%nat ->
    pvalue n d s = pvalue m d s) as Hv.
  { intros d [|n] [|m] Hn Hm; try lia. cbn [pvalue]. destruct (token s) as [[c t]|] eqn:T; [|done].
    apply token_len in T. destruct (IH t T) as (_ & He & Hmm).
    by rewrite (He (d + 1) n m), (Hmm (d + 1) n m) by lia. }
  split_and!; [done| |].
  - intros d [|n] [|m] Hn Hm; try lia. cbn [pelems]. rewrite (Hv d n m) by lia.
    destruct (pvalue m d s) as [[v t]|] eqn:E; [|done].
    apply (proj1 (parser_consumes m)) in E. destruct (token t) as [[c r]|] eqn:T; [|done].
    apply token_len in T. destruct (IH r) as (_ & He & _); [lia|]. by rewrite (He d n m) by lia.
  - intros d [|n] [|m] Hn Hm; try lia. cbn [pmembers]. destruct (token s) as [[q t]|] eqn:T; [|done].
    case_bool_decide; [|done]. destruct (lex_str t) as [[k t1]|] eqn:L; [|done].
    destruct (token t1) as [[c t2]|] eqn:T2; [|done]. case_bool_decide; [|done]. len_facts.
    destruct (IH t2) as (Hv2 & _ & _); [lia|]. rewrite (Hv2 d n m) by lia.
    destruct (pvalue m d t2) as [[v t3]|] eqn:E; [|done].
    apply (proj1 (parser_consumes m)) in E. destruct (token t3) as [[c3 r]|] eqn:T3; [|done].
    apply token_len in T3. destruct (IH r) as (_ & _ & Hm3); [lia|]. by rewrite (Hm3 d n m) by lia.
Qed.

(** More fuel than [fuel_for] changes nothing. *)
Lemma pvalue_fuel n d s : (fuel_for s <= n)%nat -> pvalue n d s = pvalue (fuel_for s) d s.
Proof. intros. unfold fuel_for in *. apply (proj1 (parser_fuel s)); lia. Qed.

(** ** Printing, then parsing *)

(** From some fuel on. *)
Definition reads {A} (p : nat -> option (A * string)) (x : A) (r : string) : Prop :=
  exists n0, forall n, (n0 <= n)%nat -> p n = Some (x, r).

Definition read_back (v : json) : Prop :=
  forall d r, wf v -> d + nesting v <= maxNestingDepth -> stop r = true ->
    reads (fun n => pvalue n d (print v +:+ r)) v r.

Lemma reads_step {A} (p : nat -> option (A * string)) x r :
  reads (fun n => p (S n)) x r -> reads p x r.
Proof. intros [n0 H]. exists (S n0). intros [|n] Hn; [lia|]. apply H. lia. Qed.

Lemma reads_elems d l r :
  l <> [] -> Forall read_back l -> Forall wf l -> Forall (fun v => d + nesting v <= maxNestingDepth) l ->
  reads (fun n => pelems n d (commas (List.map print l) +:+ String "]" r)) l r.
Proof.
  intros Hne Hl Hw Hd. induction l as [|v l IH]; [done|]. inversion_clear Hl as [|? ? Hv Hl'].
  inversion_clear Hw as [|? ? Hwv Hwl]. inversion_clear Hd as [|? ? Hdv Hdl]. apply reads_step.
  destruct l as [|w l].
  - destruct (Hv d (String "]" r) Hwv Hdv eq_refl) as [n0 Hn]. exists n0. intros n Hle.
    cbn [pelems List.map commas]. rewrite Hn by lia. by rewrite token_head.
  - destruct IH as [n1 H1]; [done..|].
    destruct (Hv d (String "," (commas (List.map print (w :: l)) +:+ String "]" r)) Hwv Hdv eq_refl) as [n0 Hn].
    exists (n0 + n1)%nat. intros n Hle. cbn [pelems].
    change (commas (List.map print (v :: w :: l))) with
      (print v +:+ String "," (commas (List.map print (w :: l)))).
    rewrite str_app_assoc, str_app_cons, Hn by lia. rewrite token_head by done.
    rewrite bool_decide_eq_true_2 by done. by rewrite H1 by lia.
Qed.

Definition member (kv : string * json) : string := quoted kv.1 +:+ String ":" (print kv.2).

Lemma member_app kv r :
  member kv +:+ r = String dquote (kv.1 +:+ String dquote (String ":" (print kv.2 +:+ r))).
Proof. unfold member, quoted. by rewrite !str_app_cons, !str_app_assoc. Qed.

Lemma pmembers_key n d kv r :
  body_ok kv.1 ->
  pmembers (S n) d (member kv +:+ r) =
  match pvalue n d (print kv.2 +:+ r) with
  | None => None
  | Some (v, t) =>
      match token t with
      | None => None
      | Some (c, r) =>
          if bool_decide (c = ","%char) then
            match pmembers n d r with
            | Some (l, r') => Some ((kv.1, v) :: l, r')
            | None => None
            end
          else if bool_decide (c = "}"%char) then Some ([(kv.1, v)], r)
          else None
      end
  end.
Proof.
  intros Hk. rewrite member_app. cbn [pmembers]. rewrite token_head by done.
  rewrite bool_decide_eq_true_2, lex_str_body by done. by rewrite token_head.
Qed.

Lemma reads_members d l r :
  l <> [] -> Forall (fun kv => read_back kv.2) l -> Forall (fun kv => body_ok kv.1 /\ wf kv.2) l ->
  Forall (fun kv => d + nesting kv.2 <= maxNestingDepth) l ->
  reads (fun n => pmembers n d (commas (List.map member l) +:+ String "}" r)) l r.
Proof.
  intros Hne Hl Hw Hd. induction l as [|[k v] l IH]; [done|]. inversion_clear Hl as [|? ? Hv Hl'].
  inversion_clear Hw as [|? ? [Hk Hwv] Hwl]. inversion_clear Hd as [|? ? Hdv Hdl]. apply reads_step.
  simpl in Hv, Hk, Hwv, Hdv. destruct l as [|w l].
  - destruct (Hv d (String "}" r) Hwv Hdv eq_refl) as [n0 Hn]. exists n0. intros n Hle.
    change (commas (List.map member [(k, v)])) with (member (k, v)).
    rewrite pmembers_key by done. simpl fst. simpl snd. by rewrite Hn, token_head.
  - destruct IH as [n1 H1]; [done..|].
    destruct (Hv d (String "," (commas (List.map member (w :: l)) +:+ String "}" r)) Hwv Hdv eq_refl)
      as [n0 Hn].
    exists (n0 + n1)%nat. intros n Hle.
    change (commas (List.map member ((k, v) :: w :: l))) with
      (member (k, v) +:+ String "," (commas (List.map member (w :: l)))).
    rewrite str_app_assoc, str_app_cons, pmembers_key by done. simpl fst. simpl snd.
    rewrite Hn, token_head by (done || lia). rewrite bool_decide_eq_true_2 by done.
    by rewrite H1 by lia.
Qed.

Lemma wf_arr l : wf (JArr l) <-> Forall wf l.
Proof. induction l as [|v l IH]; simpl; [by rewrite Forall_nil|]. rewrite Forall_cons. naive_solver. Qed.

Lemma wf_obj l : wf (JObj l) <-> Forall (fun kv => body_ok kv.1 /\ wf kv.2) l.
Proof. induction l as [|v l IH]; simpl; [by rewrite Forall_nil|]. rewrite Forall_cons. naive_solver. Qed.

Lemma nesting_nonneg v : 0 <= nesting v.
Proof.
  induction v as [| | | |l IH|l IH] using json_ind; simpl; try lia.
  - assert (0 <= fold_right (fun x n => Z.max (nesting x) n) 0 l); [|lia]. induction IH; simpl; lia.
  - assert (0 <= fold_right (fun (kv : string * json) n => Z.max (nesting kv.2) n) 0 l); [|lia].
    induction IH; simpl; lia.
Qed.

Lemma nesting_arr l : Forall (fun v => nesting v + 1 <= nesting (JArr l)) l.
Proof.
  assert (Forall (fun v => nesting v <= fold_right (fun x n => Z.max (nesting x) n) 0 l) l) as H.
  { induction l as [|v l IH]; constructor; simpl; [lia|]. eapply Forall_impl; [exact IH|]. simpl. lia. }
  eapply Forall_impl; [exact H|]. simpl. lia.
Qed.

Lemma nesting_obj l : Forall (fun kv => nesting kv.2 + 1 <= nesting (JObj l)) l.
Proof.
  assert (Forall (fun kv : string * json =>
    nesting kv.2 <= fold_right (fun (kv : string * json) n => Z.max (nesting kv.2) n) 0 l) l) as H.
  { induction l as [|v l IH]; constructor; simpl; [lia|]. eapply Forall_impl; [exact IH|]. simpl. lia. }
  eapply Forall_impl; [exact H|]. simpl. lia.
Qed.

Lemma reads_scalar d s v r c t :
  s = String c t -> is_ws c = false -> c <> "{"%char -> c <> "["%char -> pscalar s = Some (v, r) ->
  reads (fun n => pvalue n d s) v r.
Proof.
  intros -> Hw H1 H2 Hp. apply reads_step. exists O. intros n _. cbn [pvalue].
  by rewrite token_head, !bool_decide_eq_false_2.
Qed.

Lemma print_head v : wf v -> starts (print v) (fun c => is_ws c = false /\ c <> "]"%char /\ c <> "}"%char).
Proof.
  destruct v as [|[]|l|b|l|l]; intros Hw; try by eexists _, _.
  destruct (num_ok_head l Hw) as (c & t & -> & H). exists c, t. naive_solver.
Qed.

Lemma commas_head (f : json -> string) v l r P :
  starts (f v) P -> starts (commas (List.map f (v :: l)) +:+ r) P.
Proof.
  intros (c & t & E & H). destruct l as [|w l]; simpl; rewrite E.
  - by exists c, (t +:+ r).
  - by eexists c, _.
Qed.

Lemma pvalue_empty n d r :
  d < maxNestingDepth ->
  pvalue (S n) d (String "[" (String "]" r)) = Some (JArr [], r)
  /\ pvalue (S n) d (String "{" (String "}" r)) = Some (JObj [], r).
Proof.
  intros Hd. cbn [pvalue]. rewrite !token_head, (bool_decide_eq_true_2 _ Hd) by done. done.
Qed.

Lemma pvalue_arr n d t c r :
  d < maxNestingDepth -> token t = Some (c, r) -> c <> "]"%char ->
  pvalue (S n) d (String "[" t) =
  match pelems n (d + 1) t with Some (l, r) => Some (JArr l, r) | None => None end.
Proof.
  intros Hd Ht Hc. cbn [pvalue]. rewrite token_head, (bool_decide_eq_true_2 _ Hd), Ht by done.
  by rewrite (bool_decide_eq_false_2 (c = "]"%char)).
Qed.

Lemma pvalue_obj n d t c r :
  d < maxNestingDepth -> token t = Some (c, r) -> c <> "}"%char ->
  pvalue (S n) d (String "{" t) =
  match pmembers n (d + 1) t with Some (l, r) => Some (JObj l, r) | None => None end.
Proof.
  intros Hd Ht Hc. cbn [pvalue]. rewrite token_head, (bool_decide_eq_true_2 _ Hd), Ht by done.
  by rewrite (bool_decide_eq_false_2 (c = "}"%char)).
Qed.

Lemma commas_token {A} (f : A -> string) v l r c t :
  f v = String c t -> is_ws c = false -> exists t', token (commas (List.map f (v :: l)) +:+ r) = Some (c, t').
Proof.
  intros E H. assert (exists t', commas (List.map f (v :: l)) +:+ r = String c t') as [t' ->].
  { destruct l as [|w l]; simpl; rewrite E; rewrite ?str_app_cons; eauto. }
  exists t'. by apply token_head.
Qed.

Lemma reads_arr d l r :
  Forall read_back l -> Forall wf l -> d + nesting (JArr l) <= maxNestingDepth ->
  reads (fun n => pvalue n d (print (JArr l) +:+ r)) (JArr l) r.
Proof.
  intros IH Hw Hd. apply reads_step. change (print (JArr l)) with (String "[" (commas (List.map print l) +:+ "]")).
  pose proof (nesting_arr l) as Hn. assert (d < maxNestingDepth) as Hlt.
  { simpl in Hd. assert (0 <= fold_right (fun x n => Z.max (nesting x) n) 0 l); [|lia].
    clear. induction l as [|v l]; simpl; lia. }
  destruct l as [|v l]; [exists O; intros n _; by apply pvalue_empty|].
  destruct (reads_elems (d + 1) (v :: l) r) as [n0 H0]; [done..| |].
  { eapply Forall_impl; [exact Hn|]. cbv beta. intros x Hx. lia. }
  exists n0. intros n Hle. rewrite str_app_cons, str_app_assoc.
  change ("]" +:+ r) with (String "]" r).
  destruct (print_head v (Forall_inv Hw)) as (c & t & E & H1 & H2 & _).
  destruct (commas_token print v l (String "]" r) c t E H1) as [t' Ht].
  erewrite pvalue_arr by done. by rewrite H0.
Qed.

Lemma reads_obj d l r :
  Forall (fun kv => read_back kv.2) l -> Forall (fun kv => body_ok kv.1 /\ wf kv.2) l ->
  d + nesting (JObj l) <= maxNestingDepth ->
  reads (fun n => pvalue n d (print (JObj l) +:+ r)) (JObj l) r.
Proof.
  intros IH Hw Hd. apply reads_step. change (print (JObj l)) with (String "{" (commas (List.map member l) +:+ "}")).
  pose proof (nesting_obj l) as Hn. assert (d < maxNestingDepth) as Hlt.
  { simpl in Hd. assert (0 <= fold_right (fun (kv : string * json) n => Z.max (nesting kv.2) n) 0 l); [|lia].
    clear. induction l as [|v l]; simpl; lia. }
  destruct l as [|v l]; [exists O; intros n _; by apply pvalue_empty|].
  destruct (reads_members (d + 1) (v :: l) r) as [n0 H0]; [done..| |].
  { eapply Forall_impl; [exact Hn|]. cbv beta. intros x Hx. lia. }
  exists n0. intros n Hle. rewrite str_app_cons, str_app_assoc.
  change ("}" +:+ r) with (String "}" r).
  destruct (commas_token member v l (String "}" r) dquote (v.1 +:+ String dquote EmptyString +:+ String ":" (print v.2)))
    as [t' Ht]; [by unfold member, quoted; rewrite str_app_cons, str_app_assoc|done|].
  erewrite pvalue_obj by done. by rewrite H0.
Qed.

Lemma print_reads v : read_back v.
Proof.
  induction v as [|b|l|b|l IH|l IH] using json_ind; intros d r Hw Hd Hr.
  - eapply reads_scalar; [reflexivity|done..|]. exact (literal_ok "null" JNull r).
  - destruct b; (eapply reads_scalar; [reflexivity|done..|]).
    + exact (literal_ok "true" (JBool true) r).
    + exact (literal_ok "false" (JBool false) r).
  - simpl in *. destruct (num_ok_head l Hw) as (c & t & El & Hc).
    eapply reads_scalar; [by rewrite El|naive_solver..|]. unfold pscalar. rewrite El, str_app_cons.
    rewrite !bool_decide_eq_false_2 by naive_solver. rewrite <- str_app_cons, <- El.
    by rewrite lex_num_ok.
  - simpl. unfold quoted. rewrite str_app_cons. eapply reads_scalar; [reflexivity|done..|].
    unfold pscalar. rewrite bool_decide_eq_true_2 by done. rewrite str_app_assoc, str_app_cons.
    by rewrite lex_str_body.
  - apply reads_arr; [done|by apply wf_arr|done].
  - apply reads_obj; [done|by apply wf_obj|done].
Qed.

(** The parser reads back what the printer writes. *)
Lemma parse_print v : wf v -> nesting v <= maxNestingDepth -> parse (print v) = Some v.
Proof.
  intros Hw Hn. destruct (print_reads v 0 EmptyString Hw ltac:(lia) eq_refl) as [n0 H].
  rewrite str_app_nil_r in H. specialize (H (n0 + fuel_for (print v))%nat ltac:(lia)).
  rewrite pvalue_fuel in H by lia. unfold parse. rewrite H. done.
Qed.

(** ** Parsed trees are well formed *)

Definition parsed_ok (n : nat) : Prop :=
  (forall d s v r, pvalue n d s = Some (v, r) -> wf v /\ (0 <= d <= maxNestingDepth -> d + nesting v <= maxNestingDepth))
  /\ (forall d s l r, pelems n d s = Some (l, r) ->
        Forall wf l /\ (0 <= d <= maxNestingDepth -> Forall (fun v => d + nesting v <= maxNestingDepth) l))
  /\ (forall d s l r, pmembers n d s = Some (l, r) ->
        Forall (fun kv => body_ok kv.1 /\ wf kv.2) l
        /\ (0 <= d <= maxNestingDepth -> Forall (fun kv => d + nesting kv.2 <= maxNestingDepth) l)).

Lemma pscalar_wf s v r : pscalar s = Some (v, r) -> wf v /\ nesting v = 0.
Proof.
  unfold pscalar, literal. destruct s as [|c t]; [done|]. case_bool_decide.
  { destruct (lex_str t) as [[b r']|] eqn:E; [|done]. intros [= <- <-].
    by apply lex_str_sound in E as [_ ?]. }
  repeat (case_bool_decide; [case_match; [|done]; by intros [= <- <-]|]).
  destruct (lex_num _) as [[l r']|] eqn:E; [|done]. intros [= <- <-].
  by apply lex_num_sound in E as [_ ?].
Qed.

Lemma nesting_arr_bound d l :
  d + 1 <= maxNestingDepth -> Forall (fun v => d + 1 + nesting v <= maxNestingDepth) l ->
  d + nesting (JArr l) <= maxNestingDepth.
Proof. intros Hd H. simpl. induction H; simpl; lia. Qed.

Lemma nesting_obj_bound d l :
  d + 1 <= maxNestingDepth -> Forall (fun kv : string * json => d + 1 + nesting kv.2 <= maxNestingDepth) l ->
  d + nesting (JObj l) <= maxNestingDepth.
Proof. intros Hd H. simpl. induction H; simpl; lia. Qed.

Lemma pvalue_wf_step n : parsed_ok n -> forall d s v r, pvalue (S n) d s = Some (v, r) ->
  wf v /\ (0 <= d <= maxNestingDepth -> d + nesting v <= maxNestingDepth).
Proof.
  intros (_ & IHe & IHm) d s v r H. cbn [pvalue] in H.
  destruct (token s) as [[c t]|]; [|done].
  assert (pscalar (String c t) = Some (v, r) ->
    wf v /\ (0 <= d <= maxNestingDepth -> d + nesting v <= maxNestingDepth)) as Hs.
  { intros [? ->]%pscalar_wf. split; [done|lia]. }
  destruct (bool_decide (c = "{"%char)); [|destruct (bool_decide (c = "["%char)); [|auto]].
  - case_bool_decide; [|done]. destruct (token t) as [[c' r']|]; [|done]. case_match.
    { simplify_eq. split; [done|]. intros. by apply nesting_obj_bound; [lia|]. }
    destruct (pmembers _ _ _) as [[l r'']|] eqn:E; [|done]. simplify_eq.
    destruct (IHm _ _ _ _ E) as [Hw Hn]. split; [by apply wf_obj|]. intros.
    apply nesting_obj_bound; [lia|]. apply Hn. lia.
  - case_bool_decide; [|done]. destruct (token t) as [[c' r']|]; [|done]. case_match.
    { simplify_eq. split; [done|]. intros. by apply nesting_arr_bound; [lia|]. }
    destruct (pelems _ _ _) as [[l r'']|] eqn:E; [|done]. simplify_eq.
    destruct (IHe _ _ _ _ E) as [Hw Hn]. split; [by apply wf_arr|]. intros.
    apply nesting_arr_bound; [lia|]. apply Hn. lia.
Qed.

Lemma parser_wf n : parsed_ok n.
Proof.
  induction n as [|n IH]; [done|]. pose proof (pvalue_wf_step n IH) as Hv.
  destruct IH as (IHv & IHe & IHm). split_and!; [done| |]; intros d s l r H; cbn [pelems pmembers] in H.
  - destruct (pvalue n d s) as [[v t]|] eqn:E; [|done]. destruct (IHv _ _ _ _ E) as [Hw Hn].
    destruct (token t) as [[c r']|]; [|done]. case_match.
    + destruct (pelems n d r') as [[l' r'']|] eqn:E'; [|done]. simplify_eq.
      destruct (IHe _ _ _ _ E'). auto.
    + case_match; [|done]. simplify_eq. auto.
  - destruct (token s) as [[q t]|]; [|done]. case_match; [|done].
    destruct (lex_str t) as [[k t1]|] eqn:L; [|done]. apply lex_str_sound in L as [_ Hk].
    destruct (token t1) as [[c t2]|]; [|done]. case_match; [|done].
    destruct (pvalue n d t2) as [[v t3]|] eqn:E; [|done]. destruct (IHv _ _ _ _ E) as [Hw Hn].
    destruct (token t3) as [[c3 r']|]; [|done]. case_match.
    + destruct (pmembers n d r') as [[l' r'']|] eqn:E'; [|done]. simplify_eq.
      destruct (IHm _ _ _ _ E'). auto.
    + case_match; [|done]. simplify_eq. auto.
Qed.

Lemma parse_wf s v : parse s = Some v -> wf v /\ nesting v <= maxNestingDepth.
Proof.
  unfold parse. destruct (pvalue _ 0 s) as [[v' r]|] eqn:E; [|done]. case_bool_decide; [|done].
  intros [= <-]. destruct (proj1 (parser_wf _) _ _ _ _ E) as [? Hn]. split; [done|].
  specialize (Hn ltac:(unfold maxNestingDepth; lia)). lia.
Qed.

(** ** Objects as maps of raw values *)

(** The literals of a raw value as [json.Marshal] copies them. *)
Fixpoint hescape (v : json) : json :=
  match v with
  | JStr b => JStr (hesc b)
  | JArr l => JArr (List.map hescape l)
  | JObj l => JObj (List.map (fun kv => (hesc kv.1, hescape kv.2)) l)
  | _ => v
  end.

(** The members of an object as a map; a later member replaces an earlier one
    of the same key. *)
Definition obj_map (l : list (string * json)) : gmap string json :=
  list_to_map (reverse ((fun kv => (unq kv.1, kv.2)) <$> l)).

(** [json.Unmarshal] into a [map[string]json.RawMessage]; [Some None] is the
    nil map a null leaves. *)
Definition unmarshal_map (s : string) : option (option (gmap string json)) :=
  match parse s with
  | Some (JObj l) => Some (Some (obj_map l))
  | Some JNull => Some None
  | _ => None
  end.

Definition key_ltb (a b : string * json) : bool := String.ltb a.1 b.1.

(** The members in the order of their keys. *)
Definition sorted_members (m : gmap string json) : list (string * json) :=
  stable_sort key_ltb (map_to_list m).

(** [json.Marshal] of such a map. *)
Definition map_json (m : gmap string json) : json :=
  JObj ((fun kv => (esc kv.1, hescape kv.2)) <$> sorted_members m).

Definition marshal_map (m : option (gmap string json)) : string :=
  match m with Some m => print (map_json m) | None => "null" end.

(** ** A marshalled map is read back *)

Lemma hescape_wf v : wf v -> wf (hescape v).
Proof.
  induction v as [| | |b|l IH|l IH] using json_ind; try done.
  - apply body_ok_hesc.
  - intros H%wf_arr. apply wf_arr. rewrite Forall_map. rewrite Forall_forall in IH, H.
    apply Forall_forall. naive_solver.
  - intros H%wf_obj. apply wf_obj. rewrite Forall_map. rewrite Forall_forall in IH, H.
    apply Forall_forall. intros kv Hin. destruct (H kv Hin). split; [by apply body_ok_hesc|].
    by apply IH.
Qed.

Lemma hescape_nesting v : nesting (hescape v) = nesting v.
Proof.
  induction v as [| | |b|l IH|l IH] using json_ind; try done; simpl; f_equal;
    induction IH as [|x l Hx _ IH]; simpl; by rewrite ?Hx, ?IH.
Qed.

(** Values a map can hold: the literals are accepted, and the object around
    them is within the nesting limit. *)
Definition raw_ok (k : string) (v : json) : Prop :=
  utf8 k /\ wf v /\ nesting v < maxNestingDepth.

Definition map_ok (m : gmap string json) : Prop := map_Forall raw_ok m.

Lemma sorted_members_perm m : sorted_members m ≡ₚ map_to_list m.
Proof. apply stable_sort_perm. Qed.

Lemma sorted_members_ok m : map_ok m -> Forall (fun kv => raw_ok kv.1 kv.2) (sorted_members m).
Proof.
  intros Hm. rewrite sorted_members_perm. apply Forall_forall. intros [k v] H%elem_of_map_to_list.
  by apply Hm.
Qed.

Lemma map_json_wf m : map_ok m -> wf (map_json m) /\ nesting (map_json m) <= maxNestingDepth.
Proof.
  intros Hm%sorted_members_ok. unfold map_json. split.
  - apply wf_obj. rewrite Forall_fmap. eapply Forall_impl; [exact Hm|].
    intros [k v] (_ & Hw & _). split; [apply body_ok_esc|by apply hescape_wf].
  - pose proof (nesting_obj_bound 0 ((fun kv => (esc kv.1, hescape kv.2)) <$> sorted_members m)) as H.
    assert (0 + nesting (JObj ((fun kv => (esc kv.1, hescape kv.2)) <$> sorted_members m))
            <= maxNestingDepth); [apply H|lia].
    + by unfold maxNestingDepth.
    + rewrite Forall_fmap. eapply Forall_impl; [exact Hm|].
      intros [k v] (_ & _ & Hn). simpl in *. rewrite hescape_nesting. lia.
Qed.

Lemma obj_map_json m :
  map_ok m ->
  obj_map ((fun kv => (esc kv.1, hescape kv.2)) <$> sorted_members m) = hescape <$> m.
Proof.
  intros Hm. unfold obj_map. rewrite <- list_fmap_compose.
  replace (((fun kv : string * json => (unq kv.1, kv.2)) ∘ (fun kv => (esc kv.1, hescape kv.2)))
    <$> sorted_members m) with (prod_map id hescape <$> sorted_members m).
  - assert (prod_map id hescape <$> sorted_members m ≡ₚ map_to_list (hescape <$> m)) as HP.
    { rewrite sorted_members_perm. by rewrite map_to_list_fmap. }
    rewrite <- (list_to_map_to_list (hescape <$> m)). apply list_to_map_proper.
    + rewrite reverse_Permutation, HP. apply NoDup_fst_map_to_list.
    + by rewrite reverse_Permutation.
  - apply Forall_fmap_ext_1. eapply Forall_impl; [by apply sorted_members_ok|].
    intros [k v] (Hk & _). simpl. unfold compose. simpl. by rewrite unq_esc.
Qed.

(** Unmarshalling what was marshalled gives the same map, its literals escaped
    as the encoder escapes them. *)
Lemma unmarshal_marshal_map m :
  map_ok m -> unmarshal_map (marshal_map (Some m)) = Some (Some (hescape <$> m)).
Proof.
  intros Hm. destruct (map_json_wf m Hm). unfold unmarshal_map, marshal_map.
  rewrite parse_print by done. unfold map_json. by rewrite obj_map_json.
Qed.

(** ** Arrays as lists of raw texts *)

(** The first [n] characters. *)
Fixpoint str_firstn (n : nat) (s : string) : string :=
  match n, s with
  | S n, String c s => String c (str_firstn n s)
  | _, _ => EmptyString
  end.

(** The text of one value, without the white space in front of it. *)
Definition raw_value (n : nat) (s : string) : option (string * string) :=
  let s := skip_ws s in
  match pvalue n 1 s with
  | Some (_, t) => Some (str_firstn (len s - len t) s, t)
  | None => None
  end.

Fixpoint raw_elems (n : nat) (fuel : nat) (s : string) : option (list string) :=
  match n with
  | O => None
  | S n =>
      match raw_value fuel s with
      | None => None
      | Some (x, t) =>
          match token t with
          | Some (c, r) =>
              if bool_decide (c = ","%char) then
                match raw_elems n fuel r with Some l => Some (x :: l) | None => None end
              else Some [x]
          | None => None
          end
      end
  end.

(** [json.Unmarshal] into a [[]json.RawMessage]. *)
Definition unmarshal_raws (s : string) : option (list string) :=
  match parse s with
  | Some JNull | Some (JArr []) => Some []
  | Some (JArr _) =>
      match token s with
      | Some (_, t) => raw_elems (fuel_for s) (fuel_for s) t
      | None => None
      end
  | _ => None
  end.

Lemma str_firstn_app a b : str_firstn (len (a +:+ b) - len b) (a +:+ b) = a.
Proof.
  rewrite str_app_length. replace (len a + len b - len b)%nat with (len a) by lia.
  induction a as [|c a IH]; [by destruct b|]. rewrite str_app_cons. simpl. by rewrite IH.
Qed.

Lemma skip_ws_print v r : wf v -> skip_ws (print v +:+ r) = print v +:+ r.
Proof.
  intros Hw. destruct (print_head v Hw) as (c & t & -> & Hc & _). rewrite str_app_cons. by apply skip_ws_none.
Qed.

Lemma raw_value_print v r fuel :
  wf v -> nesting v < maxNestingDepth -> stop r = true -> (fuel_for (print v +:+ r) <= fuel)%nat ->
  raw_value fuel (print v +:+ r) = Some (print v, r).
Proof.
  intros Hw Hn Hr Hf. unfold raw_value. rewrite skip_ws_print by done.
  destruct (print_reads v 1 r Hw ltac:(lia) Hr) as [n0 H0]. rewrite pvalue_fuel by done.
  specialize (H0 (n0 + fuel_for (print v +:+ r))%nat ltac:(lia)). rewrite pvalue_fuel in H0 by lia.
  rewrite H0. by rewrite str_firstn_app.
Qed.

Lemma raw_elems_print l r n fuel :
  l <> [] -> Forall wf l -> Forall (fun v => nesting v < maxNestingDepth) l ->
  (length l <= n)%nat -> (fuel_for (commas (List.map print l) +:+ String "]" r) <= fuel)%nat ->
  raw_elems n fuel (commas (List.map print l) +:+ String "]" r) = Some (List.map print l).
Proof.
  intros Hne Hw Hn. revert n. induction l as [|v l IH]; [done|]. intros n Hln Hf.
  inversion_clear Hw as [|? ? Hv Hw']. inversion_clear Hn as [|? ? Hnv Hn'].
  destruct n as [|n]; [simpl in Hln; lia|]. cbn [raw_elems]. destruct l as [|w l].
  - change (commas (List.map print [v])) with (print v) in *. rewrite raw_value_print by done.
    by rewrite token_head.
  - change (commas (List.map print (v :: w :: l))) with
      (print v +:+ String "," (commas (List.map print (w :: l)))) in *.
    rewrite str_app_assoc, str_app_cons in *. rewrite raw_value_print by done.
    rewrite token_head, bool_decide_eq_true_2 by done. rewrite IH; [done..|simpl in *; lia|].
    unfold fuel_for in *. rewrite str_app_length in Hf. cbn [String.length] in Hf. lia.
Qed.

(** The elements of a printed array, as texts. *)
Lemma unmarshal_raws_print l :
  Forall wf l -> nesting (JArr l) <= maxNestingDepth ->
  unmarshal_raws (print (JArr l)) = Some (List.map print l).
Proof.
  intros Hw Hn. unfold unmarshal_raws. rewrite parse_print by (by rewrite ?wf_arr). destruct l as [|v l]; [done|].
  change (print (JArr (v :: l))) with (String "[" (commas (List.map print (v :: l)) +:+ "]")).
  rewrite token_head by done. pose proof (nesting_arr (v :: l)) as Hl.
  apply raw_elems_print; try done.
  - eapply Forall_impl; [exact Hl|]. cbv beta. intros. lia.
  - unfold fuel_for. cbn [String.length]. rewrite str_app_length.
    assert (forall l : list json, Forall wf l -> (length l <= len (commas (List.map print l)) + 1)%nat) as Hc.
    { clear. intros l Hw. induction Hw as [|x l Hx Hw IH]; [simpl; lia|]. destruct l as [|y l]; [simpl; lia|].
      change (commas (List.map print (x :: y :: l))) with (print x +:+ String "," (commas (List.map print (y :: l)))).
      rewrite str_app_length. cbn [String.length length] in *. lia. }
    pose proof (Hc (v :: l) Hw). cbn [String.length]. lia.
  - unfold fuel_for. cbn [String.length]. lia.
Qed.
