(* ===== verification/JsonValue.v ===== *)
(** * Decoding JSON into Go values ([encoding/json])

    Numbers as correctly rounded floats, base64 for byte slices, the decoding
    into an [any] and into a struct by field names, and with them the
    [JsonLib] the typed values of [core/json_decode.go] are decoded with. *)

From Stdlib Require Import ZArith Lia String Ascii SpecFloat.
From stdpp Require Import base list gmap strings.
From S2P Require Import Prelude GoFloat Types JsonDecode JsonText Json.

Open Scope Z_scope.

(** ** Numbers ([strconv.ParseFloat] on a JSON number) *)

Definition digits_val (s : string) : Z := default 0 (parse_digits 0 s).

(** Sign, decimal mantissa and decimal exponent. *)
Definition number_parts (lit : string) : bool * Z * Z :=
  let '(sg, s) :=
    match lit with
    | String c t => if bool_decide (c = "-"%char) then (true, t) else (false, lit)
    | EmptyString => (false, lit)
    end in
  let '(i, s) := span_digits s in
  let '(fr, s) :=
    match s with
    | String c t => if bool_decide (c = "."%char) then span_digits t else (EmptyString, s)
    | EmptyString => (EmptyString, s)
    end in
  let e :=
    match s with
    | String _ (String g t) =>
        if bool_decide (g = "-"%char) then - digits_val t
        else if bool_decide (g = "+"%char) then digits_val t
        else digits_val (String g t)
    | _ => 0
    end in
  (sg, digits_val (i +:+ fr), e - Z.of_nat (String.length fr)).

(** The nearest float; none when it is out of range. *)
Definition parse_number (f : fmt) (lit : string) : option float :=
  let '(sg, m, e) := number_parts lit in
  let x :=
    match m with
    | Zpos p =>
        if decide (0 <= e) then
          binary_normalize (fmt_prec f) (fmt_emax f) (cond_Zopp sg (m * 10 ^ e)) 0 sg
        else fdiv f (S754_finite sg p 0) (S754_finite false (Z.to_pos (10 ^ (- e))) 0)
    | _ => S754_zero sg
    end in
  match x with S754_infinity _ => None | _ => Some x end.

(** ** Base64 ([base64.StdEncoding]) *)

Definition b64_char (d : Z) : ascii :=
  chr (if d <? 26 then 65 + d else if d <? 52 then 71 + d else if d <? 62 then d - 4
       else if d =? 62 then 43 else 47).

Definition b64_val (c : ascii) : option Z :=
  let z := byte c in
  if within 65 90 z then Some (z - 65)
  else if within 97 122 z then Some (z - 71)
  else if within 48 57 z then Some (z + 4)
  else if z =? 43 then Some 62
  else if z =? 47 then Some 63
  else None.

Fixpoint b64_encode (l : list Z) : string :=
  match l with
  | a :: b :: c :: l =>
      let w := (a * 256 + b) * 256 + c in
      String (b64_char (w / 262144)) (String (b64_char (w / 4096 mod 64))
        (String (b64_char (w / 64 mod 64)) (String (b64_char (w mod 64)) (b64_encode l))))
  | [a; b] =>
      let w := (a * 256 + b) * 4 in
      String (b64_char (w / 4096)) (String (b64_char (w / 64 mod 64))
        (String (b64_char (w mod 64)) "="))
  | [a] =>
      let w := a * 16 in
      String (b64_char (w / 64)) (String (b64_char (w mod 64)) "==")
  | [] => EmptyString
  end.

Definition is_pad (c : ascii) : bool := bool_decide (c = "="%char).

(** The input without the line breaks the decoder skips. *)
Fixpoint b64_decode_go (s : string) : option (list Z) :=
  match s with
  | EmptyString => Some []
  | String a (String b (String c (String d t))) =>
      match b64_val a, b64_val b with
      | Some x, Some y =>
          match b64_val c with
          | Some z =>
              match b64_val d with
              | Some u =>
                  let w := ((x * 64 + y) * 64 + z) * 64 + u in
                  match b64_decode_go t with
                  | Some l => Some (w / 65536 :: w / 256 mod 256 :: w mod 256 :: l)
                  | None => None
                  end
              | None =>
                  if is_pad d && bool_decide (t = EmptyString) then
                    let w := (x * 64 + y) * 64 + z in Some [w / 1024; w / 4 mod 256]
                  else None
              end
          | None =>
              if is_pad c && is_pad d && bool_decide (t = EmptyString)
              then Some [(x * 64 + y) / 16] else None
          end
      | _, _ => None
      end
  | _ => None
  end.

Fixpoint drop_breaks (s : string) : string :=
  match s with
  | String c t =>
      match byte c with 10 | 13 => drop_breaks t | _ => String c (drop_breaks t) end
  | EmptyString => EmptyString
  end.

Definition b64_decode (s : string) : option (list Z) := b64_decode_go (drop_breaks s).

(** ** Decoding into an [any] *)

(** Every number in the value fits a [float64]; otherwise decoding fails. *)
Fixpoint any_ok (v : json) : bool :=
  match v with
  | JNum l => match parse_number F64 l with Some _ => true | None => false end
  | JArr l => List.forallb any_ok l
  | JObj l => List.forallb (fun kv => any_ok kv.2) l
  | _ => true
  end.

Definition any_value (v : json) : option Value :=
  if any_ok v then
    match v with
    | JNull => Some VNil
    | JBool b => Some (VBool b)
    | JNum l => VFloat64 <$> parse_number F64 l
    | JStr b => Some (VString (unq b))
    | JArr _ => Some (VOther "[]interface {}")
    | JObj _ => Some (VOther "map[string]interface {}")
    end
  else None.

(** [encoding/json] as the typed values use it. *)
#[export] Instance go_json : JsonLib := {|
  json_any raw := match parse raw with Some v => any_value v | None => None end;
  json_string raw := match parse raw with Some (JStr b) => Some (unq b) | _ => None end;
  json_bytes raw := match parse raw with Some (JStr b) => b64_decode (unq b) | _ => None end;
  parse_float f raw := parse_number f raw;
|}.

(** ** Decoding into a struct *)

(** A name as the field lookup folds it: ASCII letters in upper case, and the
    two characters outside ASCII that fold to a letter; other bytes never match
    a field name of the program. *)
Fixpoint fold_name (s : string) : string :=
  match s with
  | EmptyString => EmptyString
  | String a t =>
      match byte a, t with
      | 226, String b (String c t') =>
          if (byte b =? 132) && (byte c =? 170) then String "K" (fold_name t')
          else String a (fold_name t)
      | 197, String b t' =>
          if byte b =? 191 then String "S" (fold_name t') else String a (fold_name t)
      | _, _ => String (ascii_upper a) (fold_name t)
      end
  end.

(** The field a key decodes into: the one of that name, else the first whose
    folded name is the folded key. *)
Definition field_of (names : list string) (key : string) : option string :=
  if bool_decide (key ∈ names) then Some key
  else List.find (fun n => String.eqb (fold_name n) (fold_name key)) names.

(** One member after the other; [set] is the decoding into one field. *)
Fixpoint decode_members {S} (names : list string) (set : string -> json -> S -> option S)
    (l : list (string * json)) (x : S) : option S :=
  match l with
  | [] => Some x
  | (k, v) :: l =>
      match field_of names (unq k) with
      | None => decode_members names set l x
      | Some f =>
          match set f v x with
          | Some x => decode_members names set l x
          | None => None
          end
      end
  end.

(** A null leaves the struct as it is; anything but an object is an error. *)
Definition decode_struct {S} (names : list string) (set : string -> json -> S -> option S)
    (v : json) (x : S) : option S :=
  match v with
  | JNull => Some x
  | JObj l => decode_members names set l x
  | _ => None
  end.

(** Fields of the basic kinds; a null leaves them as they are. *)
Definition set_string (v : json) (old : string) : option string :=
  match v with JNull => Some old | JStr b => Some (unq b) | _ => None end.

Definition set_bool (v : json) (old : bool) : option bool :=
  match v with JNull => Some old | JBool b => Some b | _ => None end.

(** ** Integers of up to 53 bits survive *)

Lemma shift_pos_Z n p : Zpos (shift_pos n p) = Zpos p * 2 ^ Zpos n.
Proof. rewrite shift_pos_correct, Z.pow_pos_fold. lia. Qed.

Lemma digits2_pos_mul p n : Zpos (digits2_pos (shift_pos n p)) = Zpos (digits2_pos p) + Zpos n.
Proof.
  pose proof (digits2_pos_bound p) as [Hl Hu]. pose proof (digits2_pos_bound (shift_pos n p)) as [Hl' Hu'].
  rewrite shift_pos_Z in Hl', Hu'.
  set (d := Zpos (digits2_pos p)) in *. set (d' := Zpos (digits2_pos (shift_pos n p))) in *.
  assert (0 < d) by done. assert (0 < d') by done.
  assert (2 ^ (d - 1 + Zpos n) < 2 ^ d') as H1
    by (rewrite Z.pow_add_r by lia; eapply Z.le_lt_trans; [|exact Hu']; nia).
  assert (2 ^ (d' - 1) < 2 ^ (d + Zpos n)) as H2
    by (rewrite Z.pow_add_r by lia; eapply Z.le_lt_trans; [exact Hl'|]; nia).
  apply Z.pow_lt_mono_r_iff in H1, H2; lia.
Qed.

(** A mantissa at its canonical exponent is not rounded. *)
Lemma binary_round_aux_exact s m e :
  fexp 53 1024 (Zpos (digits2_pos m) + e) = e -> e <= 971 ->
  binary_round_aux 53 1024 s (Zpos m) e loc_Exact = S754_finite s m e.
Proof.
  intros He Hm. unfold binary_round_aux, shr_fexp.
  change (Zdigits2 (Zpos m)) with (Zpos (digits2_pos m)). rewrite He, Z.sub_diag. simpl.
  rewrite He, Z.sub_diag. simpl. by rewrite (proj2 (Z.leb_le e (1024 - 53))) by lia.
Qed.

Lemma f_of_Z_trunc z : - 2 ^ 53 < z < 2 ^ 53 -> f_trunc (f_of_Z F64 z) = Some z.
Proof.
  intros Hz. assert (forall s p, Zpos p < 2 ^ 53 ->
    f_trunc (binary_round 53 1024 s p 0) = Some (cond_Zopp s (Zpos p))) as H.
  { intros s p Hp. pose proof (digits2_pos_bound p) as [Hl Hu].
    set (d := Zpos (digits2_pos p)) in *. assert (0 < d) by done. assert (d <= 53).
    { assert (2 ^ (d - 1) < 2 ^ 53) as Hlt%Z.pow_lt_mono_r_iff by lia; lia. }
    assert (fexp 53 1024 (d + 0) = d - 53) as Hf by (unfold fexp, emin; lia).
    unfold binary_round. fold d. rewrite Hf. unfold shl_align.
    destruct (d - 53 - 0) as [|q|q] eqn:E; [|lia|].
    - rewrite binary_round_aux_exact by (fold d; rewrite ?Hf; lia). done.
    - change (Pos.iter xO p q) with (shift_pos q p). rewrite binary_round_aux_exact.
      + unfold f_trunc. replace (Z.shiftl (Zpos (shift_pos q p)) (d - 53)) with (Zpos p); [done|].
        rewrite shift_pos_Z. replace (d - 53) with (- Zpos q) by lia.
        rewrite Z.shiftl_opp_r, Z.shiftr_div_pow2 by lia. by rewrite Z.div_mul by lia.
      + rewrite digits2_pos_mul. fold d. unfold fexp, emin. lia.
      + lia. }
  unfold f_of_Z. change (fmt_prec F64) with 53. change (fmt_emax F64) with 1024.
  destruct z as [|p|p]; [done|..]; simpl binary_normalize.
  - by rewrite H by lia.
  - rewrite H by lia. done.
Qed.

Lemma number_parts_itoa z :
  - 10 ^ 20 < z < 10 ^ 20 -> number_parts (itoa z) = (bool_decide (z < 0), Z.abs z, 0).
Proof.
  intros Hz. assert (forall n, 0 <= n < 10 ^ 20 ->
    exists c t, decimal n = String c t /\ is_digit c = true
      /\ span_digits (decimal n) = (decimal n, EmptyString) /\ digits_val (decimal n) = n) as Hd.
  { intros n Hn. destruct (dec_go_span 20 n EmptyString) as (c & t & E & Hs & _); [lia|lia|done|].
    exists c, t. unfold decimal. rewrite E. split_and!; [done| |done|].
    - simpl in Hs. by destruct (is_digit c).
    - unfold digits_val. rewrite <- E, dec_go_parse by lia. done. }
  unfold number_parts, itoa. case_decide.
  - destruct (Hd (- z)) as (c & t & E & _ & Hs & Hv); [lia|]. simpl.
    rewrite Hs, str_app_nil_r, Hv, bool_decide_eq_true_2 by lia. by rewrite Z.abs_neq by lia.
  - destruct (Hd z) as (c & t & E & Dc & Hs & Hv); [lia|]. rewrite E.
    rewrite (bool_decide_eq_false_2 (c = "-"%char)) by (intros ->; by vm_compute in Dc).
    rewrite <- E, Hs, str_app_nil_r, Hv, bool_decide_eq_false_2 by lia. by rewrite Z.abs_eq by lia.
Qed.

(** An integer of at most 53 bits is read as the float that is equal to it. *)
Lemma parse_number_itoa z :
  - 2 ^ 53 < z < 2 ^ 53 -> parse_number F64 (itoa z) = Some (f_of_Z F64 z).
Proof.
  intros Hz. unfold parse_number. rewrite number_parts_itoa by lia.
  assert (f_trunc (f_of_Z F64 z) = Some z) as Ht by by apply f_of_Z_trunc.
  destruct (Z.abs z) as [|p|p] eqn:E; [|..|lia].
  - replace z with 0 in * by lia. done.
  - rewrite decide_True, Z.pow_0_r, Z.mul_1_r by lia.
    replace (cond_Zopp (bool_decide (z < 0)) (Zpos p)) with z
      by (case_bool_decide; simpl cond_Zopp; lia).
    replace (binary_normalize _ _ z 0 (bool_decide (z < 0))) with (f_of_Z F64 z)
      by (unfold f_of_Z; destruct z; [lia|done..]).
    destruct (f_of_Z F64 z); done.
Qed.

(** ** Base64 round trip *)

Lemma b64_char_byte d :
  0 <= d < 64 -> byte (b64_char d) = (if d <? 26 then 65 + d else if d <? 52 then 71 + d
    else if d <? 62 then d - 4 else if d =? 62 then 43 else 47).
Proof. intros. unfold b64_char. apply byte_chr. repeat case_match; lia. Qed.

Lemma b64_val_char d : 0 <= d < 64 -> b64_val (b64_char d) = Some d.
Proof.
  intros Hd. unfold b64_val, within. rewrite b64_char_byte by done.
  repeat case_match; rewrite ?andb_true_iff, ?andb_false_iff, ?Z.leb_le, ?Z.leb_gt in *; try f_equal; lia.
Qed.

Lemma b64_char_plain d t :
  0 <= d < 64 -> drop_breaks (String (b64_char d) t) = String (b64_char d) (drop_breaks t)
  /\ byte (b64_char d) < 128.
Proof.
  intros Hd. simpl. rewrite b64_char_byte by done.
  repeat case_match; try lia; (split; [|lia]); repeat case_match; try done; lia.
Qed.

Lemma list3_ind {A} (P : list A -> Prop) :
  P [] -> (forall a, P [a]) -> (forall a b, P [a; b]) ->
  (forall a b c l, P l -> P (a :: b :: c :: l)) -> forall l, P l.
Proof.
  intros H0 H1 H2 H3. fix IH 1. intros [|a [|b [|c l]]]; [done..|]. apply H3, IH.
Qed.

Definition bytes (l : list Z) : Prop := Forall (fun b => 0 <= b < 256) l.

Lemma b64_decode_encode_go l :
  bytes l -> b64_decode_go (b64_encode l) = Some l /\ drop_breaks (b64_encode l) = b64_encode l
  /\ utf8 (b64_encode l).
Proof.
  induction l as [|a|a b|a b c l IH] using list3_ind; intros Hl.
  - split_and!; [done..|constructor].
  - apply Forall_cons in Hl as [Ha _]. cbn [b64_encode]. cbv zeta.
    split_and!.
    + simpl. rewrite !b64_val_char by dm_lia. do 2 f_equal. dm_lia.
    + rewrite !(fun d t H => proj1 (b64_char_plain d t H)) by dm_lia. done.
    + do 2 (apply utf8_1; [apply (b64_char_plain _ EmptyString); dm_lia|]).
      do 2 (apply utf8_1; [done|]). constructor.
  - apply Forall_cons in Hl as [Ha Hl]. apply Forall_cons in Hl as [Hb _]. cbn [b64_encode]. cbv zeta.
    split_and!.
    + simpl. rewrite !b64_val_char by dm_lia. simpl. repeat f_equal; dm_lia.
    + rewrite !(fun d t H => proj1 (b64_char_plain d t H)) by dm_lia. done.
    + do 3 (apply utf8_1; [apply (b64_char_plain _ EmptyString); dm_lia|]).
      apply utf8_1; [done|]. constructor.
  - apply Forall_cons in Hl as [Ha Hl]. apply Forall_cons in Hl as [Hb Hl].
    apply Forall_cons in Hl as [Hc Hl]. destruct (IH Hl) as (E1 & E2 & E3).
    cbn [b64_encode]. cbv zeta. split_and!.
    + cbn [b64_decode_go]. rewrite !b64_val_char by dm_lia. rewrite E1. repeat f_equal; dm_lia.
    + rewrite !(fun d t H => proj1 (b64_char_plain d t H)) by dm_lia. by rewrite E2.
    + do 4 (apply utf8_1; [apply (b64_char_plain _ EmptyString); dm_lia|]). done.
Qed.

Lemma b64_roundtrip l : bytes l -> b64_decode (b64_encode l) = Some l.
Proof. intros H. unfold b64_decode. by destruct (b64_decode_encode_go l H) as (? & -> & _). Qed.

Lemma b64_utf8 l : bytes l -> utf8 (b64_encode l).
Proof. apply b64_decode_encode_go. Qed.

(** ** Integers of 64 bits are in range *)

Lemma shr_1_shrinks r : 0 <= shr_m r -> 0 <= shr_m (shr_1 r) <= shr_m r.
Proof. destruct r as [[|[p|p|]|p] a b]; simpl; lia. Qed.

Lemma shr_iter_shrinks p r : 0 <= shr_m r -> 0 <= shr_m (SpecFloat.iter_pos shr_1 p r) <= shr_m r.
Proof.
  revert r. induction p as [p IH|p IH|]; intros r Hr; cbn [SpecFloat.iter_pos].
  - pose proof (shr_1_shrinks r Hr). pose proof (IH (shr_1 r)). pose proof (IH (SpecFloat.iter_pos shr_1 p (shr_1 r))).
    lia.
  - pose proof (IH r). pose proof (IH (SpecFloat.iter_pos shr_1 p r)). lia.
  - by apply shr_1_shrinks.
Qed.

Lemma Zdigits2_bound m k : 0 <= k -> 0 <= m < 2 ^ k -> Zdigits2 m <= k.
Proof.
  intros Hk Hm. destruct m as [|p|p]; simpl; [done| |lia].
  pose proof (digits2_pos_bound p) as [Hl _]. assert (2 ^ (Zpos (digits2_pos p) - 1) < 2 ^ k) as H by lia.
  apply Z.pow_lt_mono_r_iff in H; lia.
Qed.

(** One alignment: the mantissa does not grow, the exponent by at most the
    digits beyond the precision. *)
Lemma shr_fexp_bound m e k :
  0 <= k -> 0 <= m < 2 ^ k -> -1000 <= e ->
  let '(r, e') := shr_fexp 53 1024 m e loc_Exact in
  0 <= shr_m r <= m /\ e <= e' <= e + k.
Proof.
  intros Hk Hm He. pose proof (Zdigits2_bound m k Hk Hm). unfold shr_fexp, shr.
  destruct (fexp 53 1024 (Zdigits2 m + e) - e) as [|p|p] eqn:E; simpl; [lia| |lia].
  pose proof (shr_iter_shrinks p (Build_shr_record m false false) ltac:(simpl; lia)) as Hs.
  simpl in Hs. split; [lia|]. unfold fexp, emin in E. lia.
Qed.

Lemma binary_round_number s p : Zpos p < 2 ^ 64 -> f_finite (binary_round 53 1024 s p 0) = true.
Proof.
  intros Hp. unfold binary_round. pose proof (digits2_pos_bound p) as [Hl Hu].
  assert (Zpos (digits2_pos p) <= 64) as Hd by (apply (Zdigits2_bound (Zpos p)); lia).
  set (f := fexp 53 1024 (Zpos (digits2_pos p) + 0)).
  assert (exists m e, shl_align p 0 f = (m, e) /\ Zpos m < 2 ^ 117 /\ -1000 <= e <= 0) as (m & e & -> & Hm & He).
  { assert (-53 <= f) by (unfold f, fexp; lia).
    unfold shl_align. destruct (f - 0) as [|q|q] eqn:E.
    - exists p, 0. split_and!; [done|lia..].
    - exists p, 0. split_and!; [done|lia..].
    - exists (shift_pos q p), f. split_and!; [done| |lia..].
      rewrite shift_pos_Z. assert (2 ^ Zpos q <= 2 ^ 53) by (apply Z.pow_le_mono_r; lia). nia. }
  unfold binary_round_aux. pose proof (shr_fexp_bound (Zpos m) e 117 ltac:(lia) ltac:(lia) ltac:(lia)) as H1.
  destruct (shr_fexp 53 1024 (Zpos m) e loc_Exact) as [r1 e1]. destruct H1 as [Hr1 He1].
  assert (0 <= round_nearest_even (shr_m r1) (loc_of_shr_record r1) < 2 ^ 118) as Hr
    by (unfold round_nearest_even; repeat case_match; lia).
  pose proof (shr_fexp_bound _ e1 118 ltac:(lia) Hr ltac:(lia)) as H2.
  destruct (shr_fexp 53 1024 (round_nearest_even _ _) e1 loc_Exact) as [r2 e2]. destruct H2 as [Hs2 He2].
  destruct (shr_m r2); [done| |lia]. by rewrite (proj2 (Z.leb_le e2 (1024 - 53))) by lia.
Qed.

Lemma binary_round_finite s p :
  Zpos p < 2 ^ 64 -> forall b, binary_round 53 1024 s p 0 <> S754_infinity b.
Proof. intros Hp b Heq. pose proof (binary_round_number s p Hp) as Hn. by rewrite Heq in Hn. Qed.

Lemma f_of_Z_number z : - 2 ^ 64 < z < 2 ^ 64 -> f_finite (f_of_Z F64 z) = true.
Proof. intros Hz. destruct z; [done|apply binary_round_number; lia..]. Qed.

Lemma any_ok_itoa z : - 2 ^ 64 < z < 2 ^ 64 -> any_ok (JNum (itoa z)) = true.
Proof.
  intros Hz. simpl. unfold parse_number. rewrite number_parts_itoa by lia.
  destruct (Z.abs z) as [|p|p] eqn:E; [done| |lia].
  rewrite decide_True, Z.pow_0_r, Z.mul_1_r by lia.
  change (fmt_prec F64) with 53. change (fmt_emax F64) with 1024.
  assert (forall s b, binary_round 53 1024 s p 0 <> S754_infinity b) as Hf
    by (intros; apply binary_round_finite; lia).
  destruct (bool_decide (z < 0)); simpl cond_Zopp; simpl binary_normalize;
    repeat case_match; try done; exfalso; naive_solver.
Qed.
