(* ===== verification/CommandJson.v ===== *)
(** * Write commands on the wire ([core/json_decode.go], [core/types.go])

    The JSON form of a write command: how the struct is marshalled, and how
    [WriteCommand.UnmarshalJSON] and [DataType.UnmarshalJSON] read it back with
    the exact type of its value.  The text of a float and the JSON of values of
    other dynamic types are parameters ([JsonEnc]).

    The theorem shows the round trip for integer, boolean, string and byte
    values, with the fields a forwarding node adds to the object. *)

From Stdlib Require Import ZArith Lia String Ascii.
From stdpp Require Import base list gmap strings.
From S2P Require Import Prelude GoFloat Types JsonDecode JsonText Json JsonValue.

Open Scope Z_scope.

(** The encodings the model has no definition of: the text of a finite float
    (an infinity or a NaN is an error), and the JSON of a map or a slice. *)
Class JsonEnc := {
  enc_float : fmt -> float -> option string;
  enc_other : string -> option json;
  enc_float_ok f x s : enc_float f x = Some s -> num_ok s;
  enc_other_ok n v : enc_other n = Some v -> wf v /\ nesting v < maxNestingDepth - 1;
}.

(** ** Data types *)

(** [DataType.UnmarshalJSON]: a name, or the integer code. *)
Definition DataType_UnmarshalJSON (v : json) : option DataType :=
  match v with
  | JStr b => let '(d, ok) := ParseDataType (unq b) in if ok then Some d else None
  | JNum l =>
      match ParseInt l 64 with
      | Some n =>
          match dataTypeNames (DataType_of_int n) with
          | Some _ => Some (DataType_of_int n)
          | None => None
          end
      | None => None
      end
  | _ => None
  end.

Definition DataType_MarshalJSON (d : DataType) : json := JStr (esc (DataType_String d)).

(** ** Decoding *)

Definition cmd_fields : list string :=
  ["driver"; "device"; "tag"; "value"; "type"; "source"; "remote"; "raw"]%string.

Definition cmd_zero : WriteCommand := mkWriteCommand "" "" "" VNil TypeBool "" "" false.

Definition cmd_set (f : string) (v : json) (c : WriteCommand) : option WriteCommand :=
  let '(mkWriteCommand dr de tg va ty so re ra) := c in
  if bool_decide (f = "driver"%string) then
    (fun s => mkWriteCommand s de tg va ty so re ra) <$> set_string v dr
  else if bool_decide (f = "device"%string) then
    (fun s => mkWriteCommand dr s tg va ty so re ra) <$> set_string v de
  else if bool_decide (f = "tag"%string) then
    (fun s => mkWriteCommand dr de s va ty so re ra) <$> set_string v tg
  else if bool_decide (f = "value"%string) then
    (fun a => mkWriteCommand dr de tg a ty so re ra) <$> any_value v
  else if bool_decide (f = "type"%string) then
    (fun t => mkWriteCommand dr de tg va t so re ra) <$> DataType_UnmarshalJSON v
  else if bool_decide (f = "source"%string) then
    (fun s => mkWriteCommand dr de tg va ty s re ra) <$> set_string v so
  else if bool_decide (f = "remote"%string) then
    (fun s => mkWriteCommand dr de tg va ty so s ra) <$> set_string v re
  else
    (fun b => mkWriteCommand dr de tg va ty so re b) <$> set_bool v ra.

(** The raw token of the field [value]; the empty token when there is none. *)
Definition probeRawValue (v : json) : string :=
  match decode_struct ["value"%string] (fun _ v _ => Some (Some v)) v None with
  | Some (Some t) => print t
  | _ => EmptyString
  end.

Definition cmd_with_value (c : WriteCommand) (v : Value) : WriteCommand :=
  mkWriteCommand (cmd_Driver c) (cmd_Device c) (cmd_Tag c) v (cmd_Type c) (cmd_Source c)
    (cmd_Remote c) (cmd_Raw c).

Definition WriteCommand_UnmarshalJSON (v : json) : option WriteCommand :=
  match decode_struct cmd_fields cmd_set v cmd_zero with
  | Some fields => Some (cmd_with_value fields (decodeValueByType (probeRawValue v) (cmd_Type fields)))
  | None => None
  end.

(** [json.Unmarshal(payload, &cmd)]. *)
Definition unmarshal_cmd (payload : string) : option WriteCommand :=
  match parse payload with Some v => WriteCommand_UnmarshalJSON v | None => None end.

(** ** Encoding *)

Section encode.
Context `{JsonEnc}.

Definition marshal_value (v : Value) : option json :=
  match v with
  | VNil => Some JNull
  | VBool b => Some (JBool b)
  | VInt z | VInt8 z | VInt16 z | VInt32 z | VInt64 z
  | VUint z | VUint8 z | VUint16 z | VUint32 z | VUint64 z => Some (JNum (itoa z))
  | VFloat32 x => JNum <$> enc_float F32 x
  | VFloat64 x => JNum <$> enc_float F64 x
  | VString s => Some (JStr (esc s))
  | VBytes l => Some (JStr (b64_encode l))
  | VOther n => enc_other n
  end.

(** A field with [omitempty]. *)
Definition omitempty {A} (k : string) (empty : A -> bool) (f : A -> json) (x : A) : list (string * json) :=
  if empty x then [] else [(k, f x)].

Definition jstring (s : string) : json := JStr (esc s).

Definition cmd_members (c : WriteCommand) (v : json) : list (string * json) :=
  [("driver", jstring (cmd_Driver c)); ("device", jstring (cmd_Device c)); ("tag", jstring (cmd_Tag c));
   ("value", v); ("type", DataType_MarshalJSON (cmd_Type c))]%string
  ++ omitempty "source" (String.eqb "") jstring (cmd_Source c)
  ++ omitempty "remote" (String.eqb "") jstring (cmd_Remote c)
  ++ omitempty "raw" negb JBool (cmd_Raw c).

(** [json.Marshal(cmd)]. *)
Definition marshal_cmd (c : WriteCommand) : option string :=
  match marshal_value (cmd_Value c) with
  | Some v => Some (print (hescape (JObj (cmd_members c v))))
  | None => None
  end.
End encode.

(** ** The order of the members does not matter *)

Section perm.
Context {S : Type} (names : list string) (set : string -> json -> S -> option S).
Hypothesis set_comm : forall f g v w x,
  f ∈ names -> g ∈ names -> f <> g -> set f v x ≫= set g w = set g w x ≫= set f v.

Definition field_keys (l : list (string * json)) : list string :=
  omap (fun kv => field_of names (unq kv.1)) l.

Lemma field_of_in k f : field_of names k = Some f -> f ∈ names.
Proof.
  unfold field_of. case_bool_decide; [by intros [= <-]|]. intros [Hf _]%find_some.
  by apply list_elem_of_In.
Qed.

Lemma decode_members_cons k v l x :
  decode_members names set ((k, v) :: l) x =
  match field_of names (unq k) with
  | Some f => set f v x ≫= decode_members names set l
  | None => decode_members names set l x
  end.
Proof. done. Qed.

Lemma decode_members_perm l1 l2 x :
  l1 ≡ₚ l2 -> NoDup (field_keys l1) ->
  decode_members names set l1 x = decode_members names set l2 x.
Proof.
  intros HP. revert x. induction HP as [|[k v] l1 l2 _ IH|[k1 v1] [k2 v2] l|l1 l2 l3 HP1 IH1 HP2 IH2];
    intros x Hd.
  - done.
  - rewrite !decode_members_cons. unfold field_keys in Hd. simpl in Hd.
    destruct (field_of names (unq k)) as [f|]; [|exact (IH x Hd)].
    apply NoDup_cons in Hd as [_ Hd]. destruct (set f v x) as [y|]; [exact (IH y Hd)|done].
  - unfold field_keys in Hd. simpl in Hd. rewrite !decode_members_cons.
    destruct (field_of names (unq k1)) as [f|] eqn:F, (field_of names (unq k2)) as [g|] eqn:G;
      rewrite ?decode_members_cons, ?F, ?G; [| | |done].
    2,3: destruct (set _ _ x); simpl; by rewrite ?F, ?G.
    assert (f <> g) as Hfg by (intros ->; apply NoDup_cons in Hd as [Hd _]; apply Hd, list_elem_of_here).
    pose proof (set_comm f g v1 v2 x (field_of_in _ _ F) (field_of_in _ _ G) Hfg) as Hc.
    destruct (set f v1 x) as [y|], (set g v2 x) as [z|]; simpl in Hc |- *;
      rewrite ?decode_members_cons, ?F, ?G; try done.
    all: first [by rewrite Hc | by rewrite <- Hc].
  - rewrite IH1 by done. apply IH2. unfold field_keys in *. by rewrite <- HP1.
Qed.
End perm.

Section cmd_set.
Variables (v : json) (dr de tg so re : string) (va : Value) (ty : DataType) (ra : bool).
Let c := mkWriteCommand dr de tg va ty so re ra.

Lemma cmd_set_fields :
  cmd_set "driver" v c = (fun s => mkWriteCommand s de tg va ty so re ra) <$> set_string v dr
  /\ cmd_set "device" v c = (fun s => mkWriteCommand dr s tg va ty so re ra) <$> set_string v de
  /\ cmd_set "tag" v c = (fun s => mkWriteCommand dr de s va ty so re ra) <$> set_string v tg
  /\ cmd_set "value" v c = (fun a => mkWriteCommand dr de tg a ty so re ra) <$> any_value v
  /\ cmd_set "type" v c = (fun t => mkWriteCommand dr de tg va t so re ra) <$> DataType_UnmarshalJSON v
  /\ cmd_set "source" v c = (fun s => mkWriteCommand dr de tg va ty s re ra) <$> set_string v so
  /\ cmd_set "remote" v c = (fun s => mkWriteCommand dr de tg va ty so s ra) <$> set_string v re
  /\ cmd_set "raw" v c = (fun b => mkWriteCommand dr de tg va ty so re b) <$> set_bool v ra.
Proof. done. Qed.
End cmd_set.

Ltac cmd_set_simpl :=
  repeat match goal with
  | |- context [cmd_set _ ?v (mkWriteCommand ?a ?b ?c ?d ?e ?f ?g ?h)] =>
      destruct (cmd_set_fields v a b c f g d e h) as (E1 & E2 & E3 & E4 & E5 & E6 & E7 & E8);
      rewrite ?E1, ?E2, ?E3, ?E4, ?E5, ?E6, ?E7, ?E8; clear E1 E2 E3 E4 E5 E6 E7 E8; cbn [fmap option_fmap option_map]
  end.

Lemma cmd_set_comm f g v w c :
  f ∈ cmd_fields -> g ∈ cmd_fields -> f <> g ->
  cmd_set f v c ≫= cmd_set g w = cmd_set g w c ≫= cmd_set f v.
Proof.
  intros Hf Hg Hfg. destruct c as [dr de tg va ty so re ra]. unfold cmd_fields in Hf, Hg.
  rewrite !elem_of_cons, elem_of_nil in Hf, Hg.
  destruct Hf as [->|[->|[->|[->|[->|[->|[->|[->|[]]]]]]]]];
  destruct Hg as [->|[->|[->|[->|[->|[->|[->|[->|[]]]]]]]]]; try done; clear Hfg; cmd_set_simpl;
  match goal with |- (_ <$> ?x) ≫= _ = (_ <$> ?y) ≫= _ => destruct x eqn:X, y eqn:Y end;
  cbn [fmap option_fmap option_map mbind option_bind]; cmd_set_simpl; rewrite ?X, ?Y; done.
Qed.

(** ** Values of a declared type *)

(** The values a driver produces at a type, those whose text the model
    defines. *)
Definition typed (v : Value) (t : DataType) : Prop :=
  match v, t with
  | VBool _, TypeBool => True
  | VInt8 z, TypeInt8 => - 2 ^ 7 <= z < 2 ^ 7
  | VInt16 z, TypeInt16 => - 2 ^ 15 <= z < 2 ^ 15
  | VInt32 z, TypeInt32 => - 2 ^ 31 <= z < 2 ^ 31
  | VInt64 z, TypeInt64 => - 2 ^ 63 <= z < 2 ^ 63
  | VUint8 z, TypeUint8 => 0 <= z < 2 ^ 8
  | VUint16 z, TypeUint16 => 0 <= z < 2 ^ 16
  | VUint32 z, TypeUint32 => 0 <= z < 2 ^ 32
  | VUint64 z, TypeUint64 => 0 <= z < 2 ^ 64
  | VString s, TypeString => utf8 s
  | VBytes l, TypeBytes => bytes l
  | _, _ => False
  end.

(** What the JSON of such a value satisfies. *)
Record carries (v : json) (x : Value) (t : DataType) : Prop := {
  ca_wf : wf v;
  ca_flat : nesting v = 0;
  ca_esc : hescape v = v;
  ca_any : any_ok v = true;
  ca_decode : decodeValueByType (print v) t = x;
}.

Lemma carries_int z x t :
  - 2 ^ 63 <= z < 2 ^ 64 -> int_value t z = Some x -> parse_range t z -> carries (JNum (itoa z)) x t.
Proof.
  intros Hz Hv Hr. split; [|done|done|apply any_ok_itoa; lia|by apply decode_itoa].
  simpl. apply num_ok_itoa. lia.
Qed.

Lemma print_string_token b :
  body_ok b -> parse (print (JStr b)) = Some (JStr b) /\ starts_quote (print (JStr b)) = true
  /\ print (JStr b) <> EmptyString /\ print (JStr b) <> "null"%string.
Proof. intros Hb. split_and!; [by apply parse_print; [|by vm_compute]|done..]. Qed.

Lemma esc_b64_char d t : 0 <= d < 64 -> esc (String (b64_char d) t) = String (b64_char d) (esc t).
Proof.
  intros H. assert (exists n, (n < 64)%nat /\ d = Z.of_nat n) as (n & Hn & ->)
    by (exists (Z.to_nat d); lia).
  do 64 (destruct n as [|n]; [reflexivity|]). lia.
Qed.

Lemma esc_b64 l : bytes l -> esc (b64_encode l) = b64_encode l.
Proof.
  induction l as [|a|a b|a b c l IH] using list3_ind; intros Hl.
  - done.
  - apply Forall_cons in Hl as [? _]. cbn [b64_encode]. cbv zeta. by rewrite !esc_b64_char by dm_lia.
  - apply Forall_cons in Hl as [? Hl]. apply Forall_cons in Hl as [? _].
    cbn [b64_encode]. cbv zeta. by rewrite !esc_b64_char by dm_lia.
  - apply Forall_cons in Hl as [? Hl]. apply Forall_cons in Hl as [? Hl].
    apply Forall_cons in Hl as [? Hl]. cbn [b64_encode]. cbv zeta.
    rewrite !esc_b64_char by dm_lia. by rewrite IH.
Qed.

(** A string literal the encoder wrote. *)
Lemma carries_str s x t :
  (json_string (print (jstring s)) = Some s -> decodeValueByType (print (jstring s)) t = x) ->
  utf8 s -> carries (jstring s) x t.
Proof.
  intros Hd Hs. pose proof (body_ok_esc s) as Hb. destruct (print_string_token _ Hb) as (Hp & _).
  split; [done|done|simpl; by rewrite hesc_esc|done|].
  apply Hd. unfold jstring in *. cbn [json_string go_json]. rewrite Hp. by rewrite unq_esc.
Qed.

Lemma typed_carried `{JsonEnc} x t :
  typed x t -> exists v, marshal_value x = Some v /\ carries v x t.
Proof.
  intros Ht.
  assert (forall z y, int_value t z = Some y -> - 2 ^ 63 <= z < 2 ^ 64 -> parse_range t z ->
    carries (JNum (itoa z)) y t) as Hi by (intros; by apply carries_int).
  destruct x as [|b|z|z|z|z|z|z|z|z|z|z|f|f|s|l|n], t; try done; simpl in Ht; eexists; (split; [reflexivity|]).
  1: by destruct b.
  1-8: apply Hi; simpl; [|lia|lia]; first [by rewrite wraps_small by lia | by rewrite wrapu_small by lia].
  - apply carries_str; [|done]. intros Hs. pose proof (body_ok_esc s) as Hb.
    destruct (print_string_token _ Hb) as (_ & Hq & H1 & H2).
    unfold jstring, decodeValueByType in *. rewrite decide_False by naive_solver.
    unfold decodeStringToken. by rewrite Hq, Hs.
  - rewrite <- (esc_b64 l) by done. apply carries_str; [|by apply b64_utf8].
    intros Hs. pose proof (body_ok_esc (b64_encode l)) as Hb.
    destruct (print_string_token _ Hb) as (Hp & Hq & H1 & H2).
    unfold jstring, decodeValueByType in *. rewrite decide_False by naive_solver.
    unfold decodeBytesToken. rewrite Hq. cbn [json_bytes json_string go_json] in Hs |- *.
    rewrite Hp in Hs |- *. simplify_eq Hs. intros ->. by rewrite b64_roundtrip.
Qed.

(** ** The round trip *)

Record cmd_ok (c : WriteCommand) : Prop := {
  ck_typed : typed (cmd_Value c) (cmd_Type c);
  ck_driver : utf8 (cmd_Driver c);
  ck_device : utf8 (cmd_Device c);
  ck_tag : utf8 (cmd_Tag c);
  ck_source : utf8 (cmd_Source c);
  ck_remote : utf8 (cmd_Remote c);
}.

(** Members that decoding a command skips. *)
Definition foreign (kv : string * json) : Prop :=
  field_of cmd_fields (unq kv.1) = None /\ field_of ["value"%string] (unq kv.1) = None.

Lemma decode_members_skip {S} names (set : string -> json -> S -> option S) ex l x :
  Forall (fun kv => field_of names (unq kv.1) = None) ex ->
  decode_members names set (ex ++ l) x = decode_members names set l x.
Proof.
  induction 1 as [|[k v] ex Hk _ IH]; [done|]. simpl in *. by rewrite Hk.
Qed.

Lemma field_keys_skip names ex l :
  Forall (fun kv => field_of names (unq kv.1) = None) ex -> field_keys names (ex ++ l) = field_keys names l.
Proof.
  unfold field_keys. induction 1 as [|[k v] ex Hk _ IH]; [done|]. simpl in *. by rewrite Hk.
Qed.

Lemma set_jstring s old : utf8 s -> set_string (jstring s) old = Some s.
Proof. intros Hs. simpl. by rewrite unq_esc. Qed.

Lemma named_type x t : typed x t -> DataType_UnmarshalJSON (DataType_MarshalJSON t) = Some t.
Proof. intros H. destruct t; try done; try (by vm_compute). by destruct x. Qed.

Lemma any_value_ok v : any_ok v = true -> is_Some (any_value v).
Proof.
  intros H. unfold any_value. rewrite H. destruct v; simpl; try by eexists.
  simpl in H. destruct (parse_number F64 lit); [by eexists|done].
Qed.

(** A member whose key is a field's name. *)
Lemma decode_members_field {S} names (set : string -> json -> S -> option S) k f v l x y :
  field_of names (unq k) = Some f -> set f v x = Some y ->
  decode_members names set ((k, v) :: l) x = decode_members names set l y.
Proof. intros Hk Hs. rewrite decode_members_cons, Hk, Hs. done. Qed.

Lemma decode_members_app {S} names (set : string -> json -> S -> option S) l1 l2 x :
  decode_members names set (l1 ++ l2) x = decode_members names set l1 x ≫= decode_members names set l2.
Proof.
  revert x. induction l1 as [|[k v] l1 IH]; intros x; [done|]. rewrite <- app_comm_cons, !decode_members_cons.
  destruct (field_of names (unq k)); [|done]. destruct (set _ v x); [apply IH|done].
Qed.

(** One field after the other, by computation of its name. *)
Ltac decode_field :=
  erewrite decode_members_field; [|vm_compute; reflexivity|cmd_set_simpl; rewrite ?set_jstring by done; reflexivity].

Lemma cmd_head_decode dr de tg v t y :
  utf8 dr -> utf8 de -> utf8 tg -> any_value v = Some y ->
  DataType_UnmarshalJSON (DataType_MarshalJSON t) = Some t ->
  decode_members cmd_fields cmd_set
    [("driver", jstring dr); ("device", jstring de); ("tag", jstring tg); ("value", v);
     ("type", DataType_MarshalJSON t)]%string cmd_zero
  = Some (mkWriteCommand dr de tg y t "" "" false).
Proof.
  intros Hdr Hde Htg Hy Ht. unfold cmd_zero. do 3 decode_field.
  erewrite decode_members_field; [|vm_compute; reflexivity|cmd_set_simpl; rewrite Hy; reflexivity].
  erewrite decode_members_field; [|vm_compute; reflexivity|cmd_set_simpl; rewrite Ht; reflexivity].
  done.
Qed.

Lemma cmd_members_decode c v :
  carries v (cmd_Value c) (cmd_Type c) -> cmd_ok c ->
  exists y, decode_members cmd_fields cmd_set (cmd_members c v) cmd_zero = Some (cmd_with_value c y).
Proof.
  intros Hv [Ht Hdr Hde Htg Hso Hre]. destruct (any_value_ok v (ca_any _ _ _ Hv)) as [y Hy]. exists y.
  destruct c as [dr de tg va ty so re ra]. unfold cmd_members, cmd_with_value.
  cbn [cmd_Driver cmd_Device cmd_Tag cmd_Value cmd_Type cmd_Source cmd_Remote cmd_Raw] in *.
  rewrite decode_members_app, (cmd_head_decode _ _ _ _ _ y) by eauto using named_type.
  cbn [mbind option_bind]. rewrite decode_members_app.
  assert (decode_members cmd_fields cmd_set (omitempty "source" (String.eqb "") jstring so)
    (mkWriteCommand dr de tg y ty "" "" false) = Some (mkWriteCommand dr de tg y ty so "" false)) as ->.
  { unfold omitempty. destruct (String.eqb_spec "" so) as [<-|]; [done|]. by decode_field. }
  cbn [mbind option_bind]. rewrite decode_members_app.
  assert (decode_members cmd_fields cmd_set (omitempty "remote" (String.eqb "") jstring re)
    (mkWriteCommand dr de tg y ty so "" false) = Some (mkWriteCommand dr de tg y ty so re false)) as ->.
  { unfold omitempty. destruct (String.eqb_spec "" re) as [<-|]; [done|]. by decode_field. }
  cbn [mbind option_bind]. unfold omitempty. destruct ra; [|done]. simpl negb. cbn iota. by decode_field.
Qed.

Lemma cmd_members_keys c v : NoDup (field_keys cmd_fields (cmd_members c v))
  /\ NoDup (field_keys ["value"%string] (cmd_members c v)).
Proof.
  unfold cmd_members, omitempty. destruct (String.eqb "" (cmd_Source c)), (String.eqb "" (cmd_Remote c)),
    (cmd_Raw c); cbv [negb]; split;
    apply (bool_decide_eq_true_1 (NoDup _)); vm_compute; done.
Qed.

Lemma cmd_members_value c v :
  decode_members ["value"%string] (fun _ v _ => Some (Some v)) (cmd_members c v) None = Some (Some v).
Proof.
  unfold cmd_members, omitempty. destruct (String.eqb "" (cmd_Source c)), (String.eqb "" (cmd_Remote c)),
    (cmd_Raw c); reflexivity.
Qed.

Lemma value_set_comm (f g : string) (v w : json) (x : option json) :
  f ∈ ["value"%string] -> g ∈ ["value"%string] -> f <> g ->
  (Some (Some v) ≫= fun _ => Some (Some w)) = (Some (Some w) ≫= fun _ : option json => Some (Some v)).
Proof. rewrite !list_elem_of_singleton. congruence. Qed.

(** A command decodes as it was encoded, whatever the order of its members and
    whatever members of other names stand beside them. *)
Lemma cmd_decode c v ex l :
  carries v (cmd_Value c) (cmd_Type c) -> cmd_ok c -> Forall foreign ex -> l ≡ₚ ex ++ cmd_members c v ->
  WriteCommand_UnmarshalJSON (JObj l) = Some c.
Proof.
  intros Hv Hc Hex Hl. destruct (cmd_members_decode c v Hv Hc) as [y Hy].
  destruct (cmd_members_keys c v) as [Hk1 Hk2].
  assert (Forall (fun kv => field_of cmd_fields (unq kv.1) = None) ex) as Hx1
    by (eapply Forall_impl; [exact Hex|]; by intros ? []).
  assert (Forall (fun kv => field_of ["value"%string] (unq kv.1) = None) ex) as Hx2
    by (eapply Forall_impl; [exact Hex|]; by intros ? []).
  unfold WriteCommand_UnmarshalJSON, probeRawValue, decode_struct.
  rewrite <- (decode_members_perm cmd_fields cmd_set cmd_set_comm (ex ++ cmd_members c v) l);
    [|done|by rewrite field_keys_skip].
  rewrite decode_members_skip, Hy by done.
  rewrite <- (decode_members_perm _ (fun _ v _ => Some (Some v)) value_set_comm
    (ex ++ cmd_members c v) l); [|done|by rewrite field_keys_skip].
  rewrite decode_members_skip, cmd_members_value by done.
  change (cmd_Type (cmd_with_value c y)) with (cmd_Type c). rewrite (ca_decode _ _ _ Hv).
  by destruct c.
Qed.
