(* ===== verification/PointJson.v ===== *)
(** * Data points on the wire ([core/json_decode.go], [core/types.go])

    The JSON form of a data point as the transports publish it, and
    [DataPoint.UnmarshalJSON].  The text of a time stamp ([time.Time]'s
    [MarshalJSON] and [UnmarshalJSON]) is a parameter with the documented round
    trip ([TimeCodec]).

    The theorem shows that a published point is read back as it was. *)

From Stdlib Require Import ZArith Lia String Ascii.
From stdpp Require Import base list gmap strings.
From S2P Require Import Prelude GoFloat Types JsonDecode JsonText Json JsonValue CommandJson.

Open Scope Z_scope.

(** The zero [time.Time], in nanoseconds since 1970. *)
Definition zero_time : Z := - 62135596800 * second.

Class TimeCodec := {
  time_text : Z -> option string;
  time_of_text : string -> option Z;
  time_text_utf8 t s : time_text t = Some s -> utf8 s;
  time_roundtrip t s : time_text t = Some s -> time_of_text s = Some t;
}.

(** ** Decoding *)

Definition Quality_of_int (n : Z) : Quality :=
  match n with 0 => QualityGood | 1 => QualityBad | 2 => QualityUncertain | _ => QualityOther n end.

Definition Quality_int (q : Quality) : Z :=
  match q with
  | QualityGood => 0 | QualityBad => 1 | QualityUncertain => 2 | QualityOther n => n
  end.

Definition pt_fields : list string :=
  ["driver"; "device"; "group"; "tag"; "value"; "type"; "quality"; "timestamp"; "metadata"; "is_stale"]%string.

(** An [int] from a number token. *)
Definition set_int (v : json) (old : Z) : option Z :=
  match v with JNull => Some old | JNum l => ParseInt l 64 | _ => None end.

Definition meta_value (v : json) : option string :=
  match v with JNull => Some EmptyString | JStr b => Some (unq b) | _ => None end.

Definition set_metadata (v : json) (old : gmap string string) : option (gmap string string) :=
  match v with
  | JNull => Some ∅
  | JObj l =>
      if List.forallb (fun kv => match meta_value kv.2 with Some _ => true | None => false end) l
      then Some (omap meta_value (obj_map l) ∪ old) else None
  | _ => None
  end.

Section decode.
Context `{TimeCodec}.

Definition set_time (v : json) (old : Z) : option Z :=
  match v with JNull => Some old | JStr b => time_of_text (unq b) | _ => None end.

Definition pt_zero : DataPoint :=
  mkDataPoint "" "" "" "" VNil TypeBool QualityGood zero_time ∅ false.

Definition pt_set (f : string) (v : json) (p : DataPoint) : option DataPoint :=
  let '(mkDataPoint dr de gr tg va ty qu ts me st) := p in
  if bool_decide (f = "driver"%string) then
    (fun s => mkDataPoint s de gr tg va ty qu ts me st) <$> set_string v dr
  else if bool_decide (f = "device"%string) then
    (fun s => mkDataPoint dr s gr tg va ty qu ts me st) <$> set_string v de
  else if bool_decide (f = "group"%string) then
    (fun s => mkDataPoint dr de s tg va ty qu ts me st) <$> set_string v gr
  else if bool_decide (f = "tag"%string) then
    (fun s => mkDataPoint dr de gr s va ty qu ts me st) <$> set_string v tg
  else if bool_decide (f = "value"%string) then
    (fun a => mkDataPoint dr de gr tg a ty qu ts me st) <$> any_value v
  else if bool_decide (f = "type"%string) then
    (fun t => mkDataPoint dr de gr tg va t qu ts me st) <$> DataType_UnmarshalJSON v
  else if bool_decide (f = "quality"%string) then
    (fun n => mkDataPoint dr de gr tg va ty (Quality_of_int n) ts me st) <$> set_int v (Quality_int qu)
  else if bool_decide (f = "timestamp"%string) then
    (fun t => mkDataPoint dr de gr tg va ty qu t me st) <$> set_time v ts
  else if bool_decide (f = "metadata"%string) then
    (fun m => mkDataPoint dr de gr tg va ty qu ts m st) <$> set_metadata v me
  else
    (fun b => mkDataPoint dr de gr tg va ty qu ts me b) <$> set_bool v st.

Definition pt_with_value (p : DataPoint) (v : Value) : DataPoint :=
  mkDataPoint (dp_Driver p) (dp_Device p) (dp_Group p) (dp_Tag p) v (dp_Type p) (dp_Quality p)
    (dp_Timestamp p) (dp_Metadata p) (dp_IsStale p).

(** [DataPoint.UnmarshalJSON]. *)
Definition DataPoint_UnmarshalJSON (v : json) : option DataPoint :=
  match decode_struct pt_fields pt_set v pt_zero with
  | Some fields => Some (pt_with_value fields (decodeValueByType (probeRawValue v) (dp_Type fields)))
  | None => None
  end.
End decode.

(** ** Encoding *)

Section encode.
Context `{TimeCodec} `{JsonEnc}.

Definition metadata_json (m : gmap string string) : json := map_json (jstring <$> m).

Definition pt_members (p : DataPoint) (v : json) (ts : string) : list (string * json) :=
  [("driver", jstring (dp_Driver p)); ("device", jstring (dp_Device p)); ("group", jstring (dp_Group p));
   ("tag", jstring (dp_Tag p)); ("value", v); ("type", DataType_MarshalJSON (dp_Type p));
   ("quality", JNum (itoa (Quality_int (dp_Quality p)))); ("timestamp", jstring ts)]%string
  ++ omitempty "metadata" (fun m => bool_decide (m = ∅)) metadata_json (dp_Metadata p)
  ++ omitempty "is_stale" negb JBool (dp_IsStale p).

(** The document [json.Marshal(point)] writes. *)
Definition point_json (p : DataPoint) : option json :=
  match marshal_value (dp_Value p), time_text (dp_Timestamp p) with
  | Some v, Some ts => Some (hescape (JObj (pt_members p v ts)))
  | _, _ => None
  end.

Definition marshal_point (p : DataPoint) : option string := print <$> point_json p.

(** [json.Marshal(points)]. *)
Definition marshal_points (ps : list DataPoint) : option string :=
  (fun l => print (JArr l)) <$> mapM point_json ps.
End encode.

(** ** The round trip *)

Record pt_ok `{TimeCodec} (p : DataPoint) : Prop := {
  pk_typed : typed (dp_Value p) (dp_Type p);
  pk_driver : utf8 (dp_Driver p);
  pk_device : utf8 (dp_Device p);
  pk_group : utf8 (dp_Group p);
  pk_tag : utf8 (dp_Tag p);
  pk_quality : - 2 ^ 63 <= Quality_int (dp_Quality p) < 2 ^ 63;
  pk_time : is_Some (time_text (dp_Timestamp p));
  pk_quality_norm : Quality_of_int (Quality_int (dp_Quality p)) = dp_Quality p;
  pk_metadata : map_Forall (fun k v => utf8 k /\ utf8 v) (dp_Metadata p);
}.

Section pt_set.
Context `{TimeCodec}.
Variables (v : json) (dr de gr tg : string) (va : Value) (ty : DataType) (qu : Quality) (ts : Z)
  (me : gmap string string) (st : bool).
Let p := mkDataPoint dr de gr tg va ty qu ts me st.

Lemma pt_set_fields :
  pt_set "driver" v p = (fun s => mkDataPoint s de gr tg va ty qu ts me st) <$> set_string v dr
  /\ pt_set "device" v p = (fun s => mkDataPoint dr s gr tg va ty qu ts me st) <$> set_string v de
  /\ pt_set "group" v p = (fun s => mkDataPoint dr de s tg va ty qu ts me st) <$> set_string v gr
  /\ pt_set "tag" v p = (fun s => mkDataPoint dr de gr s va ty qu ts me st) <$> set_string v tg
  /\ pt_set "value" v p = (fun a => mkDataPoint dr de gr tg a ty qu ts me st) <$> any_value v
  /\ pt_set "type" v p = (fun t => mkDataPoint dr de gr tg va t qu ts me st) <$> DataType_UnmarshalJSON v
  /\ pt_set "quality" v p
     = (fun n => mkDataPoint dr de gr tg va ty (Quality_of_int n) ts me st) <$> set_int v (Quality_int qu)
  /\ pt_set "timestamp" v p = (fun t => mkDataPoint dr de gr tg va ty qu t me st) <$> set_time v ts
  /\ pt_set "metadata" v p = (fun m => mkDataPoint dr de gr tg va ty qu ts m st) <$> set_metadata v me
  /\ pt_set "is_stale" v p = (fun b => mkDataPoint dr de gr tg va ty qu ts me b) <$> set_bool v st.
Proof. done. Qed.
End pt_set.

(** The next field, whose decoding is the given equation. *)
Ltac pt_field E :=
  erewrite decode_members_field;
  [|vm_compute; reflexivity
   |match goal with |- context [pt_set _ ?v (mkDataPoint ?a ?b ?c ?d ?e ?f ?g ?h ?i ?j)] =>
      destruct (pt_set_fields v a b c d e f g h i j) as (F1 & F2 & F3 & F4 & F5 & F6 & F7 & F8 & F9 & F10);
      rewrite ?F1, ?F2, ?F3, ?F4, ?F5, ?F6, ?F7, ?F8, ?F9, ?F10;
      rewrite E by done; reflexivity
    end].

Lemma metadata_ok m : map_Forall (fun k v => utf8 k /\ utf8 v) m -> map_ok (jstring <$> m).
Proof.
  intros Hm k v. rewrite lookup_fmap. intros (s & Hs & ->)%fmap_Some. destruct (Hm _ _ Hs).
  split_and!; [done|apply body_ok_esc|done].
Qed.

Lemma metadata_normal m : hescape <$> (jstring <$> m) =@{gmap string json} jstring <$> m.
Proof.
  apply map_eq. intros k. rewrite !lookup_fmap. destruct (m !! k); simpl; [|done]. by rewrite hesc_esc.
Qed.

Lemma set_metadata_json m old :
  map_Forall (fun k v => utf8 k /\ utf8 v) m -> old = ∅ -> set_metadata (metadata_json m) old = Some m.
Proof.
  intros Hm ->. unfold metadata_json, map_json, set_metadata. rewrite obj_map_json by by apply metadata_ok.
  rewrite metadata_normal.
  assert (List.forallb (fun kv => match meta_value kv.2 with Some _ => true | None => false end)
    ((fun kv => (esc kv.1, hescape kv.2)) <$> sorted_members (jstring <$> m)) = true) as ->.
  { apply forallb_forall. intros kv Hin%list_elem_of_In. apply list_elem_of_fmap in Hin as ([k v] & -> & Hin).
    rewrite sorted_members_perm, elem_of_map_to_list, lookup_fmap in Hin.
    apply fmap_Some in Hin as (s & _ & ->). done. }
  f_equal. rewrite map_union_empty. apply map_eq. intros k. rewrite lookup_omap, lookup_fmap.
  destruct (m !! k) as [s|] eqn:E; simpl; [|done]. destruct (Hm _ _ E). by rewrite unq_esc.
Qed.

Lemma set_int_itoa z old : - 2 ^ 63 <= z < 2 ^ 63 -> set_int (JNum (itoa z)) old = Some z.
Proof. apply ParseInt_itoa. Qed.

Lemma set_time_text `{TimeCodec} t s old :
  time_text t = Some s -> set_time (jstring s) old = Some t.
Proof. intros Ht. simpl. rewrite unq_esc by (by eapply time_text_utf8). by apply time_roundtrip. Qed.

Lemma pt_head_decode `{TimeCodec} dr de gr tg v t q ts tx y :
  utf8 dr -> utf8 de -> utf8 gr -> utf8 tg -> any_value v = Some y ->
  DataType_UnmarshalJSON (DataType_MarshalJSON t) = Some t -> - 2 ^ 63 <= Quality_int q < 2 ^ 63 ->
  Quality_of_int (Quality_int q) = q -> time_text ts = Some tx ->
  decode_members pt_fields pt_set
    [("driver", jstring dr); ("device", jstring de); ("group", jstring gr); ("tag", jstring tg);
     ("value", v); ("type", DataType_MarshalJSON t); ("quality", JNum (itoa (Quality_int q)));
     ("timestamp", jstring tx)]%string pt_zero
  = Some (mkDataPoint dr de gr tg y t q ts ∅ false).
Proof.
  intros Hdr Hde Hgr Htg Hy Ht Hq Hqn Hts. unfold pt_zero.
  do 4 pt_field set_jstring. pt_field Hy. pt_field Ht. pt_field set_int_itoa.
  pose proof (fun old => set_time_text ts tx old Hts) as Htt. pt_field Htt. simpl. by rewrite Hqn.
Qed.

Lemma pt_members_decode `{TimeCodec} p v tx :
  carries v (dp_Value p) (dp_Type p) -> pt_ok p -> time_text (dp_Timestamp p) = Some tx ->
  exists y, decode_members pt_fields pt_set (pt_members p v tx) pt_zero = Some (pt_with_value p y).
Proof.
  intros Hv [Ht Hdr Hde Hgr Htg Hq _ Hqn Hme] Htx. destruct (any_value_ok v (ca_any _ _ _ Hv)) as [y Hy].
  exists y. destruct p as [dr de gr tg va ty qu ts me st]. unfold pt_members, pt_with_value.
  cbn [dp_Driver dp_Device dp_Group dp_Tag dp_Value dp_Type dp_Quality dp_Timestamp dp_Metadata dp_IsStale] in *.
  rewrite decode_members_app, (pt_head_decode _ _ _ _ _ _ _ ts _ y) by eauto using named_type.
  cbn [mbind option_bind]. rewrite decode_members_app.
  assert (decode_members pt_fields pt_set
    (omitempty "metadata" (fun m => bool_decide (m = ∅)) metadata_json me)
    (mkDataPoint dr de gr tg y ty qu ts ∅ false) = Some (mkDataPoint dr de gr tg y ty qu ts me false)) as ->.
  { unfold omitempty. case_bool_decide; [by subst|]. by pt_field set_metadata_json. }
  cbn [mbind option_bind]. unfold omitempty. destruct st; [|done]. simpl negb. cbn iota.
  assert (forall old, set_bool (JBool true) old = Some true) as Hb by done. by pt_field Hb.
Qed.

Lemma pt_members_value p v tx :
  decode_members ["value"%string] (fun _ v _ => Some (Some v)) (pt_members p v tx) None = Some (Some v).
Proof. unfold pt_members, omitempty. case_bool_decide; destruct (dp_IsStale p); reflexivity. Qed.

Lemma pt_decode `{TimeCodec} p v tx :
  carries v (dp_Value p) (dp_Type p) -> pt_ok p -> time_text (dp_Timestamp p) = Some tx ->
  DataPoint_UnmarshalJSON (JObj (pt_members p v tx)) = Some p.
Proof.
  intros Hv Hp Htx. destruct (pt_members_decode p v tx Hv Hp Htx) as [y Hy].
  unfold DataPoint_UnmarshalJSON, probeRawValue, decode_struct. rewrite Hy, pt_members_value.
  change (dp_Type (pt_with_value p y)) with (dp_Type p). rewrite (ca_decode _ _ _ Hv). by destruct p.
Qed.

Lemma nesting_obj_flat l k :
  0 <= k -> Forall (fun kv : string * json => nesting kv.2 <= k) l -> nesting (JObj l) <= k + 1.
Proof. intros Hk Hl. simpl. induction Hl; simpl; lia. Qed.

Lemma metadata_json_wf m :
  map_Forall (fun k v => utf8 k /\ utf8 v) m ->
  wf (metadata_json m) /\ nesting (metadata_json m) <= 1 /\ hescape (metadata_json m) = metadata_json m.
Proof.
  intros Hm. assert (Forall (fun kv => exists s, kv.2 = jstring s) (sorted_members (jstring <$> m))) as Hs.
  { rewrite sorted_members_perm. apply Forall_forall. intros [k v] Hin.
    rewrite elem_of_map_to_list, lookup_fmap in Hin. apply fmap_Some in Hin as (s & _ & ->). by exists s. }
  split_and!.
  - by apply map_json_wf, metadata_ok.
  - apply (nesting_obj_flat _ 0); [done|]. rewrite Forall_fmap. eapply Forall_impl; [exact Hs|].
    intros [k v] [s Hv]. simpl in *. by subst.
  - unfold metadata_json, map_json. cbn [hescape]. f_equal.
    change (List.map ?f ?l) with (f <$> l). rewrite <- list_fmap_compose. apply Forall_fmap_ext_1.
    eapply Forall_impl; [exact Hs|]. intros [k v] [s Hv]. simpl in Hv. subst. unfold compose. simpl.
    by rewrite !hesc_esc.
Qed.

Lemma esc_member k v : esc k = k -> wf v -> hescape v = v -> nesting v <= 1 ->
  (body_ok k /\ wf v) /\ (hesc k, hescape v) = (k, v) /\ nesting v <= 1.
Proof.
  intros Hk Hw Hv Hn. split_and!; [rewrite <- Hk; apply body_ok_esc|done| |done].
  rewrite Hv, <- Hk at 1. by rewrite hesc_esc, Hk.
Qed.

Lemma pt_members_normal `{TimeCodec} p v tx :
  carries v (dp_Value p) (dp_Type p) -> pt_ok p ->
  hescape (JObj (pt_members p v tx)) = JObj (pt_members p v tx)
  /\ wf (JObj (pt_members p v tx)) /\ nesting (JObj (pt_members p v tx)) <= 2.
Proof.
  intros [Hw Hn He _ _] Hp. destruct (metadata_json_wf _ (pk_metadata p Hp)) as (Mw & Mn & Mh).
  assert (forall s, wf (jstring s) /\ hescape (jstring s) = jstring s /\ nesting (jstring s) <= 1) as Hj.
  { intros s. split_and!; [apply body_ok_esc|simpl; by rewrite hesc_esc|done]. }
  pose proof (pk_quality p Hp) as Hq.
  assert (Forall (fun kv => (body_ok kv.1 /\ wf kv.2) /\ (hesc kv.1, hescape kv.2) = kv /\ nesting kv.2 <= 1)
    (pt_members p v tx)) as HF.
  { unfold pt_members, omitempty. repeat apply Forall_cons_2; repeat apply Forall_app_2;
      repeat case_match; repeat apply Forall_cons_2; try apply Forall_nil_2;
      apply esc_member; try reflexivity; try apply Hj; try done;
      first [simpl; by rewrite Hn | simpl; apply num_ok_itoa; lia]. }
  split_and!.
  - cbn [hescape]. f_equal. rewrite <- (list_fmap_id (pt_members p v tx)) at 2. apply Forall_fmap_ext_1.
    eapply Forall_impl; [exact HF|]. by intros [k w] (_ & E & _).
  - apply wf_obj. eapply Forall_impl; [exact HF|]. by intros ? [].
  - apply (nesting_obj_flat _ 1); [done|]. eapply Forall_impl; [exact HF|]. by intros ? (_ & _ & ?).
Qed.

(** What is published of a point. *)
Lemma point_json_ok `{TimeCodec} `{JsonEnc} p :
  pt_ok p -> exists d, point_json p = Some d /\ wf d /\ nesting d <= 2 /\ DataPoint_UnmarshalJSON d = Some p.
Proof.
  intros Hp. destruct (typed_carried _ _ (pk_typed p Hp)) as (v & Hv & Hc).
  destruct (pk_time p Hp) as [tx Htx]. destruct (pt_members_normal p v tx Hc Hp) as (E & Hw & Hn).
  exists (JObj (pt_members p v tx)). unfold point_json. rewrite Hv, Htx, E. split_and!; try done.
  by apply pt_decode.
Qed.

Lemma points_json_ok `{TimeCodec} `{JsonEnc} ps :
  Forall pt_ok ps -> exists l, mapM point_json ps = Some l
    /\ Forall2 (fun p d => wf d /\ nesting d <= 2 /\ DataPoint_UnmarshalJSON d = Some p) ps l.
Proof.
  induction 1 as [|p ps Hp _ (l & Hl & HF)]; [by exists []|].
  destruct (point_json_ok p Hp) as (d & Hd & ?). exists (d :: l). simpl. rewrite Hd. simpl. rewrite Hl. simpl.
  split; [done|]. by constructor.
Qed.

(** ** Instances for the examples *)

Module Examples.

(** No floats, and time stamps as decimal nanoseconds. *)
Program Definition no_floats : JsonEnc := {| enc_float _ _ := None; enc_other _ := None |}.
Next Obligation. done. Qed.
Next Obligation. done. Qed.

Definition nanos_text (t : Z) : option string :=
  if decide (- 2 ^ 63 <= t < 2 ^ 63) then Some (itoa t) else None.

Lemma nanos_utf8 t s : nanos_text t = Some s -> utf8 s.
Proof. unfold nanos_text. case_decide; [|done]. intros [= <-]. apply itoa_utf8. lia. Qed.

Lemma nanos_roundtrip t s : nanos_text t = Some s -> ParseInt s 64 = Some t.
Proof. unfold nanos_text. case_decide; [|done]. intros [= <-]. by apply ParseInt_itoa. Qed.

Definition nanos : TimeCodec :=
  {| time_text := nanos_text; time_of_text s := ParseInt s 64;
     time_text_utf8 := nanos_utf8; time_roundtrip := nanos_roundtrip |}.

Definition point : DataPoint :=
  mkDataPoint "plc1" "" "fast" "count" (VUint64 18446744073709551615) TypeUint64 QualityGood
    1700000000000000000 {["unit" := "kWh"]} false.

Lemma point_ok : pt_ok (H := nanos) point.
Proof.
  split; simpl; try (by apply utf8_ascii); try lia; try done.
  apply map_Forall_singleton. split; by apply utf8_ascii.
Qed.
End Examples.
