(* ===== verification/Sha256.v ===== *)
(** * SHA-256 and HMAC-SHA256 ([crypto/sha256], [crypto/hmac])

    The two primitives the command authentication uses, executable on bytes,
    with published test vectors.  The signature text is the lower-case
    hexadecimal form ([hex.EncodeToString], the verb [%x]). *)

From Stdlib Require Import ZArith Lia String Ascii.
From stdpp Require Import base list strings.
From S2P Require Import Prelude JsonText.

Open Scope Z_scope.

(** ** The constants, as FIPS 180-4 (4.2.2 and 5.3.3) defines them: the first 32
    bits of the fractional parts of the cube roots of the first 64 primes, and
    of the square roots of the first eight. *)

Definition is_prime (n : nat) : bool :=
  forallb (fun d => bool_decide (n mod d <> 0)%nat) (seq 2 (n - 2)).

Definition primes : list Z := Z.of_nat <$> filter is_prime (seq 2 310).

(** The largest [r < 2 ^ n] with [r ^ k <= x], bit by bit. *)
Fixpoint iroot (k : Z) (n : nat) (r x : Z) : Z :=
  match n with
  | O => r
  | S n =>
      let r' := r + 2 ^ Z.of_nat n in
      iroot k n (if decide (r' ^ k <= x) then r' else r) x
  end.

(** [k]-th root of [p], scaled by [2 ^ 32], without its integer part. *)
Definition frac_root (k p : Z) : Z := iroot k 40 0 (p * 2 ^ (32 * k)) mod 2 ^ 32.

Definition K256 : list Z := Eval vm_compute in frac_root 3 <$> primes.
Definition H256 : list Z := Eval vm_compute in frac_root 2 <$> take 8 primes.

Definition add32 (a b : Z) : Z := (a + b) mod 2 ^ 32.

Definition rotr (n x : Z) : Z :=
  Z.lor (Z.shiftr x n) (Z.land (Z.shiftl x (32 - n)) (2 ^ 32 - 1)).

Definition bsig0 (x : Z) : Z := Z.lxor (Z.lxor (rotr 2 x) (rotr 13 x)) (rotr 22 x).
Definition bsig1 (x : Z) : Z := Z.lxor (Z.lxor (rotr 6 x) (rotr 11 x)) (rotr 25 x).
Definition ssig0 (x : Z) : Z := Z.lxor (Z.lxor (rotr 7 x) (rotr 18 x)) (Z.shiftr x 3).
Definition ssig1 (x : Z) : Z := Z.lxor (Z.lxor (rotr 17 x) (rotr 19 x)) (Z.shiftr x 10).

Definition ch (x y z : Z) : Z := Z.lxor (Z.land x y) (Z.land (Z.lxor x (2 ^ 32 - 1)) z).
Definition maj (x y z : Z) : Z := Z.lxor (Z.lxor (Z.land x y) (Z.land x z)) (Z.land y z).

(** The message schedule; the words so far are kept newest first. *)
Fixpoint schedule (n : nat) (w : list Z) : list Z :=
  match n with
  | O => reverse w
  | S n =>
      let at_ i := nth i w 0 in
      schedule n (add32 (add32 (ssig1 (at_ 1%nat)) (at_ 6%nat))
                        (add32 (ssig0 (at_ 14%nat)) (at_ 15%nat)) :: w)
  end.

Fixpoint rounds (ks ws : list Z) (h : list Z) : list Z :=
  match ks, ws, h with
  | k :: ks, w :: ws, [a; b; c; d; e; f; g; x] =>
      let t1 := add32 (add32 (add32 x (bsig1 e)) (add32 (ch e f g) k)) w in
      let t2 := add32 (bsig0 a) (maj a b c) in
      rounds ks ws [add32 t1 t2; a; b; c; add32 d t1; e; f; g]
  | _, _, _ => h
  end.

Definition block (h : list Z) (ws : list Z) : list Z :=
  zip_with add32 h (rounds K256 (schedule 48 (reverse ws)) h).

Fixpoint words (l : list Z) : list Z :=
  match l with
  | a :: b :: c :: d :: l => ((a * 256 + b) * 256 + c) * 256 + d :: words l
  | _ => []
  end.

Fixpoint blocks (n : nat) (h ws : list Z) : list Z :=
  match n with
  | O => h
  | S n => blocks n (block h (take 16 ws)) (drop 16 ws)
  end.

(** A one bit, zeros, and the length in bits. *)
Definition sha_pad (m : list Z) : list Z :=
  let n := length m in
  m ++ 128 :: replicate (Z.to_nat ((55 - Z.of_nat n) mod 64)) 0 ++ be_put 8 (8 * Z.of_nat n).

Definition sha256_bytes (m : list Z) : list Z :=
  let p := sha_pad m in
  mjoin (be_put 4 <$> blocks (length p / 64) H256 (words p)).

Definition bytes_of (s : string) : list Z := byte <$> String.list_ascii_of_string s.

Fixpoint hex_of (l : list Z) : string :=
  match l with
  | [] => EmptyString
  | b :: l => String (hexc (b / 16)) (String (hexc (b mod 16)) (hex_of l))
  end.

(** [fmt.Sprintf("%x", sha256.Sum256(payload))]. *)
Definition sha256_hex (s : string) : string := hex_of (sha256_bytes (bytes_of s)).

Definition hmac_key (k : list Z) : list Z :=
  let k := if decide (64 < length k)%nat then sha256_bytes k else k in
  k ++ replicate (64 - length k) 0.

Definition hmac_bytes (key m : list Z) : list Z :=
  let k := hmac_key key in
  sha256_bytes ((Z.lxor 0x5c <$> k) ++ sha256_bytes ((Z.lxor 0x36 <$> k) ++ m)).

Definition hmac_hex (key m : string) : string := hex_of (hmac_bytes (bytes_of key) (bytes_of m)).

(** ** Test vectors (FIPS 180-4, RFC 4231) *)

Example sha256_abc :
  sha256_hex "abc" = "ba7816bf8f01cfea414140de5dae2223b00361a396177a9cb410ff61f20015ad"%string.
Proof. vm_compute. reflexivity. Qed.

Example sha256_two_blocks :
  sha256_hex "abcdbcdecdefdefgefghfghighijhijkijkljklmklmnlmnomnopnopq"
  = "248d6a61d20638b8e5c026930c3e6039a33ce45964ff2167f6ecedd419db06c1"%string.
Proof. vm_compute. reflexivity. Qed.

Example hmac_rfc4231_2 :
  hmac_hex "Jefe" "what do ya want for nothing?"
  = "5bdcc146bf60754e6a042426089575c75a003f089d2739839dec58b964ec3843"%string.
Proof. vm_compute. reflexivity. Qed.

(** ** The text of a digest *)

Lemma hexc_byte d : 0 <= d < 16 -> 48 <= byte (hexc d) < 128 /\ is_html (hexc d) = false.
Proof.
  intros H. assert (exists n, (n < 16)%nat /\ d = Z.of_nat n) as (n & Hn & ->)
    by (exists (Z.to_nat d); lia).
  do 16 (destruct n as [|n]; [by vm_compute|]). lia.
Qed.

Lemma hex_of_utf8 l : Forall (fun b => 0 <= b < 256) l -> utf8 (hex_of l).
Proof.
  induction 1 as [|b l Hb Hl IH]; simpl; [constructor|].
  apply utf8_1; [apply hexc_byte; dm_lia|]. apply utf8_1; [apply hexc_byte; dm_lia|done].
Qed.

Lemma be_put_join_range n (l : list Z) :
  Forall (fun b => 0 <= b < 256) (mjoin (be_put n <$> l)).
Proof.
  induction l as [|x l IH]; [constructor|]. change (mjoin (be_put n <$> x :: l)) with
    (be_put n x ++ mjoin (be_put n <$> l)). apply Forall_app. split; [apply be_put_range|done].
Qed.

(** Signatures are plain text. *)
Lemma hmac_hex_utf8 k m : utf8 (hmac_hex k m).
Proof. apply hex_of_utf8, be_put_join_range. Qed.

#[global] Opaque sha256_hex hmac_hex.
