(* ===== verification/Trace.v ===== *)
(** * Trace propagation ([common/trace])

    Trace identifiers in contexts, the middleware that takes them from the
    [traceparent] header of a request, the header an outgoing request carries, and
    the spans that are logged.  What [crypto/rand] and the clock give is an
    argument of the operations that ask for it.

    The theorems show that a trace identifier survives any number of hops between
    services, that a span is logged at most once with the attributes set before
    its end, and when an identifier is refused by the next service. *)

From Stdlib Require Import ZArith Lia String Ascii.
From stdpp Require Import base list gmap strings.
From S2P Require Import Prelude GoFloat Types JsonText Sha256.

Open Scope Z_scope.

(** ** Contexts and identifiers *)

(** The values a context carries: trace identifier, span name, and the request
    identifier of the router. *)
Record context := mkCtx {
  cx_traceID : option string;
  cx_span : option string;
  cx_reqID : string;
}.

Definition WithTraceID (traceID : string) (ctx : context) : context :=
  mkCtx (Some traceID) (cx_span ctx) (cx_reqID ctx).

Definition TraceIDFromContext (ctx : option context) : string :=
  match ctx with Some c => default EmptyString (cx_traceID c) | None => EmptyString end.

Definition SpanNameFromContext (ctx : option context) : string :=
  match ctx with Some c => default EmptyString (cx_span c) | None => EmptyString end.

(** [rand]: the bytes read, or a failure; [now]: the time as formatted by
    [200601021504050000]. *)
Definition NewTraceID (rand : option (list Z)) (now : string) : string :=
  match rand with
  | Some b => hex_of b
  | None => hex_of (bytes_of now)
  end.

Fixpoint zeros (n : nat) : string :=
  match n with O => EmptyString | S n => String "0" (zeros n) end.

Definition NewSpanID (rand : option (list Z)) : string :=
  match rand with Some b => hex_of b | None => zeros 16 end.

(** ** The header *)

(** [strings.Split] by a byte. *)
Fixpoint split_on (sep : ascii) (s : string) : list string :=
  match s with
  | EmptyString => [EmptyString]
  | String c t =>
      if bool_decide (c = sep) then EmptyString :: split_on sep t
      else match split_on sep t with h :: l => String c h :: l | [] => [String c EmptyString] end
  end.

Definition lower_hex (c : ascii) : bool :=
  let z := byte c in ((48 <=? z) && (z <=? 57)) || ((97 <=? z) && (z <=? 102)).

Definition parseTraceparent (tp : string) : string :=
  match split_on "-" tp with
  | [version; traceID; _; _] =>
      if decide (version <> "00"%string) then EmptyString
      else if decide (String.length traceID <> 32%nat) then EmptyString
      else if negb (forallb lower_hex (String.list_ascii_of_string traceID)) then EmptyString
      else if decide (traceID = zeros 32) then EmptyString
      else traceID
  | _ => EmptyString
  end.

(** The header an outgoing request is given, if any. *)
Definition InjectTraceparent (ctx : context) (rand : option (list Z)) (header : option string) : option string :=
  let traceID := TraceIDFromContext (Some ctx) in
  if decide (traceID = EmptyString) then header
  else Some ("00-" +:+ traceID +:+ "-" +:+ NewSpanID rand +:+ "-01").

(** The context the next handler is called with; [header] is the empty string
    when the request has none. *)
Definition Middleware (header : string) (rand : option (list Z)) (now : string) (ctx : context) : context :=
  let traceID := if decide (header <> EmptyString) then parseTraceparent header else EmptyString in
  if decide (traceID <> EmptyString) then WithTraceID traceID ctx
  else if decide (cx_reqID ctx <> EmptyString) then WithTraceID (cx_reqID ctx) ctx
  else WithTraceID (NewTraceID rand now) ctx.

(** ** Spans *)

Record Span := mkSpan {
  sp_traceID : string;
  sp_name : string;
  sp_startTime : Z;
  sp_attrs : list (string * Value);
  sp_ended : bool;
}.

Definition noopSpan : Span := mkSpan EmptyString EmptyString 0 [] true.

(** A debug record: trace, span, duration, attributes. *)
Record spanLog := mkSpanLog {
  sl_traceID : string;
  sl_span : string;
  sl_duration : Z;
  sl_attrs : list (string * Value);
}.

(** [debug]: whether the default logger has debug records on. *)
Definition Start (debug : bool) (rand : option (list Z)) (clock : string) (now : Z) (name : string) (ctx : context)
    : context * Span :=
  if negb debug then (ctx, noopSpan)
  else
    let traceID := TraceIDFromContext (Some ctx) in
    let '(traceID, ctx) :=
      if decide (traceID = EmptyString) then (NewTraceID rand clock, WithTraceID (NewTraceID rand clock) ctx)
      else (traceID, ctx) in
    (mkCtx (cx_traceID ctx) (Some name) (cx_reqID ctx), mkSpan traceID name now [] false).

Definition SetAttr (key : string) (value : Value) (s : Span) : Span :=
  if sp_ended s then s
  else mkSpan (sp_traceID s) (sp_name s) (sp_startTime s) (sp_attrs s ++ [(key, value)]) false.

Definition End_ (debug : bool) (now : Z) (s : Span) : Span * list spanLog :=
  if sp_ended s then (s, [])
  else
    let s' := mkSpan (sp_traceID s) (sp_name s) (sp_startTime s) (sp_attrs s) true in
    if negb debug then (s', [])
    else (s', [mkSpanLog (sp_traceID s) (sp_name s) (now - sp_startTime s) (sp_attrs s)]).

(** *** Use of a span *)

Inductive spanOp := OpAttr (key : string) (value : Value) | OpEnd (debug : bool) (now : Z).

Fixpoint runSpan (ops : list spanOp) (s : Span) : Span * list spanLog :=
  match ops with
  | [] => (s, [])
  | OpAttr k v :: ops => runSpan ops (SetAttr k v s)
  | OpEnd debug now :: ops =>
      let '(s, l) := End_ debug now s in
      let '(s, l') := runSpan ops s in (s, l ++ l')
  end.

(** The attributes set before the first end, and that end. *)
Fixpoint upToEnd (ops : list spanOp) : list (string * Value) * option (bool * Z) :=
  match ops with
  | [] => ([], None)
  | OpAttr k v :: ops => let '(l, e) := upToEnd ops in ((k, v) :: l, e)
  | OpEnd debug now :: _ => ([], Some (debug, now))
  end.

Lemma runSpan_ended ops s : sp_ended s = true -> runSpan ops s = (s, []).
Proof.
  induction ops as [|[k v|debug now] ops IH]; intros He; [done|..]; cbn [runSpan].
  - unfold SetAttr. rewrite He. auto.
  - unfold End_. rewrite He. by rewrite IH.
Qed.

(** However a span is used, it is logged at most once: at its first end, if
    debug records are on then, with every attribute set before it, in order, and
    nothing set after it. *)
Theorem span_logged_once ops s :
  sp_ended s = false ->
  (runSpan ops s).2 =
  match upToEnd ops with
  | (attrs, Some (true, now)) =>
      [mkSpanLog (sp_traceID s) (sp_name s) (now - sp_startTime s) (sp_attrs s ++ attrs)]
  | _ => []
  end.
Proof.
  revert s. induction ops as [|[k v|debug now] ops IH]; intros s He; [done|..]; cbn [runSpan upToEnd].
  - unfold SetAttr. rewrite He. rewrite IH by done. cbn. destruct (upToEnd ops) as [l [[[] e]|]]; [|done..].
    by rewrite <- (assoc_L (++)).
  - unfold End_. rewrite He. destruct debug; cbn [negb]; rewrite runSpan_ended by done; [|done].
    cbn. by rewrite (right_id_L [] (++)).
Qed.

(** ** Hops between services *)

(** What one service draws: the bytes and clock of a new trace identifier, the
    identifier the router gave the request, and the bytes of the new span. *)
Record hop := mkHop {
  hp_rand : option (list Z);
  hp_now : string;
  hp_reqID : string;
  hp_spanRand : option (list Z);
}.

(** The identifiers under which the services of a chain handle a request whose
    first header is [header]: each forwards it with [InjectTraceparent]. *)
Fixpoint chain (hops : list hop) (header : string) : list string :=
  match hops with
  | [] => []
  | h :: hops =>
      let ctx := Middleware header (hp_rand h) (hp_now h) (mkCtx None None (hp_reqID h)) in
      TraceIDFromContext (Some ctx)
      :: chain hops (default EmptyString (InjectTraceparent ctx (hp_spanRand h) None))
  end.

(** An identifier of the specification: 32 lower-case hexadecimal digits, not
    all of them zero. *)
Definition w3c (id : string) : Prop :=
  String.length id = 32%nat /\ forallb lower_hex (String.list_ascii_of_string id) = true /\ id <> zeros 32.

Definition no_dash (s : string) : Prop := "-"%char ∉ String.list_ascii_of_string s.

Definition bytes (l : list Z) : Prop := Forall (fun b => 0 <= b < 256) l.

Lemma split_on_nil sep s : split_on sep s <> [].
Proof. destruct s as [|c s]; cbn; [done|]. case_bool_decide; [done|]. by destruct (split_on sep s). Qed.

Lemma split_on_app a s : no_dash a -> split_on "-" (a +:+ String "-" s) = a :: split_on "-" s.
Proof.
  unfold no_dash. induction a as [|c a IH]; intros Hn; [done|].
  cbn [String.list_ascii_of_string] in Hn. rewrite not_elem_of_cons in Hn.
  change (String c a +:+ String "-" s) with (String c (a +:+ String "-" s)). cbn [split_on].
  rewrite bool_decide_eq_false_2 by naive_solver. by rewrite IH by naive_solver.
Qed.

Lemma split_on_last a : no_dash a -> split_on "-" a = [a].
Proof.
  unfold no_dash. induction a as [|c a IH]; intros Hn; [done|].
  cbn [String.list_ascii_of_string] in Hn. rewrite not_elem_of_cons in Hn. cbn [split_on].
  rewrite bool_decide_eq_false_2 by naive_solver. by rewrite IH by naive_solver.
Qed.

Lemma hexc_lower d : 0 <= d < 16 -> lower_hex (hexc d) = true /\ (hexc d = "0"%char -> d = 0).
Proof.
  intros Hd. assert (d ∈ seqZ 0 16) as Hin by (apply elem_of_seqZ; lia).
  assert (Forall (fun d => lower_hex (hexc d) = true /\ (hexc d = "0"%char -> d = 0)) (seqZ 0 16)) as Hall.
  { repeat constructor; try (vm_compute; discriminate). }
  rewrite Forall_forall in Hall. by apply Hall.
Qed.

Lemma hex_of_spec l :
  bytes l -> forallb lower_hex (String.list_ascii_of_string (hex_of l)) = true /\
             String.length (hex_of l) = (2 * length l)%nat.
Proof.
  induction 1 as [|b l Hb Hl [IH1 IH2]]; [done|]. cbn [hex_of String.list_ascii_of_string forallb String.length length].
  rewrite (proj1 (hexc_lower (b / 16) ltac:(split; [apply Z.div_pos; lia|apply Z.div_lt_upper_bound; lia]))).
  rewrite (proj1 (hexc_lower (b mod 16) ltac:(apply Z.mod_pos_bound; lia))). split; [done|lia].
Qed.

Lemma hex_of_zeros l : bytes l -> hex_of l = zeros (2 * length l) -> Forall (fun b => b = 0) l.
Proof.
  induction 1 as [|b l Hb Hl IH]; [by constructor|]. cbn [length].
  replace (2 * S (length l))%nat with (S (S (2 * length l))) by lia. cbn [hex_of zeros].
  intros [= H1 H2 H3]. constructor; [|auto].
  apply hexc_lower in H1; [|split; [apply Z.div_pos; lia|apply Z.div_lt_upper_bound; lia]].
  apply hexc_lower in H2; [|apply Z.mod_pos_bound; lia]. pose proof (Z.div_mod b 16). lia.
Qed.

Lemma lower_hex_no_dash s : forallb lower_hex (String.list_ascii_of_string s) = true -> no_dash s.
Proof.
  intros Hf Hin. rewrite forallb_forall in Hf. by specialize (Hf _ (proj1 (list_elem_of_In _ _) Hin)).
Qed.

Lemma zeros_no_dash n : no_dash (zeros n).
Proof. apply lower_hex_no_dash. induction n as [|n IH]; [done|]. cbn. exact IH. Qed.

(** The header a service sends on is read back by the next one. *)
Lemma header_read_back id span :
  w3c id -> no_dash span -> parseTraceparent ("00-" +:+ id +:+ "-" +:+ span +:+ "-01") = id.
Proof.
  intros (Hl & Hx & Hz) Hs. unfold parseTraceparent.
  change ("00-" +:+ id +:+ "-" +:+ span +:+ "-01")
    with ("00" +:+ String "-" (id +:+ String "-" (span +:+ String "-" "01"))).
  rewrite !split_on_app by (done || by apply lower_hex_no_dash || (vm_compute; intros Hin; repeat inversion Hin as [|? ? Hin'])).
  change (split_on "-" "01") with ["01"%string]. cbn iota beta.
  rewrite decide_False by tauto. rewrite decide_False by tauto. rewrite Hx. cbn [negb]. by rewrite decide_False.
Qed.

Definition hop_ok (h : hop) : Prop := match hp_spanRand h with Some b => bytes b | None => True end.

Lemma span_no_dash h : hop_ok h -> no_dash (NewSpanID (hp_spanRand h)).
Proof.
  unfold hop_ok, NewSpanID. destruct (hp_spanRand h) as [b|]; intros Hb; [|apply zeros_no_dash].
  by apply lower_hex_no_dash, hex_of_spec.
Qed.

Lemma w3c_nonempty id : w3c id -> id <> EmptyString.
Proof. by intros (Hl & _ & _) ->. Qed.

(** What a service sends on under a valid identifier. *)
Lemma inject_w3c ctx rand id :
  cx_traceID ctx = Some id -> w3c id ->
  InjectTraceparent ctx rand None = Some ("00-" +:+ id +:+ "-" +:+ NewSpanID rand +:+ "-01").
Proof.
  intros Hc Hw. unfold InjectTraceparent, TraceIDFromContext. rewrite Hc. cbn [from_option Datatypes.id].
  by rewrite decide_False by (by apply w3c_nonempty).
Qed.

Lemma chain_keeps hops id span :
  Forall hop_ok hops -> w3c id -> no_dash span ->
  chain hops ("00-" +:+ id +:+ "-" +:+ span +:+ "-01") = replicate (length hops) id.
Proof.
  intros Hh Hw. revert span. induction Hh as [|h hops Ho Hh IH]; intros span Hs; [done|].
  cbn [chain length replicate]. unfold Middleware. rewrite header_read_back by done.
  rewrite (decide_True (P := "00-" +:+ _ <> _)) by done.
  rewrite decide_True by (by apply w3c_nonempty). rewrite (inject_w3c _ _ id) by done. cbn [from_option Datatypes.id].
  rewrite IH by (by apply span_no_dash). done.
Qed.

(** C. A trace keeps its identifier.  Whatever the services of a chain draw for
    spans, request identifiers and fallbacks, each of them handles a request that
    entered the chain under a valid identifier under that identifier.  A request
    that enters without a header and without a request identifier is given a
    valid one, unless the sixteen random bytes are all zero, and keeps it. *)
Theorem trace_survives_hops h hops id span b :
  Forall hop_ok (h :: hops) ->
  (w3c id -> no_dash span ->
   chain (h :: hops) ("00-" +:+ id +:+ "-" +:+ span +:+ "-01") = replicate (S (length hops)) id) /\
  (hp_rand h = Some b -> hp_reqID h = EmptyString -> bytes b -> length b = 16%nat -> ~ Forall (fun x => x = 0) b ->
   w3c (hex_of b) /\ chain (h :: hops) EmptyString = replicate (S (length hops)) (hex_of b)).
Proof.
  intros Hh. split; [by apply (chain_keeps (h :: hops))|]. intros Hr Hq Hb Hl Hz.
  assert (w3c (hex_of b)) as Hw.
  { destruct (hex_of_spec b Hb) as [Hx Hn]. rewrite Hl in Hn. split_and!; [done..|].
    intros Heq. apply Hz. apply hex_of_zeros; [done|]. by rewrite Hl. }
  split; [done|]. apply Forall_cons_1 in Hh as [Ho Hh]. cbn [chain length replicate]. unfold Middleware.
  rewrite Hr, Hq. cbn [cx_reqID]. rewrite !(decide_False (P := EmptyString <> EmptyString)) by tauto.
  cbn [NewTraceID]. rewrite (inject_w3c _ _ (hex_of b)) by done. cbn [from_option Datatypes.id].
  rewrite chain_keeps by (done || by apply span_no_dash). done.
Qed.

(** *** What the next service refuses *)

Fixpoint dashes (s : string) : nat :=
  match s with
  | EmptyString => O
  | String c s => ((if bool_decide (c = "-"%char) then 1 else 0) + dashes s)%nat
  end.

Lemma length_split s : length (split_on "-" s) = S (dashes s).
Proof.
  induction s as [|c s IH]; [done|]. cbn [split_on dashes]. case_bool_decide; [cbn [length]; lia|].
  destruct (split_on "-" s) eqn:E; [by apply split_on_nil in E|]. done.
Qed.

Lemma dashes_app s t : dashes (s +:+ t) = (dashes s + dashes t)%nat.
Proof.
  induction s as [|c s IH]; [done|]. change (String c s +:+ t) with (String c (s +:+ t)). cbn [dashes]. lia.
Qed.

(** The router gives every request an identifier of the form [host/random-number]
    before the middleware looks for one, so a request without a header is traced
    under an identifier with a dash, which the next service does not take over. *)
Lemma dashed_id_refused ctx rand id header :
  cx_traceID ctx = Some id -> (0 < dashes id)%nat ->
  InjectTraceparent ctx rand None = Some header -> parseTraceparent header = EmptyString.
Proof.
  intros Hc Hd. unfold InjectTraceparent, TraceIDFromContext. rewrite Hc. cbn [from_option Datatypes.id]. case_decide; [done|].
  intros [= <-]. unfold parseTraceparent. pose proof (length_split ("00-" +:+ id +:+ "-" +:+ NewSpanID rand +:+ "-01")) as Hl.
  rewrite !dashes_app in Hl. change (dashes "00-") with 1%nat in Hl. change (dashes "-") with 1%nat in Hl.
  change (dashes "-01") with 1%nat in Hl.
  destruct (split_on _ _) as [|? [|? [|? [|? [|? ?]]]]]; try done. cbn [length] in Hl. lia.
Qed.

(** The identifier made when the random source fails has 36 digits, not 32. *)
Lemma fallback_id_length now : String.length now = 18%nat -> String.length (NewTraceID None now) = 36%nat.
Proof.
  intros Hl. cbn [NewTraceID]. unfold bytes_of.
  assert (forall l : list Z, String.length (hex_of l) = (2 * length l)%nat) as Hh
    by (induction l as [|x l IH]; cbn [hex_of String.length length]; lia).
  assert (length (String.list_ascii_of_string now) = String.length now) as Hn
    by (clear; induction now as [|c now IH]; cbn in *; lia).
  rewrite Hh, length_map. lia.
Qed.

(** *** Three services *)
Module Sample.
Definition ids : list Z := [1; 2; 3; 4; 5; 6; 7; 8; 9; 10; 11; 12; 13; 14; 15; 255].
Definition first : hop := mkHop (Some ids) "" "" (Some [1; 2; 3; 4; 5; 6; 7; 8]).
Definition second : hop := mkHop None "202601010000000000" "gateway/Qx1-000007" None.
End Sample.

Lemma trace_survives_hops_witness :
  chain [Sample.first; Sample.second; Sample.second] EmptyString
  = replicate 3 "0102030405060708090a0b0c0d0e0fff"%string.
Proof.
  assert (bytes Sample.ids) as Hb by (repeat (constructor; [lia|]); constructor).
  refine (proj2 (proj2 (trace_survives_hops Sample.first [Sample.second; Sample.second] EmptyString EmptyString
                          Sample.ids _) eq_refl eq_refl Hb eq_refl _)).
  - repeat constructor; lia.
  - intros Hz. apply Forall_cons_1 in Hz as [Hz _]. discriminate.
Defined.
