(* ===== verification/Commands.v ===== *)
(** * Command authentication of the MQTT transport ([transport/mqtt])

    The command side of the transport: the canonical bytes a command is signed
    over, the HMAC check, the freshness of its time stamp, the replay window,
    the bounded command channel with its dead letters, and the forwarding of a
    command to the next node.  The MQTT client itself is not modelled: a message
    is an event with the time it is handled at.

    The theorems show that what reaches the channel is authenticated and fresh,
    that a payload is accepted at most once while the window remembers it, and
    that a forwarded command is accepted by the next node as the command it
    was.  The last theorem shows what the window does not prevent: it compares
    raw payloads, while the signature covers canonical bytes. *)

From Stdlib Require Import ZArith Lia String Ascii.
From stdpp Require Import base list gmap strings.
From S2P Require Import Prelude GoFloat GoTime Types JsonDecode JsonText Json JsonValue CommandJson Sha256.

Open Scope Z_scope.

(** ** Signing *)

(** [canonicalRawJSON]: object keys sorted at every level, scalars verbatim. *)
Fixpoint canonicalRawJSON (v : json) : json :=
  match v with
  | JObj l => map_json (obj_map (List.map (fun kv => (kv.1, canonicalRawJSON kv.2)) l))
  | JArr l => JArr (List.map (fun x => hescape (canonicalRawJSON x)) l)
  | _ => v
  end.

(** [commandSigningBytes]: the object without the signature fields. *)
Definition commandSigningBytes (payload : string) : string :=
  match unmarshal_map payload with
  | None => payload
  | Some None => marshal_map None
  | Some (Some m) =>
      let m := delete "signature"%string (delete "X-Signature"%string m) in
      marshal_map (Some (canonicalRawJSON <$> m))
  end.

(** [computeHMACSignature] and [verifyHMACSignature]. *)
Definition computeHMACSignature (secret payload : string) : string := hmac_hex secret payload.

Definition verifyHMACSignature (secret payload provided : string) : bool :=
  if bool_decide (secret = EmptyString) then true
  else bool_decide (provided = computeHMACSignature secret payload).

Definition sig_set (f : string) (v : json) (x : string * string) : option (string * string) :=
  if bool_decide (f = "X-Signature"%string) then (fun s => (s, x.2)) <$> set_string v x.1
  else (fun s => (x.1, s)) <$> set_string v x.2.

Definition sig_fields : list string := ["X-Signature"; "signature"]%string.

(** [extractCommandSignature]. *)
Definition extractCommandSignature (payload : string) : string :=
  match parse payload with
  | None => EmptyString
  | Some v =>
      match decode_struct sig_fields sig_set v (EmptyString, EmptyString) with
      | Some (xs, s) => if bool_decide (xs = EmptyString) then s else xs
      | None => EmptyString
      end
  end.

(** The field [timestamp] as an [any]: none when decoding fails. *)
Definition ts_set (f : string) (v : json) (x : json) : option json :=
  if any_ok v then Some v else None.

(** [extractCommandTimestamp]; a float beyond the range of an [int64] converts
    as the architecture does. *)
Definition extractCommandTimestamp `{GoArch} (payload : string) : option Z :=
  match parse payload with
  | None => None
  | Some v =>
      match decode_struct ["timestamp"%string] ts_set v JNull with
      | Some (JNum l) => f_to_s 64 <$> parse_number F64 l
      | _ => None
      end
  end.

(** ** The replay window ([replay_window.go]) *)

Record replayWindow := mkWindow {
  rw_seen : gmap string Z;
  rw_ttl : Z;
  rw_maxSize : Z;
}.

Definition newReplayWindow (ttl maxSize : Z) : replayWindow := mkWindow ∅ ttl maxSize.

Definition rw_with (m : gmap string Z) (rw : replayWindow) : replayWindow :=
  mkWindow m (rw_ttl rw) (rw_maxSize rw).

(** [evictExpired]. *)
Definition evictExpired (now : Z) (rw : replayWindow) : replayWindow :=
  rw_with (filter (fun kt => time_Sub now kt.2 <= rw_ttl rw) (rw_seen rw)) rw.

(** The loop over the map, whose order is unspecified, keeps the first entry of
    the least time. *)
Fixpoint oldest (l : list (string * Z)) (best : string * Z) : string * Z :=
  match l with
  | [] => best
  | (k, t) :: l =>
      if bool_decide (best.1 = EmptyString) || bool_decide (t < best.2)
      then oldest l (k, t) else oldest l best
  end.

(** [checkAndAdd]; [iter] is the order the map is iterated in. *)
Definition checkAndAdd (iter : gmap string Z -> list (string * Z)) (now : Z) (hash : string)
    (rw : replayWindow) : bool * replayWindow :=
  match rw_seen rw !! hash with
  | Some _ => (false, rw)
  | None =>
      let seen :=
        if decide (rw_maxSize rw <= Z.of_nat (size (rw_seen rw))) then
          delete (oldest (iter (rw_seen rw)) (EmptyString, 0)).1 (rw_seen rw)
        else rw_seen rw in
      (true, rw_with (<[hash := now]> seen) rw)
  end.

(** ** The transport's command state *)

Record MQTTCommands := mkCommands {
  mc_commandSecret : string;
  mc_commandMaxSkew : Z;
  mc_commandStrictReplay : bool;
  mc_replayCache : option replayWindow;
  mc_commandCh : list WriteCommand;
  mc_commandCap : Z;
  mc_commandDeadLetter : list DeadLetterEntry;
  mc_commandDeadLetterMax : Z;
  mc_droppedCommands : Z;
}.

Definition with_cache (rw : option replayWindow) (t : MQTTCommands) : MQTTCommands :=
  mkCommands (mc_commandSecret t) (mc_commandMaxSkew t) (mc_commandStrictReplay t) rw
    (mc_commandCh t) (mc_commandCap t) (mc_commandDeadLetter t) (mc_commandDeadLetterMax t)
    (mc_droppedCommands t).

Definition with_queue (ch : list WriteCommand) (dl : list DeadLetterEntry) (dropped : Z)
    (t : MQTTCommands) : MQTTCommands :=
  mkCommands (mc_commandSecret t) (mc_commandMaxSkew t) (mc_commandStrictReplay t) (mc_replayCache t)
    ch (mc_commandCap t) dl (mc_commandDeadLetterMax t) dropped.

(** [Time.UnixMilli] and [Duration.Milliseconds]. *)
Definition unixMilli (now : Z) : Z := now / millisecond.
Definition milliseconds (d : Z) : Z := Z.quot d millisecond.

(** [isCommandTimestampFresh]. *)
Definition isCommandTimestampFresh (now ts : Z) (t : MQTTCommands) : bool :=
  let skew := milliseconds (mc_commandMaxSkew t) in
  if bool_decide (skew <= 0) then true
  else
    let diff := i64 (unixMilli now - ts) in
    let diff := if bool_decide (diff < 0) then i64 (- diff) else diff in
    bool_decide (diff <= skew).

(** [addCommandDeadLetter]. *)
Definition addCommandDeadLetter (e : DeadLetterEntry) (t : MQTTCommands) : list DeadLetterEntry :=
  let l := mc_commandDeadLetter t ++ [e] in
  if decide (mc_commandDeadLetterMax t < Z.of_nat (length l))
  then drop (Z.to_nat (Z.of_nat (length l) - mc_commandDeadLetterMax t)) l else l.

Section handler.
Context `{GoArch} (iter : gmap string Z -> list (string * Z)).

(** The replay check of a message; none is a rejection. *)
Definition replay_check (now : Z) (payload : string) (t : MQTTCommands) : option MQTTCommands :=
  match mc_replayCache t with
  | None => Some t
  | Some rw =>
      let '(fresh, rw) := checkAndAdd iter now (sha256_hex payload) rw in
      if fresh then Some (with_cache (Some rw) t) else None
  end.

(** The authentication part of [handleCommandMessage]. *)
Definition authenticate (now : Z) (payload : string) (t : MQTTCommands) : option MQTTCommands :=
  if bool_decide (mc_commandSecret t = EmptyString) then Some t
  else
    let provided := extractCommandSignature payload in
    let verified := verifyHMACSignature (mc_commandSecret t) (commandSigningBytes payload) provided in
    match extractCommandTimestamp payload with
    | None =>
        if negb verified then None
        else if mc_commandStrictReplay t then None
        else replay_check now payload t
    | Some ts =>
        if negb verified then None
        else if negb (isCommandTimestampFresh now ts t) then None
        else replay_check now payload t
    end.

(** The rest of it: parsing, and the non-blocking send. *)
Definition enqueue (now : Z) (cmd : WriteCommand) (t : MQTTCommands) : MQTTCommands :=
  if decide (Z.of_nat (length (mc_commandCh t)) < mc_commandCap t) then
    with_queue (mc_commandCh t ++ [cmd]) (mc_commandDeadLetter t) (mc_droppedCommands t) t
  else
    with_queue (mc_commandCh t)
      (addCommandDeadLetter (mkDeadLetterEntry cmd "command channel full at ingress" now 0 "") t)
      (mc_droppedCommands t + 1) t.

Definition handleCommandMessage (now : Z) (payload : string) (t : MQTTCommands)
    : MQTTCommands * option WriteCommand :=
  match authenticate now payload t with
  | None => (t, None)
  | Some t =>
      match unmarshal_cmd payload with
      | None => (t, None)
      | Some cmd => (enqueue now cmd t, Some cmd)
      end
  end.

(** What happens to the transport: a message at a time, a tick of the eviction
    loop, the engine taking a command. *)
Inductive event :=
| Message (now : Z) (payload : string)
| EvictTick (now : Z)
| TakeCommand.

Definition step (e : event) (t : MQTTCommands) : MQTTCommands * option WriteCommand :=
  match e with
  | Message now payload => handleCommandMessage now payload t
  | EvictTick now => (with_cache (evictExpired now <$> mc_replayCache t) t, None)
  | TakeCommand => (with_queue (drop 1 (mc_commandCh t)) (mc_commandDeadLetter t) (mc_droppedCommands t) t, None)
  end.

Fixpoint run (es : list event) (t : MQTTCommands) : MQTTCommands :=
  match es with [] => t | e :: es => run es (step e t).1 end.
End handler.

(** ** Forwarding ([mqtt_io.go]) *)

Section forward.
Context `{JsonEnc}.

(** The payload [ForwardCommand] publishes at a time; none is an error. *)
Definition forward_payload (secret : string) (now : Z) (cmd : WriteCommand) : option string :=
  match marshal_cmd cmd with
  | None => None
  | Some payload =>
      if bool_decide (secret = EmptyString) then Some payload
      else
        match unmarshal_map payload with
        | Some (Some m) =>
            let m := <["timestamp"%string := JNum (itoa (unixMilli now))]> m in
            let signedPayload := marshal_map (Some m) in
            let sig := computeHMACSignature secret (commandSigningBytes signedPayload) in
            match unmarshal_map signedPayload with
            | Some (Some finalM) =>
                Some (marshal_map (Some (<["X-Signature"%string := jstring sig]> finalM)))
            | _ => None
            end
        | _ => None
        end
  end.
End forward.

(** The replay window [Init] creates. *)
Definition initReplayCache (secret : string) (skew : Z) : option replayWindow :=
  if bool_decide (secret <> EmptyString) && bool_decide (0 < skew)
  then Some (newReplayWindow (i64 (2 * skew)) 10000) else None.

(** ** Authentication *)

(** The freshness test as a distance; the one time stamp that overflows the
    subtraction counts as fresh. *)
Lemma fresh_iff now ts t :
  0 <= now <= maxInt64 -> - 2 ^ 63 <= ts < 2 ^ 63 ->
  0 < milliseconds (mc_commandMaxSkew t) -> mc_commandMaxSkew t <= maxInt64 ->
  isCommandTimestampFresh now ts t = true <->
  (Z.abs (unixMilli now - ts) <= milliseconds (mc_commandMaxSkew t) \/ ts = unixMilli now - 2 ^ 63).
Proof.
  intros Hn Hts Hs Hm. unfold isCommandTimestampFresh. rewrite bool_decide_eq_false_2 by lia.
  assert (0 <= unixMilli now <= 2 ^ 44) as Hu by (unfold unixMilli, millisecond, maxInt64 in *; dm_lia).
  assert (milliseconds (mc_commandMaxSkew t) <= 2 ^ 44) as Hk
    by (unfold milliseconds, millisecond, maxInt64 in *; apply Z.quot_le_upper_bound; lia).
  set (n := unixMilli now) in *. set (k := milliseconds (mc_commandMaxSkew t)) in *.
  rewrite bool_decide_eq_true. destruct (decide (n - ts < 2 ^ 63)) as [Hd|Hd].
  - rewrite (wraps_small 64 (n - ts)) by lia. case_bool_decide.
    + rewrite wraps_small by lia. lia.
    + lia.
  - assert (i64 (n - ts) = n - ts - 2 ^ 64) as ->.
    { unfold wraps. replace (n - ts + 2 ^ (64 - 1)) with ((n - ts - 2 ^ 63) + 1 * 2 ^ 64) by lia.
      rewrite Z.mod_add by lia. rewrite Z.mod_small by lia. lia. }
    rewrite bool_decide_eq_true_2 by lia. destruct (decide (n - ts = 2 ^ 63)) as [E|E].
    + rewrite E. change (i64 (- (2 ^ 63 - 2 ^ 64))) with (- 2 ^ 63). lia.
    + rewrite wraps_small by lia. lia.
Qed.

Section theorems.
Context `{GoArch} (iter : gmap string Z -> list (string * Z)).

Abbreviation authenticate := (authenticate iter).
Abbreviation handleCommandMessage := (handleCommandMessage iter).
Abbreviation run := (run iter).
Abbreviation step := (step iter).

(** What an accepted message satisfies. *)
Record authentic (now : Z) (payload : string) (t : MQTTCommands) : Prop := {
  au_signature : extractCommandSignature payload
    = hmac_hex (mc_commandSecret t) (commandSigningBytes payload);
  au_fresh : match extractCommandTimestamp payload with
    | Some ts => isCommandTimestampFresh now ts t = true
    | None => mc_commandStrictReplay t = false
    end;
  au_unseen : forall rw, mc_replayCache t = Some rw -> rw_seen rw !! sha256_hex payload = None;
}.

Lemma replay_check_some now payload t t' :
  replay_check iter now payload t = Some t' ->
  (forall rw, mc_replayCache t = Some rw -> rw_seen rw !! sha256_hex payload = None)
  /\ exists c, t' = with_cache c t /\
     (c = None <-> mc_replayCache t = None) /\
     (forall rw, mc_replayCache t = Some rw -> c = Some (checkAndAdd iter now (sha256_hex payload) rw).2).
Proof.
  unfold replay_check. destruct (mc_replayCache t) as [rw|] eqn:E.
  - destruct (checkAndAdd iter now (sha256_hex payload) rw) as [b rw'] eqn:C. destruct b; [|done].
    intros [= <-]. split.
    + intros rw0 [= <-]. unfold checkAndAdd in C. by destruct (rw_seen rw !! _).
    + exists (Some rw'). split_and!; [done|done|]. by intros ? [= <-]; rewrite C.
  - intros [= <-]. split; [done|]. exists None. split_and!; [|done|done].
    destruct t. simpl in *. by subst.
Qed.

Lemma authenticate_some now payload t t' :
  mc_commandSecret t <> EmptyString -> authenticate now payload t = Some t' ->
  authentic now payload t /\ replay_check iter now payload t = Some t'.
Proof.
  intros Hs Ha. unfold Commands.authenticate in Ha. rewrite bool_decide_eq_false_2 in Ha by done.
  unfold verifyHMACSignature in Ha. rewrite bool_decide_eq_false_2 in Ha by done.
  destruct (extractCommandTimestamp payload) as [ts|] eqn:T; (case_bool_decide as Hv; simpl in Ha; [|done]).
  - destruct (isCommandTimestampFresh now ts t) eqn:F; [|done]. simpl in Ha.
    split; [|done]. split; [done|by rewrite T|]. by apply (replay_check_some now payload t t').
  - destruct (mc_commandStrictReplay t) eqn:F; [done|].
    split; [|done]. split; [done|by rewrite T|]. by apply (replay_check_some now payload t t').
Qed.

(** Authentication changes nothing but the replay window. *)
Lemma authenticate_only now payload t t' :
  mc_commandSecret t <> EmptyString -> authenticate now payload t = Some t' ->
  t' = with_cache (mc_replayCache t') t.
Proof.
  intros Hs Ha. apply authenticate_some in Ha as [_ Hr]; [|done].
  by apply replay_check_some in Hr as (_ & c & -> & _).
Qed.

(** With a command secret configured, a command reaches the
    channel or the dead letters only if the payload carries the HMAC-SHA256
    signature of its canonical bytes under that secret, its time stamp lies
    within the skew (or, without strict replay protection, it has none), and the
    replay window does not hold the payload's hash; the command is then what the
    payload decodes to.  Any other message changes neither. *)
Theorem commands_authenticated now payload t t' r :
  mc_commandSecret t <> EmptyString ->
  handleCommandMessage now payload t = (t', r) ->
  match r with
  | Some cmd => authentic now payload t /\ unmarshal_cmd payload = Some cmd
  | None => mc_commandCh t' = mc_commandCh t /\ mc_commandDeadLetter t' = mc_commandDeadLetter t
            /\ mc_droppedCommands t' = mc_droppedCommands t
  end.
Proof.
  intros Hs Hh. unfold Commands.handleCommandMessage in Hh.
  destruct (authenticate now payload t) as [t1|] eqn:A; [|by simplify_eq].
  pose proof (authenticate_only _ _ _ _ Hs A) as Ht. apply authenticate_some in A as [Ha _]; [|done].
  destruct (unmarshal_cmd payload) as [cmd|] eqn:U; simplify_eq; [done|]. by rewrite Ht.
Qed.

(** ** The replay window *)

(** The window has room at every message of a run. *)
Fixpoint roomy (es : list event) (t : MQTTCommands) : Prop :=
  match es with
  | [] => True
  | e :: es =>
      match e, mc_replayCache t with
      | Message _ _, Some rw => Z.of_nat (size (rw_seen rw)) < rw_maxSize rw
      | _, _ => True
      end /\ roomy es (step e t).1
  end.

(** Some tick of the eviction loop saw the entry of time [since] expired. *)
Definition expired_by (ttl since : Z) (es : list event) : bool :=
  List.existsb (fun e => match e with EvictTick tick => ttl <? time_Sub tick since | _ => false end) es.

Lemma handle_cache now payload t :
  mc_commandSecret t <> EmptyString ->
  mc_commandSecret (handleCommandMessage now payload t).1 = mc_commandSecret t
  /\ (mc_replayCache (handleCommandMessage now payload t).1 = mc_replayCache t
      \/ exists rw, mc_replayCache t = Some rw /\ mc_replayCache (handleCommandMessage now payload t).1
           = Some (checkAndAdd iter now (sha256_hex payload) rw).2).
Proof.
  intros Hs. unfold Commands.handleCommandMessage.
  destruct (authenticate now payload t) as [t1|] eqn:A; [|auto].
  apply authenticate_some in A as [_ Hr]; [|done].
  apply replay_check_some in Hr as (_ & c & -> & Hn & Hc).
  assert (c = mc_replayCache t \/ exists rw, mc_replayCache t = Some rw
    /\ c = Some (checkAndAdd iter now (sha256_hex payload) rw).2) as Hcc.
  { destruct (mc_replayCache t) as [rw|]; [right; eauto|left; by apply Hn]. }
  destruct (unmarshal_cmd payload); simpl; [|done]. unfold enqueue. by case_decide.
Qed.

(** An entry stays until a tick finds it expired, as long as there is room. *)
Lemma seen_stays h since es t rw :
  mc_commandSecret t <> EmptyString ->
  mc_replayCache t = Some rw -> rw_seen rw !! h = Some since -> roomy es t ->
  expired_by (rw_ttl rw) since es = false ->
  exists rw', mc_replayCache (run es t) = Some rw' /\ rw_seen rw' !! h = Some since
    /\ mc_commandSecret (run es t) = mc_commandSecret t.
Proof.
  revert t rw. induction es as [|e es IH]; intros t rw Hs Hc Hl Hr He; [eauto|].
  simpl in Hr. destruct Hr as [Hroom Hr].
  simpl in He. apply orb_false_iff in He as [He He'].
  assert (exists rw1, mc_replayCache (step e t).1 = Some rw1 /\ rw_seen rw1 !! h = Some since
    /\ rw_ttl rw1 = rw_ttl rw /\ mc_commandSecret (step e t).1 = mc_commandSecret t)
    as (rw1 & Hc1 & Hl1 & Ht1 & Hs1).
  { destruct e as [now p|now|]; simpl.
    - destruct (handle_cache now p t Hs) as [-> [->|(rw0 & Hc0 & ->)]]; [by exists rw|].
      rewrite Hc in Hc0. simplify_eq. unfold checkAndAdd.
      destruct (rw_seen rw0 !! sha256_hex p) as [?|] eqn:E; [by exists rw0|].
      rewrite Hc in Hroom. rewrite decide_False by lia. eexists. split_and!; [done| |done|done].
      simpl. rewrite lookup_insert_ne; [done|]. intros <-. congruence.
    - rewrite Hc. simpl. eexists. split_and!; [done| |done|done]. simpl.
      apply map_lookup_filter_Some. split; [done|]. simpl.
      by apply Z.ltb_ge in He.
    - by exists rw. }
  simpl. rewrite <- Hs1 in Hs |- *. rewrite <- Ht1 in He'. by eapply IH.
Qed.

Lemma checkAndAdd_adds now h rw :
  rw_seen (checkAndAdd iter now h rw).2 !! h =
  Some (match rw_seen rw !! h with Some u => u | None => now end).
Proof.
  unfold checkAndAdd. destruct (rw_seen rw !! h) eqn:E; [done|]. simpl. by rewrite lookup_insert_eq.
Qed.

Lemma checkAndAdd_ttl now h rw : rw_ttl (checkAndAdd iter now h rw).2 = rw_ttl rw.
Proof. unfold checkAndAdd. by destruct (rw_seen rw !! h). Qed.

Lemma milli_span now1 now2 ts k :
  Z.abs (unixMilli now1 - ts) <= k -> Z.abs (unixMilli now2 - ts) <= k ->
  now2 - now1 < (2 * k + 1) * millisecond.
Proof. intros H1 H2. unfold unixMilli, millisecond in *. dm_lia. Qed.

(** No event changes the settings. *)
Definition settings (t : MQTTCommands) : string * Z * bool * Z * Z :=
  (mc_commandSecret t, mc_commandMaxSkew t, mc_commandStrictReplay t, mc_commandCap t,
   mc_commandDeadLetterMax t).

Lemma enqueue_settings now cmd t : settings (enqueue now cmd t) = settings t.
Proof. unfold enqueue. by case_decide. Qed.

Lemma authenticate_settings now payload t t' :
  authenticate now payload t = Some t' -> settings t' = settings t.
Proof.
  unfold Commands.authenticate, replay_check. repeat case_match; try done; by intros [= <-].
Qed.

Lemma step_settings e t : settings (step e t).1 = settings t.
Proof.
  destruct e as [now p|now|]; simpl; [|done..]. unfold Commands.handleCommandMessage.
  destruct (authenticate now p t) as [t1|] eqn:A; [|done]. apply authenticate_settings in A.
  destruct (unmarshal_cmd p); simpl; [by rewrite enqueue_settings|done].
Qed.

Lemma run_settings es t : settings (run es t) = settings t.
Proof. revert t. induction es as [|e es IH]; intros t; simpl; [done|]. by rewrite IH, step_settings. Qed.

(** A payload accepted once stays in the window. *)
Lemma accepted_again now1 now2 payload es t t1 t2 rw :
  mc_commandSecret t <> EmptyString -> mc_replayCache t = Some rw ->
  authenticate now1 payload t = Some t1 -> roomy es t1 ->
  authenticate now2 payload (run es t1) = Some t2 ->
  expired_by (rw_ttl rw) now1 es = true.
Proof.
  intros Hs Hc H1 Hr H2. apply not_false_is_true. intros He.
  pose proof (authenticate_only _ _ _ _ Hs H1) as Ht1.
  apply authenticate_some in H1 as [Ha1 Hr1]; [|done].
  apply replay_check_some in Hr1 as (Hn & c & -> & _ & Hcc). specialize (Hcc rw Hc). subst c.
  pose proof (checkAndAdd_adds now1 (sha256_hex payload) rw) as Hadd. rewrite (Hn rw Hc) in Hadd.
  destruct (seen_stays (sha256_hex payload) now1 es (with_cache (Some (checkAndAdd iter now1 (sha256_hex payload) rw).2) t)
    (checkAndAdd iter now1 (sha256_hex payload) rw).2) as (rw' & Hc' & Hl' & Hs'); try done.
  { by rewrite checkAndAdd_ttl. }
  apply authenticate_some in H2 as [Ha2 _]; [|by rewrite Hs'].
  pose proof (au_unseen _ _ _ Ha2 rw' Hc'). congruence.
Qed.

(** C18.  While the window has room, the same payload is accepted a second
    time only after a tick of the eviction loop found its first acceptance older
    than the window's time to live.  When it carries a time stamp (not the one
    in the far past that overflows the comparison), the two acceptances are
    moreover less than twice the skew and a millisecond apart: with the time to
    live [Init] sets, twice the skew, such a command is accepted once, but for
    that last millisecond. *)
Theorem replay_rejected now1 now2 payload es t t1 t2 rw ts :
  mc_commandSecret t <> EmptyString -> mc_replayCache t = Some rw ->
  0 <= now1 <= maxInt64 -> 0 <= now2 <= maxInt64 ->
  0 < milliseconds (mc_commandMaxSkew t) -> mc_commandMaxSkew t <= maxInt64 ->
  extractCommandTimestamp payload = Some ts -> - 2 ^ 62 <= ts < 2 ^ 63 ->
  authenticate now1 payload t = Some t1 -> roomy es t1 ->
  authenticate now2 payload (run es t1) = Some t2 ->
  expired_by (rw_ttl rw) now1 es = true
  /\ now2 - now1 < (2 * milliseconds (mc_commandMaxSkew t) + 1) * millisecond.
Proof.
  intros Hs Hc Hn1 Hn2 Hk Hm Hts Hr1 H1 Hroom H2. split; [by eapply accepted_again|].
  pose proof (authenticate_only _ _ _ _ Hs H1) as Ht1. pose proof (run_settings es t1) as Hset.
  assert (settings t1 = settings t) as Hset1 by (by rewrite Ht1). unfold settings in Hset, Hset1.
  simplify_eq. assert (mc_commandSecret (run es t1) <> EmptyString) as Hs1 by congruence.
  apply authenticate_some in H1 as [Ha1 _]; [|done]. apply authenticate_some in H2 as [Ha2 _]; [|done].
  pose proof (au_fresh _ _ _ Ha1) as F1. pose proof (au_fresh _ _ _ Ha2) as F2. rewrite Hts in F1, F2.
  assert (mc_commandMaxSkew (run es t1) = mc_commandMaxSkew t) as Hsk by congruence.
  apply fresh_iff in F1; [|lia..]. apply fresh_iff in F2; [|rewrite ?Hsk; lia..]. rewrite Hsk in F2.
  assert (forall n, 0 <= n <= maxInt64 -> unixMilli n <= 2 ^ 44) as Hu
    by (unfold unixMilli, millisecond, maxInt64; intros; dm_lia).
  pose proof (Hu now1 Hn1). pose proof (Hu now2 Hn2).
  eapply milli_span with (ts := ts); lia.
Qed.
End theorems.

(** ** Forwarding, then handling *)

(** Members whose keys and literals the encoder leaves as they are. *)
Definition plain (kv : string * json) : Prop :=
  unq kv.1 = kv.1 /\ esc kv.1 = kv.1 /\ utf8 kv.1 /\ hescape kv.2 = kv.2 /\ wf kv.2 /\ nesting kv.2 = 0.

Lemma plain_map_ok (L : list (string * json)) : Forall plain L -> map_ok (list_to_map L).
Proof.
  intros HL k v Hk%elem_of_list_to_map_2. rewrite Forall_forall in HL. destruct (HL _ Hk) as (_ & _ & Hu & _ & Hw & Hn).
  split_and!; [done..|]. simpl in Hn. rewrite Hn. by unfold maxNestingDepth.
Qed.

Lemma plain_hescape (L : list (string * json)) :
  Forall plain L -> hescape <$> list_to_map (M := gmap string json) L = list_to_map L.
Proof.
  intros HL. apply map_eq. intros k. rewrite lookup_fmap.
  destruct (list_to_map L !! k) as [v|] eqn:E; simpl; [|done]. f_equal.
  apply elem_of_list_to_map_2 in E. rewrite Forall_forall in HL. by destruct (HL _ E) as (_ & _ & _ & ? & _).
Qed.

(** A map of plain members, marshalled: the text parses to the members in some
    order, and unmarshals to the map. *)
Lemma plain_text (L : list (string * json)) :
  Forall plain L -> NoDup L.*1 ->
  unmarshal_map (marshal_map (Some (list_to_map L))) = Some (Some (list_to_map L))
  /\ exists l, parse (marshal_map (Some (list_to_map L))) = Some (JObj l) /\ l ≡ₚ L.
Proof.
  intros HL Hd. pose proof (plain_map_ok L HL) as Hok. split.
  - rewrite unmarshal_marshal_map by done. by rewrite plain_hescape.
  - destruct (map_json_wf _ Hok). eexists. split; [by apply parse_print|].
    rewrite sorted_members_perm, map_to_list_to_map by done.
    replace ((fun kv : string * json => (esc kv.1, hescape kv.2)) <$> L) with L; [done|].
    rewrite <- (list_fmap_id L) at 1. apply Forall_fmap_ext_1. eapply Forall_impl; [exact HL|].
    intros [k v] (_ & He & _ & Hh & _). simpl in *. by rewrite He, Hh.
Qed.

(** The text of an object of plain members in this order. *)
Lemma plain_object (L : list (string * json)) :
  Forall plain L -> NoDup L.*1 ->
  hescape (JObj L) = JObj L /\ unmarshal_map (print (JObj L)) = Some (Some (list_to_map L)).
Proof.
  intros HL Hd. split.
  - simpl. f_equal. rewrite <- (list_fmap_id L) at 2. apply Forall_fmap_ext_1.
    eapply Forall_impl; [exact HL|]. intros [k v] (_ & He & _ & Hh & _). simpl in *.
    rewrite Hh. rewrite <- He at 1. by rewrite hesc_esc, He.
  - unfold unmarshal_map. rewrite parse_print.
    + do 2 f_equal. unfold obj_map. replace ((fun kv : string * json => (unq kv.1, kv.2)) <$> L) with L.
      * apply list_to_map_proper; [by rewrite reverse_Permutation|apply reverse_Permutation].
      * rewrite <- (list_fmap_id L) at 1. apply Forall_fmap_ext_1. eapply Forall_impl; [exact HL|].
        intros [k v] (Hu & _). simpl in *. by rewrite Hu.
    + apply wf_obj. eapply Forall_impl; [exact HL|]. intros [k v] (_ & He & _ & _ & Hw & _).
      split; [simpl in *; rewrite <- He; apply body_ok_esc|done].
    + assert (0 + nesting (JObj L) <= maxNestingDepth); [|lia]. apply nesting_obj_bound; [by unfold maxNestingDepth|].
      eapply Forall_impl; [exact HL|]. intros [k v] (_ & _ & _ & _ & _ & Hn). simpl in *. rewrite Hn.
      by unfold maxNestingDepth.
Qed.

Lemma plain_key k v :
  unq k = k -> esc k = k -> utf8 k -> hescape v = v -> wf v -> nesting v = 0 -> plain (k, v).
Proof. intros. by split_and!. Qed.

Lemma plain_jstring k s : unq k = k -> esc k = k -> utf8 k -> plain (k, jstring s).
Proof.
  intros. apply plain_key; try done; simpl; [by rewrite hesc_esc|apply body_ok_esc].
Qed.

(** A closed key is plain ASCII. *)
Ltac plain_ascii := first [reflexivity | by apply utf8_ascii].

Lemma cmd_members_plain c v :
  carries v (cmd_Value c) (cmd_Type c) -> Forall plain (cmd_members c v) /\ NoDup (cmd_members c v).*1.
Proof.
  intros [Hw Hn He _ _]. split.
  - unfold cmd_members, omitempty.
    repeat apply Forall_cons_2; repeat apply Forall_app_2; repeat case_match;
      repeat apply Forall_cons_2; try apply Forall_nil_2;
      first [ apply plain_jstring; plain_ascii | apply plain_key; (plain_ascii || done) ].
  - unfold cmd_members, omitempty. repeat case_match; apply (bool_decide_eq_true_1 (NoDup _)); by vm_compute.
Qed.

Lemma sig_set_comm f g (a b : json) (x : string * string) :
  f ∈ sig_fields -> g ∈ sig_fields -> f <> g ->
  sig_set f a x ≫= sig_set g b = sig_set g b x ≫= sig_set f a.
Proof.
  unfold sig_fields. rewrite !elem_of_cons, !elem_of_nil. destruct x as [x y].
  intros [->|[->|[]]] [->|[->|[]]] Hfg; try done; unfold sig_set; simpl.
  - destruct (set_string a x) eqn:A, (set_string b y) eqn:B; simpl; by rewrite ?A, ?B.
  - destruct (set_string a y) eqn:A, (set_string b x) eqn:B; simpl; by rewrite ?A, ?B.
Qed.

Lemma ts_set_comm f g (a b x : json) :
  f ∈ ["timestamp"%string] -> g ∈ ["timestamp"%string] -> f <> g ->
  ts_set f a x ≫= ts_set g b = ts_set g b x ≫= ts_set f a.
Proof. rewrite !list_elem_of_singleton. congruence. Qed.

(** The signature and the time stamp of an object that has each once. *)
Lemma extract_signature text l sg ex :
  parse text = Some (JObj l) -> l ≡ₚ ("X-Signature"%string, jstring sg) :: ex ->
  Forall (fun kv => field_of sig_fields (unq kv.1) = None) ex -> utf8 sg ->
  extractCommandSignature text = sg.
Proof.
  intros Hl HP Hex Hu. unfold extractCommandSignature, decode_struct. rewrite Hl.
  rewrite <- (decode_members_perm _ _ sig_set_comm (("X-Signature"%string, jstring sg) :: ex) l);
    [|done|].
  2:{ change (NoDup ("X-Signature"%string :: field_keys sig_fields ex)).
      rewrite <- (app_nil_r ex), field_keys_skip by done. apply NoDup_singleton. }
  erewrite decode_members_field; [|reflexivity|].
  2:{ unfold sig_set. rewrite bool_decide_eq_true_2 by done. rewrite set_jstring by done. reflexivity. }
  rewrite <- (app_nil_r ex), decode_members_skip by done. simpl. by case_bool_decide.
Qed.

Lemma extract_timestamp `{GoArch} text l z ex :
  parse text = Some (JObj l) -> l ≡ₚ ("timestamp"%string, JNum (itoa z)) :: ex -> 0 <= z < 2 ^ 53 ->
  Forall (fun kv => field_of ["timestamp"%string] (unq kv.1) = None) ex ->
  extractCommandTimestamp text = Some z.
Proof.
  intros Hl HP Hz Hex. unfold extractCommandTimestamp, decode_struct. rewrite Hl.
  rewrite <- (decode_members_perm _ _ ts_set_comm (("timestamp"%string, JNum (itoa z)) :: ex) l);
    [|done|].
  2:{ change (NoDup ("timestamp"%string :: field_keys ["timestamp"%string] ex)).
      rewrite <- (app_nil_r ex), field_keys_skip by done. apply NoDup_singleton. }
  erewrite decode_members_field; [|reflexivity|].
  2:{ unfold ts_set. rewrite any_ok_itoa by lia. reflexivity. }
  rewrite <- (app_nil_r ex), decode_members_skip by done. cbn [decode_members].
  rewrite parse_number_itoa by lia. simpl. unfold f_to_s. rewrite f_of_Z_trunc by lia.
  by rewrite decide_True by lia.
Qed.

Section forwarded.
Context `{JsonEnc} `{GoArch} (iter : gmap string Z -> list (string * Z)).
Variables (secret : string) (now : Z) (c : WriteCommand) (v : json).
Hypothesis Hsecret : secret <> EmptyString.
Hypothesis Hnow : 0 <= now <= maxInt64.
Hypothesis Hc : cmd_ok c.
Hypothesis Hv : marshal_value (cmd_Value c) = Some v.
Hypothesis Hcar : carries v (cmd_Value c) (cmd_Type c).

(** The members of the forwarded object, before and after signing. *)
Let stamped := ("timestamp"%string, JNum (itoa (unixMilli now))) :: cmd_members c v.
Let sig := computeHMACSignature secret (commandSigningBytes (marshal_map (Some (list_to_map stamped)))).
Let signed := ("X-Signature"%string, jstring sig) :: stamped.
Let p := marshal_map (Some (list_to_map signed)).

Lemma unixMilli_bound : 0 <= unixMilli now < 2 ^ 53.
Proof. unfold unixMilli, millisecond, maxInt64 in *. dm_lia. Qed.

Lemma signed_plain : Forall plain stamped /\ NoDup stamped.*1 /\ Forall plain signed /\ NoDup signed.*1.
Proof.
  destruct (cmd_members_plain c v Hcar) as [Hp Hd]. pose proof unixMilli_bound.
  assert (Forall plain stamped) as Hs.
  { constructor; [|done]. apply plain_key; try plain_ascii. apply num_ok_itoa. lia. }
  assert (NoDup signed.*1) as Hds.
  { unfold signed, stamped. generalize (jstring sig) (JNum (itoa (unixMilli now))). intros sg ts.
    unfold cmd_members, omitempty. repeat case_match; apply (bool_decide_eq_true_1 (NoDup _)); by vm_compute. }
  split_and!; [done| | |done].
  - unfold signed in Hds. simpl in Hds. by apply NoDup_cons in Hds as [_ ?].
  - constructor; [|done]. apply plain_jstring; plain_ascii.
Qed.

Lemma forward_payload_text : forward_payload secret now c = Some p.
Proof.
  destruct signed_plain as (Hp & Hd & _). destruct (cmd_members_plain c v Hcar) as [Hpm Hdm].
  destruct (plain_object _ Hpm Hdm) as [He Hu]. unfold forward_payload, marshal_cmd. rewrite Hv, He.
  rewrite bool_decide_eq_false_2, Hu by done. change (<["timestamp"%string := _]> (list_to_map (cmd_members c v)))
    with (list_to_map (M := gmap string json) stamped).
  destruct (plain_text _ Hp Hd) as [Hut _]. rewrite Hut. done.
Qed.

(** The signature does not cover itself. *)
Lemma forward_signing_bytes : sig = computeHMACSignature secret (commandSigningBytes p).
Proof.
  destruct signed_plain as (Hp & Hd & Hps & Hds). unfold sig at 1. f_equal. unfold commandSigningBytes.
  rewrite (proj1 (plain_text _ Hp Hd)). unfold p. rewrite (proj1 (plain_text _ Hps Hds)).
  change (list_to_map (M := gmap string json) signed) with
    (<["X-Signature"%string := jstring sig]> (list_to_map (M := gmap string json) stamped)).
  by rewrite delete_insert_eq.
Qed.

(** No member of a command is taken for another field. *)
Lemma stamped_names :
  Forall (fun kv => field_of sig_fields (unq kv.1) = None) stamped
  /\ Forall (fun kv => field_of ["timestamp"%string] (unq kv.1) = None) (cmd_members c v).
Proof.
  unfold stamped. generalize (JNum (itoa (unixMilli now))). intros ts.
  unfold cmd_members, omitempty. repeat case_match; split;
    repeat (apply Forall_cons_2; [reflexivity|]); apply Forall_nil_2.
Qed.

Lemma forward_signature : extractCommandSignature p = sig.
Proof.
  destruct signed_plain as (_ & _ & Hps & Hds). destruct stamped_names as (Hn & _).
  destruct (plain_text _ Hps Hds) as (_ & l & Hl & HP).
  apply (extract_signature p l sig stamped Hl HP Hn). apply hmac_hex_utf8.
Qed.

Lemma forward_timestamp : extractCommandTimestamp p = Some (unixMilli now).
Proof.
  destruct signed_plain as (_ & _ & Hps & Hds). destruct stamped_names as (_ & Hn).
  destruct (plain_text _ Hps Hds) as (_ & l & Hl & HP). pose proof unixMilli_bound as Hb.
  apply (extract_timestamp p l _ (("X-Signature"%string, jstring sig) :: cmd_members c v) Hl); [|lia|].
  - rewrite HP. apply perm_swap.
  - constructor; [reflexivity|done].
Qed.

Lemma forward_command : unmarshal_cmd p = Some c.
Proof.
  destruct signed_plain as (_ & _ & Hps & Hds).
  destruct (plain_text _ Hps Hds) as (_ & l & Hl & HP). unfold unmarshal_cmd, p. rewrite Hl.
  apply (cmd_decode c v [("X-Signature"%string, jstring sig);
    ("timestamp"%string, JNum (itoa (unixMilli now)))]); try done.
  repeat (apply Forall_cons_2; [by split; vm_compute|]). apply Forall_nil_2.
Qed.

(** The next node accepts it. *)
Lemma forward_handled now' t :
  mc_commandSecret t = secret -> 0 <= now' <= maxInt64 -> mc_commandMaxSkew t <= maxInt64 ->
  Z.abs (unixMilli now' - unixMilli now) <= milliseconds (mc_commandMaxSkew t) ->
  (forall rw, mc_replayCache t = Some rw -> rw_seen rw !! sha256_hex p = None) ->
  Z.of_nat (length (mc_commandCh t)) < mc_commandCap t ->
  exists t', handleCommandMessage iter now' p t = (t', Some c) /\ mc_commandCh t' = mc_commandCh t ++ [c].
Proof.
  intros Hs Hn' Hm Hf Hr Hroom. assert (exists rw, authenticate iter now' p t = Some (with_cache rw t)) as [rw Ha].
  { unfold authenticate. rewrite Hs, bool_decide_eq_false_2 by done. rewrite forward_timestamp.
    unfold verifyHMACSignature. rewrite bool_decide_eq_false_2 by done.
    rewrite (bool_decide_eq_true_2 (extractCommandSignature p = _))
      by (rewrite forward_signature; apply forward_signing_bytes). simpl.
    assert (isCommandTimestampFresh now' (unixMilli now) t = true) as ->.
    { destruct (decide (milliseconds (mc_commandMaxSkew t) <= 0)).
      - unfold isCommandTimestampFresh. by rewrite bool_decide_eq_true_2.
      - apply fresh_iff; [done|pose proof unixMilli_bound; lia|lia|done|by left]. }
    simpl. unfold replay_check. destruct (mc_replayCache t) as [rw|] eqn:E.
    - unfold checkAndAdd. rewrite (Hr rw) by done. by eexists.
    - exists None. f_equal. destruct t; simpl in *; by subst. }
  unfold handleCommandMessage. rewrite Ha, forward_command. eexists. split; [done|].
  unfold enqueue. simpl. by rewrite decide_True.
Qed.
End forwarded.


(** ** Bounds *)

Section bounds.
Context `{GoArch} (iter : gmap string Z -> list (string * Z)).
Hypothesis iter_perm : forall m, iter m ≡ₚ map_to_list m.

Lemma oldest_in l best : oldest l best ∈ best :: l.
Proof.
  revert best. induction l as [|[k u] l IH]; intros best; simpl; [apply list_elem_of_here|].
  case_match; [|specialize (IH best)]; [specialize (IH (k, u))|]; set_solver.
Qed.

Lemma oldest_member l k u : l <> [] -> oldest l (EmptyString, 0) = (k, u) -> (k, u) ∈ l.
Proof.
  destruct l as [|[k0 u0] l]; [done|]. intros _ E. simpl in E.
  pose proof (oldest_in l (k0, u0)) as Hin. by rewrite E in Hin.
Qed.

Lemma checkAndAdd_size now h rw :
  0 < rw_maxSize rw -> Z.of_nat (size (rw_seen rw)) <= rw_maxSize rw ->
  Z.of_nat (size (rw_seen (checkAndAdd iter now h rw).2)) <= rw_maxSize rw
  /\ rw_maxSize (checkAndAdd iter now h rw).2 = rw_maxSize rw.
Proof.
  intros Hm Hs. unfold checkAndAdd. destruct (rw_seen rw !! h) eqn:E; [done|]. simpl. split; [|done].
  case_decide as Hd.
  - destruct (oldest (iter (rw_seen rw)) (EmptyString, 0)) as [k u] eqn:O. simpl.
    assert ((k, u) ∈ map_to_list (rw_seen rw)) as Hk.
    { rewrite <- iter_perm. apply oldest_member; [|done]. intros Hn.
      pose proof (iter_perm (rw_seen rw)) as HP. rewrite Hn in HP.
      apply Permutation_nil_l in HP. apply (f_equal length) in HP.
      rewrite length_map_to_list in HP. simpl in HP. lia. }
    apply elem_of_map_to_list in Hk.
    rewrite map_size_insert_None by (rewrite lookup_delete_ne by congruence; done).
    rewrite map_size_delete_Some by eauto. lia.
  - rewrite map_size_insert_None by done. lia.
Qed.

Record bounded (t : MQTTCommands) : Prop := {
  bd_window : forall rw, mc_replayCache t = Some rw ->
    0 < rw_maxSize rw /\ Z.of_nat (size (rw_seen rw)) <= rw_maxSize rw;
  bd_channel : Z.of_nat (length (mc_commandCh t)) <= mc_commandCap t;
  bd_dead : 0 <= mc_commandDeadLetterMax t /\
    Z.of_nat (length (mc_commandDeadLetter t)) <= mc_commandDeadLetterMax t;
}.

Lemma enqueue_bounded now cmd t : bounded t -> bounded (enqueue now cmd t).
Proof.
  intros [Hw Hc [Hm Hd]]. unfold enqueue. case_decide; split; simpl; try done.
  - rewrite length_app. simpl. lia.
  - split; [done|]. unfold addCommandDeadLetter. case_decide; [rewrite length_drop; lia|lia].
Qed.

Lemma authenticate_bounded now payload t t' :
  bounded t -> authenticate iter now payload t = Some t' -> bounded t'.
Proof.
  intros Hb. assert (forall t', replay_check iter now payload t = Some t' -> bounded t') as Hr.
  { intros t1. destruct Hb as [Hw Hc Hd]. unfold replay_check.
    destruct (mc_replayCache t) as [rw|] eqn:E; [|intros [= <-]; split; [by rewrite E|done..]].
    destruct (Hw rw eq_refl) as [Hm Hs]. destruct (checkAndAdd_size now (sha256_hex payload) rw Hm Hs).
    destruct (checkAndAdd iter now _ rw) as [b rw'] eqn:C. simpl in *. destruct b; [|done].
    intros [= <-]. split; [|done..]. intros ? [= <-]. split; lia. }
  unfold authenticate. repeat case_match; try done; try (by intros [= <-]); auto.
Qed.

Lemma step_bounded e t : bounded t -> bounded (step iter e t).1.
Proof.
  intros Hb. destruct e as [now p|now|]; simpl.
  - unfold handleCommandMessage. destruct (authenticate iter now p t) as [t1|] eqn:A; [|done].
    apply authenticate_bounded in A; [|done]. destruct (unmarshal_cmd p); simpl; [|done].
    by apply enqueue_bounded.
  - destruct Hb as [Hw Hc Hd]. split; [|done..]. simpl. intros rw'.
    destruct (mc_replayCache t) as [rw|]; [|done]. intros [= <-]. destruct (Hw rw eq_refl). simpl.
    split; [done|]. etransitivity; [|done]. apply inj_le, map_size_filter.
  - destruct Hb as [Hw Hc Hd]. split; [done| |done]. simpl. rewrite length_drop. lia.
Qed.

(** Whatever messages, eviction ticks and reads a transport goes
    through, in whatever order its maps are iterated, the replay window never
    holds more than its capacity, the command channel more than its buffer, nor
    the dead-letter store more than its limit. *)
Theorem commands_bounded es t : bounded t -> bounded (run iter es t).
Proof. revert t. induction es as [|e es IH]; intros t Hb; simpl; [done|]. by apply IH, step_bounded. Qed.
End bounds.

(** ** What the window does not prevent *)

(** A second text of the same document. *)
Lemma same_document `{GoArch} p q l :
  parse p = Some (JObj l) -> parse q = Some (JObj l) ->
  extractCommandSignature q = extractCommandSignature p /\ commandSigningBytes q = commandSigningBytes p
  /\ extractCommandTimestamp q = extractCommandTimestamp p /\ unmarshal_cmd q = unmarshal_cmd p.
Proof.
  intros Hp Hq. unfold extractCommandSignature, commandSigningBytes, extractCommandTimestamp, unmarshal_cmd,
    unmarshal_map. by rewrite Hp, Hq.
Qed.

Lemma checkAndAdd_keeps iter now h h' rw :
  rw_seen rw !! h' = None -> h <> h' -> rw_seen (checkAndAdd iter now h rw).2 !! h' = None.
Proof.
  intros Hn Hne. unfold checkAndAdd. destruct (rw_seen rw !! h); [done|]. simpl.
  rewrite lookup_insert_ne by done. case_decide; [|done]. by apply lookup_delete_None; right.
Qed.

(** The signature covers the canonical bytes of a command while
    the replay window remembers the hash of its raw text: a copy of an accepted
    command that differs only in its layout (white space, the order of keys) is
    accepted again at once, as the same command. *)
Theorem reformatted_copy_accepted `{GoArch} iter now p q l t t1 cmd :
  mc_commandSecret t <> EmptyString ->
  parse p = Some (JObj l) -> parse q = Some (JObj l) -> sha256_hex p <> sha256_hex q ->
  (forall rw, mc_replayCache t = Some rw -> rw_seen rw !! sha256_hex q = None) ->
  handleCommandMessage iter now p t = (t1, Some cmd) ->
  exists t2, handleCommandMessage iter now q t1 = (t2, Some cmd).
Proof.
  intros Hs Hp Hq Hne Hn Hh. destruct (same_document p q l Hp Hq) as (E1 & E2 & E3 & E4).
  unfold handleCommandMessage in *. destruct (authenticate iter now p t) as [t0|] eqn:A; [|done].
  destruct (unmarshal_cmd p) as [c0|] eqn:U; [|done]. simplify_eq. rewrite E4.
  assert (exists t2, authenticate iter now q (enqueue now cmd t0) = Some t2) as [t2 ->]; [|by eexists].
  pose proof (authenticate_settings _ _ _ _ _ A) as Hset. apply authenticate_some in A as [[Ha1 Ha2 _] Hr]; [|done].
  apply replay_check_some in Hr as (_ & c & -> & Hcn & Hc).
  set (t3 := enqueue now cmd (with_cache c t)).
  assert (settings t3 = settings t) as Hset3 by (unfold t3; by rewrite enqueue_settings).
  assert (mc_replayCache t3 = c) as Hc3 by (unfold t3, enqueue; by case_decide).
  unfold settings in Hset3.
  assert (mc_commandSecret t3 = mc_commandSecret t) as S1 by congruence.
  assert (mc_commandMaxSkew t3 = mc_commandMaxSkew t) as S2 by congruence.
  assert (mc_commandStrictReplay t3 = mc_commandStrictReplay t) as S3 by congruence.
  assert (exists t2, replay_check iter now q t3 = Some t2) as [t2 Hr2].
  { unfold replay_check. rewrite Hc3. destruct (mc_replayCache t) as [rw|] eqn:E.
    - rewrite (Hc rw eq_refl). unfold checkAndAdd at 1. rewrite checkAndAdd_keeps by auto. by eexists.
    - rewrite (proj2 Hcn eq_refl). by eexists. }
  exists t2. unfold authenticate. rewrite S1, bool_decide_eq_false_2 by done. rewrite E1, E2, E3.
  unfold verifyHMACSignature. rewrite bool_decide_eq_false_2, bool_decide_eq_true_2 by done. simpl.
  destruct (extractCommandTimestamp p) as [ts|].
  - assert (isCommandTimestampFresh now ts t3 = isCommandTimestampFresh now ts t) as ->
      by (unfold isCommandTimestampFresh; by rewrite S2). by rewrite Ha2.
  - by rewrite S3, Ha2.
Qed.

(** ** Demonstration *)

Module Demo.

(** An encoder for the witnesses, which use no floats. *)
#[global] Program Instance no_floats : JsonEnc :=
  {| enc_float _ _ := None; enc_other _ := None |}.
Next Obligation. done. Qed.
Next Obligation. done. Qed.

Definition secret : string := "s3cret".
Definition now : Z := 1700000000 * second.
Definition cmd : WriteCommand := mkWriteCommand "plc1" "" "setpoint" (VInt64 9007199254740993) TypeInt64 "" "" false.

(** A node with the default settings. *)
Definition node : MQTTCommands :=
  mkCommands secret (5 * minute) false (initReplayCache secret (5 * minute)) [] 100 [] 1000 0.

Definition payload : string := default EmptyString (forward_payload secret now cmd).
Definition obj_members (v : option json) : list (string * json) :=
  match v with Some (JObj l) => l | _ => [] end.
Definition members : list (string * json) := obj_members (parse payload).

(** The same document with a trailing blank. *)
Definition copy : string := payload +:+ " ".

Abbreviation iter := (map_to_list (K := string) (A := Z) (M := gmap string Z)).
Abbreviation handle := (handleCommandMessage (H := amd64_f2i) iter).

Lemma cmd_is_ok : cmd_ok cmd.
Proof. split; simpl; try (by apply utf8_ascii). lia. Qed.
End Demo.

Lemma commands_authenticated_witness :
  (Demo.handle Demo.now Demo.payload Demo.node).2 = Some Demo.cmd
  /\ authentic (H := amd64_f2i) Demo.now Demo.payload Demo.node.
Proof.
  assert ((Demo.handle Demo.now Demo.payload Demo.node).2 = Some Demo.cmd) as E by (vm_compute; reflexivity).
  split; [exact E|].
  pose proof (commands_authenticated (H := amd64_f2i) Demo.iter Demo.now Demo.payload Demo.node
    _ _ ltac:(discriminate) (surjective_pairing _)) as W.
  rewrite E in W. exact (proj1 W).
Defined.


(** The node reads the copy as soon as it has read the original. *)
Lemma reformatted_copy_accepted_witness :
  exists t2, Demo.handle Demo.now Demo.copy (Demo.handle Demo.now Demo.payload Demo.node).1 = (t2, Some Demo.cmd).
Proof.
  apply (reformatted_copy_accepted (H := amd64_f2i) Demo.iter Demo.now Demo.payload Demo.copy Demo.members Demo.node).
  - discriminate.
  - vm_compute. reflexivity.
  - vm_compute. reflexivity.
  - vm_compute. discriminate.
  - intros rw Hrw. vm_compute in Hrw. injection Hrw as <-. reflexivity.
  - etransitivity; [apply surjective_pairing|]. apply (f_equal2 pair eq_refl). vm_compute. reflexivity.
Defined.

Lemma commands_bounded_witness :
  bounded (run (H := amd64_f2i) Demo.iter [Message Demo.now Demo.payload; TakeCommand] Demo.node).
Proof.
  apply (commands_bounded (H := amd64_f2i) Demo.iter); [done|]. split.
  - intros rw Hrw. vm_compute in Hrw. injection Hrw as <-. done.
  - done.
  - done.
Defined.

(** The last millisecond: accepted at the first instant its time stamp is fresh,
    and again at the last one, right after the entry expired. *)
Module Edge.
Definition now1 : Z := Demo.now - 5 * minute.
Definition now2 : Z := now1 + 10 * minute + 1.
Definition gap : list event := [EvictTick now2].
Definition window : replayWindow := newReplayWindow (10 * minute) 10000.
Abbreviation auth := (authenticate (H := amd64_f2i) Demo.iter).
Definition first : MQTTCommands := default Demo.node (auth now1 Demo.payload Demo.node).
Definition second_ : MQTTCommands :=
  default Demo.node (auth now2 Demo.payload (run (H := amd64_f2i) Demo.iter gap first)).
End Edge.

Lemma replay_rejected_witness :
  expired_by (10 * minute) Edge.now1 Edge.gap = true
  /\ Edge.now2 - Edge.now1 < (2 * milliseconds (5 * minute) + 1) * millisecond.
Proof.
  apply (replay_rejected (H := amd64_f2i) Demo.iter Edge.now1 Edge.now2 Demo.payload Edge.gap Demo.node
    Edge.first Edge.second_ Edge.window 1700000000000).
  - discriminate.
  - vm_compute. reflexivity.
  - split; vm_compute; discriminate.
  - split; vm_compute; discriminate.
  - vm_compute. reflexivity.
  - vm_compute. discriminate.
  - vm_compute. reflexivity.
  - split; vm_compute; [discriminate|reflexivity].
  - vm_compute. reflexivity.
  - vm_compute. split; [discriminate || reflexivity|exact I].
  - vm_compute. reflexivity.
Defined.
