(* ===== verification/Parser.v ===== *)
(** * Parsing of incoming payloads ([transport/parser])

    The three parsers of the inbound data paths: [default] decodes a data point,
    [jsonpath] maps fields of any JSON document, [raw] takes the payload as a
    scalar.  The path query library, [strconv.ParseFloat] on arbitrary text and
    [time.Parse] are parameters ([Gjson], [Texts]).

    The theorems show that a published point is parsed as it was, that integer
    payloads are parsed exactly over the whole range of their type, and what
    becomes of payloads that do not parse. *)

From Stdlib Require Import ZArith Lia String Ascii.
From stdpp Require Import base list gmap strings.
From S2P Require Import Prelude GoFloat GoTime Types Util JsonDecode JsonText Json JsonValue CommandJson PointJson.

Open Scope Z_scope.

(** ** What the parsers call *)

Inductive gtype := GNull | GFalse | GNumber | GString | GTrue | GJSON.

#[export] Instance gtype_eq_dec : EqDecision gtype.
Proof. solve_decision. Defined.

(** A query result: its kind, its raw text, its string form and its number. *)
Record gresult := mkGresult {
  g_Type : gtype;
  g_Raw : string;
  g_String : string;
  g_Num : float;
}.

Class Gjson := {
  gjson_valid : string -> bool;
  gjson_get : string -> string -> gresult;
}.

Class Texts := {
  ParseFloat : fmt -> string -> option float;
  ParseRFC3339 : string -> option Z;
  ParseRFC3339Nano : string -> option Z;
}.

(** [Result.Value]. *)
Definition g_Value (r : gresult) : Value :=
  match g_Type r with
  | GNull => VNil
  | GFalse => VBool false
  | GTrue => VBool true
  | GNumber => VFloat64 (g_Num r)
  | GString => VString (g_String r)
  | GJSON => VOther "interface {}"
  end.

(** Transport settings: the scalar ones and the nested maps. *)
Record Settings := mkSettings {
  st_values : gmap string Value;
  st_maps : gmap string (gmap string Value);
}.

(** ** Fields *)

Record jsonPathField := mkField {
  jf_static : string;
  jf_gjsonPath : string;
  jf_isTopic : bool;
  jf_isStatic : bool;
}.

Definition str_drop (n : nat) (s : string) : string := String.substring n (String.length s - n) s.
Definition str_take (n : nat) (s : string) : string := String.substring 0 n s.
Definition str_has_suffix (s p : string) : bool :=
  (String.length p <=? String.length s)%nat
  && bool_decide (str_drop (String.length s - String.length p) s = p).

(** [parseField]. *)
Definition parseField (s : string) : jsonPathField :=
  let s := TrimSpace s in
  if has_prefix s "{{" && str_has_suffix s "}}" then
    let inner := TrimSpace (str_take (String.length s - 4) (str_drop 2 s)) in
    if bool_decide (inner = ".topic"%string) then mkField "" "" true false
    else if has_prefix inner ".payload." then mkField "" (str_drop 9 inner) false false
    else mkField s "" false true
  else mkField s "" false true.

Section parsers.
Context `{GoArch} `{Gjson} `{Texts} `{TimeCodec}.

Definition resolve (f : jsonPathField) (payload topic : string) : string :=
  if jf_isStatic f then jf_static f
  else if jf_isTopic f then topic
  else if bool_decide (jf_gjsonPath f <> EmptyString) then g_String (gjson_get payload (jf_gjsonPath f))
  else EmptyString.

(** ** Scalars *)

(** [narrowSigned] and [narrowUnsigned]. *)
Definition narrowSigned (v : Z) (dt : DataType) : Value :=
  match dt with
  | TypeInt8 => VInt8 (i8 v) | TypeInt16 => VInt16 (i16 v) | TypeInt32 => VInt32 (i32 v)
  | _ => VInt64 v
  end.

Definition narrowUnsigned (v : Z) (dt : DataType) : Value :=
  match dt with
  | TypeUint8 => VUint8 (u8 v) | TypeUint16 => VUint16 (u16 v) | TypeUint32 => VUint32 (u32 v)
  | _ => VUint64 v
  end.

(** [intSpecs]. *)
Definition intSpecs (dt : DataType) : option (Z * bool) :=
  match dt with
  | TypeInt8 => Some (8, true) | TypeInt16 => Some (16, true)
  | TypeInt32 => Some (32, true) | TypeInt64 => Some (64, true)
  | TypeUint8 => Some (8, false) | TypeUint16 => Some (16, false)
  | TypeUint32 => Some (32, false) | TypeUint64 => Some (64, false)
  | _ => None
  end.

Definition parseIntScalar (s : string) (dt : DataType) : option Value :=
  match intSpecs dt with
  | None => None
  | Some (bits, signed) =>
      if signed then Some (narrowSigned (default 0 (ParseInt s bits)) dt)
      else Some (narrowUnsigned (default 0 (ParseUint s bits)) dt)
  end.

Definition parseScalar (s : string) (dt : DataType) : Value :=
  match dt with
  | TypeBool => VBool (bool_decide (s = "true"%string) || bool_decide (s = "1"%string))
  | TypeFloat32 => match ParseFloat F32 s with Some v => VFloat32 v | None => VFloat32 f_zero end
  | TypeFloat64 => match ParseFloat F64 s with Some v => VFloat64 v | None => VFloat64 f_zero end
  | _ => match parseIntScalar s dt with Some v => v | None => VString s end
  end.

Definition parseTplValueString (s : string) : Value :=
  let s := TrimSpace s in
  if bool_decide (s = "true"%string) then VBool true
  else if bool_decide (s = "false"%string) then VBool false
  else match ParseFloat F64 s with Some f => VFloat64 f | None => VString s end.

(** [parseTimestamp]; the zero time when nothing parses. *)
Definition parseTimestamp (s format : string) : Z :=
  if bool_decide (s = EmptyString) then zero_time
  else
    let f := to_lower format in
    if bool_decide (f = "unix"%string) then
      match ParseFloat F64 s with Some x => f_to_s 64 x * second | None => zero_time end
    else if bool_decide (f = "unixmilli"%string) then
      match ParseFloat F64 s with Some x => f_to_s 64 x * millisecond | None => zero_time end
    else
      match ParseRFC3339 s with
      | Some t => t
      | None => match ParseRFC3339Nano s with Some t => t | None => zero_time end
      end.

Definition is_int_type (dt : DataType) : bool :=
  match intSpecs dt with Some _ => true | None => false end.

Definition resolveValue (f : jsonPathField) (payload topic : string) (dt : DataType) (typed : bool)
    : Value :=
  if jf_isStatic f then parseTplValueString (jf_static f)
  else if jf_isTopic f then VString topic
  else if bool_decide (jf_gjsonPath f <> EmptyString) then
    let r := gjson_get payload (jf_gjsonPath f) in
    if bool_decide (g_Type r = GJSON) then VString (g_String r)
    else if bool_decide (g_Type r = GTrue) || bool_decide (g_Type r = GFalse)
    then VBool (bool_decide (g_Type r = GTrue))
    else if typed && bool_decide (g_Type r = GNumber) && is_int_type dt then parseScalar (g_Raw r) dt
    else g_Value r
  else VString EmptyString.

(** ** The parsers *)

Inductive Parser :=
| defaultParser
| jsonPathParser (driver : string) (tagField valueField : jsonPathField) (typeStr group device : string)
    (timestampField : jsonPathField) (timestampFmt : string)
| rawParser (driver group device typeStr : string) (tagFromTopic : Z) (tag timestampFmt : string).

(** [getMapSetting]; a missing map reads as empty. *)
Definition getMapSetting (s : Settings) (key : string) : gmap string Value := default ∅ (st_maps s !! key).

Definition newJSONPathParser (s : gmap string Value) : Parser :=
  jsonPathParser (GetStringSetting s "driver" "") (parseField (GetStringSetting s "tag" ""))
    (parseField (GetStringSetting s "value" "")) (GetStringSetting s "data-type" "")
    (GetStringSetting s "group" "") (GetStringSetting s "device" "")
    (parseField (GetStringSetting s "timestamp" "")) (GetStringSetting s "timestamp-format" "rfc3339").

Definition newRawParser (s : gmap string Value) : Parser :=
  rawParser (GetStringSetting s "driver" "") (GetStringSetting s "group" "")
    (GetStringSetting s "device" "") (GetStringSetting s "data-type" "float64")
    (GetIntSetting s "tag-from-topic" 0) (GetStringSetting s "tag" "")
    (GetStringSetting s "timestamp-format" "rfc3339").

(** [New]. *)
Definition New (settings : Settings) : res Parser :=
  let ps := getMapSetting settings "parser" in
  let ptype := GetStringSetting ps "type" "default" in
  let t := to_lower ptype in
  if bool_decide (t = "default"%string) || bool_decide (t = EmptyString) then Ok defaultParser
  else if bool_decide (t = "jsonpath"%string) then Ok (newJSONPathParser ps)
  else if bool_decide (t = "raw"%string) then Ok (newRawParser ps)
  else Err (ErrFmt ("parser: unknown type " +:+ quote ptype)).

(** [strings.Split(s, "/")]. *)
Fixpoint split_slash (s : string) : list string :=
  match s with
  | EmptyString => [EmptyString]
  | String c t =>
      if bool_decide (c = "/"%char) then EmptyString :: split_slash t
      else match split_slash t with h :: l => String c h :: l | [] => [String c EmptyString] end
  end.

Definition pt_with_time (p : DataPoint) (t : Z) : DataPoint :=
  mkDataPoint (dp_Driver p) (dp_Device p) (dp_Group p) (dp_Tag p) (dp_Value p) (dp_Type p)
    (dp_Quality p) t (dp_Metadata p) (dp_IsStale p).

(** [defaultParser.Parse]. *)
Definition default_Parse (now : Z) (payload : string) : res DataPoint :=
  match parse payload with
  | Some v =>
      match DataPoint_UnmarshalJSON v with
      | Some dp => Ok (if bool_decide (dp_Timestamp dp = zero_time) then pt_with_time dp now else dp)
      | None => Err (ErrFmt "default parser")
      end
  | None => Err (ErrFmt "default parser")
  end.

(** [jsonPathParser.Parse]. *)
Definition jsonpath_Parse (driver : string) (tagField valueField : jsonPathField)
    (typeStr group device : string) (timestampField : jsonPathField) (timestampFmt : string)
    (now : Z) (payload topic : string) : res DataPoint :=
  if negb (gjson_valid payload) then Err (ErrFmt "jsonpath parser: invalid JSON")
  else
    let tag := resolve tagField payload topic in
    let typed := bool_decide (typeStr <> EmptyString) in
    let dt := if typed then (ParseDataType typeStr).1 else TypeBool in
    let value := resolveValue valueField payload topic dt typed in
    let tsStr := resolve timestampField payload topic in
    let ts := if bool_decide (tsStr <> EmptyString) then parseTimestamp tsStr timestampFmt else zero_time in
    let ts := if bool_decide (ts = zero_time) then now else ts in
    Ok (mkDataPoint driver device group tag value dt QualityGood ts ∅ false).

(** [rawParser.Parse]. *)
Definition raw_Parse (driver group device typeStr : string) (tagFromTopic : Z) (tag : string)
    (now : Z) (payload topic : string) : res DataPoint :=
  let tag :=
    if bool_decide (0 < tagFromTopic) then
      let segs := split_slash topic in
      if bool_decide (tagFromTopic <= Z.of_nat (length segs))
      then default EmptyString (segs !! Z.to_nat (tagFromTopic - 1)) else EmptyString
    else tag in
  let valStr := TrimSpace payload in
  let dt := (ParseDataType typeStr).1 in
  Ok (mkDataPoint driver device group tag (parseScalar valStr dt) dt QualityGood now ∅ false).

Definition Parse (p : Parser) (now : Z) (payload topic : string) : res DataPoint :=
  match p with
  | defaultParser => default_Parse now payload
  | jsonPathParser driver tagField valueField typeStr group device timestampField timestampFmt =>
      jsonpath_Parse driver tagField valueField typeStr group device timestampField timestampFmt
        now payload topic
  | rawParser driver group device typeStr tagFromTopic tag _ =>
      raw_Parse driver group device typeStr tagFromTopic tag now payload topic
  end.
End parsers.

(** ** What parsing gives *)

Section theorems.
Context `{GoArch} `{Gjson} `{Texts} `{TimeCodec} `{JsonEnc}.

Lemma default_parse_point p now topic d :
  DataPoint_UnmarshalJSON d = Some p -> wf d -> nesting d <= maxNestingDepth -> dp_Timestamp p <> zero_time ->
  Parse defaultParser now (print d) topic = Ok p.
Proof.
  intros Hd Hw Hn Ht. unfold Parse, default_Parse. rewrite parse_print by done. by rewrite Hd, bool_decide_eq_false_2.
Qed.

(** A data point marshalled by one node and parsed by the default
    parser of another is the same point: driver, device, group, tag, value with
    its exact type, quality, time stamp, metadata and staleness.  The value is an
    integer of any width, a boolean, a string or bytes of its declared type, the
    strings are valid UTF-8 and the time stamp is not the zero time. *)
Theorem published_point_parsed p now topic :
  pt_ok p -> dp_Timestamp p <> zero_time ->
  exists text, marshal_point p = Some text /\ Parse defaultParser now text topic = Ok p.
Proof.
  intros Hp Ht. destruct (point_json_ok p Hp) as (d & Hd & Hw & Hn & Hu). exists (print d).
  unfold marshal_point. rewrite Hd. split; [done|]. apply default_parse_point; try done.
  unfold maxNestingDepth. lia.
Qed.

(** The integer at a type's width, when it fits. *)
Definition in_range (dt : DataType) (z : Z) : Prop :=
  match intSpecs dt with
  | Some (w, true) => - 2 ^ (w - 1) <= z < 2 ^ (w - 1)
  | Some (w, false) => 0 <= z < 2 ^ w
  | None => False
  end.

Lemma ParseInt_width z w : 0 < w <= 64 -> - 2 ^ 63 <= z < 2 ^ 63 ->
  ParseInt (itoa z) w = if decide (- 2 ^ (w - 1) <= z < 2 ^ (w - 1)) then Some z else None.
Proof.
  intros Hw Hz. unfold itoa. case_decide as Hn.
  - destruct (decimal_head (- z)) as (c & s & -> & Hc & Hp); [lia|]. unfold ParseInt. rewrite Hp.
    repeat case_decide; try lia; try done; f_equal; lia.
  - destruct (decimal_head z) as (c & s & -> & Hc & Hp); [lia|]. unfold ParseInt.
    assert (forall (A : Type) (x y k : A), (match c with "-"%char => x | "+"%char => y | _ => k end) = k) as Hm.
    { pose proof (digit_not c "-" Hc eq_refl). pose proof (digit_not c "+" Hc eq_refl).
      intros. destruct c as [[] [] [] [] [] [] [] []]; done. }
    rewrite Hm, Hp. assert (0 < 2 ^ (w - 1)) by lia. repeat case_decide; try lia; done.
Qed.

(** A scalar payload of an integer type: a decimal number in the
    range of the type is parsed exactly, over the whole 64-bit range. *)
Theorem scalar_integer_exact dt z v :
  in_range dt z -> int_value dt z = Some v -> parseScalar (itoa z) dt = v.
Proof.
  intros Hr Hv. unfold in_range in Hr. unfold parseScalar, parseIntScalar.
  assert (forall w, 0 <= z < 2 ^ w -> w <= 64 -> ParseUint (itoa z) w = Some z) as Hu.
  { intros w Hw Hle. assert (2 ^ w <= 2 ^ 64) by (apply Z.pow_le_mono_r; lia).
    unfold itoa. rewrite decide_False by lia. apply ParseUint_decimal; lia. }
  destruct dt; simpl in *; try done; simplify_eq;
    rewrite ?ParseInt_width, ?Hu by lia; rewrite ?decide_True by lia; simpl; try done.
  - by rewrite wraps_small by lia.
  - by rewrite wrapu_small by lia.
Qed.

(** A payload that is no number of the declared integer type, or one out of its
    range, is read as zero of good quality. *)
Lemma raw_unparsable_zero driver group device typeStr tag now payload topic w sgn :
  intSpecs (ParseDataType typeStr).1 = Some (w, sgn) ->
  (if sgn then ParseInt (TrimSpace payload) w else ParseUint (TrimSpace payload) w) = None ->
  exists v, int_value (ParseDataType typeStr).1 0 = Some v
    /\ Parse (rawParser driver group device typeStr 0 tag "") now payload topic
       = Ok (mkDataPoint driver device group tag v (ParseDataType typeStr).1 QualityGood now ∅ false).
Proof.
  intros Hs Hp. unfold Parse, raw_Parse, parseScalar, parseIntScalar. cbv zeta.
  destruct (ParseDataType typeStr).1; cbn [intSpecs] in *; simplify_eq; rewrite Hp;
    eexists; split; reflexivity.
Qed.

(** [null] is a point: no driver, no tag, no value, of good quality. *)
Lemma null_parsed now topic :
  Parse defaultParser now "null" topic = Ok (pt_with_time pt_zero now).
Proof. reflexivity. Qed.
End theorems.

(** ** Examples *)

Module Examples.

(** No path queries, and neither floats nor times as text. *)
Definition no_paths : Gjson :=
  {| gjson_valid _ := false; gjson_get _ _ := mkGresult GNull EmptyString EmptyString f_zero |}.
Definition no_texts : Texts :=
  {| ParseFloat _ _ := None; ParseRFC3339 _ := None; ParseRFC3339Nano _ := None |}.
End Examples.

#[local] Existing Instances PointJson.Examples.nanos PointJson.Examples.no_floats amd64_f2i
  Examples.no_paths Examples.no_texts.

Lemma published_point_parsed_witness :
  exists text, marshal_point PointJson.Examples.point = Some text
    /\ Parse defaultParser 0 text "topic" = Ok PointJson.Examples.point.
Proof. apply published_point_parsed; [apply PointJson.Examples.point_ok|discriminate]. Defined.

Lemma scalar_integer_exact_witness :
  parseScalar (itoa 18446744073709551615) TypeUint64 = VUint64 18446744073709551615.
Proof. apply scalar_integer_exact; [split; [discriminate|reflexivity]|reflexivity]. Defined.
