(* ===== verification/EnvExpand.v ===== *)
(** * Environment variables in a configuration ([config/env_expand.go])

    The configuration text is parsed to a tree, the placeholders [${NAME}] in its
    strings are replaced by the values of the environment, text that then reads as
    a number, a boolean or null becomes one, and the tree is printed again.  The
    YAML library is the class [Yaml]; [strconv.ParseFloat] is that of [Texts].

    The theorems show that exactly the placeholders of the text are replaced, once,
    and that a value of the environment cannot change the structure of the
    configuration. *)

From Stdlib Require Import ZArith Lia String Ascii.
From stdpp Require Import base list gmap strings.
From S2P Require Import Prelude GoFloat Types JsonText Parser.

Open Scope Z_scope.

(** ** Text *)

Definition name_start (c : ascii) : bool :=
  let z := byte c in ((65 <=? z) && (z <=? 90)) || ((97 <=? z) && (z <=? 122)) || (z =? 95).

Definition name_char (c : ascii) : bool :=
  let z := byte c in name_start c || ((48 <=? z) && (z <=? 57)).

(** The longest prefix of name characters, and the rest. *)
Fixpoint span_name (s : string) : string * string :=
  match s with
  | EmptyString => (EmptyString, EmptyString)
  | String c t =>
      if name_char c then let '(n, r) := span_name t in (String c n, r) else (EmptyString, s)
  end.

(** A match of [envVarRe] at the start of the text: the name and the text after
    the match. *)
Definition placeholder (s : string) : option (string * string) :=
  match s with
  | String d (String b t) =>
      if bool_decide (d = "$"%char) && bool_decide (b = "{"%char) then
        let '(n, r) := span_name t in
        match n, r with
        | String c _, String e rest =>
            if name_start c && bool_decide (e = "}"%char) then Some (n, rest) else None
        | _, _ => None
        end
      else None
  | _ => None
  end.

Definition envValue (env : gmap string string) (n : string) : string :=
  default ("${" +:+ n +:+ "}") (env !! n).

(** [envVarRe.ReplaceAllStringFunc]; the fuel is the length of the text. *)
Fixpoint replaceAll (env : gmap string string) (fuel : nat) (s : string) : string :=
  match fuel with
  | O => s
  | S fuel =>
      match placeholder s with
      | Some (n, rest) => envValue env n +:+ replaceAll env fuel rest
      | None =>
          match s with
          | EmptyString => EmptyString
          | String c t => String c (replaceAll env fuel t)
          end
      end
  end.

Definition expand (env : gmap string string) (s : string) : string := replaceAll env (String.length s) s.

(** ** Trees *)

Inductive ytree :=
| YString (s : string)
| YInt (z : Z)
| YUint (z : Z)
| YFloat (f : float)
| YBool (b : bool)
| YNull
| YOther (name : string)
| YMap (m : list (string * ytree))
| YList (l : list ytree).

Section expansion.
Context `{Texts}.

Definition inferYamlScalar (s : string) : ytree :=
  match ParseInt s 64 with
  | Some n => YInt n
  | None =>
      match ParseFloat F64 s with
      | Some f => YFloat f
      | None =>
          if bool_decide (s ∈ ["true"; "True"; "TRUE"]%string) then YBool true
          else if bool_decide (s ∈ ["false"; "False"; "FALSE"]%string) then YBool false
          else if bool_decide (s ∈ ["null"; "Null"; "NULL"; "~"]%string) then YNull
          else YString s
      end
  end.

Fixpoint expandEnvInTree (env : gmap string string) (v : ytree) : ytree :=
  match v with
  | YString val => if negb (str_contains val "${") then YString val else inferYamlScalar (expand env val)
  | YMap m => YMap ((fix go (m : list (string * ytree)) :=
                       match m with [] => [] | (k, vv) :: m => (k, expandEnvInTree env vv) :: go m end) m)
  | YList l => YList ((fix go (l : list ytree) :=
                         match l with [] => [] | vv :: l => expandEnvInTree env vv :: go l end) l)
  | v => v
  end.

(** The YAML library. *)
Class Yaml := {
  yaml_Unmarshal : string -> ytree + error;
  yaml_Marshal : ytree -> string + error;
}.

Definition expandEnvVars `{Yaml} (env : gmap string string) (data : string) : string + error :=
  if negb (str_contains data "${") then inl data
  else
    match yaml_Unmarshal data with
    | inr e => inr (ErrWrap "failed to parse YAML for env var expansion: " e "")
    | inl raw =>
        match yaml_Marshal (expandEnvInTree env raw) with
        | inr e => inr (ErrWrap "failed to re-marshal YAML after env var expansion: " e "")
        | inl expanded => inl expanded
        end
    end.
End expansion.

(** ** Exactly the placeholders are replaced *)

Definition valid_name (n : string) : Prop :=
  match n with
  | EmptyString => False
  | String c t => name_start c = true /\ forallb name_char (String.list_ascii_of_string t) = true
  end.

(** What the expansion of a text is: a placeholder becomes the value of its
    variable, which is not looked at again, or stays when the variable is not set;
    any other character stays. *)
Inductive expands (env : gmap string string) : string -> string -> Prop :=
| expands_end : expands env EmptyString EmptyString
| expands_set n v rest out :
    valid_name n -> env !! n = Some v -> expands env rest out ->
    expands env ("${" +:+ n +:+ "}" +:+ rest) (v +:+ out)
| expands_unset n rest out :
    valid_name n -> env !! n = None -> expands env rest out ->
    expands env ("${" +:+ n +:+ "}" +:+ rest) ("${" +:+ n +:+ "}" +:+ out)
| expands_char c rest out :
    (forall n r, valid_name n -> String c rest <> "${" +:+ n +:+ "}" +:+ r) ->
    expands env rest out -> expands env (String c rest) (String c out).

Lemma span_name_spec s n r :
  span_name s = (n, r) ->
  s = n +:+ r /\ forallb name_char (String.list_ascii_of_string n) = true /\
  match r with String c _ => name_char c = false | EmptyString => True end.
Proof.
  revert n r. induction s as [|c s IH]; intros n r; cbn [span_name]; [by intros [= <- <-]|].
  destruct (name_char c) eqn:Ec; [|by intros [= <- <-]].
  destruct (span_name s) as [n' r'] eqn:Es. intros [= <- <-]. destruct (IH _ _ eq_refl) as (-> & Hn & Hr).
  split_and!; [done| |done]. cbn. by rewrite Ec.
Qed.

Lemma span_name_app n r :
  forallb name_char (String.list_ascii_of_string n) = true ->
  match r with String c _ => name_char c = false | EmptyString => True end ->
  span_name (n +:+ r) = (n, r).
Proof.
  intros Hn Hr. induction n as [|c n IH].
  - change (EmptyString +:+ r) with r. destruct r as [|c r]; [done|]. cbn. by rewrite Hr.
  - cbn in Hn. apply andb_true_iff in Hn as [Hc Hn].
    change (String c n +:+ r) with (String c (n +:+ r)). cbn [span_name]. by rewrite Hc, IH.
Qed.

Lemma valid_name_chars n : valid_name n -> forallb name_char (String.list_ascii_of_string n) = true.
Proof. destruct n as [|c n]; [done|]. intros [Hc Hn]. cbn. unfold name_char at 1. by rewrite Hc. Qed.

(** [placeholder] finds a match exactly where there is one. *)
Lemma placeholder_some s n rest :
  placeholder s = Some (n, rest) <-> valid_name n /\ s = "${" +:+ n +:+ "}" +:+ rest.
Proof.
  split.
  - destruct s as [|d [|b t]]; cbn [placeholder]; try done.
    destruct (bool_decide (d = "$"%char) && bool_decide (b = "{"%char)) eqn:Edb; [|done].
    apply andb_true_iff in Edb as [Hd%bool_decide_eq_true Hb%bool_decide_eq_true]. subst d b.
    destruct (span_name t) as [[|c m] [|e r]] eqn:Es; try done.
    destruct (name_start c && bool_decide (e = "}"%char)) eqn:Ec; [|done]. intros [= <- <-].
    apply andb_true_iff in Ec as [Hc He%bool_decide_eq_true]. subst e.
    apply span_name_spec in Es as (-> & Hn & _). cbn in Hn. apply andb_true_iff in Hn as [_ Hn]. done.
  - intros [Hn ->]. destruct n as [|c m] eqn:En; [done|].
    change (placeholder (String "$" (String "{" (String c m +:+ String "}" rest))) = Some (String c m, rest)).
    cbn [placeholder]. rewrite span_name_app by (done || by apply valid_name_chars).
    by rewrite (proj1 Hn).
Qed.

Lemma placeholder_none s : placeholder s = None <-> forall n r, valid_name n -> s <> "${" +:+ n +:+ "}" +:+ r.
Proof.
  split.
  - intros Hp n r Hn Hs. by rewrite (proj2 (placeholder_some s n r) (conj Hn Hs)) in Hp.
  - intros Hno. destruct (placeholder s) as [[n r]|] eqn:Ep; [|done].
    apply placeholder_some in Ep as [Hn Hs]. by destruct (Hno n r).
Qed.

Lemma length_app_string (a b : string) : String.length (a +:+ b) = (String.length a + String.length b)%nat.
Proof. induction a as [|c a IH]; [done|]. change (String c a +:+ b) with (String c (a +:+ b)). cbn. lia. Qed.

Lemma replaceAll_expands env fuel s : (String.length s <= fuel)%nat -> expands env s (replaceAll env fuel s).
Proof.
  revert s. induction fuel as [|fuel IH]; intros s Hl.
  { destruct s; [constructor|cbn in Hl; lia]. }
  cbn [replaceAll]. destruct (placeholder s) as [[n rest]|] eqn:Ep.
  - apply placeholder_some in Ep as [Hn ->]. rewrite !length_app_string in Hl. cbn in Hl.
    unfold envValue. destruct (env !! n) as [v|] eqn:Ev; cbn [from_option Datatypes.id].
    + apply expands_set; [done..|]. apply IH. lia.
    + rewrite !str_app_assoc. apply expands_unset; [done..|]. apply IH. lia.
  - destruct s as [|c t]; [constructor|]. apply expands_char; [by apply placeholder_none|]. apply IH. cbn in Hl. lia.
Qed.

Lemma expands_replaceAll env s o :
  expands env s o -> forall fuel, (String.length s <= fuel)%nat -> replaceAll env fuel s = o.
Proof.
  induction 1 as [|n v rest out Hn Hv He IH|n rest out Hn Hv He IH|c rest out Hno He IH]; intros fuel Hl.
  - by destruct fuel.
  - rewrite !length_app_string in Hl. cbn in Hl. destruct fuel as [|fuel]; [lia|]. cbn [replaceAll].
    rewrite (proj2 (placeholder_some _ n rest)) by done. rewrite IH by lia. unfold envValue. by rewrite Hv.
  - rewrite !length_app_string in Hl. cbn in Hl. destruct fuel as [|fuel]; [lia|]. cbn [replaceAll].
    rewrite (proj2 (placeholder_some _ n rest)) by done. rewrite IH by lia. unfold envValue. rewrite Hv.
    cbn [from_option Datatypes.id]. by rewrite !str_app_assoc.
  - cbn in Hl. destruct fuel as [|fuel]; [lia|]. cbn [replaceAll].
    rewrite (proj2 (placeholder_none _)) by done. by rewrite IH by lia.
Qed.

(** The text [expand] computes is the one expansion. *)
Lemma expand_exact env s o : expands env s o <-> o = expand env s.
Proof.
  split.
  - intros He. symmetry. by apply expands_replaceAll.
  - intros ->. by apply replaceAll_expands.
Qed.

(** ** Structure *)

(** A place in a tree, and the scalar at it. *)
Inductive step := AtKey (k : string) | AtIndex (i : nat).

Definition is_scalar (t : ytree) : bool := match t with YMap _ | YList _ => false | _ => true end.

Fixpoint assoc {A} (k : string) (m : list (string * A)) : option A :=
  match m with
  | [] => None
  | (k', v) :: m => if decide (k' = k) then Some v else assoc k m
  end.

Fixpoint leafAt (p : list step) (t : ytree) : option ytree :=
  match p with
  | [] => if is_scalar t then Some t else None
  | AtKey k :: p => match t with YMap m => assoc k m ≫= leafAt p | _ => None end
  | AtIndex i :: p => match t with YList l => l !! i ≫= leafAt p | _ => None end
  end.

Section structure.
Context `{Texts}.

Lemma expand_map env m : expandEnvInTree env (YMap m) = YMap (prod_map id (expandEnvInTree env) <$> m).
Proof. cbn. f_equal. induction m as [|[k v] m IH]; [done|]. cbn. by rewrite IH. Qed.

Lemma expand_list env l : expandEnvInTree env (YList l) = YList (expandEnvInTree env <$> l).
Proof. done. Qed.

Lemma assoc_fmap {A B} (f : A -> B) k m : assoc k (prod_map id f <$> m) = f <$> assoc k m.
Proof. induction m as [|[k' v] m IH]; [done|]. cbn. by case_decide. Qed.

Lemma infer_scalar s : is_scalar (inferYamlScalar s) = true.
Proof. unfold inferYamlScalar. by repeat case_match. Qed.

Lemma expand_scalar env t : is_scalar (expandEnvInTree env t) = is_scalar t.
Proof. destruct t; try done. cbn [expandEnvInTree]. case_match; [done|]. by rewrite infer_scalar. Qed.

(** C10. A variable of the environment cannot change the structure of the
    configuration.  Whatever the environment holds, the expanded tree has scalars
    at exactly the places the parsed one has, under the same keys and indices.  A
    scalar that is not a string, or a string without a placeholder mark, is
    unchanged; any other string has become the scalar its one expansion reads as,
    in which a placeholder is replaced by the value of its variable, taken as it
    is and not expanded again, and left as it stands when the variable is not
    set. *)
Theorem expansion_keeps_structure env t p :
  match leafAt p t with
  | None => leafAt p (expandEnvInTree env t) = None
  | Some (YString s) =>
      if str_contains s "${" then
        exists o, expands env s o /\ leafAt p (expandEnvInTree env t) = Some (inferYamlScalar o)
      else leafAt p (expandEnvInTree env t) = Some (YString s)
  | Some leaf => leafAt p (expandEnvInTree env t) = Some leaf
  end.
Proof.
  revert t. induction p as [|[k|i] p IH]; intros t.
  - cbn [leafAt]. rewrite expand_scalar. destruct t as [s| | | | | | | |]; try done. cbn [is_scalar expandEnvInTree].
    destruct (str_contains s "${"); [|done]. exists (expand env s). split; [by apply expand_exact|done].
  - destruct t as [s| | | | | | |m|]; cbn [leafAt]; try (cbn [expandEnvInTree]; done).
    + pose proof (expand_scalar env (YString s)) as Hs. by destruct (expandEnvInTree env (YString s)).
    + rewrite expand_map. cbn [leafAt]. rewrite assoc_fmap. destruct (assoc k m); cbn; [apply IH|done].
  - destruct t as [s| | | | | | | |l]; cbn [leafAt]; try (cbn [expandEnvInTree]; done).
    + pose proof (expand_scalar env (YString s)) as Hs. by destruct (expandEnvInTree env (YString s)).
    + rewrite expand_list. cbn [leafAt]. rewrite list_lookup_fmap. destruct (l !! i); cbn; [apply IH|done].
Qed.

(** A value made of digits is read as a number: leading zeros and a sign are
    lost, whatever the field the value is for. *)
Lemma digits_lose_zeros env :
  env !! "API_SECRET"%string = Some "0042"%string ->
  expandEnvInTree env (YString "${API_SECRET}") = YInt 42.
Proof.
  intros He. cbn [expandEnvInTree]. assert (expand env "${API_SECRET}" = "0042"%string) as ->; [|done].
  symmetry. apply expand_exact. change "0042"%string with ("0042" +:+ EmptyString).
  change "${API_SECRET}"%string with ("${" +:+ "API_SECRET" +:+ "}" +:+ EmptyString).
  by apply expands_set; [vm_compute| |constructor].
Qed.
End structure.
