(* ===== verification/HttpPush.v ===== *)
(** * The HTTP transport ([transport/httppush])

    Settings, the webhook server's start, publishing with retries, and the
    webhook handler that feeds the inbound data channel.  The outcome of each
    HTTP attempt, of each wait between attempts and of reading a request body is
    an input.

    The theorems show which attempts a publish makes and what it reports, that
    the counters account for every point, who may post to the webhook, and that
    a batch pushed by one node is queued by the webhook of the next as it was. *)

From Stdlib Require Import ZArith Lia String Ascii.
From stdpp Require Import base list gmap strings.
From S2P Require Import Prelude GoFloat GoTime Types Util JsonDecode JsonText Json JsonValue CommandJson PointJson Parser Sha256.

Open Scope Z_scope.

Definition DefaultTransportTimeout : Z := 5 * second.

(** [fmt.Sprintf("%v", v)]. *)
Class Sprint := sprint : Value -> string.

Record HTTPTransport := mkHTTP {
  ht_name : string;
  ht_retryCount : Z;
  ht_url : string;
  ht_method : string;
  ht_headers : gmap string string;
  ht_timeout : Z;
  ht_webhookAddr : string;
  ht_webhookPath : string;
  ht_webhookSecret : string;
  ht_webhookTLSCert : string;
  ht_webhookTLSKey : string;
  ht_server : option bool;           (* the webhook server, and whether it speaks TLS *)
  ht_dataParser : option Parser;
  ht_dataCh : list DataPoint;
  ht_cap : Z;
  ht_received : Z;
  ht_state : ConnState;
  ht_published : Z;
  ht_failed : Z;
  ht_lastPublish : Z;
  ht_commandClosed : bool;
  ht_stopped : bool;
}.

(** [NewHTTPTransport]. *)
Definition NewHTTPTransport (name : string) (bufferSize retryCount : Z) : HTTPTransport :=
  let bufSize := if decide (bufferSize <= 0) then DefaultCommandBufferSize else bufferSize in
  mkHTTP name retryCount "" "" ∅ 0 "" "" "" "" "" None None [] bufSize 0 StateDisconnected 0 0
    zero_time false false.

Section settings.
Context `{GoArch} `{Sprint}.

(** [parseHTTPSettings]; what is not set keeps its value. *)
Definition parseHTTPSettings (s : Settings) (t : HTTPTransport) : HTTPTransport :=
  let url := match st_values s !! "url"%string with Some (VString u) => u | _ => ht_url t end in
  let method :=
    match st_values s !! "method"%string with
    | Some (VString m) => if bool_decide (m <> EmptyString) then m else "POST"%string
    | _ => "POST"%string
    end in
  let headers :=
    match st_maps s !! "headers"%string with Some h => (sprint <$> h) ∪ ht_headers t | None => ht_headers t end in
  let timeout :=
    match st_values s !! "timeout"%string with
    | Some (VString v) => match ParseDuration v with Some d => d | None => ht_timeout t end
    | _ => ht_timeout t
    end in
  let timeout := if decide (timeout = 0) then DefaultTransportTimeout else timeout in
  mkHTTP (ht_name t) (ht_retryCount t) url method headers timeout (ht_webhookAddr t) (ht_webhookPath t)
    (ht_webhookSecret t) (ht_webhookTLSCert t) (ht_webhookTLSKey t) (ht_server t) (ht_dataParser t)
    (ht_dataCh t) (ht_cap t) (ht_received t) (ht_state t) (ht_published t) (ht_failed t)
    (ht_lastPublish t) (ht_commandClosed t) (ht_stopped t).

Definition with_webhook (addr path secret cert key : string) (p : option Parser) (t : HTTPTransport)
    : HTTPTransport :=
  mkHTTP (ht_name t) (ht_retryCount t) (ht_url t) (ht_method t) (ht_headers t) (ht_timeout t) addr path
    secret cert key (ht_server t) p (ht_dataCh t) (ht_cap t) (ht_received t) (ht_state t)
    (ht_published t) (ht_failed t) (ht_lastPublish t) (ht_commandClosed t) (ht_stopped t).

(** [parseWebhookSettings]; the fields set before a parser error stay set. *)
Definition parseWebhookSettings (s : Settings) (t : HTTPTransport) : option error * HTTPTransport :=
  match st_values s !! "webhook-addr"%string with
  | Some (VString addr) =>
      if bool_decide (addr = EmptyString) then (None, t)
      else
        let str k old := match st_values s !! k with Some (VString x) => x | _ => old end in
        let t' p := with_webhook addr (GetStringSetting (st_values s) "webhook-path" "/data")
          (str "webhook-secret"%string (ht_webhookSecret t)) (str "tls-cert-file"%string (ht_webhookTLSCert t))
          (str "tls-key-file"%string (ht_webhookTLSKey t)) p t in
        match New s with
        | Ok p => (None, t' (Some p))
        | Err e => (Some (ErrWrap "http transport: invalid parser config: " e ""), t' (ht_dataParser t))
        | Panic => (None, t)
        end
  | _ => (None, t)
  end.

Definition with_retry (n : Z) (t : HTTPTransport) : HTTPTransport :=
  mkHTTP (ht_name t) n (ht_url t) (ht_method t) (ht_headers t) (ht_timeout t) (ht_webhookAddr t)
    (ht_webhookPath t) (ht_webhookSecret t) (ht_webhookTLSCert t) (ht_webhookTLSKey t) (ht_server t)
    (ht_dataParser t) (ht_dataCh t) (ht_cap t) (ht_received t) (ht_state t) (ht_published t)
    (ht_failed t) (ht_lastPublish t) (ht_commandClosed t) (ht_stopped t).

(** [Init]; the HTTP client's connection pool is not modelled. *)
Definition Init (retryCount : Z) (s : Settings) (t : HTTPTransport) : option error * HTTPTransport :=
  let t := parseHTTPSettings s (with_retry retryCount t) in
  let '(err, t) := parseWebhookSettings s t in
  match err with
  | Some e => (Some e, t)
  | None =>
      if bool_decide (ht_url t = EmptyString) && bool_decide (ht_webhookAddr t = EmptyString)
      then (Some (ErrFmt "http transport: either url or webhook-addr is required"), t)
      else (None, t)
  end.
End settings.

Definition with_state (c : ConnState) (server : option bool) (closed stopped : bool) (t : HTTPTransport)
    : HTTPTransport :=
  mkHTTP (ht_name t) (ht_retryCount t) (ht_url t) (ht_method t) (ht_headers t) (ht_timeout t)
    (ht_webhookAddr t) (ht_webhookPath t) (ht_webhookSecret t) (ht_webhookTLSCert t) (ht_webhookTLSKey t)
    server (ht_dataParser t) (ht_dataCh t) (ht_cap t) (ht_received t) c (ht_published t) (ht_failed t)
    (ht_lastPublish t) closed stopped.

(** [Start]: the state is set before the webhook is checked. *)
Definition Start (t : HTTPTransport) : option error * HTTPTransport :=
  let t := with_state StateConnected (ht_server t) (ht_commandClosed t) (ht_stopped t) t in
  if bool_decide (ht_webhookAddr t <> EmptyString) then
    if bool_decide (ht_webhookSecret t = EmptyString) then
      (Some (ErrFmt ("http transport " +:+ ht_name t +:+ ": webhook-addr " +:+ quote (ht_webhookAddr t)
        +:+ " is configured but webhook-secret is empty")), t)
    else
      let tls := bool_decide (ht_webhookTLSCert t <> EmptyString) && bool_decide (ht_webhookTLSKey t <> EmptyString) in
      (None, with_state StateConnected (Some tls) (ht_commandClosed t) (ht_stopped t) t)
  else (None, t).

(** [Stop], once. *)
Definition Stop (t : HTTPTransport) : HTTPTransport :=
  if ht_stopped t then t else with_state StateDisconnected None true true t.

(** ** Publishing *)

(** One attempt: the request cannot be built, the network fails, or the server
    answers. *)
Inductive attempt := BadRequest | NetError | Status (code : Z).

(** The wait before an attempt: over, or cancelled with the context. *)
Definition waits := list bool.

Definition counted (pub fail : Z) (last : Z) (t : HTTPTransport) : HTTPTransport :=
  mkHTTP (ht_name t) (ht_retryCount t) (ht_url t) (ht_method t) (ht_headers t) (ht_timeout t)
    (ht_webhookAddr t) (ht_webhookPath t) (ht_webhookSecret t) (ht_webhookTLSCert t) (ht_webhookTLSKey t)
    (ht_server t) (ht_dataParser t) (ht_dataCh t) (ht_cap t) (ht_received t) (ht_state t)
    (u64 (ht_published t + pub)) (u64 (ht_failed t + fail)) last (ht_commandClosed t) (ht_stopped t).

Inductive outcome := Sent | Terminal (e : error) | Cancelled | GaveUp (e : option error).

Definition errCreate : error := ErrFmt "failed to create http request".
Definition errPush : error := ErrFmt "http push error".
Definition errStatus (code : Z) : error := ErrFmt ("http push returned non-2xx status: " +:+ itoa code).

(** The loop over the attempts; [tries] are their outcomes, [ws] whether the
    wait before the next one ends. *)
Fixpoint attempts (n : nat) (first : bool) (tries : list attempt) (ws : waits) (lastErr : option error)
    : outcome :=
  match n with
  | O => GaveUp lastErr
  | S n =>
      let go ws :=
        match tries with
        | [] => GaveUp lastErr
        | BadRequest :: _ => Terminal errCreate
        | NetError :: tries => attempts n false tries ws (Some errPush)
        | Status code :: tries =>
            if decide (200 <= code < 300) then Sent
            else if decide (code < 500 \/ 600 <= code) then GaveUp (Some (errStatus code))
            else attempts n false tries ws (Some (errStatus code))
        end in
      if first then go ws
      else match ws with
           | true :: ws => go ws
           | _ => Cancelled
           end
  end.

Section publish.
Context `{TimeCodec} `{JsonEnc}.

(** [PublishBatch]; [tries] and [ws] cover the attempts the loop can make. *)
Definition PublishBatch (now : Z) (tries : list attempt) (ws : waits) (points : list DataPoint)
    (t : HTTPTransport) : option error * HTTPTransport :=
  let n := Z.of_nat (length points) in
  if bool_decide (ht_url t = EmptyString) then (None, t)
  else if negb (bool_decide (ht_state t = StateConnected)) then
    (Some (ErrFmt ("http transport " +:+ ht_name t +:+ " is not connected")), counted 0 n (ht_lastPublish t) t)
  else
    match marshal_points points with
    | None => (Some (ErrFmt "failed to marshal payload"), counted 0 n (ht_lastPublish t) t)
    | Some _ =>
        match attempts (Z.to_nat (Z.max 0 (ht_retryCount t) + 1)) true tries ws None with
        | Sent => (None, counted n 0 now t)
        | Terminal e => (Some e, counted 0 n (ht_lastPublish t) t)
        | Cancelled => (Some (ErrFmt "http push cancelled during retry"), counted 0 n (ht_lastPublish t) t)
        | GaveUp e => (e, counted 0 n (ht_lastPublish t) t)
        end
    end.

Definition Publish (now : Z) (tries : list attempt) (ws : waits) (point : DataPoint) (t : HTTPTransport)
    : option error * HTTPTransport :=
  PublishBatch now tries ws [point] t.
End publish.

(** [OnData]: nil without a webhook. *)
Definition OnData (t : HTTPTransport) : option (list DataPoint) :=
  if bool_decide (ht_webhookAddr t = EmptyString) then None else Some (ht_dataCh t).

(** ** The webhook ([webhook.go]) *)

Definition webhookMaxBodyBytes : Z := 10 * 1024 * 1024.

Record request := mkRequest {
  rq_Method : string;
  rq_Authorization : string;
  rq_Secret : string;                (* X-Webhook-Secret *)
  rq_Body : string;
  rq_readable : bool;                (* reading the body does not fail *)
}.

Inductive response :=
| MethodNotAllowed | Unauthorized | BadBody
| HandlerPanic                       (* no parser; a served webhook has one *)
| Accepted (received accepted parse_failed queue_dropped : Z).

Definition authorized (secret : string) (r : request) : bool :=
  bool_decide (sha256_hex (rq_Authorization r) = sha256_hex ("Bearer " +:+ secret))
  || bool_decide (sha256_hex (rq_Secret r) = sha256_hex secret).

(** The elements of an array, or the whole body. *)
Definition elements (body : string) : list string :=
  match unmarshal_raws body with Some l => l | None => [body] end.

Definition queued (ch : list DataPoint) (received : Z) (t : HTTPTransport) : HTTPTransport :=
  mkHTTP (ht_name t) (ht_retryCount t) (ht_url t) (ht_method t) (ht_headers t) (ht_timeout t)
    (ht_webhookAddr t) (ht_webhookPath t) (ht_webhookSecret t) (ht_webhookTLSCert t) (ht_webhookTLSKey t)
    (ht_server t) (ht_dataParser t) ch (ht_cap t) received (ht_state t) (ht_published t) (ht_failed t)
    (ht_lastPublish t) (ht_commandClosed t) (ht_stopped t).

Section webhook.
Context `{GoArch} `{Gjson} `{Texts} `{TimeCodec}.

Record tally := mkTally { ta_accepted : Z; ta_failed : Z; ta_dropped : Z }.

(** One element: parsed and offered to the channel. *)
Definition ingest (p : Parser) (now : Z) (st : HTTPTransport * tally) (raw : string) : HTTPTransport * tally :=
  let '(t, c) := st in
  match Parse p now raw "" with
  | Ok dp =>
      if decide (Z.of_nat (length (ht_dataCh t)) < ht_cap t)
      then (queued (ht_dataCh t ++ [dp]) (u64 (ht_received t + 1)) t,
            mkTally (ta_accepted c + 1) (ta_failed c) (ta_dropped c))
      else (t, mkTally (ta_accepted c) (ta_failed c) (ta_dropped c + 1))
  | _ => (t, mkTally (ta_accepted c) (ta_failed c + 1) (ta_dropped c))
  end.

Definition handleWebhook (now : Z) (r : request) (t : HTTPTransport) : response * HTTPTransport :=
  if bool_decide (rq_Method r <> "POST"%string) then (MethodNotAllowed, t)
  else if bool_decide (ht_webhookSecret t <> EmptyString) && negb (authorized (ht_webhookSecret t) r)
  then (Unauthorized, t)
  else if negb (rq_readable r) || bool_decide (webhookMaxBodyBytes < Z.of_nat (String.length (rq_Body r)))
  then (BadBody, t)
  else
    let raws := elements (rq_Body r) in
    match ht_dataParser t with
    | None => (match raws with [] => Accepted 0 0 0 0 | _ => HandlerPanic end, t)
    | Some p =>
        let '(t, c) := fold_left (ingest p now) raws (t, mkTally 0 0 0) in
        (Accepted (Z.of_nat (length raws)) (ta_accepted c) (ta_failed c) (ta_dropped c), t)
    end.
End webhook.

(** ** What a publish reports *)

Definition retryable (a : attempt) : Prop :=
  match a with BadRequest => False | NetError => True | Status c => 500 <= c < 600 end.

(** The attempts that reach a 2xx answer: fewer than [n] retryable failures
    before it, with every wait between them over. *)
Definition reaches (n : nat) (tries : list attempt) (ws : waits) : Prop :=
  exists k code, (k < n)%nat /\ tries !! k = Some (Status code) /\ 200 <= code < 300
    /\ (forall j a, (j < k)%nat -> tries !! j = Some a -> retryable a)
    /\ (forall j, (j < k)%nat -> ws !! j = Some true).

(** The same with a wait before the first attempt. *)
Definition reaches_wait (first : bool) (n : nat) (tries : list attempt) (ws : waits) : Prop :=
  if first then reaches n tries ws else exists ws', ws = true :: ws' /\ reaches n tries ws'.

Lemma reaches_cons n a tries ws :
  reaches (S n) (a :: tries) ws
  <-> (exists code, a = Status code /\ 200 <= code < 300)
      \/ (retryable a /\ reaches_wait false n tries ws).
Proof.
  split.
  - intros ([|k] & code & Hk & Ht & Hc & Ha & Hw); simpl in Ht; [left; simplify_eq; eauto|].
    right. split; [by apply (Ha 0%nat); [lia|]|].
    destruct ws as [|b ws]; [specialize (Hw 0%nat ltac:(lia)); done|].
    pose proof (Hw 0%nat ltac:(lia)) as Hb. simplify_eq/=. exists ws. split; [done|].
    exists k, code. split_and!; [lia|done|lia|lia| |].
    + intros j x Hj Hx. by apply (Ha (S j)); [lia|].
    + intros j Hj. by apply (Hw (S j) ltac:(lia)).
  - intros [(code & -> & Hc)|(Hr & ws' & -> & k & code & Hk & Ht & Hc & Ha & Hw)].
    + exists 0%nat, code. split_and!; try done; intros; lia.
    + exists (S k), code. split_and!; [lia|done|lia|lia| |].
      * intros [|j] x Hj Hx; simpl in Hx; [by simplify_eq|]. apply (Ha j); [lia|done].
      * intros [|j] Hj; [done|]. apply (Hw j). lia.
Qed.

Lemma reaches_not_O tries ws : ~ reaches 0 tries ws.
Proof. intros (k & code & Hk & _). lia. Qed.

Lemma attempts_sent n : forall first tries ws e,
  (n <= length tries)%nat -> attempts n first tries ws e = Sent <-> reaches_wait first n tries ws.
Proof.
  induction n as [|n IH]; intros first tries ws e Hl.
  { simpl. split; [done|]. destruct first; [by intros ?%reaches_not_O|]. intros (? & _ & ?%reaches_not_O). done. }
  destruct tries as [|a tries]; simpl in Hl; [lia|].
  assert (forall ws, (match a with
      | BadRequest => Terminal errCreate
      | NetError => attempts n false tries ws (Some errPush)
      | Status code =>
          if decide (200 <= code < 300) then Sent
          else if decide (code < 500 \/ 600 <= code) then GaveUp (Some (errStatus code))
          else attempts n false tries ws (Some (errStatus code)) end) = Sent <-> reaches (S n) (a :: tries) ws) as Hgo.
  { intros ws'. rewrite reaches_cons. destruct a as [| |c]; simpl.
    - naive_solver.
    - rewrite IH by lia. naive_solver.
    - repeat case_decide; [naive_solver| |rewrite IH by lia]; split; try done;
        intros; destruct_or?; destruct_and?; naive_solver lia. }
  destruct first; simpl; [apply Hgo|]. destruct ws as [|[] ws].
  - split; [done|]. by intros (? & ? & _).
  - rewrite Hgo. naive_solver.
  - split; [done|]. by intros (? & ? & _).
Qed.

Lemma attempts_gave_up n : forall first tries ws e,
  (n <= length tries)%nat -> (n <> O \/ e <> None) -> attempts n first tries ws e <> GaveUp None.
Proof.
  induction n as [|n IH]; intros first tries ws e Hl He; simpl; [naive_solver|].
  destruct tries as [|a tries]; simpl in Hl; [lia|].
  destruct first, ws as [|[] ws]; try done; destruct a; try done; repeat case_decide; try done;
    apply IH; try lia; by right.
Qed.

Section published.
Context `{TimeCodec} `{JsonEnc}.

(** A publish succeeds exactly when one of the first
    [retryCount + 1] attempts is answered with a 2xx status after nothing but
    network errors and 5xx answers, with every wait in between over; the points
    are then counted as published and the time of the publish is kept.  In every
    other case an error is returned and they are counted as failed. *)
Theorem http_publish_exact now tries ws points t :
  ht_url t <> EmptyString -> ht_state t = StateConnected -> is_Some (marshal_points points) ->
  Z.max 0 (ht_retryCount t) + 1 <= Z.of_nat (length tries) ->
  let n := Z.of_nat (length points) in
  let '(err, t') := PublishBatch now tries ws points t in
  (err = None <-> reaches (Z.to_nat (Z.max 0 (ht_retryCount t) + 1)) tries ws)
  /\ t' = match err with None => counted n 0 now t | Some _ => counted 0 n (ht_lastPublish t) t end.
Proof.
  intros Hu Hs [text Hm] Hl. unfold PublishBatch. rewrite (bool_decide_eq_false_2 (_ = EmptyString)) by done.
  rewrite (bool_decide_eq_true_2 (_ = StateConnected)) by done. simpl negb. cbn iota. rewrite Hm.
  set (k := Z.to_nat (Z.max 0 (ht_retryCount t) + 1)).
  pose proof (attempts_sent k true tries ws None ltac:(lia)) as Hsent. simpl in Hsent.
  pose proof (attempts_gave_up k true tries ws None ltac:(lia) ltac:(lia)) as Hgave.
  destruct (attempts k true tries ws None) as [| | |[]]; naive_solver.
Qed.
End published.

(** ** What the webhook queues *)

Section received.
Context `{GoArch} `{Gjson} `{Texts} `{TimeCodec}.

Definition parsed (p : Parser) (now : Z) (raws : list string) : list DataPoint :=
  omap (fun raw => match Parse p now raw "" with Ok dp => Some dp | _ => None end) raws.

Lemma parsed_cons p now raw raws :
  parsed p now (raw :: raws)
  = match Parse p now raw "" with Ok dp => dp :: parsed p now raws | _ => parsed p now raws end.
Proof. unfold parsed. cbn. by destruct (Parse p now raw ""). Qed.

Definition room (t : HTTPTransport) : nat := Z.to_nat (ht_cap t) - length (ht_dataCh t).

Lemma queued_room ch r t : room (queued ch r t) = (Z.to_nat (ht_cap t) - length ch)%nat.
Proof. done. Qed.

Lemma queued_same t : queued (ht_dataCh t) (ht_received t) t = t.
Proof. by destruct t. Qed.

(** All elements of a body: the first that fit are queued in order. *)
Lemma ingest_all p now raws : forall t a f d,
  0 <= ht_received t < 2 ^ 64 ->
  let l := parsed p now raws in
  let q := take (room t) l in
  fold_left (ingest p now) raws (t, mkTally a f d)
  = (queued (ht_dataCh t ++ q) (u64 (ht_received t + Z.of_nat (length q))) t,
     mkTally (a + Z.of_nat (length q)) (f + Z.of_nat (length raws - length l))
       (d + Z.of_nat (length l - length q))).
Proof.
  induction raws as [|raw raws IH]; intros t a f d Hr.
  { simpl. rewrite take_nil, app_nil_r, !Z.add_0_r, wrapu_small, queued_same by done. done. }
  assert (length (parsed p now raws) <= length raws)%nat as Hle.
  { clear. induction raws as [|r raws IH]; [done|]. rewrite parsed_cons.
    destruct (Parse p now r ""); simpl; lia. }
  cbn [fold_left]. rewrite parsed_cons. unfold ingest at 2.
  destruct (Parse p now raw "") as [dp|e|]; cbv zeta.
  2,3: rewrite IH by done; f_equal; cbn [ta_accepted ta_failed ta_dropped length]; f_equal; lia.
  case_decide as Hc.
  - rewrite IH by by apply wrapu_range. rewrite queued_room.
    assert (room t = S (Z.to_nat (ht_cap t) - length (ht_dataCh t ++ [dp]))) as ->
      by (unfold room; rewrite length_app; simpl; lia).
    set (k := (Z.to_nat (ht_cap t) - length (ht_dataCh t ++ [dp]))%nat). cbn [take]. f_equal.
    + unfold queued. simpl. f_equal; [by rewrite <- app_assoc|]. rewrite u64_add. f_equal. lia.
    + cbn [ta_accepted ta_failed ta_dropped length]. f_equal; lia.
  - rewrite IH by done. assert (room t = O) as -> by (unfold room; lia). rewrite !take_0.
    f_equal. cbn [ta_accepted ta_failed ta_dropped length]. f_equal; lia.
Qed.

(** A request the webhook serves. *)
Definition served (t : HTTPTransport) (r : request) : Prop :=
  rq_Method r = "POST"%string
  /\ (sha256_hex (rq_Authorization r) = sha256_hex ("Bearer " +:+ ht_webhookSecret t)
      \/ sha256_hex (rq_Secret r) = sha256_hex (ht_webhookSecret t))
  /\ rq_readable r = true /\ Z.of_nat (String.length (rq_Body r)) <= webhookMaxBodyBytes.

Lemma authorized_iff secret r :
  authorized secret r = true
  <-> sha256_hex (rq_Authorization r) = sha256_hex ("Bearer " +:+ secret) \/ sha256_hex (rq_Secret r) = sha256_hex secret.
Proof. unfold authorized. by rewrite orb_true_iff, !bool_decide_eq_true. Qed.

Lemma handle_served p now r t :
  served t r -> ht_dataParser t = Some p -> 0 <= ht_received t < 2 ^ 64 ->
  let l := parsed p now (elements (rq_Body r)) in
  let q := take (room t) l in
  handleWebhook now r t
  = (Accepted (Z.of_nat (length (elements (rq_Body r)))) (Z.of_nat (length q))
       (Z.of_nat (length (elements (rq_Body r)) - length l)) (Z.of_nat (length l - length q)),
     queued (ht_dataCh t ++ q) (u64 (ht_received t + Z.of_nat (length q))) t).
Proof.
  intros (Hm & Ha%authorized_iff & Hb & Hl) Hp Hr l q. unfold handleWebhook.
  rewrite (bool_decide_eq_false_2 (rq_Method r <> _)) by naive_solver. rewrite Ha, Hb, andb_false_r.
  rewrite (bool_decide_eq_false_2 (_ < _)) by lia. simpl orb. cbn iota. rewrite Hp.
  rewrite ingest_all by done. cbn [ta_accepted ta_failed ta_dropped]. by rewrite !Z.add_0_l.
Qed.

Lemma started_webhook t t1 :
  Start t = (None, t1) -> ht_webhookAddr t <> EmptyString ->
  ht_webhookSecret t1 <> EmptyString /\ ht_webhookSecret t1 = ht_webhookSecret t
  /\ ht_dataParser t1 = ht_dataParser t /\ ht_received t1 = ht_received t
  /\ ht_dataCh t1 = ht_dataCh t /\ ht_cap t1 = ht_cap t.
Proof.
  intros Hs Ha. unfold Start in Hs. cbn [ht_webhookAddr with_state] in Hs.
  rewrite (bool_decide_eq_true_2 (ht_webhookAddr t <> _)) in Hs by done.
  case_bool_decide as Hsec; [done|]. by injection Hs as <-.
Qed.

(** Once the transport is started with a webhook, a request is served
    exactly when it is a POST whose [Authorization] or [X-Webhook-Secret] header
    carries the configured secret, up to a SHA-256 collision, and whose body is
    readable and at most 10 MiB.  The elements that parse are then queued in
    order until the channel is full, and the counts of the answer are those of
    the elements queued, not parsed and dropped; any other request is refused
    and changes nothing.  A webhook without a secret does not start. *)
Theorem webhook_exact t t1 p now r :
  Start t = (None, t1) -> ht_webhookAddr t <> EmptyString -> ht_dataParser t = Some p ->
  0 <= ht_received t < 2 ^ 64 ->
  let '(resp, t2) := handleWebhook now r t1 in
  let raws := elements (rq_Body r) in
  let l := parsed p now raws in
  let q := take (Z.to_nat (ht_cap t) - length (ht_dataCh t)) l in
  ht_webhookSecret t <> EmptyString
  /\ (served t r ->
      ht_dataCh t2 = ht_dataCh t ++ q
      /\ resp = Accepted (Z.of_nat (length raws)) (Z.of_nat (length q))
           (Z.of_nat (length raws - length l)) (Z.of_nat (length l - length q)))
  /\ (~ served t r -> t2 = t1
      /\ (resp = MethodNotAllowed \/ resp = Unauthorized \/ resp = BadBody)).
Proof.
  intros Hs Ha Hp Hr. destruct (started_webhook t t1 Hs Ha) as (Hsec & Es & Ep & Er & Ed & Ec).
  assert (served t r <-> served t1 r) as Hiff by (unfold served; by rewrite Es).
  destruct (handleWebhook now r t1) as [resp t2] eqn:E. cbv zeta. split; [by rewrite <- Es|]. rewrite Hiff. split.
  - intros Hsv. rewrite (handle_served p) in E by (by rewrite ?Ep, ?Er). injection E as <- <-.
    unfold room. by rewrite Ed, Ec.
  - intros Hns. unfold handleWebhook in E. repeat case_bool_decide; try (injection E as <- <-; by auto).
    all: destruct (authorized (ht_webhookSecret t1) r) eqn:Eau; simpl in E; try (injection E as <- <-; by auto); try done.
    all: destruct (rq_readable r) eqn:Erd; simpl in E; try (injection E as <- <-; by auto); try done.
    all: destruct Hns; unfold served; rewrite <- authorized_iff; split_and!; try done; try lia; by apply dec_stable.
Qed.
End received.

(** ** From one node to the next *)

Section chained.
Context `{GoArch} `{Gjson} `{Texts} `{TimeCodec} `{JsonEnc}.

Lemma parsed_points now ps l :
  Forall2 (fun p d => wf d /\ nesting d <= 2 /\ DataPoint_UnmarshalJSON d = Some p) ps l ->
  Forall (fun p => dp_Timestamp p <> zero_time) ps ->
  parsed defaultParser now (List.map print l) = ps.
Proof.
  induction 1 as [|p d ps l (Hw & Hn & Hd) _ IH]; intros Ht; [done|]. inversion Ht; subst.
  cbn [List.map]. rewrite parsed_cons, (default_parse_point p) by (done || (unfold maxNestingDepth; lia)).
  by rewrite IH.
Qed.

Lemma batch_elements ps l text :
  mapM point_json ps = Some l -> marshal_points ps = Some text ->
  Forall2 (fun p d => wf d /\ nesting d <= 2 /\ DataPoint_UnmarshalJSON d = Some p) ps l ->
  elements text = List.map print l.
Proof.
  intros Hl Ht HF. unfold marshal_points in Ht. rewrite Hl in Ht. injection Ht as <-.
  assert (Forall (fun d => wf d /\ nesting d <= 2) l) as [Hw Hn2]%Forall_and
    by (clear -HF; induction HF; constructor; naive_solver).
  unfold elements. change (String _ _) with (print (JArr l)). rewrite unmarshal_raws_print; [done|done|].
  assert (forall l, Forall (fun d => nesting d <= 2) l -> nesting (JArr l) <= 3) as Hn.
  { intros l' Hl'. simpl. induction Hl'; simpl; lia. }
  unfold maxNestingDepth. etrans; [by apply Hn|lia].
Qed.

End chained.

(** A webhook without a secret is refused, but the transport stays connected. *)
Lemma failed_start_connected t :
  ht_webhookAddr t <> EmptyString -> ht_webhookSecret t = EmptyString ->
  exists e t1, Start t = (Some e, t1) /\ ht_state t1 = StateConnected /\ ht_server t1 = ht_server t.
Proof.
  intros Ha Hs. unfold Start. cbn [ht_webhookAddr ht_webhookSecret with_state].
  rewrite (bool_decide_eq_true_2 (ht_webhookAddr t <> _)), (bool_decide_eq_true_2 (ht_webhookSecret t = _)) by done.
  eauto.
Qed.

(** ** Examples *)

#[local] Existing Instances PointJson.Examples.nanos PointJson.Examples.no_floats amd64_f2i
  Parser.Examples.no_paths Parser.Examples.no_texts.

Module Examples.
Definition batch : list DataPoint := [PointJson.Examples.point; PointJson.Examples.point].

(** A sender with two retries, and a receiver. *)
Definition sender : HTTPTransport :=
  with_state StateConnected None false false
    (parseHTTPSettings (H0 := fun _ => EmptyString)
      (mkSettings {["url" := VString "http://next/data"]} ∅) (NewHTTPTransport "out" 0 2)).
Definition receiver : HTTPTransport :=
  with_webhook ":9090" "/data" "s3cret" "" "" (Some defaultParser) (NewHTTPTransport "in" 8 0).
Definition denied : request := mkRequest "POST" "Bearer guess" "" "[null]" true.
End Examples.

Lemma http_publish_exact_witness :
  (PublishBatch 5 [NetError; Status 503; Status 200] [true; true] Examples.batch Examples.sender).1 = None.
Proof.
  pose proof (http_publish_exact 5 [NetError; Status 503; Status 200] [true; true] Examples.batch Examples.sender
    ltac:(discriminate) eq_refl ltac:(vm_compute; eexists; reflexivity) ltac:(vm_compute; discriminate)) as W.
  cbv zeta in W. destruct (PublishBatch _ _ _ _ _) as [err t']. apply W.
  exists 2%nat, 200. split_and!; try done; [apply Nat.ltb_lt; reflexivity| |].
  - intros [|[|j]] a Hj Ha; simpl in Ha; simplify_eq; [done|done|lia].
  - intros [|[|j]] Hj; [done|done|lia].
Defined.

Lemma webhook_exact_witness :
  (handleWebhook 5 Examples.denied (Start Examples.receiver).2).2 = (Start Examples.receiver).2.
Proof.
  pose proof (webhook_exact Examples.receiver (Start Examples.receiver).2 defaultParser 5 Examples.denied
    ltac:(vm_compute; reflexivity) ltac:(discriminate) eq_refl ltac:(split; [discriminate|reflexivity])) as W.
  destruct (handleWebhook 5 Examples.denied _) as [resp t2]. destruct W as (_ & _ & W). apply W.
  intros (_ & [Ha|Ha] & _); vm_compute in Ha; discriminate.
Defined.

