(* ===== verification/Mqtt.v ===== *)
(** * The MQTT transport ([transport/mqtt])

    Settings, TLS, start and stop, the connection handlers, publishing of points
    and batches, topics, forwarding and the two subscriptions; the command path
    is [Commands], the parsers are [Parser].  The paho client is its behaviour at
    each call: whether it is connected and how each token ends.  Topic templates,
    [url.Parse], certificate files and random numbers are parameters.

    The theorems show that a started transport queues only commands signed with
    the configured secret, what publishing counts and reports in any order of the
    concurrent publishes, that points arrive at the next node as they were, which
    TLS settings are accepted, and that topics have no empty segments. *)

From Stdlib Require Import ZArith Lia String Ascii.
From stdpp Require Import base list gmap strings.
From S2P Require Import Prelude GoFloat GoTime Types Util JsonDecode JsonText Json JsonValue CommandJson PointJson Sha256 Commands Parser.

Open Scope Z_scope.

Definition projectName : string := "corec".
Definition TypeName : string := "mqtt".

(** ** What the transport calls *)

(** [text/template] on the four names of a point. *)
Class TopicTemplates := {
  template : Type;
  parse_template : string -> option template;
  exec_template : template -> string * string * string * string -> option string;
}.

(** [url.Parse]: scheme and host name. *)
Class Urls := url_parse : string -> option (string * string).

(** Certificate files: reading one, the pool of the certificates in a PEM
    text, and a certificate with its key. *)
Class CertFiles := {
  read_pem : string -> string + error;
  parse_pool : string -> option string;
  key_pair : string -> string -> string + error;
}.

(** ** TLS ([tls_config.go], [common/tlsutil]) *)

Record tlsConfig := mkTLS {
  tls_ServerName : string;
  tls_RootCAs : option string;
  tls_Certificates : list string;
}.

Record tlsFiles := mkFiles { tf_cert : string; tf_key : string; tf_ca : string }.

Definition tlsSchemes : list string := ["ssl"; "tls"; "mqtts"; "mqtt+ssl"; "tcps"; "wss"]%string.

Definition normalizeBrokerURL (broker : string) : string :=
  let broker := if has_prefix broker ":" then "127.0.0.1" +:+ broker else broker in
  if str_contains broker "://" then broker else "tcp://" +:+ broker.

Section tls.
Context `{Urls} `{CertFiles}.

Definition LoadCertPool (caFile : string) : res string :=
  match read_pem caFile with
  | inr e => Err (ErrWrap ("failed to read CA file " +:+ caFile +:+ ": ") e "")
  | inl pem =>
      match parse_pool pem with
      | Some pool => Ok pool
      | None => Err (ErrFmt ("failed to parse CA certificate(s) from " +:+ caFile))
      end
  end.

Definition LoadClientCert (certFile keyFile : string) : res string :=
  if bool_decide (certFile = EmptyString) || bool_decide (keyFile = EmptyString)
  then Err (ErrFmt "cert-file and key-file must both be set for mutual TLS")
  else match key_pair certFile keyFile with
       | inl cert => Ok cert
       | inr e => Err (ErrWrap "failed to load client key pair: " e "")
       end.

Definition loadTLSFiles (f : tlsFiles) (cfg : tlsConfig) : res tlsConfig :=
  let cfg_ca :=
    if bool_decide (tf_ca f <> EmptyString) then
      match LoadCertPool (tf_ca f) with
      | Ok pool => Ok (mkTLS (tls_ServerName cfg) (Some pool) (tls_Certificates cfg))
      | Err e => Err (ErrWrap "mqtt: " e "")
      | Panic => Panic
      end
    else Ok cfg in
  match cfg_ca with
  | Ok cfg =>
      if bool_decide (tf_cert f <> EmptyString) || bool_decide (tf_key f <> EmptyString) then
        match LoadClientCert (tf_cert f) (tf_key f) with
        | Ok cert => Ok (mkTLS (tls_ServerName cfg) (tls_RootCAs cfg) [cert])
        | Err e => Err (ErrWrap "mqtt: " e "")
        | Panic => Panic
        end
      else Ok cfg
  | r => r
  end.

(** [buildTLSConfig]; no configuration is a plaintext connection. *)
Definition buildTLSConfig (broker : string) (f : tlsFiles) : res (option tlsConfig) :=
  let u := url_parse (normalizeBrokerURL broker) in
  let schemeTLS := match u with Some (scheme, _) => bool_decide (to_lower scheme ∈ tlsSchemes) | None => false end in
  let anyFile := bool_decide (tf_ca f <> EmptyString) || bool_decide (tf_cert f <> EmptyString)
                 || bool_decide (tf_key f <> EmptyString) in
  if negb schemeTLS && negb anyFile then Ok None
  else
    match u with
    | None => Err (ErrFmt ("mqtt: invalid broker URL " +:+ quote broker))
    | Some (scheme, host) =>
        match loadTLSFiles f (mkTLS host None []) with
        | Ok cfg =>
            if negb schemeTLS && anyFile
            then Err (ErrFmt ("mqtt: TLS files configured but broker scheme " +:+ quote scheme
                       +:+ " is not TLS; use mqtts:// or ssl:// scheme to enable TLS"))
            else Ok (Some cfg)
        | Err e => Err e
        | Panic => Panic
        end
    end.
End tls.

(** ** The transport *)

Record connOpts := mkConn {
  co_broker : string; co_clientID : string; co_username : string; co_password : string;
  co_qos : Z; co_retained : bool;
  co_keepAlive : Z; co_connectTimeout : Z; co_autoReconnect : bool; co_cleanSession : bool;
  co_connectRetry : bool; co_connectRetryInterval : Z;
  co_subscribeTimeout : Z; co_publishTimeout : Z; co_disconnectQuiesce : Z;
}.

Record lastWill := mkWill { lw_topic : string; lw_payload : string; lw_qos : Z; lw_retain : bool }.

Section transport.
Context `{GoArch} `{TopicTemplates} `{Urls} `{CertFiles} `{Gjson} `{Texts} `{TimeCodec} `{JsonEnc}.
Context (iter : gmap string Z -> list (string * Z)).

Record Mqtt := mkMqtt {
  mq_name : string;
  mq_conn : connOpts;
  mq_template : option template;
  mq_commandTopic : string;
  mq_forwardTopic : string;
  mq_forwardSecret : string;
  mq_cmd : MQTTCommands;             (* secret, skew, replay window, channel, dead letters *)
  mq_will : lastWill;
  mq_dataTopic : string;
  mq_dataParser : option Parser;
  mq_tlsFiles : tlsFiles;
  mq_tls : option tlsConfig;
  mq_state : ConnState;
  mq_published : Z;
  mq_failed : Z;
  mq_received : Z;
  mq_lastPublish : Z;
  mq_dataCh : list DataPoint;
  mq_dataCap : Z;
  mq_client : bool;                  (* Start has made a client *)
  mq_cancelled : bool;
  mq_subCommands : bool;             (* the subscriptions the client routes *)
  mq_subData : bool;
}.

Definition NewMQTTTransport (name : string) (bufferSize : Z) : Mqtt :=
  let bufSize := if decide (bufferSize <= 0) then DefaultCommandBufferSize else bufferSize in
  mkMqtt name (mkConn "" "" "" "" 0 false 0 0 false false false 0 0 0 0) None "" "" ""
    (mkCommands "" 0 false None [] bufSize [] DefaultDeadLetterMaxLen 0) (mkWill "" "" 0 false)
    "" None (mkFiles "" "" "") None StateDisconnected 0 0 0 zero_time [] bufSize false false false false.

(** ** Settings *)

Definition with_conn (c : connOpts) (t : Mqtt) : Mqtt :=
  mkMqtt (mq_name t) c (mq_template t) (mq_commandTopic t) (mq_forwardTopic t) (mq_forwardSecret t)
    (mq_cmd t) (mq_will t) (mq_dataTopic t) (mq_dataParser t) (mq_tlsFiles t) (mq_tls t) (mq_state t)
    (mq_published t) (mq_failed t) (mq_received t) (mq_lastPublish t) (mq_dataCh t) (mq_dataCap t)
    (mq_client t) (mq_cancelled t) (mq_subCommands t) (mq_subData t).

Definition with_commands (tpl : option template) (topic fwd fwdSecret : string) (c : MQTTCommands) (w : lastWill)
    (t : Mqtt) : Mqtt :=
  mkMqtt (mq_name t) (mq_conn t) tpl topic fwd fwdSecret c w (mq_dataTopic t) (mq_dataParser t)
    (mq_tlsFiles t) (mq_tls t) (mq_state t) (mq_published t) (mq_failed t) (mq_received t)
    (mq_lastPublish t) (mq_dataCh t) (mq_dataCap t) (mq_client t) (mq_cancelled t) (mq_subCommands t)
    (mq_subData t).

Definition with_data (topic : string) (p : option Parser) (t : Mqtt) : Mqtt :=
  mkMqtt (mq_name t) (mq_conn t) (mq_template t) (mq_commandTopic t) (mq_forwardTopic t)
    (mq_forwardSecret t) (mq_cmd t) (mq_will t) topic p (mq_tlsFiles t) (mq_tls t) (mq_state t)
    (mq_published t) (mq_failed t) (mq_received t) (mq_lastPublish t) (mq_dataCh t) (mq_dataCap t)
    (mq_client t) (mq_cancelled t) (mq_subCommands t) (mq_subData t).

Definition with_tls (f : tlsFiles) (c : option tlsConfig) (t : Mqtt) : Mqtt :=
  mkMqtt (mq_name t) (mq_conn t) (mq_template t) (mq_commandTopic t) (mq_forwardTopic t)
    (mq_forwardSecret t) (mq_cmd t) (mq_will t) (mq_dataTopic t) (mq_dataParser t) f c (mq_state t)
    (mq_published t) (mq_failed t) (mq_received t) (mq_lastPublish t) (mq_dataCh t) (mq_dataCap t)
    (mq_client t) (mq_cancelled t) (mq_subCommands t) (mq_subData t).

(** The connection part of [Init]; [rand] is the sample of [rand.Float64()], [now]
    the time in the default client id. *)
Definition init_conn (name : string) (now : Z) (rand : float) (broker : string) (s : gmap string Value)
    (old : connOpts) : connOpts :=
  let retry := GetDurationSetting s "connect-retry-interval" (5 * second) in
  mkConn broker
    (match s !! "client-id"%string with
     | Some (VString c) => c
     | _ => projectName +:+ "-" +:+ name +:+ "-" +:+ itoa (unixMilli now)
     end)
    (GetStringSetting s "username" "") (GetStringSetting s "password" "")
    (u8 (GetIntSetting s "qos" 1))
    (match s !! "retained"%string with Some (VBool b) => b | _ => co_retained old end)
    (GetDurationSetting s "keep-alive" (60 * second))
    (GetDurationSetting s "connect-timeout" (10 * second))
    (GetBoolSetting s "auto-reconnect" true) (GetBoolSetting s "clean-session" true)
    (GetBoolSetting s "connect-retry" true)
    (if decide (0 < retry)
     then f_to_s 64 (fmul F64 (f_of_Z F64 retry) (fadd F64 f_0_8 (fmul F64 rand f_0_4))) else retry)
    (GetDurationSetting s "subscribe-timeout" (5 * second))
    (GetDurationSetting s "publish-timeout" (5 * second))
    (GetDurationSetting s "disconnect-quiesce" second).

(** [parseCommandSettings] and the replay window [Init] makes; without a secret
    or a skew an old window stays. *)
Definition parseCommandSettings (s : gmap string Value) (c : MQTTCommands) : MQTTCommands :=
  let secret := GetStringSetting s "command-secret" "" in
  let skew := GetDurationSetting s "command-max-skew" (5 * minute) in
  mkCommands secret skew (GetBoolSetting s "command-strict-replay" false)
    (match initReplayCache secret skew with Some rw => Some rw | None => mc_replayCache c end)
    (mc_commandCh c) (mc_commandCap c) (mc_commandDeadLetter c) (mc_commandDeadLetterMax c)
    (mc_droppedCommands c).

Definition init_will (s : gmap string Value) (old : lastWill) : lastWill :=
  mkWill (GetStringSetting s "will-topic" "")
    (match s !! "will-payload"%string with Some (VString p) => p | _ => lw_payload old end)
    (u8 (GetIntSetting s "will-qos" 0))
    (if GetBoolSetting s "will-retain" true then true else lw_retain old).

Definition init_template (s : gmap string Value) : option (option template) :=
  match s !! "topic-template"%string with
  | Some (VString text) => match parse_template text with Some tpl => Some (Some tpl) | None => None end
  | _ => Some (parse_template (projectName +:+ "/{{.Driver}}/{{.Tag}}"))
  end.

Definition init_commands (tpl : option template) (s : gmap string Value) (t : Mqtt) : Mqtt :=
  with_commands tpl (GetStringSetting s "command-topic" "") (GetStringSetting s "command-forward-topic" "")
    (GetStringSetting s "command-forward-secret" "") (parseCommandSettings s (mq_cmd t))
    (init_will s (mq_will t)) t.

Definition init_data (settings : Settings) (t : Mqtt) : option error * Mqtt :=
  match st_values settings !! "data-topic"%string with
  | Some (VString topic) =>
      if bool_decide (topic = EmptyString) then (None, t)
      else match New settings with
           | Ok p => (None, with_data topic (Some p) t)
           | Err e => (Some (ErrWrap "mqtt: invalid parser config: " e ""), with_data topic (mq_dataParser t) t)
           | Panic => (None, t)
           end
  | _ => (None, t)
  end.

Definition init_tls (s : gmap string Value) (t : Mqtt) : option error * Mqtt :=
  let f := mkFiles (GetStringSetting s "tls-cert-file" "") (GetStringSetting s "tls-key-file" "")
    (GetStringSetting s "tls-ca-file" "") in
  match buildTLSConfig (co_broker (mq_conn t)) f with
  | Ok cfg => (None, with_tls f cfg t)
  | Err e => (Some e, with_tls f (mq_tls t) t)
  | Panic => (None, with_tls f (mq_tls t) t)
  end.

(** [Init]; what was set before an error stays set. *)
Definition Init (now : Z) (rand : float) (settings : Settings) (t : Mqtt) : option error * Mqtt :=
  let s := st_values settings in
  match s !! "broker"%string with
  | Some (VString broker) =>
      let t := with_conn (init_conn (mq_name t) now rand broker s (mq_conn t)) t in
      match init_template s with
      | None => (Some (ErrFmt "mqtt: invalid topic template"), t)
      | Some tpl =>
          match init_data settings (init_commands tpl s t) with
          | (Some e, t) => (Some e, t)
          | (None, t) => init_tls s t
          end
      end
  | _ => (Some (ErrFmt "mqtt: broker is required"), t)
  end.

Definition known : gset string :=
  list_to_set ["broker"; "client-id"; "username"; "password"; "qos"; "retained"; "topic-template";
    "command-topic"; "command-secret"; "command-forward-topic"; "command-forward-secret";
    "command-max-skew"; "command-strict-replay"; "data-topic"; "parser"; "keep-alive"; "connect-timeout";
    "auto-reconnect"; "clean-session"; "connect-retry"; "connect-retry-interval"; "subscribe-timeout";
    "publish-timeout"; "disconnect-quiesce"; "tls-cert-file"; "tls-key-file"; "tls-ca-file";
    "will-topic"; "will-payload"; "will-qos"; "will-retain"]%string.

(** [ValidateSettings], on the keys of both kinds of settings. *)
Definition ValidateSettings (s : Settings) : option error :=
  RejectUnknownSettings (st_values s ∪ (const VNil <$> st_maps s)) known "mqtt".

(** ** Start, connection handlers and Stop *)

Definition with_run (c : ConnState) (client cancelled subC subD : bool) (t : Mqtt) : Mqtt :=
  mkMqtt (mq_name t) (mq_conn t) (mq_template t) (mq_commandTopic t) (mq_forwardTopic t)
    (mq_forwardSecret t) (mq_cmd t) (mq_will t) (mq_dataTopic t) (mq_dataParser t) (mq_tlsFiles t)
    (mq_tls t) c (mq_published t) (mq_failed t) (mq_received t) (mq_lastPublish t) (mq_dataCh t)
    (mq_dataCap t) client cancelled subC subD.

(** How a token ends: in time or not, with an error or without. *)
Inductive token := TokenTimeout | TokenError | TokenDone.

Definition connectMQTT (tok : token) (t : Mqtt) : option error * Mqtt :=
  let hard := negb (co_autoReconnect (mq_conn t)) && negb (co_connectRetry (mq_conn t)) in
  let failed e :=
    if hard then (Some (ErrFmt e), with_run StateError (mq_client t) (mq_cancelled t) (mq_subCommands t) (mq_subData t) t)
    else (None, t) in
  match tok with
  | TokenTimeout => failed ("mqtt: connect to " +:+ co_broker (mq_conn t) +:+ " timed out")
  | TokenError => failed ("mqtt: connect to " +:+ co_broker (mq_conn t) +:+ " failed")
  | TokenDone => (None, t)
  end.

(** [Start]; an error cancels the context. *)
Definition Start (tok : token) (t : Mqtt) : option error * Mqtt :=
  let '(err, t) :=
    if bool_decide (mq_commandTopic t <> EmptyString) && bool_decide (mc_commandSecret (mq_cmd t) = EmptyString)
    then (Some (ErrFmt ("mqtt transport " +:+ mq_name t +:+ ": command-topic " +:+ quote (mq_commandTopic t)
            +:+ " is configured but command-secret is empty")),
          with_run (mq_state t) (mq_client t) false (mq_subCommands t) (mq_subData t) t)
    else connectMQTT tok (with_run StateConnecting true false (mq_subCommands t) (mq_subData t) t) in
  match err with
  | Some e => (Some e, with_run (mq_state t) (mq_client t) true (mq_subCommands t) (mq_subData t) t)
  | None => (None, t)
  end.

(** The handler of a connection, with the two subscriptions; a subscription that
    times out or fails is logged, its callback stays registered. *)
Definition onConnect (t : Mqtt) : Mqtt :=
  with_run StateConnected (mq_client t) (mq_cancelled t)
    (mq_subCommands t || bool_decide (mq_commandTopic t <> EmptyString))
    (mq_subData t || bool_decide (mq_dataTopic t <> EmptyString)) t.

Definition onConnectionLost (t : Mqtt) : Mqtt :=
  with_run StateConnecting (mq_client t) (mq_cancelled t) (mq_subCommands t) (mq_subData t) t.

(** [Stop]; [connected] is [client.IsConnected()]. *)
Definition Stop (connected : bool) (t : Mqtt) : Mqtt :=
  let off := mq_client t && connected in
  with_run StateDisconnected (mq_client t) true
    (mq_subCommands t && negb (off && bool_decide (mq_commandTopic t <> EmptyString)))
    (mq_subData t && negb (off && bool_decide (mq_dataTopic t <> EmptyString))) t.

(** ** Topics *)

(** [strings.ReplaceAll(topic, "//", "/")]. *)
Fixpoint replace_slashes (s : string) : string :=
  match s with
  | String "/" (String "/" t) => String "/" (replace_slashes t)
  | String c t => String c (replace_slashes t)
  | EmptyString => EmptyString
  end.

(** The loop of [buildTopic], with fuel. *)
Fixpoint clean_topic (fuel : nat) (topic : string) : option string :=
  match fuel with
  | O => None
  | S fuel => if str_contains topic "//" then clean_topic fuel (replace_slashes topic) else Some topic
  end.

Definition buildTopic (t : Mqtt) (p : DataPoint) : option string :=
  match mq_template t with
  | Some tpl =>
      match exec_template tpl (dp_Driver p, dp_Device p, dp_Group p, dp_Tag p) with
      | Some topic => clean_topic (S (String.length topic)) topic
      | None => None
      end
  | None => None
  end.

(** ** Publishing *)

Definition mq_counted (pub fail : Z) (last : Z) (t : Mqtt) : Mqtt :=
  mkMqtt (mq_name t) (mq_conn t) (mq_template t) (mq_commandTopic t) (mq_forwardTopic t)
    (mq_forwardSecret t) (mq_cmd t) (mq_will t) (mq_dataTopic t) (mq_dataParser t) (mq_tlsFiles t)
    (mq_tls t) (mq_state t) (u64 (mq_published t + pub)) (u64 (mq_failed t + fail)) (mq_received t) last
    (mq_dataCh t) (mq_dataCap t) (mq_client t) (mq_cancelled t) (mq_subCommands t) (mq_subData t).

(** What the client does with one publish, and when it is done. *)
Record call := mkCall { ca_connected : bool; ca_token : token; ca_now : Z }.

(** The message a publish hands to the client; none is an error before it. *)
Definition message (t : Mqtt) (p : DataPoint) : option (string * string) :=
  match buildTopic t p, marshal_point p with
  | Some topic, Some payload => Some (topic, payload)
  | _, _ => None
  end.

Definition Publish (c : call) (p : DataPoint) (t : Mqtt) : option error * Mqtt :=
  let fail e := (Some (ErrFmt e), mq_counted 0 1 (mq_lastPublish t) t) in
  if negb (mq_client t && ca_connected c) then fail ("mqtt transport " +:+ mq_name t +:+ " is not connected")
  else
    match buildTopic t p with
    | None => fail "failed to build topic"%string
    | Some topic =>
        match marshal_point p with
        | None => fail "failed to marshal payload"%string
        | Some _ =>
            match ca_token c with
            | TokenTimeout => fail ("mqtt publish timed out for topic " +:+ topic)
            | TokenError => fail "mqtt publish failed"%string
            | TokenDone => (None, mq_counted 1 0 (ca_now c) t)
            end
        end
    end.

(** The goroutines of [PublishBatch], each of which publishes one point and
    stores its result, in the order they come to an end. *)
Fixpoint publishers (order : list nat) (cs : list call) (ps : list DataPoint) (t : Mqtt)
    : list (nat * option error) * Mqtt :=
  match order with
  | [] => ([], t)
  | i :: order =>
      match cs !! i, ps !! i with
      | Some c, Some p =>
          let '(err, t) := Publish c p t in
          let '(rs, t) := publishers order cs ps t in
          ((i, err) :: rs, t)
      | _, _ => publishers order cs ps t
      end
  end.

(** The first error by index. *)
Fixpoint first_error (n : nat) (k : nat) (rs : list (nat * option error)) : option error :=
  match k with
  | O => None
  | S k' =>
      let i := (n - k)%nat in
      match list_find (fun r : nat * option error => r.1 = i) rs with
      | Some (_, (_, Some e)) =>
          Some (ErrWrap ("publishBatch: point " +:+ itoa (Z.of_nat i + 1) +:+ "/" +:+ itoa (Z.of_nat n) +:+ ": ") e "")
      | _ => first_error n k' rs
      end
  end.

(** [PublishBatch]; [connected] is the state at its own check. *)
Definition PublishBatch (connected : bool) (order : list nat) (cs : list call) (ps : list DataPoint)
    (t : Mqtt) : option error * Mqtt :=
  let n := length ps in
  match ps with
  | [] => (None, t)
  | _ =>
      if negb (mq_client t && connected) then
        (Some (ErrFmt ("mqtt transport " +:+ mq_name t +:+ " is not connected")),
         mq_counted 0 (Z.of_nat n) (mq_lastPublish t) t)
      else
        let '(rs, t) := publishers order cs ps t in
        (first_error n n rs, t)
  end.

(** [ForwardCommand]. *)
Definition ForwardCommand (c : call) (cmd : WriteCommand) (t : Mqtt) : option error * Mqtt :=
  if bool_decide (mq_forwardTopic t = EmptyString) then
    (Some (ErrFmt ("no command-forward-topic configured on transport " +:+ mq_name t)), t)
  else if negb (mq_client t && ca_connected c) then
    (Some (ErrFmt ("mqtt transport " +:+ mq_name t +:+ " is not connected")), t)
  else
    match forward_payload (mq_forwardSecret t) (ca_now c) cmd with
    | None => (Some (ErrFmt "failed to marshal forwarded command"), t)
    | Some _ =>
        match ca_token c with
        | TokenTimeout => (Some (ErrFmt ("mqtt forward publish timed out for topic " +:+ mq_forwardTopic t)), t)
        | TokenError => (Some (ErrFmt "mqtt forward publish failed"), t)
        | TokenDone => (None, mq_counted 1 0 (ca_now c) t)
        end
    end.

(** ** Receiving *)

Definition mq_with_cmd (c : MQTTCommands) (t : Mqtt) : Mqtt :=
  mkMqtt (mq_name t) (mq_conn t) (mq_template t) (mq_commandTopic t) (mq_forwardTopic t)
    (mq_forwardSecret t) c (mq_will t) (mq_dataTopic t) (mq_dataParser t) (mq_tlsFiles t) (mq_tls t)
    (mq_state t) (mq_published t) (mq_failed t) (mq_received t) (mq_lastPublish t) (mq_dataCh t)
    (mq_dataCap t) (mq_client t) (mq_cancelled t) (mq_subCommands t) (mq_subData t).

Definition mq_queued (ch : list DataPoint) (received : Z) (t : Mqtt) : Mqtt :=
  mkMqtt (mq_name t) (mq_conn t) (mq_template t) (mq_commandTopic t) (mq_forwardTopic t)
    (mq_forwardSecret t) (mq_cmd t) (mq_will t) (mq_dataTopic t) (mq_dataParser t) (mq_tlsFiles t)
    (mq_tls t) (mq_state t) (mq_published t) (mq_failed t) received (mq_lastPublish t) ch (mq_dataCap t)
    (mq_client t) (mq_cancelled t) (mq_subCommands t) (mq_subData t).

(** The callback of [subscribeData]; without a parser it panics, which changes
    nothing here. *)
Definition onDataMessage (now : Z) (payload topic : string) (t : Mqtt) : Mqtt :=
  match mq_dataParser t with
  | Some p =>
      match Parse p now payload topic with
      | Ok point =>
          if decide (Z.of_nat (length (mq_dataCh t)) < mq_dataCap t)
          then mq_queued (mq_dataCh t ++ [point]) (u64 (mq_received t + 1)) t else t
      | _ => t
      end
  | None => t
  end.

(** [OnData]: nil without a data topic. *)
Definition OnData (t : Mqtt) : option (list DataPoint) :=
  if bool_decide (mq_dataTopic t = EmptyString) then None else Some (mq_dataCh t).

Definition Status (t : Mqtt) : TransportStatus :=
  mkTransportStatus (mq_name t) TypeName (mq_state t) (mq_published t) (mq_failed t) (mq_received t)
    (mq_lastPublish t) (if mq_client t then Z.of_nat (length (mc_commandCh (mq_cmd t))) else 0)
    (mc_droppedCommands (mq_cmd t)).

(** ** What happens to a transport *)

Inductive mqtt_event :=
| Connected
| ConnectionLost
| CommandMessage (now : Z) (payload : string)
| DataMessage (now : Z) (payload topic : string)
| PublishPoint (c : call) (p : DataPoint)
| Forward (c : call) (cmd : WriteCommand)
| Evict (now : Z)
| TakeCommandCh
| TakeDataCh
| StopTransport (connected : bool).

(** One of them; a command message that is accepted gives its command.  A message
    comes only while its topic is subscribed. *)
Definition mqtt_step (e : mqtt_event) (t : Mqtt) : Mqtt * option WriteCommand :=
  match e with
  | Connected => (onConnect t, None)
  | ConnectionLost => (onConnectionLost t, None)
  | CommandMessage now payload =>
      if mq_subCommands t then
        let '(c, r) := handleCommandMessage iter now payload (mq_cmd t) in (mq_with_cmd c t, r)
      else (t, None)
  | DataMessage now payload topic => (if mq_subData t then onDataMessage now payload topic t else t, None)
  | PublishPoint c p => ((Publish c p t).2, None)
  | Forward c cmd => ((ForwardCommand c cmd t).2, None)
  | Evict now => (mq_with_cmd (step iter (EvictTick now) (mq_cmd t)).1 t, None)
  | TakeCommandCh => (mq_with_cmd (step iter TakeCommand (mq_cmd t)).1 t, None)
  | TakeDataCh => (mq_queued (drop 1 (mq_dataCh t)) (mq_received t) t, None)
  | StopTransport connected => (Stop connected t, None)
  end.

Fixpoint mqtt_run (es : list mqtt_event) (t : Mqtt) : Mqtt :=
  match es with [] => t | e :: es => mqtt_run es (mqtt_step e t).1 end.
End transport.

(** ** Topics have no empty segments *)

(** Runs of slashes as one slash: what the loop computes. *)
Fixpoint collapse (s : string) : string :=
  match s with
  | String c t =>
      match c, t with
      | "/"%char, String "/" _ => collapse t
      | _, _ => String c (collapse t)
      end
  | EmptyString => EmptyString
  end.

Fixpoint doubled (s : string) : bool :=
  match s with
  | String "/" (String "/" _) => true
  | String _ t => doubled t
  | EmptyString => false
  end.

Lemma slash_dec (c : ascii) : c = "/"%char \/ c <> "/"%char.
Proof. destruct (decide (c = "/"%char)); auto. Qed.

Lemma collapse_other c t : c <> "/"%char -> collapse (String c t) = String c (collapse t).
Proof. intros Hc. destruct c as [[] [] [] [] [] [] [] []]; done. Qed.

Lemma collapse_slash d t : d <> "/"%char -> collapse (String "/" (String d t)) = String "/" (collapse (String d t)).
Proof. intros Hd. destruct d as [[] [] [] [] [] [] [] []]; done. Qed.

Lemma doubled_other c t : c <> "/"%char -> doubled (String c t) = doubled t.
Proof. intros Hc. destruct c as [[] [] [] [] [] [] [] []]; done. Qed.

Lemma doubled_slash d t : d <> "/"%char -> doubled (String "/" (String d t)) = doubled (String d t).
Proof. intros Hd. destruct d as [[] [] [] [] [] [] [] []]; done. Qed.

Lemma replace_other c t : c <> "/"%char -> replace_slashes (String c t) = String c (replace_slashes t).
Proof. intros Hc. destruct c as [[] [] [] [] [] [] [] []]; done. Qed.

Lemma replace_slash d t :
  d <> "/"%char -> replace_slashes (String "/" (String d t)) = String "/" (replace_slashes (String d t)).
Proof. intros Hd. destruct d as [[] [] [] [] [] [] [] []]; done. Qed.

(** Induction along the three cases of the loops. *)
Lemma slash_ind (P : string -> Prop) :
  P EmptyString -> P "/"%string ->
  (forall c t, c <> "/"%char -> P t -> P (String c t)) ->
  (forall d t, d <> "/"%char -> P (String d t) -> P (String "/" (String d t))) ->
  (forall t, P t -> P (String "/" t) -> P (String "/" (String "/" t))) ->
  forall s, P s.
Proof.
  intros H0 H1 Hc Hd Hs. apply string_len_ind. intros s IH.
  destruct s as [|c t]; [done|]. destruct (slash_dec c) as [->|]; [|apply Hc; [done|apply IH; simpl; lia]].
  destruct t as [|d t]; [done|]. destruct (slash_dec d) as [->|].
  - apply Hs; apply IH; simpl; lia.
  - apply Hd; [done|]. apply IH. simpl. lia.
Qed.

Lemma str_contains_cons c s sub :
  str_contains (String c s) sub = String.prefix sub (String c s) || str_contains s sub.
Proof.
  unfold str_contains. cbn [String.index]. destruct (String.prefix sub (String c s)); [done|].
  simpl. by destruct (String.index 0 sub s).
Qed.

Lemma prefix_other c d s : c <> d -> String.prefix (String d (String d EmptyString)) (String c s) = false.
Proof. intros Hc. simpl. by destruct (ascii_dec d c) as [->|]. Qed.

Lemma prefix_second c d s : c <> d -> String.prefix (String d (String d EmptyString)) (String d (String c s)) = false.
Proof. intros Hc. simpl. destruct (ascii_dec d d); [|done]. by destruct (ascii_dec d c) as [->|]. Qed.

Lemma str_contains_doubled s : str_contains s "//" = doubled s.
Proof.
  induction s as [| |c t Hc IH|d t Hd IH|t _ _] using slash_ind; try done.
  - by rewrite str_contains_cons, prefix_other, doubled_other.
  - by rewrite str_contains_cons, prefix_second, doubled_slash.
  - rewrite str_contains_cons. cbn. by destruct t.
Qed.

Lemma collapse_replace s : collapse (replace_slashes s) = collapse s.
Proof.
  assert (collapse (replace_slashes s) = collapse s
    /\ collapse (String "/" (replace_slashes s)) = collapse (String "/" s)) as [? _]; [|done].
  induction s as [| |c t Hc [IH _]|d t Hd [IH1 IH2]|t [IH1 IH2] _] using slash_ind; try done.
  - rewrite replace_other by done. rewrite !collapse_other, !collapse_slash by done.
    by rewrite !collapse_other, IH by done.
  - rewrite replace_slash by done. split; [exact IH2|]. simpl in *. by rewrite IH2.
Qed.

Lemma collapse_clean s : doubled s = false -> collapse s = s.
Proof.
  induction s as [| |c t Hc IH|d t Hd IH|t _ _] using slash_ind; try done.
  - rewrite doubled_other, collapse_other by done. intros H. by rewrite IH.
  - rewrite doubled_slash, collapse_slash by done. intros H. by rewrite IH.
Qed.

Lemma collapse_doubled s : doubled (collapse s) = false.
Proof.
  assert (doubled (collapse s) = false /\ doubled (collapse (String "/" s)) = false) as [? _]; [|done].
  induction s as [| |c t Hc [IH _]|d t Hd [IH1 IH2]|t [_ IH] [_ IH2]] using slash_ind; try done.
  - rewrite collapse_slash, collapse_other, doubled_slash, doubled_other by done. done.
Qed.

Lemma replace_shorter s :
  (String.length (replace_slashes s) <= String.length s)%nat
  /\ (doubled s = true -> (String.length (replace_slashes s) < String.length s)%nat).
Proof.
  induction s as [| |c t Hc [IH1 IH2]|d t Hd [IH1 IH2]|t [IH1 IH2] _] using slash_ind; try done.
  - rewrite replace_other, doubled_other by done. simpl. split; [lia|]. intros H. specialize (IH2 H). lia.
  - rewrite replace_slash, doubled_slash by done. cbn [String.length] in *. split; [lia|]. intros H.
    specialize (IH2 H). lia.
  - cbn [replace_slashes String.length]. split; [lia|]. intros _. lia.
Qed.

(** The loop ends within as many turns as the topic has bytes. *)
Lemma clean_topic_collapse fuel s :
  (String.length s < fuel)%nat -> clean_topic fuel s = Some (collapse s).
Proof.
  revert s. induction fuel as [|fuel IH]; intros s Hf; [lia|]. cbn [clean_topic].
  rewrite str_contains_doubled. destruct (doubled s) eqn:E.
  - destruct (replace_shorter s) as [_ Hs]. specialize (Hs E). rewrite IH by lia. by rewrite collapse_replace.
  - by rewrite collapse_clean.
Qed.

Section theorems.
Context `{GoArch} `{TopicTemplates} `{Urls} `{CertFiles} `{Gjson} `{Texts} `{TimeCodec} `{JsonEnc}.
Context (iter : gmap string Z -> list (string * Z)).

(** Building a topic ends for every template and point: the cleaning
    loop takes at most as many turns as the topic has bytes.  The topic is what
    the template gives with each run of slashes collapsed into one, so that no
    segment inside it is empty. *)
Theorem topic_clean t p tpl :
  mq_template t = Some tpl ->
  buildTopic t p = collapse <$> exec_template tpl (dp_Driver p, dp_Device p, dp_Group p, dp_Tag p)
  /\ forall topic, buildTopic t p = Some topic -> str_contains topic "//" = false.
Proof.
  intros Ht. assert (buildTopic t p
    = collapse <$> exec_template tpl (dp_Driver p, dp_Device p, dp_Group p, dp_Tag p)) as E.
  { unfold buildTopic. rewrite Ht. destruct (exec_template _ _) as [s|]; [|done].
    rewrite clean_topic_collapse by lia. done. }
  split; [done|]. rewrite E. intros topic (s & _ & ->)%fmap_Some.
  rewrite str_contains_doubled. apply collapse_doubled.
Qed.

(** ** Only signed commands *)

(** The secret is the configured one and commands are subscribed only under it. *)
Record guarded (secret : string) (t : Mqtt) : Prop := {
  gu_secret : mc_commandSecret (mq_cmd t) = secret;
  gu_topic : mq_commandTopic t <> EmptyString -> secret <> EmptyString;
  gu_sub : mq_subCommands t = true -> mq_commandTopic t <> EmptyString;
}.

Lemma step_secret e c : mc_commandSecret (step iter e c).1 = mc_commandSecret c.
Proof. pose proof (step_settings iter e c) as Hs. by injection Hs. Qed.

Lemma publish_same c p t : exists a b l, (Publish c p t).2 = mq_counted a b l t.
Proof. unfold Publish. repeat case_match; by do 3 eexists. Qed.

Lemma forward_same c cmd t :
  (ForwardCommand c cmd t).2 = t \/ exists a b l, (ForwardCommand c cmd t).2 = mq_counted a b l t.
Proof. unfold ForwardCommand. repeat case_match; try (by left); right; by do 3 eexists. Qed.

Lemma guarded_step secret e t : guarded secret t -> guarded secret (mqtt_step iter e t).1.
Proof.
  intros [Hs Ht Hsub]. destruct e as [| |now payload|now payload topic|c p|c cmd|now| | |conn]; simpl.
  - split; try done. simpl. intros [?|?%bool_decide_eq_true_1]%orb_true_iff; auto.
  - by split.
  - destruct (mq_subCommands t) eqn:E; [|split; simpl; [done|done|by rewrite E]].
    pose proof (step_secret (Message now payload) (mq_cmd t)) as Hstep. simpl in Hstep.
    destruct (handleCommandMessage iter now payload (mq_cmd t)) as [c r]. simpl in *.
    split; simpl; [congruence|done|by rewrite E].
  - case_match; [|by split]. unfold onDataMessage. repeat case_match; by split.
  - destruct (publish_same c p t) as (a & b & l & ->). by split.
  - destruct (forward_same c cmd t) as [->|(a & b & l & ->)]; by split.
  - split; [|done|done]. simpl. exact Hs.
  - split; [|done|done]. simpl. exact Hs.
  - by split.
  - split; try done. simpl. intros [? _]%andb_true_iff. auto.
Qed.

Lemma guarded_run secret es t : guarded secret t -> guarded secret (mqtt_run iter es t).
Proof. revert t. induction es as [|e es IH]; intros t Ht; [done|]. simpl. by apply IH, guarded_step. Qed.

Lemma init_data_same s t e t' :
  init_data s t = (e, t') -> mq_cmd t' = mq_cmd t /\ mq_subCommands t' = mq_subCommands t.
Proof. unfold init_data. intros Hi. repeat case_match; by injection Hi as <- <-. Qed.

Lemma init_tls_same s t e t' :
  init_tls s t = (e, t') -> mq_cmd t' = mq_cmd t /\ mq_subCommands t' = mq_subCommands t.
Proof. unfold init_tls. intros Hi. case_match; by injection Hi as <- <-. Qed.

Lemma init_secret now rand s t t' :
  Init now rand s t = (None, t') ->
  mc_commandSecret (mq_cmd t') = GetStringSetting (st_values s) "command-secret" ""
  /\ mq_subCommands t' = mq_subCommands t.
Proof.
  unfold Init. intros Hi. destruct (st_values s !! _) as [[]|]; try done.
  destruct (init_template _) as [tpl|]; [|done].
  destruct (init_data _ _) as [[e|] t1] eqn:Hd; [done|]. apply init_data_same in Hd as [Ec Es].
  apply init_tls_same in Hi as [-> ->]. by rewrite Ec, Es.
Qed.

Lemma start_guarded tok t t' :
  Start tok t = (None, t') -> mq_subCommands t = false -> guarded (mc_commandSecret (mq_cmd t)) t'.
Proof.
  intros Hs Hsub. unfold Start in Hs.
  destruct (bool_decide (mq_commandTopic t <> EmptyString) && _) eqn:E; [done|].
  assert (mq_commandTopic t <> EmptyString -> mc_commandSecret (mq_cmd t) <> EmptyString) as Hg.
  { intros Ht Hn. rewrite !bool_decide_eq_true_2 in E by done. done. }
  unfold connectMQTT in Hs. repeat case_match; simplify_eq; split; simpl; try done; by rewrite Hsub.
Qed.

(** C17.  A transport created, initialised and started without an error:
    whatever happens to it, messages in any order, lost and new connections,
    publishes, evictions and stops, a message becomes a command only if it
    carries the HMAC-SHA256 signature of its canonical bytes under the command
    secret of the settings, which is not empty, with a time stamp the skew admits
    and not in the replay window. *)
Theorem only_signed_commands name buf now rand s t0 tok t1 es at_ payload t' cmd :
  Init now rand s (NewMQTTTransport name buf) = (None, t0) -> Start tok t0 = (None, t1) ->
  mqtt_step iter (CommandMessage at_ payload) (mqtt_run iter es t1) = (t', Some cmd) ->
  let secret := GetStringSetting (st_values s) "command-secret" "" in
  secret <> EmptyString
  /\ extractCommandSignature payload = hmac_hex secret (commandSigningBytes payload)
  /\ authentic at_ payload (mq_cmd (mqtt_run iter es t1)) /\ unmarshal_cmd payload = Some cmd.
Proof.
  intros Hi Hs Hm. cbv zeta. apply init_secret in Hi as [Hsec Hsub].
  apply start_guarded in Hs as Hg; [|done]. apply (guarded_run _ es) in Hg as [Gs Gt Gu].
  simpl in Hm. set (t := mqtt_run iter es t1) in *. destruct (mq_subCommands t) eqn:E; [|done].
  rewrite Hsec in Gs, Gt. set (secret := GetStringSetting _ _ _) in *.
  destruct (handleCommandMessage iter at_ payload (mq_cmd t)) as [c r] eqn:Hh. injection Hm as <- ->.
  assert (secret <> EmptyString) as Hne by (apply Gt, Gu; done).
  apply commands_authenticated in Hh as [Ha Hu]; [|by rewrite Gs].
  split_and!; try done. rewrite (au_signature _ _ _ Ha). by rewrite Gs.
Qed.
End theorems.

(** ** Encryption *)

Section tls_theorems.
Context `{Urls} `{CertFiles}.

(** The pool of a readable file of certificates. *)
Definition cert_pool (caFile : string) : option string :=
  match read_pem caFile with inl pem => parse_pool pem | inr _ => None end.

(** The configuration of a TLS connection, when the files are usable. *)
Definition tls_for (host : string) (f : tlsFiles) : option tlsConfig :=
  let ca := if decide (tf_ca f = EmptyString) then Some None else Some <$> cert_pool (tf_ca f) in
  let certs :=
    if decide (tf_cert f = EmptyString /\ tf_key f = EmptyString) then Some []
    else if decide (tf_cert f = EmptyString \/ tf_key f = EmptyString) then None
    else match key_pair (tf_cert f) (tf_key f) with inl c => Some [c] | inr _ => None end in
  ca ≫= fun ca => certs ≫= fun certs => Some (mkTLS host ca certs).

Lemma loadTLSFiles_exact host f :
  match loadTLSFiles f (mkTLS host None []) with
  | Ok cfg => tls_for host f = Some cfg
  | Err _ => tls_for host f = None
  | Panic => False
  end.
Proof.
  unfold loadTLSFiles, tls_for, LoadCertPool, LoadClientCert, cert_pool. destruct f as [cert key ca]; simpl.
  destruct (read_pem ca) as [pem|]; [destruct (parse_pool pem)|]; destruct (key_pair cert key);
    repeat (case_bool_decide || case_decide; try (exfalso; tauto)); simpl; try done;
    repeat (case_bool_decide || case_decide; try (exfalso; tauto)); done.
Qed.

Definition no_files (f : tlsFiles) : Prop :=
  tf_ca f = EmptyString /\ tf_cert f = EmptyString /\ tf_key f = EmptyString.

Definition secure_scheme (broker : string) : option string :=
  match url_parse (normalizeBrokerURL broker) with
  | Some (scheme, host) => if decide (to_lower scheme ∈ tlsSchemes) then Some host else None
  | None => None
  end.

(** A connection is encrypted exactly when the scheme of the broker says
    so: with a TLS scheme and usable files the configuration has the broker's host
    name, the given authority and the client certificate; without one, files are
    refused rather than ignored, and only a broker without files is plaintext. *)
Theorem tls_exact broker f :
  match buildTLSConfig broker f with
  | Ok (Some cfg) => exists host, secure_scheme broker = Some host /\ tls_for host f = Some cfg
  | Ok None => secure_scheme broker = None /\ no_files f
  | Err _ => (secure_scheme broker = None /\ ~ no_files f)
             \/ exists host, secure_scheme broker = Some host /\ tls_for host f = None
  | Panic => False
  end.
Proof.
  unfold buildTLSConfig, secure_scheme.
  set (anyFile := _ || _ || _).
  assert (anyFile = true <-> ~ no_files f) as Hany.
  { unfold anyFile, no_files. rewrite !orb_true_iff, !bool_decide_eq_true. destruct (decide (tf_ca f = EmptyString)),
      (decide (tf_cert f = EmptyString)), (decide (tf_key f = EmptyString)); naive_solver. }
  assert (no_files f \/ ~ no_files f) as Hdec
    by (destruct anyFile; [right; by apply Hany|left; unfold no_files in *; apply dec_stable; naive_solver]).
  clearbody anyFile.
  destruct (url_parse _) as [[scheme host]|]; simpl.
  - pose proof (loadTLSFiles_exact host f) as Hl.
    rewrite (bool_decide_decide (to_lower scheme ∈ tlsSchemes)). case_decide; simpl.
    + destruct (loadTLSFiles _ _); simpl; eauto.
    + destruct anyFile; simpl; [|naive_solver]. destruct (loadTLSFiles _ _); naive_solver.
  - destruct anyFile; simpl; naive_solver.
Qed.
End tls_theorems.

Lemma length_filter_all {A} (P : A -> Prop) `{!forall x, Decision (P x)} l :
  length (filter P l) = length l <-> Forall P l.
Proof.
  induction l as [|x l IH]; [by split|]. rewrite filter_cons, Forall_cons. pose proof (length_filter P l).
  case_decide; simpl; split; try (intros; lia || naive_solver lia).
Qed.

Section publish_theorems.
Context `{GoArch} `{TopicTemplates} `{Urls} `{CertFiles} `{Gjson} `{Texts} `{TimeCodec} `{JsonEnc}.
Context (iter : gmap string Z -> list (string * Z)).

(** ** Concurrent publishing *)

(** Whether a point is sent, a fact of the transport's settings and of the call. *)
Definition sent (t : Mqtt) (c : call) (p : DataPoint) : bool :=
  mq_client t && ca_connected c
  && match message t p, ca_token c with Some _, TokenDone => true | _, _ => false end.

Lemma publish_sent c p t :
  Publish c p t = (if sent t c p then None else (Publish c p t).1,
                   if sent t c p then mq_counted 1 0 (ca_now c) t else mq_counted 0 1 (mq_lastPublish t) t)
  /\ ((Publish c p t).1 = None <-> sent t c p = true).
Proof.
  unfold Publish, sent, message. destruct (mq_client t && ca_connected c); simpl; [|done].
  destruct (buildTopic t p); simpl; [|done]. destruct (marshal_point p); simpl; [|done].
  by destruct (ca_token c).
Qed.

(** The point at a place: whether it is sent, and its error. *)
Definition sent_at (t : Mqtt) (cs : list call) (ps : list DataPoint) (i : nat) : bool :=
  match cs !! i, ps !! i with Some c, Some p => sent t c p | _, _ => false end.

Definition error_at (t : Mqtt) (cs : list call) (ps : list DataPoint) (i : nat) : option error :=
  match cs !! i, ps !! i with Some c, Some p => (Publish c p t).1 | _, _ => None end.

Definition sent_count (t : Mqtt) (cs : list call) (ps : list DataPoint) (l : list nat) : nat :=
  length (filter (fun i => sent_at t cs ps i = true) l).

Lemma sent_count_cons t cs ps i l :
  sent_count t cs ps (i :: l) = ((if sent_at t cs ps i then 1 else 0) + sent_count t cs ps l)%nat.
Proof. unfold sent_count. rewrite filter_cons. destruct (sent_at t cs ps i); by case_decide. Qed.

Lemma publish_counted c p a b l t : (Publish c p (mq_counted a b l t)).1 = (Publish c p t).1.
Proof.
  unfold Publish. change (buildTopic (mq_counted a b l t) p) with (buildTopic t p).
  change (mq_client (mq_counted a b l t)) with (mq_client t). destruct (mq_client t && ca_connected c); [|done].
  destruct (buildTopic t p), (marshal_point p); try done. by destruct (ca_token c).
Qed.

Lemma mq_counted_twice a b l a' b' l' t :
  mq_counted a b l (mq_counted a' b' l' t) = mq_counted (a' + a) (b' + b) l t.
Proof. unfold mq_counted. simpl. by rewrite !u64_add, !Z.add_assoc. Qed.

Lemma publishers_exact order cs ps : forall t,
  length cs = length ps -> Forall (fun i => i < length ps)%nat order ->
  0 <= mq_published t < 2 ^ 64 -> 0 <= mq_failed t < 2 ^ 64 ->
  let k := sent_count t cs ps order in
  exists last, publishers order cs ps t
    = ((fun i => (i, error_at t cs ps i)) <$> order,
       mq_counted (Z.of_nat k) (Z.of_nat (length order - k)) last t).
Proof.
  induction order as [|i order IH]; intros t Hc Ho Hp Hf.
  { exists (mq_lastPublish t). simpl. f_equal. destruct t; unfold mq_counted; simpl in *.
    by rewrite !Z.add_0_r, !wrapu_small by done. }
  inversion Ho as [|? ? Hi Ho']; subst.
  destruct (lookup_lt_is_Some_2 ps i Hi) as [p Ep]. destruct (lookup_lt_is_Some_2 cs i) as [c Ec]; [lia|].
  cbn [publishers]. rewrite Ep, Ec. destruct (publish_sent c p t) as [Epub Hiff].
  set (t1 := if sent t c p then mq_counted 1 0 (ca_now c) t else mq_counted 0 1 (mq_lastPublish t) t) in *.
  assert (exists a b l, t1 = mq_counted a b l t) as (a & b & l & Et1)
    by (unfold t1; destruct (sent t c p); eauto).
  assert (forall j, sent_at t1 cs ps j = sent_at t cs ps j) as Hs by (intros j; by rewrite Et1).
  assert (forall j, error_at t1 cs ps j = error_at t cs ps j) as He.
  { intros j. rewrite Et1. unfold error_at. destruct (cs !! j), (ps !! j); try done. apply publish_counted. }
  destruct (IH t1) as [last E]; [done|done|rewrite Et1; by apply wrapu_range|rewrite Et1; by apply wrapu_range|].
  rewrite Epub, E. exists last.
  assert (sent_count t1 cs ps order = sent_count t cs ps order) as Hk
    by (unfold sent_count; f_equal; apply list_filter_iff; intros; by rewrite Hs).
  assert (sent_count t cs ps order <= length order)%nat as Hle by apply length_filter.
  f_equal.
  - cbn [fmap list_fmap]. f_equal.
    + unfold error_at. rewrite Ec, Ep. by destruct (sent t c p) eqn:Esent; [rewrite (proj2 Hiff)|].
    + apply list_fmap_ext. intros. by rewrite He.
  - rewrite Hk, sent_count_cons.
    assert (sent_at t cs ps i = sent t c p) as -> by (unfold sent_at; by rewrite Ec, Ep).
    unfold t1. destruct (sent t c p); rewrite mq_counted_twice; cbn [length]; f_equal; lia.
Qed.

(** Every point is sent exactly if none has an error. *)
Lemma all_sent t cs ps : length cs = length ps ->
  (forall i, (length ps - length ps <= i < length ps)%nat -> error_at t cs ps i = None)
  <-> sent_count t cs ps (seq 0 (length ps)) = length ps.
Proof.
  intros Hl. assert (forall i, (i < length ps)%nat -> error_at t cs ps i = None <-> sent_at t cs ps i = true) as Hi.
  { intros i Hi. destruct (lookup_lt_is_Some_2 ps i Hi) as [p Ep].
    destruct (lookup_lt_is_Some_2 cs i) as [c Ec]; [lia|]. unfold error_at, sent_at. rewrite Ep, Ec.
    apply publish_sent. }
  assert (sent_count t cs ps (seq 0 (length ps)) = length ps
    <-> Forall (fun i => sent_at t cs ps i = true) (seq 0 (length ps))) as ->.
  { pose proof (length_filter_all (fun i => sent_at t cs ps i = true) (seq 0 (length ps))) as E.
    by rewrite length_seq in E. }
  rewrite Forall_forall. split.
  - intros H' i ?%elem_of_seq. apply Hi; [lia|]. apply H'. lia.
  - intros H' i Hr. apply Hi; [lia|]. apply H', elem_of_seq. lia.
Qed.

Lemma list_find_place {A} (f : nat -> A) l i :
  i ∈ l -> exists j, list_find (fun r : nat * A => r.1 = i) ((fun i => (i, f i)) <$> l) = Some (j, (i, f i)).
Proof.
  induction l as [|x l IH]; intros Hi; [by apply not_elem_of_nil in Hi|]. rewrite fmap_cons.
  cbn [list_find]. case_decide as E; simpl in E.
  - subst. by eexists.
  - apply elem_of_cons in Hi as [->|Hi]; [done|]. destruct (IH Hi) as [j ->]. by eexists.
Qed.

Lemma first_error_none n k (f : nat -> option error) order :
  (k <= n)%nat -> order ≡ₚ seq 0 n ->
  first_error n k ((fun i => (i, f i)) <$> order) = None
  <-> forall i, (n - k <= i < n)%nat -> f i = None.
Proof.
  intros Hk Ho. induction k as [|k IH]; [split; [intros _ i Hi; lia|done]|]. cbn [first_error].
  destruct (list_find_place f order (n - S k)) as [j ->].
  { rewrite Ho. apply elem_of_seq. lia. }
  destruct (f (n - S k)%nat) as [e|] eqn:Ef.
  - split; [done|]. intros Hall. rewrite Hall in Ef by lia. done.
  - rewrite IH by lia. split; intros Hall i Hi; [|apply Hall; lia].
    destruct (decide (i = n - S k)%nat) as [->|]; [done|]. apply Hall. lia.
Qed.

(** A batch of a connected transport, its points published
    concurrently: in whatever order the publishes end, each point sent is counted
    as published and each other one as failed, nothing else of the transport
    changes but the time of the last publish, and the batch succeeds exactly if
    every point was sent. *)
Theorem mqtt_batch_exact order cs ps t :
  ps <> [] -> mq_client t = true -> length cs = length ps -> order ≡ₚ seq 0 (length ps) ->
  0 <= mq_published t < 2 ^ 64 -> 0 <= mq_failed t < 2 ^ 64 ->
  let n := length ps in
  let k := sent_count t cs ps (seq 0 n) in
  let '(err, t') := PublishBatch true order cs ps t in
  (err = None <-> k = n) /\ exists last, t' = mq_counted (Z.of_nat k) (Z.of_nat (n - k)) last t.
Proof.
  intros Hne Hcl Hl Ho Hp Hf. cbv zeta.
  assert (Forall (fun i => i < length ps)%nat order) as HF
    by (rewrite Ho; apply Forall_forall; intros i ?%elem_of_seq; lia).
  destruct (publishers_exact order cs ps t Hl HF Hp Hf) as [last E]. cbv zeta in E.
  assert (sent_count t cs ps order = sent_count t cs ps (seq 0 (length ps))) as Hk
    by (unfold sent_count; by rewrite Ho).
  assert (length order = length ps) as Hlo by (by rewrite Ho, length_seq).
  unfold PublishBatch. rewrite Hcl. simpl negb. cbn iota. rewrite E, Hk, Hlo.
  destruct ps as [|p0 ps0] eqn:Eps; [done|]. rewrite <- Eps in *. clear Eps.
  split; [|by eexists]. rewrite first_error_none by done. apply all_sent; done.
Qed.

(** A point one node publishes without an error and another receives
    on its data topic, with the default parser and room in the channel, is queued
    there as it was. *)
Theorem mqtt_point_received c p t now r :
  (Publish c p t).1 = None -> pt_ok p -> dp_Timestamp p <> zero_time ->
  mq_subData r = true -> mq_dataParser r = Some defaultParser ->
  Z.of_nat (length (mq_dataCh r)) < mq_dataCap r ->
  exists topic payload, message t p = Some (topic, payload)
    /\ mqtt_step iter (DataMessage now payload topic) r
       = (mq_queued (mq_dataCh r ++ [p]) (u64 (mq_received r + 1)) r, None).
Proof.
  intros Hp Hok Ht Hsub Hpar Hroom. destruct (publish_sent c p t) as [_ Hs]. apply Hs in Hp.
  unfold sent, message in *. destruct (buildTopic t p) as [topic|]; [|by rewrite andb_false_r in Hp].
  destruct (point_json_ok p Hok) as (d & Hd & Hw & Hn & Hu).
  unfold marshal_point in *. rewrite Hd. exists topic, (print d). split; [done|].
  simpl. rewrite Hsub. unfold onDataMessage. rewrite Hpar.
  rewrite (default_parse_point p) by (done || (unfold maxNestingDepth; lia)).
  by rewrite decide_True.
Qed.
End publish_theorems.

(** ** Examples *)

Module Examples.

(** A template is its own text, of which a topic of driver and tag is made. *)
#[export] Instance plain_templates : TopicTemplates :=
  {| template := string; parse_template := Some;
     exec_template _ '(driver, _, _, tag) := Some ("corec/" +:+ driver +:+ "//" +:+ tag) |}.
#[export] Instance one_url : Urls := fun _ => Some ("mqtts", "broker")%string.
#[export] Instance no_certs : CertFiles := {|
  read_pem _ := inr (ErrNew "no such file"); parse_pool _ := None; key_pair _ _ := inr (ErrNew "no such file") |}.

Definition settings : Settings :=
  mkSettings {["broker" := VString "mqtts://broker"; "command-topic" := VString "cmd";
    "command-secret" := VString Commands.Demo.secret; "data-topic" := VString "data"]} ∅.
End Examples.

Import Examples.
#[local] Existing Instances PointJson.Examples.nanos PointJson.Examples.no_floats amd64_f2i
  Parser.Examples.no_paths Parser.Examples.no_texts.

Module Nodes.
Definition fresh : Mqtt := NewMQTTTransport "mqtt" 4.
Definition initialised : Mqtt := (Init 0 f_zero settings fresh).2.
Definition started : Mqtt := (Start TokenDone initialised).2.
Definition connected : Mqtt := onConnect started.
Definition ok : call := mkCall true TokenDone 9.
Definition late : call := mkCall true TokenTimeout 9.
Definition accept (es : list mqtt_event) (now : Z) (payload : string) : Mqtt * option WriteCommand :=
  mqtt_step Commands.Demo.iter (CommandMessage now payload) (mqtt_run Commands.Demo.iter es started).
End Nodes.

Lemma topic_clean_witness :
  buildTopic Nodes.connected PointJson.Examples.point = Some "corec/plc1/count"%string.
Proof.
  destruct (topic_clean Nodes.connected PointJson.Examples.point "corec/{{.Driver}}/{{.Tag}}"%string) as [-> _];
    vm_compute; reflexivity.
Defined.

Lemma only_signed_commands_witness :
  (Nodes.accept [Connected] Commands.Demo.now Commands.Demo.payload).2 = Some Commands.Demo.cmd
  /\ extractCommandSignature Commands.Demo.payload
     = hmac_hex "s3cret" (commandSigningBytes Commands.Demo.payload).
Proof.
  assert ((Nodes.accept [Connected] Commands.Demo.now Commands.Demo.payload).2 = Some Commands.Demo.cmd) as E
    by (vm_compute; reflexivity).
  split; [exact E|].
  refine (proj1 (proj2 (only_signed_commands Commands.Demo.iter "mqtt" 4 0 f_zero settings Nodes.initialised
    TokenDone Nodes.started [Connected] Commands.Demo.now Commands.Demo.payload
    (Nodes.accept [Connected] Commands.Demo.now Commands.Demo.payload).1 Commands.Demo.cmd _ _ _))).
  - vm_compute. reflexivity.
  - vm_compute. reflexivity.
  - rewrite <- E. apply surjective_pairing.
Defined.

Lemma mqtt_batch_exact_witness :
  (PublishBatch true [1; 0]%nat [Nodes.ok; Nodes.late]
     [PointJson.Examples.point; PointJson.Examples.point] Nodes.connected).1 <> None.
Proof.
  pose proof (mqtt_batch_exact [1; 0]%nat [Nodes.ok; Nodes.late]
    [PointJson.Examples.point; PointJson.Examples.point] Nodes.connected) as W.
  cbv zeta in W. destruct (PublishBatch _ _ _ _ _) as [err t']. destruct W as [W _].
  - discriminate.
  - vm_compute. reflexivity.
  - reflexivity.
  - apply perm_swap.
  - vm_compute. split; [discriminate|reflexivity].
  - vm_compute. split; [discriminate|reflexivity].
  - intros E. apply W in E. vm_compute in E. discriminate.
Defined.

Lemma mqtt_point_received_witness :
  exists topic payload, message Nodes.connected PointJson.Examples.point = Some (topic, payload)
    /\ mqtt_step Commands.Demo.iter (DataMessage 3 payload topic) Nodes.connected
       = (mq_queued (mq_dataCh Nodes.connected ++ [PointJson.Examples.point])
            (u64 (mq_received Nodes.connected + 1)) Nodes.connected, None).
Proof.
  apply (mqtt_point_received Commands.Demo.iter Nodes.ok).
  - vm_compute. reflexivity.
  - apply PointJson.Examples.point_ok.
  - discriminate.
  - vm_compute. reflexivity.
  - vm_compute. reflexivity.
  - vm_compute. reflexivity.
Defined.
