(* ===== verification/Notify.v ===== *)
(** * The notification transport ([transport/notify])

    Settings, the four channels with the messages they build, the cooldown and
    publishing.  Templates ([text/template]) and the text of a value are
    parameters; how a delivery ends is an input.

    The theorems show that notifications of one rule are a full window apart and
    are suppressed for no other reason, what publishing a batch counts, and that
    a chat message carries the rendered text; further that a failed notification
    suppresses its own retries, that no validated configuration of the email
    channel initialises, and that a subject can add headers to a mail. *)

From Stdlib Require Import ZArith Lia String Ascii Sorted.
From stdpp Require Import base list gmap strings.
From S2P Require Import Prelude GoFloat GoTime Types Util JsonDecode JsonText Json JsonValue CommandJson PointJson.

Open Scope Z_scope.

Definition TypeName : string := "notify".

(** ** Settings ([settings.go]) *)

(** A setting: a scalar, a list or a map. *)
Inductive setting :=
| SVal (v : Value)
| SList (l : list Value)
| SMap (m : gmap string Value).

Definition Settings := gmap string setting.

Definition errNotInitialized : error := ErrNew "notify transport not initialized".
Definition errMissingSetting : error := ErrNew "missing required setting".

Definition missing {A} (key : string) : res A := Err (ErrWrap "" errMissingSetting (": " +:+ key)).
Definition must_be {A} (key kind : string) : res A := Err (ErrFmt ("setting " +:+ key +:+ " must be " +:+ kind)).

Definition reqString (s : Settings) (key : string) : res string :=
  match s !! key with
  | None => missing key
  | Some (SVal (VString x)) => Ok x
  | Some _ => must_be key "a string"
  end.

Definition optString (s : Settings) (key : string) : res string :=
  match s !! key with
  | None => Ok EmptyString
  | Some (SVal (VString x)) => Ok x
  | Some _ => must_be key "a string"
  end.

Definition optDuration `{GoArch} (s : Settings) (key : string) : res Z :=
  match s !! key with
  | None => Ok 0
  | Some (SVal (VString x)) =>
      if bool_decide (x = EmptyString) then Ok 0
      else match ParseDuration x with
           | Some d => Ok d
           | None => Err (ErrFmt ("setting " +:+ key +:+ ": invalid duration"))
           end
  | Some _ => must_be key "a duration string"
  end.

(** [strings.Split(s, ",")]. *)
Fixpoint split_comma (s : string) : list string :=
  match s with
  | EmptyString => [EmptyString]
  | String c t =>
      if bool_decide (c = ","%char) then EmptyString :: split_comma t
      else match split_comma t with h :: l => String c h :: l | [] => [String c EmptyString] end
  end.

(** The strings of a list, or the index of the first other element. *)
Fixpoint strings_of (i : Z) (l : list Value) : res (list string) :=
  match l with
  | [] => Ok []
  | VString x :: l => match strings_of (i + 1) l with Ok r => Ok (x :: r) | e => e end
  | _ :: _ => Err (ErrFmt ("setting must be a string: " +:+ itoa i))
  end.

Definition optStringList (s : Settings) (key : string) : res (list string) :=
  match s !! key with
  | None => Ok []
  | Some (SVal (VString x)) => Ok (filter (fun p => p <> EmptyString) (TrimSpace <$> split_comma x))
  | Some (SList l) => strings_of 0 l
  | Some _ => must_be key "a list of strings or a comma-separated string"
  end.

Definition string_value (v : Value) : option string := match v with VString x => Some x | _ => None end.

Definition optStringMap (s : Settings) (key : string) : res (gmap string string) :=
  match s !! key with
  | None => Ok ∅
  | Some (SVal (VString x)) =>
      if bool_decide (x = EmptyString) then Ok ∅
      else match (match parse x with Some v => set_metadata v ∅ | None => None end) with
           | Some m => Ok m
           | None => must_be key "a JSON object string"
           end
  | Some (SMap m) =>
      if bool_decide (map_Forall (fun _ v => is_Some (string_value v)) m)
      then Ok (omap string_value m) else must_be key "a string"
  | Some _ => must_be key "a map of strings or a JSON object string"
  end.

Definition reqInt `{GoArch} (s : Settings) (key : string) : res Z :=
  match s !! key with
  | None => missing key
  | Some (SVal (VInt n)) | Some (SVal (VInt64 n)) => Ok n
  | Some (SVal (VFloat64 x)) => Ok (f_to_s 64 x)
  | Some _ => must_be key "an integer"
  end.

(** [ValidateSettings]; the loop over the map meets the keys in any order, so the
    first complaint is any of them: here that of the least key. *)
Definition known : gset string :=
  list_to_set ["channel"; "cooldown"; "template"; "webhook-url"; "url"; "method"; "headers"; "body-template";
    "smtp-host"; "smtp-port"; "smtp-user"; "smtp-pass"; "from"; "to"; "subject"; "body"]%string.

Definition check_setting (key : string) (v : setting) : option error :=
  if bool_decide (key ∉ known) then Some (ErrFmt ("unknown notify setting " +:+ quote key))
  else if bool_decide (key = "headers"%string) || bool_decide (key = "to"%string) then None
  else match v with
       | SVal (VString _) => None
       | _ => Some (ErrFmt ("notify setting " +:+ quote key +:+ " must be a string"))
       end.

Fixpoint check_settings (l : list (string * setting)) : option error :=
  match l with
  | [] => None
  | (k, v) :: l => match check_setting k v with Some e => Some e | None => check_settings l end
  end.

(** [order] is the order the map is iterated in. *)
Definition ValidateSettings (order : Settings -> list (string * setting)) (s : Settings) : option error :=
  check_settings (order s).

(** ** Templates ([template.go]) *)

Record templateData := mkData {
  td_Rule : string; td_Tag : string; td_Value : Value; td_Driver : string; td_Device : string;
  td_Group : string; td_Quality : string; td_Timestamp : Z;
}.

Class Templates := {
  template : Type;
  parse_template : string -> option template;
  exec_template : template -> templateData -> option string;
  value_text : Value -> string;       (* fmt's %v *)
}.

Definition defaultTemplate : string := "[{{.Rule}}] {{.Tag}} = {{.Value}} ({{.Driver}})".

Section notify.
Context `{GoArch} `{Templates}.

Definition point_data (p : DataPoint) : templateData :=
  mkData (default EmptyString (dp_Metadata p !! "rule"%string)) (dp_Tag p) (dp_Value p) (dp_Driver p)
    (dp_Device p) (dp_Group p) (Quality_String (dp_Quality p)) (dp_Timestamp p).

Definition renderTemplate (tmpl : template) (p : DataPoint) : string :=
  match exec_template tmpl (point_data p) with
  | Some s => s
  | None => dp_Tag p +:+ " = " +:+ value_text (dp_Value p)
  end.

Definition optTemplate (s : Settings) (key def : string) : res template :=
  let raw :=
    match s !! key with
    | None => Ok def
    | Some (SVal (VString x)) => Ok (if bool_decide (x <> EmptyString) then x else def)
    | Some _ => must_be key "a string"
    end in
  match raw with
  | Ok raw => match parse_template raw with Some t => Ok t | None => Err (ErrFmt ("template: " +:+ key)) end
  | Err e => Err e
  | Panic => Panic
  end.

(** ** The channels ([channels.go]) *)

Inductive sender :=
| webhookSender (url channel : string) (tmpl : template)
| genericWebhookSender (url method : string) (headers : gmap string string) (tmpl : template)
| emailSender (host user pass from : string) (port : Z) (to : list string) (subjectTmpl bodyTmpl : template).

Definition newWebhookSender (s : Settings) (tmpl : template) (channel : string) : res sender :=
  let! url := reqString s "webhook-url" in Ok (webhookSender url channel tmpl).

Definition newGenericWebhookSender (s : Settings) : res sender :=
  let! url := reqString s "url" in
  let! method := optString s "method" in
  let! headers := optStringMap s "headers" in
  let! tmpl := optTemplate s "body-template" ("{" +:+ quote "text" +:+ ":" +:+ quote "{{.Tag}} = {{.Value}}" +:+ "}") in
  Ok (genericWebhookSender url (if bool_decide (method = EmptyString) then "POST"%string else method)
        headers tmpl).

Definition newEmailSender (s : Settings) : res sender :=
  let! host := reqString s "smtp-host" in
  let! port := reqInt s "smtp-port" in
  let! user := optString s "smtp-user" in
  let! pass := optString s "smtp-pass" in
  let! from := reqString s "from" in
  let! to := optStringList s "to" in
  if decide (to = []) then Err (ErrWrap "" errMissingSetting ": to (recipient list)")
  else
    let! subjectTmpl := optTemplate s "subject" "[CoreC] {{.Rule}}" in
    let! bodyTmpl := optTemplate s "body" "Tag {{.Tag}} on {{.Driver}}/{{.Device}} = {{.Value}} at {{.Timestamp}}" in
    Ok (emailSender host user pass from port to subjectTmpl bodyTmpl).

Definition buildSender (channel : string) (s : Settings) (tmpl : template) : res sender :=
  if bool_decide (channel = "slack"%string) || bool_decide (channel = "teams"%string)
  then newWebhookSender s tmpl channel
  else if bool_decide (channel = "email"%string) then newEmailSender s
  else if bool_decide (channel = "webhook"%string) then newGenericWebhookSender s
  else Err (ErrFmt ("unsupported channel: " +:+ channel)).

(** What leaves the process. *)
Inductive outgoing :=
| Http (method url : string) (headers : gmap string string) (body : string)
| Mail (addr : string) (auth : option (string * string)) (from : string) (to : list string) (msg : string).

(** [buildPayload] and its encoding. *)
Definition buildPayload (channel text : string) : string :=
  marshal_map (Some (
    if bool_decide (channel = "teams"%string) then
      {["@type" := jstring "MessageCard"; "@context" := jstring "http://schema.org/extensions";
        "themeColor" := jstring "FF0000"; "text" := jstring text]}
    else {["text" := jstring text]})).

Definition crlf : string := String "013" (String "010" EmptyString).

Definition buildEmailMessage (from to subject body : string) : string :=
  "From: " +:+ from +:+ crlf +:+ "To: " +:+ to +:+ crlf +:+ "Subject: " +:+ subject +:+ crlf
  +:+ "MIME-Version: 1.0" +:+ crlf +:+ "Content-Type: text/plain; charset=UTF-8" +:+ crlf +:+ crlf +:+ body.

Definition json_type : gmap string string := {["Content-Type" := "application/json"%string]}.

(** The message a sender makes of a point. *)
Definition outgoing_of (s : sender) (p : DataPoint) : outgoing :=
  match s with
  | webhookSender url channel tmpl => Http "POST" url json_type (buildPayload channel (renderTemplate tmpl p))
  | genericWebhookSender url method headers tmpl =>
      Http method url (headers ∪ json_type) (renderTemplate tmpl p)
  | emailSender host user pass from port to subjectTmpl bodyTmpl =>
      Mail (host +:+ ":" +:+ itoa port)
        (if bool_decide (user <> EmptyString) then Some (user, pass) else None) from to
        (buildEmailMessage from (String.concat ", " to) (renderTemplate subjectTmpl p) (renderTemplate bodyTmpl p))
  end.

(** How a delivery ends: no request can be built or the context is done, nobody
    answers, or there is an answer, for mail an acceptance. *)
Inductive delivery := NotSent | NoAnswer | Answer (status : Z).

Definition errRateLimited : error := ErrFmt "channel rate limited (HTTP 429)".

Definition postJSON (d : delivery) : option error :=
  match d with
  | NotSent => Some (ErrFmt "build request")
  | NoAnswer => Some (ErrFmt "http request")
  | Answer status =>
      if decide (status = 429) then Some errRateLimited
      else if decide (400 <= status) then Some (ErrFmt ("http status " +:+ itoa status)) else None
  end.

Definition send (s : sender) (d : delivery) : option error :=
  match s with
  | webhookSender _ _ _ => postJSON d
  | genericWebhookSender _ _ _ _ =>
      match d with
      | NotSent => Some (ErrFmt "build webhook request")
      | NoAnswer => Some (ErrFmt "webhook request")
      | Answer status =>
          if decide (400 <= status) then Some (ErrFmt ("webhook returned status " +:+ itoa status)) else None
      end
  | emailSender _ _ _ _ _ _ _ _ =>
      match d with
      | NotSent => Some (ErrNew "context canceled")
      | NoAnswer => Some (ErrFmt "smtp")
      | Answer _ => None
      end
  end.

(** ** The cooldown ([cooldown.go]) *)

Record cooldownTracker := mkCooldown { cd_window : Z; cd_lastSent : gmap string Z }.

Definition newCooldownTracker (window : Z) : cooldownTracker := mkCooldown window ∅.

Definition allow (now : Z) (key : string) (c : cooldownTracker) : bool * cooldownTracker :=
  if decide (cd_window c <= 0) then (true, c)
  else
    let ok := (true, mkCooldown (cd_window c) (<[key := now]> (cd_lastSent c))) in
    match cd_lastSent c !! key with
    | Some last => if decide (time_Sub now last < cd_window c) then (false, c) else ok
    | None => ok
    end.

(** ** The transport ([notify.go]) *)

Record NotifyTransport := mkNotify {
  nt_name : string;
  nt_channel : string;
  nt_sender : option sender;
  nt_cooldown : option cooldownTracker;
  nt_published : Z;
  nt_failed : Z;
  nt_lastPublish : Z;
  nt_state : ConnState;
}.

Definition NewNotifyTransport (name : string) : NotifyTransport :=
  mkNotify name EmptyString None None 0 0 zero_time StateDisconnected.

(** [Init]; what was set before an error stays set. *)
Definition Init (name : string) (s : Settings) (t : NotifyTransport) : option error * NotifyTransport :=
  let t0 ch cd sd := mkNotify name ch sd cd (nt_published t) (nt_failed t) (nt_lastPublish t) StateDisconnected in
  match reqString s "channel" with
  | Ok channel =>
      match optDuration s "cooldown" with
      | Ok window =>
          let cd := Some (newCooldownTracker window) in
          match (let! tmpl := optTemplate s "template" defaultTemplate in buildSender channel s tmpl) with
          | Ok sd => (None, t0 channel cd (Some sd))
          | Err e => (Some e, t0 channel cd (nt_sender t))
          | Panic => (None, t0 channel cd (nt_sender t))
          end
      | Err e => (Some e, t0 channel (nt_cooldown t) (nt_sender t))
      | Panic => (None, t)
      end
  | Err e => (Some e, t0 (nt_channel t) (nt_cooldown t) (nt_sender t))
  | Panic => (None, t)
  end.

Definition nt_with_state (c : ConnState) (t : NotifyTransport) : NotifyTransport :=
  mkNotify (nt_name t) (nt_channel t) (nt_sender t) (nt_cooldown t) (nt_published t) (nt_failed t)
    (nt_lastPublish t) c.

Definition Start (t : NotifyTransport) : NotifyTransport := nt_with_state StateConnected t.
Definition Stop (t : NotifyTransport) : NotifyTransport := nt_with_state StateDisconnected t.

Definition ruleKey (p : DataPoint) : string :=
  let rule := default EmptyString (dp_Metadata p !! "rule"%string) in
  if bool_decide (rule = EmptyString) then dp_Tag p else rule.

Definition nt_counted (cd : option cooldownTracker) (pub fail last : Z) (t : NotifyTransport) : NotifyTransport :=
  mkNotify (nt_name t) (nt_channel t) (nt_sender t) cd (u64 (nt_published t + pub)) (u64 (nt_failed t + fail))
    last (nt_state t).

(** [Publish] at a time with the end of its delivery, if there is one; the
    message is what was handed to the channel. *)
Definition Publish (now : Z) (d : delivery) (p : DataPoint) (t : NotifyTransport)
    : option error * option outgoing * NotifyTransport :=
  match nt_sender t with
  | None => (Some errNotInitialized, None, t)
  | Some sd =>
      let '(ok, cd) :=
        match nt_cooldown t with
        | None => (true, None)
        | Some c => let '(ok, c) := allow now (ruleKey p) c in (ok, Some c)
        end in
      if ok then
        match send sd d with
        | Some e => (Some e, Some (outgoing_of sd p), nt_counted cd 0 1 (nt_lastPublish t) t)
        | None => (None, Some (outgoing_of sd p), nt_counted cd 1 0 now t)
        end
      else (None, None, t)
  end.

(** [PublishBatch]: one after the other, the last error. *)
Fixpoint PublishBatch (ps : list (Z * delivery * DataPoint)) (lastErr : option error) (t : NotifyTransport)
    : option error * list outgoing * NotifyTransport :=
  match ps with
  | [] => (lastErr, [], t)
  | (now, d, p) :: ps =>
      let '(err, out, t) := Publish now d p t in
      let '(e, outs, t) := PublishBatch ps (match err with Some _ => err | None => lastErr end) t in
      (e, option_list out ++ outs, t)
  end.
End notify.

(** ** The cooldown *)

(** The attempts to send: time, key, and whether it was let through. *)
Fixpoint allows (l : list (Z * string)) (c : cooldownTracker) : list (Z * string * bool) :=
  match l with
  | [] => []
  | (now, key) :: l => let '(ok, c) := allow now key c in (now, key, ok) :: allows l c
  end.

(** The tracker after some attempts: per key the last time it was let through. *)
Definition tracks (w : Z) (past : list (Z * string * bool)) (c : cooldownTracker) : Prop :=
  cd_window c = w
  /\ forall key, match cd_lastSent c !! key with
     | Some last => (last, key, true) ∈ past /\ (forall t, (t, key, true) ∈ past -> t <= last)
     | None => forall t, (t, key, true) ∉ past
     end.

Definition spaced (w : Z) (past : list (Z * string * bool)) (now : Z) (key : string) : Prop :=
  forall t, (t, key, true) ∈ past -> w <= now - t.

Lemma allow_exact w past c now key :
  0 < w -> tracks w past c -> (forall a, a ∈ past -> 0 <= a.1.1 <= now) -> 0 <= now <= maxInt64 ->
  let '(ok, c') := allow now key c in
  (ok = true <-> spaced w past now key) /\ tracks w (past ++ [(now, key, ok)]) c'.
Proof.
  intros Hw [Hc Ht] Hp Hn. unfold allow. rewrite Hc. rewrite decide_False by lia.
  assert (tracks w (past ++ [(now, key, true)]) (mkCooldown w (<[key := now]> (cd_lastSent c)))) as Hok.
  { split; [done|]. intros k. simpl. destruct (decide (k = key)) as [->|Hk].
    - rewrite lookup_insert_eq. split; [set_solver|]. intros t [Hin|Hin]%elem_of_app; [apply Hp in Hin; simpl in Hin; lia|set_solver].
    - rewrite lookup_insert_ne by done. specialize (Ht k). destruct (cd_lastSent c !! k); set_solver. }
  assert (forall k, tracks w (past ++ [(now, k, false)]) c) as Hno.
  { intros k. split; [done|]. intros k'. specialize (Ht k'). destruct (cd_lastSent c !! k'); set_solver. }
  specialize (Ht key). destruct (cd_lastSent c !! key) as [last|] eqn:E.
  - destruct Ht as [Hin Hmax]. pose proof (Hp _ Hin) as Hl. simpl in Hl.
    assert (time_Sub now last = now - last) as -> by (unfold time_Sub, minInt64, maxInt64 in *; lia).
    case_decide as Hd; (split; [|auto]); split; try done.
    + intros Hsp. specialize (Hsp _ Hin). lia.
    + intros _ t Htin. specialize (Hmax _ Htin). lia.
  - split; [|auto]. split; [|done]. intros _ t Htin. by apply Ht in Htin.
Qed.

Lemma allows_exact w l : forall past c,
  0 < w -> tracks w past c -> StronglySorted Z.le l.*1 -> Forall (fun a => 0 <= a.1 <= maxInt64) l ->
  (forall a b, a ∈ past -> b ∈ l -> 0 <= a.1.1 <= b.1) ->
  forall i now key ok, allows l c !! i = Some (now, key, ok) ->
  ok = true <-> spaced w (past ++ take i (allows l c)) now key.
Proof.
  induction l as [|[now0 key0] l IH]; intros past c Hw Ht Hs Hr Hp i now key ok Hi; [done|].
  simpl in Hs. apply StronglySorted_inv in Hs as [Hs Hs1]. apply Forall_cons_1 in Hr as [Hr0 Hr]. simpl in Hr0.
  pose proof (allow_exact w past c now0 key0 Hw Ht) as Ha.
  cbn [allows] in *. destruct (allow now0 key0 c) as [ok0 c'] eqn:E.
  destruct Ha as [Hok Ht']; [intros a Ha; apply (Hp a (now0, key0)); set_solver|done|].
  destruct i as [|i]; simpl in Hi.
  - simplify_eq. simpl. by rewrite app_nil_r.
  - cbn [take]. rewrite cons_middle, app_assoc. apply (IH _ _ Hw Ht' Hs Hr); [|done].
    intros a b Ha Hb. apply elem_of_app in Ha as [Ha|Ha]; [apply Hp; set_solver|].
    apply list_elem_of_singleton in Ha as ->. simpl. split; [lia|].
    rewrite Forall_forall in Hs1. apply Hs1. by apply list_elem_of_fmap_2.
Qed.

Section theorems.
Context `{GoArch} `{Templates}.

(** The attempts of publishing some points one after the other. *)
Fixpoint attempts (ps : list (Z * delivery * DataPoint)) (t : NotifyTransport) : list (Z * string * bool) :=
  match ps with
  | [] => []
  | (now, d, p) :: ps =>
      let '(_, out, t) := Publish now d p t in
      (now, ruleKey p, bool_decide (is_Some out)) :: attempts ps t
  end.

Lemma attempts_allows sd : forall ps t c,
  nt_sender t = Some sd -> nt_cooldown t = Some c ->
  attempts ps t = allows ((fun x => (x.1.1, ruleKey x.2)) <$> ps) c.
Proof.
  induction ps as [|[[now d] p] ps IH]; intros t c Hs Hc; [done|]. simpl. unfold Publish. rewrite Hs, Hc.
  destruct (allow now (ruleKey p) c) as [ok c'] eqn:E. destruct ok.
  - destruct (send sd d); simpl; f_equal; by apply IH.
  - simpl. f_equal. assert (c' = c) as ->.
    { unfold allow in E. repeat case_match; by simplify_eq. }
    by apply IH.
Qed.

(** With a cooldown window, a notification is handed to its channel
    exactly when every earlier one of the same rule that was handed over lies at
    least the window back, in any sequence of points, times that do not go back
    and outcomes of the deliveries; all others are suppressed. *)
Theorem cooldown_exact ps t sd w :
  nt_sender t = Some sd -> nt_cooldown t = Some (newCooldownTracker w) -> 0 < w ->
  StronglySorted Z.le ((fun x => x.1.1) <$> ps) -> Forall (fun x => 0 <= x.1.1 <= maxInt64) ps ->
  forall i now key ok, attempts ps t !! i = Some (now, key, ok) ->
  ok = true <-> spaced w (take i (attempts ps t)) now key.
Proof.
  intros Hs Hc Hw Hsort Hr. rewrite (attempts_allows sd ps t _ Hs Hc).
  apply (allows_exact w _ [] (newCooldownTracker w)); try done.
  - split; [done|]. intros key. simpl. rewrite lookup_empty. set_solver.
  - by rewrite <- list_fmap_compose.
  - by rewrite Forall_fmap.
  - set_solver.
Qed.

(** A notification whose delivery fails starts the cooldown all the
    same: within the window a retry of it returns without an error and nothing is
    sent, so that the alert is lost and counted as delivered by its caller. *)
Theorem failed_alert_not_retried now d p t t1 c e m :
  nt_cooldown t = Some c -> 0 < cd_window c <= maxInt64 -> Publish now d p t = (Some e, Some m, t1) ->
  forall now' d', 0 <= now <= now' -> now' < now + cd_window c -> Publish now' d' p t1 = (None, None, t1).
Proof.
  intros Hc Hw Hp now' d' Hn Hn'. unfold Publish in Hp. rewrite Hc in Hp.
  destruct (nt_sender t) as [sd|] eqn:Hs; [|done].
  destruct (allow now (ruleKey p) c) as [ok c'] eqn:E. destruct ok; [|done].
  assert (c' = mkCooldown (cd_window c) (<[ruleKey p := now]> (cd_lastSent c))) as ->.
  { unfold allow in E. rewrite decide_False in E by lia. repeat case_match; by simplify_eq. }
  destruct (send sd d); simplify_eq. unfold Publish. simpl. rewrite Hs.
  unfold allow. simpl. rewrite decide_False, lookup_insert_eq by lia.
  rewrite decide_True by (unfold time_Sub, minInt64, maxInt64 in *; lia). done.
Qed.

(** ** The email channel *)

Lemma check_settings_none l : check_settings l = None -> forall k v, (k, v) ∈ l -> check_setting k v = None.
Proof.
  induction l as [|[k0 v0] l IH]; intros Hl k v Hin; [by apply not_elem_of_nil in Hin|]. simpl in Hl.
  destruct (check_setting k0 v0) eqn:E; [done|]. apply elem_of_cons in Hin as [[= -> ->]|]; auto.
Qed.

(** No settings of the email channel that pass [ValidateSettings] can be
    initialised: validation demands that [smtp-port] is a string, [Init] that it
    is a number. *)
Theorem email_never_initialises order s name t :
  (forall m, order m ≡ₚ map_to_list m) -> ValidateSettings order s = None ->
  s !! "channel"%string = Some (SVal (VString "email")) ->
  exists e, (Init name s t).1 = Some e.
Proof.
  intros Ho Hv Hch. assert (forall n, reqInt s "smtp-port" <> Ok n) as Hport.
  { intros n Hn. unfold reqInt in Hn. destruct (s !! "smtp-port"%string) as [v|] eqn:E; [|done].
    assert (check_setting "smtp-port" v = None) as Hck.
    { apply (check_settings_none (order s) Hv). rewrite (Ho s). by apply elem_of_map_to_list. }
    unfold check_setting in Hck. rewrite bool_decide_eq_false_2 in Hck by (intros []; vm_compute; done).
    simpl in Hck. by destruct v as [[]| |]. }
  unfold Init, reqString. rewrite Hch. destruct (optDuration s "cooldown") as [w|e|] eqn:Ed; [|by eexists|].
  - destruct (optTemplate s "template" defaultTemplate) as [tmpl|e|] eqn:Et; simpl; [|by eexists|].
    + unfold buildSender. simpl. unfold newEmailSender.
      destruct (reqString s "smtp-host") as [h|e|] eqn:Eh; simpl; [|by eexists|].
      * destruct (reqInt s "smtp-port") as [n|e|] eqn:En; simpl; [by destruct (Hport n)|by eexists|].
        unfold reqInt in En. by repeat case_match.
      * unfold reqString in Eh. by repeat case_match.
    + unfold optTemplate in Et. by repeat case_match.
  - unfold optDuration in Ed. by repeat case_match.
Qed.
End theorems.

Section more.
Context `{GoArch} `{Templates}.

(** A subject with a line break adds header lines of its own. *)
Lemma email_subject_injects from to a b body :
  buildEmailMessage from to (a +:+ crlf +:+ b) body
  = "From: " +:+ from +:+ crlf +:+ "To: " +:+ to +:+ crlf +:+ "Subject: " +:+ a +:+ crlf +:+ b +:+ crlf
    +:+ "MIME-Version: 1.0" +:+ crlf +:+ "Content-Type: text/plain; charset=UTF-8" +:+ crlf +:+ crlf +:+ body.
Proof. unfold buildEmailMessage. by rewrite !str_app_assoc. Qed.

(** ** Chat messages *)

Lemma payload_ok channel text : utf8 text ->
  map_ok (if bool_decide (channel = "teams"%string) then
      {["@type" := jstring "MessageCard"; "@context" := jstring "http://schema.org/extensions";
        "themeColor" := jstring "FF0000"; "text" := jstring text]}
    else {["text" := jstring text]}).
Proof.
  intros Ht. assert (forall k s, utf8 k -> utf8 k /\ wf (jstring s) /\ nesting (jstring s) < maxNestingDepth) as Hj.
  { intros k s Hk. split_and!; [done|apply body_ok_esc|done]. }
  case_bool_decide; intros k v Hin;
    repeat (apply lookup_insert_Some in Hin as [[<- <-]|[_ Hin]]; [by apply Hj, utf8_ascii|]);
    apply lookup_singleton_Some in Hin as [<- <-]; by apply Hj, utf8_ascii.
Qed.

(** The body posted to a Slack or Teams hook is a JSON object whose text
    is the rendered message, whatever characters the point brings into it. *)
Theorem chat_text_exact url channel tmpl p :
  let text := renderTemplate tmpl p in
  utf8 text ->
  exists body m, outgoing_of (webhookSender url channel tmpl) p = Http "POST" url json_type body
    /\ unmarshal_map body = Some (Some m)
    /\ (exists b, m !! "text"%string = Some (JStr b) /\ unq b = text).
Proof.
  intros text Ht. unfold outgoing_of, buildPayload. fold text. pose proof (payload_ok channel text Ht) as Hok.
  do 2 eexists. split_and!; [done|by apply unmarshal_marshal_map|].
  exists (esc text). split; [|by apply unq_esc]. rewrite lookup_fmap.
  case_bool_decide; simplify_map_eq; cbn [fmap option_fmap option_map hescape jstring]; by rewrite hesc_esc.
Qed.

(** ** Batches *)

(** Of a batch, the notifications handed over are counted as published or as
    failed; the suppressed ones are not counted.  The batch fails if one of them
    failed, and a suppressed one never does. *)
Lemma publish_cases sd now d p t :
  nt_sender t = Some sd ->
  Publish now d p t = (None, None, t)
  \/ exists cd, Publish now d p t
     = (send sd d, Some (outgoing_of sd p),
        match send sd d with
        | Some _ => nt_counted cd 0 1 (nt_lastPublish t) t
        | None => nt_counted cd 1 0 now t
        end).
Proof.
  intros Hs. unfold Publish. rewrite Hs. destruct (nt_cooldown t) as [c|].
  - destruct (allow now (ruleKey p) c) as [[] c']; [right|by left]. exists (Some c'). by destruct (send sd d).
  - right. exists None. by destruct (send sd d).
Qed.

Lemma batch_counts sd ps : forall lastErr t,
  nt_sender t = Some sd -> 0 <= nt_published t < 2 ^ 64 -> 0 <= nt_failed t < 2 ^ 64 ->
  let '(err, outs, t') := PublishBatch ps lastErr t in
  exists k, (k <= length outs)%nat /\ nt_published t' = u64 (nt_published t + Z.of_nat k)
    /\ nt_failed t' = u64 (nt_failed t + Z.of_nat (length outs - k))
    /\ (err = None <-> lastErr = None /\ k = length outs).
Proof.
  induction ps as [|[[now d] p] ps IH]; intros lastErr t Hs Hp Hf; simpl.
  { exists 0%nat. rewrite !Z.add_0_r, !wrapu_small by done. split_and!; try done. naive_solver. }
  destruct (publish_cases sd now d p t Hs) as [->|[cd ->]]; cycle 1; simpl.
  - destruct (send sd d) as [e|]; simpl.
    + specialize (IH (Some e) (nt_counted cd 0 1 (nt_lastPublish t) t) Hs
        ltac:(by apply wrapu_range) ltac:(by apply wrapu_range)).
      destruct (PublishBatch ps _ _) as [[err outs] t']. destruct IH as (k & Hk & E1 & E2 & E3). exists k. simpl.
      rewrite E1, E2. unfold nt_counted. simpl. rewrite !u64_add. split_and!; [lia|f_equal; lia|f_equal; lia|].
      rewrite E3. split; [by intros []|]. intros [_ ?]. lia.
    + specialize (IH lastErr (nt_counted cd 1 0 now t) Hs ltac:(by apply wrapu_range) ltac:(by apply wrapu_range)).
      destruct (PublishBatch ps _ _) as [[err outs] t']. destruct IH as (k & Hk & E1 & E2 & E3). exists (S k). simpl.
      rewrite E1, E2. unfold nt_counted. simpl. rewrite !u64_add. split_and!; [lia|f_equal; lia|f_equal; lia|].
      rewrite E3. naive_solver lia.
  - specialize (IH lastErr t Hs Hp Hf). destruct (PublishBatch ps _ _) as [[err outs] t'].
    destruct IH as (k & Hk & E1 & E2 & E3). by exists k.
Qed.
End more.

(** ** Examples *)

Module Examples.

(** A template renders the tag. *)
#[export] Instance tag_templates : Templates :=
  {| template := unit; parse_template _ := Some tt; exec_template _ d := Some (td_Tag d);
     value_text _ := EmptyString |}.

Definition slack : Settings :=
  {["channel" := SVal (VString "slack"); "webhook-url" := SVal (VString "http://hook");
    "cooldown" := SVal (VString "5m")]}.
Definition email : Settings :=
  {["channel" := SVal (VString "email"); "smtp-host" := SVal (VString "mail");
    "smtp-port" := SVal (VString "587"); "from" := SVal (VString "a@b"); "to" := SVal (VString "c@d")]}.
End Examples.

Import Examples.
#[local] Existing Instance amd64_f2i.

Module Node.
Definition node : NotifyTransport := (Init "n" slack (NewNotifyTransport "n")).2.
Definition hook : sender := webhookSender "http://hook" "slack" tt.
Definition point : DataPoint := PointJson.Examples.point.
Definition after : NotifyTransport := (Publish second NoAnswer point node).2.
Definition error_ : error := ErrFmt "http request".
End Node.

Lemma cooldown_exact_witness :
  attempts [(second, NoAnswer, Node.point); (2 * second, Answer 200, Node.point);
    (301 * second, Answer 200, Node.point)] Node.node !! 2%nat = Some (301 * second, "count"%string, true)
  /\ spaced (5 * minute) [(second, "count"%string, true); (2 * second, "count"%string, false)]
       (301 * second) "count".
Proof.
  split; [vm_compute; reflexivity|].
  apply (cooldown_exact [(second, NoAnswer, Node.point); (2 * second, Answer 200, Node.point);
    (301 * second, Answer 200, Node.point)] Node.node Node.hook (5 * minute)
    ltac:(vm_compute; reflexivity) ltac:(vm_compute; reflexivity) ltac:(vm_compute; reflexivity)
    ltac:(repeat constructor; vm_compute; discriminate)
    ltac:(repeat constructor; vm_compute; discriminate) 2%nat (301 * second) "count"%string true
    ltac:(vm_compute; reflexivity)).
  reflexivity.
Defined.

Lemma failed_alert_not_retried_witness :
  Publish (2 * second) (Answer 200) Node.point Node.after = (None, None, Node.after).
Proof.
  apply (failed_alert_not_retried second NoAnswer Node.point Node.node Node.after (newCooldownTracker (5 * minute))
    Node.error_ (outgoing_of Node.hook Node.point)).
  - vm_compute. reflexivity.
  - vm_compute. split; [reflexivity|discriminate].
  - vm_compute. reflexivity.
  - vm_compute. split; discriminate.
  - vm_compute. reflexivity.
Defined.

Lemma email_never_initialises_witness :
  exists e, (Init "n" email (NewNotifyTransport "n")).1 = Some e.
Proof.
  apply (email_never_initialises map_to_list); [reflexivity|vm_compute; reflexivity|vm_compute; reflexivity].
Defined.

Lemma chat_text_exact_witness :
  exists body m, outgoing_of Node.hook Node.point = Http "POST" "http://hook" json_type body
    /\ unmarshal_map body = Some (Some m)
    /\ (exists b, m !! "text"%string = Some (JStr b) /\ unq b = "count"%string).
Proof. apply (chat_text_exact (H0 := tag_templates) "http://hook" "slack" tt Node.point). by apply utf8_ascii. Defined.
