(* ===== verification/JsonlStore.v ===== *)
(** * The JSON-lines store ([engine/jsonl_store.go])

    The append-only file behind the dead-letter queue and the write audit
    trail: one generation and its predecessor, as strings of bytes.  The JSON
    encoding of a record is a parameter; the file system's faults are arguments
    of the operations. *)

From Stdlib Require Import ZArith Lia String Ascii.
From stdpp Require Import base list strings.
From S2P Require Import Prelude.

Open Scope Z_scope.

(** [json.Marshal] and [json.Unmarshal] of a record. *)
Class LineCodec (T : Type) := {
  marshal : T -> option string;
  unmarshal : string -> option T;
}.

(** [js_dead]: the file was closed, or the buffered writer has kept an error;
    it then refuses every later write. *)
Record jsonlStore := mkStore {
  js_cur : option string;
  js_old : option string;
  js_max : Z;
  js_dead : bool;
}.

Definition defaultStoreBytes : Z := 5 * 1024 * 1024.

(** [newJSONLStore] on a path, given what the two files hold. *)
Definition newJSONLStore (cur old : option string) (maxBytes : Z) : jsonlStore :=
  mkStore (Some (default EmptyString cur)) old
    (if decide (maxBytes <= 0) then defaultStoreBytes else maxBytes) false.

Definition newline : ascii := ascii_of_N 10.

(** What goes wrong: the write or flush after some bytes, [Stat], [Close],
    [Rename] or the reopening. *)
Inductive fault := NoFault | FFlush (n : nat) | FStat | FClose | FRename | FOpen.

#[export] Instance fault_eq_dec : EqDecision fault.
Proof. solve_decision. Defined.

Definition str_size (s : string) : Z := Z.of_nat (String.length s).

Definition rotateLocked (ft : fault) (st : jsonlStore) : jsonlStore :=
  match js_cur st with
  | None => st
  | Some cur =>
      if decide (ft = FStat) then st
      else if decide (str_size cur < js_max st) then st
      else
        match ft with
        | FClose | FRename => mkStore (js_cur st) (js_old st) (js_max st) true
        | FOpen => mkStore None (Some cur) (js_max st) true
        | _ => mkStore (Some EmptyString) (Some cur) (js_max st) (js_dead st)
        end
  end.

Section store.
Context {T : Type} `{LineCodec T}.

(** [append]; an fsync failure is only logged. *)
Definition append (ft : fault) (entry : T) (st : jsonlStore) : jsonlStore :=
  match marshal entry with
  | None => st
  | Some line =>
      if js_dead st then st
      else
        let data := line +:+ String newline EmptyString in
        let file written := Some (default EmptyString (js_cur st) +:+ written) in
        match ft with
        | FFlush n => mkStore (file (String.substring 0 n data)) (js_old st) (js_max st) true
        | _ => rotateLocked ft (mkStore (file data) (js_old st) (js_max st) false)
        end
  end.

Definition dropCR (s : string) : string :=
  match str_rev s with
  | String c r => if decide (c = ascii_of_N 13) then str_rev r else s
  | EmptyString => s
  end.

(** [bufio.ScanLines]: the terminated lines, and what is left at the end; a
    carriage return before the newline is dropped. *)
Fixpoint scan_lines (acc s : string) : list string :=
  match s with
  | EmptyString => match acc with EmptyString => [] | _ => [acc] end
  | String c s' =>
      if decide (c = newline) then acc :: scan_lines EmptyString s'
      else scan_lines (acc +:+ String c EmptyString) s'
  end.

Definition maxLine : Z := 2 ^ 20.

(** The scanner stops at a line that does not fit its buffer. *)
Fixpoint scan_tokens (lines : list string) : list string :=
  match lines with
  | [] => []
  | l :: rest => if decide (str_size l + 1 <= maxLine) then dropCR l :: scan_tokens rest else []
  end.

Definition parse_file (content : option string) : list T :=
  match content with
  | None => []
  | Some s => omap unmarshal (scan_tokens (scan_lines EmptyString s))
  end.

Definition lastn {A} (n : nat) (l : list A) : list A := drop (length l - n) l.

Definition load (limit : Z) (st : jsonlStore) : list T :=
  if decide (limit <= 0) then []
  else lastn (Z.to_nat limit) (parse_file (js_old st) ++ parse_file (js_cur st)).

(** ** What is replayed *)

(** A record whose line comes back and fits the scanner. *)
Definition printable (s : string) : Prop :=
  Forall (fun c => (32 <= N_of_ascii c)%N) (String.list_ascii_of_string s).

Definition entry_line (e : T) (l : string) : Prop :=
  marshal e = Some l /\ unmarshal l = Some e /\ printable l /\ str_size l + 1 <= maxLine.

(** The bytes of a list of lines, in front of [tail]. *)
Definition content (ls : list string) (tail : string) : string :=
  foldr (fun l s => l +:+ String newline s) tail ls.

Lemma printable_app a b : printable a -> printable b -> printable (a +:+ b).
Proof.
  unfold printable. induction a as [|c a IH]; intros Ha Hb; [done|]. rewrite str_app_cons.
  inversion_clear Ha. constructor; [done|by apply IH].
Qed.

Lemma content_app ls l tail : content (ls ++ [l]) tail = content ls (l +:+ String newline tail).
Proof. unfold content. by rewrite foldr_app. Qed.

Lemma content_tail ls tail : content ls tail = content ls EmptyString +:+ tail.
Proof.
  induction ls as [|l ls IH]; [done|]. simpl. by rewrite IH, str_app_assoc.
Qed.

Lemma newline_not_printable c : (32 <= N_of_ascii c)%N -> c <> newline.
Proof. intros Hc ->. vm_compute in Hc. congruence. Qed.

Lemma scan_line acc l s :
  printable l -> scan_lines acc (l +:+ String newline s) = (acc +:+ l) :: scan_lines EmptyString s.
Proof.
  revert acc. induction l as [|c l IH]; intros acc Hl.
  - rewrite str_app_nil_r. done.
  - rewrite str_app_cons. cbn [scan_lines]. inversion_clear Hl as [|? ? Hc Hl']. rewrite decide_False by (by apply newline_not_printable).
    rewrite IH by done. by rewrite str_app_assoc.
Qed.

Lemma scan_content ls tail :
  Forall printable ls -> scan_lines EmptyString (content ls tail) = ls ++ scan_lines EmptyString tail.
Proof.
  induction 1 as [|l ls Hl _ IH]; [done|]. simpl. rewrite scan_line by done. by rewrite IH.
Qed.

Lemma dropCR_printable l : printable l -> dropCR l = l.
Proof.
  intros Hl. unfold dropCR, str_rev.
  destruct (List.rev (String.list_ascii_of_string l)) as [|c r] eqn:Er; [done|]. simpl.
  rewrite decide_False; [done|]. intros ->. unfold printable in Hl. rewrite Forall_forall in Hl.
  assert (ascii_of_N 13 ∈ String.list_ascii_of_string l) as Hin.
  { apply list_elem_of_In, in_rev. rewrite Er. by left. }
  specialize (Hl _ Hin). vm_compute in Hl. congruence.
Qed.

Lemma parse_content es ls :
  Forall2 entry_line es ls -> parse_file (Some (content ls EmptyString)) = es.
Proof.
  intros Hes. unfold parse_file. rewrite scan_content.
  - rewrite app_nil_r. induction Hes as [|e l es ls (_ & Hu & Hp & Hs) _ IH]; [done|]. cbn [scan_tokens].
    rewrite decide_True by done. rewrite dropCR_printable by done. simpl. rewrite Hu. f_equal. exact IH.
  - induction Hes as [|e l es ls (_ & _ & Hp & _) _ IH]; by constructor.
Qed.

(** The records of the two generations and their lines. *)
Record holds (st : jsonlStore) (lost A B : list T) : Prop := {
  h_live : js_dead st = false;
  h_old : exists la, Forall2 entry_line A la /\
            (js_old st = Some (content la EmptyString) \/ js_old st = None /\ A = []) /\
            str_size (content la EmptyString) < js_max st + maxLine /\
            (lost = [] \/ js_max st <= str_size (content la EmptyString));
  h_cur : exists lb, Forall2 entry_line B lb /\ js_cur st = Some (content lb EmptyString) /\
            str_size (content lb EmptyString) < js_max st;
}.

Lemma append_holds st lost A B e l :
  0 < js_max st -> holds st lost A B -> entry_line e l ->
  exists lost' A' B', lost' ++ A' ++ B' = lost ++ A ++ B ++ [e] /\
    js_max (append NoFault e st) = js_max st /\ holds (append NoFault e st) lost' A' B'.
Proof.
  intros Hmax [Hd (la & HA & Hold & Hsa & Hl) (lb & HB & Hcur & Hsb)] He.
  pose proof He as (Hm & _ & _ & Hs). unfold append. rewrite Hm, Hd, Hcur. cbv zeta. cbn [default from_option id].
  rewrite <- content_tail. set (cur := content lb (l +:+ String newline EmptyString)).
  assert (cur = content (lb ++ [l]) EmptyString) as Ec by (by rewrite content_app).
  assert (Forall2 entry_line (B ++ [e]) (lb ++ [l])) as HB' by (apply Forall2_app; [done|by constructor]).
  unfold rotateLocked. cbn [js_cur js_max js_old js_dead]. rewrite decide_False by done.
  destruct (decide (str_size cur < js_max st)) as [Hlt|Hge].
  - exists lost, A, (B ++ [e]). split_and!; [done|done|]. split; simpl; [done|by exists la|].
    exists (lb ++ [l]). rewrite <- Ec. done.
  - exists (lost ++ A), (B ++ [e]), []. split_and!; [by rewrite app_nil_r, <- !app_assoc|done|].
    split; simpl; [done| |exists []; split_and!; [constructor|done|done]].
    exists (lb ++ [l]). rewrite <- Ec. split_and!; [done|by left| |right; lia].
    unfold cur. rewrite content_tail. unfold str_size in *. rewrite !str_app_length. simpl. lia.
Qed.

Lemma appends_hold es ls st lost A B :
  0 < js_max st -> holds st lost A B -> Forall2 entry_line es ls ->
  exists lost' A' B', lost' ++ A' ++ B' = lost ++ A ++ B ++ es /\
    holds (foldl (fun st e => append NoFault e st) st es) lost' A' B' /\
    js_max (foldl (fun st e => append NoFault e st) st es) = js_max st.
Proof.
  intros Hmax Hh Hes. revert st lost A B Hmax Hh.
  induction Hes as [|e l es ls He _ IH]; intros st lost A B Hmax Hh; simpl.
  { exists lost, A, B. by rewrite app_nil_r. }
  destruct (append_holds st lost A B e l Hmax Hh He) as (l1 & A1 & B1 & Heq & Hm & Hh1).
  destruct (IH (append NoFault e st) l1 A1 B1 ltac:(lia) Hh1) as (l2 & A2 & B2 & Heq2 & Hh2 & Hm2).
  exists l2, A2, B2. split_and!; [|done|congruence].
  rewrite Heq2. rewrite !app_assoc in *. rewrite Heq. by rewrite <- !app_assoc.
Qed.

Lemma load_holds limit st lost A B :
  0 < limit -> holds st lost A B -> load limit st = lastn (Z.to_nat limit) (A ++ B).
Proof.
  intros Hlim [_ (la & HA & Hold & _ & _) (lb & HB & Hcur & _)]. unfold load.
  rewrite decide_False by lia. rewrite Hcur, (parse_content B lb HB). f_equal. f_equal.
  destruct Hold as [->|[-> ->]]; [by apply parse_content|done].
Qed.

(** Records appended to a fresh store replay in order, newest kept: what
    [load] returns is the end of what was appended, cut only by the limit and
    by rotation, and rotation never drops a record unless at least a whole
    generation of newer bytes is kept.  Neither file outgrows the cap by more
    than one line. *)
Theorem jsonl_replays_newest maxBytes es ls limit :
  Forall2 entry_line es ls -> 0 < limit ->
  let st := foldl (fun st e => append NoFault e st) (newJSONLStore None None maxBytes) es in
  exists lost kept,
    es = lost ++ kept /\ load limit st = lastn (Z.to_nat limit) kept /\
    (lost <> [] -> exists old, js_old st = Some old /\ js_max st <= str_size old) /\
    str_size (default EmptyString (js_cur st)) < js_max st /\
    str_size (default EmptyString (js_old st)) < js_max st + maxLine.
Proof.
  intros Hes Hlim. set (st0 := newJSONLStore None None maxBytes).
  assert (0 < js_max st0) as Hmax
    by (unfold st0, newJSONLStore, defaultStoreBytes; simpl; case_decide; lia).
  assert (holds st0 [] [] []) as Hh0.
  { split; [done| |].
    - exists []. split_and!; [constructor|by right| |by left].
      change (str_size (content [] EmptyString)) with 0. unfold maxLine. lia.
    - exists []. split_and!; [constructor|done|done]. }
  destruct (appends_hold es ls st0 [] [] [] Hmax Hh0 Hes) as (lost & A & B & Heq & Hh & Hm).
  intros st. fold st in Hh, Hm. exists lost, (A ++ B). split_and!.
  - by rewrite Heq.
  - by apply (load_holds limit st lost).
  - destruct Hh as [_ (la & HA & Hold & _ & Hl) _]. intros Hne. destruct Hl as [|Hl]; [done|].
    destruct Hold as [Hold|[Hold ->]]; [by eexists|]. inversion HA; subst. exfalso.
    change (str_size (content [] EmptyString)) with 0 in Hl. lia.
  - destruct Hh as [_ _ (lb & _ & -> & Hs)]. done.
  - destruct Hh as [_ (la & _ & Hold & Hs & _) _]. destruct Hold as [->|[-> _]]; [done|].
    change (str_size (default EmptyString None)) with 0. unfold maxLine. lia.
Qed.

(** A record appended after a crash that left a torn last line is
    lost: it is glued to the torn line, and the replay skips both, although
    [append] stored and synced it. *)
Theorem jsonl_torn_line_eats_next B lb torn e l old maxBytes limit :
  Forall2 entry_line B lb -> entry_line e l -> printable torn ->
  unmarshal (torn +:+ l) = None ->
  str_size (content lb torn) + maxLine < maxBytes -> 0 < limit ->
  let st := append NoFault e (newJSONLStore (Some (content lb torn)) old maxBytes) in
  js_cur st = Some (content lb (torn +:+ l +:+ String newline EmptyString)) /\
  load limit st = lastn (Z.to_nat limit) (parse_file old ++ B).
Proof.
  intros HB He Htorn Hu Hs Hlim. pose proof He as (Hm & _ & Hp & Hl). unfold append, newJSONLStore.
  rewrite Hm. cbv zeta. cbn [js_dead js_cur js_old js_max default from_option id].
  assert (content lb torn +:+ l +:+ String newline EmptyString
          = content lb (torn +:+ l +:+ String newline EmptyString)) as Ec.
  { rewrite (content_tail lb torn), (content_tail lb (torn +:+ _)), <- !str_app_assoc. done. }
  rewrite Ec.
  assert (0 <= str_size (content lb torn)) as Hpos by (unfold str_size; lia).
  rewrite (decide_False (P := maxBytes <= 0)) by (unfold maxLine in Hs; lia).
  unfold rotateLocked. cbn [js_cur js_max]. rewrite decide_False by done.
  rewrite decide_True.
  2: { rewrite <- Ec. unfold str_size in *. rewrite !str_app_length. simpl. lia. }
  split; [done|]. unfold load. rewrite decide_False by lia. cbn [js_old js_cur]. f_equal. f_equal.
  unfold parse_file. rewrite scan_content.
  2: { clear -HB. induction HB as [|? ? ? ? (_ & _ & Hp & _) _ IH]; by constructor. }
  rewrite <- (str_app_assoc torn), scan_line by (by apply printable_app).
  change (scan_lines EmptyString EmptyString) with (@nil string).
  clear -HB Hu Htorn Hp. induction HB as [|e0 l0 es ls (_ & Hu0 & Hp0 & Hs0) _ IH].
  - cbn [app scan_tokens]. case_decide; [|done]. change (EmptyString +:+ (torn +:+ l)) with (torn +:+ l).
    rewrite dropCR_printable by (by apply printable_app). simpl. by rewrite Hu.
  - cbn [app scan_tokens]. rewrite decide_True by done. rewrite dropCR_printable by done.
    simpl. rewrite Hu0. f_equal. exact IH.
Qed.
End store.

(** ** Records that are numbers *)
Module Demo.
#[local] Instance codec : LineCodec Z :=
  {| marshal z := Some (itoa z); unmarshal s := ParseInt s 64 |}.

Lemma line z l : marshal z = Some l -> unmarshal l = Some z ->
  forallb (fun c => (32 <=? N_of_ascii c)%N) (String.list_ascii_of_string l) = true ->
  str_size l + 1 <= maxLine -> entry_line z l.
Proof.
  intros Hm Hu Hp Hs. split_and!; [done|done| |done]. unfold printable.
  rewrite Forall_forall. rewrite forallb_forall in Hp. intros c Hc.
  apply N.leb_le, Hp. by apply list_elem_of_In.
Qed.

Lemma small_lines : Forall2 entry_line [7; 8; 9] ["7"; "8"; "9"]%string.
Proof. repeat (constructor; [apply line; vm_compute; congruence|]). constructor. Qed.
End Demo.

(** Two lines fill a generation: the third record is in the new one. *)
Lemma jsonl_replays_newest_witness :
  exists lost kept,
    [7; 8; 9] = lost ++ kept /\
    load (H := Demo.codec) 2 (foldl (fun st e => append (H := Demo.codec) NoFault e st)
      (newJSONLStore None None 4) [7; 8; 9]) = lastn (Z.to_nat 2) kept.
Proof.
  destruct (jsonl_replays_newest (H := Demo.codec) 4 [7; 8; 9] ["7"; "8"; "9"]%string 2
    Demo.small_lines ltac:(lia)) as (lost & kept & He & Hl & _).
  exists lost, kept. exact (conj He Hl).
Defined.

Lemma jsonl_torn_line_eats_next_witness :
  load (H := Demo.codec) 10 (append (H := Demo.codec) NoFault 9
    (newJSONLStore (Some (content ["7"; "8"]%string "{")) None (2 ^ 21))) = [7; 8].
Proof.
  destruct (jsonl_torn_line_eats_next (H := Demo.codec) [7; 8] ["7"; "8"]%string "{" 9 "9" None (2 ^ 21) 10)
    as [_ Hl].
  - repeat (constructor; [apply Demo.line; vm_compute; congruence|]). constructor.
  - apply Demo.line; vm_compute; congruence.
  - constructor; [vm_compute; congruence|constructor].
  - vm_compute. reflexivity.
  - vm_compute. reflexivity.
  - lia.
  - rewrite Hl. reflexivity.
Defined.
