(* ===== verification/WriteManager.v ===== *)
(** * Writes and commands ([engine/write_manager.go], [engine/write_pacing.go],
      [engine/write_audit_store.go], [engine/tag_protect.go])

    The synchronous tag write with its protection, pacing and audit record, the
    retry loop of a command with forwarding and the dead-letter queue, and the
    command listener as a step relation.  What lies outside (the clock, the
    drivers, the forwarding transports, waiting, the disk) is an environment
    [E] the operations thread through ([WriteEnv]). *)

From Stdlib Require Import ZArith Lia String Ascii.
From stdpp Require Import base list gmap strings relations.
From S2P Require Import Prelude GoFloat GoTime Types JsonlStore.

Open Scope Z_scope.

Class WriteEnv (E : Type) := {
  env_now : E -> Z * E;                                                    (* time.Now *)
  env_write : string -> WriteCommand -> E -> (list WriteResult + error) * E; (* Driver.Write *)
  env_forward : string -> WriteCommand -> E -> option error * E;            (* ForwardCommand *)
  env_wait : Z -> E -> bool * E;   (* wait for a duration; true if the engine stops first *)
  env_disk : E -> fault * E;
}.

(** The registries the write path looks at: the running drivers, their
    configured tags, and the transports with whether they forward commands. *)
Record registry := mkRegistry {
  rg_drivers : gset string;
  rg_tags : gmap string (list TagConfig);
  rg_transports : list (string * bool);
}.

(** [wm_calls] is the trace of calls to drivers, and [wm_accepted] the trace of
    writes a device accepted: the driver, the time of the pacing check and the
    time recorded.  Both are only written. *)
Record writeManager (E : Type) := mkWM {
  wm_env : E;
  wm_writeRetryCount : Z;
  wm_interval : Z;
  wm_last : gmap string Z;
  wm_audits : list WriteAuditEntry;
  wm_auditStore : option jsonlStore;
  wm_queue : list DeadLetterEntry;
  wm_maxLen : Z;
  wm_pushed : Z;
  wm_deadStore : option jsonlStore;
  wm_calls : list (string * WriteCommand);
  wm_accepted : list (string * Z * Z);
}.
Arguments mkWM {E} _ _ _ _ _ _ _ _ _ _ _ _.
Arguments wm_env {E} _.
Arguments wm_writeRetryCount {E} _.
Arguments wm_interval {E} _.
Arguments wm_last {E} _.
Arguments wm_audits {E} _.
Arguments wm_auditStore {E} _.
Arguments wm_queue {E} _.
Arguments wm_maxLen {E} _.
Arguments wm_pushed {E} _.
Arguments wm_deadStore {E} _.
Arguments wm_calls {E} _.
Arguments wm_accepted {E} _.

Definition ErrWritePaced : error := ErrNew "write paced".

Definition writeAuditCapacity : nat := 1000.

(** ** Tag protection *)

Fixpoint tagWriteProtectionReason (tags : list TagConfig) (tagName : string) : string :=
  match tags with
  | [] => EmptyString
  | t :: rest =>
      if decide (tc_Name t <> tagName) then tagWriteProtectionReason rest tagName
      else if decide (tc_Protect t = "read-only"%string) then
        "tag " +:+ quote tagName +:+ " is read-only (protect: read-only)"
      else EmptyString
  end.

Fixpoint isWriteOnlyTag (tags : list TagConfig) (tagName : string) : bool :=
  match tags with
  | [] => false
  | t :: rest =>
      if decide (tc_Name t = tagName) then bool_decide (tc_Protect t = "write-only"%string)
      else isWriteOnlyTag rest tagName
  end.

(** ** Retries *)

Definition defaultRetryBaseDelay : Z := 100 * millisecond.
Definition defaultCommandRetryMaxDelay : Z := 2 * second.

(** [base * time.Duration(1<<attempt)], capped; 64-bit arithmetic. *)
Definition retryDelay (maxDelay : Z) (attempt : Z) : Z :=
  let delay := i64 (defaultRetryBaseDelay * i64 (2 ^ attempt)) in
  if decide (delay > maxDelay) then maxDelay else delay.

Definition permanentWriteErrPatterns : list string :=
  ["tag not found"; "read-only area"; "protect: read-only"; "is not supported on";
   "expected bool value"; "unsupported write type"; "failed to create variant"; "s7 encode"]%string.

Definition isPermanentWriteError (errStr : string) : bool :=
  existsb (fun p => str_contains errStr p) permanentWriteErrPatterns.

Section manager.
Context {E : Type} `{WriteEnv E} `{LineCodec WriteAuditEntry} `{LineCodec DeadLetterEntry}.
Implicit Types w : writeManager E.

Definition with_env (e : E) w : writeManager E :=
  mkWM e (wm_writeRetryCount w) (wm_interval w) (wm_last w) (wm_audits w) (wm_auditStore w)
    (wm_queue w) (wm_maxLen w) (wm_pushed w) (wm_deadStore w) (wm_calls w) (wm_accepted w).

Definition now w : Z * writeManager E :=
  let '(t, e) := env_now (wm_env w) in (t, with_env e w).

(** *** Pacing *)

Definition setInterval (interval : Z) w : writeManager E :=
  mkWM (wm_env w) (wm_writeRetryCount w) interval
    (if decide (interval <= 0) then ∅ else wm_last w) (wm_audits w) (wm_auditStore w)
    (wm_queue w) (wm_maxLen w) (wm_pushed w) (wm_deadStore w) (wm_calls w) (wm_accepted w).

Definition pacedError (driver : string) (interval wait : Z) : error :=
  ErrWrap "" ErrWritePaced (": driver " +:+ quote driver +:+ " accepts a write every "
    +:+ Duration_String interval +:+ " (retry in "
    +:+ Duration_String (Duration_Round wait millisecond) +:+ ")").

(** [check]: the refusal, and the time it was decided at. *)
Definition check (driver : string) w : option error * Z * writeManager E :=
  if decide (wm_interval w <= 0) then (None, 0, w)
  else
    let '(t, w) := now w in
    match wm_last w !! driver with
    | Some prev =>
        if decide (time_Sub t prev < wm_interval w) then
          (Some (pacedError driver (wm_interval w) (wm_interval w - time_Sub t prev)), t, w)
        else (None, t, w)
    | None => (None, t, w)
    end.

(** [record]; the accepted write is traced with the time of its check. *)
Definition record (driver : string) (checked : Z) w : writeManager E :=
  if decide (wm_interval w <= 0) then w
  else
    let '(t, w) := now w in
    mkWM (wm_env w) (wm_writeRetryCount w) (wm_interval w) (<[driver := t]> (wm_last w))
      (wm_audits w) (wm_auditStore w) (wm_queue w) (wm_maxLen w) (wm_pushed w) (wm_deadStore w)
      (wm_calls w) (wm_accepted w ++ [(driver, checked, t)]).

Definition forget (driver : string) w : writeManager E :=
  mkWM (wm_env w) (wm_writeRetryCount w) (wm_interval w) (delete driver (wm_last w))
    (wm_audits w) (wm_auditStore w) (wm_queue w) (wm_maxLen w) (wm_pushed w) (wm_deadStore w)
    (wm_calls w) (wm_accepted w).

(** *** The audit trail *)

Definition audit_entry (t : Z) (cmd : WriteCommand) (success : bool) (errMsg : string)
    : WriteAuditEntry :=
  mkWriteAuditEntry t (cmd_Driver cmd) (cmd_Device cmd) (cmd_Tag cmd) (cmd_Value cmd)
    (cmd_Type cmd) success errMsg (cmd_Source cmd) (cmd_Remote cmd) (cmd_Raw cmd).

(** Append to an optional store. *)
Definition store_append {T} `{LineCodec T} (x : T) (store : option jsonlStore) (e : E)
    : option jsonlStore * E :=
  match store with
  | None => (None, e)
  | Some st => let '(ft, e) := env_disk e in (Some (append ft x st), e)
  end.

Definition recordWriteAudit (cmd : WriteCommand) (success : bool) (errMsg : string) w
    : writeManager E :=
  let '(t, w) := now w in
  let entry := audit_entry t cmd success errMsg in
  let items := lastn writeAuditCapacity (wm_audits w ++ [entry]) in
  let '(st, e) := store_append entry (wm_auditStore w) (wm_env w) in
  mkWM e (wm_writeRetryCount w) (wm_interval w) (wm_last w) items st
    (wm_queue w) (wm_maxLen w) (wm_pushed w) (wm_deadStore w) (wm_calls w) (wm_accepted w).

(** [WriteHistory]: newest first. *)
Definition WriteHistory w : list WriteAuditEntry := reverse (wm_audits w).

(** *** Writing a tag *)

Definition driver_call (cmd : WriteCommand) w : (list WriteResult + error) * writeManager E :=
  let '(r, e) := env_write (cmd_Driver cmd) cmd (wm_env w) in
  (r, mkWM e (wm_writeRetryCount w) (wm_interval w) (wm_last w) (wm_audits w) (wm_auditStore w)
        (wm_queue w) (wm_maxLen w) (wm_pushed w) (wm_deadStore w)
        (wm_calls w ++ [(cmd_Driver cmd, cmd)]) (wm_accepted w)).

Definition WriteTag (rg : registry) (cmd : WriteCommand) w
    : (WriteResult + error) * writeManager E :=
  let fail err w := (inr err, recordWriteAudit cmd false (error_text err) w) in
  if decide (cmd_Driver cmd ∉ rg_drivers rg) then
    fail (ErrFmt ("driver not found: " +:+ cmd_Driver cmd)) w
  else
    let reason := match rg_tags rg !! cmd_Driver cmd with
                  | Some tags => tagWriteProtectionReason tags (cmd_Tag cmd)
                  | None => EmptyString
                  end in
    if decide (reason <> EmptyString) then fail (ErrFmt reason) w
    else
      let '(paced, t, w) := check (cmd_Driver cmd) w in
      match paced with
      | Some err => fail err w
      | None =>
          let '(r, w) := driver_call cmd w in
          match r with
          | inr err => fail err w
          | inl [] => fail (ErrFmt "no result returned") w
          | inl (res :: _) =>
              let w := recordWriteAudit cmd (wr_Success res) (wr_Error res) w in
              (inl res, if wr_Success res then record (cmd_Driver cmd) t w else w)
          end
      end.

(** *** The dead-letter queue *)

Definition addDeadLetter (entry : DeadLetterEntry) w : writeManager E :=
  let '(st, e) := store_append entry (wm_deadStore w) (wm_env w) in
  let queue := wm_queue w ++ [entry] in
  let queue := if decide (Z.of_nat (length queue) > wm_maxLen w)
               then lastn (Z.to_nat (wm_maxLen w)) queue else queue in
  mkWM e (wm_writeRetryCount w) (wm_interval w) (wm_last w) (wm_audits w) (wm_auditStore w)
    queue (wm_maxLen w) (u64 (wm_pushed w + 1)) st (wm_calls w) (wm_accepted w).

Definition deadLetter (cmd : WriteCommand) (err : string) (attempts : Z) w : writeManager E :=
  let '(t, w) := now w in addDeadLetter (mkDeadLetterEntry cmd err t attempts "") w.

(** The provenance stamp of the command channel. *)
Definition stamp (c : WriteCommand) : WriteCommand :=
  mkWriteCommand (cmd_Driver c) (cmd_Device c) (cmd_Tag c) (cmd_Value c) (cmd_Type c)
    "command" (cmd_Remote c) (cmd_Raw c).

(** What a listener that exits still has: the held command, then what is
    buffered. *)
Definition strandedCommands (held ch : list WriteCommand) : list WriteCommand :=
  (stamp <$> held) ++ (stamp <$> ch).

Definition deadLetterStrandedCommands (held ch : list WriteCommand) w : writeManager E :=
  foldl (fun w c => deadLetter c "transport removed before dispatch" 0 w) w
    (strandedCommands held ch).

(** *** Forwarding *)

Fixpoint try_forwarders (ts : list (string * bool)) (cmd : WriteCommand) w
    : bool * writeManager E :=
  match ts with
  | [] => (false, w)
  | (name, forwards) :: rest =>
      if forwards then
        let '(err, e) := env_forward name cmd (wm_env w) in
        let w := with_env e w in
        match err with
        | Some _ => try_forwarders rest cmd w
        | None => (true, w)
        end
      else try_forwarders rest cmd w
  end.

Definition forwardCommand (rg : registry) (cmd : WriteCommand) w : bool * writeManager E :=
  try_forwarders (stable_sort (fun a b => String.ltb a.1 b.1) (rg_transports rg)) cmd w.

(** *** The retry loop *)

(** How the execution of a command ended. *)
Inductive outcome := Written | Forwarded | DeadLettered (attempts : Z) | Abandoned.

(** [n] attempts are left, [attempt] were made; [lastErr] is the last one's. *)
Fixpoint retry_loop (rg : registry) (cmd : WriteCommand) (n : nat) (attempt : Z)
    (lastErr : string) w : outcome * writeManager E :=
  match n with
  | O => (DeadLettered attempt, deadLetter cmd lastErr attempt w)
  | S n' =>
      let '(r, w) := WriteTag rg cmd w in
      let failed := match r with
                    | inr err => Some (error_text err)
                    | inl res => if wr_Success res then None else Some (wr_Error res)
                    end in
      match failed with
      | None => (Written, w)
      | Some lastErr =>
          if isPermanentWriteError lastErr then
            (DeadLettered (attempt + 1), deadLetter cmd lastErr (attempt + 1) w)
          else if decide (n' = 0%nat) then retry_loop rg cmd n' (attempt + 1) lastErr w
          else
            let '(stopped, e) := env_wait (retryDelay defaultCommandRetryMaxDelay attempt)
                                   (wm_env w) in
            let w := with_env e w in
            if stopped then (Abandoned, w)
            else retry_loop rg cmd n' (attempt + 1) lastErr w
      end
  end.

Definition executeWriteWithRetry (rg : registry) (cmd : WriteCommand) w
    : outcome * writeManager E :=
  if decide (cmd_Driver cmd ∉ rg_drivers rg) then
    let '(ok, w) := forwardCommand rg cmd w in
    if ok then (Forwarded, w)
    else (DeadLettered 1,
          deadLetter cmd ("driver not found: " +:+ cmd_Driver cmd
            +:+ " (no forwarder configured)") 1 w)
  else retry_loop rg cmd (Z.to_nat (wm_writeRetryCount w + 1)) 0 "" w.

(** ** A single write *)

Definition succeeded (r : WriteResult + error) : bool :=
  match r with inl res => wr_Success res | inr _ => false end.

Definition result_text (r : WriteResult + error) : string :=
  match r with inl res => wr_Error res | inr err => error_text err end.

Definition protection (rg : registry) (cmd : WriteCommand) : string :=
  match rg_tags rg !! cmd_Driver cmd with
  | Some tags => tagWriteProtectionReason tags (cmd_Tag cmd)
  | None => EmptyString
  end.

(** What every operation of the write path leaves alone. *)
Definition same_queue w w' : Prop :=
  wm_queue w' = wm_queue w /\ wm_pushed w' = wm_pushed w /\ wm_maxLen w' = wm_maxLen w /\
  wm_writeRetryCount w' = wm_writeRetryCount w /\ wm_interval w' = wm_interval w.

#[local] Instance same_queue_preorder : PreOrder same_queue.
Proof. split; [intros w|intros w1 w2 w3]; unfold same_queue; intuition congruence. Qed.

Lemma recordWriteAudit_spec cmd ok msg w :
  let w' := recordWriteAudit cmd ok msg w in
  (exists t, wm_audits w' = lastn writeAuditCapacity (wm_audits w ++ [audit_entry t cmd ok msg])) /\
  same_queue w w' /\ wm_calls w' = wm_calls w /\ wm_last w' = wm_last w /\
  wm_accepted w' = wm_accepted w.
Proof.
  unfold recordWriteAudit, now. destruct (env_now (wm_env w)) as [t e]. simpl.
  destruct (store_append _ _ _) as [st e']. simpl. split; [by exists t|]. done.
Qed.

(** A check that admits a write saw the interval elapsed. *)
Lemma check_spec driver w :
  let '(paced, t, w') := check driver w in
  same_queue w w' /\ wm_audits w' = wm_audits w /\ wm_calls w' = wm_calls w /\
  wm_last w' = wm_last w /\ wm_accepted w' = wm_accepted w /\
  (paced = None -> 0 < wm_interval w ->
   forall prev, wm_last w !! driver = Some prev -> wm_interval w <= time_Sub t prev).
Proof.
  unfold check, now. case_decide as Hi; [split_and!; try done; lia|].
  destruct (env_now (wm_env w)) as [t e]. simpl. destruct (wm_last w !! driver) as [prev|] eqn:El.
  - case_decide as Ht; simpl; split_and!; try done. intros _ _ p [= <-]. lia.
  - simpl. split_and!; done.
Qed.

Lemma record_spec driver t w :
  let w' := record driver t w in
  same_queue w w' /\ wm_audits w' = wm_audits w /\ wm_calls w' = wm_calls w /\
  (0 < wm_interval w -> exists t', wm_last w' = <[driver := t']> (wm_last w) /\
     wm_accepted w' = wm_accepted w ++ [(driver, t, t')]).
Proof.
  unfold record, now. case_decide as Hi; [split_and!; try done; lia|].
  destruct (env_now (wm_env w)) as [t' e]. simpl. split_and!; try done. intros _. by exists t'.
Qed.

(** Everything the callers need to know about a write. *)
Record write_effect rg cmd w (r : WriteResult + error) w' : Prop := {
  we_audit : exists t, wm_audits w'
    = lastn writeAuditCapacity (wm_audits w ++ [audit_entry t cmd (succeeded r) (result_text r)]);
  we_queue : same_queue w w';
  we_calls : wm_calls w' = wm_calls w /\ succeeded r = false \/
    wm_calls w' = wm_calls w ++ [(cmd_Driver cmd, cmd)] /\ cmd_Driver cmd ∈ rg_drivers rg /\
    protection rg cmd = EmptyString;
  we_failed : succeeded r = false -> wm_last w' = wm_last w /\ wm_accepted w' = wm_accepted w;
  we_accepted : succeeded r = true -> 0 < wm_interval w -> exists t t',
    wm_last w' = <[cmd_Driver cmd := t']> (wm_last w) /\
    wm_accepted w' = wm_accepted w ++ [(cmd_Driver cmd, t, t')] /\
    forall prev, wm_last w !! cmd_Driver cmd = Some prev -> wm_interval w <= time_Sub t prev;
}.

(** The failure paths. *)
Lemma write_fail rg cmd w w0 err :
  wm_audits w0 = wm_audits w -> same_queue w w0 -> wm_last w0 = wm_last w ->
  wm_accepted w0 = wm_accepted w ->
  (wm_calls w0 = wm_calls w \/
   wm_calls w0 = wm_calls w ++ [(cmd_Driver cmd, cmd)] /\ cmd_Driver cmd ∈ rg_drivers rg /\
   protection rg cmd = EmptyString) ->
  write_effect rg cmd w (inr err) (recordWriteAudit cmd false (error_text err) w0).
Proof.
  intros E1 E2 E3 E4 Hc.
  destruct (recordWriteAudit_spec cmd false (error_text err) w0) as ((t & Ht) & Hq & Hcl & Hl & Ha).
  split; simpl; [exists t; by rewrite Ht, E1|by etrans|rewrite Hcl; naive_solver| |done].
  by rewrite Hl, Ha.
Qed.

Lemma driver_call_spec cmd w :
  let w' := (driver_call cmd w).2 in
  wm_audits w' = wm_audits w /\ same_queue w w' /\ wm_last w' = wm_last w /\
  wm_accepted w' = wm_accepted w /\ wm_calls w' = wm_calls w ++ [(cmd_Driver cmd, cmd)].
Proof. unfold driver_call. by destruct (env_write _ _ _) as [r e]. Qed.

(** The path on which the driver answered with a result. *)
Lemma write_result rg cmd w w2 res t :
  wm_audits w2 = wm_audits w -> same_queue w w2 -> wm_last w2 = wm_last w ->
  wm_accepted w2 = wm_accepted w -> wm_calls w2 = wm_calls w ++ [(cmd_Driver cmd, cmd)] ->
  cmd_Driver cmd ∈ rg_drivers rg -> protection rg cmd = EmptyString ->
  (0 < wm_interval w ->
   forall prev, wm_last w !! cmd_Driver cmd = Some prev -> wm_interval w <= time_Sub t prev) ->
  let w3 := recordWriteAudit cmd (wr_Success res) (wr_Error res) w2 in
  write_effect rg cmd w (inl res) (if wr_Success res then record (cmd_Driver cmd) t w3 else w3).
Proof.
  intros Ha2 Hq2 Hl2 Hac2 Hc2 Hdr Hpr Hpace w3.
  destruct (recordWriteAudit_spec cmd (wr_Success res) (wr_Error res) w2) as ((t' & Ht) & Hq & Hcl & Hl & Ha).
  fold w3 in Ht, Hq, Hcl, Hl, Ha. assert (wm_interval w3 = wm_interval w) as Ei.
  { destruct Hq as (_ & _ & _ & _ & ->). by destruct Hq2 as (_ & _ & _ & _ & ->). }
  destruct (wr_Success res) eqn:Es.
  - pose proof (record_spec (cmd_Driver cmd) t w3) as (Hq3 & Ha3 & Hc3 & Hr).
    split; simpl; rewrite ?Es; [exists t'; by rewrite Ha3, Ht, Ha2|by repeat (etrans; [done|])| |done|].
    + right. by rewrite Hc3, Hcl.
    + intros _ Hi. rewrite Ei in Hr. destruct (Hr Hi) as (tr & Hlr & Har). exists t, tr.
      rewrite Hlr, Hl, Hl2, Har, Ha, Hac2. split_and!; [done|done|]. by apply Hpace.
  - split; simpl; rewrite ?Es; [exists t'; by rewrite Ht, Ha2|by etrans| |by rewrite Hl, Ha|done].
    right. by rewrite Hcl.
Qed.

Lemma WriteTag_effect rg cmd w :
  let '(r, w') := WriteTag rg cmd w in write_effect rg cmd w r w'.
Proof.
  unfold WriteTag. fold (protection rg cmd).
  destruct (decide (cmd_Driver cmd ∉ rg_drivers rg)) as [Hd|Hd%dec_stable].
  { apply write_fail; [done|reflexivity|done|done|by left]. }
  destruct (decide (protection rg cmd <> EmptyString)) as [Hp|Hp%dec_stable].
  { apply write_fail; [done|reflexivity|done|done|by left]. }
  pose proof (check_spec (cmd_Driver cmd) w) as Hck.
  destruct (check (cmd_Driver cmd) w) as [[paced t] w1].
  destruct Hck as (Hq1 & Ha1 & Hc1 & Hl1 & Hac1 & Hpace).
  destruct paced as [err|]; [apply write_fail; [done..|by left]|].
  destruct (driver_call_spec cmd w1) as (Ha2 & Hq2 & Hl2 & Hac2 & Hc2).
  destruct (driver_call cmd w1) as [r w2]. simpl in *. rewrite Ha1, Hl1, Hac1, Hc1 in *.
  assert (same_queue w w2) by (by etrans).
  destruct r as [[|res results]|err]; [apply write_fail; [done..|by right]| |apply write_fail; [done..|by right]].
  apply write_result; [done..|]. by apply Hpace.
Qed.

(** Every write attempt leaves exactly one entry in the audit trail,
    saying what the caller is told, and the trail keeps the newest thousand;
    the driver is called at most once, and never for an unknown driver or a
    tag configured read-only; only an accepted write moves the pacing clock. *)
Theorem write_tag_audited rg cmd w :
  let '(r, w') := WriteTag rg cmd w in
  (exists t, wm_audits w'
     = lastn writeAuditCapacity (wm_audits w ++ [audit_entry t cmd (succeeded r) (result_text r)])) /\
  WriteHistory w' !! 0%nat = last (wm_audits w') /\
  (length (wm_audits w') <= writeAuditCapacity)%nat /\
  (wm_calls w' = wm_calls w /\ succeeded r = false \/
   wm_calls w' = wm_calls w ++ [(cmd_Driver cmd, cmd)] /\ cmd_Driver cmd ∈ rg_drivers rg /\
   protection rg cmd = EmptyString) /\
  (succeeded r = false -> wm_last w' = wm_last w).
Proof.
  pose proof (WriteTag_effect rg cmd w) as He. destruct (WriteTag rg cmd w) as [r w'].
  destruct He as [(t & Ht) _ Hc Hf _]. split_and!; [by exists t| | |done|naive_solver].
  - unfold WriteHistory. by rewrite <- head_lookup, head_reverse.
  - rewrite Ht. unfold lastn. rewrite length_drop. lia.
Qed.

(** ** Pacing *)

(** A trace of accepted writes in which each one was admitted at least an
    interval after the last accepted write to the same driver. *)
Fixpoint spaced (interval : Z) (lasts : gmap string Z) (tr : list (string * Z * Z)) : Prop :=
  match tr with
  | [] => True
  | (d, checked, recorded) :: tr' =>
      (forall prev, lasts !! d = Some prev -> interval <= checked - prev) /\
      spaced interval (<[d := recorded]> lasts) tr'
  end.

Definition run_writes (rg : registry) (cmds : list WriteCommand) w : writeManager E :=
  foldl (fun w cmd => (WriteTag rg cmd w).2) w cmds.

(** In any sequence of writes through one engine with pacing on, each
    write a device accepts was admitted at least the configured interval after
    the last one the same device accepted; drivers do not slow each other
    down, and refused or failed writes do not count. *)
Theorem pacing_spaces_writes rg cmds w :
  0 < wm_interval w ->
  exists tr, wm_accepted (run_writes rg cmds w) = wm_accepted w ++ tr /\
    spaced (wm_interval w) (wm_last w) tr.
Proof.
  revert w. induction cmds as [|cmd cmds IH]; intros w Hi; simpl.
  { exists []. by rewrite app_nil_r. }
  pose proof (WriteTag_effect rg cmd w) as He. destruct (WriteTag rg cmd w) as [r w1]. simpl.
  destruct He as [_ (_ & _ & _ & _ & Hint) _ Hf Ha].
  destruct (IH w1) as (tr & Htr & Hsp); [by rewrite Hint|]. unfold run_writes in *.
  rewrite Hint in Hsp. destruct (succeeded r).
  - destruct (Ha eq_refl Hi) as (t & t' & Hl & Hac & Hp). exists ((cmd_Driver cmd, t, t') :: tr).
    rewrite Htr, Hac, <- app_assoc. split; [done|]. simpl. rewrite <- Hl. split; [|done].
    intros prev Hprev. specialize (Hp prev Hprev). unfold time_Sub, minInt64, maxInt64 in Hp. lia.
  - destruct (Hf eq_refl) as [Hl Hac]. exists tr. by rewrite Htr, Hac, <- Hl.
Qed.

(** ** Commands *)

Definition push_bounded (maxLen : Z) (q : list DeadLetterEntry) (e : DeadLetterEntry)
    : list DeadLetterEntry :=
  if decide (Z.of_nat (length (q ++ [e])) > maxLen) then lastn (Z.to_nat maxLen) (q ++ [e])
  else q ++ [e].

Lemma deadLetter_spec cmd err n w :
  let w' := deadLetter cmd err n w in
  (exists t, wm_queue w' = push_bounded (wm_maxLen w) (wm_queue w) (mkDeadLetterEntry cmd err t n "")) /\
  wm_pushed w' = u64 (wm_pushed w + 1) /\ wm_calls w' = wm_calls w /\ wm_audits w' = wm_audits w.
Proof.
  unfold deadLetter, now. destruct (env_now (wm_env w)) as [t e]. unfold addDeadLetter. simpl.
  destruct (store_append _ _ _) as [st e']. simpl. split; [by exists t|done].
Qed.

(** How a command can end, and what it leaves behind. *)
Definition ended cmd (maxAttempts : Z) w (o : outcome) w' : Prop :=
  (exists k, wm_calls w' = wm_calls w ++ replicate k (cmd_Driver cmd, cmd) /\ Z.of_nat k <= maxAttempts) /\
  match o with
  | DeadLettered n =>
      (exists err t, wm_queue w'
         = push_bounded (wm_maxLen w) (wm_queue w) (mkDeadLetterEntry cmd err t n "")) /\
      wm_pushed w' = u64 (wm_pushed w + 1)
  | _ => wm_queue w' = wm_queue w /\ wm_pushed w' = wm_pushed w
  end /\
  match o with
  | Written => exists t msg, last (wm_audits w') = Some (audit_entry t cmd true msg)
  | _ => True
  end.

Lemma lastn_last {A} n (l : list A) x : (0 < n)%nat -> last (lastn n (l ++ [x])) = Some x.
Proof.
  intros Hn. unfold lastn. rewrite length_app, drop_app_le by (simpl; lia). apply last_snoc.
Qed.

Lemma retry_loop_ends rg cmd n attempt lastErr w :
  0 <= attempt ->
  let '(o, w') := retry_loop rg cmd n attempt lastErr w in
  ended cmd (Z.of_nat n) w o w' /\
  match o with
  | DeadLettered a => attempt <= a <= attempt + Z.of_nat n
  | Forwarded => False
  | _ => True
  end.
Proof.
  revert attempt lastErr w. induction n as [|n IH]; intros attempt lastErr w Hat.
  { simpl. destruct (deadLetter_spec cmd lastErr attempt w) as ((t & Hq) & Hp & Hc & _).
    split; [|lia]. split_and!; [exists 0%nat; rewrite app_nil_r; split; [done|lia]|by exists lastErr, t|done|done]. }
  cbn [retry_loop]. pose proof (WriteTag_effect rg cmd w) as He.
  destruct (WriteTag rg cmd w) as [r w1]. destruct He as [(t & Hau) (Hq & Hpu & Hml & _) Hc _ _].
  assert (exists k1, wm_calls w1 = wm_calls w ++ replicate k1 (cmd_Driver cmd, cmd) /\ (k1 <= 1)%nat) as (k1 & Hk1 & Hle1).
  { destruct Hc as [[-> _]|[-> _]]; [exists 0%nat; rewrite app_nil_r|exists 1%nat]; split; (done || lia). }
  set (failed := match r with inr err => _ | inl res => _ end).
  destruct failed as [err|] eqn:Ef.
  2: { assert (succeeded r = true) as Hs by (destruct r as [res|]; [by destruct (wr_Success res) eqn:?|done]).
       split; [|done]. split_and!; [exists k1; split; [done|lia]|done|done|].
       exists t, (result_text r). rewrite Hau, Hs. apply lastn_last. unfold writeAuditCapacity. lia. }
  destruct (isPermanentWriteError err).
  { destruct (deadLetter_spec cmd err (attempt + 1) w1) as ((t' & Hq') & Hp' & Hc' & _).
    split; [|lia]. split_and!; [exists k1; rewrite Hc'; split; [done|lia]| |by rewrite Hp', Hpu|done].
    exists err, t'. by rewrite Hq', Hml, Hq. }
  assert (forall w2, wm_calls w2 = wm_calls w1 -> wm_queue w2 = wm_queue w1 ->
    wm_pushed w2 = wm_pushed w1 -> wm_maxLen w2 = wm_maxLen w1 ->
    let '(o, w') := retry_loop rg cmd n (attempt + 1) err w2 in
    ended cmd (Z.of_nat (S n)) w o w' /\
    match o with
    | DeadLettered a => attempt <= a <= attempt + Z.of_nat (S n)
    | Forwarded => False
    | _ => True
    end) as Hrec.
  { intros w2 E1 E2 E3 E4. specialize (IH (attempt + 1) err w2 ltac:(lia)).
    destruct (retry_loop rg cmd n (attempt + 1) err w2) as [o w'].
    destruct IH as [((k & Hk & Hle) & Hout & Hwr) Hat']. split; [|destruct o; lia || done].
    split_and!.
    - exists (k1 + k)%nat. rewrite Hk, E1, Hk1, replicate_add, <- app_assoc. split; [done|lia].
    - rewrite E2, E3, E4, Hq, Hpu, Hml in Hout. done.
    - done. }
  case_decide; [by apply Hrec|]. destruct (env_wait _ _) as [stopped e]. destruct stopped.
  - split; [|done]. split_and!; [exists k1; split; [done|lia]|done|done|done].
  - by apply Hrec.
Qed.

Lemma try_forwarders_spec ts cmd w :
  let w' := (try_forwarders ts cmd w).2 in
  wm_calls w' = wm_calls w /\ wm_queue w' = wm_queue w /\ wm_pushed w' = wm_pushed w /\
  wm_maxLen w' = wm_maxLen w.
Proof.
  revert w. induction ts as [|[name f] ts IH]; intros w; simpl; [done|].
  destruct f; [|apply IH]. destruct (env_forward _ _ _) as [[err|] e]; [|done].
  destruct (IH (with_env e w)) as (-> & -> & -> & ->). done.
Qed.

(** A command ends in exactly one way: written (and audited as a
    success), forwarded, abandoned by a shutdown, or put into the dead-letter
    queue, which then got exactly one new entry, for this command, with the
    number of attempts, the oldest entries giving way when it is full.  The
    device is called at most once per attempt, and there are at most
    [writeRetryCount + 1] attempts. *)
Theorem command_ends_once rg cmd w :
  0 <= wm_writeRetryCount w ->
  let '(o, w') := executeWriteWithRetry rg cmd w in
  ended cmd (wm_writeRetryCount w + 1) w o w' /\
  match o with
  | DeadLettered a => 0 <= a <= wm_writeRetryCount w + 1
  | Forwarded => cmd_Driver cmd ∉ rg_drivers rg
  | _ => cmd_Driver cmd ∈ rg_drivers rg
  end.
Proof.
  intros Hr. unfold executeWriteWithRetry.
  destruct (decide (cmd_Driver cmd ∉ rg_drivers rg)) as [Hd|Hd%dec_stable].
  - unfold forwardCommand. set (ts := stable_sort _ _).
    destruct (try_forwarders_spec ts cmd w) as (Hc & Hq & Hp & Hm).
    destruct (try_forwarders ts cmd w) as [ok w1]. simpl in *. destruct ok.
    + split; [|done]. split_and!; [exists 0%nat; rewrite app_nil_r; split; [done|lia]|done|done|done].
    + set (msg := "driver not found: " +:+ _).
      destruct (deadLetter_spec cmd msg 1 w1) as ((t & Hq') & Hp' & Hc' & _). split; [|lia].
      split_and!; [exists 0%nat; rewrite app_nil_r, Hc', Hc; split; [done|lia]| |by rewrite Hp', Hp|done].
      exists msg, t. by rewrite Hq', Hm, Hq.
  - pose proof (retry_loop_ends rg cmd (Z.to_nat (wm_writeRetryCount w + 1)) 0 "" w ltac:(lia)) as Hl.
    destruct (retry_loop _ _ _ _ _ _) as [o w']. rewrite Z2Nat.id in Hl by lia.
    destruct Hl as [Hend Hat]. split; [done|]. by destruct o.
Qed.

Lemma protection_permanent tags name :
  tagWriteProtectionReason tags name <> EmptyString ->
  isPermanentWriteError (tagWriteProtectionReason tags name) = true.
Proof.
  intros Hr. assert (tagWriteProtectionReason tags name
    = ("tag " +:+ quote name +:+ " is read-only (") +:+ "protect: read-only" +:+ ")") as ->.
  { revert Hr. induction tags as [|t tags IH]; [done|]. cbn [tagWriteProtectionReason].
    case_decide; [done|]. case_decide; [|done]. intros _. by rewrite !str_app_assoc. }
  unfold isPermanentWriteError. apply existsb_exists. exists "protect: read-only"%string.
  split; [|apply str_contains_app]. right. right. by left.
Qed.

(** A command to a tag configured read-only is put into the
    dead-letter queue after a single attempt, without calling the driver. *)
Theorem protected_command_dead_lettered rg cmd w :
  0 <= wm_writeRetryCount w -> cmd_Driver cmd ∈ rg_drivers rg -> protection rg cmd <> EmptyString ->
  let '(o, w') := executeWriteWithRetry rg cmd w in
  o = DeadLettered 1 /\ wm_calls w' = wm_calls w /\
  exists t, wm_queue w' = push_bounded (wm_maxLen w) (wm_queue w)
                            (mkDeadLetterEntry cmd (protection rg cmd) t 1 "").
Proof.
  intros Hr Hd Hp. unfold executeWriteWithRetry. rewrite decide_False by naive_solver.
  destruct (Z.to_nat (wm_writeRetryCount w + 1)) as [|n] eqn:En; [lia|]. cbn [retry_loop].
  unfold WriteTag. fold (protection rg cmd). rewrite decide_False by naive_solver.
  rewrite decide_True by done. cbn [error_text].
  assert (isPermanentWriteError (protection rg cmd) = true) as ->.
  { unfold protection in *. destruct (rg_tags rg !! _); [by apply protection_permanent|done]. }
  set (w1 := recordWriteAudit _ _ _ _).
  destruct (recordWriteAudit_spec cmd false (protection rg cmd) w) as (_ & (Hq & _ & Hm & _) & Hc & _).
  fold w1 in Hq, Hm, Hc.
  destruct (deadLetter_spec cmd (protection rg cmd) (0 + 1) w1) as ((t & Hq') & _ & Hc' & _).
  split_and!; [done|by rewrite Hc'|]. exists t. by rewrite Hq', Hq, Hm.
Qed.
End manager.

(** ** Retry delays *)

(** The delay before retry [k] is 100 ms doubled [k] times and capped,
    up to the thirty-seventh attempt.  From the next one on the 64-bit product
    overflows below the cap: the delay is negative or zero, and from the
    fifty-seventh on always zero, so the remaining retries do not wait. *)
Theorem retry_delay_overflows :
  (forall k, 0 <= k <= 36 ->
     retryDelay defaultCommandRetryMaxDelay k
     = Z.min (defaultRetryBaseDelay * 2 ^ k) defaultCommandRetryMaxDelay) /\
  retryDelay defaultCommandRetryMaxDelay 37 < 0 /\
  (forall k, 56 <= k -> retryDelay defaultCommandRetryMaxDelay k = 0).
Proof.
  unfold retryDelay, defaultRetryBaseDelay, defaultCommandRetryMaxDelay, millisecond, second.
  split_and!.
  - intros k Hk. assert (2 ^ k <= 2 ^ 36) by (apply Z.pow_le_mono_r; lia).
    assert (1 <= 2 ^ k) by (apply (Z.pow_le_mono_r 2 0 k); lia).
    rewrite (wraps_small 64 (2 ^ k)) by lia. rewrite wraps_small by lia. case_decide; lia.
  - vm_compute. reflexivity.
  - intros k Hk. assert (i64 (100 * 1000000 * i64 (2 ^ k)) = 0) as ->; [|done].
    unfold wraps. assert (2 ^ k = 2 ^ 56 * 2 ^ (k - 56)) as E by (rewrite <- Z.pow_add_r by lia; f_equal; lia).
    set (m := (2 ^ k + 2 ^ (64 - 1)) mod 2 ^ 64).
    replace (100 * 1000000 * (m - 2 ^ (64 - 1)) + 2 ^ (64 - 1))
      with (100 * 1000000 * m + (2 ^ 63 - 100 * 1000000 * 2 ^ 63)) by lia.
    rewrite <- Zplus_mod_idemp_l. unfold m. rewrite Zmult_mod_idemp_r, Zplus_mod_idemp_l, E.
    replace (100 * 1000000 * (2 ^ 56 * 2 ^ (k - 56) + 2 ^ (64 - 1)) + (2 ^ 63 - 100 * 1000000 * 2 ^ 63))
      with (2 ^ 63 + (390625 * 2 ^ (k - 56)) * 2 ^ 64) by lia.
    rewrite Z_mod_plus_full. reflexivity.
Qed.

(** ** The command listener

    One listener goroutine, the slots of the shared semaphore that other
    listeners hold ([ls_busy]), and the commands it dispatched.  [ls_sent] is
    every command the transport ever put on the channel. *)

Record listener := mkListener {
  ls_sent : list WriteCommand;
  ls_ch : list WriteCommand;
  ls_held : list WriteCommand;      (* received, waiting for a slot: at most one *)
  ls_running : list WriteCommand;
  ls_done : list WriteCommand;
  ls_stranded : list WriteCommand;  (* dead-lettered by deadLetterStrandedCommands *)
  ls_busy : nat;
  ls_cancelled : bool;
  ls_exited : bool;
}.

Inductive ls_step (conc : nat) : listener -> listener -> Prop :=
| ls_send l c :
    ls_step conc l
      (mkListener (ls_sent l ++ [c]) (ls_ch l ++ [c]) (ls_held l) (ls_running l) (ls_done l)
         (ls_stranded l) (ls_busy l) (ls_cancelled l) (ls_exited l))
| ls_others l n :
    (length (ls_running l) + n <= conc)%nat ->
    ls_step conc l
      (mkListener (ls_sent l) (ls_ch l) (ls_held l) (ls_running l) (ls_done l)
         (ls_stranded l) n (ls_cancelled l) (ls_exited l))
| ls_recv l c ch :
    ls_exited l = false -> ls_held l = [] -> ls_ch l = c :: ch ->
    ls_step conc l
      (mkListener (ls_sent l) ch [stamp c] (ls_running l) (ls_done l)
         (ls_stranded l) (ls_busy l) (ls_cancelled l) (ls_exited l))
| ls_acquire l c :
    ls_exited l = false -> ls_held l = [c] -> (length (ls_running l) + ls_busy l < conc)%nat ->
    ls_step conc l
      (mkListener (ls_sent l) (ls_ch l) [] (ls_running l ++ [c]) (ls_done l)
         (ls_stranded l) (ls_busy l) (ls_cancelled l) (ls_exited l))
| ls_finish l r1 c r2 :
    ls_running l = r1 ++ c :: r2 ->
    ls_step conc l
      (mkListener (ls_sent l) (ls_ch l) (ls_held l) (r1 ++ r2) (ls_done l ++ [c])
         (ls_stranded l) (ls_busy l) (ls_cancelled l) (ls_exited l))
| ls_cancel l :
    ls_step conc l
      (mkListener (ls_sent l) (ls_ch l) (ls_held l) (ls_running l) (ls_done l)
         (ls_stranded l) (ls_busy l) true (ls_exited l))
| ls_exit l :
    (* deadLetterStrandedCommands: the held command, then what is buffered *)
    ls_exited l = false -> ls_cancelled l = true ->
    ls_step conc l
      (mkListener (ls_sent l) [] [] (ls_running l) (ls_done l)
         (ls_stranded l ++ strandedCommands (ls_held l) (ls_ch l)) (ls_busy l)
         (ls_cancelled l) true).

Definition ls_init : listener := mkListener [] [] [] [] [] [] 0 false false.

Record ls_inv (conc : nat) (l : listener) : Prop := {
  li_slots : (length (ls_running l) + ls_busy l <= conc)%nat;
  li_all : stamp <$> ls_sent l
    ≡ₚ (stamp <$> ls_ch l) ++ ls_held l ++ ls_running l ++ ls_done l ++ ls_stranded l;
  li_held : (length (ls_held l) <= 1)%nat;
  li_stamped : Forall (fun c => stamp c = c) (ls_held l);
  li_exited : ls_exited l = true -> ls_held l = [];
}.

Lemma stamp_idem c : stamp (stamp c) = stamp c.
Proof. done. Qed.

Lemma ls_step_inv conc l l' : ls_inv conc l -> ls_step conc l l' -> ls_inv conc l'.
Proof.
  intros [Hs Ha Hh Hst He] Hstep.
  destruct Hstep as [l c|l n Hn|l c ch Hx Hheld Hch|l c Hx Hheld Hlt|l r1 c r2 Hr|l|l Hx Hcn];
    split; simpl in *; try done; try lia.
  - rewrite !fmap_app, Ha. simpl. by solve_Permutation.
  - rewrite Ha, Hch, Hheld. simpl. by solve_Permutation.
  - by repeat constructor.
  - intros. congruence.
  - rewrite length_app. simpl. lia.
  - rewrite Ha, Hheld. simpl. by solve_Permutation.
  - rewrite Hr in Hs. rewrite length_app in *. simpl in *. lia.
  - rewrite Ha, Hr. by solve_Permutation.
  - unfold strandedCommands. assert (stamp <$> ls_held l = ls_held l) as ->
      by (clear -Hst; induction Hst as [|c h Hc _ IH]; [done|]; rewrite fmap_cons; by rewrite Hc, IH).
    rewrite Ha. by solve_Permutation.
Qed.


(** ** A demonstration *)
Module Demo.
(** A clock in nanoseconds, a driver that accepts every write, no forwarder,
    and waits that take exactly their time. *)
#[local] Instance env : WriteEnv Z := {|
  env_now t := (t, t);
  env_write _ _ t := (inl [mkWriteResult true ""], t);
  env_forward _ _ t := (Some (ErrNew "offline"), t);
  env_wait d t := (false, t + d);
  env_disk t := (NoFault, t);
|}.

#[local] Instance audit_codec : LineCodec WriteAuditEntry :=
  {| marshal _ := None; unmarshal _ := None |}.
#[local] Instance dead_codec : LineCodec DeadLetterEntry :=
  {| marshal _ := None; unmarshal _ := None |}.

Definition cmd (tag : string) : WriteCommand :=
  mkWriteCommand "plc" "" tag (VBool true) TypeBool "command" "" false.
Definition locked : TagConfig :=
  mkTagConfig "locked" "1" "bool" "" "" f_zero f_zero f_zero "" "" "read-only" "" "".
Definition rg : registry := mkRegistry {["plc"%string]} {["plc"%string := [locked]]} [].

(** 150 ms after the last accepted write, with one write allowed every 200 ms. *)
Definition paced : writeManager Z :=
  mkWM (second + 150 * millisecond) 3 (200 * millisecond) {["plc"%string := second]} [] None [] 1000 0 None [] [].
End Demo.

Lemma pacing_spaces_writes_witness :
  exists tr,
    wm_accepted (run_writes (H := Demo.env) (H0 := Demo.audit_codec) Demo.rg [Demo.cmd "a"; Demo.cmd "b"] Demo.paced)
    = tr /\ spaced (200 * millisecond) {["plc"%string := second]} tr.
Proof.
  exact (pacing_spaces_writes (H := Demo.env) (H0 := Demo.audit_codec) Demo.rg
    [Demo.cmd "a"; Demo.cmd "b"] Demo.paced eq_refl).
Defined.

Lemma command_ends_once_witness :
  ended (Demo.cmd "a") 4 Demo.paced
    (executeWriteWithRetry (H := Demo.env) (H0 := Demo.audit_codec) (H1 := Demo.dead_codec)
       Demo.rg (Demo.cmd "a") Demo.paced).1
    (executeWriteWithRetry (H := Demo.env) (H0 := Demo.audit_codec) (H1 := Demo.dead_codec)
       Demo.rg (Demo.cmd "a") Demo.paced).2.
Proof.
  pose proof (command_ends_once (H := Demo.env) (H0 := Demo.audit_codec) (H1 := Demo.dead_codec)
    Demo.rg (Demo.cmd "a") Demo.paced ltac:(simpl; lia)) as Hw. revert Hw.
  match goal with |- context [executeWriteWithRetry ?a ?b ?c] =>
    destruct (executeWriteWithRetry a b c) as [o w'] end.
  intros [He _]. exact He.
Defined.

Lemma protected_command_dead_lettered_witness :
  (executeWriteWithRetry (H := Demo.env) (H0 := Demo.audit_codec) (H1 := Demo.dead_codec)
     Demo.rg (Demo.cmd "locked") Demo.paced).1 = DeadLettered 1.
Proof.
  pose proof (protected_command_dead_lettered (H := Demo.env) (H0 := Demo.audit_codec) (H1 := Demo.dead_codec)
    Demo.rg (Demo.cmd "locked") Demo.paced) as Hw. revert Hw.
  match goal with |- context [executeWriteWithRetry ?a ?b ?c] =>
    destruct (executeWriteWithRetry a b c) as [o w'] end.
  intros Hw. apply Hw; vm_compute; congruence.
Defined.


(** A command refused by the pacing floor is not dead-lettered:
    it is retried like a device failure, and here the second attempt, 100 ms
    later, writes it. *)
Theorem paced_command_retried :
  let '(o, w) := executeWriteWithRetry (H := Demo.env) (H0 := Demo.audit_codec) (H1 := Demo.dead_codec)
                   Demo.rg (Demo.cmd "a") Demo.paced in
  o = Written /\ wm_queue w = [] /\ wa_Success <$> wm_audits w = [false; true] /\
  errors_Is (pacedError "plc" (200 * millisecond) (50 * millisecond)) ErrWritePaced = true /\
  wa_Error <$> head (wm_audits w)
  = Some (error_text (pacedError "plc" (200 * millisecond) (50 * millisecond))).
Proof. vm_compute. done. Qed.
