(* ===== verification/Batcher.v ===== *)
(** * The transport batcher ([engine/batcher.go], [engine/batcher_retry.go])

    Buffering points into batches, the bounded queue of full batches, the
    flush goroutine, shutdown, and the publication of one batch with retries
    and the offline buffer.  The goroutines interleave in a step relation:
    [publish] holds a mutex, but the flush goroutine takes batches from the
    queue without it. *)

From Stdlib Require Import ZArith Lia String.
From stdpp Require Import base list gmap strings relations.
From S2P Require Import Prelude GoFloat GoTime Types JsonlStore WriteManager.

Open Scope Z_scope.

Definition defaultRetryMaxDelay : Z := 5 * second.
Definition defaultFlushInterval : Z := 5 * second.
Definition defaultFlushBatchQueueSize : nat := 64.
Definition DefaultBatchSize : Z := 100.
Definition DefaultShutdownTimeout : Z := 30 * second.

(** ** Construction *)

Record TransportConfig := mkTransportConfig {
  tr_BatchSize : Z;
  tr_FlushInterval : string;
  tr_RetryCount : Z;
}.

(** The parameters of a batcher. *)
Record batcherConfig := mkBatcherConfig {
  bc_batchSize : Z;
  bc_flushInterval : Z;
  bc_retryCount : Z;
  bc_offline : bool;
  bc_shutdownBudget : Z;
}.

Definition newTransportBatcher `{GoArch} (cfg : TransportConfig) (offline : bool)
    (shutdownBudget : Z) : option batcherConfig :=
  if decide (tr_BatchSize cfg <= 0 /\ tr_FlushInterval cfg = EmptyString /\
             tr_RetryCount cfg <= 0 /\ offline = false) then None
  else
    let interval :=
      if decide (tr_FlushInterval cfg <> EmptyString) then
        match ParseDuration (tr_FlushInterval cfg) with
        | Some d => if decide (d > 0) then d else 0
        | None => 0
        end
      else 0 in
    Some (mkBatcherConfig
      (if decide (tr_BatchSize cfg <= 0) then DefaultBatchSize else tr_BatchSize cfg)
      (if decide (offline = true /\ interval <= 0) then defaultFlushInterval else interval)
      (tr_RetryCount cfg) offline
      (if decide (shutdownBudget > 0) then shutdownBudget else DefaultShutdownTimeout)).

(** ** Publishing one batch *)

(** [PublishBatch] and [OfflineBuffer.Push] with their errors, and a wait that
    says whether the context was done first. *)
Class PublishEnv (E : Type) := {
  env_publish : list DataPoint -> E -> option error * E;
  env_push : list DataPoint -> E -> option error * E;
  env_backoff : Z -> E -> bool * E;
}.

(** What became of a batch. *)
Inductive fate := Published | Buffered | Lost.

Section publish.
Context {E : Type} `{PublishEnv E} (cfg : batcherConfig).

(** The code after the label [exhausted]. *)
Definition exhausted (batch : list DataPoint) (e : E) : fate * E :=
  if bc_offline cfg then
    let '(err, e) := env_push batch e in
    (match err with None => Buffered | Some _ => Lost end, e)
  else (Lost, e).

Fixpoint attempts (n : nat) (attempt : Z) (batch : list DataPoint) (e : E) : fate * E :=
  match n with
  | O => exhausted batch e
  | S n' =>
      let '(err, e) := env_publish batch e in
      match err with
      | None => (Published, e)
      | Some _ =>
          if decide (n' = 0%nat) then attempts n' (attempt + 1) batch e
          else
            let '(done_, e) := env_backoff (retryDelay defaultRetryMaxDelay attempt) e in
            if done_ then exhausted batch e else attempts n' (attempt + 1) batch e
      end
  end.

Definition publishWithRetryAndBuffer (batch : list DataPoint) (e : E) : fate * E :=
  attempts (Z.to_nat (bc_retryCount cfg + 1)) 0 batch e.
End publish.

(** ** The buffering state *)

(** Where a [publish] that filled a batch stands. *)
Inductive publisher := PIdle | PEvict (b : list DataPoint) | PRetry (b : list DataPoint).

(** [bt_gone] lists the batches that left, in order, with whether the flush
    goroutine took them (or they were evicted); [bt_accepted] the points
    [publish] accepted, in order; [bt_results] what became of those taken. *)
Record batcher := mkBatcher {
  bt_buffer : list DataPoint;
  bt_queue : list (list DataPoint);
  bt_pub : publisher;
  bt_inflight : option (list DataPoint);
  bt_stopped : bool;
  bt_cancelled : bool;
  bt_exited : bool;
  bt_dropped : nat;
  bt_rejected : nat;
  bt_failed : nat;   (* publish calls that returned the queue-full error *)
  bt_accepted : list DataPoint;
  bt_gone : list (bool * list DataPoint);
  bt_results : list (list DataPoint * fate);
}.

Definition bt_init : batcher :=
  mkBatcher [] [] PIdle None false false false 0 0 0 [] [] [].

(** [publish] up to the first send: the stopped check, the append and, when the
    batch is full, the send or the step to the eviction. *)
Definition publish (size : Z) (p : DataPoint) (b : batcher) : batcher :=
  if bt_stopped b then
    mkBatcher (bt_buffer b) (bt_queue b) (bt_pub b) (bt_inflight b) (bt_stopped b)
      (bt_cancelled b) (bt_exited b) (bt_dropped b) (S (bt_rejected b)) (bt_failed b)
      (bt_accepted b) (bt_gone b) (bt_results b)
  else
    let buffer := bt_buffer b ++ [p] in
    let upd buffer queue pub :=
      mkBatcher buffer queue pub (bt_inflight b) (bt_stopped b) (bt_cancelled b) (bt_exited b)
        (bt_dropped b) (bt_rejected b) (bt_failed b) (bt_accepted b ++ [p]) (bt_gone b)
        (bt_results b) in
    if decide (Z.of_nat (length buffer) < size) then upd buffer (bt_queue b) PIdle
    else if decide (length (bt_queue b) < defaultFlushBatchQueueSize)%nat
         then upd [] (bt_queue b ++ [buffer]) PIdle
         else upd [] (bt_queue b) (PEvict buffer).

(** The eviction of the oldest pending batch. *)
Definition publish_evict (batch : list DataPoint) (b : batcher) : batcher :=
  match bt_queue b with
  | x :: q =>
      mkBatcher (bt_buffer b) q (PRetry batch) (bt_inflight b) (bt_stopped b) (bt_cancelled b)
        (bt_exited b) (S (bt_dropped b)) (bt_rejected b) (bt_failed b) (bt_accepted b)
        (bt_gone b ++ [(false, x)]) (bt_results b)
  | [] =>
      mkBatcher (bt_buffer b) [] (PRetry batch) (bt_inflight b) (bt_stopped b) (bt_cancelled b)
        (bt_exited b) (bt_dropped b) (bt_rejected b) (bt_failed b) (bt_accepted b)
        (bt_gone b) (bt_results b)
  end.

(** The second send; when it fails the new batch is dropped. *)
Definition publish_retry (batch : list DataPoint) (b : batcher) : batcher :=
  if decide (length (bt_queue b) < defaultFlushBatchQueueSize)%nat then
    mkBatcher (bt_buffer b) (bt_queue b ++ [batch]) PIdle (bt_inflight b) (bt_stopped b)
      (bt_cancelled b) (bt_exited b) (bt_dropped b) (bt_rejected b) (bt_failed b)
      (bt_accepted b) (bt_gone b) (bt_results b)
  else
    mkBatcher (bt_buffer b) (bt_queue b) PIdle (bt_inflight b) (bt_stopped b)
      (bt_cancelled b) (bt_exited b) (S (bt_dropped b)) (bt_rejected b) (S (bt_failed b))
      (bt_accepted b) (bt_gone b) (bt_results b).

(** The flush goroutine takes a batch from the queue, or the partial buffer. *)
Definition take_batch (x : list DataPoint) (q : list (list DataPoint)) (b : batcher) : batcher :=
  mkBatcher (bt_buffer b) q (bt_pub b) (Some x) (bt_stopped b) (bt_cancelled b) (bt_exited b)
    (bt_dropped b) (bt_rejected b) (bt_failed b) (bt_accepted b) (bt_gone b ++ [(true, x)])
    (bt_results b).

Definition flush (b : batcher) : batcher :=
  match bt_buffer b, bt_queue b with
  | [], _ => b
  | _, _ :: _ => b
  | batch, [] =>
      mkBatcher [] [] (bt_pub b) (Some batch) (bt_stopped b) (bt_cancelled b) (bt_exited b)
        (bt_dropped b) (bt_rejected b) (bt_failed b) (bt_accepted b)
        (bt_gone b ++ [(true, batch)]) (bt_results b)
  end.

(** [flushFinal] does not look at the queue. *)
Definition flushFinal (b : batcher) : batcher :=
  match bt_buffer b with
  | [] => b
  | batch =>
      mkBatcher [] (bt_queue b) (bt_pub b) (Some batch) (bt_stopped b) (bt_cancelled b)
        (bt_exited b) (bt_dropped b) (bt_rejected b) (bt_failed b) (bt_accepted b)
        (bt_gone b ++ [(true, batch)]) (bt_results b)
  end.

Definition finish (x : list DataPoint) (r : fate) (b : batcher) : batcher :=
  mkBatcher (bt_buffer b) (bt_queue b) (bt_pub b) None (bt_stopped b) (bt_cancelled b)
    (bt_exited b) (bt_dropped b) (bt_rejected b) (bt_failed b) (bt_accepted b) (bt_gone b)
    (bt_results b ++ [(x, r)]).

Definition with_flags (stopped cancelled exited : bool) (b : batcher) : batcher :=
  mkBatcher (bt_buffer b) (bt_queue b) (bt_pub b) (bt_inflight b) stopped cancelled exited
    (bt_dropped b) (bt_rejected b) (bt_failed b) (bt_accepted b) (bt_gone b) (bt_results b).

(** The interleavings. *)
Inductive bt_step (size : Z) : batcher -> batcher -> Prop :=
| bt_publish b p : bt_pub b = PIdle -> bt_step size b (publish size p b)
| bt_evict b x : bt_pub b = PEvict x -> bt_step size b (publish_evict x b)
| bt_resend b x : bt_pub b = PRetry x -> bt_step size b (publish_retry x b)
| bt_take b x q :
    bt_exited b = false -> bt_inflight b = None -> bt_queue b = x :: q ->
    bt_step size b (take_batch x q b)
| bt_tick b :
    bt_exited b = false -> bt_inflight b = None -> bt_pub b = PIdle ->
    bt_step size b (flush b)
| bt_finish b x r : bt_inflight b = Some x -> bt_step size b (finish x r b)
| bt_stop b :  (* stop(): the flag under the mutex *)
    bt_pub b = PIdle -> bt_step size b (with_flags true (bt_cancelled b) (bt_exited b) b)
| bt_cancel b :
    bt_stopped b = true -> bt_step size b (with_flags true true (bt_exited b) b)
| bt_exit b :  (* the flush goroutine returns once the queue is drained *)
    bt_cancelled b = true -> bt_inflight b = None -> bt_queue b = [] ->
    bt_step size b (with_flags (bt_stopped b) true true b)
| bt_final b :  (* stop() after the goroutines returned *)
    bt_exited b = true -> bt_inflight b = None -> bt_pub b = PIdle ->
    bt_step size b (flushFinal b).

(** ** Nothing is stranded *)

Definition pending (b : batcher) : list (list DataPoint) :=
  match bt_pub b with PIdle => [] | PEvict x | PRetry x => [x] end.

Definition evicted (b : batcher) : list (bool * list DataPoint) :=
  filter (fun g => g.1 = false) (bt_gone b).

Definition taken (b : batcher) : list (list DataPoint) :=
  (filter (fun g => g.1 = true) (bt_gone b)).*2.

Record bt_inv (b : batcher) : Prop := {
  bi_order : bt_accepted b = concat ((bt_gone b).*2 ++ bt_queue b ++ pending b) ++ bt_buffer b;
  bi_queue : (length (bt_queue b) <= defaultFlushBatchQueueSize)%nat;
  bi_retry : forall x, bt_pub b = PRetry x -> (length (bt_queue b) < defaultFlushBatchQueueSize)%nat;
  bi_failed : bt_failed b = 0%nat;
  bi_dropped : bt_dropped b = length (evicted b);
  bi_taken : taken b = (bt_results b).*1 ++ option_list (bt_inflight b);
  bi_stopped : bt_stopped b = true -> bt_pub b = PIdle;
  bi_cancelled : bt_cancelled b = true -> bt_stopped b = true;
  bi_exited : bt_exited b = true -> bt_cancelled b = true /\ bt_queue b = [];
}.

Lemma taken_snoc gone x :
  (filter (fun g : bool * list DataPoint => g.1 = true) (gone ++ [(true, x)])).*2
  = (filter (fun g => g.1 = true) gone).*2 ++ [x].
Proof. by rewrite filter_app, fmap_app. Qed.

Lemma evicted_taken gone x :
  filter (fun g : bool * list DataPoint => g.1 = false) (gone ++ [(true, x)])
  = filter (fun g => g.1 = false) gone.
Proof. rewrite filter_app. apply app_nil_r. Qed.

Lemma taken_evicted gone x :
  filter (fun g : bool * list DataPoint => g.1 = true) (gone ++ [(false, x)])
  = filter (fun g => g.1 = true) gone.
Proof. rewrite filter_app. apply app_nil_r. Qed.

#[local] Hint Rewrite @fmap_app @concat_app @app_nil_r : batcher.
#[local] Hint Rewrite <- @app_assoc : batcher.

Lemma publish_inv size p b : bt_pub b = PIdle -> bt_inv b -> bt_inv (publish size p b).
Proof.
  intros Hp [Ho Hq Hr Hf Hd Ht Hs Hc Hx]. unfold publish, pending, evicted, taken in *. rewrite Hp in *.
  destruct (bt_stopped b) eqn:Es.
  { split; simpl; unfold pending; simpl; rewrite ?Hp; auto. }
  assert (bt_exited b = true -> False) as Hnx.
  { intros E. destruct (Hx E) as [E2 _]. specialize (Hc E2). done. }
  assert (bt_cancelled b = true -> False) as Hnc by (intros E; by specialize (Hc E)).
  destruct (decide (Z.of_nat _ < size)); [|destruct (decide (_ < _)%nat)];
    split; unfold pending, evicted, taken; simpl; try done; try (intros E; by destruct (Hnx E));
    try (intros E; by destruct (Hnc E)).
  - rewrite Ho. by rewrite <- app_assoc.
  - rewrite Ho. autorewrite with batcher. simpl. by autorewrite with batcher.
  - rewrite length_app. simpl. lia.
  - rewrite Ho. autorewrite with batcher. simpl. by autorewrite with batcher.
Qed.

Lemma evict_inv x b : bt_pub b = PEvict x -> bt_inv b -> bt_inv (publish_evict x b).
Proof.
  intros Hp [Ho Hq Hr Hf Hd Ht Hs Hc Hx]. unfold publish_evict, pending, evicted, taken in *. rewrite Hp in *.
  assert (bt_stopped b = true -> False) as Hns by (intros E; by specialize (Hs E)).
  destruct (bt_queue b) as [|y q] eqn:Eq; split; unfold pending, evicted, taken; simpl; try done;
    try (intros E; by destruct (Hns E)).
  - intros ? _. unfold defaultFlushBatchQueueSize. lia.
  - rewrite Ho. autorewrite with batcher. simpl. by autorewrite with batcher.
  - simpl in Hq. lia.
  - rewrite filter_app, length_app. simpl. lia.
  - by rewrite taken_evicted.
  - intros E. destruct (Hx E). done.
Qed.

Lemma retry_inv x b : bt_pub b = PRetry x -> bt_inv b -> bt_inv (publish_retry x b).
Proof.
  intros Hp [Ho Hq Hr Hf Hd Ht Hs Hc Hx]. unfold publish_retry, pending, evicted, taken in *.
  rewrite decide_True by (by eapply Hr). rewrite Hp in *. specialize (Hr x eq_refl).
  assert (bt_stopped b = true -> False) as Hns by (intros E; by specialize (Hs E)).
  split; unfold pending, evicted, taken; simpl; try done; try (intros E; by destruct (Hns E)).
  - rewrite Ho. autorewrite with batcher. simpl. by autorewrite with batcher.
  - rewrite length_app. simpl. lia.
  - intros E. destruct (Hx E) as [E2 _]. destruct (Hns (Hc E2)).
Qed.

Lemma take_inv x q b :
  bt_inflight b = None -> bt_queue b = x :: q -> bt_inv b -> bt_inv (take_batch x q b).
Proof.
  intros Hi Heq [Ho Hq Hr Hf Hd Ht Hs Hc Hx]. unfold pending, evicted, taken in *. rewrite Hi, Heq in *.
  simpl in *. split; unfold pending, evicted, taken; simpl; try done.
  - rewrite Ho. autorewrite with batcher. simpl. by autorewrite with batcher.
  - lia.
  - by rewrite evicted_taken.
  - rewrite taken_snoc, Ht. by rewrite app_nil_r.
  - intros E. by destruct (Hx E).
Qed.

(** Taking the partial buffer behind an empty queue. *)
Lemma take_buffer_inv b :
  bt_inflight b = None -> bt_queue b = [] -> bt_pub b = PIdle -> bt_inv b ->
  bt_inv (mkBatcher [] [] (bt_pub b) (Some (bt_buffer b)) (bt_stopped b) (bt_cancelled b) (bt_exited b)
        (bt_dropped b) (bt_rejected b) (bt_failed b) (bt_accepted b)
        (bt_gone b ++ [(true, bt_buffer b)]) (bt_results b)).
Proof.
  intros Hi Heq Hp [Ho Hq Hr Hf Hd Ht Hs Hc Hx]. unfold pending, evicted, taken in *. rewrite Hi, Heq, Hp in *.
  simpl in *. split; unfold pending, evicted, taken; simpl; try done.
  - rewrite Ho. autorewrite with batcher. simpl. by autorewrite with batcher.
  - by rewrite evicted_taken.
  - rewrite taken_snoc, Ht. by rewrite app_nil_r.
Qed.

Lemma flush_inv b : bt_inflight b = None -> bt_pub b = PIdle -> bt_inv b -> bt_inv (flush b).
Proof.
  intros Hi Hp Hb. pose proof (take_buffer_inv b Hi) as Ht. unfold flush.
  destruct (bt_buffer b); [done|]. destruct (bt_queue b); [|done]. by apply Ht.
Qed.

Lemma final_inv b :
  bt_exited b = true -> bt_inflight b = None -> bt_pub b = PIdle -> bt_inv b -> bt_inv (flushFinal b).
Proof.
  intros Hx Hi Hp Hb. pose proof (take_buffer_inv b Hi) as Ht. unfold flushFinal.
  destruct (bi_exited b Hb Hx) as [_ Heq]. rewrite Heq in *. destruct (bt_buffer b); [done|]. by apply Ht.
Qed.

Lemma bt_step_inv size b b' : bt_inv b -> bt_step size b b' -> bt_inv b'.
Proof.
  intros Hb Hstep.
  destruct Hstep as [b p Hp|b x Hp|b x Hp|b x q Hx Hi Hq|b Hx Hi Hp|b x r Hi|b Hp|b Hs|b Hc Hi Hq|b Hx Hi Hp];
    auto using publish_inv, evict_inv, retry_inv, take_inv, flush_inv, final_inv;
    destruct Hb as [Ho Hqq Hr Hf Hd Ht Hst Hcn Hxx]; split; simpl; auto.
  - unfold taken. simpl. rewrite Hi in Ht. simpl in Ht. rewrite fmap_app. simpl. by rewrite app_nil_r.
  - intros E. split; [done|]. by destruct (Hxx E).
Qed.



(** ** The fate of a batch *)

Section fate.
Context {E : Type} `{PublishEnv E} (cfg : batcherConfig).

(** With an offline buffer that stores what it is given, no batch
    is lost: whatever the transport answers and whenever the context ends, it
    is published or on disk. *)
Theorem batch_never_lost batch e :
  bc_offline cfg = true -> (forall b e, (env_push b e).1 = None) ->
  (publishWithRetryAndBuffer cfg batch e).1 <> Lost.
Proof.
  intros Ho Hp. assert (forall e, (exhausted cfg batch e).1 <> Lost) as Hx.
  { intros e'. unfold exhausted. rewrite Ho. specialize (Hp batch e').
    destruct (env_push batch e') as [err e2]. simpl in Hp. by subst. }
  unfold publishWithRetryAndBuffer. generalize (Z.to_nat (bc_retryCount cfg + 1)), 0.
  intros n. revert e. induction n as [|n IH]; intros e a; cbn [attempts]; [apply Hx|].
  destruct (env_publish batch e) as [[err|] e']; [|done].
  case_decide; [apply IH|]. destruct (env_backoff _ e') as [[] e2]; [apply Hx|apply IH].
Qed.

(** The batches the flush goroutine finds in the queue when it stops. *)
Fixpoint drainFlushBatches (queue : list (list DataPoint)) (e : E) : list fate * E :=
  match queue with
  | [] => ([], e)
  | batch :: rest =>
      let '(r, e) := publishWithRetryAndBuffer cfg batch e in
      let '(rs, e) := drainFlushBatches rest e in (r :: rs, e)
  end.

(** Without an offline buffer, every batch still queued at shutdown
    is lost, even with a healthy transport: the queue is drained under the
    cancelled context, in which a transport that honours its context refuses
    to publish. *)
Theorem shutdown_drops_queue (cancelled : E -> Prop) queue e :
  bc_offline cfg = false ->
  (forall b e, cancelled e -> (env_publish b e).1 <> None /\ cancelled (env_publish b e).2) ->
  (forall d e, cancelled e -> cancelled (env_backoff d e).2) ->
  cancelled e -> (drainFlushBatches queue e).1 = replicate (length queue) Lost.
Proof.
  intros Ho Hpub Hback.
  assert (forall n a batch e, cancelled e ->
    (attempts cfg n a batch e).1 = Lost /\ cancelled (attempts cfg n a batch e).2) as Hat.
  { intros n. induction n as [|n IH]; intros a batch e0 Hc; cbn [attempts].
    - unfold exhausted. by rewrite Ho.
    - destruct (Hpub batch e0 Hc) as [Hn Hc1]. destruct (env_publish batch e0) as [[err|] e1]; [|done].
      simpl in Hc1. case_decide; [by apply IH|]. specialize (Hback (retryDelay defaultRetryMaxDelay a) e1 Hc1).
      destruct (env_backoff _ e1) as [[] e2]; [unfold exhausted; by rewrite Ho|by apply IH]. }
  revert e. induction queue as [|batch queue IH]; intros e Hc; cbn [drainFlushBatches]; [done|].
  unfold publishWithRetryAndBuffer. destruct (Hat (Z.to_nat (bc_retryCount cfg + 1)) 0 batch e Hc) as [Hl Hc1].
  destruct (attempts _ _ _ _ _) as [r e1]. simpl in *. specialize (IH e1 Hc1).
  destruct (drainFlushBatches queue e1) as [rs e2]. simpl in *. by rewrite Hl, IH.
Qed.
End fate.

(** ** A transport with a switch *)
Module Demo.
(** The state says whether the context is still live. *)
#[local] Instance env : PublishEnv bool := {|
  env_publish _ (live : bool) := (if live then None else Some (ErrNew "context canceled"), live);
  env_push _ live := (None, live);
  env_backoff _ live := (negb live, live);
|}.
Definition cfg (offline : bool) : batcherConfig := mkBatcherConfig 2 0 1 offline second.
Definition point (tag : string) : DataPoint :=
  mkDataPoint "plc" "" "g" tag (VBool true) TypeBool QualityGood 0 ∅ false.
End Demo.

Lemma batch_never_lost_witness :
  (publishWithRetryAndBuffer (H := Demo.env) (Demo.cfg true) [Demo.point "a"] false).1 <> Lost.
Proof. exact (batch_never_lost (H := Demo.env) (Demo.cfg true) [Demo.point "a"] false eq_refl (fun _ _ => eq_refl)). Defined.

Lemma shutdown_drops_queue_witness :
  (drainFlushBatches (H := Demo.env) (Demo.cfg false) [[Demo.point "a"]; [Demo.point "b"]] false).1
  = [Lost; Lost].
Proof.
  apply (shutdown_drops_queue (H := Demo.env) (Demo.cfg false) (fun live => live = false)
    [[Demo.point "a"]; [Demo.point "b"]] false).
  - reflexivity.
  - intros b e ->. split; [discriminate|reflexivity].
  - intros d e ->. reflexivity.
  - reflexivity.
Defined.
