(* ===== verification/StoreForward.v ===== *)
(** * Store and forward ([engine/batcher.go], [engine/batcher_retry.go], [engine/offlinebuffer.go])

    The batchers of all transports over the one offline buffer they share: a
    batch that its transport does not take is stored, and the drain loop of the
    batcher replays what its transport left there.  The transports are the class
    [Transports]; the log holds the batches they accepted.

    The theorem shows that nothing is lost or delivered twice: at any moment the
    batches handed over are those accepted together with those still on disk,
    which are kept in order. *)

From Stdlib Require Import ZArith Lia String.
From stdpp Require Import base list gmap strings relations.
From S2P Require Import Prelude GoFloat GoTime Types OfflineBuffer Batcher.

Open Scope Z_scope.

(** [T]: the transports and the clock.  [tp_publish] is [PublishBatch] of the
    named transport, [tp_wait] a wait between two attempts, true when the
    batcher is stopped meanwhile. *)
Class Transports (T : Type) := {
  tp_publish : string -> list DataPoint -> T -> option error * T;
  tp_wait : Z -> T -> bool * T;
  tp_now : T -> Z;
}.

Record world (data T : Type) := mkWorld {
  sw_buf : OfflineBuffer data;
  sw_tr : T;
  sw_log : list (string * list DataPoint);   (* accepted, in order *)
  sw_published : Z;                          (* points counted by [onPublish] *)
}.
Arguments mkWorld {data T} _ _ _ _.
Arguments sw_buf {data T} _.
Arguments sw_tr {data T} _.
Arguments sw_log {data T} _.
Arguments sw_published {data T} _.

(** The batches of one transport. *)
Definition of_transport (name : string) (p : string * list DataPoint) : Prop := p.1 = name.
#[export] Instance of_transport_dec name p : Decision (of_transport name p).
Proof. unfold of_transport. apply _. Defined.

Section forward.
Context {data T : Type} `{EntryCodec data} `{Transports T}.
Implicit Types w : world data T.

Definition accepted (name : string) (batches : list (list DataPoint)) (t : T) (ob : OfflineBuffer data) w
    : world data T :=
  mkWorld ob t (sw_log w ++ (pair name <$> batches))
    (foldl (fun n b => u64 (n + Z.of_nat (length b))) (sw_published w) batches).

(** What the publication of a batch uses, on a healthy disk. *)
Definition batcherEnv (name : string) : PublishEnv (world data T) := {|
  env_publish batch w :=
    match tp_publish name batch (sw_tr w) with
    | (None, t) => (None, accepted name [batch] t (sw_buf w) w)
    | (Some e, t) => (Some e, mkWorld (sw_buf w) t (sw_log w) (sw_published w))
    end;
  env_push batch w :=
    let '(ob, err) := Push (fun _ => true) NoFault (tp_now (sw_tr w)) batch name (sw_buf w) in
    (err, mkWorld ob (sw_tr w) (sw_log w) (sw_published w));
  env_backoff d w :=
    let '(done_, t) := tp_wait d (sw_tr w) in
    (done_, mkWorld (sw_buf w) t (sw_log w) (sw_published w));
|}.

(** The transport's answers to these batches, one after the other. *)
Fixpoint answers (name : string) (batches : list (list DataPoint)) (t : T) : list bool * T :=
  match batches with
  | [] => ([], t)
  | b :: batches =>
      let '(err, t) := tp_publish name b t in
      let '(l, t) := answers name batches t in
      (bool_decide (err = None) :: l, t)
  end.

(** The batches of one transport, oldest first. *)
Definition ownBatches (name : string) (ob : OfflineBuffer data) : list (list DataPoint) :=
  omap (owned (ob_files ob) name) (seqs (ob_files ob)).

(** [drainOnce]: the answer of the transport to the k-th batch decides whether
    the drain goes on. *)
Definition drainOnce (name : string) w : world data T :=
  let own := ownBatches name (sw_buf w) in
  let said := (answers name own (sw_tr w)).1 in
  let '(ob, calls, drained, err) := Drain healthy (fun k => default false (said !! k)) name (sw_buf w) in
  accepted name (take (Z.to_nat drained) calls) (answers name calls (sw_tr w)).2 ob w.

(** A restart of the program opens the directory again. *)
Definition reopen (max : Z) w : world data T :=
  mkWorld (NewOfflineBuffer (ob_files (sw_buf w)) max) (sw_tr w) (sw_log w) (sw_published w).

(** What happens: a batcher publishes a batch, a drain tick, a restart. *)
Inductive event :=
| EPublish (name : string) (retries : Z) (batch : list DataPoint)
| EDrain (name : string)
| ERestart.

Definition step_event (max : Z) (ev : event) w : world data T :=
  match ev with
  | EPublish name retries batch =>
      (publishWithRetryAndBuffer (H := batcherEnv name) (mkBatcherConfig 1 1 retries true 1) batch w).2
  | EDrain name => drainOnce name w
  | ERestart => reopen max w
  end.

Definition run_events (max : Z) (evs : list event) w : world data T := foldl (fun w ev => step_event max ev w) w evs.

(** The batches handed over. *)
Definition sentOf (evs : list event) : list (string * list DataPoint) :=
  omap (fun ev => match ev with EPublish name _ batch => Some (name, batch) | _ => None end) evs.

(** The batches on disk, oldest first. *)
Definition decoded (files : gmap string (dirent data)) (s : Z) : option (string * list DataPoint) :=
  d ← entry_at files s; e ← unmarshal d; Some (oe_Source e, oe_Points e).

Definition pendings (ob : OfflineBuffer data) : list (string * list DataPoint) :=
  omap (decoded (ob_files ob)) (seqs (ob_files ob)).

(** ** One batch *)

Lemma publish_outcome name cfg batch w :
  bc_offline cfg = true ->
  let w' := (publishWithRetryAndBuffer (H := batcherEnv name) cfg batch w).2 in
  (sw_buf w' = sw_buf w /\ sw_log w' = sw_log w ++ [(name, batch)])
  \/ (exists now, sw_buf w' = (Push (fun _ => true) NoFault now batch name (sw_buf w)).1 /\ sw_log w' = sw_log w).
Proof.
  intros Ho. cbn zeta. unfold publishWithRetryAndBuffer. generalize (Z.to_nat (bc_retryCount cfg + 1)), 0. intros n.
  assert (Hx : forall w0, sw_buf w0 = sw_buf w -> sw_log w0 = sw_log w ->
    exists now, sw_buf (exhausted (H := batcherEnv name) cfg batch w0).2
      = (Push (fun _ => true) NoFault now batch name (sw_buf w)).1
      /\ sw_log (exhausted (H := batcherEnv name) cfg batch w0).2 = sw_log w).
  { intros w0 Hb Hl. unfold exhausted. rewrite Ho. cbn. exists (tp_now (sw_tr w0)). rewrite Hb.
    by destruct (Push _ _ _ _ _ _). }
  enough (Hgen : forall w0 a, sw_buf w0 = sw_buf w -> sw_log w0 = sw_log w ->
    let w' := (attempts (H := batcherEnv name) cfg n a batch w0).2 in
    (sw_buf w' = sw_buf w /\ sw_log w' = sw_log w ++ [(name, batch)])
    \/ (exists now, sw_buf w' = (Push (fun _ => true) NoFault now batch name (sw_buf w)).1 /\ sw_log w' = sw_log w))
    by (intros a; by apply Hgen).
  induction n as [|n IH]; intros w0 a Hb Hl; cbn [attempts]; [right; by apply Hx|].
  cbn [env_publish batcherEnv]. destruct (tp_publish name batch (sw_tr w0)) as [[e|] t]; [|left; cbn; by rewrite Hl].
  set (w1 := mkWorld (sw_buf w0) t (sw_log w0) (sw_published w0)).
  destruct (decide (n = O)); [by apply IH|].
  cbn [env_backoff batcherEnv]. destruct (tp_wait _ (sw_tr w1)) as [[] t']; [right; by apply Hx|by apply IH].
Qed.

(** ** The directory *)

Hypothesis codec : forall e, exists d, marshal e = Some d /\ unmarshal d = Some e.

(** What a buffer that was filled by the batchers keeps true: every file
    decodes, none was evicted, and the numbers are still small. *)
Record store_inv (max n : Z) (ob : OfflineBuffer data) : Prop := mkStoreInv {
  si_ob : ob_inv ob;
  si_max : ob_maxEntries ob = max;
  si_next : ob_nextSeq ob <= n + 1;
  si_len : Z.of_nat (length (seqs (ob_files ob))) <= n;
  si_decodes : Forall (fun s => is_Some (decoded (ob_files ob) s)) (seqs (ob_files ob));
}.

Lemma decoded_agree (f1 f2 : gmap string (dirent data)) l :
  Forall (fun s => entry_at f1 s = entry_at f2 s) l ->
  omap (decoded f1) l = omap (decoded f2) l
  /\ (Forall (fun s => is_Some (decoded f1 s)) l <-> Forall (fun s => is_Some (decoded f2 s)) l).
Proof.
  induction 1 as [|s l Hs Hl [IH1 IH2]]; [done|].
  assert (Hd : decoded f1 s = decoded f2 s) by (unfold decoded; by rewrite Hs).
  cbn [omap list_omap]. rewrite Hd, !Forall_cons, Hd, IH2. split; [|done].
  destruct (decoded f2 s); [f_equal|]; exact IH1.
Qed.

Lemma push_store max n ob now batch name :
  store_inv max n ob -> n + 1 <= max -> max < 2 ^ 63 -> batch <> [] ->
  let ob' := (Push (fun _ => true) NoFault now batch name ob).1 in
  store_inv max (n + 1) ob' /\ pendings ob' = pendings ob ++ [(name, batch)].
Proof.
  intros [Hob Hmax Hnext Hlen Hdec] Hn Hm Hne. destruct batch as [|p points]; [done|]. clear Hne.
  destruct (codec (mkEntry (ob_nextSeq ob) now (p :: points) name)) as (d & Hd & Hu).
  pose proof (offline_push_keeps_newest ob now p points name d Hob Hd) as Hp. cbn zeta in *.
  assert (Hmx : ob_maxEntries (Push (fun _ => true) NoFault now (p :: points) name ob).1 = ob_maxEntries ob
    /\ ob_nextSeq (Push (fun _ => true) NoFault now (p :: points) name ob).1 = u64 (ob_nextSeq ob + 1)).
  { cbn [Push]. unfold evictIfNeeded. destruct (evict_loop _ _ _ _ _) as [f ev].
    cbn [ob_nextSeq ob_files ob_maxEntries]. by rewrite Hd. }
  destruct (Push _ _ _ _ _ ob) as [ob' err]. destruct Hp as (_ & Hs & _ & He & Hk & _ & Hinv). cbn [fst] in *.
  replace (Z.to_nat _) with O in Hs, Hk by lia. rewrite drop_0 in Hs, Hk.
  destruct (decoded_agree _ _ _ Hk) as [Ho Hds].
  assert (Hnew : decoded (ob_files ob') (ob_nextSeq ob) = Some (name, p :: points))
    by (unfold decoded; rewrite He; cbn; by rewrite Hu).
  destruct Hob as [_ _ [Hnx _] _]. destruct Hmx as [Hmx Hnx'].
  split.
  - split.
    + apply Hinv. lia.
    + lia.
    + rewrite Hnx', (wrapu_small 64) by lia. lia.
    + rewrite Hs, length_app. cbn. lia.
    + rewrite Hs, Forall_app, Hds, Forall_singleton, Hnew. split; [done|]. eauto.
  - unfold pendings. rewrite Hs, omap_app, Ho. cbn [omap list_omap]. by rewrite Hnew.
Qed.

Lemma drain_ob pub name ob : ob_inv ob -> ob_inv (Drain healthy pub name ob).1.1.1.
Proof.
  intros [Hwf Hmax [Hnext Hlt] Hev]. unfold Drain.
  destruct (drain_loop_spec pub name (seqs (ob_files ob)) (ob_files ob) [] 0) as
    (pre & post & calls & n & files' & Heq & [Hl _ _ _ Hf]).
  { by apply NoDup_seqs. }
  { apply Forall_forall. intros x. by apply elem_seqs. }
  change (sort_seqs (dir_seqs (ob_files ob))) with (seqs (ob_files ob)). rewrite Heq. cbn [fst].
  assert (Hr : Forall (fun x => 0 <= x < 2 ^ 64) (filter (fun x => ~ foreign (ob_files ob) name x) pre)).
  { apply Forall_forall. intros x [_ Hx]%list_elem_of_filter. eapply elem_seqs; [exact Hwf|]. rewrite Hl.
    apply elem_of_app. by left. }
  split; cbn [ob_files ob_maxEntries ob_nextSeq ob_evictCount]; [|done| |done].
  - rewrite Hf. by apply dir_wf_delete_seqs.
  - split; [done|]. rewrite Hf, seqs_delete by done. by apply Forall_filter.
Qed.

(** What a drain goes through is its own batches and those of the others. *)
Lemma split_own (files : gmap string (dirent data)) name l :
  Forall (fun s => is_Some (decoded files s)) l ->
  (pair name <$> omap (owned files name) l) ++ omap (decoded files) (filter (foreign files name) l)
  ≡ₚ omap (decoded files) l
  /\ sublist (omap (decoded files) (filter (foreign files name) l)) (omap (decoded files) l).
Proof.
  induction 1 as [|s l [p Hp] Hl [IH1 IH2]]; [done|].
  cbn [omap list_omap]. rewrite Hp, filter_cons. unfold decoded in Hp.
  destruct (entry_at files s) as [d|] eqn:Ed; [|done]. cbn in Hp. destruct (unmarshal d) as [e|] eqn:Eu; [|done].
  cbn in Hp. injection Hp as <-.
  assert (Ho : owned files name s = if decide (oe_Source e = name) then Some (oe_Points e) else None)
    by (unfold owned; rewrite Ed; cbn; by rewrite Eu).
  rewrite Ho. destruct (decide (oe_Source e = name)) as [Hsrc|Hsrc].
  - rewrite decide_False by (intros (d' & e' & Hd & He & Hne); simplify_eq). subst name. split.
    + cbn. by f_equiv.
    + by apply sublist_cons.
  - rewrite decide_True by (by exists d, e). cbn [omap list_omap].
    assert (Hd : decoded files s = Some (oe_Source e, oe_Points e)) by (unfold decoded; rewrite Ed; cbn; by rewrite Eu).
    rewrite Hd. split.
    + etransitivity; [symmetry; apply Permutation_middle|]. f_equiv. exact IH1.
    + by apply sublist_skip.
Qed.

Lemma drain_store max n ob pub name :
  store_inv max n ob ->
  let '(ob', calls, drained, err) := Drain healthy pub name ob in
  store_inv max n ob'
  /\ (pair name <$> take (Z.to_nat drained) calls) ++ pendings ob' ≡ₚ pendings ob
  /\ sublist (pendings ob') (pendings ob)
  /\ exists rest, ownBatches name ob = take (Z.to_nat drained) calls ++ rest
     /\ (forall i, (i < length (take (Z.to_nat drained) calls))%nat -> pub i = true)
     /\ (rest = [] \/ pub (length (take (Z.to_nat drained) calls)) = false).
Proof.
  intros [Hob Hmax Hnext Hlen Hdec]. pose proof (offline_drain_exact ob pub name Hob) as Hd.
  pose proof (drain_ob pub name ob Hob) as Hob'.
  assert (Hsame : ob_maxEntries (Drain healthy pub name ob).1.1.1 = ob_maxEntries ob
    /\ ob_nextSeq (Drain healthy pub name ob).1.1.1 = ob_nextSeq ob).
  { unfold Drain. by destruct (drain_loop _ _ _ _ _ _ _) as [[[f c] dr] er]. }
  destruct (Drain healthy pub name ob) as [[[ob' calls] drained] err]. cbn [fst] in *.
  destruct Hd as (pre & post & _ & Hs & -> & _ & Hok & Hcalls & Hs' & Hent). destruct Hsame as [Hmx Hnx].
  set (own := omap (owned (ob_files ob) name) pre) in *.
  assert (Htake : take (Z.to_nat (Z.of_nat (length own))) calls = own).
  { rewrite Nat2Z.id. destruct Hcalls as [[_ ->]|(x & r & pts & _ & _ & _ & ->)]; [by rewrite firstn_all|].
    by rewrite take_app_length. }
  rewrite Htake. rewrite Hs in Hdec. apply Forall_app in Hdec as [Hpre Hpost].
  destruct (split_own (ob_files ob) name pre Hpre) as [Hperm Hsub].
  destruct (decoded_agree _ _ _ Hent) as [Hom Hds].
  assert (Hpend : pendings ob' = omap (decoded (ob_files ob)) (filter (foreign (ob_files ob) name) pre)
                               ++ omap (decoded (ob_files ob)) post).
  { unfold pendings. rewrite Hom, Hs', omap_app. done. }
  assert (Hpend0 : pendings ob = omap (decoded (ob_files ob)) pre ++ omap (decoded (ob_files ob)) post)
    by (unfold pendings; rewrite Hs; apply omap_app).
  split_and!.
  - split; [done|lia|lia| |].
    + rewrite Hs', length_app. rewrite Hs, length_app in Hlen.
      pose proof (length_filter (foreign (ob_files ob) name) pre). lia.
    + rewrite Hds, Hs', Forall_app. split; [by apply Forall_filter|done].
  - rewrite Hpend, Hpend0, app_assoc. by f_equiv.
  - rewrite Hpend, Hpend0. by apply sublist_app.
  - exists (omap (owned (ob_files ob) name) post). split_and!.
    + unfold ownBatches. rewrite Hs, omap_app. done.
    + exact Hok.
    + destruct Hcalls as [[-> _]|(x & r & pts & _ & _ & Hf & _)]; [by left|by right].
Qed.

Lemma foldl_max_bound l a n : a <= n -> Forall (fun x => x <= n) l -> foldl Z.max a l <= n.
Proof. intros Ha Hl. revert a Ha. induction Hl as [|x l Hx Hl IH]; intros a Ha; cbn; [done|]. apply IH. lia. Qed.

Lemma reopen_store max n ob :
  store_inv max n ob -> 1 <= max -> 0 <= n < 2 ^ 63 ->
  store_inv max n (NewOfflineBuffer (ob_files ob) max) /\ pendings (NewOfflineBuffer (ob_files ob) max) = pendings ob.
Proof.
  intros [Hob Hmax Hnext Hlen Hdec] Hm Hn. split; [|done].
  assert (Hall : Forall (fun x => x <= n) (seqs (ob_files ob))).
  { destruct Hob as [_ _ [_ Hlt] _]. eapply Forall_impl; [exact Hlt|]. cbn. intros. lia. }
  destruct (offline_restart_fresh (ob_files ob) max) as [Hi _].
  { by destruct Hob. }
  { eapply Forall_impl; [exact Hall|]. cbn. intros. lia. }
  split; cbn [NewOfflineBuffer ob_maxEntries ob_nextSeq ob_files]; [done| | |done|done].
  - rewrite decide_False by lia. done.
  - rewrite seqs_perm in Hall. pose proof (foldl_max_bound _ 0 n ltac:(lia) Hall) as Hb.
    fold (scanMaxSeq (ob_files ob)) in Hb.
    assert (0 <= scanMaxSeq (ob_files ob)).
    { unfold scanMaxSeq. clear. generalize 0 at 1 2. intros a. assert (a <= foldl Z.max a (dir_seqs (ob_files ob))); [|done].
      revert a. induction (dir_seqs (ob_files ob)) as [|x l IH]; intros a; cbn; [lia|]. etransitivity; [|apply IH]. lia. }
    rewrite (wrapu_small 64) by lia. lia.
Qed.

(** The state after [n] events that handed over [sent]. *)
Record forward_inv (max n : Z) (sent : list (string * list DataPoint)) w : Prop := mkForwardInv {
  fi_store : store_inv max n (sw_buf w);
  fi_conserve : sw_log w ++ pendings (sw_buf w) ≡ₚ sent;
  fi_order : sublist (pendings (sw_buf w)) sent;
}.

Lemma store_inv_mono max n ob : store_inv max n ob -> store_inv max (n + 1) ob.
Proof. intros []. split; auto; lia. Qed.

Lemma step_event_inv max n sent w ev :
  forward_inv max n sent w -> 0 <= n -> n + 1 <= max -> max < 2 ^ 63 ->
  (forall name r b, ev = EPublish name r b -> b <> []) ->
  forward_inv max (n + 1) (sent ++ sentOf [ev]) (step_event max ev w).
Proof.
  intros [Hst Hc Ho] Hn Hm Hmax Hne. destruct ev as [name r batch|name|]; cbn [sentOf omap list_omap step_event].
  - destruct (publish_outcome name (mkBatcherConfig 1 1 r true 1) batch w eq_refl) as [[Hb Hl]|(now & Hb & Hl)].
    + split; rewrite ?Hb, ?Hl; [by apply store_inv_mono| |].
      * rewrite <-Hc. solve_Permutation.
      * etransitivity; [exact Ho|]. by apply sublist_inserts_r.
    + destruct (push_store max n (sw_buf w) now batch name Hst Hm Hmax (Hne name r batch eq_refl)) as [Hst' Hp].
      split; rewrite ?Hb, ?Hl; [done| |]; rewrite Hp.
      * rewrite <-Hc, app_assoc. done.
      * by apply sublist_app.
  - rewrite app_nil_r. unfold drainOnce.
    pose proof (drain_store max n (sw_buf w)
      (fun k => default false ((answers name (ownBatches name (sw_buf w)) (sw_tr w)).1 !! k)) name Hst) as Hd.
    destruct (Drain _ _ _ _) as [[[ob' calls] drained] err]. destruct Hd as (Hst' & Hp & Hs & _).
    split; cbn [sw_buf sw_log accepted]; [by apply store_inv_mono| |].
    + rewrite <-app_assoc, Hp. exact Hc.
    + by etransitivity.
  - rewrite app_nil_r. destruct (reopen_store max n (sw_buf w) Hst ltac:(lia) ltac:(lia)) as [Hst' Hp].
    split; cbn [sw_buf sw_log reopen]; [by apply store_inv_mono|by rewrite Hp..].
Qed.

Lemma run_events_inv max evs n sent w :
  forward_inv max n sent w -> 0 <= n -> n + Z.of_nat (length evs) <= max -> max < 2 ^ 63 ->
  (forall name r b, EPublish name r b ∈ evs -> b <> []) ->
  forward_inv max (n + Z.of_nat (length evs)) (sent ++ sentOf evs) (run_events max evs w).
Proof.
  revert n sent w. induction evs as [|ev evs IH]; intros n sent w Hi Hn Hm Hmax Hne; cbn [length] in *.
  - cbn. by rewrite Z.add_0_r, app_nil_r.
  - assert (Hs : sentOf (ev :: evs) = sentOf [ev] ++ sentOf evs) by (unfold sentOf; by rewrite <-omap_app).
    rewrite Hs, app_assoc. replace (n + Z.of_nat (S (length evs))) with (n + 1 + Z.of_nat (length evs)) by lia.
    apply IH; try lia.
    + apply step_event_inv; [done|lia..|]. intros name r b ->. apply (Hne name r b). left.
    + intros name r b Hin. apply (Hne name r b). by right.
Qed.

(** ** A drain the transport accepts *)

Lemma pendings_own name (ob : OfflineBuffer data) :
  filter (of_transport name) (pendings ob) = pair name <$> ownBatches name ob.
Proof.
  unfold pendings, ownBatches. induction (seqs (ob_files ob)) as [|s l IH]; [done|].
  cbn [omap list_omap]. unfold decoded at 1, owned at 1. destruct (entry_at _ s) as [d|]; cbn [mbind option_bind]; [|exact IH].
  destruct (unmarshal d) as [e|]; cbn [mbind option_bind]; [|exact IH].
  rewrite filter_cons. unfold of_transport at 1. cbn [fst].
  destruct (decide (oe_Source e = name)) as [<-|]; [|exact IH]. cbn [fmap list_fmap]. f_equal. exact IH.
Qed.

Lemma filter_pair name (l : list (list DataPoint)) : filter (of_transport name) (pair name <$> l) = pair name <$> l.
Proof. induction l as [|x l IH]; [done|]. cbn [fmap list_fmap]. rewrite filter_cons, decide_True by done. by rewrite IH. Qed.

Lemma answers_length name l t : length (answers name l t).1 = length l.
Proof.
  revert t. induction l as [|b l IH]; intros t; cbn; [done|]. destruct (tp_publish name b t) as [err t'].
  specialize (IH t'). destruct (answers name l t'). cbn in *. by f_equal.
Qed.

Lemma drain_empties max n name w :
  store_inv max n (sw_buf w) ->
  Forall (fun b => b = true) (answers name (ownBatches name (sw_buf w)) (sw_tr w)).1 ->
  filter (of_transport name) (pendings (sw_buf (drainOnce name w))) = [].
Proof.
  intros Hst Hall. unfold drainOnce. set (said := (answers name _ _).1) in *.
  pose proof (drain_store max n (sw_buf w) (fun k => default false (said !! k)) name Hst) as Hd.
  destruct (Drain _ _ _ _) as [[[ob' calls] drained] err]. destruct Hd as (_ & Hp & _ & rest & Hown & _ & Hstop).
  cbn [sw_buf accepted]. set (got := take _ calls) in *.
  assert (Hrest : rest = []).
  { destruct Hstop as [|Hf]; [done|]. destruct rest as [|x rest]; [done|]. exfalso.
    assert (Hlt : (length got < length said)%nat).
    { unfold said. rewrite answers_length, Hown, length_app. cbn. lia. }
    apply lookup_lt_is_Some_2 in Hlt as [b Hb]. rewrite Hb in Hf. cbn in Hf.
    rewrite Forall_forall in Hall. rewrite (Hall b) in Hf; [done|]. by eapply list_elem_of_lookup_2. }
  rewrite Hrest, app_nil_r in Hown.
  apply (filter_Permutation (of_transport name)) in Hp. rewrite filter_app, filter_pair, (pendings_own name (sw_buf w)), Hown in Hp.
  apply Permutation_length in Hp. rewrite length_app, !length_fmap in Hp.
  apply nil_length_inv. lia.
Qed.

Lemma empty_store max : 1 <= max -> store_inv max 0 (NewOfflineBuffer (∅ : gmap string (dirent data)) max).
Proof.
  intros Hm.
  assert (Hs : seqs (∅ : gmap string (dirent data)) = []) by (unfold seqs, dir_seqs; by rewrite map_to_list_empty).
  assert (Hwf : dir_wf (∅ : gmap string (dirent data))) by (intros name d x Hx; by rewrite lookup_empty in Hx).
  destruct (offline_restart_fresh (∅ : gmap string (dirent data)) max Hwf) as [Hi _]; [by rewrite Hs|].
  split; cbn [NewOfflineBuffer ob_maxEntries ob_nextSeq ob_files]; rewrite ?Hs; [done| |done|done|constructor].
  by rewrite decide_False by lia.
Qed.
End forward.


(** ** A run *)

Module ForwardDemo.
(** The transports refuse as often as the counter says, then accept. *)
#[export] Instance outage : Transports nat := {
  tp_publish := fun _ _ n => match n with O => (None, O) | S n => (Some (ErrNew "down"), n) end;
  tp_wait := fun _ n => (false, n);
  tp_now := fun _ => 0;
}.

Definition a : list DataPoint := [OfflineBuffer.Demo.point "a"].
Definition b : list DataPoint := [OfflineBuffer.Demo.point "b"].
Definition evs : list event :=
  [EPublish "mqtt" 1 a; EPublish "http" 0 b; ERestart; EPublish "mqtt" 0 b; EDrain "mqtt"].
End ForwardDemo.

