(* ===== verification/Scheduler.v ===== *)
(** * The scheduler and trigger gating
    ([engine/scheduler.go], [engine/trigger.go], [engine/driver_manager.go])

    One goroutine per collection task: at each tick it reads the task's tags
    (through the trigger conditions when the driver has gated tags), degrades
    its ticker on sustained errors, and passes the values through the
    deadband.  The scheduler keeps the map of tasks; [scheduleDriverTags]
    builds the tasks of a driver from its tags. *)

From Stdlib Require Import ZArith Lia String SpecFloat.
From stdpp Require Import base list gmap strings relations.
From S2P Require Import Prelude GoFloat GoTime Types Util.

Open Scope Z_scope.

(** ** Data *)

Record ScheduleTask := mkTask {
  st_ID : string;
  st_Driver : string;
  st_Tags : list string;
  st_Interval : Z;
  st_Priority : Z;
  st_DeadBands : gmap string float;
  st_EnforceIntervals : gmap string Z;
  st_GroupTrigger : gmap string string;
  st_GroupGated : gmap string (list string);
  st_ReadTimeout : Z;
}.

(** [taskRunner], its fields grouped as the struct's comments group them.  A
    time never set is [None]. *)
Record deadband := mkDeadband {
  db_lastValues : gmap string float;
  db_lastSent : gmap string Z;
  db_heartbeats : Z;
}.

Record errorState := mkErrorState {
  er_lastErrLog : option Z;
  er_lastErrMsg : string;
  er_errCount : Z;
  er_inError : bool;
  er_consecutiveErrors : Z;
  er_degraded : bool;
  er_ticker : Z;                (* the period of the goroutine's ticker *)
}.

Record overrunState := mkOverrunState {
  ov_lastOverrunLog : option Z;
  ov_overrunCount : Z;
  ov_overrunsTotal : Z;
}.

Record taskRunner := mkRunner {
  rn_task : ScheduleTask;
  rn_deadband : deadband;
  rn_groupTrigger : gmap string string;
  rn_gated : gmap string (list string);
  rn_skipped : Z;
  rn_error : errorState;
  rn_overrun : overrunState;
}.

Record triggerPlan := mkPlan {
  pl_read : list string;
  pl_conditions : list TagValue;
  pl_suppressed : list string;
}.

(** A call of [onData]. *)
Record dataCall := mkDataCall {
  dc_Driver : string;
  dc_Values : list TagValue;
  dc_Plan : option triggerPlan;
  dc_Priority : Z;
}.

(** What the scheduler calls: the clock, [readFunc] with the timeout of its
    context, and Go's unspecified order of iteration over a map. *)
Class SchedEnv (E : Type) := {
  env_now : E -> Z * E;
  env_read : Z -> string -> list string -> E -> (list TagValue + error) * E;
  env_range : forall {K A} `{Countable K}, gmap K A -> E -> list (K * A) * E;
  env_range_perm : forall {K A} `{Countable K} (m : gmap K A) e,
    (env_range m e).1 ≡ₚ map_to_list m;
}.

(** The environment with the trace of the calls made to [readFunc] and
    [onData]; both traces are only written. *)
Record world (E : Type) := mkWorld {
  w_env : E;
  w_reads : list (string * list string);
  w_data : list dataCall;
}.
Arguments mkWorld {E} _ _ _.
Arguments w_env {E} _.
Arguments w_reads {E} _.
Arguments w_data {E} _.

Section Runner.
Context {E : Type} `{!SchedEnv E}.

Definition timeNow (w : world E) : Z * world E :=
  let '(t, e) := env_now (w_env w) in (t, mkWorld e (w_reads w) (w_data w)).

Definition readFunc (timeout : Z) (driver : string) (tags : list string) (w : world E)
  : (list TagValue + error) * world E :=
  let '(r, e) := env_read timeout driver tags (w_env w) in
  (r, mkWorld e (w_reads w ++ [(driver, tags)]) (w_data w)).

Definition rangeMap {K A} `{Countable K} (m : gmap K A) (w : world E)
  : list (K * A) * world E :=
  let '(l, e) := env_range m (w_env w) in (l, mkWorld e (w_reads w) (w_data w)).

Definition onData (c : dataCall) (w : world E) : world E :=
  mkWorld (w_env w) (w_reads w) (w_data w ++ [c]).

(** ** The deadband *)

Definition f_nan : float := S754_nan.

(** What the filter decides for a sample: it bypasses the deadband; it moved
    (released at a time); a heartbeat was due (released at a time); or it is
    held, with the time at which a heartbeat was found not due. *)
Inductive verdict :=
| VPass
| VChanged (at_ : Z)
| VHeartbeat (at_ : Z)
| VHeld (checked : option Z).

Definition released (d : verdict) : bool :=
  match d with VHeld _ => false | _ => true end.

(** One iteration of the loop of [applyDeadbandFilter]. *)
Definition filterValue (task : ScheduleTask) (v : TagValue) (db : deadband) (w : world E)
  : verdict * deadband * world E :=
  match st_DeadBands task !! tv_Tag v with
  | None => (VPass, db, w)
  | Some threshold =>
    if fleb threshold f_zero then (VPass, db, w)
    else if decide (tv_Quality v <> QualityGood) then (VPass, db, w)
    else
      let '(numVal, numeric) := ToFloat64OK (tv_Value v) in
      if negb numeric then (VPass, db, w)
      else
        let moved :=
          match db_lastValues db !! tv_Tag v with
          | None => true
          | Some lastVal => fleb threshold (fabs (fsub F64 numVal lastVal))
          end in
        if moved then
          let '(t, w) := timeNow w in
          (VChanged t,
           mkDeadband (<[tv_Tag v := numVal]> (db_lastValues db))
             (<[tv_Tag v := t]> (db_lastSent db)) (db_heartbeats db), w)
        else
          match st_EnforceIntervals task !! tv_Tag v with
          | None => (VHeld None, db, w)
          | Some heartbeat =>
            if decide (heartbeat <= 0) then (VHeld None, db, w)
            else
              let '(due, checked, w) :=
                match db_lastSent db !! tv_Tag v with
                | None => (true, None, w)
                | Some last =>
                  let '(t, w) := timeNow w in
                  (bool_decide (heartbeat <= t - last), Some t, w)
                end in
              if due : bool then
                let '(t, w) := timeNow w in
                (VHeartbeat t,
                 mkDeadband (db_lastValues db) (<[tv_Tag v := t]> (db_lastSent db))
                   (wrapu 64 (db_heartbeats db + 1)), w)
              else (VHeld checked, db, w)
          end
  end.

Fixpoint filterValues (task : ScheduleTask) (vs : list TagValue) (db : deadband)
    (w : world E) : list (TagValue * verdict) * deadband * world E :=
  match vs with
  | [] => ([], db, w)
  | v :: vs =>
    let '(d, db, w) := filterValue task v db w in
    let '(rest, db, w) := filterValues task vs db w in
    ((v, d) :: rest, db, w)
  end.

(** The samples of a history that went downstream. *)
Definition releasedOf (h : list (TagValue * verdict)) : list TagValue :=
  (filter (fun x => released x.2) h).*1.

Definition applyDeadbandFilter (task : ScheduleTask) (values : list TagValue)
    (db : deadband) (w : world E) : list (TagValue * verdict) * deadband * world E :=
  if decide (st_DeadBands task = ∅) then ((fun v => (v, VPass)) <$> values, db, w)
  else filterValues task values db w.

(** ** Trigger gating *)

Definition triggerFired (v : TagValue) : bool :=
  if decide (tv_Quality v <> QualityGood) then false
  else
    match tv_Value v with
    | VBool b => b
    | _ => let '(f, ok) := ToFloat64OK (tv_Value v) in ok && negb (feqb f f_zero)
    end.

(** [gatedOf], over the entries of [gated] in the order of the iteration. *)
Fixpoint gatedIn (entries : list (string * list string)) (tag : string) : option string :=
  match entries with
  | [] => None
  | (group, tags) :: rest =>
    if decide (tag ∈ tags) then Some group else gatedIn rest tag
  end.

Definition gatedOf (r : taskRunner) (tag : string) (w : world E) : option string * world E :=
  let '(entries, w) := rangeMap (rn_gated r) w in (gatedIn entries tag, w).

Definition firedOf (condValues : list TagValue) : gmap string bool :=
  foldl (fun m v => <[tv_Tag v := triggerFired v]> m) ∅ condValues.

(** The loop that splits the task's tags: those to read, those suppressed. *)
Fixpoint splitTags (r : taskRunner) (fired : gmap string bool) (tags : list string)
    (w : world E) : list string * list string * world E :=
  match tags with
  | [] => ([], [], w)
  | tag :: rest =>
    let '(gated, w) := gatedOf r tag w in
    let '(rd, sup, w) := splitTags r fired rest w in
    match gated with
    | None => (rd, sup, w)
    | Some group =>
      let cond := default EmptyString (rn_groupTrigger r !! group) in
      if default false (fired !! cond) then (tag :: rd, sup, w) else (rd, tag :: sup, w)
    end
  end.

Definition addSkipped (r : taskRunner) : taskRunner :=
  mkRunner (rn_task r) (rn_deadband r) (rn_groupTrigger r) (rn_gated r)
    (wrapu 64 (rn_skipped r + 1)) (rn_error r) (rn_overrun r).

Definition gateTriggerTags (timeout : Z) (r : taskRunner) (w : world E)
  : triggerPlan * taskRunner * world E :=
  let task := rn_task r in
  if decide (rn_groupTrigger r = ∅) then (mkPlan (st_Tags task) [] [], r, w)
  else
    let '(entries, w) := rangeMap (rn_groupTrigger r) w in
    let conditions := entries.*2 in
    match readFunc timeout (st_Driver task) conditions w with
    | (inr _, w) => (mkPlan [] [] (st_Tags task), addSkipped r, w)
    | (inl condValues, w) =>
      let '(tags, suppressed, w) := splitTags r (firedOf condValues) (st_Tags task) w in
      (mkPlan tags condValues suppressed,
       if decide (suppressed = []) then r else addSkipped r, w)
    end.

(** ** A tick *)

Definition degradeAfterErrors : Z := 5.

Definition taskInterval (task : ScheduleTask) : Z :=
  if decide (st_Interval task <= 0) then DefaultTagInterval else st_Interval task.

Definition degradedInterval (interval : Z) : Z :=
  let d := wraps 64 (interval * 10) in
  if decide (d < 10 * second) then 10 * second else d.

Definition logOverrunIfNeeded (throttle latency interval : Z) (o : overrunState) (w : world E)
  : overrunState * world E :=
  if decide (latency <= interval) then (o, w)
  else
    let count := wrapu 64 (ov_overrunCount o + 1) in
    let total := wrapu 64 (ov_overrunsTotal o + 1) in
    let '(t, w) := timeNow w in
    let recent :=
      match ov_lastOverrunLog o with Some l => bool_decide (t - l < throttle) | None => false end in
    if recent then (mkOverrunState (ov_lastOverrunLog o) count total, w)
    else let '(t, w) := timeNow w in (mkOverrunState (Some t) 0 total, w).

Definition handleReadError (throttle interval : Z) (errMsg : string) (s : errorState)
    (w : world E) : errorState * world E :=
  let errCount := wrapu 64 (er_errCount s + 1) in
  let '(now, w) := timeNow w in
  let log :=
    negb (er_inError s) || negb (String.eqb errMsg (er_lastErrMsg s)) ||
    match er_lastErrLog s with Some l => bool_decide (throttle <= now - l) | None => true end in
  let consecutive := wraps 64 (er_consecutiveErrors s + 1) in
  let degrade := bool_decide (degradeAfterErrors <= consecutive) && negb (er_degraded s) in
  (mkErrorState
     (if log then Some now else er_lastErrLog s)
     (if log then errMsg else er_lastErrMsg s)
     (if log then 0 else errCount)
     true consecutive
     (er_degraded s || degrade)
     (if degrade then degradedInterval interval else er_ticker s), w).

Definition handleRecovery (interval : Z) (s : errorState) : errorState :=
  mkErrorState (er_lastErrLog s) EmptyString 0 false 0 false
    (if er_degraded s then interval else er_ticker s).

(** How a tick of [runTask] ends. *)
Inductive outcome := TSkipped | TFailed | TRead.

(** The read of a tick: the gating, then the read of the chosen tags. *)
Definition readTick (r : taskRunner) (w : world E)
  : option triggerPlan * (list TagValue + error) * taskRunner * world E :=
  let task := rn_task r in
  let readTimeout :=
    if decide (st_ReadTimeout task <= 0) then taskInterval task else st_ReadTimeout task in
  let '(plan, readTags, values, r, w) :=
    if decide (rn_gated r = ∅) then (None, st_Tags task, [], r, w)
    else
      let '(p, r, w) := gateTriggerTags readTimeout r w in
      (Some p, pl_read p, pl_conditions p, r, w) in
  if decide (readTags = []) then (plan, inl values, r, w)
  else
    match readFunc readTimeout (st_Driver task) readTags w with
    | (inr err, w) => (plan, inr err, r, w)
    | (inl detail, w) => (plan, inl (values ++ detail), r, w)
    end.

(** One iteration of the loop of [runTask], after the ticker fired. *)
Definition runTick (throttle : Z) (paused : bool) (r : taskRunner) (w : world E)
  : outcome * taskRunner * world E :=
  if paused then (TSkipped, r, w)
  else
    let task := rn_task r in
    let interval := taskInterval task in
    let '(start, w) := timeNow w in
    let '(plan, res, r, w) := readTick r w in
    let '(fin, w) := timeNow w in
    let '(ov, w) := logOverrunIfNeeded throttle (fin - start) interval (rn_overrun r) w in
    match res with
    | inr err =>
      let '(es, w) := handleReadError throttle interval (error_text err) (rn_error r) w in
      (TFailed, mkRunner (rn_task r) (rn_deadband r) (rn_groupTrigger r) (rn_gated r)
                  (rn_skipped r) es ov, w)
    | inl values =>
      let es := if er_inError (rn_error r) then handleRecovery interval (rn_error r)
                else rn_error r in
      if decide (values = []) then
        (TRead, mkRunner (rn_task r) (rn_deadband r) (rn_groupTrigger r) (rn_gated r)
                  (rn_skipped r) es ov, w)
      else
        let '(h, db, w) := applyDeadbandFilter task values (rn_deadband r) w in
        let out := releasedOf h in
        (TRead, mkRunner (rn_task r) db (rn_groupTrigger r) (rn_gated r) (rn_skipped r) es ov,
         if decide (out = []) then w
         else onData (mkDataCall (st_Driver task) out plan (st_Priority task)) w)
    end.

End Runner.

(** ** The scheduler *)

(** A task's goroutine: its runner, whether its own context was cancelled, the
    scheduler context it was derived from ([None] for the background context,
    when the scheduler was not started), and whether it has returned. *)
Record goroutine := mkGoroutine {
  g_runner : taskRunner;
  g_cancelled : bool;
  g_parent : option nat;
  g_exited : bool;
}.

(** [sd_runners] is the store of runners: [tasks] holds pointers into it, and a
    runner stays there when its goroutine has returned.  Contexts are numbered
    from the same supply; [sd_done] holds the scheduler contexts that are
    done. *)
Record scheduler := mkScheduler {
  sd_tasks : gmap string nat;
  sd_paused : gset string;
  sd_globalPaused : bool;
  sd_throttle : Z;
  sd_ctx : option nat;
  sd_done : gset nat;
  sd_runners : gmap nat goroutine;
  sd_next : nat;
}.

Definition NewScheduler (errorThrottleWindow : Z) : scheduler :=
  mkScheduler ∅ ∅ false
    (if decide (errorThrottleWindow <= 0) then DefaultErrorThrottleWindow
     else errorThrottleWindow)
    None ∅ ∅ 0.

Definition newRunner (task : ScheduleTask) : taskRunner :=
  mkRunner task (mkDeadband ∅ ∅ 0) (st_GroupTrigger task) (st_GroupGated task) 0
    (mkErrorState None EmptyString 0 false 0 false (taskInterval task))
    (mkOverrunState None 0 0).

Definition cancelG (g : goroutine) : goroutine :=
  mkGoroutine (g_runner g) true (g_parent g) (g_exited g).

Definition exitG (g : goroutine) : goroutine :=
  mkGoroutine (g_runner g) (g_cancelled g) (g_parent g) true.

Definition g_task (g : goroutine) : ScheduleTask := rn_task (g_runner g).

(** The context of a goroutine is done: its own or the one it derives from. *)
Definition isDone (s : scheduler) (g : goroutine) : bool :=
  g_cancelled g || match g_parent g with Some c => bool_decide (c ∈ sd_done s) | None => false end.

(** [Start]: a context of its own. *)
Definition Start (s : scheduler) : scheduler :=
  mkScheduler (sd_tasks s) (sd_paused s) (sd_globalPaused s) (sd_throttle s)
    (Some (sd_next s)) (sd_done s) (sd_runners s) (S (sd_next s)).

Definition cancelAll (ls : list nat) (rs : gmap nat goroutine) : gmap nat goroutine :=
  foldr (fun l m => alter cancelG l m) rs ls.

(** [Stop] up to the wait for the goroutines. *)
Definition Stop (s : scheduler) : scheduler :=
  mkScheduler ∅ (sd_paused s) (sd_globalPaused s) (sd_throttle s) (sd_ctx s)
    (match sd_ctx s with Some c => {[c]} ∪ sd_done s | None => sd_done s end)
    (cancelAll (map_to_list (sd_tasks s)).*2 (sd_runners s)) (sd_next s).

(** [wg.Wait] of [Stop] returns when every goroutine has returned. *)
Definition waitReturns (s : scheduler) : bool :=
  forallb (fun '(_, g) => g_exited g) (map_to_list (sd_runners s)).

Definition AddTask (task : ScheduleTask) (s : scheduler) : scheduler :=
  let rs :=
    match sd_tasks s !! st_ID task with
    | Some l => alter cancelG l (sd_runners s)
    | None => sd_runners s
    end in
  mkScheduler (<[st_ID task := sd_next s]> (sd_tasks s)) (sd_paused s) (sd_globalPaused s)
    (sd_throttle s) (sd_ctx s) (sd_done s)
    (<[sd_next s := mkGoroutine (newRunner task) false (sd_ctx s) false]> rs)
    (S (sd_next s)).

(** The driver of the task a pointer of [tasks] leads to. *)
Definition taskDriver (s : scheduler) (l : nat) : option string :=
  (fun g => st_Driver (g_task g)) <$> sd_runners s !! l.

Definition RemoveDriverTasks (driverName : string) (s : scheduler) : scheduler :=
  let mine := filter (fun x => taskDriver s x.2 = Some driverName)
                (map_to_list (sd_tasks s)) in
  mkScheduler (foldr delete (sd_tasks s) mine.*1)
    (sd_paused s ∖ {[driverName]}) (sd_globalPaused s) (sd_throttle s) (sd_ctx s) (sd_done s)
    (cancelAll mine.*2 (sd_runners s)) (sd_next s).

Definition setGlobalPaused (b : bool) (s : scheduler) : scheduler :=
  mkScheduler (sd_tasks s) (sd_paused s) b (sd_throttle s) (sd_ctx s) (sd_done s)
    (sd_runners s) (sd_next s).

Definition Pause : scheduler -> scheduler := setGlobalPaused true.
Definition Resume : scheduler -> scheduler := setGlobalPaused false.

Definition setPaused (p : gset string) (s : scheduler) : scheduler :=
  mkScheduler (sd_tasks s) p (sd_globalPaused s) (sd_throttle s) (sd_ctx s) (sd_done s)
    (sd_runners s) (sd_next s).

Definition PauseDriver (name : string) (s : scheduler) : scheduler :=
  setPaused ({[name]} ∪ sd_paused s) s.
Definition ResumeDriver (name : string) (s : scheduler) : scheduler :=
  setPaused (sd_paused s ∖ {[name]}) s.

Definition PausedDrivers (s : scheduler) : list string :=
  sortStrings (elements (sd_paused s)).

(** The pause a tick of a driver's task sees. *)
Definition isPaused (s : scheduler) (driver : string) : bool :=
  sd_globalPaused s || bool_decide (driver ∈ sd_paused s).

(** *** Health

    One entry per driver over the tasks that are scheduled now. *)
Record TaskHealth := mkHealth {
  th_Driver : string;
  th_Degraded : bool;
  th_ConsecutiveErrors : Z;
  th_OverrunsTotal : Z;
  th_HeartbeatsTotal : Z;
  th_TriggerSkipsTotal : Z;
}.

Definition addHealth (r : taskRunner) (h : TaskHealth) : TaskHealth :=
  mkHealth (th_Driver h) (th_Degraded h || er_degraded (rn_error r))
    (if decide (th_ConsecutiveErrors h < er_consecutiveErrors (rn_error r))
     then er_consecutiveErrors (rn_error r) else th_ConsecutiveErrors h)
    (u64 (th_OverrunsTotal h + ov_overrunsTotal (rn_overrun r)))
    (u64 (th_HeartbeatsTotal h + db_heartbeats (rn_deadband r)))
    (u64 (th_TriggerSkipsTotal h + rn_skipped r)).

Definition healthByDriver (rs : list taskRunner) : gmap string TaskHealth :=
  foldl (fun m r => let d := st_Driver (rn_task r) in
                    <[d := addHealth r (default (mkHealth d false 0 0 0 0) (m !! d))]> m) ∅ rs.

Definition Health (s : scheduler) : list TaskHealth :=
  let byDriver := healthByDriver (g_runner <$> omap (fun l => sd_runners s !! l) (map_to_list (sd_tasks s)).*2) in
  omap (fun n => byDriver !! n) (sortStrings (map_to_list byDriver).*1).

Definition setRunner (s : scheduler) (l : nat) (g : goroutine) : scheduler :=
  mkScheduler (sd_tasks s) (sd_paused s) (sd_globalPaused s) (sd_throttle s) (sd_ctx s)
    (sd_done s) (<[l := g]> (sd_runners s)) (sd_next s).

(** The scheduler with its environment, in every interleaving of calls, ticks
    and returns.  A goroutine whose context is done may still take a tick that
    is ready; it returns only when its context is done.  The context [Start]
    was given may be cancelled at any time. *)
Section Steps.
Context {E : Type} `{!SchedEnv E}.

Inductive sd_step : scheduler * world E -> scheduler * world E -> Prop :=
| step_Start s w : sd_step (s, w) (Start s, w)
| step_Stop s w : sd_step (s, w) (Stop s, w)
| step_AddTask s w task : sd_step (s, w) (AddTask task s, w)
| step_RemoveDriverTasks s w d : sd_step (s, w) (RemoveDriverTasks d s, w)
| step_Pause s w : sd_step (s, w) (Pause s, w)
| step_Resume s w : sd_step (s, w) (Resume s, w)
| step_PauseDriver s w d : sd_step (s, w) (PauseDriver d s, w)
| step_ResumeDriver s w d : sd_step (s, w) (ResumeDriver d s, w)
| step_parent_done s w c :
    sd_ctx s = Some c ->
    sd_step (s, w)
      (mkScheduler (sd_tasks s) (sd_paused s) (sd_globalPaused s) (sd_throttle s) (sd_ctx s)
         ({[c]} ∪ sd_done s) (sd_runners s) (sd_next s), w)
| step_tick s w l g o r' w' :
    sd_runners s !! l = Some g -> g_exited g = false ->
    runTick (sd_throttle s) (isPaused s (st_Driver (g_task g))) (g_runner g) w = (o, r', w') ->
    sd_step (s, w) (setRunner s l (mkGoroutine r' (g_cancelled g) (g_parent g) false), w')
| step_return s w l g :
    sd_runners s !! l = Some g -> g_exited g = false -> isDone s g = true ->
    sd_step (s, w) (setRunner s l (exitG g), w)
| step_time_passes s w e :
    sd_step (s, w) (s, mkWorld e (w_reads w) (w_data w)).

End Steps.

(** ** The tasks of a driver *)

(** [collectTriggerTag]. *)
Definition collectTriggerTag (tag : TagConfig)
    (m : gmap string string * gmap string (list string))
  : gmap string string * gmap string (list string) :=
  let '(groupTrigger, gatedTags) := m in
  (if decide (tc_TriggerGroup tag <> EmptyString)
   then <[tc_TriggerGroup tag := tc_Name tag]> groupTrigger else groupTrigger,
   if decide (tc_Triggers tag <> EmptyString)
   then <[tc_Triggers tag := default [] (gatedTags !! tc_Triggers tag) ++ [tc_Name tag]]> gatedTags
   else gatedTags).

(** [driverMinInterval]: the floor of a driver that declares one. *)
Definition driverMinInterval (limiter : option Z) : Z :=
  match limiter with
  | Some floor => if decide (floor > 0) then floor else 0
  | None => 0
  end.

Section Schedule.
Context `{!GoArch}.

(** A positive duration from a setting. *)
Definition positiveDuration (s : string) : option Z :=
  d ← ParseDuration s; if decide (d > 0) then Some d else None.

Definition tagInterval (defaultTagInterval : Z) (tag : TagConfig) : Z :=
  if decide (tc_Interval tag = EmptyString) then defaultTagInterval
  else default defaultTagInterval (positiveDuration (tc_Interval tag)).

(** What the loop over the tags collects. *)
Record collected := mkCollected {
  co_groups : gmap Z (list string);
  co_deadBands : gmap string float;
  co_enforce : gmap string Z;
  co_triggers : gmap string string * gmap string (list string);
  co_timeouts : gmap Z Z;
}.

Definition collectTag (defaultTagInterval : Z) (c : collected) (tag : TagConfig) : collected :=
  if String.eqb (tc_Protect tag) "write-only" then c
  else
    let interval := tagInterval defaultTagInterval tag in
    mkCollected
      (<[interval := default [] (co_groups c !! interval) ++ [tc_Name tag]]> (co_groups c))
      (if fltb f_zero (tc_DeadBand tag)
       then <[tc_Name tag := tc_DeadBand tag]> (co_deadBands c) else co_deadBands c)
      (match tc_EnforceInterval tag with
       | EmptyString => co_enforce c
       | s => match positiveDuration s with
              | Some d => <[tc_Name tag := d]> (co_enforce c)
              | None => co_enforce c
              end
       end)
      (collectTriggerTag tag (co_triggers c))
      (match tc_ReadTimeout tag with
       | EmptyString => co_timeouts c
       | s => match positiveDuration s with
              | Some d => if decide (d > default 0 (co_timeouts c !! interval))
                          then <[interval := d]> (co_timeouts c) else co_timeouts c
              | None => co_timeouts c
              end
       end).

Definition collectTags (defaultTagInterval : Z) (tags : list TagConfig) : collected :=
  foldl (collectTag defaultTagInterval) (mkCollected ∅ ∅ ∅ (∅, ∅) ∅) tags.

(** The task of one interval group. *)
Definition groupTask (driver : string) (minInterval : Z) (c : collected)
    (group : Z * list string) : ScheduleTask :=
  let '(interval, tags) := group in
  let effective :=
    if decide (minInterval > 0 /\ interval < minInterval) then minInterval else interval in
  mkTask (driver +:+ "_" +:+ Duration_String effective) driver tags effective
    (if decide (effective > 0 /\ effective <= DefaultHighPriorityInterval) then 1 else 0)
    (co_deadBands c) (co_enforce c) (co_triggers c).1 (co_triggers c).2
    (default 0 (co_timeouts c !! interval)).

(** The tasks [scheduleDriverTags] adds, for an order of the groups. *)
Definition driverTasks (driver : string) (limiter : option Z) (c : collected)
    (groups : list (Z * list string)) : list ScheduleTask :=
  groupTask driver (driverMinInterval limiter) c <$> groups.

Definition scheduleDriverTags {E} `{!SchedEnv E} (defaultTagInterval : Z) (driver : string)
    (limiter : option Z) (tags : list TagConfig) (s : scheduler) (w : world E)
  : scheduler * world E :=
  let c := collectTags defaultTagInterval tags in
  let '(groups, w) := rangeMap (co_groups c) w in
  (foldl (fun s task => AddTask task s) s (driverTasks driver limiter c groups), w).

End Schedule.

(** ** The deadband never hides a change

    A history is the list of samples with what was decided for each. *)
Abbreviation history := (list (TagValue * verdict)).

(** The last entry of a history with a property. *)
Definition lastWith (P : TagValue * verdict -> Prop) (h : history) (x : TagValue * verdict)
  : Prop :=
  exists h1 h2, h = h1 ++ x :: h2 /\ P x /\ Forall (fun y => ~ P y) h2.

(** A sample of a tag that moved, and one that was released with its time. *)
Definition movedOf (tag : string) (x : TagValue * verdict) : Prop :=
  tv_Tag x.1 = tag /\ exists t, x.2 = VChanged t.

Definition sentAt (d : verdict) : option Z :=
  match d with VChanged t | VHeartbeat t => Some t | _ => None end.

Definition sentOf (tag : string) (x : TagValue * verdict) : Prop :=
  tv_Tag x.1 = tag /\ is_Some (sentAt x.2).

(** Why a sample may be held, given the history before it: it is a good number
    of a tag with a deadband, closer than the deadband to the last sample that
    moved; and if the tag has a heartbeat, less than the heartbeat passed since
    the last release. *)
Definition mayHold (task : ScheduleTask) (h : history) (v : TagValue) (checked : option Z)
  : Prop :=
  exists threshold x y u,
    st_DeadBands task !! tv_Tag v = Some threshold /\ fleb threshold f_zero = false /\
    tv_Quality v = QualityGood /\ ToFloat64OK (tv_Value v) = (x, true) /\
    lastWith (movedOf (tv_Tag v)) h u /\ ToFloat64OK (tv_Value u.1) = (y, true) /\
    fleb threshold (fabs (fsub F64 x y)) = false /\
    (forall hb, st_EnforceIntervals task !! tv_Tag v = Some hb -> 0 < hb ->
       exists u' t now, lastWith (sentOf (tv_Tag v)) h u' /\ sentAt u'.2 = Some t /\
         checked = Some now /\ now - t < hb).

(** The recorded baseline and release time are those of the history. *)
Definition db_inv (h : history) (db : deadband) : Prop :=
  (forall tag y, db_lastValues db !! tag = Some y ->
     exists u, lastWith (movedOf tag) h u /\ ToFloat64OK (tv_Value u.1) = (y, true)) /\
  (forall tag t, db_lastSent db !! tag = Some t ->
     exists u, lastWith (sentOf tag) h u /\ sentAt u.2 = Some t) /\
  (forall tag, is_Some (db_lastValues db !! tag) -> is_Some (db_lastSent db !! tag)).

(** Batches of values filtered one after the other, each in an environment of
    its own; the history of all of them. *)
Section FilterRun.
Context {E : Type} `{!SchedEnv E}.

Fixpoint filterRun (task : ScheduleTask) (bs : list (list TagValue * world E))
    (db : deadband) : list history * deadband :=
  match bs with
  | [] => ([], db)
  | (values, w) :: bs =>
    let '(h, db, _) := applyDeadbandFilter task values db w in
    let '(hs, db) := filterRun task bs db in
    (h :: hs, db)
  end.

Lemma lastWith_skip P h x y : lastWith P h x -> ~ P y -> lastWith P (h ++ [y]) x.
Proof.
  intros (h1 & h2 & -> & Hx & Hall) Hy. exists h1, (h2 ++ [y]).
  rewrite <- app_assoc. split_and!; [done|done|].
  apply Forall_app; split; [done|]. by constructor.
Qed.

Lemma lastWith_here (P : TagValue * verdict -> Prop) h y : P y -> lastWith P (h ++ [y]) y.
Proof. intros Hy. exists h, []. by split_and!. Qed.

Lemma db_inv_skip h db v d :
  sentAt d = None -> db_inv h db -> db_inv (h ++ [(v, d)]) db.
Proof.
  intros Hd (H1 & H2 & H3). split_and!; [| |done].
  - intros tag y Hy. destruct (H1 _ _ Hy) as (u & Hu & He). exists u. split; [|done].
    apply lastWith_skip; [done|]. intros [_ [t Ht]]. by simplify_eq/=.
  - intros tag t Ht. destruct (H2 _ _ Ht) as (u & Hu & He). exists u. split; [|done].
    apply lastWith_skip; [done|]. intros [_ Hs]. simpl in Hs. rewrite Hd in Hs.
    by apply is_Some_None in Hs.
Qed.

Lemma db_inv_moved h db v x t :
  ToFloat64OK (tv_Value v) = (x, true) -> db_inv h db ->
  db_inv (h ++ [(v, VChanged t)])
    (mkDeadband (<[tv_Tag v := x]> (db_lastValues db)) (<[tv_Tag v := t]> (db_lastSent db))
       (db_heartbeats db)).
Proof.
  intros Hx (H1 & H2 & H3). split_and!; simpl.
  - intros tag y Hy. apply lookup_insert_Some in Hy as [[<- <-]|[Hne Hy]].
    + exists (v, VChanged t). split; [|done]. apply lastWith_here. split; [done|by eexists].
    + destruct (H1 _ _ Hy) as (u & Hu & He). exists u. split; [|done].
      apply lastWith_skip; [done|]. by intros [? _].
  - intros tag s Hs. apply lookup_insert_Some in Hs as [[<- <-]|[Hne Hs]].
    + exists (v, VChanged t). split; [|done]. apply lastWith_here. split; [done|by eexists].
    + destruct (H2 _ _ Hs) as (u & Hu & He). exists u. split; [|done].
      apply lastWith_skip; [done|]. by intros [? _].
  - intros tag. destruct (decide (tv_Tag v = tag)) as [<-|Hne].
    + rewrite !lookup_insert_eq. by eexists.
    + rewrite !lookup_insert_ne by done. apply H3.
Qed.

Lemma db_inv_heartbeat h db v t n :
  db_inv h db ->
  db_inv (h ++ [(v, VHeartbeat t)])
    (mkDeadband (db_lastValues db) (<[tv_Tag v := t]> (db_lastSent db)) n).
Proof.
  intros (H1 & H2 & H3). split_and!; simpl.
  - intros tag y Hy. destruct (H1 _ _ Hy) as (u & Hu & He). exists u. split; [|done].
    apply lastWith_skip; [done|]. intros [_ [s Hs]]. by simplify_eq/=.
  - intros tag s Hs. apply lookup_insert_Some in Hs as [[<- <-]|[Hne Hs]].
    + exists (v, VHeartbeat t). split; [|done]. apply lastWith_here. split; [done|by eexists].
    + destruct (H2 _ _ Hs) as (u & Hu & He). exists u. split; [|done].
      apply lastWith_skip; [done|]. by intros [? _].
  - intros tag Hs. destruct (decide (tv_Tag v = tag)) as [<-|Hne].
    + rewrite lookup_insert_eq. by eexists.
    + rewrite lookup_insert_ne by done. by apply H3.
Qed.

(** One sample keeps the invariant, and is held only with cause. *)
Lemma filterValue_inv task v db w h d db' w' :
  filterValue (E := E) task v db w = (d, db', w') -> db_inv h db ->
  db_inv (h ++ [(v, d)]) db' /\ (forall c, d = VHeld c -> mayHold task h v c).
Proof.
  unfold filterValue. intros Hf Hinv.
  assert (Hpass : (VPass, db, w) = (d, db', w') ->
    db_inv (h ++ [(v, d)]) db' /\ (forall c, d = VHeld c -> mayHold task h v c)).
  { intros [= <- <- <-]. split; [by apply db_inv_skip|by intros]. }
  destruct (st_DeadBands task !! tv_Tag v) as [thr|] eqn:Hthr; [|by apply Hpass].
  destruct (fleb thr f_zero) eqn:Hpos; [by apply Hpass|].
  case_decide as Hq; [by apply Hpass|].
  destruct (ToFloat64OK (tv_Value v)) as [x []] eqn:Hx; [|by apply Hpass]. clear Hpass.
  cbn [negb] in Hf. pose proof Hinv as (H1 & H2 & H3).
  destruct (db_lastValues db !! tv_Tag v) as [y|] eqn:Hy; cycle 1.
  { destruct (timeNow w) as [t w1]. injection Hf as <- <- <-.
    split; [by apply db_inv_moved|done]. }
  destruct (fleb thr (fabs (fsub F64 x y))) eqn:Hmove.
  { destruct (timeNow w) as [t w1]. injection Hf as <- <- <-.
    split; [by apply db_inv_moved|done]. }
  destruct (H1 _ _ Hy) as (u & Hu & Hval).
  destruct (H3 (tv_Tag v)) as [last Hlast]; [by rewrite Hy|].
  destruct (H2 _ _ Hlast) as (u' & Hu' & Hsent).
  destruct (st_EnforceIntervals task !! tv_Tag v) as [hb|] eqn:Hhb; cycle 1.
  { injection Hf as <- <- <-. split; [by apply db_inv_skip|].
    intros c [= <-]. exists thr, x, y, u. split_and!; try done. intros hb'. by rewrite Hhb. }
  case_decide as Hle.
  { injection Hf as <- <- <-. split; [by apply db_inv_skip|].
    intros c [= <-]. exists thr, x, y, u. split_and!; try done.
    intros hb'. rewrite Hhb. intros [= <-]. lia. }
  rewrite Hlast in Hf. destruct (timeNow w) as [t w1].
  case_bool_decide as Hdue.
  { destruct (timeNow w1) as [t2 w2]. injection Hf as <- <- <-.
    split; [by apply db_inv_heartbeat|done]. }
  injection Hf as <- <- <-. split; [by apply db_inv_skip|].
  intros c [= <-]. exists thr, x, y, u. split_and!; try done.
  intros hb'. rewrite Hhb. intros [= <-] _. exists u', last, t. split_and!; try done. lia.
Qed.

(** Every sample of a history that is held is held with cause. *)
Definition holdsWithCause (task : ScheduleTask) (h0 h : history) : Prop :=
  forall h1 v c h2, h = h1 ++ (v, VHeld c) :: h2 -> mayHold task (h0 ++ h1) v c.

Lemma holdsWithCause_cons task h0 v d h :
  (forall c, d = VHeld c -> mayHold task h0 v c) ->
  holdsWithCause task (h0 ++ [(v, d)]) h -> holdsWithCause task h0 ((v, d) :: h).
Proof.
  intros Hd Hh h1 v' c h2 Heq. destruct h1 as [|z h1]; simplify_eq/=.
  - rewrite app_nil_r. by apply Hd.
  - specialize (Hh h1 v' c h2 eq_refl). by rewrite <- app_assoc in Hh.
Qed.

Lemma holdsWithCause_app task h0 h h' :
  holdsWithCause task h0 h -> holdsWithCause task (h0 ++ h) h' ->
  holdsWithCause task h0 (h ++ h').
Proof.
  revert h0. induction h as [|[v d] h IH]; intros h0 H1 H2.
  { by rewrite app_nil_r in H2. }
  apply holdsWithCause_cons.
  - intros c ->. specialize (H1 [] v c h eq_refl). by rewrite app_nil_r in H1.
  - apply IH; [|by rewrite <- app_assoc].
    intros h1 v' c h2 ->. specialize (H1 ((v, d) :: h1) v' c h2 eq_refl).
    by rewrite <- app_assoc.
Qed.

Lemma filterValues_inv task vs db w h0 h db' w' :
  filterValues (E := E) task vs db w = (h, db', w') -> db_inv h0 db ->
  db_inv (h0 ++ h) db' /\ holdsWithCause task h0 h /\ h.*1 = vs.
Proof.
  revert db w h0 h. induction vs as [|v vs IH]; intros db w h0 h Hf Hinv; simpl in Hf.
  { injection Hf as <- <- <-. rewrite app_nil_r. split_and!; [done| |done].
    intros h1 v c h2 Heq. by destruct h1. }
  destruct (filterValue task v db w) as [[d db1] w1] eqn:Hv.
  destruct (filterValues task vs db1 w1) as [[rest db2] w2] eqn:Hvs.
  injection Hf as <- <- <-.
  destruct (filterValue_inv _ _ _ _ h0 _ _ _ Hv Hinv) as [Hinv1 Hd].
  destruct (IH _ _ _ _ Hvs Hinv1) as (Hi & Hc & Hm).
  split_and!.
  - by rewrite <- app_assoc in Hi.
  - by apply holdsWithCause_cons.
  - csimpl. by rewrite Hm.
Qed.

Lemma applyDeadbandFilter_inv task vs db w h0 h db' w' :
  applyDeadbandFilter (E := E) task vs db w = (h, db', w') -> db_inv h0 db ->
  db_inv (h0 ++ h) db' /\ holdsWithCause task h0 h /\ h.*1 = vs.
Proof.
  unfold applyDeadbandFilter. case_decide; [|by apply filterValues_inv].
  intros [= <- <- <-] Hinv. split_and!.
  - induction vs as [|v vs IH] using rev_ind; [by rewrite app_nil_r|].
    rewrite fmap_app, app_assoc. by apply db_inv_skip.
  - intros h1 v c h2 Heq. exfalso.
    assert (Hin : (v, VHeld c) ∈ (fun v => (v, VPass)) <$> vs)
      by (rewrite Heq; apply elem_of_app; right; left).
    apply list_elem_of_fmap in Hin as (v' & Hv' & _). done.
  - rewrite <- list_fmap_compose. by apply list_fmap_id.
Qed.

Lemma filterRun_inv task bs db h0 hs db' :
  filterRun task bs db = (hs, db') -> db_inv h0 db ->
  holdsWithCause task h0 (concat hs) /\ (fun h : history => h.*1) <$> hs = bs.*1.
Proof.
  revert db h0 hs. induction bs as [|[vs w] bs IH]; intros db h0 hs Hr Hinv; simpl in Hr.
  { injection Hr as <- <-. split; [|done]. intros h1 v c h2 Heq. by destruct h1. }
  destruct (applyDeadbandFilter task vs db w) as [[h db1] w1] eqn:Hf.
  destruct (filterRun task bs db1) as [hs' db2] eqn:Hrun. injection Hr as <- <-.
  destruct (applyDeadbandFilter_inv _ _ _ _ h0 _ _ _ Hf Hinv) as (Hi & Hc & Hm).
  destruct (IH _ _ _ Hrun Hi) as (Hc' & Hm').
  split; csimpl; [by apply holdsWithCause_app|]. by rewrite Hm, Hm'.
Qed.


(** A good sample that is not a number as a baseline: nothing is at a distance
    from it, so every later number of the tag is held. *)
Lemma fsub_nan x : fsub F64 x f_nan = f_nan.
Proof. by destruct x as [?|?| |???]. Qed.

Lemma fleb_nan x : fleb x f_nan = false.
Proof. by destruct x as [?|?| |???]. Qed.

Lemma nan_freezes task v db (w : world E) threshold x :
  st_DeadBands task !! tv_Tag v = Some threshold -> fleb threshold f_zero = false ->
  st_EnforceIntervals task !! tv_Tag v = None ->
  tv_Quality v = QualityGood -> ToFloat64OK (tv_Value v) = (x, true) ->
  db_lastValues db !! tv_Tag v = Some f_nan ->
  filterValue task v db w = (VHeld None, db, w).
Proof.
  intros Ht Hpos Hhb Hq Hx Hn. unfold filterValue. rewrite Ht, Hpos.
  rewrite decide_False by naive_solver. rewrite Hx. cbn [negb].
  rewrite Hn, fsub_nan, Hhb. change (fabs f_nan) with f_nan. by rewrite fleb_nan.
Qed.

Lemma nan_all_held task tag threshold vs db (w : world E) :
  st_DeadBands task !! tag = Some threshold -> fleb threshold f_zero = false ->
  st_EnforceIntervals task !! tag = None ->
  Forall (fun u => tv_Tag u = tag /\ tv_Quality u = QualityGood /\
                   (ToFloat64OK (tv_Value u)).2 = true) vs ->
  db_lastValues db !! tag = Some f_nan ->
  filterValues task vs db w = ((fun u => (u, VHeld None)) <$> vs, db, w).
Proof.
  intros Ht Hpos Hhb Hall Hn. induction Hall as [|u vs (<- & Hq & Hx) _ IH]; [done|].
  cbn [filterValues]. destruct (ToFloat64OK (tv_Value u)) as [x b] eqn:Hu. simpl in Hx. subst b.
  by erewrite nan_freezes, IH.
Qed.

(** A good NaN as the first sample of a tag with a deadband and no heartbeat is
    released, and from then on every good number of the tag is held: the filter
    freezes the tag, whatever its values do. *)
Theorem deadband_nan_freezes task tag threshold v vs (w : world E) :
  st_DeadBands task !! tag = Some threshold -> fleb threshold f_zero = false ->
  st_EnforceIntervals task !! tag = None ->
  Forall (fun u => tv_Tag u = tag /\ tv_Quality u = QualityGood /\
                   (ToFloat64OK (tv_Value u)).2 = true) (v :: vs) ->
  (ToFloat64OK (tv_Value v)).1 = f_nan ->
  releasedOf (applyDeadbandFilter task (v :: vs) (mkDeadband ∅ ∅ 0) w).1.1 = [v].
Proof.
  intros Ht Hpos Hhb Hall Hnan. unfold applyDeadbandFilter.
  rewrite decide_False by (intros He; by rewrite He, lookup_empty in Ht).
  apply Forall_cons in Hall as [(Htag & Hq & Hx) Hall]. subst tag.
  destruct (ToFloat64OK (tv_Value v)) as [x b] eqn:Hv. simpl in Hnan, Hx. subst x b.
  cbn [filterValues]. unfold filterValue at 1.
  rewrite Ht, Hpos, decide_False by naive_solver. rewrite Hv. cbn [negb db_lastValues].
  rewrite lookup_empty. destruct (timeNow w) as [t w1].
  erewrite nan_all_held by (try done; apply lookup_insert_eq).
  clear. unfold releasedOf. induction vs; [done|]. done.
Qed.

End FilterRun.

(** ** Degrading and recovering *)

(** The failures since the last successful read; skipped ticks do not count. *)
Definition failStreak (os : list outcome) : Z :=
  foldl (fun n o => match o with TSkipped => n | TFailed => n + 1 | TRead => 0 end) 0 os.

Section Ticks.
Context {E : Type} `{!SchedEnv E}.

(** Ticks one after the other, each with the pause it sees and the environment
    it runs in. *)
Fixpoint runTicks (throttle : Z) (ins : list (bool * world E)) (r : taskRunner)
  : list outcome * taskRunner :=
  match ins with
  | [] => ([], r)
  | (paused, w) :: ins =>
    let '(o, r, _) := runTick throttle paused r w in
    let '(os, r) := runTicks throttle ins r in
    (o :: os, r)
  end.

(** Two runners that differ at most in the count of suppressed cycles. *)
Definition sameButSkipped (r r' : taskRunner) : Prop :=
  rn_task r' = rn_task r /\ rn_deadband r' = rn_deadband r /\
  rn_groupTrigger r' = rn_groupTrigger r /\ rn_gated r' = rn_gated r /\
  rn_error r' = rn_error r /\ rn_overrun r' = rn_overrun r.

Lemma gateTriggerTags_same timeout r (w : world E) p r' w' :
  gateTriggerTags timeout r w = (p, r', w') -> sameButSkipped r r'.
Proof.
  unfold gateTriggerTags. case_decide; [by intros [= <- <- <-]|].
  destruct (rangeMap _ w) as [entries w1]. destruct (readFunc _ _ _ w1) as [[vs|e] w2].
  - destruct (splitTags _ _ _ w2) as [[tags sup] w3]. intros [= <- <- <-]. by case_decide.
  - by intros [= <- <- <-].
Qed.

Lemma readTick_same r (w : world E) plan res r' w' :
  readTick r w = (plan, res, r', w') -> sameButSkipped r r'.
Proof.
  unfold readTick. generalize (if decide (st_ReadTimeout (rn_task r) <= 0)
    then taskInterval (rn_task r) else st_ReadTimeout (rn_task r)); intros timeout.
  assert (Hread : forall (pl : option triggerPlan) tags vs r1 (w1 : world E),
    sameButSkipped r r1 ->
    (if decide (tags = []) then (pl, inl vs, r1, w1)
     else match readFunc timeout (st_Driver (rn_task r)) tags w1 with
          | (inl detail, w) => (pl, inl (vs ++ detail), r1, w)
          | (inr err, w) => (pl, inr err, r1, w)
          end) = (plan, res, r', w') -> sameButSkipped r r').
  { intros pl tags vs r1 w1 Hs. case_decide; [by intros [= <- <- <- <-]|].
    destruct (readFunc _ _ _ w1) as [[d|e] w2]; by intros [= <- <- <- <-]. }
  destruct (decide (rn_gated r = ∅)); [by apply Hread|].
  destruct (gateTriggerTags timeout r w) as [[p r2] w2] eqn:Hp.
  apply Hread. by eapply gateTriggerTags_same.
Qed.

(** What a tick does to the error state, and what it leaves alone. *)
Lemma runTick_error throttle paused r (w : world E) o r' w' :
  runTick throttle paused r w = (o, r', w') ->
  rn_task r' = rn_task r /\ rn_groupTrigger r' = rn_groupTrigger r /\ rn_gated r' = rn_gated r /\
  match o with
  | TSkipped => rn_error r' = rn_error r
  | TFailed => exists msg w1,
      rn_error r' = (handleReadError throttle (taskInterval (rn_task r)) msg (rn_error r) w1).1
  | TRead => rn_error r' = if er_inError (rn_error r)
                           then handleRecovery (taskInterval (rn_task r)) (rn_error r)
                           else rn_error r
  end.
Proof.
  unfold runTick. destruct paused; [by intros [= <- <- <-]|].
  destruct (timeNow w) as [start w1]. destruct (readTick r w1) as [[[plan res] r1] w2] eqn:Hr.
  apply readTick_same in Hr as (Ht & _ & Hg & Hgd & He & _).
  destruct (timeNow w2) as [fin w3]. destruct (logOverrunIfNeeded _ _ _ _ w3) as [ov w4].
  rewrite He. destruct res as [vs|err].
  - case_decide; [by intros [= <- <- <-]|].
    destruct (applyDeadbandFilter _ _ _ w4) as [[h db] w5]. by intros [= <- <- <-].
  - destruct (handleReadError _ _ _ _ w4) as [es w5] eqn:Hh. intros [= <- <- <-].
    split_and!; try done. exists (error_text err), w4. simpl. by rewrite Hh.
Qed.

(** The error state after a streak of [n] failures. *)
Definition err_inv (interval n : Z) (s : errorState) : Prop :=
  er_consecutiveErrors s = n /\ er_inError s = bool_decide (0 < n) /\
  er_degraded s = bool_decide (degradeAfterErrors <= n) /\
  er_ticker s = if decide (degradeAfterErrors <= n) then degradedInterval interval else interval.

Lemma handleReadError_inv throttle interval n msg s (w : world E) :
  0 <= n < 2 ^ 63 - 1 -> err_inv interval n s ->
  err_inv interval (n + 1) (handleReadError throttle interval msg s w).1.
Proof.
  intros Hn (Hc & Hi & Hd & Ht). unfold handleReadError. destruct (timeNow w) as [t w1].
  unfold err_inv. cbn [fst er_consecutiveErrors er_inError er_degraded er_ticker].
  rewrite Hc, wraps_small by lia. rewrite Hd, Ht. unfold degradeAfterErrors.
  split_and!; [done|by rewrite bool_decide_true by lia| |];
    repeat case_bool_decide; repeat case_decide; simpl; done || lia.
Qed.

Lemma handleRecovery_inv interval n s :
  err_inv interval n s -> err_inv interval 0 (handleRecovery interval s).
Proof.
  intros (Hc & Hi & Hd & Ht). split_and!; try done. simpl.
  rewrite Hd, Ht. unfold degradeAfterErrors.
  by case_bool_decide; repeat case_decide.
Qed.

Lemma runTicks_inv throttle ins r os r' n :
  runTicks throttle ins r = (os, r') ->
  0 <= n -> n + Z.of_nat (length ins) < 2 ^ 63 ->
  err_inv (taskInterval (rn_task r)) n (rn_error r) ->
  rn_task r' = rn_task r /\
  err_inv (taskInterval (rn_task r))
    (foldl (fun n o => match o with TSkipped => n | TFailed => n + 1 | TRead => 0 end) n os)
    (rn_error r').
Proof.
  revert r n os. induction ins as [|[paused w] ins IH]; intros r n os Hr Hn Hlen Hinv;
    cbn [runTicks] in Hr.
  { by injection Hr as <- <-. }
  destruct (runTick throttle paused r w) as [[o r1] w1] eqn:Ht.
  destruct (runTicks throttle ins r1) as [os' r2] eqn:Hrest. injection Hr as <- <-.
  apply runTick_error in Ht as (Htask & _ & _ & Ho). cbn [length] in Hlen. cbn [foldl].
  assert (Hstep : exists n', n' = match o with TSkipped => n | TFailed => n + 1 | TRead => 0 end
    /\ 0 <= n' <= n + 1 /\ err_inv (taskInterval (rn_task r)) n' (rn_error r1)).
  { eexists; split; [done|]. destruct o; (split; [lia|]).
    - by rewrite Ho.
    - destruct Ho as (msg & w2 & ->). apply handleReadError_inv; [lia|done].
    - rewrite Ho. destruct (er_inError (rn_error r)) eqn:Hin; [by eapply handleRecovery_inv|].
      destruct Hinv as (Hc & Hi & Hd & Hk). rewrite Hin in Hi. symmetry in Hi.
      apply bool_decide_eq_false in Hi. assert (n = 0) as -> by lia. by split_and!. }
  destruct Hstep as (n' & <- & Hn' & Hinv').
  rewrite <- Htask in Hinv' |- *. apply (IH _ n' _ Hrest); [lia|lia|done].
Qed.

Lemma degradedInterval_bounds task :
  10 * second <= degradedInterval (taskInterval task) /\
  (taskInterval task * 10 < 2 ^ 63 -> taskInterval task <= degradedInterval (taskInterval task)).
Proof.
  assert (0 < taskInterval task).
  { unfold taskInterval. case_decide; [reflexivity|lia]. }
  unfold degradedInterval. split; [case_decide; lia|].
  intros Hov. rewrite wraps_small by lia. case_decide; lia.
Qed.

(** After any ticks of a new task, in any timing and with
    any results, the task is degraded exactly when the last five or more reads
    failed: it counts the failures since the last successful read, its ticker
    runs at the degraded interval from the fifth failure on and at the task's
    interval otherwise, one successful read restoring it; and the degraded
    interval is at least ten seconds and, unless ten times the interval
    overflows, no shorter than the interval. *)
Theorem auto_degrade_exact throttle task (ins : list (bool * world E)) os r :
  runTicks throttle ins (newRunner task) = (os, r) ->
  Z.of_nat (length ins) < 2 ^ 63 ->
  er_consecutiveErrors (rn_error r) = failStreak os /\
  er_inError (rn_error r) = bool_decide (0 < failStreak os) /\
  er_degraded (rn_error r) = bool_decide (5 <= failStreak os) /\
  er_ticker (rn_error r) =
    (if decide (5 <= failStreak os) then degradedInterval (taskInterval task)
     else taskInterval task) /\
  10 * second <= degradedInterval (taskInterval task) /\
  (taskInterval task * 10 < 2 ^ 63 -> taskInterval task <= degradedInterval (taskInterval task)).
Proof.
  intros Hr Hlen.
  destruct (runTicks_inv throttle ins _ os r 0 Hr) as (_ & Hc & Hi & Hd & Ht);
    [lia|lia|by split_and!|].
  destruct (degradedInterval_bounds task) as [Hlo Hhi]. by split_and!.
Qed.

End Ticks.

(** ** One goroutine per task *)

Lemma lookup_cancelAll ls rs l :
  cancelAll ls rs !! l = if decide (l ∈ ls) then cancelG <$> rs !! l else rs !! l.
Proof.
  induction ls as [|k ls IH]; cbn [cancelAll foldr].
  { rewrite decide_False by apply not_elem_of_nil. done. }
  fold (cancelAll ls rs). destruct (decide (k = l)) as [->|Hne].
  - rewrite lookup_alter_eq, IH. rewrite (decide_True (P := l ∈ l :: ls)) by left.
    case_decide; [|done]. by destruct (rs !! l).
  - rewrite lookup_alter_ne by done. rewrite IH.
    case_decide as H1; case_decide as H2; try done; exfalso; set_solver.
Qed.

(** The task map leads exactly to the goroutines whose context was not
    cancelled, and a goroutine returned only when its context was done. *)
Definition sd_inv (s : scheduler) : Prop :=
  (forall id l, sd_tasks s !! id = Some l <->
     exists g, sd_runners s !! l = Some g /\ st_ID (g_task g) = id /\ g_cancelled g = false) /\
  (forall l g, sd_runners s !! l = Some g -> g_exited g = true -> isDone s g = true) /\
  (forall l, is_Some (sd_runners s !! l) -> (l < sd_next s)%nat).

(** Operations that only change pauses, or add contexts. *)
Lemma sd_inv_context s p b ctx done' :
  sd_inv s -> sd_done s ⊆ done' ->
  sd_inv (mkScheduler (sd_tasks s) p b (sd_throttle s) ctx done' (sd_runners s) (sd_next s)).
Proof.
  intros (H1 & H2 & H3) Hsub. split_and!; [done| |done].
  intros l g Hg He. specialize (H2 l g Hg He). revert H2. unfold isDone.
  destruct (g_cancelled g); [done|]. destruct (g_parent g) as [c|]; [|done].
  simpl. rewrite !bool_decide_eq_true. set_solver.
Qed.

(** Cancelling goroutines and removing their tasks. *)
Lemma sd_inv_remove s ls p done' tasks :
  sd_inv s -> sd_done s ⊆ done' ->
  (forall id l, tasks !! id = Some l <-> sd_tasks s !! id = Some l /\ l ∉ ls) ->
  sd_inv (mkScheduler tasks p (sd_globalPaused s) (sd_throttle s) (sd_ctx s) done'
            (cancelAll ls (sd_runners s)) (sd_next s)).
Proof.
  intros (H1 & H2 & H3) Hsub Hrem. split_and!; simpl.
  - intros id l. rewrite Hrem, H1, lookup_cancelAll. case_decide as Hl.
    + split; [by intros [_ ?]|]. intros (g & Hg & _ & Hc).
      apply fmap_Some in Hg as (g0 & _ & ->). done.
    + naive_solver.
  - intros l g. rewrite lookup_cancelAll. case_decide as Hl.
    + intros (g0 & Hg0 & ->)%fmap_Some _. done.
    + intros Hg He. specialize (H2 l g Hg He). revert H2. unfold isDone. simpl.
      destruct (g_cancelled g); [done|]. destruct (g_parent g) as [c|]; [|done].
      simpl. rewrite !bool_decide_eq_true. set_solver.
  - intros l. rewrite lookup_cancelAll. case_decide; rewrite ?fmap_is_Some; apply H3.
Qed.

(** The map of tasks is injective. *)
Lemma tasks_inj s id id' l :
  sd_inv s -> sd_tasks s !! id = Some l -> sd_tasks s !! id' = Some l -> id = id'.
Proof. intros (H1 & _). rewrite !H1. naive_solver. Qed.

Lemma Stop_inv s : sd_inv s -> sd_inv (Stop s).
Proof.
  intros Hinv. apply sd_inv_remove; [done|destruct (sd_ctx s); set_solver|].
  intros id l. split; [by rewrite lookup_empty|]. intros [Hl Hn]. destruct Hn.
  apply list_elem_of_fmap. exists (id, l). split; [done|]. by apply elem_of_map_to_list.
Qed.

Lemma mine_elem s d l :
  l ∈ (filter (fun x => taskDriver s x.2 = Some d) (map_to_list (sd_tasks s))).*2 <->
  taskDriver s l = Some d /\ exists id, sd_tasks s !! id = Some l.
Proof.
  rewrite list_elem_of_fmap. setoid_rewrite list_elem_of_filter. split.
  - intros ([id l'] & -> & Hd & Hl). apply elem_of_map_to_list in Hl. naive_solver.
  - intros (Hd & id & Hl). exists (id, l). by rewrite elem_of_map_to_list.
Qed.

Lemma RemoveDriverTasks_inv d s : sd_inv s -> sd_inv (RemoveDriverTasks d s).
Proof.
  intros Hinv. apply sd_inv_remove; [done|done|]. intros id l.
  rewrite mine_elem. set (mine := filter _ _).
  assert (Hid : id ∈ mine.*1 <-> exists l, sd_tasks s !! id = Some l /\ taskDriver s l = Some d).
  { unfold mine. rewrite list_elem_of_fmap. setoid_rewrite list_elem_of_filter. split.
    - intros ([id' l'] & -> & Hd & Hl). apply elem_of_map_to_list in Hl. naive_solver.
    - intros (l' & Hl & Hd). exists (id, l'). by rewrite elem_of_map_to_list. }
  destruct (decide (id ∈ mine.*1)) as [Hin|Hout].
  - rewrite lookup_foldr_delete by done. split; [done|]. intros [Hl Hn].
    apply Hid in Hin. naive_solver.
  - rewrite lookup_foldr_delete_not_elem_of by done. split; [|by intros [? _]].
    intros Hl. split; [done|]. intros (Hd & _). apply Hout, Hid. eauto.
Qed.

Lemma AddTask_inv task s : sd_inv s -> sd_inv (AddTask task s).
Proof.
  intros (H1 & H2 & H3).
  assert (Hnew : sd_runners s !! sd_next s = None).
  { apply eq_None_not_Some. intros Hs%H3. lia. }
  set (rs := match sd_tasks s !! st_ID task with
             | Some l => alter cancelG l (sd_runners s) | None => sd_runners s end).
  assert (Hrs : forall l, rs !! l =
    if decide (sd_tasks s !! st_ID task = Some l) then cancelG <$> sd_runners s !! l
    else sd_runners s !! l).
  { intros l. unfold rs. destruct (sd_tasks s !! st_ID task) as [l0|];
      [|by rewrite decide_False]. destruct (decide (l0 = l)) as [->|Hne].
    - by rewrite lookup_alter_eq, decide_True.
    - rewrite lookup_alter_ne, decide_False by congruence. done. }
  unfold AddTask. fold rs. split_and!; simpl.
  - intros id l. destruct (decide (l = sd_next s)) as [->|Hl].
    + rewrite lookup_insert_eq. rewrite lookup_insert_Some, H1, Hnew. naive_solver.
    + rewrite (lookup_insert_ne rs) by done. rewrite lookup_insert_Some, Hrs.
      case_decide as Hc.
      * split; [|by intros (g & (g0 & _ & ->)%fmap_Some & _ & ?)].
        intros [[_ ?]|[Hne Hl']]; [done|]. destruct Hne.
        apply H1 in Hc, Hl'. naive_solver.
      * rewrite H1. rewrite H1 in Hc. naive_solver.
  - intros l g. rewrite lookup_insert_Some, Hrs. intros [[_ <-]|[Hl Hg]]; [done|].
    revert Hg. case_decide; [by intros (g0 & _ & ->)%fmap_Some|]. apply H2.
  - intros l. rewrite lookup_insert_is_Some', Hrs. intros [->|Hl]; [lia|].
    apply Nat.lt_lt_succ_r, H3. revert Hl. case_decide; by rewrite ?fmap_is_Some.
Qed.

Lemma setRunner_inv s l g g' :
  sd_inv s -> sd_runners s !! l = Some g ->
  g_task g' = g_task g -> g_cancelled g' = g_cancelled g ->
  (g_exited g' = true -> isDone s g' = true) -> sd_inv (setRunner s l g').
Proof.
  intros (H1 & H2 & H3) Hg Ht Hc He. split_and!; simpl.
  - intros id k. rewrite H1. destruct (decide (l = k)) as [<-|Hne].
    + rewrite lookup_insert_eq, Hg. naive_solver congruence.
    + by rewrite lookup_insert_ne.
  - intros k h. rewrite lookup_insert_Some. intros [[<- <-]|[Hne Hk]]; [done|]. by apply (H2 k).
  - intros k. rewrite lookup_insert_is_Some'. intros [<-|Hk]; [|by apply H3].
    apply H3. by eexists.
Qed.

(** What removing a driver's tasks does to a goroutine: one of the driver is
    cancelled and no longer in the map, one of another driver is untouched. *)
Lemma RemoveDriverTasks_spec d s l g :
  sd_inv s -> sd_runners (RemoveDriverTasks d s) !! l = Some g ->
  if decide (st_Driver (g_task g) = d)
  then g_cancelled g = true /\ forall id, sd_tasks (RemoveDriverTasks d s) !! id <> Some l
  else sd_runners s !! l = Some g.
Proof.
  intros Hinv Hg. pose proof Hinv as (H1 & _ & _).
  destruct (RemoveDriverTasks_inv d s Hinv) as (H1' & _).
  assert (Hc : st_Driver (g_task g) = d -> g_cancelled g = true).
  { intros Hd. simpl in Hg. rewrite lookup_cancelAll in Hg.
    case_decide as Hm; [by apply fmap_Some in Hg as (g0 & _ & ->)|]. rewrite mine_elem in Hm.
    destruct (g_cancelled g) eqn:Hc; [done|]. destruct Hm. split.
    - unfold taskDriver. rewrite Hg. simpl. by rewrite Hd.
    - exists (st_ID (g_task g)). apply H1. eauto. }
  case_decide as Hd.
  - split; [by apply Hc|]. intros id Hid. apply H1' in Hid as (g' & Hg' & _ & Hc').
    rewrite Hg in Hg'. injection Hg' as <-. rewrite Hc in Hc' by done. done.
  - simpl in Hg. rewrite lookup_cancelAll in Hg. case_decide as Hm; [|done].
    apply mine_elem in Hm as (Htd & _). apply fmap_Some in Hg as (g0 & Hg0 & ->). destruct Hd.
    unfold taskDriver in Htd. rewrite Hg0 in Htd. by injection Htd.
Qed.

Section Live.
Context {E : Type} `{!SchedEnv E}.

Lemma sd_step_inv (x y : scheduler * world E) : sd_step x y -> sd_inv x.1 -> sd_inv y.1.
Proof.
  intros Hstep Hinv. destruct Hstep; simpl in *; try (by apply sd_inv_context); try done.
  - destruct Hinv as (H1 & H2 & H3). split_and!; [done|done|].
    intros l Hl%H3. simpl. lia.
  - by apply Stop_inv.
  - by apply AddTask_inv.
  - by apply RemoveDriverTasks_inv.
  - apply sd_inv_context; [done|]. set_solver.
  - eapply setRunner_inv; [done|done| |done|done].
    match goal with H : runTick _ _ _ _ = _ |- _ => apply runTick_error in H as (Ht & _) end.
    done.
  - by eapply setRunner_inv.
Qed.

Lemma sd_reachable_inv throttle (w0 w : world E) s :
  rtc sd_step (NewScheduler throttle, w0) (s, w) -> sd_inv s.
Proof.
  intros Hr. change s with (s, w).1.
  assert (H0 : sd_inv (NewScheduler throttle, w0).1).
  { split_and!; simpl.
    - intros id l. rewrite lookup_empty. split; [done|].
      by intros (g & Hg%lookup_empty_Some & _).
    - by intros l g ?%lookup_empty_Some.
    - intros l. rewrite lookup_empty. by intros ?%is_Some_None. }
  revert H0. induction Hr as [x|x y z Hstep _ IH]; intros H0; [done|].
  by eapply IH, sd_step_inv.
Qed.

(** When every goroutine's context is done they can all return. *)
Definition allDone (s : scheduler) : Prop :=
  forall l g, sd_runners s !! l = Some g -> isDone s g = true.

Lemma allDone_returns s (w : world E) (ls : list nat) :
  allDone s -> exists s', rtc sd_step (s, w) (s', w) /\ allDone s' /\
    sd_tasks s' = sd_tasks s /\
    (forall l, is_Some (sd_runners s' !! l) <-> is_Some (sd_runners s !! l)) /\
    (forall l g, l ∈ ls -> sd_runners s' !! l = Some g -> g_exited g = true).
Proof.
  intros Hd. induction ls as [|l ls (s1 & Hr & Hd1 & Ht & Hk & Hx)].
  { exists s. split_and!; try done. by intros l g ?%not_elem_of_nil. }
  destruct (sd_runners s1 !! l) as [g|] eqn:Hg; cycle 1.
  { exists s1. split_and!; try done. intros k h [->|Hin]%elem_of_cons Hh; [congruence|eauto]. }
  destruct (g_exited g) eqn:He.
  { exists s1. split_and!; try done. intros k h [->|Hin]%elem_of_cons Hh; [congruence|eauto]. }
  exists (setRunner s1 l (exitG g)). split_and!.
  - eapply rtc_r; [done|]. eapply step_return; [done|done|]. by eapply Hd1.
  - intros k h. simpl. rewrite lookup_insert_Some. intros [[<- <-]|[_ Hh]].
    + apply (Hd1 _ _ Hg).
    + by apply (Hd1 k h).
  - done.
  - intros k. simpl. rewrite lookup_insert_is_Some', <- Hk.
    split; [|by right]. intros [<-|?]; [by rewrite Hg|done].
  - intros k h Hin. simpl. rewrite lookup_insert_Some. intros [[<- <-]|[Hne Hh]]; [done|].
    apply (Hx k h); [|done]. apply elem_of_cons in Hin as [->|Hin]; done.
Qed.

Lemma waitReturns_spec s :
  waitReturns s = true <-> forall l g, sd_runners s !! l = Some g -> g_exited g = true.
Proof.
  unfold waitReturns. rewrite forallb_forall. split.
  - intros H l g Hg. apply (H (l, g)), list_elem_of_In, elem_of_map_to_list. done.
  - intros H [l g] Hin%list_elem_of_In%elem_of_map_to_list. by apply (H l).
Qed.

Lemma Stop_allDone s : sd_inv s -> allDone (Stop s).
Proof.
  intros (H1 & _) l g. simpl. rewrite lookup_cancelAll. case_decide as Hl.
  { by intros (g0 & _ & ->)%fmap_Some. }
  intros Hg. unfold isDone. destruct (g_cancelled g) eqn:Hc; [done|]. destruct Hl.
  apply list_elem_of_fmap. exists (st_ID (g_task g), l). split; [done|].
  apply elem_of_map_to_list, H1. eauto.
Qed.

(** C38. In every interleaving of calls, ticks and
    returns: the task map leads exactly to the goroutines whose context was not
    cancelled, so a task id has at most one of them, and a goroutine whose
    context is not done is running.  [RemoveDriverTasks] leaves no goroutine of
    the driver with a live context and no task of it, and does not touch a
    goroutine of another driver.  After [Stop] no task is left, every
    goroutine's context is done, and they can all return, so that the wait of
    [Stop] ends. *)
Theorem scheduler_one_goroutine throttle (w0 w : world E) s :
  rtc sd_step (NewScheduler throttle, w0) (s, w) ->
  (forall id l, sd_tasks s !! id = Some l <->
     exists g, sd_runners s !! l = Some g /\ st_ID (g_task g) = id /\ g_cancelled g = false) /\
  (forall l g, sd_runners s !! l = Some g -> isDone s g = false -> g_exited g = false) /\
  (forall d l g, sd_runners (RemoveDriverTasks d s) !! l = Some g ->
     if decide (st_Driver (g_task g) = d)
     then g_cancelled g = true /\
          forall id, sd_tasks (RemoveDriverTasks d s) !! id <> Some l
     else sd_runners s !! l = Some g) /\
  sd_tasks (Stop s) = ∅ /\ allDone (Stop s) /\
  exists s', rtc sd_step (Stop s, w) (s', w) /\ waitReturns s' = true.
Proof.
  intros Hr. assert (Hinv := sd_reachable_inv _ _ _ _ Hr).
  pose proof Hinv as (H1 & H2 & H3). split_and!; [done| | |done|by apply Stop_allDone|].
  - intros l g Hg Hd. destruct (g_exited g) eqn:He; [|done]. by rewrite (H2 _ _ Hg He) in Hd.
  - intros d l g Hg. by apply RemoveDriverTasks_spec.
  - destruct (allDone_returns (Stop s) w (map_to_list (sd_runners (Stop s))).*1)
      as (s' & Hr' & _ & _ & Hk & Hx); [by apply Stop_allDone|].
    exists s'. split; [done|]. apply waitReturns_spec. intros l g Hg. apply (Hx l g); [|done].
    destruct (proj1 (Hk l)) as [g0 Hg0]; [by eexists|].
    apply list_elem_of_fmap. exists (l, g0). by rewrite elem_of_map_to_list.
Qed.

End Live.

(** ** What a driver with trigger groups reads *)

Definition conditionNames (tags : list TagConfig) : list string :=
  tc_Name <$> filter (fun t => tc_TriggerGroup t <> EmptyString) tags.

(** The check of trigger references in [validateDriver]: an error for the first
    gated tag that names no condition of the driver.  (Every tag's name is in
    [tagNames] by then.) *)
Fixpoint checkTriggers (driver : string) (conditions : list string) (tags : list TagConfig)
  : option error :=
  match tags with
  | [] => None
  | tag :: rest =>
    if decide (tc_Triggers tag = EmptyString) then checkTriggers driver conditions rest
    else if decide (tc_Triggers tag ∈ conditions) then checkTriggers driver conditions rest
    else Some (ErrFmt ("driver " +:+ driver +:+ ": tag " +:+ quote (tc_Name tag) +:+
                       ": triggers " +:+ quote (tc_Triggers tag) +:+
                       ", which is not a trigger-group condition on this driver"))
  end.

Definition validateTriggers (driver : string) (tags : list TagConfig) : option error :=
  checkTriggers driver (conditionNames tags) tags.

(** A tag the scheduler collects at all. *)
Definition readable (t : TagConfig) : Prop := tc_Protect t <> "write-only"%string.

Lemma checkTriggers_ok driver conditions tags t :
  checkTriggers driver conditions tags = None -> t ∈ tags -> tc_Triggers t <> EmptyString ->
  tc_Triggers t ∈ conditions.
Proof.
  induction tags as [|t' tags IH]; simpl; [by intros _ ?%not_elem_of_nil|].
  intros Hc Hin Hne. apply elem_of_cons in Hin as [->|Hin].
  - rewrite decide_False in Hc by done. by case_decide.
  - repeat case_decide; by apply IH.
Qed.

Lemma conditionNames_elem tags n :
  n ∈ conditionNames tags <->
  exists c, c ∈ tags /\ tc_TriggerGroup c <> EmptyString /\ tc_Name c = n.
Proof.
  unfold conditionNames. rewrite list_elem_of_fmap. setoid_rewrite list_elem_of_filter.
  naive_solver.
Qed.

(** The two trigger maps only hold what the tags declare, and hold something
    when a collected tag declares it. *)
Definition triggers_from (tags : list TagConfig)
    (m : gmap string string * gmap string (list string)) : Prop :=
  (forall g n, m.1 !! g = Some n ->
     exists c, c ∈ tags /\ tc_TriggerGroup c = g /\ g <> EmptyString /\ tc_Name c = n) /\
  (forall k l n, m.2 !! k = Some l -> n ∈ l ->
     exists t, t ∈ tags /\ tc_Triggers t = k /\ k <> EmptyString /\ tc_Name t = n) /\
  ((exists c, c ∈ tags /\ readable c /\ tc_TriggerGroup c <> EmptyString) -> m.1 <> ∅) /\
  ((exists t, t ∈ tags /\ readable t /\ tc_Triggers t <> EmptyString) -> m.2 <> ∅).

Lemma collectTriggerTag_from tags tag m :
  triggers_from tags m -> triggers_from (tags ++ [tag]) (collectTriggerTag tag m).
Proof.
  destruct m as [gt gd]. intros (H1 & H2 & H3 & H4). unfold collectTriggerTag.
  assert (Hsub : forall t, t ∈ tags -> t ∈ tags ++ [tag]) by set_solver.
  assert (Hend : forall t, t ∈ tags ++ [tag] -> t ∈ tags \/ t = tag) by set_solver.
  split_and!; cbn [fst snd] in *.
  - intros g n. case_decide; [rewrite lookup_insert_Some|]; [|naive_solver].
    intros [[<- <-]|[_ Hg]]; [|naive_solver].
    exists tag. split_and!; try done. set_solver.
  - intros k l n. case_decide; [rewrite lookup_insert_Some|]; [|naive_solver].
    intros [[<- <-]|[_ Hk]]; [|naive_solver].
    rewrite elem_of_app, list_elem_of_singleton. intros [Hn| ->].
    + destruct (gd !! tc_Triggers tag) as [l|] eqn:Hl; [naive_solver|].
      by apply not_elem_of_nil in Hn.
    + exists tag. split_and!; try done. set_solver.
  - intros (c & Hc & Hr & Hg). case_decide; [by apply insert_non_empty|].
    apply H3. exists c. destruct (Hend _ Hc) as [?| ->]; [|done]. done.
  - intros (c & Hc & Hr & Hg). case_decide; [by apply insert_non_empty|].
    apply H4. exists c. destruct (Hend _ Hc) as [?| ->]; [|done]. done.
Qed.

Lemma collectTags_triggers `{!GoArch} d tags :
  triggers_from tags (co_triggers (collectTags d tags)).
Proof.
  induction tags as [|tag tags IH] using rev_ind.
  { split_and!; simpl; [intros ??|intros ???|intros (? & []%not_elem_of_nil & _)..];
      by rewrite lookup_empty. }
  unfold collectTags. rewrite foldl_app. cbn [foldl]. unfold collectTag at 1.
  destruct (String.eqb_spec (tc_Protect tag) "write-only") as [Hwo|Hr];
    [|by apply collectTriggerTag_from].
  destruct IH as (H1 & H2 & H3 & H4).
  split_and!.
  - intros g n Hg. destruct (H1 _ _ Hg) as (c & ? & ?). exists c. set_solver.
  - intros k l n Hk Hn. destruct (H2 _ _ _ Hk Hn) as (c & ? & ?). exists c. set_solver.
  - intros (c & Hc & Hr & ?). apply H3. exists c. split; [|done].
    apply elem_of_app in Hc as [?|?%list_elem_of_singleton]; [done|by subst].
  - intros (c & Hc & Hr & ?). apply H4. exists c. split; [|done].
    apply elem_of_app in Hc as [?|?%list_elem_of_singleton]; [done|by subst].
Qed.

Section Reads.
Context {E : Type} `{!SchedEnv E}.

(** A driver answers a read with values of the tags it was asked for. *)
Definition answersAsked : Prop :=
  forall timeout d tags e vs,
    (env_read (E := E) timeout d tags e).1 = inl vs -> Forall (fun v => tv_Tag v ∈ tags) vs.

Lemma gatedIn_some entries tag k :
  gatedIn entries tag = Some k -> exists l, (k, l) ∈ entries /\ tag ∈ l.
Proof.
  induction entries as [|[g l] entries IH]; simpl; [done|].
  case_decide; [intros [= <-]; exists l; set_solver|]. intros (l' & ? & ?)%IH. exists l'. set_solver.
Qed.

Lemma firedOf_some vs t b :
  firedOf vs !! t = Some b -> exists v, v ∈ vs /\ tv_Tag v = t.
Proof.
  unfold firedOf. induction vs as [|v vs IH] using rev_ind;
    [cbn [foldl]; by rewrite lookup_empty|].
  rewrite foldl_app. cbn [foldl]. rewrite lookup_insert_Some. intros [[<- _]|[_ Hb]].
  - exists v. set_solver.
  - destruct (IH Hb) as (u & ? & ?). exists u. set_solver.
Qed.

Lemma rangeMap_reads {K A} `{Countable K} (m : gmap K A) (w : world E) l w' :
  rangeMap m w = (l, w') -> w_reads w' = w_reads w /\ l ≡ₚ map_to_list m.
Proof.
  unfold rangeMap. pose proof (env_range_perm m (w_env w)) as Hp.
  destruct (env_range m (w_env w)) as [l' e]. by intros [= <- <-].
Qed.

(** A tag chosen for reading is gated by a group whose condition fired. *)
Lemma splitTags_reads r fired tags (w : world E) rd sup w' :
  splitTags r fired tags w = (rd, sup, w') ->
  w_reads w' = w_reads w /\
  forall tag, tag ∈ rd -> exists k l, rn_gated r !! k = Some l /\ tag ∈ l /\
    fired !! default EmptyString (rn_groupTrigger r !! k) = Some true.
Proof.
  revert w rd sup w'. induction tags as [|t tags IH]; intros w rd sup w' Hs;
    cbn [splitTags] in Hs.
  { injection Hs as <- <- <-. split; [done|]. by intros ? ?%not_elem_of_nil. }
  unfold gatedOf in Hs. destruct (rangeMap (rn_gated r) w) as [entries w1] eqn:Hr.
  apply rangeMap_reads in Hr as [Hw1 Hp].
  destruct (splitTags r fired tags w1) as [[rd1 sup1] w2] eqn:Hs1.
  destruct (IH _ _ _ _ Hs1) as [Hw2 Hrd].
  destruct (gatedIn entries t) as [k|] eqn:Hk; cycle 1.
  { injection Hs as <- <- <-. by rewrite Hw2. }
  destruct (default false (fired !! default EmptyString (rn_groupTrigger r !! k))) eqn:Hf;
    injection Hs as <- <- <-; (split; [by rewrite Hw2|]); [|done].
  intros tag [->|Hin]%elem_of_cons; [|by apply Hrd].
  apply gatedIn_some in Hk as (l & Hl & Hin). exists k, l. split_and!; [|done|].
  - by rewrite Hp, elem_of_map_to_list in Hl.
  - by destruct (fired !! _) as [[]|].
Qed.

(** The reads of a gated tick: the conditions, and gated tags of the groups
    whose condition was reported. *)
Definition gatedReads (r : taskRunner) (rs : list (string * list string)) : Prop :=
  forall d ts tag, (d, ts) ∈ rs -> tag ∈ ts ->
    (exists g, rn_groupTrigger r !! g = Some tag) \/
    (exists k l c, rn_gated r !! k = Some l /\ tag ∈ l /\
       c = default EmptyString (rn_groupTrigger r !! k) /\
       exists g, rn_groupTrigger r !! g = Some c).

Lemma gateTriggerTags_reads timeout r (w : world E) p r' w' :
  answersAsked -> rn_groupTrigger r <> ∅ ->
  gateTriggerTags timeout r w = (p, r', w') ->
  exists ts, w_reads w' = w_reads w ++ [(st_Driver (rn_task r), ts)] /\
    (forall tag, tag ∈ ts -> exists g, rn_groupTrigger r !! g = Some tag) /\
    forall tag, tag ∈ pl_read p -> exists k l c, rn_gated r !! k = Some l /\ tag ∈ l /\
       c = default EmptyString (rn_groupTrigger r !! k) /\
       exists g, rn_groupTrigger r !! g = Some c.
Proof.
  intros Hans Hne. unfold gateTriggerTags. rewrite decide_False by done.
  destruct (rangeMap (rn_groupTrigger r) w) as [entries w1] eqn:Hr.
  apply rangeMap_reads in Hr as [Hw1 Hp].
  assert (Hcond : forall tag, tag ∈ entries.*2 -> exists g, rn_groupTrigger r !! g = Some tag).
  { intros tag ([g n] & -> & Hin)%list_elem_of_fmap. exists g.
    by rewrite Hp, elem_of_map_to_list in Hin. }
  unfold readFunc. pose proof (Hans timeout (st_Driver (rn_task r)) entries.*2 (w_env w1)) as Ha.
  destruct (env_read timeout _ _ (w_env w1)) as [[vs|e] e1]; cbn [fst] in Ha.
  - destruct (splitTags _ _ _ _) as [[tags sup] w3] eqn:Hs. intros [= <- <- <-].
    apply splitTags_reads in Hs as [Hw3 Hrd]. exists entries.*2.
    split_and!; [by rewrite Hw3; simpl; rewrite Hw1|done|].
    intros tag (k & l & Hk & Hl & Hf)%Hrd. eexists k, l, _. split_and!; [done|done|done|].
    apply firedOf_some in Hf as (v & Hv & <-). apply Hcond.
    specialize (Ha vs eq_refl). rewrite Forall_forall in Ha. by apply Ha.
  - intros [= <- <- <-]. exists entries.*2. simpl. rewrite Hw1. split_and!; [done|done|].
    by intros ? ?%not_elem_of_nil.
Qed.

Lemma readTick_reads r (w : world E) plan res r' w' :
  answersAsked -> rn_groupTrigger r <> ∅ -> rn_gated r <> ∅ ->
  readTick r w = (plan, res, r', w') ->
  exists rs, w_reads w' = w_reads w ++ rs /\ gatedReads r rs.
Proof.
  intros Hans Hgt Hgd. unfold readTick.
  generalize (if decide (st_ReadTimeout (rn_task r) <= 0)
    then taskInterval (rn_task r) else st_ReadTimeout (rn_task r)); intros timeout.
  rewrite (decide_False (P := rn_gated r = ∅)) by done.
  destruct (gateTriggerTags timeout r w) as [[p r1] w1] eqn:Hg.
  destruct (gateTriggerTags_reads _ _ _ _ _ _ Hans Hgt Hg) as (ts & Hw1 & Hcond & Hread).
  assert (Hlast : forall d, w_reads w' = w_reads w1 ++ [(d, pl_read p)] ->
    exists rs, w_reads w' = w_reads w ++ rs /\ gatedReads r rs).
  { intros d Hw'. exists [(st_Driver (rn_task r), ts); (d, pl_read p)].
    split; [by rewrite Hw', Hw1, <- app_assoc|].
    intros d' ts' tag Hin Htag. rewrite !elem_of_cons in Hin.
    destruct Hin as [[= -> ->]|[[= -> ->]|[]%not_elem_of_nil]]; eauto. }
  case_decide.
  { intros [= <- <- <- <-]. exists [(st_Driver (rn_task r), ts)]. split; [done|].
    intros d' ts' tag [= -> ->]%list_elem_of_singleton Htag. eauto. }
  destruct (readFunc timeout _ (pl_read p) w1) as [res2 w2] eqn:Hf.
  assert (Hw2 : w_reads w2 = w_reads w1 ++ [(st_Driver (rn_task r), pl_read p)]).
  { unfold readFunc in Hf. destruct (env_read _ _ _ _) as [x e]. by injection Hf as <- <-. }
  destruct res2; intros [= <- <- <- <-]; by eapply Hlast.
Qed.

Lemma timeNow_reads (w : world E) : w_reads (timeNow w).2 = w_reads w.
Proof. unfold timeNow. by destruct (env_now _). Qed.

Lemma filterValue_reads task v db (w : world E) : w_reads (filterValue task v db w).2 = w_reads w.
Proof.
  unfold filterValue. destruct (st_DeadBands task !! _) as [thr|]; [|done].
  destruct (fleb thr f_zero); [done|]. case_decide; [done|].
  destruct (ToFloat64OK _) as [x []]; [|done]. cbn [negb].
  pose proof (timeNow_reads w) as H1. pose proof (timeNow_reads (timeNow w).2) as H2.
  destruct (timeNow w) as [t w1]. cbn [snd] in *.
  destruct (match db_lastValues db !! _ with Some _ => _ | None => _ end); [done|].
  destruct (st_EnforceIntervals task !! _) as [hb|]; [|done]. case_decide; [done|].
  destruct (db_lastSent db !! _) as [s|];
    [|pose proof (timeNow_reads w) as H3; by destruct (timeNow w)].
  case_bool_decide; [|done]. destruct (timeNow w1) as [t2 w2]. cbn [snd] in *. congruence.
Qed.

Lemma applyDeadbandFilter_reads task vs db (w : world E) :
  w_reads (applyDeadbandFilter task vs db w).2 = w_reads w.
Proof.
  unfold applyDeadbandFilter. case_decide as Hd; [done|]. clear Hd.
  revert db w. induction vs as [|v vs IH]; intros db w; [done|]. cbn [filterValues].
  pose proof (filterValue_reads task v db w) as H1.
  destruct (filterValue task v db w) as [[d db1] w1]. specialize (IH db1 w1).
  destruct (filterValues task vs db1 w1) as [[h db2] w2]. simpl in *. congruence.
Qed.

Lemma logOverrunIfNeeded_reads throttle latency interval o (w : world E) :
  w_reads (logOverrunIfNeeded throttle latency interval o w).2 = w_reads w.
Proof.
  unfold logOverrunIfNeeded. case_decide; [done|].
  pose proof (timeNow_reads w) as H1. destruct (timeNow w) as [t w1].
  destruct (match ov_lastOverrunLog o with Some _ => _ | None => _ end); [done|].
  pose proof (timeNow_reads w1) as H2. destruct (timeNow w1) as [t2 w2]. simpl in *. congruence.
Qed.

Lemma runTick_reads throttle paused r (w : world E) o r' w' :
  answersAsked -> rn_groupTrigger r <> ∅ -> rn_gated r <> ∅ ->
  runTick throttle paused r w = (o, r', w') ->
  exists rs, w_reads w' = w_reads w ++ rs /\ gatedReads r rs.
Proof.
  intros Hans Hgt Hgd. unfold runTick. destruct paused.
  { intros [= <- <- <-]. exists []. rewrite app_nil_r. split; [done|].
    by intros d ts tag ?%not_elem_of_nil. }
  pose proof (timeNow_reads w) as H1. destruct (timeNow w) as [start w1].
  destruct (readTick r w1) as [[[plan res] r1] w2] eqn:Hr.
  destruct (readTick_reads _ _ _ _ _ _ Hans Hgt Hgd Hr) as (rs & Hw2 & Hrs).
  pose proof (timeNow_reads w2) as H2. destruct (timeNow w2) as [fin w3].
  pose proof (logOverrunIfNeeded_reads throttle (fin - start) (taskInterval (rn_task r))
    (rn_overrun r1) w3) as H3.
  destruct (logOverrunIfNeeded _ _ _ _ w3) as [ov w4]. cbn [snd] in *.
  assert (Hw4 : w_reads w4 = w_reads w ++ rs) by congruence.
  intros Ht. exists rs. split; [|done]. rewrite <- Hw4. destruct res as [vs|err].
  - case_decide; [by injection Ht as <- <- <-|].
    pose proof (applyDeadbandFilter_reads (rn_task r) vs (rn_deadband r1) w4) as H5.
    destruct (applyDeadbandFilter _ _ _ w4) as [[h db] w5]. injection Ht as <- <- <-.
    by case_decide.
  - unfold handleReadError in Ht. pose proof (timeNow_reads w4) as H5.
    destruct (timeNow w4) as [t w5]. by injection Ht as <- <- <-.
Qed.

Lemma runTicks_triggers throttle (ins : list (bool * world E)) r os r' :
  runTicks throttle ins r = (os, r') ->
  rn_groupTrigger r' = rn_groupTrigger r /\ rn_gated r' = rn_gated r.
Proof.
  revert r os. induction ins as [|[paused w] ins IH]; intros r os Hr; cbn [runTicks] in Hr.
  { by injection Hr as <- <-. }
  destruct (runTick throttle paused r w) as [[o r1] w1] eqn:Ht.
  destruct (runTicks throttle ins r1) as [os' r2] eqn:Hrest. injection Hr as <- <-.
  apply runTick_error in Ht as (_ & <- & <- & _). by eapply IH.
Qed.

Context `{!GoArch}.

(** In a driver with a collected condition and a collected
    gated tag, whose configuration passes the check of trigger references, no
    task of the driver ever requests a tag that is neither a condition nor
    gated: the driver's ordinary tags are not collected at all.  And when no
    trigger group is named like a tag -- as in the documented example -- the
    gated tags are not read either, whatever their conditions say: the gating
    looks a condition's tag name up among the group names. *)
Theorem gated_driver_reads dflt driver limiter tags groups task throttle
    (ins : list (bool * world E)) os r paused w o r' w' :
  answersAsked -> validateTriggers driver tags = None ->
  Forall (fun t => tc_Name t <> EmptyString) tags ->
  (exists c, c ∈ tags /\ readable c /\ tc_TriggerGroup c <> EmptyString) ->
  (exists t, t ∈ tags /\ readable t /\ tc_Triggers t <> EmptyString) ->
  task ∈ driverTasks driver limiter (collectTags dflt tags) groups ->
  runTicks throttle ins (newRunner task) = (os, r) ->
  runTick throttle paused r w = (o, r', w') ->
  exists rs, w_reads w' = w_reads w ++ rs /\
    forall d ts tag, (d, ts) ∈ rs -> tag ∈ ts ->
      exists t, t ∈ tags /\ tc_Name t = tag /\
        (tc_TriggerGroup t <> EmptyString \/ tc_Triggers t <> EmptyString) /\
        ((forall c u, c ∈ tags -> u ∈ tags -> tc_TriggerGroup c <> EmptyString ->
            tc_TriggerGroup c <> tc_Name u) ->
         tc_TriggerGroup t <> EmptyString).
Proof.
  intros Hans Hval Hnames Hc Hg Htask Hr Ht.
  destruct (collectTags_triggers dflt tags) as (H1 & H2 & H3 & H4).
  apply list_elem_of_fmap in Htask as ([interval names] & -> & _).
  apply runTicks_triggers in Hr as [Hgt Hgd]. cbn in Hgt, Hgd.
  assert (Hgt' : rn_groupTrigger r <> ∅) by (rewrite Hgt; by apply H3).
  assert (Hgd' : rn_gated r <> ∅) by (rewrite Hgd; by apply H4).
  destruct (runTick_reads _ _ _ _ _ _ _ Hans Hgt' Hgd' Ht) as (rs & Hw & Hrs).
  exists rs. split; [done|]. intros d ts tag Hin Htag.
  destruct (Hrs d ts tag Hin Htag) as [[g Hcond]|(k & l & c & Hk & Hl & -> & g & Hcond)].
  - rewrite Hgt in Hcond. apply H1 in Hcond as (t & Hin' & <- & Hne & Hn).
    exists t. split_and!; try done. by left.
  - rewrite Hgd in Hk. destruct (H2 _ _ _ Hk Hl) as (t & Hin' & Htr & Hne & Hn).
    exists t. split_and!; try done; [right; congruence|]. intros Hdis. exfalso.
    rewrite Hgt in Hcond. destruct ((co_triggers (collectTags dflt tags)).1 !! k) as [n|] eqn:Hl'.
    + apply H1 in Hl' as (c & Hcin & <- & Hcne & _).
      assert (Hcn : tc_Triggers t ∈ conditionNames tags).
      { eapply checkTriggers_ok; [done|done|congruence]. }
      apply conditionNames_elem in Hcn as (u & Hu & _ & Hun).
      by apply (Hdis c u Hcin Hu Hcne); congruence.
    + simpl in Hcond. apply H1 in Hcond as (u & Hu & _ & _ & Hun).
      rewrite Forall_forall in Hnames. by apply (Hnames u Hu).
Qed.

End Reads.

(** Two interval groups below the driver's floor get the same task id, so adding
    the second cancels the first: its tags are no longer collected. *)
Theorem clamped_groups_collide driver floor c i1 t1 i2 t2 s :
  0 < floor -> i1 < floor -> i2 < floor ->
  exists g,
    sd_runners (AddTask (groupTask driver floor c (i2, t2))
                  (AddTask (groupTask driver floor c (i1, t1)) s)) !! sd_next s = Some g /\
    st_Tags (g_task g) = t1 /\ g_cancelled g = true.
Proof.
  intros Hf H1 H2.
  assert (Hid : st_ID (groupTask driver floor c (i2, t2)) = st_ID (groupTask driver floor c (i1, t1))).
  { unfold groupTask. cbn [st_ID]. by rewrite !decide_True by lia. }
  eexists. unfold AddTask at 1. cbn [sd_runners]. rewrite Hid. unfold AddTask. cbn [sd_tasks sd_next].
  rewrite lookup_insert_eq. cbn [sd_runners].
  rewrite lookup_insert_ne by lia. rewrite lookup_alter_eq, lookup_insert_eq.
  split; [done|]. split; done.
Qed.

(** ** What building a driver's tasks adds *)

Lemma AddTask_new task s l g :
  sd_inv s -> sd_runners (AddTask task s) !! l = Some g -> g_cancelled g = false ->
  sd_runners s !! l = Some g \/ g_task g = task.
Proof.
  intros Hinv Hg Hc. simpl in Hg. apply lookup_insert_Some in Hg as [[_ <-]|[_ Hg]]; [by right|].
  left. destruct (sd_tasks s !! st_ID task) as [l0|]; [|done].
  destruct (decide (l0 = l)) as [->|Hne]; [|by rewrite lookup_alter_ne in Hg].
  rewrite lookup_alter_eq in Hg. by apply fmap_Some in Hg as (g0 & _ & ->).
Qed.

Lemma AddTasks_new tasks s :
  sd_inv s ->
  sd_inv (foldl (fun s task => AddTask task s) s tasks) /\
  forall l g, sd_runners (foldl (fun s task => AddTask task s) s tasks) !! l = Some g ->
    g_cancelled g = false -> sd_runners s !! l = Some g \/ g_task g ∈ tasks.
Proof.
  revert s. induction tasks as [|t tasks IH]; intros s Hinv; cbn [foldl]; [by eauto|].
  destruct (IH (AddTask t s)) as [Hi Hn]; [by apply AddTask_inv|].
  split; [done|]. intros l g Hg Hc. destruct (Hn l g Hg Hc) as [Hl|Hin].
  - destruct (AddTask_new t s l g Hinv Hl Hc) as [?| ->]; [by left|]. right. left.
  - right. by right.
Qed.

Lemma collectTags_groups `{!GoArch} d tags i ns n :
  co_groups (collectTags d tags) !! i = Some ns -> n ∈ ns -> n ∈ tc_Name <$> tags.
Proof.
  revert i ns. induction tags as [|t tags IH] using rev_ind; intros i ns.
  { unfold collectTags. cbn [foldl co_groups]. by rewrite lookup_empty. }
  unfold collectTags in *. rewrite foldl_app. cbn [foldl]. rewrite fmap_app, elem_of_app.
  unfold collectTag at 1. destruct (String.eqb _ _); [by left; eapply IH|]. cbn [co_groups].
  rewrite lookup_insert_Some. intros [[<- <-]|[_ Hi]] Hn; [|by left; eapply IH].
  rewrite elem_of_app, list_elem_of_singleton in Hn. destruct Hn as [Hn| ->]; [|right; left].
  destruct (co_groups _ !! _) as [ns|] eqn:Hns; [by left; eapply IH|].
  by apply not_elem_of_nil in Hn.
Qed.

(** Building a driver's tasks keeps the scheduler consistent; the live tasks it
    adds belong to the driver and read only tags of its configuration. *)
Lemma scheduleDriverTags_spec {E} `{!SchedEnv E} `{!GoArch} d driver limiter tags s (w : world E) :
  sd_inv s ->
  sd_inv (scheduleDriverTags d driver limiter tags s w).1 /\
  forall l g, sd_runners (scheduleDriverTags d driver limiter tags s w).1 !! l = Some g ->
    g_cancelled g = false ->
    sd_runners s !! l = Some g \/
    (st_Driver (g_task g) = driver /\ forall n, n ∈ st_Tags (g_task g) -> n ∈ tc_Name <$> tags).
Proof.
  intros Hinv. unfold scheduleDriverTags.
  destruct (rangeMap _ w) as [groups w'] eqn:Hr. apply rangeMap_reads in Hr as [_ Hp]. cbn [fst].
  match goal with |- context [foldl _ s ?ts] => destruct (AddTasks_new ts s Hinv) as [Hi Hn] end.
  split; [done|]. intros l g Hg Hc. destruct (Hn l g Hg Hc) as [?|Hin]; [by left|]. right.
  apply list_elem_of_fmap in Hin as ([i ns] & -> & Hin). split; [done|]. simpl. intros n Hns.
  eapply collectTags_groups; [|done]. by rewrite Hp, elem_of_map_to_list in Hin.
Qed.

(** ** Examples *)
Module Demo.

(** A clock that advances with each reading, and a device that answers every
    tag with [true], or fails. *)
Definition answer (tags : list string) (e : Z * bool) : list TagValue + error :=
  if e.2 then inl ((fun n => mkTagValue n (VBool true) TypeBool QualityGood e.1 None) <$> tags)
  else inr (ErrFmt "timeout").

#[global] Instance env : SchedEnv (Z * bool) := {|
  env_now := fun e : Z * bool => (e.1, (e.1 + 1, e.2));
  env_read := fun _ _ tags e => (answer tags e, e);
  env_range := fun _ _ _ _ m e => (map_to_list m, e);
  env_range_perm := fun _ _ _ _ m e => Permutation_refl _;
|}.

Definition world_up : world (Z * bool) := mkWorld (0, true) [] [].
Definition world_down : world (Z * bool) := mkWorld (0, false) [] [].

Definition temp (n : Z) : TagValue :=
  mkTagValue "temp" (VInt64 n) TypeInt64 QualityGood 0 None.

Definition task : ScheduleTask :=
  mkTask "plc_1s" "plc" ["temp"%string] second 1 {["temp"%string := f_of_Z F64 10]}
    {["temp"%string := minute]} ∅ ∅ 0.

Definition batches : list (list TagValue * world (Z * bool)) :=
  [([temp 100], world_up); ([temp 105], world_up)].

(** The documented trigger configuration, with an ordinary tag beside it. *)
Definition tag (name group triggers : string) : TagConfig :=
  mkTagConfig name "40001" "int16" "" "" f_zero f_zero f_zero "" "" "" group triggers.

Definition tags : list TagConfig :=
  [tag "alarm_flag" "alarm-group" ""; tag "d1" "" "alarm_flag"; tag "level" "" ""].

Definition gated_task : ScheduleTask :=
  groupTask "plc" 0 (collectTags (H := amd64_f2i) second tags)
    (second, ["alarm_flag"; "d1"; "level"]%string).

End Demo.


Lemma auto_degrade_exact_witness :
  (runTicks second (replicate 5 (false, Demo.world_down)) (newRunner Demo.task)).1 =
    replicate 5 TFailed /\
  er_ticker (rn_error (runTicks second (replicate 5 (false, Demo.world_down))
                         (newRunner Demo.task)).2) = 10 * second.
Proof.
  assert (Hrun : (runTicks second (replicate 5 (false, Demo.world_down)) (newRunner Demo.task)).1 =
    replicate 5 TFailed) by (vm_compute; reflexivity).
  split; [exact Hrun|].
  destruct (runTicks second (replicate 5 (false, Demo.world_down)) (newRunner Demo.task))
    as [os r] eqn:Heq.
  cbn [fst snd] in *. subst os.
  destruct (auto_degrade_exact second Demo.task _ _ _ Heq) as (_ & _ & _ & Ht & _); [done|].
  rewrite Ht. vm_compute. reflexivity.
Defined.

Lemma scheduler_one_goroutine_witness :
  sd_tasks (AddTask Demo.task (Start (NewScheduler 0))) !! "plc_1s"%string = Some 1%nat /\
  exists s', rtc sd_step (Stop (AddTask Demo.task (Start (NewScheduler 0))), Demo.world_up)
               (s', Demo.world_up) /\ waitReturns s' = true.
Proof.
  split; [vm_compute; reflexivity|].
  destruct (scheduler_one_goroutine 0 Demo.world_up Demo.world_up
              (AddTask Demo.task (Start (NewScheduler 0)))) as (_ & _ & _ & _ & _ & Hw).
  - eapply rtc_l; [apply step_Start|]. eapply rtc_l; [apply step_AddTask|]. apply rtc_refl.
  - exact Hw.
Defined.

Lemma gated_driver_reads_witness :
  validateTriggers "plc" Demo.tags = None /\
  ~ exists d ts,
      (d, ts) ∈ w_reads (runTick second false (newRunner Demo.gated_task) Demo.world_up).2 /\
      ("d1"%string ∈ ts \/ "level"%string ∈ ts).
Proof.
  split; [vm_compute; reflexivity|].
  destruct (runTick second false (newRunner Demo.gated_task) Demo.world_up) as [[o r'] w'] eqn:Ht.
  destruct (gated_driver_reads (H := amd64_f2i) second "plc" None Demo.tags
    [(second, ["alarm_flag"; "d1"; "level"]%string)] Demo.gated_task second [] []
    (newRunner Demo.gated_task) false Demo.world_up o r' w') as (rs & Hw & Hrs).
  - intros timeout d tags e vs. simpl. unfold Demo.answer. destruct e.2; [|done]. intros [= <-].
    apply Forall_fmap, Forall_forall. by intros.
  - vm_compute. reflexivity.
  - by repeat constructor.
  - exists (Demo.tag "alarm_flag" "alarm-group" ""). split_and!; [left|done|done].
  - exists (Demo.tag "d1" "" "alarm_flag"). split_and!; [right; left|done|done].
  - apply list_elem_of_singleton. reflexivity.
  - cbn [runTicks]. reflexivity.
  - exact Ht.
  - simpl in Hw. cbn [snd]. rewrite Hw. clear Ht Hw. intros (d & ts & Hin & Htag).
    assert (Hdis : forall c u, c ∈ Demo.tags -> u ∈ Demo.tags -> tc_TriggerGroup c <> EmptyString ->
      tc_TriggerGroup c <> tc_Name u).
    { intros c u Hc Hu. unfold Demo.tags in Hc, Hu. rewrite !elem_of_cons in Hc, Hu.
      destruct Hc as [->|[->|[->|[]%not_elem_of_nil]]];
        destruct Hu as [->|[->|[->|[]%not_elem_of_nil]]]; done. }
    destruct Htag as [Htag|Htag]; destruct (Hrs d ts _ Hin Htag) as (t & Ht' & Hn & _ & Hg);
      specialize (Hg Hdis); unfold Demo.tags in Ht'; rewrite !elem_of_cons in Ht';
      destruct Ht' as [->|[->|[->|[]%not_elem_of_nil]]]; done.
Defined.

(** ** Health *)

Definition driverRunners (d : string) (rs : list taskRunner) : list taskRunner :=
  filter (fun r => st_Driver (rn_task r) = d) rs.

Record health_of (mine : list taskRunner) (d : string) (h : TaskHealth) : Prop := {
  ho_driver : th_Driver h = d;
  ho_degraded : th_Degraded h = List.existsb (fun r => er_degraded (rn_error r)) mine;
  ho_errors : Forall (fun r => er_consecutiveErrors (rn_error r) <= th_ConsecutiveErrors h) mine;
  ho_worst : th_ConsecutiveErrors h = 0
    \/ exists r, r ∈ mine /\ er_consecutiveErrors (rn_error r) = th_ConsecutiveErrors h;
  ho_overruns : th_OverrunsTotal h = u64 (zsum ((fun r => ov_overrunsTotal (rn_overrun r)) <$> mine));
}.

Lemma addHealth_of mine d h r : health_of mine d h -> health_of (mine ++ [r]) d (addHealth r h).
Proof.
  intros [Hd Hg He Hw Ho]. split; cbn.
  - done.
  - rewrite Hg, List.existsb_app. cbn. by rewrite orb_false_r.
  - apply Forall_app. split; [|apply Forall_singleton; case_decide; lia].
    eapply Forall_impl; [exact He|]. cbn. intros x Hx. case_decide; lia.
  - case_decide as Hlt.
    + right. exists r. split; [apply elem_of_app; right; left|done].
    + destruct Hw as [Hw|(x & Hx & Hw)]; [by left|right]. exists x. split; [apply elem_of_app; by left|done].
  - rewrite Ho, u64_add, fmap_app, zsum_app. f_equal. cbn. lia.
Qed.

(** The health of a driver sums up exactly the tasks it has now: degraded if
    one of them is, the worst streak of errors, the overruns together. *)
Lemma health_exact rs d :
  match healthByDriver rs !! d with
  | Some h => driverRunners d rs <> [] /\ health_of (driverRunners d rs) d h
  | None => driverRunners d rs = []
  end.
Proof.
  induction rs as [|r rs IH] using rev_ind; [done|].
  unfold healthByDriver, driverRunners in *. rewrite foldl_snoc, filter_app, filter_cons, filter_nil.
  set (m := foldl _ _ rs) in *. cbv zeta. set (dr := st_Driver (rn_task r)) in *.
  destruct (decide (dr = d)) as [->|Hne].
  - rewrite lookup_insert_eq. split; [by destruct (filter _ rs)|]. apply addHealth_of.
    destruct (m !! d) as [h|]; [by destruct IH|]. rewrite IH. cbn.
    by split; [|..|left|].
  - rewrite lookup_insert_ne by done. rewrite app_nil_r. exact IH.
Qed.

(** The count of overruns is not kept over a replacement: scheduling the only
    task of a driver anew, as every reload of its tags does, starts it at zero. *)
Lemma overruns_reset s id l g task h :
  sd_tasks s = {[id := l]} -> sd_runners s !! l = Some g ->
  Health s = [h] -> 0 < th_OverrunsTotal h ->
  st_ID task = id -> st_Driver task = th_Driver h -> l <> sd_next s ->
  exists h', Health (AddTask task s) = [h'] /\ th_Driver h' = th_Driver h /\ th_OverrunsTotal h' = 0.
Proof.
  intros Ht Hg Hh Hpos Hid Hd Hl. exists (addHealth (newRunner task) (mkHealth (st_Driver task) false 0 0 0 0)).
  split; [|by rewrite <- Hd].
  unfold Health, AddTask. cbn [sd_tasks sd_runners]. rewrite Hid, Ht, insert_singleton_eq, map_to_list_singleton.
  rewrite lookup_singleton_eq. cbn [fmap list_fmap fst snd omap list_omap]. rewrite lookup_insert_eq.
  cbn [fmap list_fmap g_runner]. unfold healthByDriver. cbn [foldl]. rewrite lookup_empty. cbn [default].
  assert (Hdr : st_Driver (rn_task (newRunner task)) = st_Driver task) by done. rewrite Hdr.
  rewrite insert_empty, map_to_list_singleton. cbn [fmap list_fmap fst]. unfold sortStrings.
  cbn [stable_sort insert_stable omap list_omap]. by rewrite lookup_singleton_eq.
Qed.
