(* ===== verification/Config.v ===== *)
(** * The configuration ([core/engine.go], [core/driver.go], [core/transport.go],
    [core/rule.go], [core/derived.go])

    The records a configuration file is parsed into, and the comparison of
    configurations by [reflect.DeepEqual]. *)

From Stdlib Require Import ZArith String.
From stdpp Require Import base list gmap strings.
From S2P Require Import Prelude GoFloat Types RuleEngine.

Open Scope Z_scope.

Record DriverConfig := mkDriverConfig {
  dc_Name : string;
  dc_Type : string;
  dc_Settings : gmap string Value;
  dc_Tags : list TagConfig;
  dc_TagsFile : string;
  dc_TagsInterval : string;
}.

Record TransportConfig := mkTransportConfig {
  tp_Name : string;
  tp_Type : string;
  tp_Settings : gmap string Value;
  tp_BatchSize : Z;
  tp_FlushInterval : string;
  tp_RetryCount : Z;
  tp_BufferSize : Z;
  tp_Fallback : string;
}.

Record RuleProviderConfig := mkRuleProviderConfig {
  rp_Name : string;
  rp_Type : string;
  rp_Path : string;
  rp_Interval : string;
}.

Record DerivedTagConfig := mkDerivedTagConfig {
  dt_Name : string;
  dt_Expr : string;
  dt_Type : DataType;
  dt_Group : string;
  dt_Interval : string;
  dt_Unit : string;
  dt_OnMissing : string;
  dt_StaleGuard : string;
}.

Record NodeConfig := mkNodeConfig {
  nd_ID : string;
  nd_Role : string;
  nd_Subscribe : list string;
  nd_TopicPrefix : string;
}.

Record EngineConfig := mkEngineConfig {
  ec_DataBusSize : Z;
  ec_Workers : Z;
  ec_ShutdownTimeout : string;
  ec_ErrorThrottleWindow : string;
  ec_DefaultTagInterval : string;
  ec_OnBadQuality : string;
  ec_StaleThreshold : string;
  ec_WriteRetryCount : Z;
  ec_CommandConcurrency : Z;
  ec_HighPriorityWorkers : Z;
  ec_DeadLetterPath : string;
  ec_WriteMinInterval : string;
  ec_WriteAuditPath : string;
  ec_AlertActiveWindow : string;
}.

Record APIConfig := mkAPIConfig {
  ap_Listen : string;
  ap_Secret : string;
  ap_TLSCert : string;
  ap_TLSKey : string;
  ap_AllowedOrigins : list string;
  ap_RateLimitPerSec : Z;
  ap_ReadHeaderTimeout : string;
  ap_ReadTimeout : string;
  ap_WriteTimeout : string;
  ap_IdleTimeout : string;
  ap_PprofDisabled : bool;
  ap_MetricsAddr : string;
  ap_PprofAddr : string;
}.

Record BufferConfig := mkBufferConfig {
  bf_Enabled : bool;
  bf_MaxSize : Z;
  bf_Path : string;
}.

Record GlobalConfig := mkGlobalConfig {
  gl_LogLevel : string;
  gl_LogFormat : string;
  gl_API : APIConfig;
  gl_Engine : EngineConfig;
  gl_Buffer : BufferConfig;
}.

Record Config := mkConfig {
  cf_Node : NodeConfig;
  cf_Global : GlobalConfig;
  cf_Drivers : list DriverConfig;
  cf_Transports : list TransportConfig;
  cf_Rules : list RuleConfig;
  cf_RuleProviders : list RuleProviderConfig;
  cf_RuleGroups : gmap string (list RuleConfig);
  cf_DerivedTags : list DerivedTagConfig;
}.

Definition EngineConfig_zero : EngineConfig :=
  mkEngineConfig 0 0 "" "" "" "" "" 0 0 0 "" "" "" "".
Definition APIConfig_zero : APIConfig := mkAPIConfig "" "" "" "" [] 0 "" "" "" "" false "" "".
Definition GlobalConfig_zero : GlobalConfig :=
  mkGlobalConfig "" "" APIConfig_zero EngineConfig_zero (mkBufferConfig false 0 "").
Definition Config_zero : Config :=
  mkConfig (mkNodeConfig "" "" [] "") GlobalConfig_zero [] [] [] [] ∅ [].

(** Equality of configurations is decidable. *)
#[export] Instance float_eq_dec : EqDecision float.
Proof. unfold float. solve_decision. Defined.
#[export] Instance Value_eq_dec : EqDecision Value.
Proof. solve_decision. Defined.
#[export] Instance TagConfig_eq_dec : EqDecision TagConfig.
Proof. solve_decision. Defined.
#[export] Instance DriverConfig_eq_dec : EqDecision DriverConfig.
Proof. solve_decision. Defined.
#[export] Instance TransportConfig_eq_dec : EqDecision TransportConfig.
Proof. solve_decision. Defined.
#[export] Instance TransformConfig_eq_dec : EqDecision TransformConfig.
Proof. solve_decision. Defined.
#[export] Instance RuleConfig_eq_dec : EqDecision RuleConfig.
Proof. solve_decision. Defined.
#[export] Instance DerivedTagConfig_eq_dec : EqDecision DerivedTagConfig.
Proof. solve_decision. Defined.

(** [reflect.DeepEqual] tells apart values the records identify (a nil and an
    empty map, two NaN), so it is any test that is never wrong when it says
    that two values are equal. *)
Class DeepEqual (A : Type) := {
  deepEqual : A -> A -> bool;
  deepEqual_sound x y : deepEqual x y = true -> x = y;
}.
