(* ===== verification/Provider.v ===== *)
(** * Rules from a file ([rule/provider.go])

    A provider reads a file of match expressions, compiles those it can, and reads
    it again at an interval or on request.  A file whose SHA-256 has not changed is
    not parsed again.  Reading the file is an argument of [load]; parsing it is the
    class [ProviderYaml]; compiling and running expressions are those of
    [RuleEngine].

    The theorems show that skipping unchanged files makes no difference: the
    provider always has the expressions of the last content that could be read and
    parsed. *)

From Stdlib Require Import ZArith Lia String.
From stdpp Require Import base list gmap strings.
From S2P Require Import Prelude GoFloat GoTime Types Config Sha256.
From S2P Require Import RuleEngine.

Open Scope Z_scope.

(** [yaml.Unmarshal] of the file into its list of rules. *)
Class ProviderYaml := parse_rules : string -> list RuleConfig + error.

Section provider.
Context {prog : Type} `{ExprLib prog} `{ProviderYaml} `{GoArch}.

Record FileProvider := mkProvider {
  fp_name : string;
  fp_path : string;
  fp_interval : Z;
  fp_matchers : list (option prog);
  fp_count : Z;
  fp_updated : Z;
  fp_lastHash : list Z;
}.

(** The compiled expressions of a list of rules: the sentinel for [ALL], and an
    expression that does not compile is skipped. *)
Fixpoint compileAll (rules : list RuleConfig) : list (option prog) :=
  match rules with
  | [] => []
  | rc :: rest =>
      let m := TrimSpace (rc_Match rc) in
      if EqualFold m "ALL" then None :: compileAll rest
      else match compileExpr m with
           | Ok node => Some node :: compileAll rest
           | _ => compileAll rest
           end
  end.

Definition hash_of (data : string) : list Z := sha256_bytes (bytes_of data).

(** [file]: what reading the path gives. *)
Definition load (file : string + error) (now : Z) (p : FileProvider) : option error * FileProvider :=
  match file with
  | inr e => (Some (ErrWrap ("read file " +:+ fp_path p +:+ ": ") e ""), p)
  | inl data =>
      let hash := hash_of data in
      if decide (hash = fp_lastHash p) then (None, p)
      else
        match parse_rules data with
        | inr e => (Some (ErrWrap ("parse yaml " +:+ fp_path p +:+ ": ") e ""), p)
        | inl rules =>
            let matchers := compileAll rules in
            (None, mkProvider (fp_name p) (fp_path p) (fp_interval p) matchers (Z.of_nat (length matchers)) now hash)
        end
  end.

Definition Update (file : string + error) (now : Z) (p : FileProvider) : option error * FileProvider := load file now p.

(** The provider, or the error, and whether a goroutine reloads it. *)
Definition NewFileProvider (name path intervalStr : string) (file : string + error) (now : Z)
    : (FileProvider + error) * bool :=
  match ParseDuration intervalStr with
  | None =>
      if decide (intervalStr <> EmptyString) then
        (inr (ErrWrap ("invalid interval " +:+ quote intervalStr +:+ ": ") (durationError intervalStr) ""), false)
      else
        match load file now (mkProvider name path 0 [] 0 0 (replicate 32 0)) with
        | (Some e, _) => (inr (ErrWrap ("provider " +:+ name +:+ ": ") e ""), false)
        | (None, p) => (inl p, false)
        end
  | Some interval =>
      match load file now (mkProvider name path interval [] 0 0 (replicate 32 0)) with
      | (Some e, _) => (inr (ErrWrap ("provider " +:+ name +:+ ": ") e ""), false)
      | (None, p) => (inl p, bool_decide (0 < interval))
      end
  end.

(** The goroutine: what the file holds at each tick, the errors only logged. *)
Fixpoint reloadLoop (ticks : list (string + error)) (now : Z) (p : FileProvider) : FileProvider :=
  match ticks with
  | [] => p
  | file :: ticks => reloadLoop ticks (now + fp_interval p) (load file now p).2
  end.

Definition Match (p : FileProvider) (point : DataPoint) : bool := provider_Match (fp_matchers p) point.

(** ** The file and the provider *)

(** The content in force after a read: what was read, when it parses. *)
Definition in_force (c : string) (file : string + error) : string :=
  match file with
  | inl d => match parse_rules d with inl _ => d | inr _ => c end
  | inr _ => c
  end.

Definition rules_of (c : string) : list RuleConfig :=
  match parse_rules c with inl rules => rules | inr _ => [] end.

Definition follows (p : FileProvider) (c : string) : Prop :=
  is_Some (match parse_rules c with inl r => Some r | inr _ => None end) /\
  fp_lastHash p = hash_of c /\ fp_matchers p = compileAll (rules_of c) /\
  fp_count p = Z.of_nat (length (fp_matchers p)).

(** Contents that SHA-256 tells apart. *)
Definition distinct_hashes (cs : list string) : Prop :=
  forall a b, a ∈ cs -> b ∈ cs -> hash_of a = hash_of b -> a = b.

Lemma load_follows file now p c :
  follows p c -> (forall d, file = inl d -> hash_of d = hash_of c -> d = c) ->
  follows (load file now p).2 (in_force c file).
Proof.
  intros Hf Hd. destruct file as [d|e]; [|done]. cbn [load in_force].
  destruct Hf as (Hp & Hh & Hm & Hn). case_decide as Heq.
  - rewrite Hh in Heq. rewrite (Hd d eq_refl Heq). destruct (parse_rules c) eqn:E; [|by destruct Hp].
    split_and!; try done. by rewrite E.
  - destruct (parse_rules d) as [rules|e] eqn:E; [|by split_and!].
    unfold follows, rules_of. rewrite E. cbn. by split_and!; [eexists| | |].
Qed.

Lemma load_interval file now p : fp_interval (load file now p).2 = fp_interval p.
Proof. unfold load. by repeat case_match. Qed.

Lemma reload_follows ticks now p c :
  follows p c -> distinct_hashes (c :: omap (fun f => match f with inl d => Some d | inr _ => None end) ticks) ->
  follows (reloadLoop ticks now p) (foldl in_force c ticks).
Proof.
  revert now p c. induction ticks as [|file ticks IH]; intros now p c Hf Hd; [done|]. cbn [reloadLoop foldl].
  assert (forall d, file = inl d -> d ∈ omap (fun f => match f with inl d => Some d | inr _ => None end) (file :: ticks)) as Hin
    by (intros d ->; left).
  apply IH.
  - apply load_follows; [done|]. intros d Hfile Hh. apply Hd; [right; by apply Hin|left|done].
  - intros a b Ha Hb. apply Hd.
    + apply elem_of_cons in Ha as [->|Ha]; [|right; destruct file; [by right|done]].
      destruct file as [d|e]; cbn; [destruct (parse_rules d); [right; left|left]|left].
    + apply elem_of_cons in Hb as [->|Hb]; [|right; destruct file; [by right|done]].
      destruct file as [d|e]; cbn; [destruct (parse_rules d); [right; left|left]|left].
Qed.

(** Skipping files that have not changed makes no difference.  Whatever the
    file holds at the ticks of a provider, readable or not and valid or not, the
    provider matches a point exactly when one of the expressions compiled from the
    last content that could be read and parsed does, and reports their number, as
    if it were parsed at every tick.  SHA-256 tells the contents apart. *)
Theorem provider_tracks_file name path interval file now p reloads ticks point :
  NewFileProvider name path interval (inl file) now = (inl p, reloads) ->
  hash_of file <> replicate 32 0 ->
  distinct_hashes (file :: omap (fun f => match f with inl d => Some d | inr _ => None end) ticks) ->
  let p' := reloadLoop ticks now p in
  let ms := compileAll (rules_of (foldl in_force file ticks)) in
  Match p' point = provider_Match ms point /\ fp_count p' = Z.of_nat (length ms).
Proof.
  intros Hnew Hz Hd.
  assert (forall i, follows (load (inl file) now (mkProvider name path i [] 0 0 (replicate 32 0))).2 file \/
                    exists e, (load (inl file) now (mkProvider name path i [] 0 0 (replicate 32 0))).1 = Some e) as Hload.
  { intros i. cbn [load fp_lastHash]. rewrite decide_False by done. destruct (parse_rules file) as [rules|e] eqn:E; [left|eauto].
    unfold follows, rules_of. rewrite E. cbn. by split_and!; [eexists| | |]. }
  assert (follows p file) as Hf.
  { unfold NewFileProvider in Hnew. destruct (ParseDuration interval) as [i|].
    - specialize (Hload i). destruct (load _ _ _) as [[e|] q]; [done|]. simplify_eq. by destruct Hload as [|[??]].
    - case_decide; [done|]. specialize (Hload 0). destruct (load _ _ _) as [[e|] q]; [done|]. simplify_eq.
      by destruct Hload as [|[??]]. }
  destruct (reload_follows ticks now p file Hf Hd) as (_ & _ & Hm & Hn). cbn zeta. unfold Match.
  rewrite Hn, Hm. done.
Qed.

(** [Update] is documented to force a reload; it does nothing when the file has
    not changed. *)
Lemma update_skips_unchanged p c now : follows p c -> Update (inl c) now p = (None, p).
Proof. intros (_ & Hh & _). unfold Update, load. by rewrite decide_True. Qed.
End provider.
Arguments FileProvider : clear implicits.
