(* ===== verification/OpcUa.v ===== *)
(** * The OPC UA driver ([driver/opcua])

    Settings, connection, batched reads and writes, and the subscription whose
    notifications a goroutine forwards to the driver's channel.  The client
    library is the class [OpcUaLib] over the state [D] of the server and the
    network: it builds and connects clients, reads and writes nodes, creates
    subscriptions and monitors items.  The lifecycle the driver embeds is that
    of [DriverBase].

    The theorems show that a read returns, for each configured tag asked for,
    the value the server holds for its node; that the result of every write is
    the one of its own command, also when some commands are not sent; and that a
    notification is forwarded under the tag its item was created for. *)

From Stdlib Require Import ZArith Lia String.
From stdpp Require Import base list gmap strings.
From S2P Require Import Prelude GoFloat GoTime Types Util Config DriverBase.

Open Scope Z_scope.

Definition TypeName : string := "opcua".
Definition DefaultDriverTimeout : Z := 5 * second.

(** The status of the standard for a good value. *)
Definition StatusOK : Z := 0.

(** A value with its status; a missing variant is a nil pointer. *)
Record DataValue (V : Type) := mkDataValue { dv_Status : Z; dv_Value : option V }.
Arguments mkDataValue {V} _ _.
Arguments dv_Status {V} _.
Arguments dv_Value {V} _.

Inductive clientOption :=
| RequestTimeout (d : Z)
| SecurityPolicy (s : string)
| SecurityModeString (s : string)
| AuthUsername (user pass : string)
| AuthAnonymous
| CertificateFile (s : string)
| PrivateKeyFile (s : string).

(** What a subscription delivers. *)
Inductive notification (V : Type) :=
| NotifyError
| NotifyDataChange (items : list (Z * option (DataValue V)))
| NotifyOther.
Arguments NotifyError {V}.
Arguments NotifyDataChange {V} _.
Arguments NotifyOther {V}.

(** [D]: server and network; [C]: clients; [N]: node identifiers; [V]:
    variants; [Sub]: subscriptions.  [lib_iterate] is the order a map is ranged
    over in. *)
Class OpcUaLib (D C N V Sub : Type) := {
  lib_ParseNodeID : string -> N + error;
  lib_NewClient : string -> list clientOption -> C + error;
  lib_Connect : C -> D -> D * option error;
  lib_Close : C -> D -> D;
  lib_Read : C -> list N -> D -> D * (list (DataValue V) + error);
  lib_Write : C -> list (N * V) -> D -> D * (list Z + error);
  lib_Subscribe : C -> Z -> D -> D * (Sub + error);
  lib_Monitor : Sub -> list (N * Z) -> D -> D * (list Z + error);
  lib_Cancel : Sub -> D -> D;
  lib_NewVariant : Value -> V + error;
  lib_Value : option V -> res Value;
  lib_StatusText : Z -> string;
  lib_iterate : D -> list (string * N) -> list (string * N);
}.

(** ** The driver *)

Record opcuaSettings := mkSettings {
  os_endpoint : string;
  os_securityPolicy : string;
  os_securityMode : string;
  os_username : string;
  os_password : string;
  os_certFile : string;
  os_keyFile : string;
  os_timeout : Z;
  os_maxBatchSize : Z;
  os_subMode : bool;
  os_subInterval : Z;
  os_reconnectBackoff : Z;
  os_maxReconnectBackoff : Z;
  os_maxReconnectFailures : Z;
}.

Definition settings_zero : opcuaSettings :=
  mkSettings EmptyString EmptyString EmptyString EmptyString EmptyString EmptyString EmptyString 0 0 false 0 0 0 0.

(** [od_loops]: the handle maps of the notification goroutines that run. *)
Record OPCUADriver (D C N Sub : Type) := mkDriver {
  od_dev : D;
  od_base : BaseDriver C;
  od_name : string;
  od_set : opcuaSettings;
  od_tags : gmap string TagConfig;
  od_nodeIDs : gmap string N;
  od_subBufferSize : Z;
  od_subChannel : list DataPoint;
  od_subscription : option Sub;
  od_handleToTag : gmap Z string;
  od_loops : list (gmap Z string);
}.
Arguments mkDriver {D C N Sub} _ _ _ _ _ _ _ _ _ _ _.
Arguments od_dev {D C N Sub} _.
Arguments od_base {D C N Sub} _.
Arguments od_name {D C N Sub} _.
Arguments od_set {D C N Sub} _.
Arguments od_tags {D C N Sub} _.
Arguments od_nodeIDs {D C N Sub} _.
Arguments od_subBufferSize {D C N Sub} _.
Arguments od_subChannel {D C N Sub} _.
Arguments od_subscription {D C N Sub} _.
Arguments od_handleToTag {D C N Sub} _.
Arguments od_loops {D C N Sub} _.

Definition opcuaKnown : gset string :=
  list_to_set ["endpoint"; "security-policy"; "security-mode"; "username"; "password"; "timeout"; "cert-file";
    "key-file"; "subscription-interval"; "subscription-buffer"; "max-batch-size"; "mode"; "reconnect-interval";
    "reconnect-max-interval"; "max-reconnect-failures"]%string.

Definition ValidateSettings (settings : gmap string Value) : option error :=
  RejectUnknownSettings settings opcuaKnown "opcua".

(** What a driver can do, and its batch size. *)
Record DriverCapabilities := mkCapabilities {
  ca_CanRead : bool;
  ca_CanWrite : bool;
  ca_CanSubscribe : bool;
  ca_BatchRead : bool;
  ca_MaxBatchSize : Z;
}.

Section driver.
Context {D C N V Sub : Type} `{OpcUaLib D C N V Sub} `{EqDecision C} `{GoArch}.
Notation driver := (OPCUADriver D C N Sub).
Implicit Types d : driver.

Definition on_base (f : BaseDriver C -> BaseDriver C) d : driver :=
  mkDriver (od_dev d) (f (od_base d)) (od_name d) (od_set d) (od_tags d) (od_nodeIDs d) (od_subBufferSize d)
    (od_subChannel d) (od_subscription d) (od_handleToTag d) (od_loops d).

Definition set_dev (x : D) d : driver :=
  mkDriver x (od_base d) (od_name d) (od_set d) (od_tags d) (od_nodeIDs d) (od_subBufferSize d)
    (od_subChannel d) (od_subscription d) (od_handleToTag d) (od_loops d).

Definition set_config (name : string) (s : opcuaSettings) (tags : gmap string TagConfig) (nodes : gmap string N) d
    : driver :=
  mkDriver (od_dev d) (od_base d) name s tags nodes (od_subBufferSize d) (od_subChannel d) (od_subscription d)
    (od_handleToTag d) (od_loops d).

Definition set_sub (sub : option Sub) (handles : gmap Z string) (loops : list (gmap Z string)) d : driver :=
  mkDriver (od_dev d) (od_base d) (od_name d) (od_set d) (od_tags d) (od_nodeIDs d) (od_subBufferSize d)
    (od_subChannel d) sub handles loops.

Definition set_channel (ch : list DataPoint) d : driver :=
  mkDriver (od_dev d) (od_base d) (od_name d) (od_set d) (od_tags d) (od_nodeIDs d) (od_subBufferSize d)
    ch (od_subscription d) (od_handleToTag d) (od_loops d).

Definition NewOPCUADriver (x : D) (config : DriverConfig) : driver :=
  let bufSize := GetIntSetting (dc_Settings config) "subscription-buffer" 1024 in
  let bufSize := if decide (bufSize <= 0) then 1024 else bufSize in
  mkDriver x bd_zero (dc_Name config) settings_zero ∅ ∅ bufSize [] None ∅ [].

(** *** Settings *)

(** The fields [Init] sets after the endpoint; a setting that is no string
    leaves its field. *)
Definition parseSettings (settings : gmap string Value) (endpoint : string) (old : opcuaSettings) : opcuaSettings :=
  mkSettings endpoint
    (GetStringSetting settings "security-policy" (os_securityPolicy old))
    (GetStringSetting settings "security-mode" (os_securityMode old))
    (GetStringSetting settings "username" (os_username old))
    (GetStringSetting settings "password" (os_password old))
    (GetStringSetting settings "cert-file" (os_certFile old))
    (GetStringSetting settings "key-file" (os_keyFile old))
    (GetDurationSetting settings "timeout" DefaultDriverTimeout)
    (GetIntSetting settings "max-batch-size" 1000)
    (match settings !! "mode"%string with
     | Some (VString m) => bool_decide (m = "subscription"%string) || os_subMode old
     | _ => os_subMode old
     end)
    (GetDurationSetting settings "subscription-interval" (500 * millisecond))
    (GetDurationSetting settings "reconnect-interval" DefaultReconnectBackoff)
    (GetDurationSetting settings "reconnect-max-interval" DefaultMaxReconnectBackoff)
    (GetIntSetting settings "max-reconnect-failures" DefaultMaxReconnectFailures).

(** The tag loop of [Init]: the tag is stored before its address is parsed. *)
Fixpoint init_tags (tags : list TagConfig) (ts : gmap string TagConfig) (ns : gmap string N)
    : option error * (gmap string TagConfig * gmap string N) :=
  match tags with
  | [] => (None, (ts, ns))
  | tag :: rest =>
      let ts := <[tc_Name tag := tag]> ts in
      match lib_ParseNodeID (tc_Address tag) with
      | inr e => (Some (ErrWrap ("opcua tag " +:+ tc_Name tag +:+ ": invalid NodeID " +:+ quote (tc_Address tag)
                                   +:+ ": ") e ""), (ts, ns))
      | inl node => init_tags rest ts (<[tc_Name tag := node]> ns)
      end
  end.

Definition Init (config : DriverConfig) d : option error * driver :=
  let settings := dc_Settings config in
  match settings !! "endpoint"%string with
  | Some (VString ep) =>
      if decide (ep = EmptyString) then
        (Some (ErrFmt "opcua: endpoint is required (e.g. opc.tcp://192.168.1.10:4840)"),
         set_config (dc_Name config) (od_set d) (od_tags d) (od_nodeIDs d) d)
      else
        let '(err, (ts, ns)) := init_tags (dc_Tags config) (od_tags d) (od_nodeIDs d) in
        (err, set_config (dc_Name config) (parseSettings settings ep (od_set d)) ts ns d)
  | _ =>
      (Some (ErrFmt "opcua: endpoint is required (e.g. opc.tcp://192.168.1.10:4840)"),
       set_config (dc_Name config) (od_set d) (od_tags d) (od_nodeIDs d) d)
  end.

(** *** Subscription *)

Definition stopSubscription d : driver :=
  let d1 := set_sub None ∅ (od_loops d) d in
  match od_subscription d with
  | Some sub => set_dev (lib_Cancel sub (od_dev d)) d1
  | None => d1
  end.

(** The item requests, numbered from [handle], and the map back to the tags. *)
Fixpoint monitorItems (handle : Z) (nodes : list (string * N)) (items : list (N * Z)) (handles : gmap Z string)
    : list (N * Z) * gmap Z string :=
  match nodes with
  | [] => (items, handles)
  | (tag, node) :: nodes =>
      monitorItems (u32 (handle + 1)) nodes (items ++ [(node, handle)]) (<[handle := tag]> handles)
  end.

(** The first item the server refused. *)
Definition refusedItem (codes : list Z) : option Z := List.find (fun c => negb (bool_decide (c = StatusOK))) codes.

Definition startSubscription d : option error * driver :=
  match bd_conn (od_base d) with
  | None => (Some (ErrFmt "no client or tags to subscribe"), d)
  | Some client =>
      if decide (size (od_nodeIDs d) = O) then (Some (ErrFmt "no client or tags to subscribe"), d)
      else
        let d := stopSubscription d in
        match lib_Subscribe client (os_subInterval (od_set d)) (od_dev d) with
        | (x, inr e) => (Some (ErrWrap "create subscription: " e ""), set_dev x d)
        | (x, inl sub) =>
            let '(items, handles) := monitorItems 0 (lib_iterate x (map_to_list (od_nodeIDs d))) [] ∅ in
            match lib_Monitor sub items x with
            | (x, inr e) => (Some (ErrWrap "monitor items: " e ""), set_dev (lib_Cancel sub x) d)
            | (x, inl codes) =>
                match refusedItem codes with
                | Some c => (Some (ErrFmt ("monitor item status: " +:+ lib_StatusText c)), set_dev (lib_Cancel sub x) d)
                | None => (None, set_sub (Some sub) handles (od_loops d ++ [handles]) (set_dev x d))
                end
            end
        end
  end.

(** One item of a notification, as the goroutine with this handle map forwards
    it; [d.tags] is the map the driver still has. *)
Definition itemPoint (handles : gmap Z string) (now : Z) (item : Z * option (DataValue V)) d : res (option DataPoint) :=
  match handles !! item.1, item.2 with
  | Some tag, Some dv =>
      match dv_Value dv with
      | None => Ok None
      | Some v =>
          if decide (dv_Status dv <> StatusOK) then
            Ok (Some (mkDataPoint (od_name d) "" "" tag VNil TypeBool QualityBad now ∅ false))
          else
            let! val := lib_Value (Some v) in
            let cfg := default TagConfig_zero (od_tags d !! tag) in
            Ok (Some (mkDataPoint (od_name d) "" "" tag (ApplyTransform val (tc_Scale cfg) (tc_Offset cfg))
                        (ParseDataType (tc_Type cfg)).1 QualityGood now ∅ false))
      end
  | _, _ => Ok None
  end.

(** The send that does not block. *)
Definition offer (dp : DataPoint) d : driver :=
  if decide (Z.of_nat (length (od_subChannel d)) < od_subBufferSize d) then set_channel (od_subChannel d ++ [dp]) d
  else on_base RecordError d.

Fixpoint forwardItems (handles : gmap Z string) (now : Z) (items : list (Z * option (DataValue V))) d : res driver :=
  match items with
  | [] => Ok d
  | item :: items =>
      let! p := itemPoint handles now item d in
      forwardItems handles now items (match p with Some dp => offer dp d | None => d end)
  end.

(** One message taken by the goroutine. *)
Definition onNotification (handles : gmap Z string) (now : Z) (msg : notification V) d : res driver :=
  match msg with
  | NotifyError => Ok (on_base RecordError d)
  | NotifyOther => Ok d
  | NotifyDataChange items => forwardItems handles now items d
  end.

Definition Subscribe d : error + list DataPoint :=
  if os_subMode (od_set d) then inr (od_subChannel d)
  else inl (ErrNew "subscribe not supported by this driver").

(** *** Connection *)

Definition clientOptions (s : opcuaSettings) : list clientOption :=
  [RequestTimeout (os_timeout s)]
  ++ (if decide (os_securityPolicy s <> EmptyString) then [SecurityPolicy (os_securityPolicy s)] else [])
  ++ (if decide (os_securityMode s <> EmptyString) then [SecurityModeString (os_securityMode s)] else [])
  ++ [if decide (os_username s <> EmptyString) then AuthUsername (os_username s) (os_password s) else AuthAnonymous]
  ++ (if decide (os_certFile s <> EmptyString /\ os_keyFile s <> EmptyString)
      then [CertificateFile (os_certFile s); PrivateKeyFile (os_keyFile s)] else []).

(** [connect]: the error, and the driver with the new client stored.  A
    subscription that cannot be set up is only logged. *)
Definition connect d : option error * driver :=
  match lib_NewClient (os_endpoint (od_set d)) (clientOptions (od_set d)) with
  | inr e => (Some (ErrWrap "failed to create opcua client: " e ""), d)
  | inl client =>
      match lib_Connect client (od_dev d) with
      | (x, Some e) => (Some (ErrWrap "failed to connect to opcua endpoint: " e ""), set_dev x d)
      | (x, None) =>
          let d := on_base (openClient client) (set_dev x d) in
          (None, if os_subMode (od_set d) then (startSubscription d).2 else d)
      end
  end.

(** The close hook. *)
Definition closeConn d : driver :=
  match bd_conn (od_base d) with
  | Some client => set_dev (lib_Close client (od_dev d)) d
  | None => d
  end.

(** [BaseDriver.Start] with the driver's [connect]. *)
Definition Start d : option error * driver :=
  let d := on_base (set_ctx CtxLive) d in
  match connect d with
  | (None, d) => (None, d)
  | (Some e, d) =>
      (None, on_base (fun b => startReconnectLoop
               (SetLastErrorLocked (error_text e) (set_conn StateConnecting (bd_conn b) (bd_loops b) b))) d)
  end.

(** An attempt of the reconnect goroutine. *)
Definition reconnect d : driver :=
  let count b := mkBaseDriver (bd_state b) (bd_conn b) (bd_lastRead b) (bd_lastError b) (bd_readCount b)
                   (bd_errorCount b) (u64 (bd_reconnectCount b + 1)) (bd_ctx b) (bd_loops b) in
  match connect (on_base count d) with
  | (None, d) => on_base (fun b => set_conn (bd_state b) (bd_conn b) (Nat.pred (bd_loops b)) b) d
  | (Some _, d) => d
  end.

(** [BaseDriver.Stop]: cancelling the context ends the goroutines, which are
    waited for; then the connection is closed. *)
Definition Stop d : driver :=
  let d := on_base Stop_cancel d in
  let d := on_base (fun b => set_conn (bd_state b) (bd_conn b) O b) d in
  let d := stopSubscription d in
  let d := set_sub (od_subscription d) (od_handleToTag d) [] d in
  on_base Stop_finish (closeConn d).

Definition Restart (config : DriverConfig) d : option error * driver :=
  match Init config (Stop d) with
  | (Some e, d) => (Some e, d)
  | (None, d) => Start d
  end.

(** [BaseDriver.HandleConnectionLost] with the hooks of the driver. *)
Definition handleConnectionLost d : driver :=
  match bd_state (od_base d) with
  | StateConnecting | StateError => d
  | _ =>
      let d := on_base (fun b => set_conn StateError None (bd_loops b) b) (closeConn d) in
      on_base startReconnectLoop (stopSubscription d)
  end.

Definition handleConnLostIfCurrent (captured : C) d : driver :=
  if decide (bd_conn (od_base d) = Some captured) then handleConnectionLost d else d.

(** *** Reads *)

Definition ioError (client : C) (e : error) d : driver :=
  let d := on_base (SetLastErrorLocked (error_text e)) (on_base RecordError d) in
  if IsConnectionError (Some e) then handleConnLostIfCurrent client d else d.

(** The tags that have a node, in the order asked for. *)
Definition validTags (tags : list string) d : list (string * N) :=
  omap (fun t => pair t <$> od_nodeIDs d !! t) tags.

Definition readResult (now : Z) (tag : string) (r : DataValue V) d : res TagValue :=
  let cfg := default TagConfig_zero (od_tags d !! tag) in
  if decide (dv_Status r <> StatusOK) then
    Ok (mkTagValue tag VNil TypeBool QualityBad now (Some (ErrFmt ("opcua status: " +:+ lib_StatusText (dv_Status r)))))
  else
    let! val := lib_Value (dv_Value r) in
    Ok (mkTagValue tag (ApplyTransform val (tc_Scale cfg) (tc_Offset cfg)) (ParseDataType (tc_Type cfg)).1
          QualityGood now None).

(** A response longer than the request indexes past the names. *)
Fixpoint assembleReadResults (now : Z) (results : list (DataValue V)) (names : list string) d : res (list TagValue) :=
  match results, names with
  | [], _ => Ok []
  | _ :: _, [] => Panic
  | r :: results, name :: names =>
      let! v := readResult now name r d in
      let! l := assembleReadResults now results names d in
      Ok (v :: l)
  end.

Definition Read (now : Z) (tags : list string) d : res (list TagValue) * driver :=
  match bd_state (od_base d), bd_conn (od_base d) with
  | StateConnected, Some client =>
      let valid := validTags tags d in
      if decide (valid = []) then (Err (ErrFmt "no valid tags found in request"), d)
      else
        match lib_Read client valid.*2 (od_dev d) with
        | (x, inr e) => (Err (ErrWrap "opcua batch read failed: " e ""), ioError client e (set_dev x d))
        | (x, inl resp) =>
            let d := set_dev x d in
            match assembleReadResults now resp valid.*1 d with
            | Ok vs => (Ok vs, on_base (SetLastRead now) (on_base (AddReadCount (Z.of_nat (length vs))) d))
            | r => (r, d)
            end
        end
  | _, _ => (Err (ErrFmt ("driver " +:+ od_name d +:+ " is not connected")), on_base RecordError d)
  end.

(** *** Writes *)

(** A command made ready: its result when it is not sent, or what is sent. *)
Definition prepare (cmd : WriteCommand) d : WriteResult + (N * V) :=
  match od_nodeIDs d !! cmd_Tag cmd with
  | None => inl (mkWriteResult false ("tag not found: " +:+ cmd_Tag cmd))
  | Some node =>
      match lib_NewVariant (WriteValueForTag cmd (default TagConfig_zero (od_tags d !! cmd_Tag cmd))) with
      | inr e => inl (mkWriteResult false ("failed to create variant: " +:+ error_text e))
      | inl v => inr (node, v)
      end
  end.

(** The loop over the commands: results so far, values to send, and the command
    each of them came from. *)
Fixpoint gather (i : nat) (cmds : list WriteCommand) d (results : list WriteResult) (values : list (N * V))
    (indices : list nat) : list WriteResult * list (N * V) * list nat :=
  match cmds with
  | [] => (results, values, indices)
  | cmd :: cmds =>
      match prepare cmd d with
      | inl r => gather (S i) cmds d (<[i := r]> results) values indices
      | inr nv => gather (S i) cmds d results (values ++ [nv]) (indices ++ [i])
      end
  end.

Definition codeResult (code : Z) : WriteResult :=
  if decide (code = StatusOK) then mkWriteResult true ""
  else mkWriteResult false ("opcua write status: " +:+ lib_StatusText code).

(** A response longer than the request indexes past the indices. *)
Fixpoint scatter (codes : list Z) (indices : list nat) (results : list WriteResult) : res (list WriteResult) :=
  match codes, indices with
  | [], _ => Ok results
  | _ :: _, [] => Panic
  | code :: codes, i :: indices => scatter codes indices (<[i := codeResult code]> results)
  end.

Definition Write (cmds : list WriteCommand) d : res (list WriteResult) * driver :=
  match bd_state (od_base d), bd_conn (od_base d) with
  | StateConnected, Some client =>
      let '(results, values, indices) := gather O cmds d (replicate (length cmds) (mkWriteResult false "")) [] [] in
      if decide (length values = O) then (Ok results, d)
      else
        match lib_Write client values (od_dev d) with
        | (x, inr e) => (Err (ErrWrap "opcua batch write failed: " e ""), ioError client e (set_dev x d))
        | (x, inl codes) => (scatter codes indices results, set_dev x d)
        end
  | _, _ => (Err (ErrFmt ("driver " +:+ od_name d +:+ " is not connected")), d)
  end.

Definition Status d : DriverStatus :=
  let b := od_base d in
  mkDriverStatus (od_name d) TypeName (bd_state b) (bd_lastRead b) (bd_lastError b) (Z.of_nat (size (od_tags d)))
    (bd_readCount b) (bd_errorCount b) (bd_reconnectCount b).

Definition Capabilities d : DriverCapabilities := mkCapabilities true true true true (os_maxBatchSize (od_set d)).

(** ** Reads *)

Lemma assemble_exact now (val : string * N -> DataValue V) (valid : list (string * N)) d :
  (forall p, p ∈ valid -> exists tv, readResult now p.1 (val p) d = Ok tv) ->
  exists vs, assembleReadResults now (val <$> valid) valid.*1 d = Ok vs
    /\ Forall2 (fun p tv => readResult now p.1 (val p) d = Ok tv) valid vs.
Proof.
  induction valid as [|p valid IH]; intros Hv; [by exists []|].
  destruct (Hv p) as [tv Htv]; [left|].
  destruct IH as (vs & Hvs & Hf); [intros q Hq; apply Hv; by right|].
  exists (tv :: vs). cbn. rewrite Htv. cbn. rewrite Hvs. split; [done|by constructor].
Qed.

(** A read of a connected driver returns, in the order asked for, one value
    for each tag the driver has a node for and none for the others: the value
    the server answered for that node, scaled, with the type and quality of the
    tag, or a bad value with the server's status; all stamped with the time of
    the call and counted as reads.  The server is assumed to answer the nodes
    in order, with a variant for every good one. *)
Theorem opcua_read_exact now tags d client x (answer : N -> DataValue V) :
  bd_state (od_base d) = StateConnected -> bd_conn (od_base d) = Some client ->
  validTags tags d <> [] ->
  lib_Read client (validTags tags d).*2 (od_dev d) = (x, inl (answer <$> (validTags tags d).*2)) ->
  (forall n, dv_Status (answer n) = StatusOK -> exists v, lib_Value (dv_Value (answer n)) = Ok v) ->
  exists vs d', Read now tags d = (Ok vs, d')
  /\ tv_Tag <$> vs = filter (fun t => is_Some (od_nodeIDs d !! t)) tags
  /\ Forall2 (fun p v =>
       let cfg := default TagConfig_zero (od_tags d !! p.1) in
       if decide (dv_Status (answer p.2) = StatusOK) then
         exists raw, lib_Value (dv_Value (answer p.2)) = Ok raw
           /\ v = mkTagValue p.1 (ApplyTransform raw (tc_Scale cfg) (tc_Offset cfg)) (ParseDataType (tc_Type cfg)).1
                    QualityGood now None
       else v = mkTagValue p.1 VNil TypeBool QualityBad now
                  (Some (ErrFmt ("opcua status: " +:+ lib_StatusText (dv_Status (answer p.2))))))
       (validTags tags d) vs
  /\ bd_readCount (od_base d') = u64 (bd_readCount (od_base d) + Z.of_nat (length vs))
  /\ bd_lastRead (od_base d') = now /\ od_dev d' = x.
Proof.
  intros Hst Hc Hne Hr Hok. unfold Read. rewrite Hst, Hc.
  destruct (decide _) as [He|_]; [done|]. rewrite Hr.
  destruct (assemble_exact now (fun p => answer p.2) (validTags tags d) (set_dev x d)) as (vs & Hvs & Hf).
  { intros p _. unfold readResult. destruct (decide _) as [|Hs]; [eauto|].
    destruct (Hok p.2) as [v Hv]; [by apply dec_stable|]. rewrite Hv. cbn. eauto. }
  rewrite <-list_fmap_compose. change (answer ∘ snd) with (fun p : string * N => answer p.2). rewrite Hvs.
  eexists vs, _. split; [done|]. split_and!; [| |done..].
  - assert (Hn : tv_Tag <$> vs = (validTags tags d).*1).
    { clear -Hf. induction Hf as [|p v l k Hv Hf IH]; [done|]. cbn. f_equal; [|done].
      unfold readResult in Hv. destruct (decide _); [by injection Hv as <-|].
      destruct (lib_Value _); cbn in Hv; [by injection Hv as <-|done..]. }
    rewrite Hn. unfold validTags. clear. induction tags as [|t tags IH]; [done|].
    rewrite filter_cons. cbn [omap list_omap]. destruct (od_nodeIDs d !! t) eqn:E; cbn.
    + rewrite decide_True by eauto. by f_equal.
    + destruct (decide _) as [Hi|_]; [by destruct Hi|done].
  - eapply Forall2_impl; [exact Hf|]. intros p v Hv. cbv beta zeta. unfold readResult in Hv. cbn [od_tags set_dev] in Hv.
    destruct (decide (dv_Status (answer p.2) <> StatusOK)) as [Hs|Hs].
    + rewrite decide_False by done. by injection Hv as <-.
    + rewrite decide_True by (by apply dec_stable). destruct (lib_Value _) as [raw| |]; cbn in Hv; [|done..].
      exists raw. split; [done|]. by injection Hv as <-.
Qed.

(** ** Writes *)

(** What the commands send, and where each sent one stood. *)
Definition sent d (cmds : list WriteCommand) : list (N * V) :=
  omap (fun c => match prepare c d with inr nv => Some nv | inl _ => None end) cmds.

Fixpoint sentAt d (i : nat) (cmds : list WriteCommand) : list nat :=
  match cmds with
  | [] => []
  | c :: cmds => match prepare c d with inr _ => [i] | inl _ => [] end ++ sentAt d (S i) cmds
  end.

Lemma sentAt_length d i cmds : length (sentAt d i cmds) = length (sent d cmds).
Proof.
  revert i. induction cmds as [|c cmds IH]; intros i; cbn; [done|].
  destruct (prepare c d); cbn; [apply IH|]. f_equal. apply IH.
Qed.

Lemma sentAt_ge d i cmds j : j ∈ sentAt d i cmds -> (i <= j < i + length cmds)%nat.
Proof.
  revert i. induction cmds as [|c cmds IH]; intros i; cbn; [by intros ?%elem_of_nil|].
  rewrite elem_of_app. intros [Hj|Hj%IH]; [|lia].
  destruct (prepare c d); [by apply elem_of_nil in Hj|]. apply list_elem_of_singleton in Hj. lia.
Qed.

Lemma sentAt_nodup d i cmds : NoDup (sentAt d i cmds).
Proof.
  revert i. induction cmds as [|c cmds IH]; intros i; cbn; [constructor|].
  destruct (prepare c d); cbn; [apply IH|]. constructor; [|apply IH]. intros Hi%sentAt_ge. lia.
Qed.

(** A command that is sent stands in the request after those sent before it. *)
Lemma sentAt_lookup d i cmds k c nv :
  cmds !! k = Some c -> prepare c d = inr nv ->
  sentAt d i cmds !! length (sent d (take k cmds)) = Some (i + k)%nat
  /\ sent d cmds !! length (sent d (take k cmds)) = Some nv.
Proof.
  revert i k. induction cmds as [|c0 cmds IH]; intros i [|k] Hk Hp; try done.
  - injection Hk as ->. cbn. rewrite Hp. cbn. split; [|done]. by rewrite Nat.add_0_r.
  - cbn in Hk. destruct (IH (S i) k Hk Hp) as [H1 H2]. cbn. destruct (prepare c0 d); cbn.
    + split; [|exact H2]. etransitivity; [exact H1|]. f_equal. lia.
    + split; [|exact H2]. etransitivity; [exact H1|]. f_equal. lia.
Qed.

Lemma sentAt_unsent d i cmds k c e :
  cmds !! k = Some c -> prepare c d = inl e -> (i + k)%nat ∉ sentAt d i cmds.
Proof.
  revert i k. induction cmds as [|c0 cmds IH]; intros i [|k] Hk Hp; try done; cbn in *.
  - injection Hk as ->. rewrite Hp. intros Hi%sentAt_ge. lia.
  - rewrite elem_of_app. intros [Hi|Hi].
    + destruct (prepare c0 d); [by apply elem_of_nil in Hi|]. apply list_elem_of_singleton in Hi. lia.
    + apply (IH (S i) k Hk Hp). by replace (S i + k)%nat with (i + S k)%nat by lia.
Qed.

Lemma gather_exact d i cmds results values indices :
  exists results', gather i cmds d results values indices
    = (results', values ++ sent d cmds, indices ++ sentAt d i cmds)
  /\ length results' = length results
  /\ (forall j, (j < i)%nat -> results' !! j = results !! j)
  /\ (forall k c, cmds !! k = Some c -> (i + k < length results)%nat ->
       results' !! (i + k)%nat = match prepare c d with inl r => Some r | inr _ => results !! (i + k)%nat end).
Proof.
  revert i results values indices. induction cmds as [|c cmds IH]; intros i results values indices.
  - exists results. cbn. rewrite !app_nil_r. split_and!; auto. intros k c. by rewrite lookup_nil.
  - cbn [gather sent sentAt omap list_omap]. destruct (prepare c d) as [r|nv] eqn:Hp.
    + destruct (IH (S i) (<[i:=r]> results) values indices) as (r' & Hg & Hl & Hlt & Hk).
      rewrite length_insert in Hl, Hk. exists r'. split; [exact Hg|]. split_and!; [done| |].
      * intros j Hj. rewrite Hlt by lia. apply list_lookup_insert_ne. lia.
      * intros [|k] c' Hc Hi.
        -- injection Hc as <-. rewrite Hp, Nat.add_0_r, Hlt by lia. apply list_lookup_insert_eq. lia.
        -- cbn in Hc. replace (i + S k)%nat with (S i + k)%nat in * by lia. rewrite (Hk k c' Hc) by lia.
           destruct (prepare c' d); [done|]. apply list_lookup_insert_ne. lia.
    + destruct (IH (S i) results (values ++ [nv]) (indices ++ [i])) as (r' & Hg & Hl & Hlt & Hk).
      rewrite <-!app_assoc in Hg. exists r'. split; [exact Hg|]. split_and!; [done| |].
      * intros j Hj. apply Hlt. lia.
      * intros [|k] c' Hc Hi.
        -- injection Hc as <-. rewrite Hp, Nat.add_0_r. apply Hlt. lia.
        -- cbn in Hc. replace (i + S k)%nat with (S i + k)%nat in * by lia. by apply Hk.
Qed.

Lemma scatter_exact codes indices results :
  length codes = length indices -> NoDup indices -> Forall (fun i => (i < length results)%nat) indices ->
  exists r, scatter codes indices results = Ok r /\ length r = length results
  /\ (forall j, j ∉ indices -> r !! j = results !! j)
  /\ (forall k i c, indices !! k = Some i -> codes !! k = Some c -> r !! i = Some (codeResult c)).
Proof.
  revert indices results. induction codes as [|c codes IH]; intros [|i indices] results Hlen Hnd Hf; try done.
  - exists results. split_and!; auto. intros k i c. by rewrite lookup_nil.
  - apply NoDup_cons in Hnd as [Hi Hnd]. apply Forall_cons_1 in Hf as [Hlt Hf].
    destruct (IH indices (<[i:=codeResult c]> results)) as (r & Hs & Hl & Ho & Hin); [by injection Hlen|done| |].
    { by rewrite length_insert. }
    rewrite length_insert in Hl. exists r. split; [exact Hs|]. split_and!; [done| |].
    + intros j Hj. rewrite not_elem_of_cons in Hj. destruct Hj as [Hji Hj]. rewrite Ho by done.
      by apply list_lookup_insert_ne.
    + intros [|k] i' c' Hi' Hc; cbn in *; [|by eapply Hin].
      injection Hi' as <-. injection Hc as <-. rewrite Ho by done. by apply list_lookup_insert_eq.
Qed.

(** C26. Every command of a batch gets its own result, whatever the others are:
    one with an unknown tag or a value no variant can hold is answered with that
    error and is not sent; the others are sent in order, converted back to the
    device's representation, and each is answered with the status the server
    gave to it.  The server is assumed to answer each value it is sent. *)
Theorem opcua_write_exact cmds d client x codes :
  bd_state (od_base d) = StateConnected -> bd_conn (od_base d) = Some client ->
  sent d cmds <> [] ->
  lib_Write client (sent d cmds) (od_dev d) = (x, inl codes) -> length codes = length (sent d cmds) ->
  exists results, Write cmds d = (Ok results, set_dev x d) /\ length results = length cmds
  /\ forall k cmd, cmds !! k = Some cmd ->
       results !! k = match prepare cmd d with
                      | inl r => Some r
                      | inr _ => codeResult <$> codes !! length (sent d (take k cmds))
                      end.
Proof.
  intros Hst Hc Hne Hw Hlen. unfold Write. rewrite Hst, Hc.
  destruct (gather_exact d 0 cmds (replicate (length cmds) (mkWriteResult false "")) [] [])
    as (r0 & Hg & Hl0 & _ & Hk0).
  rewrite length_replicate in Hl0, Hk0. rewrite Hg. cbn [app].
  destruct (decide _) as [He|_]; [by apply nil_length_inv in He|]. rewrite Hw.
  destruct (scatter_exact codes (sentAt d 0 cmds) r0) as (r & Hs & Hl & Ho & Hin).
  { by rewrite sentAt_length. }
  { apply sentAt_nodup. }
  { apply Forall_forall. intros i Hi%sentAt_ge. rewrite Hl0. lia. }
  exists r. rewrite Hs, Hl. split_and!; [done|done|]. intros k cmd Hk.
  assert (Hlt : (k < length cmds)%nat) by (by eapply lookup_lt_Some).
  pose proof (Hk0 k cmd Hk Hlt) as Hr0. cbn in Hr0. destruct (prepare cmd d) as [e|nv] eqn:Hp.
  - rewrite Ho; [done|]. by apply (sentAt_unsent d 0 cmds k cmd e).
  - destruct (sentAt_lookup d 0 cmds k cmd nv Hk Hp) as [H1 H2].
    assert (is_Some (codes !! length (sent d (take k cmds)))) as [c Hcode].
    { apply lookup_lt_is_Some. rewrite Hlen. by eapply lookup_lt_Some. }
    rewrite Hcode. by eapply Hin.
Qed.

(** ** Subscription *)

Lemma monitorItems_exact k nodes items handles :
  0 <= k -> k + Z.of_nat (length nodes) <= 2 ^ 32 ->
  let '(items', handles') := monitorItems k nodes items handles in
  items' = items ++ imap (fun i p => (p.2, k + Z.of_nat i)) nodes
  /\ forall h, handles' !! h = if decide (k <= h < k + Z.of_nat (length nodes))
                               then (nodes !! Z.to_nat (h - k)) ≫= fun p => Some p.1 else handles !! h.
Proof.
  revert k items handles. induction nodes as [|[t n] nodes IH]; intros k items handles Hk Hb; cbn [monitorItems].
  - cbn. rewrite app_nil_r. split; [done|]. intros h. rewrite decide_False by lia. done.
  - cbn [length] in Hb. destruct nodes as [|p nodes'] eqn:En.
    + cbn. rewrite Z.add_0_r. split; [done|]. intros h. destruct (decide (h = k)) as [->|Hh].
      * rewrite lookup_insert_eq, decide_True by lia. by rewrite Z.sub_diag.
      * rewrite lookup_insert_ne, decide_False by lia. done.
    + rewrite <-En in *. assert (Hu : u32 (k + 1) = k + 1).
      { apply (wrapu_small 32). rewrite En in Hb. cbn [length] in Hb. lia. }
      rewrite Hu. specialize (IH (k + 1) (items ++ [(n, k)]) (<[k:=t]> handles) ltac:(lia) ltac:(lia)).
      destruct (monitorItems _ _ _ _) as [items' handles']. destruct IH as [-> Hh]. split.
      * cbn. rewrite <-app_assoc, Z.add_0_r. cbn. do 2 f_equal. apply imap_ext. intros i q _. cbn. f_equal. lia.
      * intros h. rewrite Hh. destruct (decide (h = k)) as [->|Hne].
        -- rewrite decide_False, decide_True by (cbn [length]; lia). by rewrite Z.sub_diag, lookup_insert_eq.
        -- cbn [length]. destruct (decide (k + 1 <= h < k + 1 + Z.of_nat (length nodes))).
           ++ rewrite decide_True by lia. replace (Z.to_nat (h - k)) with (S (Z.to_nat (h - (k + 1)))) by lia. done.
           ++ rewrite decide_False by lia. by rewrite lookup_insert_ne.
Qed.

(** The point of a good value. *)
Definition goodPoint (tag : string) (raw : Value) (now : Z) d : DataPoint :=
  let cfg := default TagConfig_zero (od_tags d !! tag) in
  mkDataPoint (od_name d) "" "" tag (ApplyTransform raw (tc_Scale cfg) (tc_Offset cfg)) (ParseDataType (tc_Type cfg)).1
    QualityGood now ∅ false.

Lemma items_resolve (m : gmap string N) nodes :
  nodes ≡ₚ map_to_list m -> Z.of_nat (size m) <= 2 ^ 32 ->
  let '(items, handles) := monitorItems 0 nodes [] ∅ in
  items.*1 ≡ₚ (map_to_list m).*2 /\ NoDup items.*2
  /\ forall tag n, m !! tag = Some n <-> exists h, (n, h) ∈ items /\ handles !! h = Some tag.
Proof.
  intros Hp Hs. assert (Hlen : length nodes = size m) by (by rewrite Hp, length_map_to_list).
  pose proof (monitorItems_exact 0 nodes [] ∅ ltac:(lia) ltac:(lia)) as Hm.
  destruct (monitorItems 0 nodes [] ∅) as [items handles]. destruct Hm as [-> Hh]. cbn [app].
  assert (Hin : forall n h, (n, h) ∈ imap (fun i (p : string * N) => (p.2, 0 + Z.of_nat i)) nodes
                  <-> exists tag, 0 <= h /\ nodes !! Z.to_nat h = Some (tag, n)).
  { intros n h. rewrite list_elem_of_lookup. setoid_rewrite list_lookup_imap_Some. split.
    - intros (i & [tag n'] & Hi & [= <- ->]). exists tag. rewrite Z.add_0_l, Nat2Z.id. split; [lia|done].
    - intros (tag & Hpos & Ht). exists (Z.to_nat h), (tag, n). split; [done|]. f_equal. lia. }
  split_and!.
  - rewrite fmap_imap. rewrite <-Hp. apply reflexive_eq.
    clear. unfold compose. cbn. generalize 0. intros _. induction nodes as [|p nodes IH] using rev_ind; [done|].
    rewrite imap_app, fmap_app, IH. done.
  - rewrite fmap_imap. apply NoDup_alt. intros i j h Hi Hj.
    apply list_lookup_imap_Some in Hi as (? & _ & ->), Hj as (? & _ & Hj). cbn in Hj. lia.
  - intros tag n. rewrite <-elem_of_map_to_list, <-Hp. split.
    + intros [i Hi]%list_elem_of_lookup. exists (Z.of_nat i). rewrite Hin, Hh, Nat2Z.id. split; [exists tag; split; [lia|done]|].
      apply lookup_lt_Some in Hi as Hlt. rewrite decide_True by lia. rewrite Z.sub_0_r, Nat2Z.id, Hi. done.
    + intros (h & [tag' [Hpos Ht]]%Hin & Hh'). rewrite Hh in Hh'. apply lookup_lt_Some in Ht as Hlt.
      rewrite decide_True in Hh' by lia. rewrite Z.sub_0_r, Ht in Hh'. injection Hh' as ->.
      by eapply list_elem_of_lookup_2.
Qed.

Lemma refusedItem_none codes : refusedItem codes = None -> Forall (fun c => c = StatusOK) codes.
Proof.
  unfold refusedItem. induction codes as [|c codes IH]; cbn; [constructor|]. case_bool_decide; [|done].
  cbn. intros. constructor; auto.
Qed.

(** A subscription that was set up monitors every configured node once, the
    server accepted every item, and the handles lead back: the handle an item
    was created with is that of its node's tag, so a value the server reports
    for it is forwarded, scaled, under that tag.  Fewer than 2^32 tags are
    assumed. *)
Theorem subscription_exact d d' :
  (forall x l, lib_iterate x l ≡ₚ l) -> Z.of_nat (size (od_nodeIDs d)) <= 2 ^ 32 ->
  startSubscription d = (None, d') ->
  exists sub items handles, od_subscription d' = Some sub /\ od_loops d' = od_loops d ++ [handles]
  /\ (exists x codes, lib_Monitor sub items x = (od_dev d', inl codes) /\ Forall (fun c => c = StatusOK) codes)
  /\ items.*1 ≡ₚ (map_to_list (od_nodeIDs d)).*2 /\ NoDup items.*2
  /\ (forall tag n, od_nodeIDs d !! tag = Some n <-> exists h, (n, h) ∈ items /\ handles !! h = Some tag)
  /\ forall h tag v raw now e, handles !! h = Some tag -> lib_Value (Some v) = Ok raw ->
       onNotification handles now (NotifyDataChange [(h, Some (mkDataValue StatusOK (Some v)))]) e
       = Ok (offer (goodPoint tag raw now e) e).
Proof.
  intros Hit Hsz Hd. unfold startSubscription in Hd.
  destruct (bd_conn (od_base d)) as [client|]; [|done]. destruct (decide _); [done|].
  assert (Hn : od_nodeIDs (stopSubscription d) = od_nodeIDs d) by (unfold stopSubscription; by destruct (od_subscription d)).
  assert (Hlo : od_loops (stopSubscription d) = od_loops d) by (unfold stopSubscription; by destruct (od_subscription d)).
  destruct (lib_Subscribe _ _ _) as [x [sub|e]]; [|done]. rewrite Hn in Hd.
  pose proof (items_resolve (od_nodeIDs d) (lib_iterate x (map_to_list (od_nodeIDs d))) (Hit _ _) Hsz) as Hr.
  destruct (monitorItems _ _ _ _) as [items handles]. destruct Hr as (Hp & Hnd & Hiff).
  destruct (lib_Monitor sub items x) as [x' [codes|e]] eqn:Hm; [|done].
  destruct (refusedItem codes) eqn:Hc; [done|]. injection Hd as <-. apply refusedItem_none in Hc.
  exists sub, items, handles. cbn. rewrite Hlo. split_and!; eauto.
  intros h tag v raw now e Hh Hv. cbn [forwardItems onNotification]. unfold itemPoint. cbn [fst snd dv_Value dv_Status].
  rewrite Hh, decide_False by (by intros []). rewrite Hv. done.
Qed.

(** A bad status that comes without a value is dropped: the tag keeps the
    quality it had. *)
Lemma bad_without_value_lost handles now h tag st d :
  handles !! h = Some tag -> st <> StatusOK ->
  onNotification handles now (NotifyDataChange [(h, Some (mkDataValue st (@None V)))]) d = Ok d.
Proof. intros Hh _. cbn. unfold itemPoint. cbn. by rewrite Hh. Qed.

(** A point is queued or counted as an error; a full channel that nobody reads
    takes no more. *)
Lemma offer_exact dp d :
  Z.of_nat (length (od_subChannel d)) <= od_subBufferSize d ->
  let d' := offer dp d in
  (od_subChannel d' = od_subChannel d ++ [dp] /\ od_base d' = od_base d
   \/ od_subChannel d' = od_subChannel d /\ od_base d' = RecordError (od_base d)
      /\ Z.of_nat (length (od_subChannel d)) = od_subBufferSize d)
  /\ Z.of_nat (length (od_subChannel d')) <= od_subBufferSize d'.
Proof.
  intros Hb d'. unfold d', offer. destruct (decide _); cbn.
  - split; [by left|]. rewrite length_app. cbn. lia.
  - split; [right|done]. split_and!; [done|done|lia].
Qed.

(** ** The lifecycle the driver embeds *)

Lemma stop_sub_base d : od_base (stopSubscription d) = od_base d.
Proof. unfold stopSubscription. by destruct (od_subscription d). Qed.

Lemma start_sub_base d : od_base (startSubscription d).2 = od_base d.
Proof.
  unfold startSubscription. destruct (bd_conn (od_base d)); [|done]. destruct (decide _); [done|].
  repeat case_match; cbn; by rewrite ?stop_sub_base.
Qed.

(** What a connect does to the base. *)
Lemma connect_base d :
  match connect d with
  | (None, d') => exists client, od_base d' = openClient client (od_base d)
  | (Some _, d') => od_base d' = od_base d
  end.
Proof.
  unfold connect. destruct (lib_NewClient _ _) as [client|]; [|done].
  destruct (lib_Connect _ _) as [x [e|]]; [done|]. exists client.
  case_match; [rewrite start_sub_base|]; done.
Qed.

Lemma closeConn_base d : od_base (closeConn d) = od_base d.
Proof. unfold closeConn. by case_match. Qed.

Lemma lost_base d : od_base (handleConnectionLost d) = HandleConnectionLost (od_base d).
Proof.
  unfold handleConnectionLost, HandleConnectionLost. destruct (bd_state (od_base d)); try done; cbn;
    by rewrite stop_sub_base; cbn; rewrite closeConn_base.
Qed.

(** The operations as they interleave: the engine starts a driver that holds no
    connection and whose goroutines have returned; a goroutine handles one
    message, or returns; a consumer takes a point from the channel. *)
Inductive opcua_step : driver -> driver -> Prop :=
| os_init config d : opcua_step d (Init config d).2
| os_start d : bd_loops (od_base d) = O -> bd_conn (od_base d) = None -> opcua_step d (Start d).2
| os_reconnect d : bd_loops (od_base d) <> O -> opcua_step d (reconnect d)
| os_read now tags d : opcua_step d (Read now tags d).2
| os_write cmds d : opcua_step d (Write cmds d).2
| os_notify handles now msg d d' :
    handles ∈ od_loops d -> onNotification handles now msg d = Ok d' -> opcua_step d d'
| os_loop_end i d : opcua_step d (set_sub (od_subscription d) (od_handleToTag d) (delete i (od_loops d)) d)
| os_take d : opcua_step d (set_channel (tail (od_subChannel d)) d)
| os_stop d : opcua_step d (Stop d).

Record opcua_inv d : Prop := mkOpcuaInv {
  oi_base : bd_reachable (od_base d);
  oi_fresh : bd_ctx (od_base d) = CtxNone -> bd_loops (od_base d) = O /\ bd_conn (od_base d) = None;
  oi_sub : od_subscription d <> None -> bd_conn (od_base d) <> None;
  oi_chan : Z.of_nat (length (od_subChannel d)) <= od_subBufferSize d;
}.

Lemma reach_step (b b' : BaseDriver C) : bd_reachable b -> bd_step b b' -> bd_reachable b'.
Proof. intros. by eapply rtc_r. Qed.

(** Fields an operation leaves alone. *)
Definition same_channel d d' : Prop :=
  od_subChannel d' = od_subChannel d /\ od_subBufferSize d' = od_subBufferSize d.

Lemma stop_sub_channel d : same_channel d (stopSubscription d) /\ od_subscription (stopSubscription d) = None.
Proof. unfold stopSubscription. by destruct (od_subscription d). Qed.

Lemma start_sub_channel d : same_channel d (startSubscription d).2.
Proof.
  unfold startSubscription, same_channel. destruct (stop_sub_channel d) as [[Hc Hb] _].
  destruct (bd_conn (od_base d)); [|done]. destruct (decide _); [done|]. repeat case_match; cbn; auto.
Qed.

Lemma connect_channel d : same_channel d (connect d).2.
Proof.
  unfold connect. destruct (lib_NewClient _ _) as [client|]; [|done]. destruct (lib_Connect _ _) as [x [e|]]; [done|].
  cbn [snd]. case_match; [|done].
  destruct (start_sub_channel (on_base (openClient client) (set_dev x d))). by split.
Qed.

Lemma connect_sub d :
  match connect d with (None, _) => True | (Some _, d') => od_subscription d' = od_subscription d end.
Proof.
  unfold connect. destruct (lib_NewClient _ _); [|done]. destruct (lib_Connect _ _) as [x [e|]]; done.
Qed.

Lemma lost_inv d : opcua_inv d -> bd_conn (od_base d) <> None -> opcua_inv (handleConnectionLost d).
Proof.
  intros [Hb Hf Hs Hc] Hconn. split.
  - rewrite lost_base. eapply reach_step; [exact Hb|apply step_lost].
  - rewrite lost_base. intros Hx. destruct (Hf) as [_ Hn]; [|done].
    unfold HandleConnectionLost in Hx. by destruct (bd_state (od_base d)).
  - unfold handleConnectionLost. destruct (bd_state (od_base d)); try done; cbn;
      rewrite ?(proj2 (stop_sub_channel _)); by intros [].
  - unfold handleConnectionLost. destruct (bd_state (od_base d)); try done; cbn;
      rewrite ?(proj1 (proj1 (stop_sub_channel _))), ?(proj2 (proj1 (stop_sub_channel _))); cbn;
      unfold closeConn; case_match; exact Hc.
Qed.

(** A change of the counters only. *)
Lemma counted_inv (f : BaseDriver C -> BaseDriver C) d :
  (forall b, bd_step b (f b)) ->
  (forall b, bd_conn (f b) = bd_conn b /\ bd_ctx (f b) = bd_ctx b /\ bd_loops (f b) = bd_loops b) ->
  opcua_inv d -> opcua_inv (on_base f d).
Proof.
  intros Hstep Hsame [Hb Hf Hs Hc]. destruct (Hsame (od_base d)) as (H1 & H2 & H3).
  split; cbn; rewrite ?H1, ?H2, ?H3; auto. by eapply reach_step.
Qed.

Lemma error_inv d : opcua_inv d -> opcua_inv (on_base RecordError d).
Proof. apply counted_inv; [apply step_record_error|done]. Qed.

Lemma set_dev_inv x d : opcua_inv d -> opcua_inv (set_dev x d).
Proof. by intros []. Qed.

Lemma ioError_inv client e d : opcua_inv d -> opcua_inv (ioError client e d).
Proof.
  intros Hi. unfold ioError.
  assert (Hi' : opcua_inv (on_base (SetLastErrorLocked (error_text e)) (on_base RecordError d))).
  { apply counted_inv; [intros b; apply step_last_error|done|]. by apply error_inv. }
  case_match; [|done]. unfold handleConnLostIfCurrent. destruct (decide _) as [Heq|]; [|done].
  apply lost_inv; [done|]. by rewrite Heq.
Qed.

Lemma read_inv now tags d : opcua_inv d -> opcua_inv (Read now tags d).2.
Proof.
  intros Hi. unfold Read. destruct (bd_state (od_base d)), (bd_conn (od_base d)) as [client|]; try by apply error_inv.
  destruct (decide _); [done|]. destruct (lib_Read _ _ _) as [x [resp|e]]; [|by apply ioError_inv, set_dev_inv].
  destruct (assembleReadResults _ _ _ _); cbn; [|by apply set_dev_inv..].
  apply counted_inv; [intros b; apply step_last_read|done|]. apply counted_inv; [intros b; apply step_read_count|done|].
  by apply set_dev_inv.
Qed.

Lemma write_inv cmds d : opcua_inv d -> opcua_inv (Write cmds d).2.
Proof.
  intros Hi. unfold Write. destruct (bd_state (od_base d)), (bd_conn (od_base d)) as [client|]; try done.
  destruct (gather _ _ _ _ _ _) as [[results values] indices]. destruct (decide _); [done|].
  destruct (lib_Write _ _ _) as [x [codes|e]]; [|by apply ioError_inv, set_dev_inv]. by apply set_dev_inv.
Qed.

Lemma offer_inv dp d : opcua_inv d -> opcua_inv (offer dp d).
Proof.
  intros Hi. unfold offer. destruct (decide _) as [Hlt|]; [|by apply error_inv].
  destruct Hi as [Hb Hf Hs Hc]. split; cbn; auto. rewrite length_app. cbn. lia.
Qed.

Lemma notify_inv handles now msg d d' : opcua_inv d -> onNotification handles now msg d = Ok d' -> opcua_inv d'.
Proof.
  destruct msg as [|items|]; cbn; intros Hi; [intros [= <-]; by apply error_inv| |by intros [= <-]].
  revert d Hi. induction items as [|item items IH]; intros d Hi; cbn; [by intros [= <-]|].
  destruct (itemPoint handles now item d) as [[dp|]| |]; cbn; [|by apply IH|done..].
  apply IH. by apply offer_inv.
Qed.

Lemma start_inv d :
  opcua_inv d -> bd_loops (od_base d) = O -> bd_conn (od_base d) = None -> opcua_inv (Start d).2.
Proof.
  intros [Hb Hf Hs Hc] Hl Hn. unfold Start. set (d0 := on_base (set_ctx CtxLive) d).
  pose proof (connect_base d0) as Hcb. pose proof (connect_sub d0) as Hcs. pose proof (connect_channel d0) as [Hch Hsz].
  destruct (connect d0) as [[e|] d1]; cbn [snd] in *.
  - split; cbn; rewrite ?Hcb, ?Hcs, ?Hch, ?Hsz; cbn; try done.
    eapply reach_step; [exact Hb|]. apply (step_start (od_base d) (inr e)); done.
  - destruct Hcb as [client Hcb]. split; cbn; rewrite ?Hcb, ?Hch, ?Hsz; try done.
    eapply reach_step; [exact Hb|]. apply (step_start (od_base d) (inl client)); done.
Qed.

Lemma reconnect_inv d : opcua_inv d -> bd_loops (od_base d) <> O -> opcua_inv (reconnect d).
Proof.
  intros [Hb Hf Hs Hc] Hl. unfold reconnect. set (d0 := on_base _ d).
  pose proof (connect_base d0) as Hcb. pose proof (connect_sub d0) as Hcs. pose proof (connect_channel d0) as [Hch Hsz].
  assert (Hctx : bd_ctx (od_base d) <> CtxNone) by (intros Hx; by destruct (Hf Hx)).
  destruct (connect d0) as [[e|] d1]; cbn [snd] in *.
  - split; rewrite ?Hcb, ?Hcs, ?Hch, ?Hsz; try done.
    eapply reach_step; [exact Hb|]. apply (step_attempt (od_base d) (inr e)); done.
  - destruct Hcb as [client Hcb]. split; cbn; rewrite ?Hcb, ?Hch, ?Hsz; try done.
    eapply reach_step; [exact Hb|]. apply (step_attempt (od_base d) (inl client)); done.
Qed.

(** After [Stop] nothing of the driver is left running or open. *)
Lemma stop_clean d :
  let d' := Stop d in
  od_base d' = Stop_finish (set_conn (bd_state (od_base d)) (bd_conn (od_base d)) O (Stop_cancel (od_base d)))
  /\ od_subscription d' = None /\ od_loops d' = [] /\ same_channel d d'.
Proof.
  cbn. unfold Stop. set (d1 := on_base _ (on_base Stop_cancel d)).
  destruct (stop_sub_channel d1) as [[Hc Hs] Hn]. pose proof (stop_sub_base d1) as Hb.
  set (d2 := set_sub _ _ [] (stopSubscription d1)).
  assert (Hcl : od_base (closeConn d2) = od_base d1) by (rewrite closeConn_base; exact Hb).
  cbn [on_base od_base od_subscription od_loops od_subChannel od_subBufferSize]. rewrite Hcl. split_and!.
  - unfold d1, Stop_cancel. cbn. by destruct (bd_ctx (od_base d)).
  - unfold closeConn. by case_match; cbn.
  - unfold closeConn. by case_match; cbn.
  - unfold closeConn, same_channel. case_match; cbn; by rewrite Hc, Hs.
Qed.

Lemma stop_inv d : opcua_inv d -> opcua_inv (Stop d).
Proof.
  intros [Hb Hf Hs Hc]. destruct (stop_clean d) as (Hbase & Hsub & _ & Hch & Hsz).
  split; rewrite ?Hbase, ?Hsub, ?Hch, ?Hsz; cbn; try done.
  set (b := od_base d) in *. pose proof (bd_reachable_inv b Hb) as [_ Hone _ _].
  assert (Hcan : bd_reachable (Stop_cancel b)) by (eapply reach_step; [exact Hb|apply step_stop_cancel]).
  assert (Hctx : bd_loops b <> O -> bd_ctx (Stop_cancel b) = CtxCancelled).
  { intros Hl. unfold Stop_cancel. destruct (bd_ctx b) eqn:Ex; [by destruct (Hf eq_refl)|done..]. }
  assert (Hsame : bd_state (Stop_cancel b) = bd_state b /\ bd_conn (Stop_cancel b) = bd_conn b
                  /\ bd_loops (Stop_cancel b) = bd_loops b) by (unfold Stop_cancel; by destruct (bd_ctx b)).
  destruct Hsame as (S1 & S2 & S3).
  assert (Hz : bd_reachable (set_conn (bd_state b) (bd_conn b) O (Stop_cancel b))).
  { destruct (decide (bd_loops b = O)) as [Hl|Hl].
    - assert (Heq : set_conn (bd_state b) (bd_conn b) O (Stop_cancel b) = Stop_cancel b).
      { rewrite <-S1, <-S2, <-Hl, <-S3. by destruct (Stop_cancel b). }
      by rewrite Heq.
    - eapply reach_step; [exact Hcan|].
      pose proof (step_exit (Stop_cancel b) ltac:(by rewrite S3) (Hctx Hl)) as Hst.
      unfold reconnect_cancelled in Hst. rewrite S1, S2, S3 in Hst. by replace (Nat.pred (bd_loops b)) with O in Hst by lia. }
  eapply reach_step; [exact Hz|]. apply step_stop_finish; [done|]. cbn.
  unfold Stop_cancel. destruct (bd_ctx b) eqn:Ex; cbn; congruence.
Qed.

Lemma init_inv config d : opcua_inv d -> opcua_inv (Init config d).2.
Proof.
  intros [Hb Hf Hs Hc]. unfold Init. repeat case_match; done.
Qed.

Lemma opcua_step_inv d d' : opcua_inv d -> opcua_step d d' -> opcua_inv d'.
Proof.
  intros Hi Hs. destruct Hs as [config d|d Hl Hn|d Hl|now tags d|cmds d|handles now msg d d' _ Hm|i d|d|d].
  - by apply init_inv.
  - by apply start_inv.
  - by apply reconnect_inv.
  - by apply read_inv.
  - by apply write_inv.
  - by eapply notify_inv.
  - by destruct Hi.
  - destruct Hi as [Hb Hf Hsub Hc]. split; cbn; auto. destruct (od_subChannel d); cbn in *; lia.
  - by apply stop_inv.
Qed.

(** Whatever the interleaving of its operations, reconnects and
    notifications, an OPC UA driver keeps the lifecycle of every driver: it is
    connected exactly while it holds a client, at most one reconnect goroutine
    runs, and one does while the driver is started and down; besides, a
    subscription exists only while it is connected, and its channel never holds
    more points than its buffer. *)
Theorem opcua_lifecycle x config d :
  rtc opcua_step (NewOPCUADriver x config) d ->
  (bd_conn (od_base d) <> None <-> bd_state (od_base d) = StateConnected)
  /\ (bd_loops (od_base d) <= 1)%nat
  /\ (bd_ctx (od_base d) = CtxLive ->
      bd_state (od_base d) = StateConnecting \/ bd_state (od_base d) = StateError -> bd_loops (od_base d) = 1%nat)
  /\ (od_subscription d <> None -> bd_state (od_base d) = StateConnected)
  /\ Z.of_nat (length (od_subChannel d)) <= od_subBufferSize d.
Proof.
  intros Hr. assert (Hi : opcua_inv d).
  { assert (H0' : opcua_inv (NewOPCUADriver x config)).
    { split; cbn; [apply rtc_refl|done|done|]. destruct (decide _); lia. }
    revert H0'. induction Hr as [|a b c Hab _ IH]; [done|]. intros Ha. apply IH. by eapply opcua_step_inv. }
  destruct Hi as [Hb Hf Hs Hc]. destruct (bd_reachable_inv _ Hb) as [Hconn Hone _ Hheal].
  split_and!; auto. intros Hsub. by apply Hconn, Hs.
Qed.
End driver.

(** ** A server *)

Module UaSim.
(** Nodes are their addresses, the server a map from them to values; an unknown
    node has a bad status and no value. *)
Definition badNode : Z := 2150891520.

Definition answer (x : gmap string Value) (n : string) : DataValue Value :=
  match x !! n with Some v => mkDataValue StatusOK (Some v) | None => mkDataValue badNode None end.

Definition write (x : gmap string Value) (nv : string * Value) : gmap string Value :=
  if decide (is_Some (x !! nv.1)) then <[nv.1 := nv.2]> x else x.

#[export] Instance lib : OpcUaLib (gmap string Value) unit string Value unit := {
  lib_ParseNodeID := fun s => if decide (s = EmptyString) then inr (ErrNew "empty") else inl s;
  lib_NewClient := fun _ _ => inl tt;
  lib_Connect := fun _ x => (x, None);
  lib_Close := fun _ x => x;
  lib_Read := fun _ ns x => (x, inl (answer x <$> ns));
  lib_Write := fun _ nvs x => (foldl write x nvs, inl ((fun nv => dv_Status (answer x nv.1)) <$> nvs));
  lib_Subscribe := fun _ _ x => (x, inl tt);
  lib_Monitor := fun _ items x => (x, inl ((fun _ => StatusOK) <$> items));
  lib_Cancel := fun _ x => x;
  lib_NewVariant := fun v => match v with VNil => inr (ErrNew "nil") | _ => inl v end;
  lib_Value := fun v => match v with Some v => Ok v | None => Panic end;
  lib_StatusText := itoa;
  lib_iterate := fun _ l => l;
}.

Definition tag (name addr : string) : TagConfig :=
  mkTagConfig name addr "int32" "" "" f_zero f_zero f_zero "" "" "" "" "".

Definition config : DriverConfig :=
  mkDriverConfig "ua" "opcua"
    (<["endpoint"%string := VString "opc.tcp://plc"]> {["mode"%string := VString "subscription"]})
    [tag "a" "n1"; tag "b" "n2"] "" "".

Definition plc : gmap string Value := {["n1"%string := VInt32 7]}.

Definition fresh `{GoArch} : OPCUADriver (gmap string Value) unit string unit := NewOPCUADriver plc config.
Definition inited `{GoArch} := (Init config fresh).2.
Definition running `{GoArch} := (Start inited).2.
Definition polled `{GoArch} := set_sub None ∅ [] running.
Definition cmd (t : string) (v : Value) : WriteCommand := mkWriteCommand "ua" "" t v TypeInt32 "" "" false.
Definition cmds : list WriteCommand := [cmd "x" (VInt32 1); cmd "b" (VInt32 2); cmd "a" (VInt32 3)].
End UaSim.

#[local] Existing Instances UaSim.lib amd64_f2i.

(** The first tag is read, the second is bad, and an unknown one is left out. *)
Lemma opcua_read_exact_witness :
  exists vs d', Read 5 ["b"; "x"; "a"]%string UaSim.polled = (Ok vs, d')
    /\ tv_Tag <$> vs = ["b"; "a"]%string /\ bd_readCount (od_base d') = 2.
Proof.
  destruct (opcua_read_exact 5 ["b"; "x"; "a"]%string UaSim.polled tt UaSim.plc (UaSim.answer UaSim.plc))
    as (vs & d' & Hr & Ht & _ & Hc & _).
  - vm_compute. reflexivity.
  - vm_compute. reflexivity.
  - vm_compute. discriminate.
  - vm_compute. reflexivity.
  - intros n. unfold UaSim.answer. destruct (_ !! n) as [v|]; [|discriminate]. intros _. exists v. reflexivity.
  - assert (Hn : tv_Tag <$> vs = ["b"; "a"]%string) by (rewrite Ht; vm_compute; reflexivity).
    exists vs, d'. split; [exact Hr|]. split; [exact Hn|].
    apply (f_equal length) in Hn. rewrite length_fmap in Hn. rewrite Hc, Hn. vm_compute. reflexivity.
Defined.

(** Of three commands the second fails at the server and the third succeeds. *)
Lemma opcua_write_exact_witness :
  exists results d', Write UaSim.cmds UaSim.polled = (Ok results, d') /\ wr_Success <$> results = [false; false; true].
Proof.
  destruct (opcua_write_exact UaSim.cmds UaSim.polled tt (<["n1"%string := VInt32 3]> UaSim.plc)
    [UaSim.badNode; StatusOK]) as (results & Hw & Hl & Hk).
  - vm_compute. reflexivity.
  - vm_compute. reflexivity.
  - vm_compute. discriminate.
  - vm_compute. reflexivity.
  - vm_compute. reflexivity.
  - eexists results, _. split; [exact Hw|].
    pose proof (Hk 0%nat _ eq_refl) as H0. pose proof (Hk 1%nat _ eq_refl) as H1. pose proof (Hk 2%nat _ eq_refl) as H2.
    vm_compute in H0, H1, H2. destruct results as [|r0 [|r1 [|r2 [|]]]]; try discriminate Hl.
    injection H0 as ->. injection H1 as ->. injection H2 as ->. reflexivity.
Defined.

Lemma subscription_exact_witness :
  exists sub handles, od_subscription UaSim.running = Some sub /\ od_loops UaSim.running = [handles]
    /\ forall e, onNotification handles 9 (NotifyDataChange [(0, Some (mkDataValue StatusOK (Some (VInt32 4))))]) e
                 = Ok (offer (goodPoint "a" (VInt32 4) 9 e) e).
Proof.
  pose (d := on_base (openClient tt) UaSim.inited).
  destruct (subscription_exact d (startSubscription d).2) as (sub & items & handles & Hs & Hl & Hm & _ & _ & _ & Hn).
  - intros x l. reflexivity.
  - vm_compute. discriminate.
  - vm_compute. reflexivity.
  - assert (Hh : [handles] = [<[1 := "b"%string]> {[0 := "a"%string]}]).
    { transitivity (od_loops d ++ [handles]); [vm_compute; reflexivity|]. rewrite <-Hl. vm_compute. reflexivity. }
    injection Hh as Hh. exists sub, handles. split_and!.
    + rewrite <-Hs. vm_compute. reflexivity.
    + rewrite Hh. vm_compute. reflexivity.
    + intros e. apply Hn; [rewrite Hh; vm_compute; reflexivity|reflexivity].
Defined.

Lemma opcua_lifecycle_witness :
  od_subscription UaSim.running <> None /\ bd_state (od_base UaSim.running) = StateConnected.
Proof.
  assert (Hs : od_subscription UaSim.running <> None) by (vm_compute; discriminate).
  split; [exact Hs|].
  refine (proj1 (proj2 (proj2 (proj2 (opcua_lifecycle UaSim.plc UaSim.config UaSim.running _)))) Hs).
  eapply rtc_l; [apply (os_init UaSim.config UaSim.fresh)|].
  eapply rtc_l; [apply (os_start UaSim.inited); vm_compute; reflexivity|]. apply rtc_refl.
Defined.
