(* ===== verification/Manager.v ===== *)
(** * Drivers and transports of a running engine
    ([engine/driver_manager.go], [engine/tagfile.go], [engine/tagfile_watcher.go],
    [engine/transport_manager.go])

    The registries of live drivers and transports: adding, replacing and
    removing them, the watchers that reload a driver's tags from a file, and
    what the other parts of the engine keep about a driver -- the scheduler's
    tasks, the cached values, the pacing clock. *)

From Stdlib Require Import ZArith Lia String.
From stdpp Require Import base list gmap strings relations.
From S2P Require Import Prelude GoFloat GoTime Types Util Cache Batcher Scheduler Config.

Open Scope Z_scope.

(** ** The environment

    Drivers and transports are code behind an interface: creating, initialising,
    starting and stopping an instance may fail.  A driver may declare a minimum
    interval, a transport may have no command or data channel.  Reading a tags
    file gives its tags and the hash of its content. *)
Class ManagerEnv (E : Type) := {
  env_create : DriverConfig -> E -> option error * E;       (* CreateDriver *)
  env_init : nat -> DriverConfig -> E -> option error * E;  (* Driver.Init *)
  env_start : nat -> E -> option error * E;                 (* Driver.Start *)
  env_stop : nat -> E -> option error * E;                  (* Driver.Stop *)
  env_floor : nat -> option Z;                              (* IntervalLimiter *)
  env_tagsfile : string -> E -> (list TagConfig * string + error) * E;
  env_tcreate : TransportConfig -> E -> option error * E;
  env_tinit : nat -> TransportConfig -> E -> option error * E;
  env_tstart : nat -> E -> option error * E;
  env_tstop : nat -> E -> option error * E;
}.

(** ** State *)

(** [tagFileWatcher]. *)
Record tagFileWatcher := mkWatcher {
  tw_driver : string;
  tw_path : string;
  tw_interval : Z;
  tw_hash : string;
}.

(** [driverRegistry].  Driver instances and watchers are numbered; [dr_running]
    holds the instances whose [Start] succeeded and whose [Stop] was not called,
    [dr_watching] the watcher goroutines that run. *)
Record driverRegistry := mkDriverRegistry {
  dr_drivers : gmap string nat;
  dr_driverConfigs : gmap string DriverConfig;
  dr_tagFileWatchers : gmap string nat;
  dr_tagGroups : gmap string (gmap string string);
  dr_running : gset nat;
  dr_watching : gmap nat tagFileWatcher;
}.

(** [transportManager].  [tm_listening] holds the listener contexts that are not
    cancelled, [tm_flushing] the batchers that run. *)
Record transportManager := mkTransportManager {
  tm_transports : gmap string nat;
  tm_transportCfg : gmap string TransportConfig;
  tm_batchers : gmap string nat;
  tm_transportCancels : gmap string nat;
  tm_offline : bool;
  tm_running : gset nat;
  tm_listening : gset nat;
  tm_flushing : gset nat;
}.

(** The engine the two registries belong to, once [startScheduler] has created
    its scheduler.  [en_ctx] says whether the runtime
    context exists and is not cancelled; [en_next] numbers instances. *)
Record engine (E : Type) := mkEngine {
  en_env : E;
  en_reg : driverRegistry;
  en_tm : transportManager;
  en_sched : scheduler;
  en_cache : LatestCache;
  en_pacer : gmap string Z;
  en_defaultTagInterval : Z;
  en_shutdownTimeout : Z;
  en_ctx : bool;
  en_next : nat;
}.
Arguments mkEngine {E} _ _ _ _ _ _ _ _ _ _.
Arguments en_env {E} _.
Arguments en_reg {E} _.
Arguments en_tm {E} _.
Arguments en_sched {E} _.
Arguments en_cache {E} _.
Arguments en_pacer {E} _.
Arguments en_defaultTagInterval {E} _.
Arguments en_shutdownTimeout {E} _.
Arguments en_ctx {E} _.
Arguments en_next {E} _.

Section Setters.
Context {E : Type}.

Definition set_env (e : E) (g : engine E) : engine E :=
  mkEngine e (en_reg g) (en_tm g) (en_sched g) (en_cache g) (en_pacer g)
    (en_defaultTagInterval g) (en_shutdownTimeout g) (en_ctx g) (en_next g).
Definition set_reg (r : driverRegistry) (g : engine E) : engine E :=
  mkEngine (en_env g) r (en_tm g) (en_sched g) (en_cache g) (en_pacer g)
    (en_defaultTagInterval g) (en_shutdownTimeout g) (en_ctx g) (en_next g).
Definition set_tm (t : transportManager) (g : engine E) : engine E :=
  mkEngine (en_env g) (en_reg g) t (en_sched g) (en_cache g) (en_pacer g)
    (en_defaultTagInterval g) (en_shutdownTimeout g) (en_ctx g) (en_next g).
Definition set_sched (s : scheduler) (g : engine E) : engine E :=
  mkEngine (en_env g) (en_reg g) (en_tm g) s (en_cache g) (en_pacer g)
    (en_defaultTagInterval g) (en_shutdownTimeout g) (en_ctx g) (en_next g).
Definition set_cache (c : LatestCache) (g : engine E) : engine E :=
  mkEngine (en_env g) (en_reg g) (en_tm g) (en_sched g) c (en_pacer g)
    (en_defaultTagInterval g) (en_shutdownTimeout g) (en_ctx g) (en_next g).
Definition set_pacer (p : gmap string Z) (g : engine E) : engine E :=
  mkEngine (en_env g) (en_reg g) (en_tm g) (en_sched g) (en_cache g) p
    (en_defaultTagInterval g) (en_shutdownTimeout g) (en_ctx g) (en_next g).
Definition bump (g : engine E) : engine E :=
  mkEngine (en_env g) (en_reg g) (en_tm g) (en_sched g) (en_cache g) (en_pacer g)
    (en_defaultTagInterval g) (en_shutdownTimeout g) (en_ctx g) (S (en_next g)).

(** Applying an operation of the scheduler. *)
Definition with_sched (f : scheduler -> scheduler) (g : engine E) : engine E :=
  set_sched (f (en_sched g)) g.

(** A call of the environment. *)
Definition call {A} (f : E -> A * E) (g : engine E) : A * engine E :=
  let '(x, e) := f (en_env g) in (x, set_env e g).

End Setters.

(** ** Drivers *)

Section Drivers.
Context {E : Type} `{!SchedEnv E} `{!ManagerEnv E} `{!GoArch}.

(** The tag-to-group map of a driver. *)
Definition tagGroupsOf (tags : list TagConfig) : gmap string string :=
  foldl (fun m t => if decide (tc_Group t <> EmptyString)
                    then <[tc_Name t := tc_Group t]> m else m) ∅ tags.

(** Creating, initialising and starting an instance; its number on success. *)
Definition startInstance (config : DriverConfig) (g : engine E)
  : (nat + error) * engine E :=
  let id := en_next g in
  let g := bump g in
  match call (env_create config) g with
  | (Some e, g) =>
    (inr (ErrWrap ("failed to create driver " +:+ dc_Name config +:+ ": ") e ""), g)
  | (None, g) =>
    match call (env_init id config) g with
    | (Some e, g) =>
      (inr (ErrWrap ("failed to init driver " +:+ dc_Name config +:+ ": ") e ""), g)
    | (None, g) =>
      match call (env_start id) g with
      | (Some e, g) =>
        (inr (ErrWrap ("failed to start driver " +:+ dc_Name config +:+ ": ") e ""), g)
      | (None, g) =>
        let r := en_reg g in
        (inl id, set_reg (mkDriverRegistry (dr_drivers r) (dr_driverConfigs r)
                   (dr_tagFileWatchers r) (dr_tagGroups r) ({[id]} ∪ dr_running r)
                   (dr_watching r)) g)
      end
    end
  end.

(** Calling [Stop] on an instance; its error is returned. *)
Definition stopInstance (id : nat) (g : engine E) : option error * engine E :=
  let '(err, g) := call (env_stop id) g in
  let r := en_reg g in
  (err, set_reg (mkDriverRegistry (dr_drivers r) (dr_driverConfigs r) (dr_tagFileWatchers r)
          (dr_tagGroups r) (dr_running r ∖ {[id]}) (dr_watching r)) g).

(** Taking a driver out of the two maps a caller sees. *)
Definition unlist (name : string) (g : engine E) : engine E :=
  let r := en_reg g in
  set_reg (mkDriverRegistry (delete name (dr_drivers r)) (dr_driverConfigs r)
    (dr_tagFileWatchers r) (delete name (dr_tagGroups r)) (dr_running r) (dr_watching r)) g.

(** Installing an instance with its tag groups. *)
Definition install (config : DriverConfig) (id : nat) (g : engine E) : engine E :=
  let r := en_reg g in
  set_reg (mkDriverRegistry (<[dc_Name config := id]> (dr_drivers r)) (dr_driverConfigs r)
    (dr_tagFileWatchers r) (<[dc_Name config := tagGroupsOf (dc_Tags config)]> (dr_tagGroups r))
    (dr_running r) (dr_watching r)) g.

Definition storeConfig (config : DriverConfig) (g : engine E) : engine E :=
  let r := en_reg g in
  set_reg (mkDriverRegistry (dr_drivers r) (<[dc_Name config := config]> (dr_driverConfigs r))
    (dr_tagFileWatchers r) (dr_tagGroups r) (dr_running r) (dr_watching r)) g.

(** [scheduleDriverTags] on the engine's scheduler, with the minimum interval of
    the installed instance. *)
Definition schedule (config : DriverConfig) (g : engine E) : engine E :=
  let limiter := dr_drivers (en_reg g) !! dc_Name config ≫= env_floor in
  let '(s, w) := scheduleDriverTags (en_defaultTagInterval g) (dc_Name config) limiter
                   (dc_Tags config) (en_sched g) (mkWorld (en_env g) [] []) in
  set_env (w_env w) (set_sched s g).

(** [newTagFileWatcher] and the entry in [tagFileWatchers]. *)
Definition startTagFileWatcher (config : DriverConfig) (g : engine E) : engine E :=
  if decide (dc_TagsFile config = EmptyString \/ dc_TagsInterval config = EmptyString) then g
  else
    match ParseDuration (dc_TagsInterval config) with
    | None => g
    | Some interval =>
      if decide (interval <= 0) then g
      else
        match call (env_tagsfile (dc_TagsFile config)) g with
        | (inr _, g) => g
        | (inl (_, hash), g) =>
          let w := en_next g in
          let g := bump g in
          let r := en_reg g in
          set_reg (mkDriverRegistry (dr_drivers r) (dr_driverConfigs r)
            (<[dc_Name config := w]> (dr_tagFileWatchers r)) (dr_tagGroups r) (dr_running r)
            (<[w := mkWatcher (dc_Name config) (dc_TagsFile config) interval hash]>
               (dr_watching r))) g
        end
    end.

Definition stopTagFileWatcher (name : string) (g : engine E) : engine E :=
  let r := en_reg g in
  match dr_tagFileWatchers r !! name with
  | None => g
  | Some w =>
    set_reg (mkDriverRegistry (dr_drivers r) (dr_driverConfigs r)
      (delete name (dr_tagFileWatchers r)) (dr_tagGroups r) (dr_running r)
      (delete w (dr_watching r))) g
  end.

Definition AddDriver (config : DriverConfig) (g : engine E) : option error * engine E :=
  match startInstance config g with
  | (inr e, g) => (Some e, g)
  | (inl id, g) =>
    let name := dc_Name config in
    let g :=
      match dr_drivers (en_reg g) !! name with
      | None => g
      | Some old =>
        let g := with_sched (PauseDriver name) (unlist name g) in
        (stopInstance old g).2
      end in
    (None, startTagFileWatcher config (storeConfig config (schedule config (install config id g))))
  end.

Definition RemoveDriver (name : string) (g : engine E) : option error * engine E :=
  let g := stopTagFileWatcher name g in
  let r := en_reg g in
  match dr_drivers r !! name with
  | None => (Some (ErrFmt ("driver not found: " +:+ name)), g)
  | Some id =>
    let g := unlist name g in
    let r := en_reg g in
    let g := set_reg (mkDriverRegistry (dr_drivers r) (delete name (dr_driverConfigs r))
               (dr_tagFileWatchers r) (dr_tagGroups r) (dr_running r) (dr_watching r)) g in
    let g := set_pacer (delete name (en_pacer g)) g in
    let g := set_cache (DeleteDriver name (en_cache g)) g in
    let g := with_sched (RemoveDriverTasks name) g in
    stopInstance id g
  end.

Definition GetDriver (name : string) (g : engine E) : option nat :=
  dr_drivers (en_reg g) !! name.

(** [reloadDriverTags]. *)
Definition reloadDriverTags (config : DriverConfig) (g : engine E) : option error * engine E :=
  match startInstance config g with
  | (inr e, g) => (Some e, g)
  | (inl id, g) =>
    let name := dc_Name config in
    let g :=
      match dr_drivers (en_reg g) !! name with
      | None => g
      | Some old => (stopInstance old (with_sched (RemoveDriverTasks name) (unlist name g))).2
      end in
    (None, schedule config (storeConfig config (install config id g)))
  end.

(** The callback of a watcher: the new tags replace all tags of the stored
    configuration; the cached values of tags that disappeared go first. *)
Definition onReload (driverName : string) (newTags : list TagConfig) (g : engine E)
  : option error * engine E :=
  match dr_driverConfigs (en_reg g) !! driverName with
  | None =>
    (Some (ErrFmt ("driver " +:+ driverName +:+ " config not found during tag-file reload")), g)
  | Some base =>
    let updated := mkDriverConfig (dc_Name base) (dc_Type base) (dc_Settings base) newTags
                     (dc_TagsFile base) (dc_TagsInterval base) in
    let gone := filter (fun t => tc_Name t ∉ tc_Name <$> newTags) (dc_Tags base) in
    let g := set_cache (foldl (fun c t => DeleteTag driverName (tc_Name t) c) (en_cache g) gone) g in
    match reloadDriverTags updated g with
    | (None, g) => (None, g)
    | (Some e, g) => (Some (ErrWrap "failed to reload driver with new tags: " e ""), g)
    end
  end.

(** [checkAndReload] of a watcher: the hash is stored before the callback. *)
Definition checkAndReload (w : nat) (g : engine E) : option error * engine E :=
  match dr_watching (en_reg g) !! w with
  | None => (None, g)
  | Some tw =>
    match call (env_tagsfile (tw_path tw)) g with
    | (inr e, g) => (Some e, g)
    | (inl (tags, hash), g) =>
      if decide (hash = tw_hash tw) then (None, g)
      else
        let r := en_reg g in
        let g := set_reg (mkDriverRegistry (dr_drivers r) (dr_driverConfigs r)
                   (dr_tagFileWatchers r) (dr_tagGroups r) (dr_running r)
                   (<[w := mkWatcher (tw_driver tw) (tw_path tw) (tw_interval tw) hash]>
                      (dr_watching r))) g in
        match onReload (tw_driver tw) tags g with
        | (None, g) => (None, g)
        | (Some e, g) => (Some (ErrWrap "reload callback: " e ""), g)
        end
    end
  end.

End Drivers.

(** ** Transports *)

Section Transports.
Context {E : Type} `{!ManagerEnv E} `{!GoArch}.

Definition batchPart (config : TransportConfig) : Batcher.TransportConfig :=
  Batcher.mkTransportConfig (tp_BatchSize config) (tp_FlushInterval config) (tp_RetryCount config).

Definition startTransport (config : TransportConfig) (g : engine E)
  : (nat + error) * engine E :=
  let id := en_next g in
  let g := bump g in
  match call (env_tcreate config) g with
  | (Some e, g) =>
    (inr (ErrWrap ("failed to create transport " +:+ tp_Name config +:+ ": ") e ""), g)
  | (None, g) =>
    match call (env_tinit id config) g with
    | (Some e, g) =>
      (inr (ErrWrap ("failed to init transport " +:+ tp_Name config +:+ ": ") e ""), g)
    | (None, g) =>
      match call (env_tstart id) g with
      | (Some e, g) =>
        (inr (ErrWrap ("failed to start transport " +:+ tp_Name config +:+ ": ") e ""), g)
      | (None, g) =>
        let t := en_tm g in
        (inl id, set_tm (mkTransportManager (tm_transports t) (tm_transportCfg t)
                   (tm_batchers t) (tm_transportCancels t) (tm_offline t)
                   ({[id]} ∪ tm_running t) (tm_listening t) (tm_flushing t)) g)
      end
    end
  end.

Definition stopTransport (id : nat) (g : engine E) : option error * engine E :=
  let '(err, g) := call (env_tstop id) g in
  let t := en_tm g in
  (err, set_tm (mkTransportManager (tm_transports t) (tm_transportCfg t) (tm_batchers t)
          (tm_transportCancels t) (tm_offline t) (tm_running t ∖ {[id]}) (tm_listening t)
          (tm_flushing t)) g).

(** Taking a transport with its batcher and its listeners out of the maps, then
    cancelling the listeners and stopping the batcher (bounded by the shutdown
    timeout: the batcher ends by itself). *)
Definition detach (name : string) (g : engine E) : engine E :=
  let t := en_tm g in
  let batcher := tm_batchers t !! name in
  let cancel := tm_transportCancels t !! name in
  set_tm (mkTransportManager (delete name (tm_transports t)) (tm_transportCfg t)
    (delete name (tm_batchers t)) (delete name (tm_transportCancels t)) (tm_offline t)
    (tm_running t)
    (match cancel with Some c => tm_listening t ∖ {[c]} | None => tm_listening t end)
    (match batcher with Some b => tm_flushing t ∖ {[b]} | None => tm_flushing t end)) g.

(** Entering a transport with its batcher, and starting its listeners while the
    engine runs. *)
Definition attach (config : TransportConfig) (id : nat) (g : engine E) : engine E :=
  let name := tp_Name config in
  let b := en_next g in
  let c := S b in
  let batcher := newTransportBatcher (batchPart config) (tm_offline (en_tm g))
                   (en_shutdownTimeout g) in
  let g := bump (bump g) in
  let t := en_tm g in
  set_tm (mkTransportManager (<[name := id]> (tm_transports t))
    (<[name := config]> (tm_transportCfg t))
    (if batcher then <[name := b]> (tm_batchers t) else tm_batchers t)
    (if en_ctx g then <[name := c]> (tm_transportCancels t) else tm_transportCancels t)
    (tm_offline t) (tm_running t)
    (if en_ctx g then {[c]} ∪ tm_listening t else tm_listening t)
    (if batcher then {[b]} ∪ tm_flushing t else tm_flushing t)) g.

Definition AddTransport (config : TransportConfig) (g : engine E) : option error * engine E :=
  match startTransport config g with
  | (inr e, g) => (Some e, g)
  | (inl id, g) =>
    let g :=
      match tm_transports (en_tm g) !! tp_Name config with
      | None => g
      | Some old => (stopTransport old (detach (tp_Name config) g)).2
      end in
    (None, attach config id g)
  end.

Definition RemoveTransport (name : string) (g : engine E) : option error * engine E :=
  match tm_transports (en_tm g) !! name with
  | None => (Some (ErrFmt ("transport not found: " +:+ name)), g)
  | Some id =>
    let g := detach name g in
    let t := en_tm g in
    let g := set_tm (mkTransportManager (tm_transports t) (delete name (tm_transportCfg t))
               (tm_batchers t) (tm_transportCancels t) (tm_offline t) (tm_running t)
               (tm_listening t) (tm_flushing t)) g in
    stopTransport id g
  end.

Definition GetTransport (name : string) (g : engine E) : option nat :=
  tm_transports (en_tm g) !! name.

End Transports.

(** ** Starting, suspending and resuming *)

Section Startup.
Context {E : Type} `{!SchedEnv E} `{!ManagerEnv E} `{!GoArch}.

(** [startDrivers] and [startTransports]: stop at the first failure. *)
Fixpoint startDrivers (configs : list DriverConfig) (g : engine E) : option error * engine E :=
  match configs with
  | [] => (None, g)
  | dc :: rest =>
    match AddDriver dc g with
    | (Some e, g) => (Some (ErrWrap ("failed to add driver " +:+ dc_Name dc +:+ ": ") e ""), g)
    | (None, g) => startDrivers rest g
    end
  end.

Fixpoint startTransports (configs : list TransportConfig) (g : engine E)
  : option error * engine E :=
  match configs with
  | [] => (None, g)
  | tc :: rest =>
    match AddTransport tc g with
    | (Some e, g) => (Some (ErrWrap ("failed to add transport " +:+ tp_Name tc +:+ ": ") e ""), g)
    | (None, g) => startTransports rest g
    end
  end.

End Startup.

(** ** The registry of drivers stays consistent *)

(** A running instance is registered, under one name; a driver has a stored
    configuration and tag groups exactly while it is registered; and the watcher
    goroutines are exactly those in the map, of registered drivers. *)
Record reg_inv (r : driverRegistry) (next : nat) : Prop := {
  ri_running id : id ∈ dr_running r <-> exists n, dr_drivers r !! n = Some id;
  ri_inj n n' id : dr_drivers r !! n = Some id -> dr_drivers r !! n' = Some id -> n = n';
  ri_cfg n : is_Some (dr_driverConfigs r !! n) <-> is_Some (dr_drivers r !! n);
  ri_name n c : dr_driverConfigs r !! n = Some c -> dc_Name c = n;
  ri_groups n : dr_tagGroups r !! n =
    (fun c => tagGroupsOf (dc_Tags c)) <$> dr_driverConfigs r !! n;
  ri_watch n w : dr_tagFileWatchers r !! n = Some w <->
    exists tw, dr_watching r !! w = Some tw /\ tw_driver tw = n;
  ri_watch_drv n : is_Some (dr_tagFileWatchers r !! n) -> is_Some (dr_drivers r !! n);
  ri_next id : id ∈ dr_running r -> (id < next)%nat;
  ri_wnext w : is_Some (dr_watching r !! w) -> (w < next)%nat;
}.

(** The scheduler is consistent, and a task that was not cancelled belongs to a
    registered driver and reads only tags of its stored configuration. *)
Definition tasks_inv (r : driverRegistry) (s : scheduler) : Prop :=
  sd_inv s /\
  forall l g, sd_runners s !! l = Some g -> g_cancelled g = false ->
    exists c, dr_driverConfigs r !! st_Driver (g_task g) = Some c /\
      forall n, n ∈ st_Tags (g_task g) -> n ∈ tc_Name <$> dc_Tags c.

Definition mg_inv {E} (g : engine E) : Prop :=
  reg_inv (en_reg g) (en_next g) /\ tasks_inv (en_reg g) (en_sched g).

Section DriverProofs.
Context {E : Type} `{!SchedEnv E} `{!ManagerEnv E} `{!GoArch}.

(** The registry with an instance started, or stopped. *)
Definition reg_run (id : nat) (r : driverRegistry) : driverRegistry :=
  mkDriverRegistry (dr_drivers r) (dr_driverConfigs r) (dr_tagFileWatchers r) (dr_tagGroups r)
    ({[id]} ∪ dr_running r) (dr_watching r).
Definition reg_halt (id : nat) (r : driverRegistry) : driverRegistry :=
  mkDriverRegistry (dr_drivers r) (dr_driverConfigs r) (dr_tagFileWatchers r) (dr_tagGroups r)
    (dr_running r ∖ {[id]}) (dr_watching r).

Lemma startInstance_spec config (g : engine E) :
  exists e, match (startInstance config g).1 with
  | inl id => id = en_next g /\
      (startInstance config g).2 = set_env e (set_reg (reg_run id (en_reg g)) (bump g))
  | inr _ => (startInstance config g).2 = set_env e (bump g)
  end.
Proof.
  unfold startInstance, call. cbn [en_env bump].
  destruct (env_create config _) as [[err|] e1]; [by eexists|]. cbn [en_env set_env].
  destruct (env_init _ config e1) as [[err|] e2]; [by eexists|]. cbn [en_env set_env].
  destruct (env_start _ e2) as [[err|] e3]; by eexists.
Qed.

Lemma stopInstance_spec id (g : engine E) :
  exists e, (stopInstance id g).2 = set_env e (set_reg (reg_halt id (en_reg g)) g).
Proof. unfold stopInstance, call. destruct (env_stop id (en_env g)) as [err e]. by eexists. Qed.

(** Installing an instance and storing its configuration. *)
Definition reg_install (config : DriverConfig) (id : nat) (r : driverRegistry) : driverRegistry :=
  mkDriverRegistry (<[dc_Name config := id]> (dr_drivers r))
    (<[dc_Name config := config]> (dr_driverConfigs r)) (dr_tagFileWatchers r)
    (<[dc_Name config := tagGroupsOf (dc_Tags config)]> (dr_tagGroups r))
    (dr_running r) (dr_watching r).

Definition reg_watch (w : nat) (tw : tagFileWatcher) (r : driverRegistry) : driverRegistry :=
  mkDriverRegistry (dr_drivers r) (dr_driverConfigs r)
    (<[tw_driver tw := w]> (dr_tagFileWatchers r)) (dr_tagGroups r) (dr_running r)
    (<[w := tw]> (dr_watching r)).

Definition reg_unwatch (name : string) (r : driverRegistry) : driverRegistry :=
  mkDriverRegistry (dr_drivers r) (dr_driverConfigs r) (delete name (dr_tagFileWatchers r))
    (dr_tagGroups r) (dr_running r)
    (match dr_tagFileWatchers r !! name with
     | Some w => delete w (dr_watching r) | None => dr_watching r end).

Definition reg_forget (name : string) (r : driverRegistry) : driverRegistry :=
  mkDriverRegistry (delete name (dr_drivers r)) (delete name (dr_driverConfigs r))
    (dr_tagFileWatchers r) (delete name (dr_tagGroups r))
    (match dr_drivers r !! name with
     | Some id => dr_running r ∖ {[id]} | None => dr_running r end) (dr_watching r).

Lemma reg_inv_mono r n n' : reg_inv r n -> (n <= n')%nat -> reg_inv r n'.
Proof.
  intros [] Hle. constructor; try done.
  - intros id Hid. specialize (ri_next0 id Hid). lia.
  - intros w Hw. specialize (ri_wnext0 w Hw). lia.
Qed.

(** A fresh instance under a name that is not registered. *)
Lemma reg_inv_add config r n :
  reg_inv r n -> dr_drivers r !! dc_Name config = None ->
  reg_inv (reg_install config n (reg_run n r)) (S n).
Proof.
  intros [] Hnone.
  assert (Hfresh : n ∉ dr_running r) by (intros Hn%ri_next0; lia).
  assert (Hnodrv : forall m, dr_drivers r !! m <> Some n).
  { intros m Hm. apply Hfresh, ri_running0. by exists m. }
  assert (Hcfg : dr_driverConfigs r !! dc_Name config = None).
  { apply eq_None_not_Some. rewrite ri_cfg0, Hnone. by intros ?%is_Some_None. }
  constructor; simpl.
  - intros id. rewrite elem_of_union, elem_of_singleton, ri_running0.
    setoid_rewrite lookup_insert_Some. split.
    + intros [->|[m Hm]]; [eauto|]. exists m. right. split; [congruence|done].
    + intros (m & [[_ <-]|[_ Hm]]); eauto.
  - intros m m' id. rewrite !lookup_insert_Some. intros [[<- <-]|[Hm1 Hm2]] [[<- Heq]|[Hm3 Hm4]];
      try done; try (by subst; destruct (Hnodrv _ Hm4)); try (by subst; destruct (Hnodrv _ Hm2)).
    by eapply ri_inj0.
  - intros m. rewrite !lookup_insert_is_Some, ri_cfg0. done.
  - intros m c. rewrite lookup_insert_Some. intros [[<- <-]|[_ Hm]]; [done|]. by apply ri_name0.
  - intros m. destruct (decide (dc_Name config = m)) as [<-|Hne].
    + by rewrite !lookup_insert_eq.
    + by rewrite !lookup_insert_ne, ri_groups0.
  - done.
  - intros m Hm%ri_watch_drv0. rewrite lookup_insert_is_Some'. by right.
  - intros id. rewrite elem_of_union, elem_of_singleton. intros [->|Hid%ri_next0]; lia.
  - intros w Hw%ri_wnext0. lia.
Qed.

(** A watcher for a driver that has none. *)
Lemma reg_inv_watch tw r n :
  reg_inv r n -> is_Some (dr_drivers r !! tw_driver tw) ->
  dr_tagFileWatchers r !! tw_driver tw = None -> reg_inv (reg_watch n tw r) (S n).
Proof.
  intros [] Hdrv Hnone.
  assert (Hfresh : dr_watching r !! n = None).
  { apply eq_None_not_Some. intros Hn%ri_wnext0. lia. }
  assert (Hnow : forall m, dr_tagFileWatchers r !! m <> Some n).
  { intros m Hm. apply ri_watch0 in Hm as (tw' & Htw & _). congruence. }
  constructor; simpl; try done.
  - intros m w. rewrite lookup_insert_Some. setoid_rewrite lookup_insert_Some. split.
    + intros [[<- <-]|[Hne Hm]]; [eauto|]. apply ri_watch0 in Hm as (tw' & Htw & <-).
      exists tw'. split; [|done]. right. split; [congruence|done].
    + intros (tw' & [[<- <-]|[Hne Htw]] & <-); [by left|]. right.
      assert (Hm : dr_tagFileWatchers r !! tw_driver tw' = Some w) by (apply ri_watch0; eauto).
      split; [|done]. congruence.
  - intros m. rewrite lookup_insert_is_Some'. intros [<-|Hm]; [done|by apply ri_watch_drv0].
  - intros id Hid%ri_next0. lia.
  - intros w. rewrite lookup_insert_is_Some'. intros [<-|Hw%ri_wnext0]; lia.
Qed.

Lemma reg_inv_unwatch name r n : reg_inv r n -> reg_inv (reg_unwatch name r) n.
Proof.
  intros []. destruct (dr_tagFileWatchers r !! name) as [w0|] eqn:Hw0; cycle 1.
  { unfold reg_unwatch. rewrite Hw0. constructor; simpl; try done.
    - intros m w. destruct (decide (name = m)) as [<-|Hne];
        [rewrite lookup_delete_eq|by rewrite lookup_delete_ne].
      rewrite <- ri_watch0, Hw0. done.
    - intros m. destruct (decide (name = m)) as [<-|Hne];
        [rewrite lookup_delete_eq; by intros ?%is_Some_None|rewrite lookup_delete_ne by done].
      apply ri_watch_drv0. }
  unfold reg_unwatch. rewrite Hw0. constructor; simpl; try done.
  - intros m w. rewrite lookup_delete_Some. setoid_rewrite lookup_delete_Some. split.
    + intros [Hne Hm]. pose proof Hm as (tw & Htw & Hd)%ri_watch0. exists tw.
      split; [|done]. split; [|done]. intros <-.
      apply ri_watch0 in Hw0 as (tw' & Htw' & Hd'). congruence.
    + intros (tw & [Hne Htw] & <-).
      assert (Hm : dr_tagFileWatchers r !! tw_driver tw = Some w) by (apply ri_watch0; eauto).
      split; [|done]. congruence.
  - intros m. destruct (decide (name = m)) as [<-|Hne];
      [rewrite lookup_delete_eq; by intros ?%is_Some_None|rewrite lookup_delete_ne by done].
    apply ri_watch_drv0.
  - intros w [tw Hw]. apply lookup_delete_Some in Hw as [_ Hw]. apply ri_wnext0. by eexists.
Qed.

Lemma reg_inv_forget name r n :
  reg_inv r n -> dr_tagFileWatchers r !! name = None -> reg_inv (reg_forget name r) n.
Proof.
  intros [] Hnw. unfold reg_forget. constructor; simpl; try done.
  - intros id. setoid_rewrite lookup_delete_Some.
    destruct (dr_drivers r !! name) as [id0|] eqn:Hid0.
    + rewrite elem_of_difference, not_elem_of_singleton, ri_running0. split.
      * intros [[m Hm] Hne]. exists m. split; [congruence|done].
      * intros (m & Hne & Hm). split; [eauto|]. intros ->. by destruct Hne; eapply ri_inj0.
    + rewrite ri_running0. split; [|naive_solver]. intros [m Hm]. exists m.
      split; [congruence|done].
  - intros m m' id. rewrite !lookup_delete_Some. intros [_ H1] [_ H2]. by eapply ri_inj0.
  - intros m. destruct (decide (name = m)) as [<-|Hne].
    + by rewrite !lookup_delete_eq.
    + by rewrite !lookup_delete_ne.
  - intros m c. rewrite lookup_delete_Some. intros [_ Hm]. by apply ri_name0.
  - intros m. destruct (decide (name = m)) as [<-|Hne].
    + by rewrite !lookup_delete_eq.
    + by rewrite !lookup_delete_ne, ri_groups0.
  - intros m Hm. destruct (decide (name = m)) as [<-|Hne];
      [rewrite Hnw in Hm; by apply is_Some_None in Hm|rewrite lookup_delete_ne by done].
    by apply ri_watch_drv0.
  - intros id. destruct (dr_drivers r !! name); [|apply ri_next0].
    rewrite elem_of_difference. intros [? _]. by apply ri_next0.
Qed.

(** Another instance in the place of a registered one. *)
Lemma reg_inv_swap config old r n :
  reg_inv r n -> dr_drivers r !! dc_Name config = Some old ->
  reg_inv (reg_install config n (reg_halt old (reg_run n r))) (S n).
Proof.
  intros [] Hold.
  assert (Hfresh : n ∉ dr_running r) by (intros Hn%ri_next0; lia).
  assert (Hnodrv : forall m, dr_drivers r !! m <> Some n).
  { intros m Hm. apply Hfresh, ri_running0. by exists m. }
  constructor; simpl; try done.
  - intros id. rewrite elem_of_difference, elem_of_union, !elem_of_singleton, ri_running0.
    setoid_rewrite lookup_insert_Some. split.
    + intros [[->|[m Hm]] Hne]; [eauto|]. exists m. right. split; [congruence|done].
    + intros (m & [[_ <-]|[Hne Hm]]).
      * split; [by left|]. intros ->. by destruct (Hnodrv _ Hold).
      * split; [eauto|]. intros ->. by destruct Hne; eapply ri_inj0.
  - intros m m' id. rewrite !lookup_insert_Some. intros [[<- <-]|[Hm1 Hm2]] [[<- Heq]|[Hm3 Hm4]];
      try done; try (by subst; destruct (Hnodrv _ Hm4)); try (by subst; destruct (Hnodrv _ Hm2)).
    by eapply ri_inj0.
  - intros m. rewrite !lookup_insert_is_Some, ri_cfg0. done.
  - intros m c. rewrite lookup_insert_Some. intros [[<- <-]|[_ Hm]]; [done|]. by apply ri_name0.
  - intros m. destruct (decide (dc_Name config = m)) as [<-|Hne].
    + by rewrite !lookup_insert_eq.
    + by rewrite !lookup_insert_ne, ri_groups0.
  - intros m Hm%ri_watch_drv0. rewrite lookup_insert_is_Some'. by right.
  - intros id. rewrite elem_of_difference, elem_of_union, elem_of_singleton.
    intros [[->|Hid%ri_next0] _]; lia.
  - intros w Hw%ri_wnext0. lia.
Qed.

Lemma startTagFileWatcher_eq config (g : engine E) :
  exists e, startTagFileWatcher config g = set_env e g \/
    exists tw, tw_driver tw = dc_Name config /\
      startTagFileWatcher config g =
        set_env e (set_reg (reg_watch (en_next g) tw (en_reg g)) (bump g)).
Proof.
  assert (Hsame : g = set_env (en_env g) g) by (by destruct g).
  unfold startTagFileWatcher. case_decide; [by eauto|].
  destruct (ParseDuration _) as [i|]; [|by eauto]. case_decide; [by eauto|]. unfold call.
  destruct (env_tagsfile _ _) as [[[tags hash]|err] e]; [|by eauto].
  exists e. right. by eexists (mkWatcher _ _ _ _).
Qed.

Lemma stopTagFileWatcher_eq name (g : engine E) :
  stopTagFileWatcher name g = set_reg (reg_unwatch name (en_reg g)) g.
Proof.
  unfold stopTagFileWatcher, reg_unwatch.
  destruct (dr_tagFileWatchers (en_reg g) !! name) as [w|] eqn:Hw; [done|].
  rewrite delete_id by done. by destruct g as [? [] ? ? ? ? ? ? ? ?].
Qed.

Lemma schedule_eq config (g : engine E) :
  exists e s, schedule config g = set_env e (set_sched s g) /\
    (sd_inv (en_sched g) ->
       sd_inv s /\ forall l gr, sd_runners s !! l = Some gr -> g_cancelled gr = false ->
         sd_runners (en_sched g) !! l = Some gr \/
         (st_Driver (g_task gr) = dc_Name config /\
          forall n, n ∈ st_Tags (g_task gr) -> n ∈ tc_Name <$> dc_Tags config)).
Proof.
  unfold schedule.
  pose proof (scheduleDriverTags_spec (en_defaultTagInterval g) (dc_Name config)
    (dr_drivers (en_reg g) !! dc_Name config ≫= env_floor) (dc_Tags config) (en_sched g)
    (mkWorld (en_env g) [] [])) as Hs.
  destruct (scheduleDriverTags _ _ _ _ _ _) as [s w]. exists (w_env w), s. split; [done|]. apply Hs.
Qed.

(** New tasks of a driver, when none of its old ones is live. *)
Lemma tasks_inv_new config r r' s s' :
  tasks_inv r s ->
  (forall l gr, sd_runners s !! l = Some gr -> g_cancelled gr = false ->
     st_Driver (g_task gr) <> dc_Name config) ->
  dr_driverConfigs r' = <[dc_Name config := config]> (dr_driverConfigs r) ->
  (sd_inv s ->
     sd_inv s' /\ forall l gr, sd_runners s' !! l = Some gr -> g_cancelled gr = false ->
       sd_runners s !! l = Some gr \/
       (st_Driver (g_task gr) = dc_Name config /\
        forall n, n ∈ st_Tags (g_task gr) -> n ∈ tc_Name <$> dc_Tags config)) ->
  tasks_inv r' s'.
Proof.
  intros [Hi Ht] Hno Hcfg Hnew. destruct (Hnew Hi) as [Hi' Hn]. split; [done|].
  intros l gr Hg Hc. rewrite Hcfg. destruct (Hn l gr Hg Hc) as [Hold|[Hd Htags]].
  - rewrite lookup_insert_ne by (symmetry; by eapply Hno). by eapply Ht.
  - exists config. by rewrite Hd, lookup_insert_eq.
Qed.

Lemma AddDriver_inv config (g : engine E) :
  mg_inv g -> dr_drivers (en_reg g) !! dc_Name config = None -> mg_inv (AddDriver config g).2.
Proof.
  intros [Hr Ht] Hnone. unfold AddDriver.
  destruct (startInstance_spec config g) as [e He].
  destruct (startInstance config g) as [[id|err] g1]; cbn [fst snd] in *.
  2:{ subst g1. split; simpl; [|done]. eapply reg_inv_mono; [done|lia]. }
  destruct He as [-> ->]. cbn [en_reg set_env set_reg reg_run dr_drivers]. rewrite Hnone.
  match goal with |- context [schedule config ?x] =>
    destruct (schedule_eq config x) as (e1 & s1 & -> & Hs) end.
  assert (Hcfg : dr_driverConfigs (en_reg g) !! dc_Name config = None).
  { apply eq_None_not_Some. rewrite (ri_cfg _ _ Hr), Hnone. by intros ?%is_Some_None. }
  assert (Hinv : mg_inv (storeConfig config (set_env e1 (set_sched s1 (install config (en_next g)
      (set_env e (set_reg (reg_run (en_next g) (en_reg g)) (bump g)))))))).
  { split; simpl; [by apply (reg_inv_add config)|].
    eapply (tasks_inv_new config (en_reg g)); [done| |done|done].
    intros l gr Hl Hc Hd. destruct Ht as [_ Ht]. destruct (Ht l gr Hl Hc) as (c & Hc' & _).
    congruence. }
  match goal with |- context [startTagFileWatcher config ?x] => set (g2 := x) in * end.
  destruct (startTagFileWatcher_eq config g2) as (e2 & [->|(tw & Htw & ->)]); [done|].
  destruct Hinv as [Hr2 Ht2]. split; simpl; [|done].
  apply (reg_inv_watch tw (en_reg g2)); [done| |].
  - rewrite Htw. simpl. rewrite lookup_insert_eq. by eexists.
  - rewrite Htw. simpl. apply eq_None_not_Some. intros Hw%(ri_watch_drv _ _ Hr).
    rewrite Hnone in Hw. by apply is_Some_None in Hw.
Qed.

Lemma RemoveDriver_eq name id (g : engine E) :
  dr_drivers (en_reg g) !! name = Some id ->
  RemoveDriver name g =
    ((env_stop id (en_env g)).1,
     mkEngine (env_stop id (en_env g)).2 (reg_forget name (reg_unwatch name (en_reg g))) (en_tm g)
       (RemoveDriverTasks name (en_sched g)) (DeleteDriver name (en_cache g))
       (delete name (en_pacer g)) (en_defaultTagInterval g) (en_shutdownTimeout g) (en_ctx g)
       (en_next g)).
Proof.
  intros Hid. unfold RemoveDriver. rewrite stopTagFileWatcher_eq.
  cbn [en_reg set_reg reg_unwatch dr_drivers]. rewrite Hid. unfold stopInstance, call, reg_forget.
  cbn [dr_drivers reg_unwatch]. rewrite Hid.
  cbn. by destruct (env_stop id (en_env g)) as [err e].
Qed.

Lemma RemoveDriver_none name (g : engine E) :
  dr_drivers (en_reg g) !! name = None ->
  RemoveDriver name g = (Some (ErrFmt ("driver not found: " +:+ name)),
                         set_reg (reg_unwatch name (en_reg g)) g).
Proof.
  intros Hid. unfold RemoveDriver. rewrite stopTagFileWatcher_eq.
  cbn [en_reg set_reg reg_unwatch dr_drivers]. by rewrite Hid.
Qed.

(** After removing a driver's tasks none of it is live, and the rest is as
    before. *)
Lemma tasks_removed name r s l gr :
  tasks_inv r s -> sd_runners (RemoveDriverTasks name s) !! l = Some gr -> g_cancelled gr = false ->
  st_Driver (g_task gr) <> name /\ sd_runners s !! l = Some gr.
Proof.
  intros [Hi _] Hg Hc. pose proof (RemoveDriverTasks_spec name s l gr Hi Hg) as Hs.
  case_decide; [|done]. destruct Hs as [Hs _]. congruence.
Qed.

Lemma RemoveDriver_inv name (g : engine E) : mg_inv g -> mg_inv (RemoveDriver name g).2.
Proof.
  intros [Hr Ht]. destruct (dr_drivers (en_reg g) !! name) as [id|] eqn:Hid; cycle 1.
  { rewrite RemoveDriver_none by done. split; simpl; [by apply reg_inv_unwatch|done]. }
  rewrite (RemoveDriver_eq name id) by done. split; simpl.
  - apply reg_inv_forget; [by apply reg_inv_unwatch|]. simpl. apply lookup_delete_eq.
  - split; [destruct Ht as [Hi _]; by apply RemoveDriverTasks_inv|].
    intros l gr Hg Hc. destruct (tasks_removed name (en_reg g) _ l gr Ht Hg Hc) as [Hne Hl].
    destruct Ht as [_ Ht]. destruct (Ht l gr Hl Hc) as (c & Hcfg & Htags). exists c.
    simpl. by rewrite lookup_delete_ne.
Qed.

Lemma reloadDriverTags_inv config old (g : engine E) :
  mg_inv g -> dr_drivers (en_reg g) !! dc_Name config = Some old ->
  mg_inv (reloadDriverTags config g).2.
Proof.
  intros [Hr Ht] Hold. unfold reloadDriverTags.
  destruct (startInstance_spec config g) as [e He].
  destruct (startInstance config g) as [[id|err] g1]; cbn [fst snd] in *.
  2:{ subst g1. split; simpl; [|done]. eapply reg_inv_mono; [done|lia]. }
  destruct He as [-> ->]. cbn [en_reg set_env set_reg reg_run dr_drivers]. rewrite Hold.
  match goal with |- context [stopInstance old ?x] =>
    destruct (stopInstance_spec old x) as (e1 & ->) end.
  match goal with |- context [schedule config ?x] =>
    destruct (schedule_eq config x) as (e2 & s2 & -> & Hs) end.
  split; simpl.
  - unfold reg_halt. simpl. rewrite !insert_delete_eq.
    apply (reg_inv_swap config old); done.
  - eapply (tasks_inv_new config (en_reg g) _ (RemoveDriverTasks (dc_Name config) (en_sched g)));
      [| |done|done].
    + split; [destruct Ht as [Hi _]; by apply RemoveDriverTasks_inv|].
      intros l gr Hg Hc. destruct (tasks_removed _ (en_reg g) _ l gr Ht Hg Hc) as [_ Hl].
      destruct Ht as [_ Ht]. by apply (Ht l gr).
    + intros l gr Hg Hc. by destruct (tasks_removed _ (en_reg g) _ l gr Ht Hg Hc).
Qed.

Lemma checkAndReload_inv w (g : engine E) : mg_inv g -> mg_inv (checkAndReload w g).2.
Proof.
  intros Hinv. unfold checkAndReload.
  destruct (dr_watching (en_reg g) !! w) as [tw|] eqn:Hw; [|done]. unfold call.
  destruct (env_tagsfile (tw_path tw) (en_env g)) as [[[tags hash]|err] e]; [|done].
  case_decide; [done|]. cbn [en_reg set_env].
  match goal with |- context [onReload _ _ ?x] => set (g1 := x) end.
  assert (Hinv1 : mg_inv g1).
  { destruct Hinv as [Hr Ht]. split; simpl; [|done]. destruct Hr. constructor; simpl; try done.
    - intros n w'. rewrite ri_watch0. setoid_rewrite lookup_insert_Some. split.
      + intros (tw' & Htw & <-). destruct (decide (w = w')) as [<-|Hne]; [|eauto].
        rewrite Hw in Htw. injection Htw as <-. eauto.
      + intros (tw' & [[<- <-]|[Hne Htw]] & <-); eauto.
    - intros w'. rewrite lookup_insert_is_Some'. intros [<-|?]; apply ri_wnext0; [by eexists|done]. }
  unfold onReload. destruct (dr_driverConfigs (en_reg g1) !! tw_driver tw) as [base|] eqn:Hb; [|done].
  match goal with |- context [reloadDriverTags ?c ?x] => set (cfg := c); set (g2 := x) end.
  destruct Hinv1 as [Hr1 Ht1].
  assert (Hname : dc_Name base = tw_driver tw) by (by eapply ri_name).
  destruct (proj1 (ri_cfg _ _ Hr1 (tw_driver tw))) as [old Hold]; [by eexists|].
  pose proof (reloadDriverTags_inv cfg old g2) as Hre.
  destruct (reloadDriverTags cfg g2) as [[err|] g3]; apply Hre; try done; simpl; by rewrite Hname.
Qed.

(** The operations in any order, interleaved with the scheduler's own steps: a
    driver is added under a name that is not registered (as start-up and
    configuration reloads do), removed, or reloaded by a watcher. *)
Inductive mg_step : engine E -> engine E -> Prop :=
| mg_add g config :
    dr_drivers (en_reg g) !! dc_Name config = None -> mg_step g (AddDriver config g).2
| mg_remove g name : mg_step g (RemoveDriver name g).2
| mg_watch g w : mg_step g (checkAndReload w g).2
| mg_sched g s w w' :
    sd_step (en_sched g, w) (s, w') -> sd_tasks s = sd_tasks (en_sched g) ->
    mg_step g (set_sched s g)
| mg_time g e : mg_step g (set_env e g).

(** A step of the scheduler that leaves its map alone keeps every live task. *)
Lemma sd_step_tasks s s' (w w' : world E) l gr :
  sd_step (s, w) (s', w') -> sd_tasks s' = sd_tasks s -> sd_inv s -> sd_inv s' ->
  sd_runners s' !! l = Some gr -> g_cancelled gr = false ->
  exists gr0, sd_runners s !! l = Some gr0 /\ g_cancelled gr0 = false /\ g_task gr0 = g_task gr.
Proof.
  intros Hstep Htasks Hi Hi' Hg Hc.
  assert (Hmap : sd_tasks s !! st_ID (g_task gr) = Some l).
  { rewrite <- Htasks. apply Hi'. eauto. }
  pose proof Hmap as (gr0 & Hg0 & Hid & Hc0)%Hi. exists gr0. split_and!; try done.
  inversion Hstep; subst; clear Hstep; simpl in Hg; try congruence.
  - rewrite lookup_cancelAll in Hg. case_decide; [|congruence].
    by apply fmap_Some in Hg as (x & Hx & ->).
  - apply (f_equal (fun m => m !! st_ID task)) in Htasks. simpl in Htasks.
    rewrite lookup_insert_eq in Htasks. symmetry in Htasks.
    apply Hi in Htasks as (x & Hx & _). destruct Hi as (_ & _ & Hnext).
    destruct (Nat.lt_irrefl (sd_next s)). apply Hnext. by eexists.
  - rewrite lookup_cancelAll in Hg. case_decide; [|congruence].
    by apply fmap_Some in Hg as (x & Hx & ->).
  - apply lookup_insert_Some in Hg as [[<- <-]|[_ Hg]]; [|congruence].
    unfold g_task at 2. simpl.
    match goal with H : runTick _ _ _ _ = _ |- _ => apply runTick_error in H as (Ht & _) end.
    rewrite Ht. unfold g_task. congruence.
  - apply lookup_insert_Some in Hg as [[<- <-]|[_ Hg]]; [|congruence]. simpl. unfold g_task.
    simpl. congruence.
Qed.

Lemma mg_step_inv (g g' : engine E) : mg_step g g' -> mg_inv g -> mg_inv g'.
Proof.
  intros Hstep Hinv. destruct Hstep as [g config Hn|g name|g w|g s w w' Hs Ht|g e].
  - by apply AddDriver_inv.
  - by apply RemoveDriver_inv.
  - by apply checkAndReload_inv.
  - destruct Hinv as [Hr [Hi Hl]].
    assert (Hi' : sd_inv s) by (by apply (sd_step_inv _ _ Hs)).
    split; [done|]. split; [done|]. intros l gr Hg Hc.
    destruct (sd_step_tasks _ _ _ _ _ _ Hs Ht Hi Hi' Hg Hc) as (gr0 & Hg0 & Hc0 & <-).
    by apply (Hl l).
  - done.
Qed.

(** An engine with no driver. *)
Definition emptyRegistry : driverRegistry := mkDriverRegistry ∅ ∅ ∅ ∅ ∅ ∅.

Lemma emptyRegistry_inv n : reg_inv emptyRegistry n.
Proof.
  constructor; simpl; intros *; rewrite ?lookup_empty; try done;
    try (by intros ?%is_Some_None); set_solver.
Qed.

Lemma mg_reachable_inv (g0 g : engine E) throttle :
  rtc mg_step g0 g -> en_reg g0 = emptyRegistry -> en_sched g0 = NewScheduler throttle ->
  mg_inv g.
Proof.
  intros Hr Hreg Hs. assert (H0 : mg_inv g0).
  { unfold mg_inv. rewrite Hreg, Hs. split; [apply emptyRegistry_inv|]. split.
    - by apply (sd_reachable_inv throttle (mkWorld (en_env g0) [] []) (mkWorld (en_env g0) [] [])),
        rtc_refl.
    - intros l gr. simpl. by rewrite lookup_empty. }
  clear Hreg Hs. induction Hr as [x|x y z Hstep _ IH]; [done|].
  by eapply IH, mg_step_inv.
Qed.

Lemma Get_find c d tag : find_driver c d = None -> Get c d tag = None.
Proof. intros Hf. unfold Get. by rewrite Hf. Qed.

Lemma Get_other c c' d tag : find_driver c d = find_driver c' d -> Get c d tag = Get c' d tag.
Proof. intros Hf. unfold Get. by rewrite Hf. Qed.


(** Removing a registered driver leaves nothing of it:
    no instance, configuration, tag groups, watcher, pacing clock or cached
    value, and no task that is not cancelled -- even when stopping the instance
    fails, which is all that is reported.  Nothing of any other driver changes. *)
Theorem remove_driver_forgets (g0 g g' : engine E) throttle name id err :
  rtc mg_step g0 g -> en_reg g0 = emptyRegistry -> en_sched g0 = NewScheduler throttle ->
  dr_drivers (en_reg g) !! name = Some id ->
  RemoveDriver name g = (err, g') ->
  err = (env_stop id (en_env g)).1 /\
  (dr_drivers (en_reg g') !! name = None /\ dr_driverConfigs (en_reg g') !! name = None /\
   dr_tagGroups (en_reg g') !! name = None /\ dr_tagFileWatchers (en_reg g') !! name = None /\
   id ∉ dr_running (en_reg g') /\
   (forall w tw, dr_watching (en_reg g') !! w = Some tw -> tw_driver tw <> name) /\
   en_pacer g' !! name = None /\ (forall tag, Get (en_cache g') name tag = None) /\
   (forall l gr, sd_runners (en_sched g') !! l = Some gr -> st_Driver (g_task gr) = name ->
      g_cancelled gr = true)) /\
  (forall n, n <> name ->
     dr_drivers (en_reg g') !! n = dr_drivers (en_reg g) !! n /\
     dr_driverConfigs (en_reg g') !! n = dr_driverConfigs (en_reg g) !! n /\
     dr_tagGroups (en_reg g') !! n = dr_tagGroups (en_reg g) !! n /\
     dr_tagFileWatchers (en_reg g') !! n = dr_tagFileWatchers (en_reg g) !! n /\
     en_pacer g' !! n = en_pacer g !! n /\
     (forall tag, Get (en_cache g') n tag = Get (en_cache g) n tag) /\
     (forall l gr, sd_runners (en_sched g') !! l = Some gr -> st_Driver (g_task gr) = n ->
        sd_runners (en_sched g) !! l = Some gr)).
Proof.
  intros Hreach Hreg Hs Hid Hrem. pose proof (mg_reachable_inv _ _ _ Hreach Hreg Hs) as Hinv.
  rewrite (RemoveDriver_eq name id) in Hrem by done. injection Hrem as <- <-.
  pose proof (RemoveDriver_inv name g Hinv) as Hinv'. rewrite (RemoveDriver_eq name id) in Hinv' by done.
  cbn [snd] in Hinv'. set (g' := mkEngine _ _ _ _ _ _ _ _ _ _) in *.
  destruct Hinv as [Hr [Hi _]]. destruct Hinv' as [Hr' _].
  assert (Hnw : dr_tagFileWatchers (en_reg g') !! name = None) by (simpl; apply lookup_delete_eq).
  split; [done|]. split.
  - split_and!; simpl; try apply lookup_delete_eq.
    + rewrite Hid. set_solver.
    + intros w tw Hw <-. assert (dr_tagFileWatchers (en_reg g') !! tw_driver tw = Some w) as Hc.
      { apply (ri_watch _ _ Hr'). eauto. } congruence.
    + intros tag. apply Get_find. rewrite find_delete. by rewrite decide_True.
    + intros l gr Hg Hd. pose proof (RemoveDriverTasks_spec name (en_sched g) l gr Hi Hg) as Hsp.
      rewrite decide_True in Hsp by done. by destruct Hsp.
  - intros n Hne. split_and!; simpl; try (by rewrite lookup_delete_ne).
    + intros tag. apply Get_other. rewrite find_delete. by rewrite decide_False.
    + intros l gr Hg Hd. pose proof (RemoveDriverTasks_spec name (en_sched g) l gr Hi Hg) as Hsp.
      rewrite decide_False in Hsp by congruence. done.
Qed.

End DriverProofs.

(** ** Replacing a driver, and reloading its tags *)

Section Replace.
Context {E : Type} `{!SchedEnv E} `{!ManagerEnv E} `{!GoArch}.

Lemma AddTasks_paused tasks s :
  sd_paused (foldl (fun s task => AddTask task s) s tasks) = sd_paused s.
Proof. revert s. induction tasks as [|t tasks IH]; intros s; [done|]. cbn [foldl]. by rewrite IH. Qed.

Lemma schedule_paused config (g : engine E) :
  sd_paused (en_sched (schedule config g)) = sd_paused (en_sched g).
Proof.
  unfold schedule, scheduleDriverTags. destruct (rangeMap _ _) as [groups w]. simpl.
  apply AddTasks_paused.
Qed.

Lemma startTagFileWatcher_sched config (g : engine E) :
  en_sched (startTagFileWatcher config g) = en_sched g.
Proof. by destruct (startTagFileWatcher_eq config g) as (e & [->|(tw & _ & ->)]). Qed.

(** Adding a driver under the name of a registered one pauses the name in the
    scheduler for the exchange and never resumes it: the new driver is not
    collected until somebody resumes it by hand. *)
Theorem replaced_driver_stays_paused config old (g g' : engine E) :
  dr_drivers (en_reg g) !! dc_Name config = Some old ->
  AddDriver config g = (None, g') -> isPaused (en_sched g') (dc_Name config) = true.
Proof.
  intros Hold. unfold AddDriver. destruct (startInstance_spec config g) as [e He].
  destruct (startInstance config g) as [[id|err] g1]; cbn [fst snd] in *; [|done].
  destruct He as [_ ->]. cbn [en_reg set_env set_reg reg_run dr_drivers]. rewrite Hold.
  match goal with |- context [stopInstance old ?x] =>
    destruct (stopInstance_spec old x) as (e1 & ->) end.
  intros [= <-]. unfold isPaused. rewrite startTagFileWatcher_sched.
  apply orb_true_intro. right. apply bool_decide_eq_true. simpl. rewrite schedule_paused. simpl.
  set_solver.
Qed.

(** A driver paused by an operator is collected again as soon as its tags file
    changes: removing the old tasks also removes the pause. *)
Theorem tag_reload_resumes config old (g g' : engine E) :
  dr_drivers (en_reg g) !! dc_Name config = Some old ->
  reloadDriverTags config g = (None, g') -> dc_Name config ∉ sd_paused (en_sched g').
Proof.
  intros Hold. unfold reloadDriverTags. destruct (startInstance_spec config g) as [e He].
  destruct (startInstance config g) as [[id|err] g1]; cbn [fst snd] in *; [|done].
  destruct He as [_ ->]. cbn [en_reg set_env set_reg reg_run dr_drivers]. rewrite Hold.
  match goal with |- context [stopInstance old ?x] =>
    destruct (stopInstance_spec old x) as (e1 & ->) end.
  intros [= <-]. rewrite schedule_paused. simpl. set_solver.
Qed.

(** Only the tags of the file survive a reload: the tags written in the driver's
    own configuration, which loading the configuration appended to the file's,
    are dropped. *)
Theorem tag_reload_drops_inline driverName newTags (g g' : engine E) base :
  dr_driverConfigs (en_reg g) !! driverName = Some base -> dc_Name base = driverName ->
  onReload driverName newTags g = (None, g') ->
  exists c, dr_driverConfigs (en_reg g') !! driverName = Some c /\ dc_Tags c = newTags.
Proof.
  intros Hb Hn. unfold onReload. rewrite Hb. unfold reloadDriverTags.
  match goal with |- context [startInstance ?c ?x] =>
    destruct (startInstance_spec c x) as [e He]; destruct (startInstance c x) as [[id|err] g1] end;
    cbn [fst snd] in *; [|done].
  destruct He as [_ ->]. match goal with |- context [schedule ?c ?x] =>
    destruct (schedule_eq c x) as (e2 & s2 & -> & _) end.
  intros [= <-]. simpl. rewrite Hn, lookup_insert_eq. by eexists.
Qed.

(** A reload that failed is not tried again: the watcher has already stored the
    hash of the content it could not apply, and a later check of the same
    content does nothing. *)
Theorem failed_reload_not_retried w tw tags hash (g g' : engine E) err e :
  dr_watching (en_reg g) !! w = Some tw ->
  (env_tagsfile (tw_path tw) (en_env g)).1 = inl (tags, hash) -> hash <> tw_hash tw ->
  checkAndReload w g = (Some err, g') ->
  dr_watching (en_reg g') !! w <> None ->
  (env_tagsfile (tw_path tw) e).1 = inl (tags, hash) ->
  exists e', checkAndReload w (set_env e g') = (None, set_env e' g').
Proof.
  intros Hw Hfile Hne Hcheck Hstill Hagain. unfold checkAndReload in Hcheck. rewrite Hw in Hcheck.
  unfold call in Hcheck. destruct (env_tagsfile (tw_path tw) (en_env g)) as [r e1].
  cbn [fst] in Hfile. subst r. rewrite decide_False in Hcheck by done.
  match type of Hcheck with context [onReload ?d ?t ?x] =>
    assert (Hsame : dr_watching (en_reg (onReload d t x).2) = dr_watching (en_reg x));
    [|destruct (onReload d t x) as [[err'|] g2]; [|done]] end.
  { unfold onReload. destruct (dr_driverConfigs _ !! _) as [base|]; [|done].
    match goal with |- context [reloadDriverTags ?c ?x] =>
      assert (Hre : dr_watching (en_reg (reloadDriverTags c x).2) = dr_watching (en_reg x));
      [|destruct (reloadDriverTags c x) as [[err'|] g3]; done] end.
    unfold reloadDriverTags. match goal with |- context [startInstance ?c ?x] =>
      destruct (startInstance_spec c x) as [e0 He]; destruct (startInstance c x) as [[id|err'] g3] end;
      cbn [fst snd] in He; [destruct He as [_ ->]|by subst].
    match goal with |- context [schedule ?c ?x] =>
      destruct (schedule_eq c x) as (e2 & s2 & -> & _) end. simpl.
    destruct (dr_drivers _ !! _) as [old|]; [|done].
    match goal with |- context [stopInstance old ?x] =>
      destruct (stopInstance_spec old x) as (e3 & ->) end. done. }
  injection Hcheck as _ <-. simpl in Hsame. unfold checkAndReload. cbn [en_reg set_env].
  rewrite Hsame, lookup_insert_eq. unfold call. cbn [tw_path en_env set_env].
  destruct (env_tagsfile (tw_path tw) e) as [r e2]. cbn [fst] in Hagain. subst r.
  rewrite decide_True by done. exists e2. done.
Qed.

End Replace.

(** ** The registry of transports stays consistent *)

(** The things that run are exactly those a map of names leads to, each under
    one name. *)
Definition tracked (m : gmap string nat) (running : gset nat) : Prop :=
  (forall id, id ∈ running <-> exists n, m !! n = Some id) /\
  (forall n n' id, m !! n = Some id -> m !! n' = Some id -> n = n').

Lemma tracked_insert m running name id :
  tracked m running -> m !! name = None -> id ∉ running ->
  tracked (<[name := id]> m) ({[id]} ∪ running).
Proof.
  intros [H1 H2] Hn Hid. assert (Hno : forall n, m !! n <> Some id).
  { intros n Hm. apply Hid, H1. eauto. }
  split.
  - intros i. rewrite elem_of_union, elem_of_singleton, H1. setoid_rewrite lookup_insert_Some.
    split; [|naive_solver]. intros [->|[n Hm]]; [eauto|]. exists n. right. split; [congruence|done].
  - intros n n' i. rewrite !lookup_insert_Some. naive_solver.
Qed.

Lemma tracked_delete m running name :
  tracked m running ->
  tracked (delete name m)
    (match m !! name with Some id => running ∖ {[id]} | None => running end).
Proof.
  intros [H1 H2]. split; [|intros n n' i; rewrite !lookup_delete_Some; naive_solver].
  intros i. setoid_rewrite lookup_delete_Some. destruct (m !! name) as [id|] eqn:Hm.
  - rewrite elem_of_difference, not_elem_of_singleton, H1. split.
    + intros [[n Hn] Hne]. exists n. split; [congruence|done].
    + intros (n & Hne & Hn). split; [eauto|]. intros ->. by destruct Hne; eapply H2.
  - rewrite H1. split; [|naive_solver]. intros [n Hn]. exists n. split; [congruence|done].
Qed.

(** The transports that run are those registered, each with its configuration;
    the listeners and batchers that run are those of registered transports. *)
Record tm_inv (t : transportManager) (next : nat) : Prop := {
  ti_running : tracked (tm_transports t) (tm_running t);
  ti_listen : tracked (tm_transportCancels t) (tm_listening t);
  ti_flush : tracked (tm_batchers t) (tm_flushing t);
  ti_cfg n : is_Some (tm_transportCfg t !! n) <-> is_Some (tm_transports t !! n);
  ti_name n c : tm_transportCfg t !! n = Some c -> tp_Name c = n;
  ti_ldom n : is_Some (tm_transportCancels t !! n) -> is_Some (tm_transports t !! n);
  ti_bdom n : is_Some (tm_batchers t !! n) -> is_Some (tm_transports t !! n);
  ti_next i : i ∈ tm_running t ∪ tm_listening t ∪ tm_flushing t -> (i < next)%nat;
}.

Section TransportProofs.
Context {E : Type} `{!ManagerEnv E} `{!GoArch}.

Definition tm_run (id : nat) (t : transportManager) : transportManager :=
  mkTransportManager (tm_transports t) (tm_transportCfg t) (tm_batchers t)
    (tm_transportCancels t) (tm_offline t) ({[id]} ∪ tm_running t) (tm_listening t) (tm_flushing t).

(** A transport gone from the maps, with its listeners, batcher and instance. *)
Definition tm_drop (name : string) (t : transportManager) : transportManager :=
  mkTransportManager (delete name (tm_transports t)) (delete name (tm_transportCfg t))
    (delete name (tm_batchers t)) (delete name (tm_transportCancels t)) (tm_offline t)
    (match tm_transports t !! name with Some i => tm_running t ∖ {[i]} | None => tm_running t end)
    (match tm_transportCancels t !! name with
     | Some c => tm_listening t ∖ {[c]} | None => tm_listening t end)
    (match tm_batchers t !! name with
     | Some b => tm_flushing t ∖ {[b]} | None => tm_flushing t end).

Lemma startTransport_spec config (g : engine E) :
  exists e, match (startTransport config g).1 with
  | inl id => id = en_next g /\
      (startTransport config g).2 = set_env e (set_tm (tm_run id (en_tm g)) (bump g))
  | inr _ => (startTransport config g).2 = set_env e (bump g)
  end.
Proof.
  unfold startTransport, call. cbn [en_env bump].
  destruct (env_tcreate config _) as [[err|] e1]; [by eexists|]. cbn [en_env set_env].
  destruct (env_tinit _ config e1) as [[err|] e2]; [by eexists|]. cbn [en_env set_env].
  destruct (env_tstart _ e2) as [[err|] e3]; by eexists.
Qed.

Lemma tm_inv_mono t n n' : tm_inv t n -> (n <= n')%nat -> tm_inv t n'.
Proof. intros [] Hle. constructor; try done. intros i Hi. specialize (ti_next0 i Hi). lia. Qed.

Lemma tm_inv_drop name t n : tm_inv t n -> tm_inv (tm_drop name t) n.
Proof.
  intros []. constructor; simpl; try by apply tracked_delete.
  - intros m. destruct (decide (name = m)) as [<-|Hne].
    + by rewrite !lookup_delete_eq.
    + by rewrite !lookup_delete_ne.
  - intros m c. rewrite lookup_delete_Some. intros [_ ?]. by apply ti_name0.
  - intros m. destruct (decide (name = m)) as [<-|Hne];
      [rewrite lookup_delete_eq; by intros ?%is_Some_None|rewrite !lookup_delete_ne by done; auto].
  - intros m. destruct (decide (name = m)) as [<-|Hne];
      [rewrite lookup_delete_eq; by intros ?%is_Some_None|rewrite !lookup_delete_ne by done; auto].
  - intros i Hi. apply ti_next0.
    destruct (tm_transports t !! name), (tm_transportCancels t !! name), (tm_batchers t !! name);
      set_solver.
Qed.

(** What [attach] does to a manager without the name, after its instance
    started. *)
Lemma attach_inv config (g : engine E) n e :
  tm_inv (en_tm g) n -> (n <= en_next g)%nat -> tm_transports (en_tm g) !! tp_Name config = None ->
  tm_inv (en_tm (attach config (en_next g) (set_env e (set_tm (tm_run (en_next g) (en_tm g)) (bump g)))))
    (S (S (S (en_next g)))).
Proof.
  intros [] Hle Hnone.
  assert (Hi : forall i, (n <= i)%nat ->
    i ∉ tm_running (en_tm g) /\ i ∉ tm_listening (en_tm g) /\ i ∉ tm_flushing (en_tm g)).
  { intros i Hi. split_and!; intros Hin; assert (i < n)%nat by (apply ti_next0; set_solver); lia. }
  assert (Hnl : tm_transportCancels (en_tm g) !! tp_Name config = None).
  { apply eq_None_not_Some. intros Hs%ti_ldom0. rewrite Hnone in Hs. by apply is_Some_None in Hs. }
  assert (Hnb : tm_batchers (en_tm g) !! tp_Name config = None).
  { apply eq_None_not_Some. intros Hs%ti_bdom0. rewrite Hnone in Hs. by apply is_Some_None in Hs. }
  unfold attach. simpl. constructor; simpl.
  - apply tracked_insert; [done|done|]. apply (Hi (en_next g)). lia.
  - destruct (en_ctx g); [|done]. apply tracked_insert; [done|done|]. apply Hi. lia.
  - destruct (newTransportBatcher _ _ _); [|done]. apply tracked_insert; [done|done|]. apply Hi. lia.
  - intros m. rewrite !lookup_insert_is_Some, ti_cfg0. done.
  - intros m c. rewrite lookup_insert_Some. intros [[<- <-]|[_ ?]]; [done|by apply ti_name0].
  - intros m. rewrite lookup_insert_is_Some'. destruct (en_ctx g); [|by right; apply ti_ldom0].
    rewrite lookup_insert_is_Some'. intros [?|?]; [by left|right; by apply ti_ldom0].
  - intros m. rewrite lookup_insert_is_Some'.
    destruct (newTransportBatcher _ _ _); [|by right; apply ti_bdom0].
    rewrite lookup_insert_is_Some'. intros [?|?]; [by left|right; by apply ti_bdom0].
  - intros i Hin.
    assert (Hcase : i = en_next g \/ i = S (en_next g) \/ i = S (S (en_next g)) \/
      i ∈ tm_running (en_tm g) ∪ tm_listening (en_tm g) ∪ tm_flushing (en_tm g)).
    { destruct (en_ctx g), (newTransportBatcher _ _ _); set_solver. }
    destruct Hcase as [->|[->|[->|Hold]]]; [lia..|]. specialize (ti_next0 i Hold). lia.
Qed.

Lemma AddTransport_inv config (g : engine E) :
  tm_inv (en_tm g) (en_next g) ->
  tm_inv (en_tm (AddTransport config g).2) (en_next (AddTransport config g).2).
Proof.
  intros Hinv. unfold AddTransport. destruct (startTransport_spec config g) as [e He].
  destruct (startTransport config g) as [[id|err] g1]; cbn [fst snd] in *.
  2:{ subst g1. simpl. eapply tm_inv_mono; [done|lia]. }
  destruct He as [-> ->]. cbn [en_tm set_env set_tm tm_run tm_transports].
  destruct (tm_transports (en_tm g) !! tp_Name config) as [old|] eqn:Hold; cycle 1.
  { by apply (attach_inv config g (en_next g)). }
  assert (Hne : old <> en_next g).
  { intros ->. destruct (Nat.lt_irrefl (en_next g)). apply (ti_next _ _ Hinv).
    apply elem_of_union_l, elem_of_union_l, (ti_running _ _ Hinv). eauto. }
  pose proof (attach_inv config (set_tm (tm_drop (tp_Name config) (en_tm g)) g) (en_next g) e) as Ha.
  unfold stopTransport, call. destruct (env_tstop old _) as [err e1]. cbn [snd].
  match goal with |- tm_inv (en_tm ?x) _ => set (g' := x) end.
  assert (Heq : en_tm g' = en_tm (attach config (en_next g) (set_env e (set_tm (tm_run (en_next g)
    (tm_drop (tp_Name config) (en_tm g))) (bump (set_tm (tm_drop (tp_Name config) (en_tm g)) g)))))).
  { unfold g', attach. simpl. rewrite Hold. f_equal; [by rewrite insert_delete_eq|set_solver]. }
  rewrite Heq. apply Ha; [by apply tm_inv_drop|done|]. simpl. apply lookup_delete_eq.
Qed.

Lemma RemoveTransport_eq name id (g : engine E) :
  tm_transports (en_tm g) !! name = Some id ->
  RemoveTransport name g =
    ((env_tstop id (en_env g)).1,
     set_env (env_tstop id (en_env g)).2 (set_tm (tm_drop name (en_tm g)) g)).
Proof.
  intros Hid. unfold RemoveTransport. rewrite Hid. unfold stopTransport, call, detach, tm_drop.
  simpl. rewrite Hid. by destruct (env_tstop id (en_env g)) as [err e].
Qed.

(** Transports added (replacing one of the same name or not) and removed, in any
    order. *)
Inductive tm_step : engine E -> engine E -> Prop :=
| tm_add g config : tm_step g (AddTransport config g).2
| tm_remove g name : tm_step g (RemoveTransport name g).2
| tm_time g e : tm_step g (set_env e g).

Lemma tm_step_inv (g g' : engine E) :
  tm_step g g' -> tm_inv (en_tm g) (en_next g) -> tm_inv (en_tm g') (en_next g').
Proof.
  intros Hstep Hinv. destruct Hstep as [g config|g name|g e]; [by apply AddTransport_inv| |done].
  destruct (tm_transports (en_tm g) !! name) as [id|] eqn:Hid.
  - rewrite (RemoveTransport_eq name id) by done. simpl. by apply tm_inv_drop.
  - unfold RemoveTransport. by rewrite Hid.
Qed.

Definition emptyTransports (offline : bool) : transportManager :=
  mkTransportManager ∅ ∅ ∅ ∅ offline ∅ ∅ ∅.

Lemma emptyTransports_inv offline n : tm_inv (emptyTransports offline) n.
Proof.
  assert (Ht : tracked ∅ ∅) by (split; intros *; rewrite ?lookup_empty; set_solver).
  constructor; simpl; try done; intros *; rewrite ?lookup_empty; try done; set_solver.
Qed.

(** Whatever transports are added, replaced and
    removed, and whatever fails: the transports that run are exactly the
    registered ones, each with its configuration; the command and data listeners
    and the batchers that run are exactly those of registered transports.  So a
    removed transport leaves no listener and no batcher behind: after
    [RemoveTransport] of a registered transport its name is in no map and its
    instance, listeners and batcher are among those that run no longer. *)
Theorem transport_registry_consistent (g0 g : engine E) offline :
  rtc tm_step g0 g -> en_tm g0 = emptyTransports offline ->
  tm_inv (en_tm g) (en_next g) /\
  (forall name id, tm_transports (en_tm g) !! name = Some id ->
     RemoveTransport name g =
       ((env_tstop id (en_env g)).1,
        set_env (env_tstop id (en_env g)).2 (set_tm (tm_drop name (en_tm g)) g)) /\
     id ∉ tm_running (tm_drop name (en_tm g)) /\
     (forall c, tm_transportCancels (en_tm g) !! name = Some c ->
        c ∉ tm_listening (tm_drop name (en_tm g))) /\
     (forall b, tm_batchers (en_tm g) !! name = Some b ->
        b ∉ tm_flushing (tm_drop name (en_tm g)))).
Proof.
  intros Hr Hempty. assert (Hinv : tm_inv (en_tm g) (en_next g)).
  { assert (H0 : tm_inv (en_tm g0) (en_next g0)) by (rewrite Hempty; apply emptyTransports_inv).
    clear Hempty. induction Hr as [x|x y z Hstep _ IH]; [done|]. by eapply IH, tm_step_inv. }
  split; [done|]. intros name id Hid. split; [by apply RemoveTransport_eq|]. simpl. rewrite Hid.
  split_and!; [set_solver| |]; intros x Hx; rewrite Hx; set_solver.
Qed.

End TransportProofs.

(** ** Examples *)
Module Demo.

(** Everything succeeds, except stopping while the flag of the environment is
    down; a tags file that does not change. *)
#[global] Instance env : ManagerEnv (Z * bool) := {|
  env_create := fun _ e => (None, e);
  env_init := fun _ _ e => (None, e);
  env_start := fun _ e => (None, e);
  env_stop := fun _ (e : Z * bool) => (if e.2 then None else Some (ErrFmt "timeout"), e);
  env_floor := fun _ => None;
  env_tagsfile := fun _ e => (inl ([], EmptyString), e);
  env_tcreate := fun _ e => (None, e);
  env_tinit := fun _ _ e => (None, e);
  env_tstart := fun _ e => (None, e);
  env_tstop := fun _ (e : Z * bool) => (if e.2 then None else Some (ErrFmt "timeout"), e);
|}.

Definition config : DriverConfig :=
  mkDriverConfig "plc" "modbus-tcp" ∅ Scheduler.Demo.tags "tags.yaml" "30s".

Definition transport : TransportConfig := mkTransportConfig "mqtt" "mqtt" ∅ 10 "1s" 3 0 "".

Definition empty : engine (Z * bool) :=
  mkEngine (0, false) emptyRegistry (emptyTransports false) (NewScheduler 0) NewLatestCache ∅
    second (30 * second) true 0.

Definition one : engine (Z * bool) := (AddDriver (H := amd64_f2i) config empty).2.

Definition one_transport : engine (Z * bool) := (AddTransport (H := amd64_f2i) transport empty).2.

End Demo.


Lemma remove_driver_forgets_witness :
  (RemoveDriver "plc" Demo.one).1 = Some (ErrFmt "timeout") /\
  dr_drivers (en_reg (RemoveDriver "plc" Demo.one).2) !! "plc"%string = None /\
  dr_running (en_reg (RemoveDriver "plc" Demo.one).2) = ∅.
Proof.
  destruct (remove_driver_forgets (H := amd64_f2i) Demo.empty Demo.one
              (RemoveDriver "plc" Demo.one).2 0 "plc" 0 (RemoveDriver "plc" Demo.one).1)
    as (_ & (Hd & _) & _).
  - apply rtc_once. unfold Demo.one. apply (mg_add Demo.empty Demo.config). reflexivity.
  - reflexivity.
  - reflexivity.
  - vm_compute. reflexivity.
  - apply surjective_pairing.
  - split; [vm_compute; reflexivity|]. split; [exact Hd|]. vm_compute. reflexivity.
Defined.

Lemma transport_registry_consistent_witness :
  tm_transports (en_tm Demo.one_transport) !! "mqtt"%string = Some 0%nat /\
  tm_inv (en_tm Demo.one_transport) (en_next Demo.one_transport).
Proof.
  split; [vm_compute; reflexivity|].
  destruct (transport_registry_consistent (H := amd64_f2i) Demo.empty Demo.one_transport false)
    as [Hinv _].
  - apply rtc_once. unfold Demo.one_transport. apply (tm_add Demo.empty Demo.transport).
  - reflexivity.
  - exact Hinv.
Defined.
