(* ===== verification/Processing.v ===== *)
(** * The processing pipeline ([engine/processing.go], [rule/arith.go], and the
    data callbacks of [engine/lifecycle_support.go] and [engine/transport_manager.go])

    What happens to a data point between the bus and the transports: the
    bad-quality policy, the cache, the subscribers, the rules and their actions,
    the fan-out to targets with their fallbacks.  The file composes the cache, the
    bus, the rule engine, the alert registry and the transport registry. *)

From Stdlib Require Import ZArith Lia String.
From stdpp Require Import base list gmap strings.
From S2P Require Import Prelude GoFloat GoTime Types Util RuleEngine Cache DataBus Alerts.
From S2P Require Import Scheduler Config Manager.

Open Scope Z_scope.

(** ** Arithmetic transforms *)

(** [expr-lang/expr] on arithmetic expressions. *)
Class ArithLib (aprog : Type) := {
  ar_compile : string -> aprog + error;
  ar_run : aprog -> float -> Value + error;
}.

Section Arith.
Context {aprog : Type} `{!ArithLib aprog}.

(** What is left to do with the result of a program.  The errors are only
    logged; their texts stop before the printed value. *)
Definition arithResult (exprStr : string) (r : Value + error) : float + error :=
  match r with
  | inr e => inr (ErrWrap ("eval arithmetic expression " +:+ quote exprStr +:+ ": ") e "")
  | inl (VFloat64 f) =>
    if f_finite f then inl f
    else inr (ErrFmt ("expression " +:+ quote exprStr +:+ " produced an invalid result"))
  | inl _ => inr (ErrFmt ("expression " +:+ quote exprStr +:+ " did not produce a float64"))
  end.

(** [EvalArith] with its cache of compiled programs. *)
Definition EvalArith (exprStr : string) (value : float) (cache : gmap string aprog)
  : (float + error) * gmap string aprog :=
  if decide (TrimSpace exprStr = EmptyString) then (inr (ErrFmt "empty expression"), cache)
  else
    match cache !! exprStr with
    | Some program => (arithResult exprStr (ar_run program value), cache)
    | None =>
      match ar_compile exprStr with
      | inr e => (inr (ErrWrap ("compile arithmetic expression " +:+ quote exprStr +:+ ": ") e ""), cache)
      | inl program =>
        (arithResult exprStr (ar_run program value), <[exprStr := program]> cache)
      end
    end.

(** The cache holds what compiling gives. *)
Definition arith_cache_ok (cache : gmap string aprog) : Prop :=
  forall s p, cache !! s = Some p -> ar_compile s = inl p.

Lemma EvalArith_cached s v cache :
  arith_cache_ok cache ->
  (EvalArith s v cache).1 = (EvalArith s v ∅).1 /\ arith_cache_ok (EvalArith s v cache).2.
Proof.
  intros Hok. unfold EvalArith. rewrite lookup_empty. case_decide; [done|].
  destruct (cache !! s) as [p|] eqn:Hc; [by rewrite (Hok _ _ Hc)|].
  destruct (ar_compile s) as [p|e] eqn:Hp; [|done]. split; [done|].
  intros s' p'. simpl. destruct (decide (s = s')) as [<-|Hne];
    [rewrite lookup_insert_eq; congruence|rewrite lookup_insert_ne by done; apply Hok].
Qed.

Lemma EvalArith_finite s v cache f : (EvalArith s v cache).1 = inl f -> f_finite f = true.
Proof.
  unfold EvalArith, arithResult. case_decide; [done|].
  destruct (cache !! s); [|destruct (ar_compile s); [|done]]; simpl;
    destruct (ar_run _ _) as [[]|]; try done; destruct (f_finite _) eqn:E; try done; by intros [= <-].
Qed.

(** *** [applyTransform] *)

Definition with_value (v : Value) (tag : string) (p : DataPoint) : DataPoint :=
  mkDataPoint (dp_Driver p) (dp_Device p) (dp_Group p) tag v (dp_Type p) (dp_Quality p)
    (dp_Timestamp p) (dp_Metadata p) (dp_IsStale p).

Definition applyTransform (point : DataPoint) (tc : option TransformConfig) (cache : gmap string aprog)
  : DataPoint * gmap string aprog :=
  match tc with
  | None => (point, cache)
  | Some tc =>
    if decide (tr_Expression tc = EmptyString) then (point, cache)
    else
      match ToFloat64OK (dp_Value point) with
      | (_, false) => (point, cache)
      | (raw, true) =>
        match EvalArith (tr_Expression tc) raw cache with
        | (inr _, cache) => (point, cache)
        | (inl result, cache) =>
          (with_value (VFloat64 result)
             (if decide (tr_TagRename tc = EmptyString) then dp_Tag point else tr_TagRename tc) point,
           cache)
        end
      end
  end.

End Arith.

Definition pointWithRule (point : DataPoint) (ruleName : string) : DataPoint :=
  mkDataPoint (dp_Driver point) (dp_Device point) (dp_Group point) (dp_Tag point) (dp_Value point)
    (dp_Type point) (dp_Quality point) (dp_Timestamp point)
    (<["rule"%string := ruleName]> (dp_Metadata point)) (dp_IsStale point).

(** ** The pipeline's state *)

Inductive badQualityPolicy :=
  badQualityPublish | badQualityDrop | badQualityMarkAndPublish | badQualityAlert.

#[export] Instance badQualityPolicy_eq_dec : EqDecision badQualityPolicy.
Proof. solve_decision. Defined.

Definition parseBadQualityPolicy (s : string) : badQualityPolicy + error :=
  let l := to_lower s in
  if decide (l = EmptyString \/ l = "publish"%string) then inl badQualityPublish
  else if decide (l = "drop"%string) then inl badQualityDrop
  else if decide (l = "mark-and-publish"%string) then inl badQualityMarkAndPublish
  else if decide (l = "alert"%string) then inl badQualityAlert
  else inr (ErrFmt ("invalid on-bad-quality " +:+ quote s +:+ " (want publish|drop|mark-and-publish|alert)")).

(** The transports and batchers behind their interfaces, the clock, and the
    orders Go leaves open: of the driver index and of the unstable sort of
    alerts. *)
Class PipelineEnv (E : Type) := {
  pe_publish : nat -> DataPoint -> E -> option error * E;  (* Transport.Publish *)
  pe_enqueue : nat -> DataPoint -> E -> option error * E;  (* transportBatcher.publish *)
  pe_now : E -> Z * E;
  pe_ruleNow : E -> nat -> Z;
  pe_subNow : E -> nat -> nat -> Z;
  pe_order : E -> list string;
  pe_subOrder : E -> nat -> list string;
  pe_byLastFired : gmap string Alert -> list Alert;
}.

(** One attempt to hand a point to a target: its name, whether through its
    batcher, the point and whether it was taken. *)
Record delivery := mkDelivery {
  dl_name : string;
  dl_batched : bool;
  dl_point : DataPoint;
  dl_ok : bool;
}.

(** [processingCore] with the counters of [statsCollector] it moves.
    [pr_deliveries] and [pr_alerted] are history: the attempts to publish, and
    the alerts fired with the name of their rule. *)
Record pipeline (E prog aprog : Type) := mkPipeline {
  pr_env : E;
  pr_bus : DataBus;
  pr_cache : LatestCache;
  pr_alerts : option alertManager;
  pr_policy : badQualityPolicy;
  pr_rules : RuleSystem (prog := prog);
  pr_arith : gmap string aprog;
  pr_tm : transportManager;
  pr_totalRead : Z;
  pr_totalPublish : Z;
  pr_totalErrors : Z;
  pr_badQualityDropped : Z;
  pr_deliveries : list delivery;
  pr_alerted : list (DataPoint * string);
}.
Arguments mkPipeline {E prog aprog} _ _ _ _ _ _ _ _ _ _ _ _ _ _.
Arguments pr_env {E prog aprog} _.
Arguments pr_bus {E prog aprog} _.
Arguments pr_cache {E prog aprog} _.
Arguments pr_alerts {E prog aprog} _.
Arguments pr_policy {E prog aprog} _.
Arguments pr_rules {E prog aprog} _.
Arguments pr_arith {E prog aprog} _.
Arguments pr_tm {E prog aprog} _.
Arguments pr_totalRead {E prog aprog} _.
Arguments pr_totalPublish {E prog aprog} _.
Arguments pr_totalErrors {E prog aprog} _.
Arguments pr_badQualityDropped {E prog aprog} _.
Arguments pr_deliveries {E prog aprog} _.
Arguments pr_alerted {E prog aprog} _.

Section Pipeline.
Context {E prog aprog : Type} `{!PipelineEnv E} `{!ExprLib prog} `{!ArithLib aprog}.
Notation pipeline := (pipeline E prog aprog).
Implicit Types x : pipeline.

Definition set_env (e : E) x : pipeline :=
  mkPipeline e (pr_bus x) (pr_cache x) (pr_alerts x) (pr_policy x) (pr_rules x) (pr_arith x) (pr_tm x)
    (pr_totalRead x) (pr_totalPublish x) (pr_totalErrors x) (pr_badQualityDropped x)
    (pr_deliveries x) (pr_alerted x).
Definition set_bus (b : DataBus) x : pipeline :=
  mkPipeline (pr_env x) b (pr_cache x) (pr_alerts x) (pr_policy x) (pr_rules x) (pr_arith x) (pr_tm x)
    (pr_totalRead x) (pr_totalPublish x) (pr_totalErrors x) (pr_badQualityDropped x)
    (pr_deliveries x) (pr_alerted x).
Definition set_cache (c : LatestCache) x : pipeline :=
  mkPipeline (pr_env x) (pr_bus x) c (pr_alerts x) (pr_policy x) (pr_rules x) (pr_arith x) (pr_tm x)
    (pr_totalRead x) (pr_totalPublish x) (pr_totalErrors x) (pr_badQualityDropped x)
    (pr_deliveries x) (pr_alerted x).
Definition set_alerts (a : option alertManager) (fired : list (DataPoint * string)) x : pipeline :=
  mkPipeline (pr_env x) (pr_bus x) (pr_cache x) a (pr_policy x) (pr_rules x) (pr_arith x) (pr_tm x)
    (pr_totalRead x) (pr_totalPublish x) (pr_totalErrors x) (pr_badQualityDropped x)
    (pr_deliveries x) fired.
Definition set_rules (y : RuleSystem (prog := prog)) x : pipeline :=
  mkPipeline (pr_env x) (pr_bus x) (pr_cache x) (pr_alerts x) (pr_policy x) y (pr_arith x) (pr_tm x)
    (pr_totalRead x) (pr_totalPublish x) (pr_totalErrors x) (pr_badQualityDropped x)
    (pr_deliveries x) (pr_alerted x).
Definition set_arith (c : gmap string aprog) x : pipeline :=
  mkPipeline (pr_env x) (pr_bus x) (pr_cache x) (pr_alerts x) (pr_policy x) (pr_rules x) c (pr_tm x)
    (pr_totalRead x) (pr_totalPublish x) (pr_totalErrors x) (pr_badQualityDropped x)
    (pr_deliveries x) (pr_alerted x).

(** The atomic counters, and the history of deliveries. *)
Definition addRead (n : Z) x : pipeline :=
  mkPipeline (pr_env x) (pr_bus x) (pr_cache x) (pr_alerts x) (pr_policy x) (pr_rules x) (pr_arith x)
    (pr_tm x) (u64 (pr_totalRead x + n)) (pr_totalPublish x) (pr_totalErrors x) (pr_badQualityDropped x)
    (pr_deliveries x) (pr_alerted x).
Definition addPublish (n : Z) x : pipeline :=
  mkPipeline (pr_env x) (pr_bus x) (pr_cache x) (pr_alerts x) (pr_policy x) (pr_rules x) (pr_arith x)
    (pr_tm x) (pr_totalRead x) (u64 (pr_totalPublish x + n)) (pr_totalErrors x) (pr_badQualityDropped x)
    (pr_deliveries x) (pr_alerted x).
Definition addErrors (n : Z) x : pipeline :=
  mkPipeline (pr_env x) (pr_bus x) (pr_cache x) (pr_alerts x) (pr_policy x) (pr_rules x) (pr_arith x)
    (pr_tm x) (pr_totalRead x) (pr_totalPublish x) (u64 (pr_totalErrors x + n)) (pr_badQualityDropped x)
    (pr_deliveries x) (pr_alerted x).
Definition recordBadQualityDrop x : pipeline :=
  mkPipeline (pr_env x) (pr_bus x) (pr_cache x) (pr_alerts x) (pr_policy x) (pr_rules x) (pr_arith x)
    (pr_tm x) (pr_totalRead x) (pr_totalPublish x) (pr_totalErrors x) (u64 (pr_badQualityDropped x + 1))
    (pr_deliveries x) (pr_alerted x).
Definition log (d : delivery) x : pipeline :=
  mkPipeline (pr_env x) (pr_bus x) (pr_cache x) (pr_alerts x) (pr_policy x) (pr_rules x) (pr_arith x)
    (pr_tm x) (pr_totalRead x) (pr_totalPublish x) (pr_totalErrors x) (pr_badQualityDropped x)
    (pr_deliveries x ++ [d]) (pr_alerted x).

(** [publishTargetEntry]: the transport and the batcher it may have. *)
Record publishTargetEntry := mkEntry {
  te_name : string;
  te_transport : nat;
  te_batcher : option nat;
}.

Definition entryOf (tm : transportManager) (name : string) : option publishTargetEntry :=
  match tm_transports tm !! name with
  | Some id => Some (mkEntry name id (tm_batchers tm !! name))
  | None => None
  end.

(** The fallback entry of a target, if its configuration names a registered
    transport. *)
Definition fallbackOf (tm : transportManager) (name : string) : option publishTargetEntry :=
  match tm_transportCfg tm !! name with
  | Some cfg => if decide (tp_Fallback cfg = EmptyString) then None else entryOf tm (tp_Fallback cfg)
  | None => None
  end.

(** One attempt: through the batcher if there is one, which counts its
    publishes itself, and else directly. *)
Definition attempt (entry : publishTargetEntry) (point : DataPoint) x : bool * pipeline :=
  match te_batcher entry with
  | Some b =>
    let '(err, e) := pe_enqueue b point (pr_env x) in
    match err with
    | Some _ => (false, addErrors 1 (log (mkDelivery (te_name entry) true point false) (set_env e x)))
    | None => (true, log (mkDelivery (te_name entry) true point true) (set_env e x))
    end
  | None =>
    let '(err, e) := pe_publish (te_transport entry) point (pr_env x) in
    match err with
    | Some _ => (false, addErrors 1 (log (mkDelivery (te_name entry) false point false) (set_env e x)))
    | None => (true, addPublish 1 (log (mkDelivery (te_name entry) false point true) (set_env e x)))
    end
  end.

(** [tryFallback]. *)
Definition tryFallback (point : DataPoint) (primaryName : string)
    (fallbacks : gmap string publishTargetEntry) x : pipeline :=
  match fallbacks !! primaryName with
  | None => x
  | Some fb => (attempt fb point x).2
  end.

(** The two snapshots [publishToTargets] takes under the lock. *)
Definition snapshotTargets (tm : transportManager) (targets : list string) : list publishTargetEntry :=
  omap (entryOf tm) targets.

Definition snapshotFallbacks (tm : transportManager) (entries : list publishTargetEntry)
  : gmap string publishTargetEntry :=
  foldl (fun m e => match fallbackOf tm (te_name e) with
                    | Some fb => <[te_name e := fb]> m
                    | None => m
                    end) ∅ entries.

Definition missingTargets (tm : transportManager) (targets : list string) : Z :=
  Z.of_nat (length (filter (fun n => entryOf tm n = None) targets)).

Definition publishOne (point : DataPoint) (fallbacks : gmap string publishTargetEntry) x
    (entry : publishTargetEntry) : pipeline :=
  let '(ok, x) := attempt entry point x in
  if ok then x else tryFallback point (te_name entry) fallbacks x.

Definition publishToTargets (point : DataPoint) (targets : list string) x : pipeline :=
  let snapshot := snapshotTargets (pr_tm x) targets in
  let fallbacks := snapshotFallbacks (pr_tm x) snapshot in
  let x := addErrors (missingTargets (pr_tm x) targets) x in
  foldl (publishOne point fallbacks) x snapshot.

(** [fireAlert]: the registry first, then the handlers. *)
Definition fireAlert (point : DataPoint) (rule : string) x : pipeline :=
  let fired := pr_alerted x ++ [(point, rule)] in
  match pr_alerts x with
  | None => set_alerts None fired x
  | Some am =>
    let '(now, e) := pe_now (pr_env x) in
    let am := record rule point now (pe_byLastFired (fired_active rule point now am)) am in
    set_alerts (Some am) fired (set_env e x)
  end.

(** The rule a match result refers to: its name and action. *)
Definition resultRule (rules : list (ruleWrapper prog)) (r : MatchResult) : string * Action :=
  match rules !! mr_rule r with
  | Some w => (r_name (w_rule w), r_action (w_rule w))
  | None => (EmptyString, ActionDrop)
  end.

(** The action loop of [processPoint]. *)
Fixpoint runActions (policyAlerted : bool) (rules : list (ruleWrapper prog)) (results : list MatchResult)
    (point : DataPoint) x : pipeline :=
  match results with
  | [] => x
  | result :: rest =>
    let '(ruleName, action) := resultRule rules result in
    match action with
    | ActionDrop => x
    | ActionAlert =>
      let x := if policyAlerted then x else fireAlert point ruleName x in
      runActions policyAlerted rules rest point
        (publishToTargets (pointWithRule point ruleName) (mr_targets result) x)
    | ActionTransform =>
      let '(point, cache) := applyTransform point (mr_transform result) (pr_arith x) in
      runActions policyAlerted rules rest point
        (publishToTargets (pointWithRule point ruleName) (mr_targets result) (set_arith cache x))
    | ActionForward | ActionMirror =>
      runActions policyAlerted rules rest point
        (publishToTargets (pointWithRule point ruleName) (mr_targets result) x)
    end
  end.

(** [Match] of the active rule set, with its sub-engines. *)
Definition matchRules (point : DataPoint) x : list MatchResult * pipeline :=
  let e := pr_env x in
  let y := pr_rules x in
  let '(top, heap, rs) :=
    Match (kmatch_top (rs_providers y) (pe_subNow e) (pe_subOrder e)) (pe_ruleNow e) (pe_order e)
      (rs_top y) point (rs_heap y) in
  (rs, set_rules (mkSystem top (rs_providers y) (rs_subs y) heap) x).

(** The bad-quality policy: whether the point is discarded, the point and
    whether the policy fired its alert. *)
Definition applyPolicy (point : DataPoint) x : option (DataPoint * bool * pipeline) :=
  if decide (dp_Quality point = QualityBad) then
    match pr_policy x with
    | badQualityDrop => None
    | badQualityMarkAndPublish => Some (with_value VNil (dp_Tag point) point, false, x)
    | badQualityAlert => Some (point, true, fireAlert point "bad-quality-policy" x)
    | badQualityPublish => Some (point, false, x)
    end
  else Some (point, false, x).

(** [processPoint]; [None] is a panic. *)
Definition processPoint (point : DataPoint) x : option pipeline :=
  match applyPolicy point x with
  | None => Some (recordBadQualityDrop x)
  | Some (point, policyAlerted, x) =>
    let x := set_cache (Update point (pr_cache x)) x in
    match Broadcast point (pr_bus x) with
    | None => None
    | Some b =>
      let '(results, x) := matchRules point (set_bus b x) in
      Some (runActions policyAlerted (e_rules (rs_top (pr_rules x))) results point x)
    end
  end.

(** ** What feeds the bus, and the workers *)

Definition pushPoint (highPriority : bool) (p : DataPoint) x : pipeline :=
  set_bus (if highPriority then PushHighPriority p (pr_bus x) else Push p (pr_bus x)) x.

Definition pointOf (driver : string) (groups : gmap string string) (v : TagValue) : DataPoint :=
  mkDataPoint driver "" (default EmptyString (groups !! tv_Tag v)) (tv_Tag v) (tv_Value v) (tv_Type v)
    (tv_Quality v) (tv_Timestamp v) ∅ false.

(** A suppressed tag is published again with its cached value, as uncertain;
    one that was never collected stays absent. *)
Definition republish (driver : string) (groups : gmap string string) (highPriority : bool) x
    (tag : string) : pipeline :=
  match Get (pr_cache x) driver tag with
  | None => x
  | Some last =>
    let '(now, e) := pe_now (pr_env x) in
    pushPoint highPriority
      (pointOf driver groups (mkTagValue tag (dp_Value last) (dp_Type last) QualityUncertain now None))
      (addRead 1 (set_env e x))
  end.

(** [onDriverData]; [groups] is the driver's map of tag groups. *)
Definition onDriverData (driver : string) (groups : gmap string string) (values : list TagValue)
    (plan : option triggerPlan) (priority : Z) x : pipeline :=
  let highPriority := bool_decide (priority > 0) in
  let x := match plan with
           | Some plan => foldl (republish driver groups highPriority) x (pl_suppressed plan)
           | None => x
           end in
  foldl (fun x v => pushPoint highPriority (pointOf driver groups v) (addRead 1 x)) x values.

(** One point from the data channel of a transport ([startDataListener]). *)
Definition onTransportData (point : DataPoint) x : pipeline := pushPoint false point (addRead 1 x).

(** One turn of [processingLoop] and [processingLoopHighPriority]: the next
    point of the channel, if there is one; [None] is a panic. *)
Definition processingLoop x : option pipeline :=
  match try_recv (b_ch (pr_bus x)) with
  | (_, None) => Some x
  | (c, Some point) =>
    let b := pr_bus x in
    processPoint point (set_bus (mkBus c (b_highPriCh b) (b_subscribers b) (b_closed b) (b_subCount b)
      (b_dropped b) (b_pushDropped b) (b_highPriPushDropped b) (b_nextSub b)) x)
  end.

Definition processingLoopHighPriority x : option pipeline :=
  match try_recv (b_highPriCh (pr_bus x)) with
  | (_, None) => Some x
  | (c, Some point) =>
    let b := pr_bus x in
    processPoint point (set_bus (mkBus (b_ch b) c (b_subscribers b) (b_closed b) (b_subCount b)
      (b_dropped b) (b_pushDropped b) (b_highPriPushDropped b) (b_nextSub b)) x)
  end.

(** ** The plan of a point

    What the matched rules ask for, without state: which target gets the point in
    which form, and which rules alert on it. *)

Definition transformed (point : DataPoint) (tc : option TransformConfig) : DataPoint :=
  (applyTransform point tc (∅ : gmap string aprog)).1.

Fixpoint planOf (rules : list (ruleWrapper prog)) (results : list MatchResult) (point : DataPoint)
  : list (string * DataPoint) :=
  match results with
  | [] => []
  | r :: rest =>
    let '(name, action) := resultRule rules r in
    let q := if decide (action = ActionTransform) then transformed point (mr_transform r) else point in
    if decide (action = ActionDrop) then []
    else ((fun t => (t, pointWithRule q name)) <$> mr_targets r) ++ planOf rules rest q
  end.

Fixpoint alertsOf (rules : list (ruleWrapper prog)) (results : list MatchResult) (point : DataPoint)
  : list (DataPoint * string) :=
  match results with
  | [] => []
  | r :: rest =>
    let '(name, action) := resultRule rules r in
    let q := if decide (action = ActionTransform) then transformed point (mr_transform r) else point in
    if decide (action = ActionDrop) then []
    else (if decide (action = ActionAlert) then [(point, name)] else []) ++ alertsOf rules rest q
  end.

(** The deliveries a plan may lead to: each registered target in order, a failed
    one followed by its fallback. *)
Definition batched (e : publishTargetEntry) : bool := bool_decide (is_Some (te_batcher e)).

Inductive fanned (tm : transportManager) : list (string * DataPoint) -> list delivery -> Prop :=
| fanned_nil : fanned tm [] []
| fanned_missing n p l ds :
    entryOf tm n = None -> fanned tm l ds -> fanned tm ((n, p) :: l) ds
| fanned_ok n p l ds e :
    entryOf tm n = Some e -> fanned tm l ds ->
    fanned tm ((n, p) :: l) (mkDelivery n (batched e) p true :: ds)
| fanned_failed n p l ds e :
    entryOf tm n = Some e -> fallbackOf tm n = None -> fanned tm l ds ->
    fanned tm ((n, p) :: l) (mkDelivery n (batched e) p false :: ds)
| fanned_fallback n p l ds e fb ok :
    entryOf tm n = Some e -> fallbackOf tm n = Some fb -> fanned tm l ds ->
    fanned tm ((n, p) :: l)
      (mkDelivery n (batched e) p false :: mkDelivery (te_name fb) (batched fb) p ok :: ds).

Definition failures (ds : list delivery) : Z := Z.of_nat (length (filter (fun d => dl_ok d = false) ds)).
Definition published (ds : list delivery) : Z :=
  Z.of_nat (length (filter (fun d => dl_ok d = true /\ dl_batched d = false) ds)).
Definition unknown (tm : transportManager) (l : list (string * DataPoint)) : Z :=
  Z.of_nat (length (filter (fun n => entryOf tm n = None) l.*1)).

(** What publishing leaves alone. *)
Record same_state x x' : Prop := {
  sm_bus : pr_bus x' = pr_bus x;
  sm_cache : pr_cache x' = pr_cache x;
  sm_policy : pr_policy x' = pr_policy x;
  sm_rules : pr_rules x' = pr_rules x;
  sm_tm : pr_tm x' = pr_tm x;
  sm_read : pr_totalRead x' = pr_totalRead x;
  sm_dropped : pr_badQualityDropped x' = pr_badQualityDropped x;
}.

(** From [x] to [x'] the deliveries [ds] were made, for a plan with [errs]
    unknown targets. *)
Record delivered (errs : Z) (ds : list delivery) x x' : Prop := {
  dv_state : same_state x x';
  dv_log : pr_deliveries x' = pr_deliveries x ++ ds;
  dv_errors : u64 (pr_totalErrors x') = u64 (pr_totalErrors x + (errs + failures ds));
  dv_published : u64 (pr_totalPublish x') = u64 (pr_totalPublish x + published ds);
}.

End Pipeline.

(** ** Publishing *)

Section PublishProofs.
Context {E prog aprog : Type} `{!PipelineEnv E} `{!ExprLib prog} `{!ArithLib aprog}.
Notation pipeline := (pipeline E prog aprog).
Implicit Types x : pipeline.

Lemma same_state_refl x : same_state x x.
Proof. by constructor. Qed.

Lemma same_state_trans x y z : same_state x y -> same_state y z -> same_state x z.
Proof. intros [] []. constructor; congruence. Qed.

(** Publishing touches neither alerts nor the compiled transforms. *)
Definition quiet x x' : Prop :=
  pr_alerted x' = pr_alerted x /\ pr_alerts x' = pr_alerts x /\ pr_arith x' = pr_arith x.

Lemma quiet_trans x y z : quiet x y -> quiet y z -> quiet x z.
Proof. intros (? & ? & ?) (? & ? & ?). split_and!; congruence. Qed.

Lemma failures_app ds ds' : failures (ds ++ ds') = failures ds + failures ds'.
Proof. unfold failures. rewrite filter_app, length_app. lia. Qed.

Lemma published_app ds ds' : published (ds ++ ds') = published ds + published ds'.
Proof. unfold published. rewrite filter_app, length_app. lia. Qed.

Lemma delivered_trans e e' ds ds' x y z :
  delivered e ds x y -> delivered e' ds' y z -> delivered (e + e') (ds ++ ds') x z.
Proof.
  intros [S L Er P] [S' L' Er' P']. constructor.
  - by eapply same_state_trans.
  - by rewrite L', L, app_assoc.
  - rewrite Er', <- u64_add, Er, u64_add, failures_app. f_equal. lia.
  - rewrite P', <- u64_add, P, u64_add, published_app. f_equal. lia.
Qed.

Lemma delivered_nil x x' :
  same_state x x' -> pr_deliveries x' = pr_deliveries x -> pr_totalErrors x' = pr_totalErrors x ->
  pr_totalPublish x' = pr_totalPublish x -> delivered 0 [] x x'.
Proof.
  intros S L Er P. constructor; [done|by rewrite app_nil_r| |]; rewrite ?Er, ?P;
    unfold failures, published; simpl; by rewrite ?Z.add_0_r.
Qed.

Lemma delivered_one d x x' :
  same_state x x' -> pr_deliveries x' = pr_deliveries x ++ [d] ->
  u64 (pr_totalErrors x') = u64 (pr_totalErrors x + (if dl_ok d then 0 else 1)) ->
  u64 (pr_totalPublish x') = u64 (pr_totalPublish x + (if dl_ok d && negb (dl_batched d) then 1 else 0)) ->
  delivered 0 [d] x x'.
Proof.
  intros S L Er P. constructor; [done..| |]; [rewrite Er|rewrite P]; f_equal;
    unfold failures, published; rewrite filter_cons, filter_nil;
    destruct d as [? [] ? []]; simpl; repeat case_decide; naive_solver.
Qed.

Lemma attempt_spec entry point x ok x' :
  attempt entry point x = (ok, x') ->
  delivered 0 [mkDelivery (te_name entry) (batched entry) point ok] x x' /\ quiet x x'.
Proof.
  unfold attempt, batched. destruct (te_batcher entry).
  - rewrite bool_decide_true by (by eexists). destruct (pe_enqueue _ _ _) as [[err|] e]; intros [= <- <-];
      (split; [|done]); apply delivered_one; simpl; rewrite ?wrapu_idem, ?Z.add_0_r; done.
  - rewrite bool_decide_false by (by intros []).
    destruct (pe_publish _ _ _) as [[err|] e]; intros [= <- <-];
      (split; [|done]); apply delivered_one; simpl; rewrite ?wrapu_idem, ?Z.add_0_r; done.
Qed.

(** The fallback the snapshot holds for a target. *)
Lemma snapshotFallbacks_spec tm es n :
  snapshotFallbacks tm es !! n = if decide (n ∈ te_name <$> es) then fallbackOf tm n else None.
Proof.
  unfold snapshotFallbacks. induction es as [|e es IH] using rev_ind; [done|].
  rewrite foldl_app, fmap_app. cbn [foldl]. destruct (decide (n = te_name e)) as [->|Hne].
  - rewrite decide_True by (apply elem_of_app; right; by left).
    destruct (fallbackOf tm (te_name e)) eqn:Hf; [by rewrite lookup_insert_eq|].
    rewrite IH. by case_decide.
  - assert ((n ∈ (te_name <$> es) ++ (te_name <$> [e])) <-> n ∈ te_name <$> es) as Hiff.
    { rewrite elem_of_app. csimpl. rewrite list_elem_of_singleton. tauto. }
    destruct (fallbackOf tm (te_name e)); rewrite ?lookup_insert_ne, IH by done;
      repeat case_decide; tauto.
Qed.

Lemma entryOf_name tm n e : entryOf tm n = Some e -> te_name e = n.
Proof. unfold entryOf. destruct (tm_transports tm !! n); [|done]. by intros [= <-]. Qed.

Lemma publishOne_spec tm fbs point x e :
  pr_tm x = tm -> entryOf tm (te_name e) = Some e -> fbs !! te_name e = fallbackOf tm (te_name e) ->
  exists ds, delivered 0 ds x (publishOne point fbs x e) /\ quiet x (publishOne point fbs x e) /\
    forall l ds', fanned tm l ds' -> fanned tm ((te_name e, point) :: l) (ds ++ ds').
Proof.
  intros Htm He Hfb. unfold publishOne. destruct (attempt e point x) as [ok x1] eqn:Ha.
  apply attempt_spec in Ha as [Hd Hq]. destruct ok.
  { eexists. split_and!; [done..|]. intros. simpl. by eapply fanned_ok. }
  unfold tryFallback. rewrite Hfb. destruct (fallbackOf tm (te_name e)) as [fb|] eqn:Hf; cycle 1.
  { eexists. split_and!; [done..|]. intros. simpl. by eapply fanned_failed. }
  destruct (attempt fb point x1) as [ok x2] eqn:Ha. apply attempt_spec in Ha as [Hd2 Hq2].
  exists [mkDelivery (te_name e) (batched e) point false; mkDelivery (te_name fb) (batched fb) point ok].
  split_and!; [exact (delivered_trans _ _ _ _ _ _ _ Hd Hd2)|by eapply quiet_trans|].
  intros. simpl. by eapply fanned_fallback.
Qed.

Lemma publishAll_spec tm fbs point ns x :
  pr_tm x = tm -> (forall n e, n ∈ ns -> entryOf tm n = Some e -> fbs !! n = fallbackOf tm n) ->
  let x' := foldl (publishOne point fbs) x (omap (entryOf tm) ns) in
  exists ds, delivered 0 ds x x' /\ quiet x x' /\ fanned tm ((fun n => (n, point)) <$> ns) ds.
Proof.
  revert x. induction ns as [|n ns IH]; intros x Htm Hfb; csimpl.
  { exists []. split_and!; [by apply delivered_nil|done|constructor]. }
  destruct (entryOf tm n) as [e|] eqn:He; simpl.
  - assert (Hn := entryOf_name _ _ _ He). subst n.
    destruct (publishOne_spec tm fbs point x e Htm He) as (ds & Hd & Hq & Hf).
    { eapply Hfb; [by left|done]. }
    destruct (IH (publishOne point fbs x e)) as (ds' & Hd' & Hq' & Hf').
    { by rewrite (sm_tm _ _ (dv_state _ _ _ _ Hd)). }
    { intros n' e' Hin. apply Hfb. by right. }
    exists (ds ++ ds'). split_and!; [exact (delivered_trans _ _ _ _ _ _ _ Hd Hd')|by eapply quiet_trans|by apply Hf].
  - destruct (IH x Htm) as (ds & Hd & Hq & Hf); [intros n' e' Hin; apply Hfb; by right|].
    exists ds. split_and!; [done..|]. by constructor.
Qed.

Lemma publishToTargets_spec point targets x :
  let x' := publishToTargets point targets x in
  let l := (fun t => (t, point)) <$> targets in
  exists ds, delivered (unknown (pr_tm x) l) ds x x' /\ quiet x x' /\ fanned (pr_tm x) l ds.
Proof.
  unfold publishToTargets. cbn zeta. set (tm := pr_tm x). set (x1 := addErrors _ x).
  destruct (publishAll_spec tm (snapshotFallbacks tm (snapshotTargets tm targets)) point targets x1)
    as (ds & Hd & Hq & Hf); [done| |].
  { intros n e Hn He. rewrite snapshotFallbacks_spec. apply decide_True.
    apply list_elem_of_fmap. exists e. split; [by rewrite (entryOf_name _ _ _ He)|].
    apply list_elem_of_omap. by exists n. }
  exists ds. split_and!; [|done..].
  assert (H1 : delivered (unknown tm ((fun t => (t, point)) <$> targets)) [] x x1).
  { constructor; [done|by rewrite app_nil_r| |].
    - simpl. rewrite wrapu_idem. f_equal. unfold unknown, missingTargets, failures. simpl.
      rewrite <- list_fmap_compose. assert (fst ∘ (fun t => (t, point)) <$> targets = targets) as ->; [|lia].
      rewrite <- (list_fmap_id targets) at 2. by apply list_fmap_ext.
    - unfold published. simpl. by rewrite Z.add_0_r. }
  pose proof (delivered_trans _ _ _ _ _ _ _ H1 Hd) as H. by rewrite Z.add_0_r in H.
Qed.

(** ** The action loop *)

Lemma fanned_app tm l l' ds ds' : fanned tm l ds -> fanned tm l' ds' -> fanned tm (l ++ l') (ds ++ ds').
Proof.
  induction 1; intros; simpl;
    eauto using fanned_missing, fanned_ok, fanned_failed, fanned_fallback.
Qed.

Lemma unknown_app tm l l' : unknown tm (l ++ l') = unknown tm l + unknown tm l'.
Proof. unfold unknown. rewrite fmap_app, filter_app, length_app. lia. Qed.

Lemma applyTransform_spec p tc (cache : gmap string aprog) :
  arith_cache_ok cache ->
  (applyTransform p tc cache).1 = transformed (aprog := aprog) p tc /\
  arith_cache_ok (applyTransform p tc cache).2.
Proof.
  intros Hok. unfold transformed, applyTransform. destruct tc as [tc|]; [|done].
  case_decide; [done|]. destruct (ToFloat64OK (dp_Value p)) as [raw []]; [|done].
  destruct (EvalArith_cached (tr_Expression tc) raw cache Hok) as [He Hc].
  destruct (EvalArith _ _ cache) as [r c']. destruct (EvalArith _ _ ∅) as [r' c'']. simpl in *. subst r'.
  by destruct r.
Qed.

(** From [x] to [x'] the plan was carried out and the alerts were fired. *)
Definition acted (plan : list (string * DataPoint)) (alerts : list (DataPoint * string)) x x' : Prop :=
  exists ds, delivered (unknown (pr_tm x) plan) ds x x' /\ fanned (pr_tm x) plan ds /\
    pr_alerted x' = pr_alerted x ++ alerts /\ arith_cache_ok (pr_arith x').

Lemma acted_tm plan al x x' : acted plan al x x' -> pr_tm x' = pr_tm x.
Proof. intros (ds & Hd & _). apply Hd. Qed.

Lemma acted_trans plan plan' al al' x y z :
  acted plan al x y -> acted plan' al' y z -> acted (plan ++ plan') (al ++ al') x z.
Proof.
  intros Hxy Hyz. pose proof (acted_tm _ _ _ _ Hxy) as Htm.
  destruct Hxy as (ds & Hd & Hf & Ha & _), Hyz as (ds' & Hd' & Hf' & Ha' & Hok). rewrite Htm in Hd', Hf'.
  exists (ds ++ ds'). split_and!; [|by apply fanned_app| |done].
  - rewrite unknown_app. by eapply delivered_trans.
  - by rewrite Ha', Ha, app_assoc.
Qed.

Lemma acted_nil x x' al :
  delivered 0 [] x x' -> pr_alerted x' = pr_alerted x ++ al -> arith_cache_ok (pr_arith x') ->
  acted [] al x x'.
Proof. intros. exists []. split_and!; [done|constructor|done..]. Qed.

Lemma acted_refl x : arith_cache_ok (pr_arith x) -> acted [] [] x x.
Proof. intros. apply acted_nil; [by apply delivered_nil|by rewrite app_nil_r|done]. Qed.

Lemma fireAlert_acted point rule x :
  arith_cache_ok (pr_arith x) -> acted [] [(point, rule)] x (fireAlert point rule x).
Proof.
  intros Hok. unfold fireAlert. destruct (pr_alerts x); [destruct (pe_now _)|];
    (apply acted_nil; [by apply delivered_nil|done..]).
Qed.

Lemma publishToTargets_acted point targets x :
  arith_cache_ok (pr_arith x) ->
  acted ((fun t => (t, point)) <$> targets) [] x (publishToTargets point targets x).
Proof.
  intros Hok. destruct (publishToTargets_spec point targets x) as (ds & Hd & (Ha & _ & Hc) & Hf).
  exists ds. split_and!; [done..|by rewrite Ha, app_nil_r|by rewrite Hc].
Qed.

Lemma set_arith_acted c x : arith_cache_ok c -> acted [] [] x (set_arith c x).
Proof. intros. apply acted_nil; [by apply delivered_nil|by rewrite app_nil_r|done]. Qed.

Lemma acted_ok plan al x x' : acted plan al x x' -> arith_cache_ok (pr_arith x').
Proof. by intros (ds & _ & _ & _ & ?). Qed.

(** The action loop carries out the plan of the matched rules. *)
Lemma runActions_spec (pa : bool) rules rs point x :
  arith_cache_ok (pr_arith x) ->
  acted (planOf (aprog := aprog) rules rs point)
    (if pa then [] else alertsOf (aprog := aprog) rules rs point) x (runActions pa rules rs point x).
Proof.
  revert point x. induction rs as [|r rs IH]; intros point x Hok; simpl; [by destruct pa; apply acted_refl|].
  destruct (resultRule rules r) as [name action].
  assert (Hgo : forall q (x1 : pipeline) al, acted [] al x x1 ->
    acted (((fun t => (t, pointWithRule q name)) <$> mr_targets r) ++ planOf (aprog := aprog) rules rs q)
      (al ++ (if pa then [] else alertsOf (aprog := aprog) rules rs q)) x
      (runActions pa rules rs q (publishToTargets (pointWithRule q name) (mr_targets r) x1))).
  { intros q x1 al H1.
    pose proof (publishToTargets_acted (pointWithRule q name) (mr_targets r) x1 (acted_ok _ _ _ _ H1)) as H2.
    pose proof (acted_trans _ _ _ _ _ _ _ H1 H2) as H12. rewrite app_nil_r in H12.
    exact (acted_trans _ _ _ _ _ _ _ H12 (IH q _ (acted_ok _ _ _ _ H2))). }
  destruct action; simpl.
  - exact (Hgo point x [] (acted_refl x Hok)).
  - destruct pa; by apply acted_refl.
  - destruct pa; [exact (Hgo point x [] (acted_refl x Hok))|].
    exact (Hgo point _ [_] (fireAlert_acted point name x Hok)).
  - destruct (applyTransform_spec point (mr_transform r) (pr_arith x) Hok) as [Hp Hc].
    destruct (applyTransform point (mr_transform r) (pr_arith x)) as [q c]. simpl in Hp, Hc. subst q.
    exact (Hgo _ _ [] (set_arith_acted c x Hc)).
  - exact (Hgo point x [] (acted_refl x Hok)).
Qed.
End PublishProofs.

(** ** One point *)

(** What the policy lets into the cache, the subscribers and the rules. *)
Definition admitted (policy : badQualityPolicy) (p : DataPoint) : option DataPoint :=
  if decide (dp_Quality p = QualityBad) then
    match policy with
    | badQualityDrop => None
    | badQualityMarkAndPublish => Some (with_value VNil (dp_Tag p) p)
    | _ => Some p
    end
  else Some p.

Section PointProofs.
Context {E prog aprog : Type} `{!PipelineEnv E} `{!ExprLib prog} `{!ArithLib aprog}.
Notation pipeline := (pipeline E prog aprog).
Implicit Types x : pipeline.

Lemma applyPolicy_spec p x q pa x1 :
  applyPolicy p x = Some (q, pa, x1) -> arith_cache_ok (pr_arith x) ->
  admitted (pr_policy x) p = Some q /\
  acted [] (if pa then [(p, "bad-quality-policy"%string)] else []) x x1 /\
  pa = bool_decide (dp_Quality p = QualityBad /\ pr_policy x = badQualityAlert).
Proof.
  unfold applyPolicy, admitted. intros Hp Hok. case_decide as Hq; cycle 1.
  { injection Hp as <- <- <-. split_and!; [done|by apply acted_refl|].
    rewrite bool_decide_false; [done|tauto]. }
  destruct (pr_policy x) eqn:Hpol; try done; injection Hp as <- <- <-;
    (split_and!; [done|first [by apply acted_refl|by apply fireAlert_acted]|]).
  1, 2: rewrite bool_decide_false; [done|naive_solver]. by rewrite bool_decide_true.
Qed.

Lemma matchRules_same q x (y : pipeline) :
  pr_env x = pr_env y -> pr_rules x = pr_rules y -> (matchRules q x).1 = (matchRules q y).1.
Proof.
  intros He Hr. unfold matchRules. rewrite He, Hr. by destruct (Match _ _ _ _ _ _) as [[? ?] ?].
Qed.

(** [matchRules] changes the statistics of the rules and nothing else. *)
Lemma matchRules_frame q x rs (x' : pipeline) :
  matchRules q x = (rs, x') ->
  rs = (matchRules q x).1 /\ exists y, x' = set_rules y x.
Proof.
  intros H. split; [by rewrite H|]. unfold matchRules in H. destruct (Match _ _ _ _ _ _) as [[? ?] ?].
  injection H as <- <-. by eexists.
Qed.

Lemma Broadcast_chans p b b' :
  Broadcast p b = Some b' ->
  b_ch b' = b_ch b /\ b_highPriCh b' = b_highPriCh b /\ b_closed b' = b_closed b /\
  b_pushDropped b' = b_pushDropped b /\ b_highPriPushDropped b' = b_highPriPushDropped b.
Proof.
  unfold Broadcast. case_decide; [by intros [= <-]|]. destruct (deliver_all _ _) as [[]|]; [|done].
  by intros [= <-].
Qed.

Lemma processPoint_spec p x q pa x1 :
  arith_cache_ok (pr_arith x) -> subs_ok (pr_bus x) -> applyPolicy p x = Some (q, pa, x1) ->
  exists x' b ds, processPoint p x = Some x' /\ Broadcast q (pr_bus x) = Some b /\ subs_ok b /\
    pr_bus x' = b /\ pr_cache x' = Update q (pr_cache x) /\ pr_policy x' = pr_policy x /\ pr_tm x' = pr_tm x /\
    pr_totalRead x' = pr_totalRead x /\ pr_badQualityDropped x' = pr_badQualityDropped x /\
    arith_cache_ok (pr_arith x') /\
    let results := (matchRules q x1).1 in
    let rules := e_rules (rs_top (pr_rules x')) in
    let plan := planOf (aprog := aprog) rules results q in
    fanned (pr_tm x) plan ds /\ pr_deliveries x' = pr_deliveries x ++ ds /\
    u64 (pr_totalErrors x') = u64 (pr_totalErrors x + (unknown (pr_tm x) plan + failures ds)) /\
    u64 (pr_totalPublish x') = u64 (pr_totalPublish x + published ds) /\
    pr_alerted x' = pr_alerted x ++ (if pa then [(p, "bad-quality-policy"%string)]
                                     else alertsOf (aprog := aprog) rules results q).
Proof.
  intros Hok Hsubs Hpol. destruct (applyPolicy_spec _ _ _ _ _ Hpol Hok) as (_ & Hact & _).
  destruct (bus_do_ok (BBroadcast q) (pr_bus x) Hsubs) as (b & Hb & Hsb). simpl in Hb.
  unfold processPoint. rewrite Hpol.
  assert (Hbus : pr_bus x1 = pr_bus x) by (destruct Hact as (? & Hd & _); apply Hd).
  cbn [pr_bus set_cache]. rewrite Hbus, Hb.
  set (x2 := set_bus b (set_cache (Update q (pr_cache x1)) x1)).
  destruct (matchRules q x2) as [rs x3] eqn:Hm. apply matchRules_frame in Hm as [Hrs [y Hx3]].
  rewrite (matchRules_same q x2 x1) in Hrs by done.
  assert (Hok3 : arith_cache_ok (pr_arith x3)) by (subst x3; apply (acted_ok _ _ _ _ Hact)).
  pose proof (runActions_spec pa (e_rules (rs_top (pr_rules x3))) rs q x3 Hok3) as (ds & Hd & Hf & Hal & Hok').
  destruct Hact as (ds0 & Hd0 & Hf0 & Hal0 & _). inversion Hf0; subst ds0.
  set (x' := runActions pa _ rs q x3) in *.
  destruct Hd as [[S1 S2 S3 S4 S5 S6 S7] L Er P], Hd0 as [[T1 T2 T3 T4 T5 T6 T7] L0 Er0 P0].
  subst x3. simpl in *. rewrite app_nil_r in L0. unfold unknown, failures, published in Er0, P0.
  simpl in Er0, P0. rewrite Z.add_0_r in Er0, P0.
  exists x', b, ds. rewrite S4. simpl. rewrite <- Hrs. split_and!; try congruence; try done.
  - rewrite Er, T5, <- u64_add, Er0. by rewrite u64_add.
  - rewrite P, <- u64_add, P0. by rewrite u64_add.
  - rewrite Hal, Hal0. by destruct pa; rewrite ?app_nil_r.
Qed.

(** A point the policy drops is counted, and that is all. *)
Lemma processPoint_dropped p x :
  applyPolicy p x = None -> processPoint p x = Some (recordBadQualityDrop x).
Proof. intros H. unfold processPoint. by rewrite H. Qed.

(** C9.  A point the bad-quality policy admits is processed without a
    panic: it is cached and broadcast, and the targets of the matched rules get
    it, in the order of the rules and up to the first drop, each in the form the
    transforms so far give it and with the name of its rule; a target that fails
    is followed by its fallback, every failure and every unknown target is
    counted as an error and every direct publish as a publish; and the alerts
    fired are those of the alert rules, or only that of the policy. *)
Theorem point_reaches_targets p x q pa x1 :
  arith_cache_ok (pr_arith x) -> subs_ok (pr_bus x) -> applyPolicy p x = Some (q, pa, x1) ->
  exists x' ds, processPoint p x = Some x' /\
    pr_cache x' = Update q (pr_cache x) /\ Broadcast q (pr_bus x) = Some (pr_bus x') /\
    let results := (matchRules q x1).1 in
    let rules := e_rules (rs_top (pr_rules x')) in
    let plan := planOf (aprog := aprog) rules results q in
    fanned (pr_tm x) plan ds /\ pr_deliveries x' = pr_deliveries x ++ ds /\
    u64 (pr_totalErrors x') = u64 (pr_totalErrors x + (unknown (pr_tm x) plan + failures ds)) /\
    u64 (pr_totalPublish x') = u64 (pr_totalPublish x + published ds) /\
    pr_alerted x' = pr_alerted x ++ (if pa then [(p, "bad-quality-policy"%string)]
                                     else alertsOf (aprog := aprog) rules results q).
Proof.
  intros Hok Hs Hp.
  destruct (processPoint_spec p x q pa x1 Hok Hs Hp)
    as (x' & b & ds & H1 & H2 & _ & H3 & H4 & _ & _ & _ & _ & _ & H5).
  exists x', ds. rewrite H3. done.
Qed.

(** ** Points of bad quality *)

Lemma planOf_novalue (rules : list (ruleWrapper prog)) rs p :
  dp_Value p = VNil -> Forall (fun d => dp_Value d.2 = VNil) (planOf (aprog := aprog) rules rs p).
Proof.
  revert p. induction rs as [|r rs IH]; intros p Hp; simpl; [constructor|].
  destruct (resultRule rules r) as [name action].
  set (q := if decide (action = ActionTransform) then _ else _).
  assert (Hq : dp_Value q = VNil).
  { subst q. case_decide; [|done]. unfold transformed, applyTransform.
    destruct (mr_transform r); [|done]. case_decide; [done|]. by rewrite Hp. }
  case_decide; [constructor|]. apply Forall_app. split; [|by apply IH].
  apply Forall_fmap, Forall_forall. by intros t _.
Qed.

Lemma fanned_points tm l ds d : fanned tm l ds -> d ∈ ds -> exists n, (n, dl_point d) ∈ l.
Proof.
  induction 1 as [|n p l ds _ _ IH|n p l ds e _ _ IH|n p l ds e _ _ _ IH|n p l ds e fb ok _ _ _ IH];
    [by intros ?%elem_of_nil|..].
  - intros [m Hm]%IH. exists m. by right.
  - intros [->|[m Hm]%IH]%elem_of_cons; [exists n; by left|exists m; by right].
  - intros [->|[m Hm]%IH]%elem_of_cons; [exists n; by left|exists m; by right].
  - rewrite !elem_of_cons. intros [->|[->|[m Hm]%IH]]; [exists n; by left..|exists m; by right].
Qed.

(** What becomes of a point of bad quality under each policy:
    dropped, it is counted and nothing else changes; marked, it is cached without
    its value and no target ever gets a value, whatever the transforms; with the
    alert policy exactly one alert fires, whatever rules match it; and published,
    it is cached as it is. *)
Theorem bad_quality_policy p x :
  arith_cache_ok (pr_arith x) -> subs_ok (pr_bus x) -> dp_Quality p = QualityBad ->
  exists x', processPoint p x = Some x' /\
  match pr_policy x with
  | badQualityDrop => x' = recordBadQualityDrop x
  | badQualityMarkAndPublish =>
    pr_cache x' = Update (with_value VNil (dp_Tag p) p) (pr_cache x) /\
    exists ds, pr_deliveries x' = pr_deliveries x ++ ds /\
      Forall (fun d => dp_Value (dl_point d) = VNil) ds
  | badQualityAlert =>
    pr_cache x' = Update p (pr_cache x) /\
    pr_alerted x' = pr_alerted x ++ [(p, "bad-quality-policy"%string)]
  | badQualityPublish => pr_cache x' = Update p (pr_cache x)
  end.
Proof.
  intros Hok Hs Hq. destruct (applyPolicy p x) as [[[q pa] x1]|] eqn:Hp.
  - destruct (applyPolicy_spec _ _ _ _ _ Hp Hok) as (Had & _ & Hpa).
    destruct (processPoint_spec p x q pa x1 Hok Hs Hp)
      as (x' & b & ds & -> & _ & _ & _ & Hc & _ & _ & _ & _ & _ & Hf & Hl & _ & _ & Hal).
    exists x'. split; [done|]. unfold admitted in Had. rewrite decide_True in Had by done.
    destruct (pr_policy x); simplify_eq.
    + done.
    + split; [done|]. exists ds. split; [done|]. apply Forall_forall. intros d Hd.
      destruct (fanned_points _ _ _ _ Hf Hd) as [n Hn].
      assert (Hnv := planOf_novalue (e_rules (rs_top (pr_rules x')))
        (matchRules (with_value VNil (dp_Tag p) p) x1).1 (with_value VNil (dp_Tag p) p) eq_refl).
      rewrite Forall_forall in Hnv. apply (Hnv (n, dl_point d) Hn).
    + split; [done|]. rewrite Hal. by rewrite bool_decide_true.
  - rewrite (processPoint_dropped _ _ Hp). eexists. split; [done|]. unfold applyPolicy in Hp.
    rewrite decide_True in Hp by done. by destruct (pr_policy x).
Qed.
End PointProofs.

(** ** From the driver to the cache *)

Definition chanOf (highPriority : bool) (b : DataBus) : chan DataPoint :=
  if highPriority then b_highPriCh b else b_ch b.

Definition with_chan (highPriority : bool) (c : chan DataPoint) (b : DataBus) : DataBus :=
  mkBus (if highPriority then b_ch b else c) (if highPriority then c else b_highPriCh b) (b_subscribers b)
    (b_closed b) (b_subCount b) (b_dropped b) (b_pushDropped b) (b_highPriPushDropped b) (b_nextSub b).

Section EndToEnd.
Context {E prog aprog : Type} `{!PipelineEnv E} `{!ExprLib prog} `{!ArithLib aprog}.
Notation pipeline := (pipeline E prog aprog).
Implicit Types x : pipeline.

(** [n] turns of the workers of a channel. *)
Definition turn (hp : bool) x : option pipeline :=
  if hp then processingLoopHighPriority x else processingLoop x.

Fixpoint turns (n : nat) (hp : bool) x : option pipeline :=
  match n with
  | O => Some x
  | S n => match turn hp x with Some x => turns n hp x | None => None end
  end.

(** An open bus with room for [n] more points on the channel. *)
Record room (n : nat) (hp : bool) (b : DataBus) : Prop := {
  rm_open : b_closed b = false;
  rm_chan : ch_closed (chanOf hp b) = false;
  rm_cap : (length (ch_items (chanOf hp b)) + n <= ch_cap (chanOf hp b))%nat;
}.

Lemma push_room n hp b p :
  room (S n) hp b ->
  let b' := if hp then PushHighPriority p b else Push p b in
  b' = with_chan hp (mkChan (ch_cap (chanOf hp b)) (ch_items (chanOf hp b) ++ [p]) false) b /\ room n hp b'.
Proof.
  intros [Ho Hc Hcap]. cbn zeta.
  assert (Hp : push_chan p (chanOf hp b) =
    (mkChan (ch_cap (chanOf hp b)) (ch_items (chanOf hp b) ++ [p]) false, 0)).
  { rewrite push_chan_spec by (split_and!; [done|lia|lia]). by rewrite decide_True by lia. }
  assert (Heq : (if hp then PushHighPriority p b else Push p b) =
    with_chan hp (mkChan (ch_cap (chanOf hp b)) (ch_items (chanOf hp b) ++ [p]) false) b).
  { destruct hp; simpl in *; unfold Push, PushHighPriority, with_chan; rewrite Ho, Hp; simpl;
      by rewrite ?Z.add_0_r. }
  split; [done|]. rewrite Heq. destruct hp; constructor; simpl in *; try done; rewrite length_app; simpl; lia.
Qed.

(** Values that fit are queued in order. *)
Lemma push_values driver groups hp vs x :
  room (length vs) hp (pr_bus x) ->
  let x' := foldl (fun x v => pushPoint hp (pointOf driver groups v) (addRead 1 x)) x vs in
  let b := pr_bus x in
  pr_bus x' = with_chan hp (mkChan (ch_cap (chanOf hp b))
                (ch_items (chanOf hp b) ++ (pointOf driver groups <$> vs)) false) b /\
  pr_cache x' = pr_cache x /\ pr_policy x' = pr_policy x /\ pr_arith x' = pr_arith x /\
  u64 (pr_totalRead x') = u64 (pr_totalRead x + Z.of_nat (length vs)).
Proof.
  revert x. induction vs as [|v vs IH]; intros x Hr; simpl.
  { destruct Hr as [Ho Hc _]. rewrite app_nil_r, Z.add_0_r. split_and!; try done.
    destruct (pr_bus x) as [[] [] ? ? ? ? ? ? ?], hp; unfold with_chan; simpl in *; by subst. }
  set (x1 := pushPoint hp (pointOf driver groups v) (addRead 1 x)).
  destruct (push_room (length vs) hp (pr_bus x) (pointOf driver groups v) Hr) as [Hb Hr1].
  change (if hp then PushHighPriority _ _ else Push _ _) with (pr_bus x1) in Hb, Hr1.
  destruct (IH x1 Hr1) as (Hb' & Hc & Hp & Ha & Hn). rewrite Hb', Hc, Hp, Ha, Hn, Hb.
  split_and!; try done.
  - destruct hp; unfold with_chan; simpl; by rewrite <- app_assoc.
  - simpl. rewrite u64_add. f_equal. lia.
Qed.

(** One turn processes the first point of the channel. *)
Lemma turn_spec hp p l x :
  ch_items (chanOf hp (pr_bus x)) = p :: l -> arith_cache_ok (pr_arith x) -> subs_ok (pr_bus x) ->
  exists x', turn hp x = Some x' /\ ch_items (chanOf hp (pr_bus x')) = l /\
    arith_cache_ok (pr_arith x') /\ subs_ok (pr_bus x') /\ pr_policy x' = pr_policy x /\
    pr_totalRead x' = pr_totalRead x /\
    pr_cache x' = match admitted (pr_policy x) p with
                  | Some q => Update q (pr_cache x) | None => pr_cache x end.
Proof.
  intros Hl Hok Hs. set (c := mkChan (ch_cap (chanOf hp (pr_bus x))) l (ch_closed (chanOf hp (pr_bus x)))).
  set (y := set_bus (with_chan hp c (pr_bus x)) x).
  assert (Ht : turn hp x = processPoint p y).
  { unfold turn, processingLoop, processingLoopHighPriority, try_recv.
    destruct hp; simpl in *; rewrite Hl; done. }
  assert (Hsy : subs_ok (pr_bus y)) by done. rewrite Ht.
  destruct (applyPolicy p y) as [[[q pa] x1]|] eqn:Hp.
  - destruct (applyPolicy_spec _ _ _ _ _ Hp Hok) as (Had & _).
    destruct (processPoint_spec p y q pa x1 Hok Hsy Hp)
      as (x' & b & ds & -> & Hb & Hsb & Hbx & Hc & Hpol & _ & Hrd & _ & Hok' & _).
    exists x'. apply Broadcast_chans in Hb as (Hb1 & Hb2 & _). rewrite Hbx. split_and!; try done.
    + destruct hp; simpl; [by rewrite Hb2|by rewrite Hb1].
    + change (pr_policy x) with (pr_policy y). by rewrite Had.
  - rewrite (processPoint_dropped _ _ Hp). eexists. split; [done|].
    assert (Had : admitted (pr_policy x) p = None).
    { unfold applyPolicy in Hp. unfold admitted. simpl in Hp. case_decide; [|done]. by destruct (pr_policy x). }
    rewrite Had. split_and!; try done. by destruct hp.
Qed.

Lemma turns_spec hp ps x :
  ch_items (chanOf hp (pr_bus x)) = ps -> arith_cache_ok (pr_arith x) -> subs_ok (pr_bus x) ->
  exists x', turns (length ps) hp x = Some x' /\ ch_items (chanOf hp (pr_bus x')) = [] /\
    pr_totalRead x' = pr_totalRead x /\
    pr_cache x' = foldl (fun c p => match admitted (pr_policy x) p with Some q => Update q c | None => c end)
                    (pr_cache x) ps.
Proof.
  revert x. induction ps as [|p ps IH]; intros x Hl Hok Hs; simpl; [by exists x|].
  destruct (turn_spec hp p ps x Hl Hok Hs) as (x1 & -> & Hl1 & Hok1 & Hs1 & Hp1 & Hn1 & Hc1).
  destruct (IH x1 Hl1 Hok1 Hs1) as (x' & Hx & Hl' & Hn' & Hc'). exists x'.
  rewrite Hx, Hn', Hc', Hp1, Hn1, Hc1. done.
Qed.

End EndToEnd.

(** ** A concrete pipeline *)

Module Demo.

(** Transport 0 is down; the others take everything. *)
#[global] Instance env : PipelineEnv Z := {|
  pe_publish := fun id _ e => if decide (id = 0%nat) then (Some (ErrNew "down"), e) else (None, e);
  pe_enqueue := fun _ _ e => (None, e);
  pe_now := fun e => (e, e + 1);
  pe_ruleNow := fun e _ => e;
  pe_subNow := fun e _ _ => e;
  pe_order := fun _ => [];
  pe_subOrder := fun _ _ => [];
  pe_byLastFired := fun m => stable_sort (fun a b => bool_decide (al_LastFired a < al_LastFired b))
                               (map_to_list m).*2 |}.

#[global] Instance expr : ExprLib unit := {| compileExpr := fun _ => Ok (); runExpr := fun _ _ => Some true |}.

(** Programs that double their input. *)
#[global] Instance arith : ArithLib unit := {|
  ar_compile := fun _ => inl ();
  ar_run := fun _ f => inl (VFloat64 (fadd F64 f f)) |}.

Definition target (fallback : string) : Config.TransportConfig :=
  Config.mkTransportConfig "" "mqtt" ∅ 0 "" 0 0 fallback.
Definition tm : transportManager :=
  mkTransportManager (<["mqtt"%string := 0%nat]> {["http"%string := 1%nat]})
    {["mqtt"%string := target "http"]} ∅ ∅ false ∅ ∅ ∅.

Definition rule : Rule unit :=
  mkRule "double" "ALL" (KSimple None) ActionTransform "" ["mqtt"; "gone"]%string 0
    (Some (mkTransform "value * 2" "twice")) "" false.

Definition pipeline (policy : badQualityPolicy) : Processing.pipeline Z unit unit :=
  mkPipeline 0 (NewDataBus 64) NewLatestCache (Some (newAlertManager 0)) policy
    (mkSystem (engine_of [rule]) ∅ ∅ ∅) ∅ tm 0 0 0 0 [] [].

Definition point (q : Quality) : DataPoint :=
  mkDataPoint "plc" "" "" "t" (VInt 21) TypeInt64 q 0 ∅ false.
Definition value (tag : string) (z : Z) : TagValue := mkTagValue tag (VInt z) TypeInt64 QualityGood 0 None.

(** The failed target, its fallback, and an unknown target counted. *)
Definition sent : option (list (string * bool) * Z * Z) :=
  (fun x => ((fun d => (dl_name d, dl_ok d)) <$> pr_deliveries x, pr_totalErrors x, pr_totalPublish x))
    <$> processPoint (point QualityGood) (pipeline badQualityPublish).

Example sent_ok : sent = Some ([("mqtt", false); ("http", true)]%string, 2, 1).
Proof. vm_compute. reflexivity. Qed.

Lemma bus_ok policy : subs_ok (pr_bus (pipeline policy)).
Proof. split; [constructor|done]. Qed.

Lemma arith_ok policy : arith_cache_ok (pr_arith (pipeline policy)).
Proof. intros s p. simpl. by rewrite lookup_empty. Qed.

End Demo.

Lemma point_reaches_targets_witness :
  exists x', processPoint (Demo.point QualityGood) (Demo.pipeline badQualityPublish) = Some x' /\
    pr_cache x' = Update (Demo.point QualityGood) NewLatestCache.
Proof.
  destruct (point_reaches_targets (Demo.point QualityGood) (Demo.pipeline badQualityPublish) _ _ _
    (Demo.arith_ok _) (Demo.bus_ok _) eq_refl) as (x' & ds & Hx & Hc & _).
  exists x'. split; assumption.
Defined.

Lemma bad_quality_policy_witness :
  exists x', processPoint (Demo.point QualityBad) (Demo.pipeline badQualityAlert) = Some x' /\
    pr_alerted x' = [(Demo.point QualityBad, "bad-quality-policy"%string)].
Proof.
  destruct (bad_quality_policy (Demo.point QualityBad) (Demo.pipeline badQualityAlert)
    (Demo.arith_ok _) (Demo.bus_ok _) eq_refl) as (x' & Hx & _ & Ha).
  exists x'. split; assumption.
Defined.

