(* ===== verification/Derived.v ===== *)
(** * Derived tags ([engine/derived.go], and the part of
    [engine/lifecycle_support.go] that starts and swaps the evaluator)

    Tags computed from the latest values of other tags: extracting the names an
    expression refers to, rejecting tags that depend on themselves, evaluating
    a tag, and replacing the whole set on a running engine.  The expression
    language is the interface [DerivedExpr]. *)

From Stdlib Require Import ZArith Lia String Ascii.
From stdpp Require Import base list gmap strings relations.
From S2P Require Import Prelude GoFloat GoTime Types Util RuleEngine Cache DataBus Config.

Open Scope Z_scope.

Definition derivedDriverName : string := "derived".

(** ** The names an expression refers to *)

(** [[a-zA-Z_]] and [\w]. *)
Definition ident_start (c : ascii) : bool :=
  let n := N_of_ascii c in
  ((65 <=? n) && (n <=? 90) || (97 <=? n) && (n <=? 122) || (n =? 95))%N.
Definition ident_char (c : ascii) : bool :=
  let n := N_of_ascii c in ident_start c || ((48 <=? n) && (n <=? 57))%N.

(** [\w*], greedy. *)
Fixpoint span_ident (s : string) : string * string :=
  match s with
  | EmptyString => (EmptyString, EmptyString)
  | String c s' =>
      if ident_char c then let '(w, r) := span_ident s' in (String c w, r) else (EmptyString, s)
  end.

(** [identRe] at the head of the text. *)
Definition identRe (s : string) : option (string * string) :=
  match s with
  | EmptyString => None
  | String c s' =>
      if ident_start c then let '(w, r) := span_ident s' in Some (String c w, r) else None
  end.

Record qualifiedRef := mkRef { q_driver : string; q_tag : string }.

#[export] Instance qualifiedRef_eq_dec : EqDecision qualifiedRef.
Proof. solve_decision. Defined.

(** [qualifiedRefRe] at the head of the text. *)
Definition qualifiedRefRe (s : string) : option (qualifiedRef * string) :=
  match identRe s with
  | Some (d, String "."%char s') =>
      match identRe s' with
      | Some (t, r) => Some (mkRef d t, r)
      | None => None
      end
  | _ => None
  end.

(** The matches of a regular expression from left to right; a match is not
    empty, so the length of the text is enough fuel. *)
Fixpoint findAll {A} (re : string -> option (A * string)) (fuel : nat) (s : string) : list A :=
  match fuel, s with
  | S fuel', String _ s' =>
      match re s with
      | Some (x, r) => x :: findAll re fuel' r
      | None => findAll re fuel' s'
      end
  | _, _ => []
  end.

(** [ReplaceAllString] with four double low lines, in UTF-8. *)
Definition lowLine : string :=
  String (ascii_of_N 226) (String (ascii_of_N 128) (String (ascii_of_N 151) EmptyString)).
Definition blank : string := lowLine +:+ lowLine +:+ lowLine +:+ lowLine.

Fixpoint blankRefs (fuel : nat) (s : string) : string :=
  match fuel, s with
  | S fuel', String c s' =>
      match qualifiedRefRe s with
      | Some (_, r) => blank +:+ blankRefs fuel' r
      | None => String c (blankRefs fuel' s')
      end
  | _, _ => s
  end.

Definition exprBuiltins : gset string :=
  list_to_set
    ["true"; "false"; "nil"; "in"; "not"; "and"; "or"; "if"; "else"; "len"; "abs"; "ceil";
     "floor"; "round"; "int"; "float"; "string"; "toString"; "format"; "trim"; "trimPrefix";
     "trimSuffix"; "upper"; "lower"; "split"; "join"; "repeat"; "replace"; "contains";
     "startsWith"; "endsWith"; "matches"; "find"; "type"; "kind"; "isNil"]%string.

Definition extractVars (exprStr : string) : list string :=
  let blanked := blankRefs (String.length exprStr) exprStr in
  let matches := findAll identRe (String.length blanked) blanked in
  foldl (fun vars m =>
           if decide (m ∈ exprBuiltins \/ m ∈ vars) then vars else vars ++ [m]) [] matches.

Definition extractQualifiedRefs (exprStr : string) : list qualifiedRef :=
  foldl (fun refs r => if decide (r ∈ refs) then refs else refs ++ [r]) []
    (findAll qualifiedRefRe (String.length exprStr) exprStr).

(** ** Compiling *)

(** What an expression is evaluated in: a number, or the numbers of a driver. *)
Inductive envVal := EFloat (f : float) | EMap (m : gmap string float).

(** The expression library: [expr.Compile] and [expr.Run]. *)
Class DerivedExpr (prog : Type) := {
  dx_compile : string -> prog + error;
  dx_run : prog -> gmap string envVal -> Value + error;
}.

Inductive onMissingPolicy := onMissingSkip | onMissingBadQuality | onMissingZero.

#[export] Instance onMissingPolicy_eq_dec : EqDecision onMissingPolicy.
Proof. solve_decision. Defined.

Record compiledDerivedTag (prog : Type) := mkCompiled {
  ct_config : DerivedTagConfig;
  ct_program : prog;
  ct_vars : list string;
  ct_qualified : list qualifiedRef;
  ct_interval : Z;
  ct_staleGuard : Z;
  ct_onMissing : onMissingPolicy;
}.
Arguments mkCompiled {prog} _ _ _ _ _ _ _.
Arguments ct_config {prog} _.
Arguments ct_program {prog} _.
Arguments ct_vars {prog} _.
Arguments ct_qualified {prog} _.
Arguments ct_interval {prog} _.
Arguments ct_staleGuard {prog} _.
Arguments ct_onMissing {prog} _.

Section Compile.
Context {prog : Type} `{!DerivedExpr prog} `{!GoArch}.

Definition parseOnMissing (s : string) : res onMissingPolicy :=
  if decide (s = "" \/ s = "skip")%string then Ok onMissingSkip
  else if decide (s = "bad-quality"%string) then Ok onMissingBadQuality
  else if decide (s = "zero"%string) then Ok onMissingZero
  else Err (ErrFmt ("invalid on-missing " +:+ quote s +:+ " (want skip|bad-quality|zero)")).

Definition parseGuard (s : string) : res Z :=
  if decide (s = EmptyString) then Ok 0
  else match ParseDuration s with
       | Some d => Ok d
       | None => Err (ErrWrap ("parse stale-guard " +:+ quote s +:+ ": ") (durationError s) "")
       end.

Definition compileDerivedTag (cfg : DerivedTagConfig) : res (compiledDerivedTag prog) :=
  match ParseDuration (dt_Interval cfg) with
  | None => Err (ErrWrap ("parse interval " +:+ quote (dt_Interval cfg) +:+ ": ")
                   (durationError (dt_Interval cfg)) "")
  | Some interval =>
    if decide (interval < second) then
      Err (ErrFmt ("interval " +:+ Duration_String interval +:+ " must be >= 1s"))
    else
      let! staleGuard := parseGuard (dt_StaleGuard cfg) in
      let! onMissing := parseOnMissing (dt_OnMissing cfg) in
      match dx_compile (dt_Expr cfg) with
      | inr e => Err (ErrWrap ("compile expr " +:+ quote (dt_Expr cfg) +:+ ": ") e "")
      | inl program =>
        Ok (mkCompiled cfg program (extractVars (dt_Expr cfg)) (extractQualifiedRefs (dt_Expr cfg))
              interval staleGuard onMissing)
      end
  end.

Fixpoint compileAll (configs : list DerivedTagConfig) : res (list (compiledDerivedTag prog)) :=
  match configs with
  | [] => Ok []
  | cfg :: rest =>
    match compileDerivedTag cfg with
    | Err e => Err (ErrWrap ("derived tag " +:+ quote (dt_Name cfg) +:+ ": ") e "")
    | Panic => Panic
    | Ok ct => let! cts := compileAll rest in Ok (ct :: cts)
    end
  end.

End Compile.

(** ** Cycles *)

Section Cycles.
Context {prog : Type}.
Implicit Types t : compiledDerivedTag prog.

Definition ct_name t : string := dt_Name (ct_config t).

Definition tagsByName (tags : list (compiledDerivedTag prog))
  : gmap string (compiledDerivedTag prog) := foldl (fun m t => <[ct_name t := t]> m) ∅ tags.

(** The tags an expression may read another derived tag by: the qualified
    references to the synthetic driver, then the plain names. *)
Definition refNames t : list string :=
  omap (fun q => if decide (q_driver q = derivedDriverName) then Some (q_tag q) else None)
    (ct_qualified t) ++ ct_vars t.

Definition nexts (m : gmap string (compiledDerivedTag prog)) t : list (compiledDerivedTag prog) :=
  omap (fun n => m !! n) (refNames t).

Fixpoint joinArrow (l : list string) : string :=
  match l with
  | [] => EmptyString
  | [x] => x
  | x :: l => x +:+ " -> " +:+ joinArrow l
  end.

(** The path from the first occurrence of the name on; the whole path when it
    does not occur. *)
Fixpoint fromFirst (name : string) (path : list string) : option (list string) :=
  match path with
  | [] => None
  | p :: rest => if decide (p = name) then Some path else fromFirst name rest
  end.

Definition cycleError (path : list string) (name : string) : error :=
  ErrFmt ("derived tags form a cycle: " +:+ joinArrow (default path (fromFirst name path))
          +:+ " -> " +:+ name).

(** Running [visit] on tags in order until one fails; [None] is out of fuel. *)
Fixpoint visitAll (visit : compiledDerivedTag prog -> option (option error))
    (ts : list (compiledDerivedTag prog)) : option (option error) :=
  match ts with
  | [] => Some None
  | t :: rest =>
    match visit t with
    | Some None => visitAll visit rest
    | r => r
    end
  end.

(** [visit]; the visiting set is restored when the call returns. *)
Fixpoint visit (m : gmap string (compiledDerivedTag prog)) (fuel : nat) (path : list string)
    (visiting : gset string) t : option (option error) :=
  match fuel with
  | O => None
  | S fuel' =>
    let name := ct_name t in
    if decide (name ∈ visiting) then Some (Some (cycleError path name))
    else visitAll (visit m fuel' (path ++ [name]) ({[name]} ∪ visiting)) (nexts m t)
  end.

(** A call adds a name of the map to the visiting set, so the number of tags
    bounds the depth. *)
Definition detectDerivedCycles (tags : list (compiledDerivedTag prog)) : option (option error) :=
  visitAll (visit (tagsByName tags) (S (S (length tags))) [] ∅) tags.

End Cycles.

(** ** The evaluator *)

Section Evaluate.
Context {prog : Type} `{!DerivedExpr prog} `{!GoArch}.
Implicit Types tag : compiledDerivedTag prog.

(** [newDerivedTagEvaluator]: the tags of the evaluator. *)
Definition newDerivedTagEvaluator (configs : list DerivedTagConfig)
  : res (list (compiledDerivedTag prog)) :=
  match configs with
  | [] => Ok []
  | _ =>
    let! tags := compileAll configs in
    match detectDerivedCycles tags with
    | Some (Some e) => Err e
    | _ => Ok tags
    end
  end.

(** [toFloat64] of this file. *)
Definition toFloat64 (v : Value) : option float :=
  match v with
  | VFloat64 n => Some n
  | VFloat32 n => Some (f_round F64 n)
  | VInt n | VInt16 n | VInt32 n | VInt64 n
  | VUint n | VUint16 n | VUint32 n | VUint64 n => Some (f_of_Z F64 n)
  | VBool true => Some f_one
  | VBool false => Some f_zero
  | _ => None
  end.

(** The environment, the missing references and whether an input is stale. *)
Record envState := mkEnv {
  es_env : gmap string envVal;
  es_missing : list string;
  es_stale : bool;
}.

Definition driverEnv (driver : string) (env : gmap string envVal) : gmap string float :=
  match env !! driver with Some (EMap m) => m | _ => ∅ end.

Definition putFlat (v : string) (f : float) (env : gmap string envVal) : gmap string envVal :=
  <[v := EFloat f]> env.
Definition putQualified (q : qualifiedRef) (f : float) (env : gmap string envVal)
  : gmap string envVal :=
  <[q_driver q := EMap (<[q_tag q := f]> (driverEnv (q_driver q) env))]> env.

(** One reference: the point it resolves to, where its number goes, and its
    name among the missing. *)
Definition resolve (staleGuard now : Z) (name : string) (dp : option DataPoint)
    (put : float -> gmap string envVal -> gmap string envVal) (st : envState) : envState :=
  match dp with
  | Some dp =>
    match toFloat64 (dp_Value dp) with
    | Some f =>
      mkEnv (put f (es_env st)) (es_missing st)
        (es_stale st || bool_decide (staleGuard > 0 /\ time_Sub now (dp_Timestamp dp) > staleGuard))
    | None => mkEnv (put f_zero (es_env st)) (es_missing st ++ [name]) (es_stale st)
    end
  | None => mkEnv (put f_zero (es_env st)) (es_missing st ++ [name]) (es_stale st)
  end.

Definition buildEnv (vars : list string) (qualified : list qualifiedRef)
    (snapshot : gmap string DataPoint) (cache : LatestCache) (staleGuard now : Z) : envState :=
  let st := foldl (fun st v => resolve staleGuard now v (snapshot !! v) (putFlat v) st)
              (mkEnv ∅ [] false) vars in
  foldl (fun st q => resolve staleGuard now (q_driver q +:+ "." +:+ q_tag q)
                       (Get cache (q_driver q) (q_tag q)) (putQualified q) st) st qualified.

(** The point [evaluate] pushes, if any; [now] is the time in [buildEnv], [at_]
    the time of the point. *)
Definition evalPoint (order : nat -> list string) (now at_ : Z) (cache : LatestCache) tag
  : option DataPoint :=
  let st := buildEnv (ct_vars tag) (ct_qualified tag) (GetAll order cache) cache
              (ct_staleGuard tag) now in
  let missing := bool_decide (es_missing st <> []) in
  if missing && bool_decide (ct_onMissing tag = onMissingSkip) then None
  else
    match dx_run (ct_program tag) (es_env st) with
    | inr _ => None
    | inl result =>
      let good := match toFloat64 result with Some v => f_finite v | None => false end in
      if negb good && bool_decide (ct_onMissing tag = onMissingSkip) then None
      else
        let val := if good then default f_zero (toFloat64 result) else f_zero in
        let quality :=
          if missing && bool_decide (ct_onMissing tag = onMissingBadQuality)
             || negb good || es_stale st
          then QualityBad else QualityGood in
        let cfg := ct_config tag in
        Some (mkDataPoint derivedDriverName "" (dt_Group cfg) (dt_Name cfg) (VFloat64 val)
                (dt_Type cfg) quality at_
                (if decide (dt_Unit cfg = EmptyString) then ∅ else {["unit"%string := dt_Unit cfg]})
                (es_stale st))
    end.

Definition evaluate (order : nat -> list string) (now at_ : Z) (cache : LatestCache) tag
    (bus : DataBus) : DataBus :=
  match evalPoint order now at_ cache tag with
  | Some p => Push p bus
  | None => bus
  end.

(** [validateDerivedTags] of this package. *)
Fixpoint validateNames (names : gset string) (configs : list DerivedTagConfig) : option error :=
  match configs with
  | [] => None
  | cfg :: rest =>
    if decide (TrimSpace (dt_Name cfg) = EmptyString) then Some (ErrFmt "derived tag has empty name")
    else if decide (dt_Name cfg ∈ names) then
      Some (ErrFmt ("duplicate derived tag name " +:+ quote (dt_Name cfg)))
    else if decide (TrimSpace (dt_Expr cfg) = EmptyString) then
      Some (ErrFmt ("derived tag " +:+ quote (dt_Name cfg) +:+ " has empty expr"))
    else if decide (TrimSpace (dt_Interval cfg) = EmptyString) then
      Some (ErrFmt ("derived tag " +:+ quote (dt_Name cfg) +:+ " has empty interval"))
    else validateNames ({[dt_Name cfg]} ∪ names) rest
  end.
Definition validateDerivedTags (configs : list DerivedTagConfig) : option error :=
  validateNames ∅ configs.

End Evaluate.

(** ** Cycle detection is exact and terminates *)

Section CycleProofs.
Context {prog : Type}.
Implicit Types t : compiledDerivedTag prog.
Implicit Types tags : list (compiledDerivedTag prog).

(** Tag [n] reads tag [n']. *)
Definition reads (m : gmap string (compiledDerivedTag prog)) (n n' : string) : Prop :=
  exists t t', m !! n = Some t /\ n' ∈ refNames t /\ m !! n' = Some t'.

Definition named_tags (m : gmap string (compiledDerivedTag prog)) : Prop :=
  forall n t, m !! n = Some t -> ct_name t = n.

Lemma tagsByName_snoc tags t : tagsByName (tags ++ [t]) = <[ct_name t := t]> (tagsByName tags).
Proof. unfold tagsByName. by rewrite foldl_app. Qed.

Lemma tagsByName_named tags : named_tags (tagsByName tags).
Proof.
  induction tags as [|t tags IH] using rev_ind; [intros n t Hn; by apply (lookup_empty_Some (M := gmap string) n t) in Hn|].
  rewrite tagsByName_snoc. intros n t'. rewrite lookup_insert_Some. naive_solver.
Qed.

Lemma tagsByName_lookup tags t :
  NoDup (ct_name <$> tags) -> t ∈ tags -> tagsByName tags !! ct_name t = Some t.
Proof.
  induction tags as [|t' tags IH] using rev_ind; [by intros _ ?%elem_of_nil|].
  rewrite fmap_app. intros (Hnd & Hdis & _)%NoDup_app Hin. rewrite tagsByName_snoc.
  apply elem_of_app in Hin as [Hin|Hin%list_elem_of_singleton].
  - rewrite lookup_insert_ne; [by apply IH|]. intros Heq.
    apply (Hdis (ct_name t)); [by apply list_elem_of_fmap_2|]. rewrite <- Heq. left.
  - subst. by rewrite lookup_insert_eq.
Qed.

Lemma tagsByName_size tags : (size (tagsByName tags) <= length tags)%nat.
Proof.
  induction tags as [|t tags IH] using rev_ind; [done|]. rewrite tagsByName_snoc, length_app. simpl.
  destruct (tagsByName tags !! ct_name t) eqn:Hn.
  - rewrite map_size_insert_Some by (by eexists). lia.
  - rewrite map_size_insert_None by done. lia.
Qed.

Lemma tagsByName_elem tags n t : tagsByName tags !! n = Some t -> t ∈ tags.
Proof.
  induction tags as [|t' tags IH] using rev_ind;
    [intros Hn; by apply (lookup_empty_Some (M := gmap string) n t) in Hn|].
  rewrite tagsByName_snoc, elem_of_app, list_elem_of_singleton, lookup_insert_Some. naive_solver.
Qed.

Lemma nexts_reads m t t' :
  named_tags m -> m !! ct_name t = Some t -> t' ∈ nexts m t <->
  reads m (ct_name t) (ct_name t') /\ m !! ct_name t' = Some t'.
Proof.
  intros Hm Ht. unfold nexts, reads. rewrite list_elem_of_omap. split.
  - intros (n & Hn & Hl). rewrite (Hm _ _ Hl). naive_solver.
  - intros [(t1 & t2 & H1 & H2 & H3) Ht']. exists (ct_name t'). by simplify_eq.
Qed.

Lemma visitAll_error v ts e :
  visitAll v ts = Some (Some e) -> exists t, t ∈ ts /\ v t = Some (Some e).
Proof.
  induction ts as [|t ts IH]; simpl; [done|].
  destruct (v t) as [[e'|]|] eqn:Hv; [|intros Hr|done].
  - intros [= ->]. exists t. by split; [left|].
  - destruct (IH Hr) as (t' & ? & ?). exists t'. by split; [right|].
Qed.

Lemma visitAll_none v ts : visitAll v ts = Some None -> forall t, t ∈ ts -> v t = Some None.
Proof.
  induction ts as [|t ts IH]; simpl; [by intros _ ? ?%elem_of_nil|].
  destruct (v t) as [[e'|]|] eqn:Hv; [done|intros Hr t'|done].
  rewrite elem_of_cons. intros [->|?]; [done|by apply IH].
Qed.

Lemma visitAll_fuel v ts : (forall t, t ∈ ts -> v t <> None) -> visitAll v ts <> None.
Proof.
  induction ts as [|t ts IH]; intros Hv; simpl; [done|].
  specialize (Hv t) as Hvt. destruct (v t) as [[e|]|] eqn:E; [done| |].
  - apply IH. intros t' Ht'. apply Hv. by right.
  - exfalso. apply Hvt; [left|done].
Qed.

Lemma tc_first {A} (R : relation A) x y : tc R x y -> exists z, R x z /\ rtc R z y.
Proof. intros [? ? ?|? z ? ? ?]; [by eauto using rtc_refl|by eauto using tc_rtc]. Qed.

(** An error is a cycle: every visited name reaches the current tag. *)
Lemma visit_error m fuel path visiting t e :
  named_tags m -> m !! ct_name t = Some t ->
  (forall n, n ∈ visiting -> tc (reads m) n (ct_name t)) ->
  visit m fuel path visiting t = Some (Some e) -> exists n, tc (reads m) n n.
Proof.
  intros Hm. revert path visiting t. induction fuel as [|fuel IH]; intros path visiting t Ht Hr; [done|].
  simpl. case_decide as Hv; [by eauto|]. intros (t' & Hin & Hvis)%visitAll_error.
  apply nexts_reads in Hin as [Hread Ht']; [|done..]. eapply IH; [exact Ht'| |exact Hvis].
  intros n. rewrite elem_of_union, elem_of_singleton. intros [->|Hn]; [by apply tc_once|].
  eapply tc_r; [by apply Hr|done].
Qed.

(** A tag that passes reaches neither the visited names nor a cycle. *)
Lemma visit_none m fuel path visiting t :
  named_tags m -> m !! ct_name t = Some t -> visit m fuel path visiting t = Some None ->
  forall n, rtc (reads m) (ct_name t) n -> n ∉ visiting /\ ~ tc (reads m) n n.
Proof.
  intros Hm. revert path visiting t. induction fuel as [|fuel IH]; intros path visiting t Ht; [done|].
  simpl. case_decide as Hv; [done|]. intros Hall n Hn.
  assert (Hnext : forall n' n, reads m (ct_name t) n' -> rtc (reads m) n' n ->
            n ∉ {[ct_name t]} ∪ visiting /\ ~ tc (reads m) n n).
  { intros n' n0 Hr Hn0. destruct Hr as (t1 & t2 & H1 & H2 & H3).
    assert (Hname := Hm _ _ H3). subst n'. eapply (IH _ _ t2); [done| |done].
    apply (visitAll_none _ _ Hall). apply nexts_reads; [done..|]. split; [|done]. by exists t1, t2. }
  apply rtc_inv in Hn as [<-|(n' & Hr & Hn)].
  - split; [done|]. intros Hc. apply tc_first in Hc as (n' & Hr & Hn).
    destruct (Hnext n' (ct_name t) Hr Hn) as [Hni _]. set_solver.
  - destruct (Hnext n' n Hr Hn). set_solver.
Qed.

Lemma visit_fuel m fuel path visiting t :
  named_tags m -> m !! ct_name t = Some t -> visiting ⊆ dom m ->
  (size (dom m ∖ visiting) < fuel)%nat -> visit m fuel path visiting t <> None.
Proof.
  intros Hm. revert path visiting t. induction fuel as [|fuel IH]; intros path visiting t Ht Hsub Hf; [lia|].
  simpl. case_decide as Hv; [done|]. apply visitAll_fuel. intros t' Hin.
  apply nexts_reads in Hin as [_ Ht']; [|done..]. apply IH; [done| |].
  - assert (ct_name t ∈ dom m) by (by apply elem_of_dom_2 in Ht). set_solver.
  - eapply Nat.lt_le_trans; [apply (subset_size _ (dom m ∖ visiting))|lia].
    assert (ct_name t ∈ dom m) by (by apply elem_of_dom_2 in Ht). set_solver.
Qed.

Lemma detect_exact tags :
  NoDup (ct_name <$> tags) ->
  exists r, detectDerivedCycles tags = Some r /\
    (r <> None <-> exists n, tc (reads (tagsByName tags)) n n).
Proof.
  intros Hnd. set (m := tagsByName tags).
  assert (Hm : named_tags m) by apply tagsByName_named.
  assert (Hin : forall t, t ∈ tags -> m !! ct_name t = Some t) by (by intros; apply tagsByName_lookup).
  destruct (detectDerivedCycles tags) as [r|] eqn:Hr.
  2: { exfalso. revert Hr. apply visitAll_fuel. intros t Ht. apply visit_fuel; [done|by apply Hin|set_solver|].
       rewrite difference_empty_L, size_dom. pose proof (tagsByName_size tags). lia. }
  exists r. split; [done|]. unfold detectDerivedCycles in Hr. fold m in Hr. destruct r as [e|].
  - split; [intros _|done]. apply visitAll_error in Hr as (t & Ht & Hv).
    eapply visit_error; [done|by apply Hin| |exact Hv]. set_solver.
  - split; [done|]. intros [n Hc] _.
    assert (Hn : exists t, m !! n = Some t).
    { apply tc_first in Hc as (n' & (t & _ & Ht & _) & _). by exists t. }
    destruct Hn as [t Ht]. assert (Htags := tagsByName_elem _ _ _ Ht).
    assert (Hname := Hm _ _ Ht). subst n.
    pose proof (visitAll_none _ _ Hr t Htags) as Hv.
    destruct (visit_none m _ _ _ t Hm Ht Hv (ct_name t)) as [_ Hno]; [apply rtc_refl|]. by apply Hno.
Qed.

(** C13.  The cycle detection of derived tags terminates --
    it never exhausts a depth of the number of tags plus two -- and rejects a
    set of tags with distinct names exactly when some tag depends on itself
    through the references of the expressions. *)
Theorem derived_cycles_exact tags :
  NoDup (ct_name <$> tags) ->
  exists r, detectDerivedCycles tags = Some r /\
    (r <> None <-> exists n, tc (reads (tagsByName tags)) n n).
Proof. apply detect_exact. Qed.

End CycleProofs.

(** ** What a derived point is computed from *)

Section EvaluateProofs.
Context {prog : Type} `{!DerivedExpr prog} `{!GoArch}.
Implicit Types tag : compiledDerivedTag prog.

Definition num (dp : option DataPoint) : float :=
  default f_zero (dp ≫= fun dp => toFloat64 (dp_Value dp)).

(** A reference resolves to a number that is no older than the guard. *)
Definition usable (staleGuard now : Z) (dp : option DataPoint) : Prop :=
  exists p f, dp = Some p /\ toFloat64 (dp_Value p) = Some f /\
    (staleGuard > 0 -> time_Sub now (dp_Timestamp p) <= staleGuard).

Section Refs.
Context {A : Type} (guard now : Z) (nm : A -> string) (look : A -> option DataPoint).
Context (put : A -> float -> gmap string envVal -> gmap string envVal).

Definition resolveAll (l : list A) (st : envState) : envState :=
  foldl (fun st x => resolve guard now (nm x) (look x) (put x) st) st l.

Lemma resolveAll_env l st :
  es_env (resolveAll l st) = foldl (fun env x => put x (num (look x)) env) (es_env st) l.
Proof.
  unfold resolveAll. revert st. induction l as [|x l IH]; intros st; [done|]. simpl. rewrite IH. f_equal.
  unfold resolve, num. destruct (look x) as [dp|]; [|done]. simpl. by destruct (toFloat64 _).
Qed.

Lemma resolveAll_good l st :
  es_missing (resolveAll l st) = [] -> es_stale (resolveAll l st) = false ->
  es_missing st = [] /\ es_stale st = false /\ forall x, x ∈ l -> usable guard now (look x).
Proof.
  unfold resolveAll. revert st. induction l as [|x l IH]; intros st; simpl.
  { intros ? ?. split_and!; [done..|]. by intros ? ?%elem_of_nil. }
  intros Hm Hs. destruct (IH _ Hm Hs) as (Hm1 & Hs1 & Hl). clear IH Hm Hs. unfold resolve in Hm1, Hs1.
  destruct (look x) as [dp|] eqn:Hx; [destruct (toFloat64 (dp_Value dp)) as [f|] eqn:Hf|]; simpl in *.
  - apply orb_false_iff in Hs1 as [Hs1 Hold%bool_decide_eq_false]. split_and!; [done..|].
    intros y. rewrite elem_of_cons. intros [->|Hy]; [|by apply Hl]. exists dp, f. split_and!; [done..|].
    intros Hg. destruct (decide (time_Sub now (dp_Timestamp dp) > guard)); [by destruct Hold|lia].
  - by destruct (app_cons_not_nil (es_missing st) [] (nm x)).
  - by destruct (app_cons_not_nil (es_missing st) [] (nm x)).
Qed.

Lemma resolveAll_missing l st :
  es_missing st <> [] \/ (exists x, x ∈ l /\ look x = None) -> es_missing (resolveAll l st) <> [].
Proof.
  unfold resolveAll. revert st. induction l as [|x l IH]; intros st Hst; simpl.
  { destruct Hst as [?|(? & ?%elem_of_nil & _)]; done. }
  apply IH. destruct Hst as [Hst|(y & [->|Hy]%elem_of_cons & Hl)]; [left|left|by right; exists y].
  - unfold resolve. destruct (look x); [destruct (toFloat64 _)|]; simpl; by destruct (es_missing st).
  - unfold resolve. rewrite Hl. simpl. by destruct (es_missing st).
Qed.

End Refs.

Lemma flat_env look vars env v :
  v ∈ vars -> foldl (fun env x => putFlat x (num (look x)) env) env vars !! v = Some (EFloat (num (look v))).
Proof.
  induction vars as [|w vars IH] using rev_ind; [by intros ?%elem_of_nil|].
  rewrite foldl_app, elem_of_app, list_elem_of_singleton. simpl. unfold putFlat at 1.
  destruct (decide (v = w)) as [->|Hne]; [by rewrite lookup_insert_eq|].
  rewrite lookup_insert_ne by done. naive_solver.
Qed.

Lemma qualified_env_other look qs env v :
  v ∉ q_driver <$> qs -> foldl (fun env q => putQualified q (num (look q)) env) env qs !! v = env !! v.
Proof.
  revert env. induction qs as [|q qs IH]; intros env; [done|]. csimpl.
  rewrite not_elem_of_cons. intros [Hne Hq]. rewrite IH by done. unfold putQualified.
  by rewrite lookup_insert_ne.
Qed.

Lemma qualified_env look qs env q :
  q ∈ qs -> exists m, foldl (fun env q => putQualified q (num (look q)) env) env qs !! q_driver q = Some (EMap m) /\
    m !! q_tag q = Some (num (look q)).
Proof.
  induction qs as [|p qs IH] using rev_ind; [by intros ?%elem_of_nil|].
  rewrite foldl_app, elem_of_app, list_elem_of_singleton. simpl.
  set (env' := foldl _ env qs) in *. unfold putQualified.
  destruct (decide (q = p)) as [->|Hne]; [intros _|].
  { rewrite lookup_insert_eq. eexists. split; [done|]. by rewrite lookup_insert_eq. }
  intros [Hq| ->]; [|done]. destruct (IH Hq) as (m & Hm & Ht).
  destruct (decide (q_driver p = q_driver q)) as [Hd|Hd].
  - rewrite Hd, lookup_insert_eq. eexists. split; [done|].
    rewrite lookup_insert_ne; [|intros Hpt; apply Hne; destruct p, q; naive_solver].
    unfold driverEnv. by rewrite Hm.
  - rewrite lookup_insert_ne by done. by exists m.
Qed.

Lemma evalPoint_good order now at_ cache tag p :
  evalPoint order now at_ cache tag = Some p -> dp_Quality p = QualityGood ->
  ct_onMissing tag <> onMissingZero ->
  let st := buildEnv (ct_vars tag) (ct_qualified tag) (GetAll order cache) cache (ct_staleGuard tag) now in
  es_missing st = [] /\ es_stale st = false /\ dp_IsStale p = false /\
  exists v f, dx_run (ct_program tag) (es_env st) = inl v /\ toFloat64 v = Some f /\
    f_finite f = true /\ dp_Value p = VFloat64 f.
Proof.
  intros Hp Hq Hz st. unfold evalPoint in Hp. fold st in Hp.
  destruct (bool_decide (es_missing st <> []) && bool_decide (ct_onMissing tag = onMissingSkip)) eqn:Hskip; [done|].
  destruct (dx_run _ _) as [v|e] eqn:Hrun; [|done].
  destruct (toFloat64 v) as [f|] eqn:Hv; [destruct (f_finite f) eqn:Hf|];
    destruct (negb _ && bool_decide (ct_onMissing tag = onMissingSkip)); try done;
    injection Hp as <-; simpl in *; rewrite ?orb_true_r in Hq; try done.
  rewrite orb_false_r in Hq. destruct (es_stale st) eqn:Hs; [by rewrite orb_true_r in Hq|].
  rewrite orb_false_r in Hq. split_and!; [|done|done|by exists v, f].
  destruct (bool_decide_reflect (es_missing st <> [])) as [Hm|Hm]; [|by apply dec_stable in Hm].
  exfalso. destruct (ct_onMissing tag); done.
Qed.

(** A derived point of good quality comes from good
    inputs, unless missing inputs are to be read as zero: every tag its
    expression names was in the cache with a number no older than the stale
    guard, the expression was evaluated on exactly those numbers, and the value
    is the finite number it gave. *)
Theorem derived_good_point order now at_ cache tag p :
  evalPoint order now at_ cache tag = Some p -> dp_Quality p = QualityGood ->
  ct_onMissing tag <> onMissingZero ->
  let flat v := GetAll order cache !! v in
  let qualified q := Get cache (q_driver q) (q_tag q) in
  exists env v f,
    (forall x, x ∈ ct_vars tag -> usable (ct_staleGuard tag) now (flat x) /\
       (x ∉ q_driver <$> ct_qualified tag -> env !! x = Some (EFloat (num (flat x))))) /\
    (forall q, q ∈ ct_qualified tag -> usable (ct_staleGuard tag) now (qualified q) /\
       exists m, env !! q_driver q = Some (EMap m) /\ m !! q_tag q = Some (num (qualified q))) /\
    dx_run (ct_program tag) env = inl v /\ toFloat64 v = Some f /\ f_finite f = true /\
    dp_Value p = VFloat64 f /\ dp_IsStale p = false.
Proof.
  intros Hp Hq Hz flat qualified.
  destruct (evalPoint_good _ _ _ _ _ _ Hp Hq Hz) as (Hm & Hs & Hst & v & f & Hrun & Hv & Hf & Hval).
  unfold buildEnv in *. set (st0 := foldl _ (mkEnv ∅ [] false) _) in *.
  change (foldl _ st0 (ct_qualified tag)) with
    (resolveAll (ct_staleGuard tag) now (fun q => q_driver q +:+ "." +:+ q_tag q) qualified putQualified
       (ct_qualified tag) st0) in *.
  destruct (resolveAll_good _ _ _ _ _ _ _ Hm Hs) as (Hm0 & Hs0 & Hqual).
  change st0 with (resolveAll (ct_staleGuard tag) now (fun v : string => v) flat putFlat (ct_vars tag)
                     (mkEnv ∅ [] false)) in *.
  destruct (resolveAll_good _ _ _ _ _ _ _ Hm0 Hs0) as (_ & _ & Hflat).
  rewrite !resolveAll_env in Hrun. eexists _, v, f. split_and!; [| |exact Hrun|done..].
  - intros x Hx. split; [by apply Hflat|]. intros Hxq.
    rewrite qualified_env_other by done. by apply flat_env.
  - intros q Hq'. split; [by apply Hqual|]. by apply qualified_env.
Qed.

(** A documented function that is not in the list of built-ins is taken for a
    tag: a tag that skips on missing inputs and calls [max] never gives a
    point, unless a tag is named [max]. *)
Theorem derived_max_is_a_tag order now at_ cache tag :
  ct_vars tag = extractVars "max(a, b)" -> ct_onMissing tag = onMissingSkip ->
  GetAll order cache !! "max"%string = None -> evalPoint order now at_ cache tag = None.
Proof.
  intros Hv Hskip Hmax. unfold evalPoint.
  set (st := buildEnv _ _ _ _ _ _). assert (Hm : es_missing st <> []).
  { apply resolveAll_missing. left. apply (resolveAll_missing _ _ (fun v : string => v)). right.
    exists "max"%string. split; [|done]. rewrite Hv.
    change (extractVars "max(a, b)") with ["max"; "a"; "b"]%string. left. }
  rewrite bool_decide_eq_true_2 by done. rewrite bool_decide_eq_true_2 by done. done.
Qed.

(** The eight-bit integers are the numbers an expression cannot read: a tag of
    such a type counts as missing. *)
Theorem derived_misses_int8 v :
  (ToFloat64OK v).2 = true -> (toFloat64 v = None <-> exists z, v = VInt8 z \/ v = VUint8 z).
Proof. intros Hv. destruct v; simpl in *; split; try done; try naive_solver; by destruct b. Qed.

End EvaluateProofs.

(** ** Replacing the tags of a running engine *)

Section Swap.
Context {prog : Type} `{!DerivedExpr prog} `{!GoArch}.

(** The part of [lifecycleSupport] and the runtime the evaluator lives in:
    evaluators are numbered, [ls_live] holds those whose goroutines run;
    [ls_ctx] says whether the runtime context exists. *)
Record derivedSupport := mkDS {
  ls_ctx : bool;
  ls_evaluator : option nat;
  ls_tags : gmap nat (list (compiledDerivedTag prog));
  ls_live : gset nat;
  ls_next : nat;
}.

(** [swapDerivedEvaluator]: the evaluator that was active before. *)
Definition swapDerivedEvaluator (ev : option nat) (l : derivedSupport) : option nat * derivedSupport :=
  (ls_evaluator l, mkDS (ls_ctx l) ev (ls_tags l) (ls_live l) (ls_next l)).

(** [start] and [stop] of an evaluator; [stop] waits for its goroutines. *)
Definition startEvaluator (ev : nat) (l : derivedSupport) : derivedSupport :=
  mkDS (ls_ctx l) (ls_evaluator l) (ls_tags l) ({[ev]} ∪ ls_live l) (ls_next l).
Definition stopEvaluator (ev : nat) (l : derivedSupport) : derivedSupport :=
  mkDS (ls_ctx l) (ls_evaluator l) (ls_tags l) (ls_live l ∖ {[ev]}) (ls_next l).

(** The validated and compiled evaluator, not yet installed. *)
Definition buildEvaluator (configs : list DerivedTagConfig) (l : derivedSupport)
  : (nat + error) * derivedSupport :=
  match validateDerivedTags configs with
  | Some e => (inr (ErrWrap "derived tags config: " e ""), l)
  | None =>
    match newDerivedTagEvaluator configs with
    | Ok tags => (inl (ls_next l), mkDS (ls_ctx l) (ls_evaluator l) (<[ls_next l := tags]> (ls_tags l))
                                      (ls_live l) (S (ls_next l)))
    | Err e => (inr (ErrWrap "derived tags: " e ""), l)
    | Panic => (inr (ErrFmt ""), l)
    end
  end.

Definition startDerivedTags (configs : list DerivedTagConfig) (l : derivedSupport)
  : option error * derivedSupport :=
  match buildEvaluator configs l with
  | (inr e, l) => (Some e, l)
  | (inl ev, l) => (None, startEvaluator ev (swapDerivedEvaluator (Some ev) l).2)
  end.

Definition applyDerivedTags (configs : list DerivedTagConfig) (l : derivedSupport)
  : option error * derivedSupport :=
  if ls_ctx l then
    match buildEvaluator configs l with
    | (inr e, l) => (Some e, l)
    | (inl ev, l) =>
      let '(old, l) := swapDerivedEvaluator (Some ev) l in
      let l := match old with Some old => stopEvaluator old l | None => l end in
      (None, startEvaluator ev l)
    end
  else (Some (ErrFmt "engine not started: derived tags can only be applied to a running engine"), l).

(** The part of [Stop]: detaching and joining the evaluator. *)
Definition stopDerived (l : derivedSupport) : derivedSupport :=
  let '(old, l) := swapDerivedEvaluator None l in
  match old with Some ev => stopEvaluator ev l | None => l end.

End Swap.
Arguments derivedSupport : clear implicits.

Section SwapProofs.
Context {prog : Type} `{!DerivedExpr prog} `{!GoArch}.
Implicit Types l : derivedSupport prog.

Lemma compileDerivedTag_ok cfg (ct : compiledDerivedTag prog) :
  compileDerivedTag cfg = Ok ct -> ct_config ct = cfg /\ second <= ct_interval ct.
Proof.
  unfold compileDerivedTag. destruct (ParseDuration _) as [d|]; [|done]. case_decide; [done|].
  destruct (parseGuard _); simpl; [|done..]. destruct (parseOnMissing _); simpl; [|done..].
  destruct (dx_compile _); [|done]. intros [= <-]. simpl. split; [done|lia].
Qed.

Lemma compileDerivedTag_no_panic cfg : compileDerivedTag (prog := prog) cfg <> Panic.
Proof.
  unfold compileDerivedTag, parseGuard, parseOnMissing.
  destruct (ParseDuration _); [|done]. repeat (case_decide; simpl; try done);
    try (destruct (ParseDuration _); simpl; [|done]); try done; by destruct (dx_compile _).
Qed.

Lemma compileAll_ok configs (tags : list (compiledDerivedTag prog)) :
  compileAll configs = Ok tags ->
  ct_config <$> tags = configs /\ Forall (fun t => second <= ct_interval t) tags.
Proof.
  revert tags. induction configs as [|cfg configs IH]; intros tags; simpl; [by intros [= <-]|].
  destruct (compileDerivedTag cfg) as [ct|e|] eqn:Hc; [|done..].
  destruct (compileAll configs) as [cts|e|]; simpl; [|done..]. intros [= <-].
  apply compileDerivedTag_ok in Hc as [Hcfg Hint]. destruct (IH cts eq_refl) as [Hcs Hints].
  csimpl. split; [by rewrite Hcfg, Hcs|by constructor].
Qed.

Lemma compileAll_no_panic configs : compileAll (prog := prog) configs <> Panic.
Proof.
  induction configs as [|cfg configs IH]; simpl; [done|].
  destruct (compileDerivedTag cfg) eqn:Hc; [|done|by apply compileDerivedTag_no_panic in Hc].
  by destruct (compileAll configs).
Qed.

Lemma newDerivedTagEvaluator_no_panic configs : newDerivedTagEvaluator (prog := prog) configs <> Panic.
Proof.
  destruct configs as [|cfg configs]; [done|]. unfold newDerivedTagEvaluator.
  destruct (compileAll _) eqn:Hc; simpl; [|done|by apply compileAll_no_panic in Hc].
  by destruct (detectDerivedCycles _) as [[?|]|].
Qed.

Lemma validateNames_nodup names configs :
  validateNames names configs = None ->
  NoDup (dt_Name <$> configs) /\ (forall n, n ∈ dt_Name <$> configs -> n ∉ names).
Proof.
  revert names. induction configs as [|cfg configs IH]; intros names; simpl;
    [split; [constructor|by intros ? ?%elem_of_nil]|].
  do 4 (case_decide; [done|]). intros [Hnd Hno]%IH. split.
  - constructor; [|done]. intros Hin%Hno. set_solver.
  - intros n. rewrite elem_of_cons. intros [->|Hin%Hno]; [done|]. set_solver.
Qed.

(** The tags of an evaluator that was accepted. *)
Record accepted (configs : list DerivedTagConfig) (tags : list (compiledDerivedTag prog)) : Prop := {
  acc_configs : ct_config <$> tags = configs;
  acc_names : NoDup (ct_name <$> tags);
  acc_interval : Forall (fun t => second <= ct_interval t) tags;
  acc_acyclic n : ~ tc (reads (tagsByName tags)) n n;
}.

Lemma newDerivedTagEvaluator_ok configs tags :
  validateDerivedTags configs = None -> newDerivedTagEvaluator configs = Ok tags ->
  accepted configs tags.
Proof.
  intros [Hnd _]%validateNames_nodup Hnew. destruct configs as [|cfg configs].
  { injection Hnew as <-. constructor; [done|constructor..|].
    intros n (n' & (t & ? & Hn & _) & _)%tc_first. by apply (lookup_empty_Some (M := gmap string) n t) in Hn. }
  unfold newDerivedTagEvaluator in Hnew. destruct (compileAll _) as [cts|e|] eqn:Hc; [|done..]. simpl in Hnew.
  apply compileAll_ok in Hc as [Hcfg Hint].
  assert (Hnd' : NoDup (ct_name <$> cts)).
  { replace (ct_name <$> cts) with (dt_Name <$> (ct_config <$> cts)) by (by rewrite <- list_fmap_compose).
    by rewrite Hcfg. }
  destruct (detect_exact cts Hnd') as (r & Hr & Hiff). rewrite Hr in Hnew.
  destruct r as [e|]; [done|]. injection Hnew as <-. constructor; [done..|].
  intros n Hn. assert (None <> @None error) as []; [|done]. apply Hiff. by exists n.
Qed.

(** Exactly the installed evaluator runs. *)
Record derived_inv l : Prop := {
  dv_live : ls_live l = match ls_evaluator l with Some ev => {[ev]} | None => ∅ end;
  dv_next ev : ls_evaluator l = Some ev -> (ev < ls_next l)%nat;
}.

Lemma derived_swap configs l err l' :
  derived_inv l -> applyDerivedTags configs l = (err, l') ->
  derived_inv l' /\
  match err with
  | Some _ => l' = l
  | None => ls_ctx l = true /\ exists ev tags, ls_evaluator l' = Some ev /\ ls_live l' = {[ev]} /\
              ls_tags l' !! ev = Some tags /\ accepted configs tags
  end.
Proof.
  intros [Hlive Hnext]. unfold applyDerivedTags, buildEvaluator.
  destruct (ls_ctx l) eqn:Hctx; [|by intros [= <- <-]].
  destruct (validateDerivedTags configs) eqn:Hv; [by intros [= <- <-]|].
  destruct (newDerivedTagEvaluator configs) as [tags|e|] eqn:Hnew;
    [|by intros [= <- <-]|by apply newDerivedTagEvaluator_no_panic in Hnew].
  apply newDerivedTagEvaluator_ok in Hnew; [|done].
  intros [= <- <-].
  set (l1 := match ls_evaluator l with Some _ => _ | None => _ end).
  assert (Hl1 : ls_live l1 = ∅ /\ ls_evaluator l1 = Some (ls_next l) /\ ls_next l1 = S (ls_next l) /\
                ls_tags l1 = <[ls_next l := tags]> (ls_tags l)).
  { unfold l1. destruct (ls_evaluator l) as [ev|]; simpl; rewrite Hlive; split_and!; try done. set_solver. }
  destruct Hl1 as (H1 & H2 & H3 & H4). unfold startEvaluator.
  assert (Hone : {[ls_next l]} ∪ ls_live l1 = ({[ls_next l]} : gset nat)) by (rewrite H1; set_solver).
  split; [constructor; simpl; rewrite H2; [done|intros ev [= <-]; lia]|].
  split; [done|]. exists (ls_next l), tags. simpl. rewrite H4, lookup_insert_eq. done.
Qed.

(** Applying derived tags to an engine replaces the
    whole set or changes nothing: on an error the engine is as before, and on
    success exactly one evaluator runs, with one tag per configuration, distinct
    names, periods of at least one second and no cycle. *)
Theorem derived_swap_fail_safe configs l err l' :
  derived_inv l -> applyDerivedTags configs l = (err, l') ->
  derived_inv l' /\
  match err with
  | Some _ => l' = l
  | None => ls_ctx l = true /\ exists ev tags, ls_evaluator l' = Some ev /\ ls_live l' = {[ev]} /\
              ls_tags l' !! ev = Some tags /\ accepted configs tags
  end.
Proof. apply derived_swap. Qed.

End SwapProofs.

(** ** Concrete instances *)

Module Demo.

(** An expression evaluates to the number of tag [a]. *)
#[global] Instance expr : DerivedExpr string := {|
  dx_compile := fun (s : string) => inl s;
  dx_run := fun (_ : string) (env : gmap string envVal) =>
    match env !! "a"%string with Some (EFloat f) => inl (VFloat64 f) | _ => inr (ErrFmt "") end |}.

Definition config (name e : string) : DerivedTagConfig :=
  mkDerivedTagConfig name e TypeFloat64 "" "1s" "" "" "30s".

Definition tag (name e : string) : compiledDerivedTag string :=
  mkCompiled (config name e) e (extractVars e) (extractQualifiedRefs e) second (30 * second) onMissingSkip.

Definition tags : list (compiledDerivedTag string) := [tag "x" "derived.y + 1"; tag "y" "x * 2"].

Definition cache : LatestCache :=
  Update (mkDataPoint "plc" "" "" "b" (VInt32 3) TypeInt32 QualityGood 0 ∅ false)
    (Update (mkDataPoint "plc" "" "" "a" (VFloat64 f_one) TypeFloat64 QualityGood 0 ∅ false)
       NewLatestCache).

Definition order (i : nat) : list string :=
  if decide (i = cacheShardIdx "plc") then ["plc"%string] else [].

Definition point : DataPoint :=
  mkDataPoint "derived" "" "" "x" (VFloat64 f_one) TypeFloat64 QualityGood 1 ∅ false.

Definition support : derivedSupport string := mkDS true (Some 0%nat) {[0%nat := []]} {[0%nat]} 1.

End Demo.

Lemma derived_cycles_exact_witness :
  NoDup (ct_name <$> Demo.tags) /\
  exists r, detectDerivedCycles Demo.tags = Some r /\
    (r <> None <-> exists n, tc (reads (tagsByName Demo.tags)) n n).
Proof.
  assert (Hnd : NoDup (ct_name <$> Demo.tags)) by (vm_compute; repeat constructor; set_solver).
  split; [exact Hnd|apply (derived_cycles_exact Demo.tags Hnd)].
Defined.

Lemma derived_good_point_witness :
  evalPoint Demo.order 1 1 Demo.cache (Demo.tag "x" "a * plc.b") = Some Demo.point /\
  dp_Quality Demo.point = QualityGood /\
  exists env v f,
    dx_run (ct_program (Demo.tag "x" "a * plc.b")) env = inl v /\ toFloat64 v = Some f /\
    f_finite f = true /\ dp_Value Demo.point = VFloat64 f.
Proof.
  assert (He : evalPoint Demo.order 1 1 Demo.cache (Demo.tag "x" "a * plc.b") = Some Demo.point)
    by (vm_compute; reflexivity).
  split; [exact He|]. split; [reflexivity|].
  destruct (derived_good_point Demo.order 1 1 Demo.cache (Demo.tag "x" "a * plc.b") Demo.point
              He eq_refl ltac:(discriminate)) as (env & v & f & _ & _ & H1 & H2 & H3 & H4 & _).
  exists env, v, f. auto.
Defined.

Lemma derived_swap_fail_safe_witness :
  derived_inv Demo.support /\
  derived_inv (applyDerivedTags (H := amd64_f2i) [Demo.config "x" "a * plc.b"] Demo.support).2 /\
  ls_live (applyDerivedTags (H := amd64_f2i) [Demo.config "x" "a * plc.b"] Demo.support).2 = {[1%nat]}.
Proof.
  assert (Hi : derived_inv Demo.support).
  { constructor; [reflexivity|]. intros ev [= <-]. simpl. lia. }
  split; [exact Hi|]. split; [|vm_compute; reflexivity].
  exact (proj1 (derived_swap_fail_safe _ _ _ _ Hi (surjective_pairing _))).
Defined.
