(* ===== verification/Validate.v ===== *)
(** * Validating a configuration ([config/validate.go])

    The checks a configuration passes before it is started or applied, and the
    warnings that do not block it.  The checks accept exactly the configurations
    of the declarative description [wf_config]. *)

From Stdlib Require Import ZArith Lia String Ascii.
From stdpp Require Import base list gmap strings.
From S2P Require Import Prelude GoFloat GoTime Types Util RuleEngine Batcher Config Manager.

Open Scope Z_scope.

(** ** Checks in sequence *)

(** An early return: the first error wins. *)
Definition orErr (a b : option error) : option error := match a with Some e => Some e | None => b end.
Notation "a ';?' b" := (orErr a b) (at level 60, right associativity) : corec_scope.

Definition failIf (P : Prop) `{Decision P} (e : error) : option error := if decide P then Some e else None.

(** Wrapping the error of a call. *)
Definition wrapErr (pre : string) (a : option error) : option error :=
  match a with Some e => Some (ErrWrap pre e "") | None => None end.

(** The drivers and transports that are registered: their type names, and the
    settings check of a component that has one ([CreateDriver] and
    [SettingsValidator]). *)
Class Registry := {
  RegisteredDrivers : list string;
  RegisteredTransports : list string;
  driverSettings : DriverConfig -> option error;
  transportSettings : TransportConfig -> option error;
}.

Fixpoint join (sep : string) (l : list string) : string :=
  match l with
  | [] => EmptyString
  | [x] => x
  | x :: l => x +:+ sep +:+ join sep l
  end.

(** [strings.ContainsAny]. *)
Fixpoint ContainsAny (s : string) (cs : list ascii) : bool :=
  match s with
  | EmptyString => false
  | String c s' => bool_decide (c ∈ cs) || ContainsAny s' cs
  end.

Section Validate.
Context `{!Registry} `{!GoArch}.

Definition validateBuffer (cfg : Config) : option error :=
  let b := gl_Buffer (cf_Global cfg) in
  if bf_Enabled b then
    failIf (bf_Path b = EmptyString) (ErrFmt "buffer.enabled is true but buffer.path is not set") ;?
    failIf (bf_MaxSize b > 0 /\ bf_MaxSize b < 10)
      (ErrFmt ("buffer.max-size must be at least 10, got " +:+ itoa (bf_MaxSize b)))
  else None.

Definition engineDurations (c : EngineConfig) : list (string * string) :=
  [("engine.default-tag-interval", ec_DefaultTagInterval c);
   ("engine.shutdown-timeout", ec_ShutdownTimeout c);
   ("engine.error-throttle-window", ec_ErrorThrottleWindow c);
   ("engine.stale-threshold", ec_StaleThreshold c);
   ("engine.write-min-interval", ec_WriteMinInterval c);
   ("engine.alert-active-window", ec_AlertActiveWindow c)]%string.

Definition checkDuration (f : string * string) : option error :=
  let '(name, value) := f in
  if decide (value = EmptyString) then None
  else
    match ParseDuration value with
    | None => Some (ErrWrap (name +:+ ": invalid duration " +:+ quote value +:+
                " (use Go duration syntax, e.g. 500ms, 30s, 15m): ") (durationError value) "")
    | Some d => failIf (d <= 0) (ErrFmt (name +:+ ": must be positive, got " +:+ quote value))
    end.

(** A loop over checks. *)
Fixpoint checkAll {A} (f : A -> option error) (l : list A) : option error :=
  match l with [] => None | x :: l => f x ;? checkAll f l end.

Definition badQualityNames : list string := ["publish"; "drop"; "mark-and-publish"; "alert"]%string.

Definition validateEngine (cfg : Config) : option error :=
  let c := gl_Engine (cf_Global cfg) in
  checkAll checkDuration (engineDurations c) ;?
  failIf (to_lower (ec_OnBadQuality c) ∉ EmptyString :: badQualityNames)
    (ErrFmt ("engine.on-bad-quality: invalid value " +:+ quote (ec_OnBadQuality c) +:+
             " (want publish|drop|mark-and-publish|alert)")).

Definition validateDataSources (cfg : Config) : option error := None.

Definition validatePositiveDuration (driverName tagName field value : string) : option error :=
  let pre := "driver " +:+ driverName +:+ ": tag " +:+ quote tagName +:+ ": " in
  if decide (value = EmptyString) then None
  else
    match ParseDuration value with
    | None => Some (ErrWrap (pre +:+ "invalid " +:+ field +:+ " " +:+ quote value +:+ ": ")
                      (durationError value) "")
    | Some dur => failIf (dur <= 0)
                    (ErrFmt (pre +:+ field +:+ " must be positive, got " +:+ Duration_String dur))
    end.

Definition typeNames : string :=
  "bool, int8, int16, int32, int64, uint8, uint16, uint32, uint64, float32, float64, string, bytes".

Definition protectNames : list string := [""; "read-write"; "read-only"; "write-only"]%string.

Definition separators : list ascii := [" "; ","; ";"]%char.

(** The heartbeat checks of [validateTag]. *)
Definition validateEnforce (pre : string) (tag : TagConfig) : option error :=
  if decide (tc_EnforceInterval tag = EmptyString) then None
  else
    failIf (fleb (tc_DeadBand tag) f_zero = true)
      (ErrFmt (pre +:+ "enforce-interval requires a non-zero deadband (every sample is already published without one)")) ;?
    match ParseDuration (tc_EnforceInterval tag) with
    | None => Some (ErrWrap (pre +:+ "invalid enforce-interval " +:+ quote (tc_EnforceInterval tag) +:+ ": ")
                      (durationError (tc_EnforceInterval tag)) "")
    | Some enforce =>
      failIf (enforce <= 0)
        (ErrFmt (pre +:+ "enforce-interval must be positive, got " +:+ Duration_String enforce)) ;?
      if decide (tc_Interval tag = EmptyString) then None
      else
        match ParseDuration (tc_Interval tag) with
        | Some interval =>
          failIf (enforce < interval)
            (ErrFmt (pre +:+ "enforce-interval " +:+ Duration_String enforce +:+ " must be >= interval "
                     +:+ Duration_String interval +:+ " (a shorter heartbeat can never fire)"))
        | None => None
        end
    end.

(** [validateTag], with the names already seen. *)
Definition validateTag (driverName : string) (tag : TagConfig) (tagNames : gset string) : option error :=
  let pre := "driver " +:+ driverName +:+ ": tag " +:+ quote (tc_Name tag) +:+ ": " in
  failIf (tc_Name tag = EmptyString) (ErrFmt ("driver " +:+ driverName +:+ ": tag name cannot be empty")) ;?
  failIf (tc_Name tag ∈ tagNames)
    (ErrFmt ("driver " +:+ driverName +:+ ": duplicate tag name " +:+ quote (tc_Name tag))) ;?
  failIf (tc_Address tag = EmptyString) (ErrFmt (pre +:+ "address cannot be empty")) ;?
  failIf (tc_Type tag = EmptyString) (ErrFmt (pre +:+ "type cannot be empty")) ;?
  failIf ((ParseDataType (tc_Type tag)).2 = false)
    (ErrFmt (pre +:+ "invalid type " +:+ quote (tc_Type tag) +:+ " (valid: " +:+ typeNames +:+ ")")) ;?
  validatePositiveDuration driverName (tc_Name tag) "interval" (tc_Interval tag) ;?
  validatePositiveDuration driverName (tc_Name tag) "read-timeout" (tc_ReadTimeout tag) ;?
  failIf (tc_TriggerGroup tag <> EmptyString /\ tc_Triggers tag <> EmptyString)
    (ErrFmt (pre +:+ "trigger-group and triggers are mutually exclusive")) ;?
  failIf (tc_TriggerGroup tag <> EmptyString /\ ContainsAny (tc_TriggerGroup tag) separators = true)
    (ErrFmt (pre +:+ "invalid trigger-group " +:+ quote (tc_TriggerGroup tag) +:+ " (no spaces or separators)")) ;?
  failIf (tc_Protect tag ∉ protectNames)
    (ErrFmt (pre +:+ "invalid protect " +:+ quote (tc_Protect tag) +:+
             " (valid: read-write, read-only, write-only, or empty)")) ;?
  validateEnforce pre tag.

(** The loop over the tags, and the names it has seen. *)
Fixpoint validateTags (driverName : string) (tags : list TagConfig) (tagNames : gset string) : option error :=
  match tags with
  | [] => None
  | tag :: rest =>
    validateTag driverName tag tagNames ;? validateTags driverName rest ({[tc_Name tag]} ∪ tagNames)
  end.

Definition conditionNames (tags : list TagConfig) : gset string :=
  list_to_set (tc_Name <$> filter (fun t => tc_TriggerGroup t <> EmptyString) tags).

Definition validateTrigger (d : DriverConfig) (tag : TagConfig) : option error :=
  if decide (tc_Triggers tag = EmptyString \/ tc_Name tag ∉ (list_to_set (tc_Name <$> dc_Tags d) : gset string))
  then None
  else failIf (tc_Triggers tag ∉ conditionNames (dc_Tags d))
         (ErrFmt ("driver " +:+ dc_Name d +:+ ": tag " +:+ quote (tc_Name tag) +:+ ": triggers " +:+
                  quote (tc_Triggers tag) +:+ ", which is not a trigger-group condition on this driver")).

Definition validateDriver (d : DriverConfig) (driverNames : gset string) : option error :=
  let pre := "driver " +:+ dc_Name d +:+ ": " in
  failIf (dc_Name d = EmptyString) (ErrFmt "driver name cannot be empty") ;?
  failIf (dc_Name d ∈ driverNames) (ErrFmt ("duplicate driver name: " +:+ dc_Name d)) ;?
  failIf (dc_Type d = EmptyString) (ErrFmt (pre +:+ "type cannot be empty")) ;?
  failIf (RegisteredDrivers <> [] /\ dc_Type d ∉ RegisteredDrivers)
    (ErrFmt (pre +:+ "unknown type " +:+ quote (dc_Type d) +:+ " (registered: " +:+
             join ", " RegisteredDrivers +:+ ")")) ;?
  failIf (dc_Tags d = []) (ErrFmt (pre +:+ "at least one tag must be configured")) ;?
  validateTags (dc_Name d) (dc_Tags d) ∅ ;?
  checkAll (validateTrigger d) (dc_Tags d).

Fixpoint validateDriversFrom (ds : list DriverConfig) (names : gset string) : option error :=
  match ds with
  | [] => None
  | d :: rest => validateDriver d names ;? validateDriversFrom rest ({[dc_Name d]} ∪ names)
  end.
Definition validateDrivers (cfg : Config) : option error := validateDriversFrom (cf_Drivers cfg) ∅.

Definition validateAPI (cfg : Config) : option error :=
  let a := gl_API (cf_Global cfg) in
  if decide (ap_Listen a = EmptyString) then None
  else
    failIf (ap_Secret a = EmptyString) (ErrFmt "api.secret is required when api.listen is set") ;?
    failIf (String.length (ap_Secret a) < 8)%nat
      (ErrFmt ("api.secret must be at least 8 characters, got " +:+
               itoa (Z.of_nat (String.length (ap_Secret a))))).

Definition misplacedKeys : list string :=
  ["batch-size"; "batch_size"; "flush-interval"; "flush_interval"; "retry-count"; "retry_count";
   "buffer-size"; "buffer_size"; "fallback"]%string.

Definition checkMisplaced (t : TransportConfig) (miskey : string) : option error :=
  failIf (is_Some (tp_Settings t !! miskey))
    (ErrFmt ("transport " +:+ tp_Name t +:+ ": field " +:+ quote miskey +:+
             " must be a top-level transport field (sibling of `settings`), not an entry inside `settings`; move it out one indentation level")).

Definition validateTransport (t : TransportConfig) (transportNames : gset string) : option error :=
  let pre := "transport " +:+ tp_Name t +:+ ": " in
  failIf (tp_Name t = EmptyString) (ErrFmt "transport name cannot be empty") ;?
  failIf (tp_Name t ∈ transportNames) (ErrFmt ("duplicate transport name: " +:+ tp_Name t)) ;?
  failIf (tp_Type t = EmptyString) (ErrFmt (pre +:+ "type cannot be empty")) ;?
  failIf (RegisteredTransports <> [] /\ tp_Type t ∉ RegisteredTransports)
    (ErrFmt (pre +:+ "unknown type " +:+ quote (tp_Type t) +:+ " (registered: " +:+
             join ", " RegisteredTransports +:+ ")")) ;?
  checkAll (checkMisplaced t) misplacedKeys.

Fixpoint validateTransportsFrom (ts : list TransportConfig) (names : gset string)
  : option error * gset string :=
  match ts with
  | [] => (None, names)
  | t :: rest =>
    match validateTransport t names with
    | Some e => (Some e, ∅)
    | None => validateTransportsFrom rest ({[tp_Name t]} ∪ names)
    end
  end.
Definition validateTransports (cfg : Config) : option error * gset string :=
  validateTransportsFrom (cf_Transports cfg) ∅.

Definition validActions : list string := ["forward"; "drop"; "alert"; "transform"; "mirror"]%string.

Definition validateRule (transportNames : gset string) (r : RuleConfig) (ruleNames : gset string)
  : option error :=
  let pre := "rule " +:+ rc_Name r +:+ ": " in
  let missing t := ErrFmt (pre +:+ "target transport " +:+ quote t +:+ " not found") in
  failIf (rc_Name r = EmptyString) (ErrFmt "rule name cannot be empty") ;?
  failIf (rc_Name r ∈ ruleNames) (ErrFmt ("duplicate rule name: " +:+ rc_Name r)) ;?
  failIf (rc_Action r = EmptyString) (ErrFmt (pre +:+ "action cannot be empty")) ;?
  failIf (to_lower (rc_Action r) ∉ validActions)
    (ErrFmt (pre +:+ "unknown action " +:+ quote (rc_Action r) +:+
             " (valid: forward, drop, alert, transform, mirror)")) ;?
  failIf (rc_Match r = EmptyString) (ErrFmt (pre +:+ "match cannot be empty")) ;?
  failIf (EqualFold (rc_Action r) "drop" = true /\ rc_Continue r = true)
    (ErrFmt (pre +:+ "drop action cannot set continue: true")) ;?
  failIf (rc_Target r <> EmptyString /\ rc_Target r ∉ transportNames) (missing (rc_Target r)) ;?
  checkAll (fun t => failIf (t ∉ transportNames) (missing t)) (rc_Targets r).

Fixpoint validateRulesFrom (transportNames : gset string) (rs : list RuleConfig) (names : gset string)
  : option error :=
  match rs with
  | [] => None
  | r :: rest =>
    validateRule transportNames r names ;? validateRulesFrom transportNames rest ({[rc_Name r]} ∪ names)
  end.
Definition validateRules (cfg : Config) (transportNames : gset string) : option error :=
  validateRulesFrom transportNames (cf_Rules cfg) ∅.

Fixpoint validateDerivedFrom (dts : list DerivedTagConfig) (names : gset string) : option error :=
  match dts with
  | [] => None
  | dt :: rest =>
    failIf (TrimSpace (dt_Name dt) = EmptyString) (ErrFmt "derived tag has empty name") ;?
    failIf (dt_Name dt ∈ names) (ErrFmt ("duplicate derived tag name " +:+ quote (dt_Name dt))) ;?
    failIf (TrimSpace (dt_Expr dt) = EmptyString)
      (ErrFmt ("derived tag " +:+ quote (dt_Name dt) +:+ " has empty expr")) ;?
    failIf (TrimSpace (dt_Interval dt) = EmptyString)
      (ErrFmt ("derived tag " +:+ quote (dt_Name dt) +:+ " has empty interval")) ;?
    validateDerivedFrom rest ({[dt_Name dt]} ∪ names)
  end.
Definition validateDerivedTags (cfg : Config) : option error := validateDerivedFrom (cf_DerivedTags cfg) ∅.

Definition validateDriverSettings (cfg : Config) : option error :=
  checkAll (fun d => wrapErr ("driver " +:+ dc_Name d +:+ ": ") (driverSettings d)) (cf_Drivers cfg).
Definition validateTransportSettings (cfg : Config) : option error :=
  checkAll (fun t => wrapErr ("transport " +:+ tp_Name t +:+ ": ") (transportSettings t))
    (cf_Transports cfg).

Definition validate (cfg : Config) : option error :=
  validateBuffer cfg ;?
  validateEngine cfg ;?
  validateDataSources cfg ;?
  validateDrivers cfg ;?
  validateAPI cfg ;?
  (let '(err, transportNames) := validateTransports cfg in
   err ;?
   validateDriverSettings cfg ;?
   validateTransportSettings cfg ;?
   validateRules cfg transportNames ;?
   validateDerivedTags cfg).

(** ** Warnings *)

Definition nonEmptyString (v : option Value) : bool :=
  match v with Some (VString s) => bool_decide (s <> EmptyString) | _ => false end.

Definition hasInboundTransport (ts : list TransportConfig) : bool :=
  existsb (fun t => nonEmptyString (tp_Settings t !! "data-topic"%string)
                    || nonEmptyString (tp_Settings t !! "webhook-addr"%string)) ts.

Definition hasAutoDiscoveryInbound (cfg : Config) : bool :=
  bool_decide (nd_ID (cf_Node cfg) <> EmptyString /\ (0 < length (nd_Subscribe (cf_Node cfg)))%nat).

Inductive warning :=
| WNoControlPlane
| WNoDataSource
| WNoTransport
| WNoFlushInterval (transport : string)
| WBadFlushInterval (transport value : string).

Definition batchingWarning (t : TransportConfig) : option warning :=
  if decide (tp_BatchSize t <= 0 /\ tp_FlushInterval t = EmptyString /\ tp_RetryCount t <= 0) then None
  else if decide (tp_FlushInterval t = EmptyString) then Some (WNoFlushInterval (tp_Name t))
  else
    match ParseDuration (tp_FlushInterval t) with
    | Some d => if decide (d <= 0) then Some (WBadFlushInterval (tp_Name t) (tp_FlushInterval t)) else None
    | None => Some (WBadFlushInterval (tp_Name t) (tp_FlushInterval t))
    end.

Definition batchingWarnings (cfg : Config) : list warning :=
  if bf_Enabled (gl_Buffer (cf_Global cfg)) then [] else omap batchingWarning (cf_Transports cfg).

Definition IdleWarnings (cfg : Config) : list warning :=
  (if decide (ap_Listen (gl_API (cf_Global cfg)) = EmptyString) then [WNoControlPlane] else []) ++
  (if decide (length (cf_Drivers cfg) = 0%nat /\ hasInboundTransport (cf_Transports cfg) = false /\
              hasAutoDiscoveryInbound cfg = false) then [WNoDataSource] else []) ++
  (if decide (length (cf_Transports cfg) = 0%nat) then [WNoTransport] else []) ++
  batchingWarnings cfg.

End Validate.

(** ** What a valid configuration is *)

Section Spec.
Context `{!Registry} `{!GoArch}.

(** Empty, or a duration above zero. *)
Definition positive_duration (s : string) : Prop :=
  s = EmptyString \/ exists d, ParseDuration s = Some d /\ 0 < d.

(** A heartbeat is there only with a deadband, and is not shorter than the
    collection interval. *)
Definition enforce_ok (t : TagConfig) : Prop :=
  tc_EnforceInterval t = EmptyString \/
  (fleb (tc_DeadBand t) f_zero = false /\
   exists d, ParseDuration (tc_EnforceInterval t) = Some d /\ 0 < d /\
     (tc_Interval t = EmptyString \/ forall i, ParseDuration (tc_Interval t) = Some i -> i <= d)).

Record tag_ok (t : TagConfig) : Prop := {
  to_name : tc_Name t <> EmptyString;
  to_address : tc_Address t <> EmptyString;
  to_type : exists ty, dataTypeFromString !! tc_Type t = Some ty;
  to_interval : positive_duration (tc_Interval t);
  to_timeout : positive_duration (tc_ReadTimeout t);
  to_role : tc_TriggerGroup t = EmptyString \/ tc_Triggers t = EmptyString;
  to_group : ContainsAny (tc_TriggerGroup t) separators = false;
  to_protect : tc_Protect t ∈ protectNames;
  to_enforce : enforce_ok t;
}.

(** A gated tag names a condition of the same driver. *)
Definition gate_ok (tags : list TagConfig) (t : TagConfig) : Prop :=
  tc_Triggers t = EmptyString \/
  exists c, c ∈ tags /\ tc_Name c = tc_Triggers t /\ tc_TriggerGroup c <> EmptyString.

Record driver_ok (d : DriverConfig) : Prop := {
  do_name : dc_Name d <> EmptyString;
  do_type : dc_Type d <> EmptyString;
  do_registered : RegisteredDrivers = [] \/ dc_Type d ∈ RegisteredDrivers;
  do_tags : dc_Tags d <> [];
  do_tag : Forall tag_ok (dc_Tags d);
  do_names : NoDup (tc_Name <$> dc_Tags d);
  do_gates : Forall (gate_ok (dc_Tags d)) (dc_Tags d);
}.

Record transport_ok (t : TransportConfig) : Prop := {
  tk_name : tp_Name t <> EmptyString;
  tk_type : tp_Type t <> EmptyString;
  tk_registered : RegisteredTransports = [] \/ tp_Type t ∈ RegisteredTransports;
  tk_settings : Forall (fun k => tp_Settings t !! k = None) misplacedKeys;
}.

Record rule_ok (transports : list string) (r : RuleConfig) : Prop := {
  ro_name : rc_Name r <> EmptyString;
  ro_action : to_lower (rc_Action r) ∈ validActions;
  ro_match : rc_Match r <> EmptyString;
  ro_continue : to_lower (rc_Action r) = "drop"%string -> rc_Continue r = false;
  ro_target : rc_Target r = EmptyString \/ rc_Target r ∈ transports;
  ro_targets : Forall (fun t => t ∈ transports) (rc_Targets r);
}.

Record derived_ok (dt : DerivedTagConfig) : Prop := {
  dd_name : TrimSpace (dt_Name dt) <> EmptyString;
  dd_expr : TrimSpace (dt_Expr dt) <> EmptyString;
  dd_interval : TrimSpace (dt_Interval dt) <> EmptyString;
}.

Record wf_config (cfg : Config) : Prop := {
  wf_buffer : bf_Enabled (gl_Buffer (cf_Global cfg)) = true ->
    bf_Path (gl_Buffer (cf_Global cfg)) <> EmptyString /\
    (bf_MaxSize (gl_Buffer (cf_Global cfg)) <= 0 \/ 10 <= bf_MaxSize (gl_Buffer (cf_Global cfg)));
  wf_durations : Forall (fun f => positive_duration f.2) (engineDurations (gl_Engine (cf_Global cfg)));
  wf_bad_quality : to_lower (ec_OnBadQuality (gl_Engine (cf_Global cfg))) ∈ EmptyString :: badQualityNames;
  wf_drivers : Forall driver_ok (cf_Drivers cfg);
  wf_driver_names : NoDup (dc_Name <$> cf_Drivers cfg);
  wf_secret : ap_Listen (gl_API (cf_Global cfg)) = EmptyString \/
    (8 <= String.length (ap_Secret (gl_API (cf_Global cfg))))%nat;
  wf_transports : Forall transport_ok (cf_Transports cfg);
  wf_transport_names : NoDup (tp_Name <$> cf_Transports cfg);
  wf_rules : Forall (rule_ok (tp_Name <$> cf_Transports cfg)) (cf_Rules cfg);
  wf_rule_names : NoDup (rc_Name <$> cf_Rules cfg);
  wf_derived : Forall derived_ok (cf_DerivedTags cfg);
  wf_derived_names : NoDup (dt_Name <$> cf_DerivedTags cfg);
  wf_driver_settings : Forall (fun d => driverSettings d = None) (cf_Drivers cfg);
  wf_transport_settings : Forall (fun t => transportSettings t = None) (cf_Transports cfg);
}.

(** *** The checks accept exactly these *)

Lemma orErr_none a b : orErr a b = None <-> a = None /\ b = None.
Proof. destruct a; naive_solver. Qed.

Lemma failIf_none P `{Decision P} e : failIf P e = None <-> ~ P.
Proof. unfold failIf. case_decide; naive_solver. Qed.

Lemma checkAll_none {A} (f : A -> option error) l : checkAll f l = None <-> Forall (fun x => f x = None) l.
Proof.
  induction l as [|x l IH]; simpl; [by split; [constructor|]|].
  rewrite orErr_none, Forall_cons. naive_solver.
Qed.

Lemma positive_none s (err : error) (e : Z -> error) :
  (if decide (s = EmptyString) then None
   else match ParseDuration s with None => Some err | Some d => failIf (d <= 0) (e d) end) = None
  <-> positive_duration s.
Proof.
  unfold positive_duration. case_decide; [naive_solver|].
  destruct (ParseDuration s) as [d|]; [|naive_solver]. rewrite failIf_none. split.
  - intros Hd. right. exists d. split; [done|lia].
  - intros [?|(d' & [= <-] & ?)]; [done|lia].
Qed.

Lemma validatePositiveDuration_none dn tn f s :
  validatePositiveDuration dn tn f s = None <-> positive_duration s.
Proof.
  apply (positive_none s _ (fun dur => ErrFmt (("driver " +:+ dn +:+ ": tag " +:+ quote tn +:+ ": ") +:+ f +:+
           " must be positive, got " +:+ Duration_String dur))).
Qed.

Lemma checkDuration_none f : checkDuration f = None <-> positive_duration f.2.
Proof.
  destruct f as [name value].
  apply (positive_none value _ (fun _ => ErrFmt (name +:+ ": must be positive, got " +:+ quote value))).
Qed.

(** A loop that also rejects repeated names. *)
Lemma names_none {A} (name : A -> string) (ok : A -> Prop) (f : list A -> gset string -> option error)
    (one : A -> gset string -> option error) :
  (forall names, f [] names = None) ->
  (forall x l names, f (x :: l) names = orErr (one x names) (f l ({[name x]} ∪ names))) ->
  (forall x names, one x names = None <-> ok x /\ name x ∉ names) ->
  forall l names, f l names = None <->
    Forall ok l /\ NoDup (name <$> l) /\ (forall x, x ∈ l -> name x ∉ names).
Proof.
  intros Hnil Hcons Hone l. induction l as [|x l IH]; intros names.
  { rewrite Hnil. split; [|done]. intros _. split_and!; [constructor..|]. by intros ? ?%elem_of_nil. }
  rewrite Hcons, orErr_none, Hone, IH, Forall_cons. csimpl. rewrite NoDup_cons, list_elem_of_fmap.
  setoid_rewrite elem_of_cons. split.
  - intros ((Hx & Hn) & Hl & Hnd & Hno). split_and!; try done.
    + intros (y & Hxy & Hy). specialize (Hno y Hy). set_solver.
    + intros y [->|Hy]; [done|]. specialize (Hno y Hy). set_solver.
  - intros ((Hx & Hl) & (Hni & Hnd) & Hno). split_and!; try done.
    + apply Hno. by left.
    + intros y Hy. rewrite not_elem_of_union, not_elem_of_singleton. split; [|apply Hno; by right].
      intros Heq. apply Hni. by exists y.
Qed.

Lemma names_none_fresh {A} (name : A -> string) (l : list A) :
  (forall x, x ∈ l -> name x ∉ (∅ : gset string)).
Proof. set_solver. Qed.

Lemma ParseDataType_false s : (ParseDataType s).2 = false <-> dataTypeFromString !! s = None.
Proof. unfold ParseDataType. by destruct (dataTypeFromString !! s). Qed.

Lemma validateEnforce_none pre t : validateEnforce pre t = None <-> enforce_ok t.
Proof.
  unfold validateEnforce, enforce_ok. case_decide as He; [naive_solver|].
  rewrite orErr_none, failIf_none, not_true_iff_false.
  destruct (ParseDuration (tc_EnforceInterval t)) as [d|]; [|naive_solver].
  rewrite orErr_none, failIf_none. case_decide as Hi.
  { split; [|naive_solver lia]. intros (? & ? & _). right. split; [done|]. exists d.
    split_and!; [done|lia|by left]. }
  destruct (ParseDuration (tc_Interval t)) as [i|]; [rewrite failIf_none|]; split.
  - intros (? & ? & ?). right. split; [done|]. exists d. split_and!; [done|lia|]. right. intros ? [= <-]. lia.
  - intros [?|(? & ? & [= <-] & ? & [?|Hle])]; [done..|]. specialize (Hle i eq_refl). split_and!; [done|lia..].
  - intros (? & ? & _). right. split; [done|]. exists d. split_and!; [done|lia|]. by right.
  - intros [?|(? & ? & [= <-] & ? & _)]; [done|]. split_and!; [done|lia|done].
Qed.

Lemma validateTag_none driverName t names :
  validateTag driverName t names = None <-> tag_ok t /\ tc_Name t ∉ names.
Proof.
  unfold validateTag. rewrite !orErr_none, !failIf_none, ParseDataType_false, validateEnforce_none.
  rewrite !validatePositiveDuration_none.
  assert (Hty : tc_Type t <> EmptyString /\ dataTypeFromString !! tc_Type t <> None <->
                exists ty, dataTypeFromString !! tc_Type t = Some ty).
  { split; [intros [_ Hn]; destruct (dataTypeFromString !! tc_Type t) as [ty|]; [by exists ty|done]|].
    intros [ty Hty]. rewrite Hty. split; [|done]. intros Heq. rewrite Heq in Hty. vm_compute in Hty. done. }
  assert (Hgrp : ~ (tc_TriggerGroup t <> EmptyString /\ ContainsAny (tc_TriggerGroup t) separators = true) <->
                 ContainsAny (tc_TriggerGroup t) separators = false).
  { destruct (decide (tc_TriggerGroup t = EmptyString)) as [->|]; [naive_solver|].
    destruct (ContainsAny _ _); naive_solver. }
  rewrite Hgrp. split.
  - intros (? & ? & ? & ? & ? & ? & ? & Hex & ? & Hpro & ?). split; [|done]. constructor; try done.
    + by apply Hty.
    + destruct (decide (tc_TriggerGroup t = EmptyString)); [by left|]. right.
      destruct (decide (tc_Triggers t = EmptyString)); [done|]. by destruct Hex.
    + by apply dec_stable.
  - intros [[? ? Hty' ? ? Hrole ? ? ?] ?]. apply Hty in Hty' as [? ?].
    split_and!; try done; [naive_solver|]. intros Hn. by apply Hn.
Qed.

Lemma validateTags_none driverName tags :
  validateTags driverName tags ∅ = None <-> Forall tag_ok tags /\ NoDup (tc_Name <$> tags).
Proof.
  rewrite (names_none tc_Name tag_ok (validateTags driverName) (validateTag driverName)); try done;
    [|intros; apply validateTag_none]. pose proof (names_none_fresh tc_Name tags). naive_solver.
Qed.

Lemma validateTrigger_none d t :
  t ∈ dc_Tags d -> validateTrigger d t = None <-> gate_ok (dc_Tags d) t.
Proof.
  intros Ht. unfold validateTrigger, gate_ok. case_decide as Hd.
  { split; [|done]. intros _. left. destruct Hd as [?|Hn]; [done|]. exfalso. apply Hn.
    rewrite elem_of_list_to_set. by apply list_elem_of_fmap_2. }
  rewrite failIf_none. split.
  - intros Hc%dec_stable. right. unfold conditionNames in Hc.
    rewrite elem_of_list_to_set, list_elem_of_fmap in Hc. destruct Hc as (c & ? & Hc).
    apply list_elem_of_filter in Hc as [? ?]. by exists c.
  - intros [?|(c & Hin & Hn & Hg)] Hno; [tauto|]. apply Hno. unfold conditionNames.
    rewrite elem_of_list_to_set, list_elem_of_fmap. exists c. by rewrite list_elem_of_filter.
Qed.

Lemma validateDriver_none d names :
  validateDriver d names = None <-> driver_ok d /\ dc_Name d ∉ names.
Proof.
  unfold validateDriver. rewrite !orErr_none, !failIf_none, validateTags_none, checkAll_none.
  assert (Hg : Forall (fun t => validateTrigger d t = None) (dc_Tags d) <->
               Forall (gate_ok (dc_Tags d)) (dc_Tags d)).
  { rewrite !Forall_forall. split; intros Hf t Ht; by apply validateTrigger_none, Hf. }
  rewrite Hg. split.
  - intros (? & ? & ? & Hreg & ? & [? ?] & ?). split; [|done]. constructor; try done.
    destruct (decide (RegisteredDrivers = [])); [by left|]. right.
    apply dec_stable. intros Hn. by apply Hreg.
  - intros [[? ? Hreg ? ? ? ?] ?]. split_and!; try done. naive_solver.
Qed.

Lemma validateTransport_none t names :
  validateTransport t names = None <-> transport_ok t /\ tp_Name t ∉ names.
Proof.
  unfold validateTransport. rewrite !orErr_none, !failIf_none, checkAll_none.
  assert (Hg : Forall (fun k => checkMisplaced t k = None) misplacedKeys <->
               Forall (fun k => tp_Settings t !! k = None) misplacedKeys).
  { rewrite !Forall_forall. unfold checkMisplaced. split; intros Hf k Hk; specialize (Hf k Hk).
    - rewrite failIf_none in Hf. by apply eq_None_not_Some.
    - rewrite failIf_none. by apply eq_None_not_Some. }
  rewrite Hg. split.
  - intros (? & ? & ? & Hreg & ?). split; [|done]. constructor; try done.
    destruct (decide (RegisteredTransports = [])); [by left|]. right.
    apply dec_stable. intros Hn. by apply Hreg.
  - intros [[? ? Hreg ?] ?]. split_and!; try done. naive_solver.
Qed.

Lemma validateTransportsFrom_names ts names :
  (validateTransportsFrom ts names).1 = None ->
  (validateTransportsFrom ts names).2 = list_to_set (tp_Name <$> ts) ∪ names.
Proof.
  revert names. induction ts as [|t ts IH]; intros names; simpl; [set_solver|].
  destruct (validateTransport t names); [done|]. intros Hn. rewrite IH by done. set_solver.
Qed.

Lemma validateTransports_none cfg :
  (validateTransports cfg).1 = None <->
  Forall transport_ok (cf_Transports cfg) /\ NoDup (tp_Name <$> cf_Transports cfg).
Proof.
  unfold validateTransports.
  rewrite (names_none tp_Name transport_ok (fun ts names => (validateTransportsFrom ts names).1) validateTransport);
    [|done|intros x l names; simpl; by destruct (validateTransport x names)|intros; apply validateTransport_none].
  pose proof (names_none_fresh tp_Name (cf_Transports cfg)). naive_solver.
Qed.

Lemma validateRule_none transports (tnames : gset string) r names :
  (forall t, t ∈ tnames <-> t ∈ transports) ->
  validateRule tnames r names = None <-> rule_ok transports r /\ rc_Name r ∉ names.
Proof.
  intros Ht. unfold validateRule. rewrite !orErr_none, !failIf_none, checkAll_none.
  assert (Hact : rc_Action r <> EmptyString /\ ~ (to_lower (rc_Action r) ∉ validActions) <->
                 to_lower (rc_Action r) ∈ validActions).
  { split; [intros [_ Hn]; by apply dec_stable|]. intros Hin. split; [|by intros Hn; apply Hn].
    intros He. rewrite He in Hin. vm_compute in Hin. set_solver. }
  assert (Hdrop : EqualFold (rc_Action r) "drop" = true <-> to_lower (rc_Action r) = "drop"%string).
  { unfold EqualFold. by rewrite bool_decide_eq_true. }
  rewrite Hdrop. split.
  - intros (? & ? & Ha & Ha' & ? & Hc & Htg & Htgs). split; [|done]. constructor; try done.
    + by apply Hact.
    + intros Hd. destruct (rc_Continue r); [|done]. by destruct Hc.
    + destruct (decide (rc_Target r = EmptyString)); [by left|]. right. apply Ht, dec_stable.
      intros Hn. by apply Htg.
    + eapply Forall_impl; [exact Htgs|]. intros t. rewrite failIf_none. intros Hn. by apply Ht, dec_stable.
  - intros [[? Ha ? Hc Htg Htgs] ?]. apply Hact in Ha as [? ?]. split_and!; try done.
    + intros [Hd Hk]. rewrite (Hc Hd) in Hk. done.
    + intros [Hne Hn]. destruct Htg as [?|Htg]; [done|]. by apply Hn, Ht.
    + eapply Forall_impl; [exact Htgs|]. intros t Htr. rewrite failIf_none. intros Hn. by apply Hn, Ht.
Qed.

Lemma validateRulesFrom_none transports (tnames : gset string) rs :
  (forall t, t ∈ tnames <-> t ∈ transports) ->
  validateRulesFrom tnames rs ∅ = None <-> Forall (rule_ok transports) rs /\ NoDup (rc_Name <$> rs).
Proof.
  intros Ht. rewrite (names_none rc_Name (rule_ok transports) (validateRulesFrom tnames) (validateRule tnames));
    try done; [|intros; by apply validateRule_none].
  pose proof (names_none_fresh rc_Name rs). naive_solver.
Qed.

Lemma validateDerivedFrom_none dts :
  validateDerivedFrom dts ∅ = None <-> Forall derived_ok dts /\ NoDup (dt_Name <$> dts).
Proof.
  rewrite (names_none dt_Name derived_ok validateDerivedFrom (fun dt names =>
    failIf (TrimSpace (dt_Name dt) = EmptyString) (ErrFmt "derived tag has empty name") ;?
    failIf (dt_Name dt ∈ names) (ErrFmt ("duplicate derived tag name " +:+ quote (dt_Name dt))) ;?
    failIf (TrimSpace (dt_Expr dt) = EmptyString)
      (ErrFmt ("derived tag " +:+ quote (dt_Name dt) +:+ " has empty expr")) ;?
    failIf (TrimSpace (dt_Interval dt) = EmptyString)
      (ErrFmt ("derived tag " +:+ quote (dt_Name dt) +:+ " has empty interval")))); [|done|..].
  - pose proof (names_none_fresh dt_Name dts). naive_solver.
  - intros dt l names. simpl. unfold orErr. by repeat destruct (failIf _ _).
  - intros dt names. rewrite !orErr_none, !failIf_none. split.
    + intros (? & ? & ? & ?). by split; [constructor|].
    + by intros [[? ? ?] ?].
Qed.

Lemma validateBuffer_none cfg :
  validateBuffer cfg = None <->
  (bf_Enabled (gl_Buffer (cf_Global cfg)) = true ->
   bf_Path (gl_Buffer (cf_Global cfg)) <> EmptyString /\
   (bf_MaxSize (gl_Buffer (cf_Global cfg)) <= 0 \/ 10 <= bf_MaxSize (gl_Buffer (cf_Global cfg)))).
Proof.
  unfold validateBuffer. destruct (bf_Enabled _); [|done]. rewrite orErr_none, !failIf_none.
  split; [intros [? ?] _; split; [done|lia]|]. intros Hb. destruct (Hb eq_refl). split; [done|lia].
Qed.

Lemma validateAPI_none cfg :
  validateAPI cfg = None <->
  ap_Listen (gl_API (cf_Global cfg)) = EmptyString \/
  (8 <= String.length (ap_Secret (gl_API (cf_Global cfg))))%nat.
Proof.
  unfold validateAPI. case_decide as Hl; [naive_solver|]. rewrite orErr_none, !failIf_none. split.
  - intros [_ ?]. right. lia.
  - intros [?|Hlen]; [done|]. split; [|lia]. intros He. rewrite He in Hlen. simpl in Hlen. lia.
Qed.

Lemma validateEngine_none cfg :
  validateEngine cfg = None <->
  Forall (fun f => positive_duration f.2) (engineDurations (gl_Engine (cf_Global cfg))) /\
  to_lower (ec_OnBadQuality (gl_Engine (cf_Global cfg))) ∈ EmptyString :: badQualityNames.
Proof.
  unfold validateEngine. rewrite orErr_none, checkAll_none, failIf_none.
  assert (Hf : Forall (fun f => checkDuration f = None) (engineDurations (gl_Engine (cf_Global cfg))) <->
               Forall (fun f => positive_duration f.2) (engineDurations (gl_Engine (cf_Global cfg)))).
  { rewrite !Forall_forall. split; intros Hf f Hin; by apply checkDuration_none, Hf. }
  rewrite Hf. split; intros [? Hq]; (split; [done|]); [by apply dec_stable|by intros Hn; apply Hn].
Qed.

Lemma settings_none {A} (pre : A -> string) (f : A -> option error) l :
  checkAll (fun x => wrapErr (pre x) (f x)) l = None <-> Forall (fun x => f x = None) l.
Proof.
  rewrite checkAll_none, !Forall_forall. unfold wrapErr.
  split; intros Hf x Hx; specialize (Hf x Hx); by destruct (f x).
Qed.

Lemma validate_iff cfg : validate cfg = None <-> wf_config cfg.
Proof.
  unfold validate. rewrite (surjective_pairing (validateTransports cfg)).
  rewrite !orErr_none, validateBuffer_none, validateEngine_none, validateAPI_none, validateTransports_none.
  unfold validateDriverSettings, validateTransportSettings. rewrite !settings_none.
  unfold validateDerivedTags. rewrite validateDerivedFrom_none. unfold validateDrivers.
  rewrite (names_none dc_Name driver_ok validateDriversFrom validateDriver); [|done..|intros; apply validateDriver_none].
  assert (Hn : Forall transport_ok (cf_Transports cfg) /\ NoDup (tp_Name <$> cf_Transports cfg) ->
    validateRules cfg (validateTransports cfg).2 = None <->
    Forall (rule_ok (tp_Name <$> cf_Transports cfg)) (cf_Rules cfg) /\ NoDup (rc_Name <$> cf_Rules cfg)).
  { intros Hts. apply validateRulesFrom_none. intros t. unfold validateTransports.
    rewrite validateTransportsFrom_names by (by apply validateTransports_none).
    rewrite elem_of_union, elem_of_list_to_set. set_solver. }
  pose proof (names_none_fresh dc_Name (cf_Drivers cfg)). split.
  - intros (? & [? ?] & _ & (? & ? & _) & ? & Hts & ? & ? & Hr & ? & ?). rewrite (Hn Hts) in Hr.
    destruct Hts, Hr. by constructor.
  - intros [? ? ? ? ? ? ? ? ? ? ? ? ? ?]. split_and!; try done. by apply Hn.
Qed.

(** C11.  Validation accepts exactly the well-formed
    configurations: every name is there and used once among its kind, types are
    registered and known, durations parse and are positive, a heartbeat has a
    deadband and is no shorter than the interval, a gated tag names a condition
    of its driver, rule targets are transports of the configuration, and the
    API has a secret of eight characters. *)
Theorem validate_exact cfg : validate cfg = None <-> wf_config cfg.
Proof. apply validate_iff. Qed.

End Spec.

(** A concrete registry and configuration. *)
Module Demo.

#[global] Instance registry : Registry := {|
  RegisteredDrivers := ["modbus"]%string;
  RegisteredTransports := ["mqtt"]%string;
  driverSettings := fun (_ : DriverConfig) => None;
  transportSettings := fun (_ : TransportConfig) => None |}.

Definition tag : TagConfig := mkTagConfig "t" "40001" "int16" "" "1s" f_zero f_zero f_zero "" "" "" "" "".

Definition config : Config :=
  mkConfig (mkNodeConfig "" "" [] "") GlobalConfig_zero
    [mkDriverConfig "plc" "modbus" ∅ [tag] "" ""]
    [mkTransportConfig "out" "mqtt" ∅ 0 "" 0 0 ""]
    [mkRuleConfig "all" "ALL" "forward" "out" [] 0 None false] [] ∅ [].

End Demo.

Example demo_config_valid : validate (H0 := amd64_f2i) Demo.config = None.
Proof. vm_compute. reflexivity. Qed.

(** ** The batching warning is exact *)

Section Batching.
Context `{!GoArch}.

(** Without an offline buffer, the transports that are warned about are exactly
    those whose batcher never flushes on a timer: it keeps a partial batch
    until the batch fills or the engine stops. *)
Theorem batch_warning_exact (t : TransportConfig) budget :
  batchingWarning t <> None <->
  exists b, newTransportBatcher (batchPart t) false budget = Some b /\ bc_flushInterval b = 0.
Proof.
  unfold batchingWarning, newTransportBatcher, batchPart.
  cbn [Batcher.tr_BatchSize Batcher.tr_FlushInterval Batcher.tr_RetryCount].
  destruct (decide (tp_FlushInterval t = EmptyString)) as [Hf|Hf].
  - rewrite (decide_False (P := tp_FlushInterval t <> EmptyString)) by naive_solver.
    rewrite (decide_False (P := false = true /\ _)) by naive_solver.
    case_decide; case_decide; try tauto; split; try done; [naive_solver|]. intros _.
    eexists. split; [done|]. done.
  - rewrite (decide_False (P := tp_BatchSize t <= 0 /\ _ /\ _)) by tauto.
    rewrite (decide_False (P := tp_BatchSize t <= 0 /\ _ /\ _ /\ _)) by tauto.
    rewrite (decide_True (P := tp_FlushInterval t <> EmptyString)) by done.
    rewrite (decide_False (P := false = true /\ _)) by naive_solver.
    destruct (ParseDuration _) as [d|].
    + case_decide as Hd; rewrite ?(decide_False (P := d > 0)) by lia; rewrite ?(decide_True (P := d > 0)) by lia.
      * split; [|done]. intros _. by eexists.
      * split; [done|]. intros (b & [= <-] & Hb). simpl in Hb. lia.
    + split; [|done]. intros _. by eexists.
Qed.

End Batching.
