(* ===== verification/ConfigPath.v ===== *)
(** * Resolving a configuration path ([hub/executor/executor.go])

    The lexical path functions of [path/filepath] on Unix the executor uses, and
    the check that a path a client asks for stays in the directory of the
    configuration file. *)

From Stdlib Require Import ZArith Lia String Ascii.
From stdpp Require Import base list strings.
From S2P Require Import Prelude.

Open Scope Z_scope.

(** ** [path/filepath] *)

(** The elements between the slashes. *)
Fixpoint splitSlash (s : string) : list string :=
  match s with
  | EmptyString => [EmptyString]
  | String c s' =>
      match splitSlash s' with
      | [] => [EmptyString]
      | e :: es => if decide (c = "/"%char) then EmptyString :: e :: es else String c e :: es
      end
  end.

Fixpoint joinSlash (es : list string) : string :=
  match es with
  | [] => EmptyString
  | [e] => e
  | e :: es => e +:+ "/" +:+ joinSlash es
  end.

Definition IsAbs (s : string) : bool := match s with String "/"%char _ => true | _ => false end.

(** One element of [Clean]; the elements kept so far are in reverse. *)
Definition cleanStep (rooted : bool) (out : list string) (e : string) : list string :=
  if decide (e = EmptyString \/ e = "."%string) then out
  else if decide (e = ".."%string) then
    match out with
    | [] => if rooted then [] else [e]
    | x :: out' => if decide (x = ".."%string) then e :: out else out'
    end
  else e :: out.

Definition cleanParts (s : string) : list string :=
  reverse (foldl (cleanStep (IsAbs s)) [] (splitSlash s)).

Definition Clean (s : string) : string :=
  let out := joinSlash (cleanParts s) in
  if IsAbs s then String "/" out
  else if decide (out = EmptyString) then "."%string else out.

(** [Dir]: the text up to the last slash, cleaned. *)
Fixpoint dirPart (s : string) : string :=
  match s with
  | EmptyString => EmptyString
  | String c s' =>
      if decide (c = "/"%char) then String c (dirPart s')
      else match dirPart s' with EmptyString => EmptyString | d => String c d end
  end.
Definition Dir (s : string) : string := Clean (dirPart s).

(** [Join] of two elements: empty ones are skipped. *)
Definition Join (a b : string) : string :=
  if decide (a = EmptyString) then (if decide (b = EmptyString) then EmptyString else Clean b)
  else if decide (b = EmptyString) then Clean a
  else Clean (a +:+ "/" +:+ b).

(** [Abs], in the working directory [cwd]. *)
Definition Abs (cwd s : string) : string := if IsAbs s then Clean s else Join cwd s.

(** [Rel] of two absolute paths: the common elements stripped. *)
Fixpoint stripCommon (base targ : list string) : list string * list string :=
  match base, targ with
  | b :: bs, t :: ts => if decide (b = t) then stripCommon bs ts else (base, targ)
  | _, _ => (base, targ)
  end.

Definition Rel (base targ : string) : string :=
  let '(b, t) := stripCommon (cleanParts base) (cleanParts targ) in
  match app (replicate (length b) ".."%string) t with
  | [] => "."%string
  | es => joinSlash es
  end.

(** ** [resolveConfigPath] *)

Definition resolveConfigPath (cwd base requested : string) : string + error :=
  if decide (base = EmptyString) then
    inr (ErrFmt "no base config path is set; cannot resolve relative path")
  else
    let absBaseDir := Abs cwd (Dir (Clean base)) in
    if IsAbs requested then inr (ErrFmt "absolute config paths are not allowed")
    else
      let escapes := ErrFmt ("config path escapes the allowed directory: " +:+ requested) in
      let cleaned := Clean requested in
      if has_prefix cleaned ".." || has_prefix cleaned "/" then inr escapes
      else
        let absFull := Abs cwd (Join absBaseDir cleaned) in
        if has_prefix (Rel absBaseDir absFull) ".." then inr escapes else inl absFull.

Example resolve_examples :
  resolveConfigPath "/srv" "/etc/corec/config.yaml" "site/b.yaml" = inl "/etc/corec/site/b.yaml"%string /\
  resolveConfigPath "/srv" "conf/config.yaml" "./x/../b.yaml" = inl "/srv/conf/b.yaml"%string /\
  (exists e, resolveConfigPath "/srv" "/etc/corec/config.yaml" "../../etc/passwd" = inr e) /\
  (exists e, resolveConfigPath "/srv" "/etc/corec/config.yaml" "a/../../x" = inr e).
Proof. vm_compute. split_and!; [reflexivity..| |]; by eexists. Qed.

(** ** A resolved path stays in the directory *)

Fixpoint no_slash (s : string) : Prop :=
  match s with EmptyString => True | String c s' => c <> "/"%char /\ no_slash s' end.

(** An element that names something below the current directory. *)
Definition proper (e : string) : Prop :=
  e <> EmptyString /\ e <> "."%string /\ e <> ".."%string /\ no_slash e.

Lemma splitSlash_cons s : exists e es, splitSlash s = e :: es.
Proof.
  induction s as [|c s (e & es & IH)]; [by eexists _, _|]. simpl. rewrite IH. case_decide; by eexists _, _.
Qed.

Lemma splitSlash_no_slash s : Forall no_slash (splitSlash s).
Proof.
  induction s as [|c s IH]; simpl; [by repeat constructor|].
  destruct (splitSlash_cons s) as (e & es & He). rewrite He in *. apply Forall_cons in IH as [H1 H2].
  case_decide; repeat (constructor; [done|]); done.
Qed.

Lemma splitSlash_app a b : splitSlash (a +:+ "/" +:+ b) = app (splitSlash a) (splitSlash b).
Proof.
  induction a as [|c a IH].
  - change (EmptyString +:+ "/" +:+ b) with (String "/" b). cbn [splitSlash].
    destruct (splitSlash_cons b) as (e & es & ->). by rewrite decide_True.
  - change (String c a +:+ "/" +:+ b) with (String c (a +:+ "/" +:+ b)). cbn [splitSlash]. rewrite IH.
    destruct (splitSlash_cons a) as (e & es & ->). simpl. by case_decide.
Qed.

Lemma splitSlash_one e : no_slash e -> splitSlash e = [e].
Proof.
  induction e as [|c e IH]; [done|]. intros [Hc He]. simpl. rewrite IH by done. by rewrite decide_False.
Qed.

Lemma splitSlash_join es : es <> [] -> Forall no_slash es -> splitSlash (joinSlash es) = es.
Proof.
  induction es as [|e es IH]; [done|]. intros _ [He Hes]%Forall_cons.
  destruct es as [|e' es]; [by apply splitSlash_one|].
  change (joinSlash (e :: e' :: es)) with (e +:+ "/" +:+ joinSlash (e' :: es)).
  rewrite splitSlash_app, IH by done. by rewrite splitSlash_one.
Qed.

Lemma cleanStep_proper out e : Forall proper out -> no_slash e -> Forall proper (cleanStep true out e).
Proof.
  intros Hout He. unfold cleanStep. case_decide as H1; [done|]. case_decide as H2.
  - destruct out as [|x out]; [done|]. apply Forall_cons in Hout as [(_ & _ & Hx & _) Hout].
    by rewrite decide_False.
  - constructor; [|done]. unfold proper. tauto.
Qed.

Lemma cleanParts_proper s : IsAbs s = true -> Forall proper (cleanParts s).
Proof.
  intros Hs. unfold cleanParts. rewrite Hs. apply Forall_reverse.
  assert (Hall := splitSlash_no_slash s). clear Hs. revert Hall. generalize (splitSlash s) as es.
  assert (Hg : forall es out, Forall no_slash es -> Forall proper out -> Forall proper (foldl (cleanStep true) out es)).
  { induction es as [|e es IH]; intros out; [done|]. intros [He Hes]%Forall_cons Hout. simpl.
    apply IH; [done|by apply cleanStep_proper]. }
  intros es Hes. apply Hg; [done|constructor].
Qed.

Lemma clean_kept es out :
  Forall proper es -> foldl (cleanStep true) out es = app (reverse es) out.
Proof.
  revert out. induction es as [|e es IH]; intros out; [done|].
  intros [(H1 & H2 & H3 & _) Hes]%Forall_cons. simpl. rewrite IH by done.
  unfold cleanStep. rewrite decide_False by tauto. rewrite decide_False by done.
  by rewrite reverse_cons, <- app_assoc.
Qed.

(** [Clean] keeps the elements of a path that is clean. *)
Lemma cleanParts_slash es : Forall proper es -> cleanParts (String "/" (joinSlash es)) = es.
Proof.
  intros Hes. unfold cleanParts. change (IsAbs (String "/" _)) with true.
  destruct es as [|e es]; [done|]. cbn [splitSlash].
  rewrite splitSlash_join; [|done|by eapply Forall_impl; [exact Hes|]; intros ? (? & ? & ? & ?)].
  rewrite decide_True by done. simpl. change (cleanStep true [] "") with ([] : list string).
  change (foldl (cleanStep true) (cleanStep true [] e) es) with (foldl (cleanStep true) [] (e :: es)).
  rewrite clean_kept, app_nil_r by done. by rewrite reverse_involutive.
Qed.

Lemma Clean_abs s : IsAbs s = true -> Clean s = String "/" (joinSlash (cleanParts s)).
Proof. intros Hs. unfold Clean. by rewrite Hs. Qed.

Lemma cleanParts_Clean s : IsAbs s = true -> cleanParts (Clean s) = cleanParts s.
Proof. intros Hs. rewrite Clean_abs by done. by apply cleanParts_slash, cleanParts_proper. Qed.

Lemma Abs_abs cwd s : IsAbs cwd = true -> exists t, IsAbs t = true /\ Abs cwd s = Clean t.
Proof.
  intros Hc. unfold Abs, Join. destruct (IsAbs s) eqn:Hs; [by exists s|].
  rewrite decide_False by (by intros ->). case_decide; [by exists cwd|].
  exists (cwd +:+ "/" +:+ s). split; [|done]. by destruct cwd.
Qed.

Lemma stripCommon_spec b t b' t' :
  stripCommon b t = (b', t') -> exists c, b = app c b' /\ t = app c t'.
Proof.
  revert t. induction b as [|x b IH]; intros [|y t]; simpl; try (intros [= <- <-]; by exists []).
  case_decide as Hxy; [|intros [= <- <-]; by exists []]. subst y.
  intros (c & -> & ->)%IH. by exists (x :: c).
Qed.

Lemma joinSlash_dotdot es : has_prefix (joinSlash (".."%string :: es)) ".." = true.
Proof. by destruct es. Qed.

(** C32.  A configuration path a client may ask for cannot leave
    the directory of the configuration file: whatever text is requested, a path
    that resolves is absolute, has the elements of that directory first, and
    has no element that is empty, a dot or a double dot. *)
Theorem resolve_contained cwd base requested p :
  IsAbs cwd = true -> resolveConfigPath cwd base requested = inl p ->
  exists rest, p = String "/" (joinSlash (app (cleanParts (Abs cwd (Dir (Clean base)))) rest)) /\
    Forall proper (app (cleanParts (Abs cwd (Dir (Clean base)))) rest).
Proof.
  intros Hcwd. unfold resolveConfigPath. case_decide; [done|]. destruct (IsAbs requested); [done|].
  destruct (has_prefix (Clean requested) ".." || _); [done|].
  set (dir := Abs cwd (Dir (Clean base))). set (full := Abs cwd (Join dir (Clean requested))).
  destruct (has_prefix (Rel dir full) "..") eqn:Hrel; [done|]. intros [= <-].
  destruct (Abs_abs cwd (Join dir (Clean requested)) Hcwd) as (t & Ht & Hfull). fold full in Hfull.
  unfold Rel in Hrel. destruct (stripCommon (cleanParts dir) (cleanParts full)) as [b r] eqn:Hs.
  apply stripCommon_spec in Hs as (c & Hb & Hr). destruct b as [|x b]; cycle 1.
  { exfalso. cbn [length replicate app] in Hrel. by rewrite joinSlash_dotdot in Hrel. }
  rewrite app_nil_r in Hb. subst c. exists r.
  rewrite <- Hr. rewrite Hfull, cleanParts_Clean by done. split; [by apply Clean_abs|by apply cleanParts_proper].
Qed.

Lemma resolve_contained_witness :
  resolveConfigPath "/srv" "/etc/corec/config.yaml" "site/b.yaml" = inl "/etc/corec/site/b.yaml"%string /\
  exists rest, "/etc/corec/site/b.yaml"%string = String "/" (joinSlash (app ["etc"; "corec"]%string rest)).
Proof.
  split; [vm_compute; reflexivity|].
  destruct (resolve_contained "/srv" "/etc/corec/config.yaml" "site/b.yaml" "/etc/corec/site/b.yaml"
              eq_refl ltac:(vm_compute; reflexivity)) as (rest & Hp & _).
  exists rest. exact Hp.
Defined.
