(* ===== verification/Backups.v ===== *)
(** * Configuration backups ([hub/executor/backups.go])

    The snapshots of the configuration file kept in the directory beside it:
    their names, taking one and pruning the oldest, listing and reading them. *)

From Stdlib Require Import ZArith Lia String Ascii.
From stdpp Require Import base list gmap strings sorting.
From S2P Require Import Prelude Types JsonDecode ConfigPath.

Open Scope Z_scope.

Definition configBackupMax : nat := 10.
Definition backupDirName : string := "backups".
Definition backupExt : string := ".yaml".

(** Errors of package [hub/route]. *)
Definition ErrNoConfigPath : error := ErrNew "no active config path; config backups unavailable".
Definition ErrConfigFileMissing : error := ErrNew "active config file not found on disk".
Definition ErrInvalidBackupName : error := ErrNew "invalid backup name".
Definition ErrBackupNotFound : error := ErrNew "config backup not found".
Definition ErrBackupInvalid : error := ErrNew "config backup failed validation".

(** The regular files by path, and the directories with their regular files. *)
Record disk := mkDisk {
  dk_files : gmap string string;
  dk_dirs : gmap string (gmap string string);
}.

(** Operations of package [os] may fail. *)
Class OS := {
  os_mkdir : string -> option error;
  os_readdir : string -> option error;
  os_write : string -> option error;
  os_read : string -> option error;
  os_remove : string -> option error;
}.

(** ** Names *)

Fixpoint span_digits (s : string) : string * string :=
  match s with
  | String c s' =>
      match digit_val c with
      | Some _ => let '(d, r) := span_digits s' in (String c d, r)
      | None => (EmptyString, s)
      end
  | EmptyString => (EmptyString, EmptyString)
  end.

(** [backupNamePattern] and the stamp: one to twenty-five digits, the extension,
    and a positive [int64]. *)
Definition parseBackupName (name : string) : option Z :=
  let '(digits, rest) := span_digits name in
  if decide ((1 <= String.length digits <= 25)%nat /\ rest = backupExt) then
    match ParseInt digits 64 with
    | Some n => if decide (n <= 0) then None else Some n
    | None => None
    end
  else None.

Definition backupFileName (stamp : Z) : string := itoa stamp +:+ backupExt.

Definition backupDir (configPath : string) : string + error :=
  if decide (configPath = EmptyString) then inr ErrNoConfigPath
  else inl (Join (Dir configPath) backupDirName).

Section Backups.
Context `{!OS}.

Definition dirFiles (dir : string) (d : disk) : gmap string string := default ∅ (dk_dirs d !! dir).
Definition setDir (dir : string) (fs : gmap string string) (d : disk) : disk :=
  mkDisk (dk_files d) (<[dir := fs]> (dk_dirs d)).

(** The stamps of a listing. *)
Definition stampsOf (fs : gmap string string) : list Z := omap parseBackupName (map_to_list fs).*1.

Definition removeBackup (dir : string) (fs : gmap string string) (stamp : Z) : gmap string string :=
  let target := backupFileName stamp in
  match os_remove (Join dir target) with
  | Some _ => fs
  | None => delete target fs
  end.

Definition pruneConfigBackups (dir : string) (d : disk) : disk :=
  match os_readdir dir with
  | Some _ => d
  | None =>
    let fs := dirFiles dir d in
    let stamps := stampsOf fs in
    if decide (length stamps <= configBackupMax)%nat then d
    else
      let sorted := stable_sort (fun a b => bool_decide (a < b)) stamps in
      let gone := take (length stamps - configBackupMax) sorted in
      setDir dir (foldl (removeBackup dir) fs gone) d
  end.

(** [saveConfigBackup] at time [now]: the name of the new backup. *)
Definition saveConfigBackup (configPath : string) (now : Z) (data : string) (d : disk)
  : (string + error) * disk :=
  match backupDir configPath with
  | inr e => (inr e, d)
  | inl dir =>
    match os_mkdir dir with
    | Some e => (inr (ErrWrap "failed to create config backup directory: " e ""), d)
    | None =>
      let d := setDir dir (dirFiles dir d) d in
      let name := backupFileName now in
      match os_write (Join dir name) with
      | Some e => (inr (ErrWrap ("failed to write config backup " +:+ name +:+ ": ") e ""), d)
      | None =>
        let d := setDir dir (<[name := data]> (dirFiles dir d)) d in
        (inl name, pruneConfigBackups dir d)
      end
    end
  end.

(** [snapshotExistingConfig]: failures are logged. *)
Definition snapshotExistingConfig (configPath path : string) (now : Z) (d : disk) : disk :=
  match dk_files d !! path with
  | None => d
  | Some data =>
    match os_read path with
    | Some _ => d
    | None => (saveConfigBackup configPath now data d).2
    end
  end.

Record ConfigBackupInfo := mkBackupInfo { bi_Name : string; bi_Timestamp : Z; bi_Size : Z }.

Definition backupInfo (e : string * string) : option ConfigBackupInfo :=
  match parseBackupName e.1 with
  | Some stamp => Some (mkBackupInfo e.1 stamp (Z.of_nat (String.length e.2)))
  | None => None
  end.

Definition ListConfigBackups (configPath : string) (d : disk) : list ConfigBackupInfo + error :=
  match backupDir configPath with
  | inr e => inr e
  | inl dir =>
    match dk_dirs d !! dir with
    | None => inl []
    | Some fs =>
      match os_readdir dir with
      | Some e => inr (ErrWrap "failed to list config backups: " e "")
      | None =>
        inl (stable_sort (fun a b => bool_decide (bi_Timestamp a > bi_Timestamp b))
               (omap backupInfo (map_to_list fs)))
      end
    end
  end.

Definition GetConfigBackup (configPath name : string) (d : disk) : string + error :=
  match parseBackupName name with
  | None => inr (ErrWrap "" ErrInvalidBackupName (": " +:+ quote name))
  | Some _ =>
    match backupDir configPath with
    | inr e => inr e
    | inl dir =>
      match dirFiles dir d !! name with
      | None => inr (ErrWrap "" ErrBackupNotFound (": " +:+ name))
      | Some data =>
        match os_read (Join dir name) with
        | Some e => inr (ErrWrap ("failed to read config backup " +:+ name +:+ ": ") e "")
        | None => inl data
        end
      end
    end
  end.

Definition CreateConfigBackup (configPath : string) (now : Z) (d : disk) : (string + error) * disk :=
  if decide (configPath = EmptyString) then (inr ErrNoConfigPath, d)
  else
    match dk_files d !! configPath with
    | None => (inr ErrConfigFileMissing, d)
    | Some data =>
      match os_read configPath with
      | Some e => (inr (ErrWrap "failed to read active config file: " e ""), d)
      | None => saveConfigBackup configPath now data d
      end
    end.

End Backups.

(** ** Names and stamps correspond *)

Fixpoint all_digits (s : string) : Prop :=
  match s with EmptyString => True | String c s' => is_Some (digit_val c) /\ all_digits s' end.

Lemma parse_all_digits s acc : is_Some (parse_digits acc s) -> all_digits s.
Proof.
  revert acc. induction s as [|c s IH]; intros acc; simpl; [done|].
  destruct (digit_val c) as [d|]; [|by intros ?%is_Some_None]. intros Hs. split; [done|by eapply IH].
Qed.

Lemma span_digits_app s : all_digits s -> span_digits (s +:+ backupExt) = (s, backupExt).
Proof.
  induction s as [|c s IH]; [done|]. intros [[d Hd] Hs]. rewrite str_app_cons. cbn [span_digits].
  by rewrite Hd, IH.
Qed.

Lemma dec_go_length fuel n acc : (String.length (dec_go fuel n acc) <= fuel + String.length acc)%nat.
Proof.
  revert n acc. induction fuel as [|fuel IH]; intros n acc; [done|]. cbn [dec_go].
  case_decide; simpl; [lia|]. etransitivity; [apply IH|]. simpl. lia.
Qed.

Lemma parseBackupName_file stamp :
  0 < stamp < 2 ^ 63 -> parseBackupName (backupFileName stamp) = Some stamp.
Proof.
  intros Hs. unfold parseBackupName, backupFileName.
  assert (Hi : itoa stamp = decimal stamp) by (unfold itoa; by rewrite decide_False by lia).
  assert (Hp := ParseInt_itoa stamp ltac:(lia)). rewrite Hi in *.
  rewrite span_digits_app.
  2:{ apply (parse_all_digits _ 0). unfold decimal.
      rewrite dec_go_parse; [by eexists| |lia]. change (10 ^ Z.of_nat 20) with 100000000000000000000. lia. }
  rewrite decide_True.
  2:{ split; [|done]. split.
      - assert (Hne := dec_go_nonempty 20 stamp EmptyString ltac:(lia)). unfold decimal.
        destruct (dec_go 20 stamp EmptyString); [done|simpl; lia].
      - pose proof (dec_go_length 20 stamp EmptyString) as Hl. change (String.length EmptyString) with 0%nat in Hl. unfold decimal. lia. }
  rewrite Hp. by rewrite decide_False by lia.
Qed.

Lemma parseBackupName_range name stamp : parseBackupName name = Some stamp -> 0 < stamp.
Proof.
  unfold parseBackupName. destruct (span_digits name) as [d r]. case_decide; [|done].
  destruct (ParseInt d 64) as [n|]; [|done]. case_decide; [done|]. intros [= <-]. lia.
Qed.

(** The files this package wrote: a name with a stamp is the name of that stamp. *)
Definition canonical (fs : gmap string string) : Prop :=
  forall n s, is_Some (fs !! n) -> parseBackupName n = Some s -> n = backupFileName s.

Lemma elem_of_stamps fs s :
  s ∈ stampsOf fs <-> exists n, is_Some (fs !! n) /\ parseBackupName n = Some s.
Proof.
  unfold stampsOf. rewrite list_elem_of_omap. split.
  - intros (n & Hn & Hp). apply list_elem_of_fmap in Hn as ([n' c] & -> & Hn%elem_of_map_to_list). by eauto.
  - intros (n & [c Hc] & Hp). exists n. split; [|done]. apply list_elem_of_fmap. exists (n, c).
    by rewrite elem_of_map_to_list.
Qed.

Lemma canonical_stamp fs s :
  canonical fs -> s ∈ stampsOf fs -> is_Some (fs !! backupFileName s) /\ parseBackupName (backupFileName s) = Some s.
Proof. intros Hc (n & Hn & Hp)%elem_of_stamps. by rewrite <- (Hc n s Hn Hp). Qed.

Lemma NoDup_omap_inj {A B} (f : A -> option B) (l : list A) :
  NoDup l -> (forall x y z, x ∈ l -> y ∈ l -> f x = Some z -> f y = Some z -> x = y) -> NoDup (omap f l).
Proof.
  induction 1 as [|x l Hx Hl IH]; intros Hinj; simpl; [constructor|].
  assert (Hrec : NoDup (omap f l)) by (apply IH; intros; eapply Hinj; try done; by right).
  destruct (f x) as [z|] eqn:Hz; [|done]. constructor; [|done].
  intros (y & Hy & Hyz)%list_elem_of_omap. apply Hx. rewrite (Hinj x y z); try done; [left|by right].
Qed.

Lemma stamps_nodup fs : canonical fs -> NoDup (stampsOf fs).
Proof.
  intros Hc. apply NoDup_omap_inj; [apply NoDup_fst_map_to_list|]. intros x y z Hx Hy Hfx Hfy.
  assert (Hin : forall n, n ∈ (map_to_list fs).*1 -> is_Some (fs !! n)).
  { intros n ([n' c] & -> & Hn%elem_of_map_to_list)%list_elem_of_fmap. by eexists. }
  by rewrite (Hc x z), (Hc y z) by auto.
Qed.

(** ** Pruning keeps the newest *)

Section Retention.
Context `{!OS}.
Context (Hos : forall p, os_mkdir p = None /\ os_readdir p = None /\ os_write p = None /\ os_read p = None /\ os_remove p = None).

Lemma removeBackups_lookup dir gone fs n :
  foldl (removeBackup dir) fs gone !! n =
  if decide (n ∈ backupFileName <$> gone) then None else fs !! n.
Proof.
  revert fs. induction gone as [|s gone IH]; intros fs; [done|]. simpl. rewrite IH.
  unfold removeBackup. destruct (Hos (Join dir (backupFileName s))) as (_ & _ & _ & _ & ->).
  destruct (decide (n = backupFileName s)) as [->|Hne].
  - rewrite lookup_delete_eq, (decide_True (P := _ ∈ _ :: _)) by left. by case_decide.
  - rewrite lookup_delete_ne by done. apply decide_ext. rewrite elem_of_cons. naive_solver.
Qed.

Lemma sorted_split (l : list Z) k x y :
  StronglySorted (fun a b => a <= b) l -> NoDup l -> x ∈ take k l -> y ∈ drop k l -> x < y.
Proof.
  revert k. induction l as [|z l IH]; intros k Hs Hn Hx Hy; [by destruct k; apply elem_of_nil in Hx|].
  destruct k as [|k]; [by apply elem_of_nil in Hx|]. simpl in Hx, Hy.
  apply StronglySorted_inv in Hs as [Hs Hz]. apply NoDup_cons in Hn as [Hni Hn].
  apply elem_of_cons in Hx as [->|Hx]; [|by eapply IH].
  assert (Hyl : y ∈ l) by (rewrite <- (take_drop k l); apply elem_of_app; by right).
  rewrite Forall_forall in Hz. specialize (Hz y Hyl). assert (z <> y) by (by intros ->). lia.
Qed.

Lemma pruned_stamps dir fs (gone kept : list Z) :
  canonical fs -> stampsOf fs ≡ₚ gone ++ kept ->
  canonical (foldl (removeBackup dir) fs gone) /\ stampsOf (foldl (removeBackup dir) fs gone) ≡ₚ kept.
Proof.
  intros Hc Hperm. assert (Hnd := stamps_nodup _ Hc). rewrite Hperm in Hnd.
  apply NoDup_app in Hnd as (_ & Hdis & Hnk).
  assert (Hc' : canonical (foldl (removeBackup dir) fs gone)).
  { intros n s Hn. rewrite removeBackups_lookup in Hn. case_decide; [by apply is_Some_None in Hn|]. by apply Hc. }
  split; [done|]. apply NoDup_Permutation; [by apply stamps_nodup|done|]. intros s. split.
  - intros Hs. destruct (canonical_stamp _ _ Hc' Hs) as [Hn Hp]. rewrite removeBackups_lookup in Hn.
    case_decide as Hg; [by apply is_Some_None in Hn|].
    assert (Hin : s ∈ gone ++ kept) by (rewrite <- Hperm; apply elem_of_stamps; by eauto).
    apply elem_of_app in Hin as [Hin|Hin]; [|done]. destruct Hg. by apply list_elem_of_fmap_2.
  - intros Hs. assert (Hin : s ∈ stampsOf fs) by (rewrite Hperm; apply elem_of_app; by right).
    destruct (canonical_stamp _ _ Hc Hin) as [Hn Hp]. apply elem_of_stamps. exists (backupFileName s).
    split; [|done]. rewrite removeBackups_lookup, decide_False; [done|].
    intros (s' & Heq & Hs')%list_elem_of_fmap.
    assert (Hin' : s' ∈ stampsOf fs) by (rewrite Hperm; apply elem_of_app; by left).
    destruct (canonical_stamp _ _ Hc Hin') as [_ Hp']. rewrite Heq in Hp. simplify_eq.
    by eapply Hdis.
Qed.

(** The listing after pruning. *)
Lemma prune_spec dir d :
  canonical (dirFiles dir d) ->
  exists gone kept, stampsOf (dirFiles dir d) ≡ₚ gone ++ kept /\
    (forall x y, x ∈ gone -> y ∈ kept -> x < y) /\
    length kept = Nat.min configBackupMax (length (stampsOf (dirFiles dir d))) /\
    dirFiles dir (pruneConfigBackups dir d) = foldl (removeBackup dir) (dirFiles dir d) gone.
Proof.
  intros Hc. unfold pruneConfigBackups. destruct (Hos dir) as (_ & -> & _).
  case_decide as Hl.
  { exists [], (stampsOf (dirFiles dir d)). split_and!; [done| |lia|done]. by intros x y ?%elem_of_nil. }
  set (l := stampsOf (dirFiles dir d)) in *.
  set (sorted := stable_sort (fun a b => bool_decide (a < b)) l).
  assert (Hperm : sorted ≡ₚ l) by apply stable_sort_perm.
  exists (take (length l - configBackupMax) sorted), (drop (length l - configBackupMax) sorted).
  rewrite take_drop. split_and!; [done| | |].
  - intros x y. apply sorted_split; [apply (stable_sort_sorted (fun z : Z => z))|].
    rewrite Hperm. by apply stamps_nodup.
  - rewrite length_drop, (Permutation_length Hperm). lia.
  - unfold setDir, dirFiles at 1. simpl. by rewrite lookup_insert_eq.
Qed.

(** The newest stamp survives. *)
Lemma newest_kept (l gone kept : list Z) now :
  l ≡ₚ gone ++ kept -> (forall x y, x ∈ gone -> y ∈ kept -> x < y) ->
  length kept = Nat.min configBackupMax (length l) ->
  now ∈ l -> (forall s, s ∈ l -> s <= now) -> now ∈ kept.
Proof.
  intros Hperm Hlt Hlen Hin Hmax. assert (Hin' := Hin). rewrite Hperm, elem_of_app in Hin'.
  destruct Hin' as [Hg|Hk]; [|done]. exfalso. destruct kept as [|y kept].
  - assert (Hl : (length l > 0)%nat) by (destruct l; [by apply elem_of_nil in Hin|simpl; lia]).
    unfold configBackupMax in Hlen. cbn [length] in Hlen. lia.
  - specialize (Hlt now y Hg ltac:(left)).
    specialize (Hmax y). rewrite Hperm, elem_of_app in Hmax. specialize (Hmax ltac:(right; left)). lia.
Qed.

(** Taking a snapshot keeps it: the new backup is in the
    directory with the data given and reads back, at most ten backups remain,
    every backup that was pruned is older than every one that is left, and
    files that are not backups are untouched. *)
Theorem backup_retention configPath dir now data d r d' :
  backupDir configPath = inl dir -> canonical (dirFiles dir d) ->
  0 < now < 2 ^ 63 -> (forall s, s ∈ stampsOf (dirFiles dir d) -> s < now) ->
  saveConfigBackup configPath now data d = (r, d') ->
  let before := <[backupFileName now := data]> (dirFiles dir d) in
  let after := dirFiles dir d' in
  r = inl (backupFileName now) /\ GetConfigBackup configPath (backupFileName now) d' = inl data /\
  length (stampsOf after) = Nat.min configBackupMax (length (stampsOf before)) /\
  (forall s s', s ∈ stampsOf after -> s' ∈ stampsOf before -> s' ∉ stampsOf after -> s' < s) /\
  (forall n, parseBackupName n = None -> after !! n = dirFiles dir d !! n).
Proof.
  intros Hdir Hc Hnow Hold. unfold saveConfigBackup. rewrite Hdir.
  destruct (Hos dir) as (-> & _). destruct (Hos (Join dir (backupFileName now))) as (_ & _ & -> & _).
  set (d1 := setDir dir (<[_ := _]> _) _). intros [= <- <-].
  assert (Hd1 : dirFiles dir d1 = <[backupFileName now := data]> (dirFiles dir d)).
  { unfold d1, setDir, dirFiles. simpl. by rewrite !lookup_insert_eq. }
  assert (Hc1 : canonical (dirFiles dir d1)).
  { rewrite Hd1. intros n s. rewrite lookup_insert_is_Some'. intros [Hn|Hn] Hp; [|by apply Hc].
    subst n. rewrite parseBackupName_file in Hp by done. by simplify_eq. }
  destruct (prune_spec dir d1 Hc1) as (gone & kept & Hperm & Hlt & Hlen & Heq).
  destruct (pruned_stamps dir _ gone kept Hc1 Hperm) as [_ Hkept]. rewrite <- Heq in Hkept.
  set (after := dirFiles dir (pruneConfigBackups dir d1)) in *.
  rewrite Hd1 in Hperm, Hlen, Heq. set (before := <[_ := _]> (dirFiles dir d)) in *.
  assert (Hnow_kept : now ∈ kept).
  { apply (newest_kept (stampsOf before) gone); try done.
    - apply elem_of_stamps. exists (backupFileName now).
      split; [unfold before; rewrite lookup_insert_eq; by eexists|by apply parseBackupName_file].
    - intros s (n & Hn & Hp)%elem_of_stamps. unfold before in Hn.
      rewrite lookup_insert_is_Some' in Hn. destruct Hn as [<-|Hn].
      + rewrite parseBackupName_file in Hp by done. simplify_eq. lia.
      + assert (s < now); [|lia]. apply Hold, elem_of_stamps. by exists n. }
  assert (Hgone : forall s, s ∈ gone -> parseBackupName (backupFileName s) = Some s).
  { intros s Hs. apply (canonical_stamp _ _ Hc1). rewrite Hd1, Hperm. apply elem_of_app. by left. }
  split_and!; [done| | | |].
  - unfold GetConfigBackup. rewrite parseBackupName_file, Hdir by done. fold after.
    rewrite Heq, removeBackups_lookup, decide_False.
    + unfold before. rewrite lookup_insert_eq. by destruct (Hos (Join dir (backupFileName now))) as (_ & _ & _ & -> & _).
    + intros (s & Hs & Hg)%list_elem_of_fmap. specialize (Hlt s now Hg Hnow_kept).
      assert (Hp := Hgone s Hg). rewrite <- Hs, parseBackupName_file in Hp by done. simplify_eq. lia.
  - by rewrite (Permutation_length Hkept).
  - intros s s'. rewrite Hkept, Hperm, elem_of_app. intros Hs [Hg|Hk] Hno; [by apply Hlt|done].
  - intros n Hp. rewrite Heq, removeBackups_lookup. case_decide as Hg.
    + apply list_elem_of_fmap in Hg as (s & -> & Hg). rewrite (Hgone s Hg) in Hp. done.
    + unfold before. rewrite lookup_insert_ne; [done|]. intros <-. by rewrite parseBackupName_file in Hp.
Qed.

End Retention.

Module Demo.

#[global] Instance os : OS := {|
  os_mkdir := fun (_ : string) => None; os_readdir := fun (_ : string) => None;
  os_write := fun (_ : string) => None; os_read := fun (_ : string) => None;
  os_remove := fun (_ : string) => None |}.

Definition stamps : list Z := [1; 2; 3; 4; 5; 6; 7; 8; 9; 10].
Definition filesOf (l : list Z) : gmap string string :=
  list_to_map ((fun s => (backupFileName s, "old"%string)) <$> l).
Definition full : disk := mkDisk ∅ {["/etc/backups"%string := filesOf stamps]}.

Lemma filesOf_inv l n s :
  Forall (fun s => 0 < s < 2 ^ 63) l -> is_Some (filesOf l !! n) -> parseBackupName n = Some s ->
  n = backupFileName s /\ s ∈ l.
Proof.
  intros Hl [c Hc] Hp. apply elem_of_list_to_map_2, list_elem_of_fmap in Hc as (s' & [= -> ->] & Hs).
  rewrite Forall_forall in Hl. rewrite parseBackupName_file in Hp by auto. by simplify_eq.
Qed.

End Demo.

Lemma backup_retention_witness :
  length (stampsOf (dirFiles "/etc/backups" (saveConfigBackup "/etc/c.yaml" 11 "new" Demo.full).2)) = 10%nat /\
  GetConfigBackup "/etc/c.yaml" "11.yaml" (saveConfigBackup "/etc/c.yaml" 11 "new" Demo.full).2 = inl "new"%string.
Proof.
  assert (Hall : Forall (fun s => 0 < s < 2 ^ 63) Demo.stamps) by (repeat constructor).
  assert (Hos : forall p, os_mkdir p = None /\ os_readdir p = None /\ os_write p = None /\
                os_read p = None /\ os_remove p = None) by (intros p; repeat split).
  destruct (backup_retention Hos "/etc/c.yaml" "/etc/backups" 11 "new" Demo.full
              (saveConfigBackup "/etc/c.yaml" 11 "new" Demo.full).1
              (saveConfigBackup "/etc/c.yaml" 11 "new" Demo.full).2) as (_ & Hget & Hlen & _).
  - vm_compute. reflexivity.
  - intros n s Hn Hp. exact (proj1 (Demo.filesOf_inv _ n s Hall Hn Hp)).
  - lia.
  - intros s (n & Hn & Hp)%elem_of_stamps. apply (Demo.filesOf_inv _ n s Hall Hn) in Hp as [_ Hp].
    unfold Demo.stamps in Hp. set_solver by lia.
  - apply surjective_pairing.
  - split; [|exact Hget]. rewrite Hlen. vm_compute. reflexivity.
Defined.
