(* ===== verification/Executor.v ===== *)
(** * Applying a configuration to a running engine
    ([hub/executor/executor_diff.go], [hub/executor/executor_apply.go],
    [hub/executor/executor.go], [hub/executor/audit.go])

    Reconciling the components of a running engine with a new configuration,
    with the rollback of a reload that fails half-way; the reload, patch and
    remove operations of the management interface built on it.  The engine is
    seen through the interface [EngineAPI]; the engine of [Manager] implements
    it. *)

From Stdlib Require Import ZArith Lia String.
From stdpp Require Import base list gmap strings.
From S2P Require Import Prelude GoFloat GoTime Types Util RuleEngine Scheduler Config Manager Derived Validate.

Open Scope Z_scope.

(** ** Reconciling one kind of component

    [diffDrivers] and [diffTransports] are the same function on two kinds of
    configuration: [name] is the [Name] field, [add] and [remove] the engine's
    operations. *)

(** What a diff has applied: the old configurations it removed and the names it
    added. *)
Record actions (C : Type) := mkActions { ac_removed : list C; ac_added : list string }.
Arguments mkActions {C} _ _.
Arguments ac_removed {C} _.
Arguments ac_added {C} _.

Section Diff.
Context {G C : Type} `{!DeepEqual C}.
Context (kind : string) (name : C -> string).
Context (add : C -> G -> option error * G) (remove : string -> G -> option error * G).

(** [oldMap] and [newMap]: a later entry overwrites an earlier one. *)
Definition byName (cs : list C) : gmap string C := foldl (fun m c => <[name c := c]> m) ∅ cs.

Definition failed (what : string) (n : string) (after : string) (e : error) : error :=
  ErrWrap ("failed to " +:+ what +:+ " " +:+ kind +:+ " " +:+ n +:+ after +:+ ": ") e "".

(** Removing the components that disappeared, over the old map in some order. *)
Fixpoint removeDeleted (newMap : gmap string C) (order : list (string * C)) (act : actions C) (g : G)
  : option error * actions C * G :=
  match order with
  | [] => (None, act, g)
  | (n, c) :: rest =>
    if decide (is_Some (newMap !! n)) then removeDeleted newMap rest act g
    else
      match remove n g with
      | (Some e, g) => (Some (failed "remove" n "" e), act, g)
      | (None, g) => removeDeleted newMap rest (mkActions (ac_removed act ++ [c]) (ac_added act)) g
      end
  end.

(** Adding the new ones and restarting the modified ones, over the new map. *)
Fixpoint addOrRestart (oldMap : gmap string C) (force : bool) (order : list (string * C))
    (act : actions C) (g : G) : option error * actions C * G :=
  match order with
  | [] => (None, act, g)
  | (n, c) :: rest =>
    match oldMap !! n with
    | None =>
      match add c g with
      | (Some e, g) => (Some (failed "add" n "" e), act, g)
      | (None, g) =>
        addOrRestart oldMap force rest (mkActions (ac_removed act) (ac_added act ++ [n])) g
      end
    | Some old =>
      if force || negb (deepEqual old c) then
        match remove n g with
        | (Some e, g) => (Some (failed "stop" n " for restart" e), act, g)
        | (None, g) =>
          let act := mkActions (ac_removed act ++ [old]) (ac_added act) in
          match add c g with
          | (Some e, g) => (Some (failed "restart" n "" e), act, g)
          | (None, g) =>
            addOrRestart oldMap force rest (mkActions (ac_removed act) (ac_added act ++ [n])) g
          end
        end
      else addOrRestart oldMap force rest act g
    end
  end.

Definition diff (olds news : list C) (force : bool) (oldOrder newOrder : list (string * C))
    (g : G) : option error * actions C * G :=
  match removeDeleted (byName news) oldOrder (mkActions [] []) g with
  | (Some e, act, g) => (Some e, act, g)
  | (None, act, g) => addOrRestart (byName olds) force newOrder act g
  end.

(** The part of [rollback] for this kind; failures are logged and skipped. *)
Definition removeAdded (names : list string) (g : G) : G :=
  foldl (fun g n => (remove n g).2) g names.
Definition restoreRemoved (cs : list C) (g : G) : G :=
  foldl (fun g c => (add c g).2) g (reverse cs).
Definition undo (act : actions C) (g : G) : G :=
  restoreRemoved (ac_removed act) (removeAdded (ac_added act) g).

(** *** What the engine promises

    [view] is the set of components the engine runs, [frame] everything else
    that can be observed.  A failed [add] changes nothing; a failed [remove] may
    have removed the component. *)
Context {F : Type} (view : G -> gmap string C) (frame : G -> F).

Record component_laws : Prop := {
  add_ok c g g' : add c g = (None, g') ->
    view g' = <[name c := c]> (view g) /\ frame g' = frame g;
  add_err c g e g' : add c g = (Some e, g') -> view g' = view g /\ frame g' = frame g;
  remove_ok n g g' : remove n g = (None, g') ->
    view g' = delete n (view g) /\ frame g' = frame g;
  remove_err n g e g' : remove n g = (Some e, g') ->
    (view g' = view g \/ view g' = delete n (view g)) /\ frame g' = frame g;
}.

Context (laws : component_laws).

Lemma removeDeleted_frame newMap order act g e act' g' :
  removeDeleted newMap order act g = (e, act', g') -> frame g' = frame g.
Proof.
  revert act g. induction order as [|[n c] order IH]; intros act g; simpl; [by intros [= _ _ <-]|].
  case_decide; [by apply IH|]. destruct (remove n g) as [[e1|] g1] eqn:Hr.
  - intros [= _ _ <-]. by apply (remove_err laws) in Hr as [_ ?].
  - intros Hrec. apply IH in Hrec. apply (remove_ok laws) in Hr as [_ Hf]. congruence.
Qed.

Lemma addOrRestart_frame oldMap force order act g e act' g' :
  addOrRestart oldMap force order act g = (e, act', g') -> frame g' = frame g.
Proof.
  revert act g. induction order as [|[n c] order IH]; intros act g; simpl; [by intros [= _ _ <-]|].
  destruct (oldMap !! n) as [old|].
  - destruct (force || _); [|by apply IH]. destruct (remove n g) as [[e1|] g1] eqn:Hr.
    { intros [= _ _ <-]. by apply (remove_err laws) in Hr as [_ ?]. }
    apply (remove_ok laws) in Hr as [_ Hf]. destruct (add c g1) as [[e1|] g2] eqn:Ha.
    + intros [= _ _ <-]. apply (add_err laws) in Ha as [_ ?]. congruence.
    + intros Hrec. apply IH in Hrec. apply (add_ok laws) in Ha as [_ ?]. congruence.
  - destruct (add c g) as [[e1|] g2] eqn:Ha.
    + intros [= _ _ <-]. by apply (add_err laws) in Ha as [_ ?].
    + intros Hrec. apply IH in Hrec. apply (add_ok laws) in Ha as [_ ?]. congruence.
Qed.

(** The state of a diff: what was recorded is what the engine differs in from
    the old components. *)
Record diff_inv (old : gmap string C) (act : actions C) (g : G) : Prop := {
  di_removed c : c ∈ ac_removed act -> old !! name c = Some c;
  di_added n : n ∈ ac_added act -> is_Some (view g !! n) /\
    (is_Some (old !! n) -> n ∈ name <$> ac_removed act);
  di_gone n : n ∈ name <$> ac_removed act -> n ∉ ac_added act -> view g !! n = None;
  di_rest n : n ∉ name <$> ac_removed act -> n ∉ ac_added act -> view g !! n = old !! n;
}.

(** Removing a component that is there succeeds. *)
Definition stops_ok : Prop := forall n g, is_Some (view g !! n) -> (remove n g).1 = None.

Definition entries_of (m : gmap string C) (order : list (string * C)) : Prop :=
  NoDup order.*1 /\ forall n c, (n, c) ∈ order -> m !! n = Some c /\ name c = n.

Lemma entries_cons m n c order :
  entries_of m ((n, c) :: order) -> m !! n = Some c /\ name c = n /\ n ∉ order.*1 /\ entries_of m order.
Proof.
  intros [Hnd He]. apply NoDup_cons in Hnd as [Hni Hnd].
  destruct (He n c) as [? ?]; [left|]. do 3 (split; [done|]). split; [done|].
  intros n' c' Hin. apply He. by right.
Qed.

Lemma removed_snoc (act : actions C) c n :
  n ∈ name <$> (ac_removed act ++ [c]) <-> n ∈ name <$> ac_removed act \/ n = name c.
Proof. rewrite fmap_app, elem_of_app. simpl. by rewrite list_elem_of_singleton. Qed.

(** Recording the removal of an untouched component. *)
Lemma diff_inv_remove old act g g' c :
  diff_inv old act g -> old !! name c = Some c ->
  name c ∉ name <$> ac_removed act -> name c ∉ ac_added act ->
  view g' = delete (name c) (view g) ->
  diff_inv old (mkActions (ac_removed act ++ [c]) (ac_added act)) g'.
Proof.
  intros [H1 H2 H3 H4] Hc Hnr Hna Hv. constructor; simpl; rewrite ?Hv.
  - intros c'. rewrite elem_of_app, list_elem_of_singleton. intros [?| ->]; [by apply H1|done].
  - intros n Hn. assert (Hne : n <> name c) by (by intros ->).
    rewrite lookup_delete_ne by done. destruct (H2 n Hn) as [? Hold]. split; [done|].
    rewrite removed_snoc. auto.
  - intros n. rewrite removed_snoc. destruct (decide (n = name c)) as [->|Hne];
      [by rewrite lookup_delete_eq|]. rewrite lookup_delete_ne by done.
    intros [?|?]; [by apply H3|done].
  - intros n. rewrite removed_snoc. intros Hn Hn'. rewrite lookup_delete_ne by naive_solver.
    apply H4; naive_solver.
Qed.

(** Recording the addition of a component that is not there. *)
Lemma diff_inv_add old act g g' c :
  diff_inv old act g -> name c ∉ ac_added act ->
  (is_Some (old !! name c) -> name c ∈ name <$> ac_removed act) ->
  view g' = <[name c := c]> (view g) ->
  diff_inv old (mkActions (ac_removed act) (ac_added act ++ [name c])) g'.
Proof.
  intros [H1 H2 H3 H4] Hna Hold Hv. constructor; simpl; rewrite ?Hv; [done| | |].
  - intros n. rewrite elem_of_app, list_elem_of_singleton. intros [Hn| ->].
    + destruct (H2 n Hn). rewrite lookup_insert_ne; [done|]. by intros <-.
    + rewrite lookup_insert_eq. split; [by eexists|done].
  - intros n Hn. rewrite elem_of_app, list_elem_of_singleton. intros Hn'.
    rewrite lookup_insert_ne by naive_solver. apply H3; naive_solver.
  - intros n Hn. rewrite elem_of_app, list_elem_of_singleton. intros Hn'.
    rewrite lookup_insert_ne by naive_solver. apply H4; naive_solver.
Qed.

Lemma diff_inv_same old act g g' : diff_inv old act g -> view g' = view g -> diff_inv old act g'.
Proof. intros [H1 H2 H3 H4] Hv. constructor; rewrite ?Hv; done. Qed.

Lemma removeDeleted_spec old newMap order act g e act' g' :
  removeDeleted newMap order act g = (e, act', g') ->
  diff_inv old act g -> entries_of old order -> e = None \/ stops_ok ->
  (forall n, n ∈ order.*1 -> n ∉ name <$> ac_removed act /\ n ∉ ac_added act) ->
  e = None /\ diff_inv old act' g' /\ ac_added act' = ac_added act /\
  (forall n, n ∈ name <$> ac_removed act' <->
     n ∈ name <$> ac_removed act \/ (n ∈ order.*1 /\ newMap !! n = None)).
Proof.
  revert act g. induction order as [|[n c] order IH]; intros act g Hr Hinv Hord Hok Hfresh; simpl in Hr.
  { injection Hr as <- <- <-. split_and!; try done. intros m. split; [by left|].
    intros [?|[[]%not_elem_of_nil _]]; done. }
  apply entries_cons in Hord as (Hc & <- & Hni & Hord).
  destruct (Hfresh (name c)) as [Hf1 Hf2]; [left|].
  assert (Hfresh' : forall m, m ∈ order.*1 -> m ∉ name <$> ac_removed act /\ m ∉ ac_added act).
  { intros m Hm. apply Hfresh. by right. }
  case_decide as Hnew.
  { destruct (IH _ _ Hr Hinv Hord Hok Hfresh') as (-> & Hi & Ha & Hrem). split_and!; try done.
    intros m. rewrite Hrem. csimpl. rewrite elem_of_cons. split; [naive_solver|].
    intros [?|[[->|?] Hm]]; [by left| |by right]. rewrite Hm in Hnew. by apply is_Some_None in Hnew. }
  assert (Hview : view g !! name c = Some c) by (by rewrite (di_rest _ _ _ Hinv)).
  destruct (remove (name c) g) as [[e1|] g1] eqn:Hrm.
  { injection Hr as <- <- <-. destruct Hok as [Hok|Hok]; [done|].
    specialize (Hok (name c) g). rewrite Hrm, Hview in Hok. by discriminate Hok. }
  apply (remove_ok laws) in Hrm as [Hv _].
  destruct (IH _ _ Hr) as (-> & Hi & Ha & Hrem); [by eapply diff_inv_remove|done|done| |].
  { intros m Hm. simpl. rewrite removed_snoc. destruct (Hfresh' m Hm). split; [|done].
    intros [?| ->]; done. }
  split_and!; try done. intros m. rewrite Hrem. simpl. rewrite removed_snoc. csimpl.
  rewrite elem_of_cons. apply eq_None_not_Some in Hnew. naive_solver.
Qed.

Definition named (m : gmap string C) : Prop := forall n c, m !! n = Some c -> name c = n.

Lemma byName_snoc cs c : byName (cs ++ [c]) = <[name c := c]> (byName cs).
Proof. unfold byName. by rewrite foldl_app. Qed.

Lemma byName_named cs : named (byName cs).
Proof.
  induction cs as [|c cs IH] using rev_ind; [intros n c Hn; by apply (lookup_empty_Some (M := gmap string) n c) in Hn|].
  rewrite byName_snoc. intros n c'. rewrite lookup_insert_Some. naive_solver.
Qed.

Lemma byName_elem cs n c : byName cs !! n = Some c -> c ∈ cs.
Proof.
  induction cs as [|c' cs IH] using rev_ind;
    [intros Hn; by apply (lookup_empty_Some (M := gmap string) n c) in Hn|].
  rewrite byName_snoc, elem_of_app, list_elem_of_singleton, lookup_insert_Some. naive_solver.
Qed.

Lemma entries_map m order :
  named m -> order ≡ₚ map_to_list m -> entries_of m order.
Proof.
  intros Hm Ho. split; [rewrite Ho; apply NoDup_fst_map_to_list|].
  intros n c Hin. rewrite Ho, elem_of_map_to_list in Hin. auto.
Qed.

Lemma entries_dom (m : gmap string C) order n :
  order ≡ₚ map_to_list m -> n ∈ order.*1 <-> is_Some (m !! n).
Proof.
  intros Ho. rewrite Ho, list_elem_of_fmap. split.
  - intros ([? c] & -> & Hin%elem_of_map_to_list). by exists c.
  - intros [c Hc]. exists (n, c). by rewrite elem_of_map_to_list.
Qed.

Lemma addOrRestart_cons (oldMap : gmap string C) force n c rest act g :
  addOrRestart oldMap force ((n, c) :: rest) act g =
  match addOrRestart oldMap force [(n, c)] act g with
  | (Some e, act, g) => (Some e, act, g)
  | (None, act, g) => addOrRestart oldMap force rest act g
  end.
Proof.
  simpl. destruct (oldMap !! n); [destruct (force || _)|]; try done;
    [destruct (remove n g) as [[?|] ?]; [done|]|]; by destruct (add c _) as [[?|] ?].
Qed.

(** One entry of the new map: what it changes is at its name. *)
Lemma restart_spec old force c act g e act' g' :
  diff_inv old act g -> named old -> name c ∉ name <$> ac_removed act -> name c ∉ ac_added act ->
  e = None \/ stops_ok ->
  addOrRestart old force [(name c, c)] act g = (e, act', g') ->
  diff_inv old act' g' /\ (e = None -> view g' !! name c = Some c) /\
  (forall n, n <> name c ->
     view g' !! n = view g !! n /\ (n ∈ name <$> ac_removed act' -> n ∈ name <$> ac_removed act) /\
     (n ∈ ac_added act' -> n ∈ ac_added act)).
Proof.
  intros Hinv Hnamed Hr Ha Hok. simpl. destruct (old !! name c) as [o|] eqn:Ho.
  - assert (Hview : view g !! name c = Some o) by (by rewrite (di_rest _ _ _ Hinv)).
    destruct (force || negb (deepEqual o c)) eqn:Hf.
    2: { intros [= <- <- <-]. apply orb_false_iff in Hf as [_ Hf%negb_false_iff].
         apply deepEqual_sound in Hf as ->. done. }
    assert (Hn := Hnamed _ _ Ho). rewrite <- Hn in *.
    destruct (remove (name o) g) as [[e1|] g1] eqn:Hrm.
    { intros [= <- <- <-]. destruct Hok as [Hok|Hok]; [done|].
      specialize (Hok (name o) g). rewrite Hrm, Hview in Hok. by discriminate Hok. }
    apply (remove_ok laws) in Hrm as [Hv1 _].
    assert (Hinv1 := diff_inv_remove _ _ _ _ _ Hinv Ho Hr Ha Hv1).
    destruct (add c g1) as [[e2|] g2] eqn:Had.
    + intros [= <- <- <-]. apply (add_err laws) in Had as [Hv2 _]. split_and!; [|done|].
      { by eapply diff_inv_same. }
      intros n Hne. simpl. rewrite removed_snoc, Hv2, Hv1, lookup_delete_ne by done. naive_solver.
    + intros [= <- <- <-]. apply (add_ok laws) in Had as [Hv2 _].
      rewrite Hn in *. split_and!.
      * apply (diff_inv_add _ _ _ _ _ Hinv1); [done| |done]. intros _. simpl. rewrite removed_snoc. auto.
      * intros _. by rewrite Hv2, lookup_insert_eq.
      * intros n Hne. simpl. rewrite removed_snoc, elem_of_app, list_elem_of_singleton, Hv2, Hv1.
        rewrite lookup_insert_ne, lookup_delete_ne by done. naive_solver.
  - destruct (add c g) as [[e2|] g2] eqn:Had.
    + intros [= <- <- <-]. apply (add_err laws) in Had as [Hv2 _]. split_and!; [|done|].
      { by eapply diff_inv_same. }
      intros n Hne. by rewrite Hv2.
    + intros [= <- <- <-]. apply (add_ok laws) in Had as [Hv2 _]. split_and!.
      * apply (diff_inv_add _ _ _ _ _ Hinv); [done| |done]. rewrite Ho. by intros [? [=]].
      * intros _. by rewrite Hv2, lookup_insert_eq.
      * intros n Hne. simpl. rewrite elem_of_app, list_elem_of_singleton, Hv2.
        rewrite lookup_insert_ne by done. naive_solver.
Qed.

Lemma addOrRestart_spec old news force order act g e act' g' :
  addOrRestart old force order act g = (e, act', g') ->
  diff_inv old act g -> named old -> entries_of news order -> e = None \/ stops_ok ->
  (forall n, n ∈ order.*1 -> n ∉ name <$> ac_removed act /\ n ∉ ac_added act) ->
  diff_inv old act' g' /\
  (e = None -> forall n, view g' !! n = if decide (n ∈ order.*1) then news !! n else view g !! n).
Proof.
  intros Hr Hinv Hold. revert act g Hr Hinv.
  induction order as [|[n c] order IH]; intros act g Hr Hinv Hord Hok Hfresh.
  { injection Hr as <- <- <-. done. }
  rewrite addOrRestart_cons in Hr. apply entries_cons in Hord as (Hc & <- & Hni & Hord).
  destruct (addOrRestart old force [_] act g) as [[e1 act1] g1] eqn:H1.
  destruct (Hfresh (name c)) as [Hf1 Hf2]; [left|].
  apply restart_spec in H1 as (Hinv1 & Hat & Hother); try done.
  2: { destruct Hok as [->|?]; [|by right]. left. by destruct e1. }
  destruct e1 as [e1|]; [by injection Hr as <- <- <-|].
  destruct (IH _ _ Hr Hinv1 Hord Hok) as [Hinv2 Hview].
  { intros m Hm. destruct (Hfresh m) as [? ?]; [by right|].
    destruct (Hother m) as (_ & ? & ?); [by intros ->|]. auto. }
  split; [done|]. intros -> m. rewrite (Hview eq_refl m). csimpl.
  destruct (decide (m = name c)) as [->|Hne].
  - rewrite decide_False by done. rewrite decide_True by left. rewrite Hat by done. done.
  - destruct (Hother m Hne) as (<- & _). destruct (decide (m ∈ order.*1)).
    + by rewrite decide_True by (by right).
    + rewrite decide_False; [done|]. rewrite elem_of_cons. naive_solver.
Qed.

Lemma diff_frame olds news force oldOrder newOrder g e act g' :
  diff olds news force oldOrder newOrder g = (e, act, g') -> frame g' = frame g.
Proof.
  unfold diff. destruct (removeDeleted _ _ _ g) as [[e1 act1] g1] eqn:Hrm.
  assert (Hf1 := removeDeleted_frame _ _ _ _ _ _ _ Hrm). destruct e1 as [e1|]; [by intros [= <- <- <-]|].
  intros Hd%addOrRestart_frame. congruence.
Qed.

(** *** The reconciliation is right

    When it succeeds the engine runs exactly the new components; whenever it
    stops, what it recorded is what it changed. *)
Lemma diff_spec olds news force oldOrder newOrder g e act g' :
  diff olds news force oldOrder newOrder g = (e, act, g') ->
  view g = byName olds -> oldOrder ≡ₚ map_to_list (byName olds) ->
  newOrder ≡ₚ map_to_list (byName news) -> e = None \/ stops_ok ->
  diff_inv (byName olds) act g' /\ frame g' = frame g /\ (e = None -> view g' = byName news).
Proof.
  intros Hd Hview Ho Hn Hok. unfold diff in Hd.
  destruct (removeDeleted _ _ _ g) as [[e1 act1] g1] eqn:Hrm.
  assert (Hf1 := removeDeleted_frame _ _ _ _ _ _ _ Hrm).
  apply (removeDeleted_spec (byName olds)) in Hrm as (-> & Hinv1 & Hadd & Hrem).
  - assert (Hf2 := addOrRestart_frame _ _ _ _ _ _ _ _ Hd).
    apply (addOrRestart_spec (byName olds) (byName news)) in Hd as [Hinv2 Hview2]; try done.
    + split_and!; [done|congruence|]. intros ->. apply map_eq. intros n.
      rewrite (Hview2 eq_refl n). case_decide as Hin; [done|].
      rewrite (entries_dom _ _ _ Hn) in Hin. apply eq_None_not_Some in Hin. rewrite Hin.
      destruct (decide (n ∈ name <$> ac_removed act1)) as [Hr|Hr].
      { apply (di_gone _ _ _ Hinv1); [done|]. rewrite Hadd. apply not_elem_of_nil. }
      rewrite (di_rest _ _ _ Hinv1); [|done|rewrite Hadd; apply not_elem_of_nil].
      apply eq_None_not_Some. intros Hs. apply Hr, Hrem. right. split; [|done].
      by apply (entries_dom _ _ _ Ho).
    + apply byName_named.
    + by apply entries_map, Hn; apply byName_named.
    + intros n Hin. rewrite Hadd. split; [|apply not_elem_of_nil]. rewrite Hrem.
      apply (entries_dom _ _ _ Hn) in Hin as [? Hin]. rewrite Hin.
      intros [[]%not_elem_of_nil|[_ [=]]].
  - constructor; simpl; intros n; try by intros ?%elem_of_nil. by rewrite Hview.
  - by apply entries_map, Ho; apply byName_named.
  - destruct Hok as [->|?]; [|by right]. left. by destruct e1.
  - intros n _. split; apply not_elem_of_nil.
Qed.

Lemma removeAdded_spec ns g :
  stops_ok ->
  frame (removeAdded ns g) = frame g /\
  (forall n, view (removeAdded ns g) !! n = if decide (n ∈ ns) then None else view g !! n).
Proof.
  intros Hok. revert g. induction ns as [|n ns IH]; intros g; [done|].
  change (removeAdded (n :: ns) g) with (removeAdded ns (remove n g).2).
  assert (Hone : frame (remove n g).2 = frame g /\
            forall m, view (remove n g).2 !! m = delete n (view g) !! m).
  { destruct (remove n g) as [[e|] g'] eqn:Hr; simpl.
    - assert (Habs : view g !! n = None).
      { apply eq_None_not_Some. intros Hs. specialize (Hok n g Hs). by rewrite Hr in Hok. }
      apply (remove_err laws) in Hr as [[->| ->] ->]; split; try done. intros m.
      by rewrite delete_id.
    - apply (remove_ok laws) in Hr as [-> ->]. done. }
  destruct Hone as [Hf Hv]. destruct (IH (remove n g).2) as [-> Hv']. split; [done|].
  intros m. rewrite Hv', Hv. destruct (decide (m = n)) as [->|Hne].
  - rewrite lookup_delete_eq, (decide_True (P := n ∈ n :: ns)) by left. by case_decide.
  - rewrite lookup_delete_ne by done. apply decide_ext. rewrite elem_of_cons. naive_solver.
Qed.

Lemma restoreRemoved_spec (old : gmap string C) cs g :
  (forall c, c ∈ cs -> old !! name c = Some c) ->
  (forall c g, old !! name c = Some c -> (add c g).1 = None) ->
  frame (restoreRemoved cs g) = frame g /\
  (forall n, view (restoreRemoved cs g) !! n =
     if decide (n ∈ name <$> cs) then old !! n else view g !! n).
Proof.
  intros Hold Hadd. unfold restoreRemoved.
  induction cs as [|c cs IH]; [done|]. rewrite reverse_cons, foldl_app. simpl.
  set (g1 := foldl _ g (reverse cs)) in *.
  destruct IH as [Hf Hv]; [intros c' Hc'; apply Hold; by right|].
  assert (Hc : old !! name c = Some c) by (apply Hold; left).
  assert (Hs := Hadd c g1 Hc). destruct (add c g1) as [e g2] eqn:Ha. simpl in Hs |- *. subst e.
  apply (add_ok laws) in Ha as [Hv2 ->]. split; [done|]. intros n. rewrite Hv2.
  destruct (decide (n = name c)) as [->|Hne].
  - rewrite lookup_insert_eq, decide_True by left. done.
  - rewrite lookup_insert_ne by done. rewrite Hv. apply decide_ext. csimpl.
    rewrite elem_of_cons. naive_solver.
Qed.

(** The rollback restores the old components, when the engine accepts their
    configurations again and stops what it runs. *)
Lemma undo_spec old act g :
  diff_inv old act g -> stops_ok ->
  (forall c g, old !! name c = Some c -> (add c g).1 = None) ->
  view (undo act g) = old /\ frame (undo act g) = frame g.
Proof.
  intros Hinv Hok Hadd. unfold undo.
  destruct (removeAdded_spec (ac_added act) g Hok) as [Hf1 Hv1].
  destruct (restoreRemoved_spec old (ac_removed act) (removeAdded (ac_added act) g)) as [Hf2 Hv2];
    [apply (di_removed _ _ _ Hinv)|done|].
  split; [|congruence]. apply map_eq. intros n. rewrite Hv2, Hv1.
  destruct (decide (n ∈ name <$> _)) as [Hr|Hr]; [done|].
  destruct (decide (n ∈ ac_added act)) as [Ha|Ha]; [|by apply (di_rest _ _ _ Hinv)].
  symmetry. apply eq_None_not_Some. intros Hs. by apply Hr, (di_added _ _ _ Hinv).
Qed.

End Diff.

(** A name in neither map is left alone. *)
Section Untouched.
Context {G C : Type} `{!DeepEqual C} (kind : string) (name : C -> string).
Context (add : C -> G -> option error * G) (remove : string -> G -> option error * G).
Context {F : Type} (view : G -> gmap string C) (frame : G -> F).
Context (laws : component_laws name add remove view frame).

Lemma remove_other n m g e g' : remove m g = (e, g') -> n <> m -> view g' !! n = view g !! n.
Proof.
  intros Hr Hne. destruct e as [e|].
  - apply (remove_err _ _ _ _ _ laws) in Hr as [[->| ->] _]; [done|]. by rewrite lookup_delete_ne.
  - apply (remove_ok _ _ _ _ _ laws) in Hr as [-> _]. by rewrite lookup_delete_ne.
Qed.

Lemma add_other n c g e g' : add c g = (e, g') -> n <> name c -> view g' !! n = view g !! n.
Proof.
  intros Ha Hne. destruct e as [e|].
  - by apply (add_err _ _ _ _ _ laws) in Ha as [-> _].
  - apply (add_ok _ _ _ _ _ laws) in Ha as [-> _]. by rewrite lookup_insert_ne.
Qed.

Lemma removeDeleted_other n (newMap : gmap string C) (order : list (string * C)) (act : actions C) g e act' g' :
  removeDeleted kind remove newMap order act g = (e, act', g') -> n ∉ order.*1 -> view g' !! n = view g !! n.
Proof.
  revert act g. induction order as [|[m c] order IH]; intros act g; simpl; [by intros [= _ _ <-]|].
  rewrite not_elem_of_cons. case_decide; [naive_solver|].
  destruct (remove m g) as [[e1|] g1] eqn:Hr; intros Hrec [Hne Hn].
  - injection Hrec as <- <- <-. by eapply remove_other.
  - rewrite (IH _ _ Hrec Hn). by eapply remove_other.
Qed.

Lemma addOrRestart_other n (oldMap : gmap string C) force (order : list (string * C)) (act : actions C) g e act' g' :
  addOrRestart kind add remove oldMap force order act g = (e, act', g') ->
  n ∉ order.*1 -> Forall (fun p => name p.2 = p.1) order -> view g' !! n = view g !! n.
Proof.
  revert act g. induction order as [|[m c] order IH]; intros act g; simpl; [by intros [= _ _ <-]|].
  rewrite not_elem_of_cons, Forall_cons. intros Hrec [Hne Hn] [Hm Hord]. simpl in Hm.
  destruct (oldMap !! m) as [o|]; [destruct (force || _)|].
  - destruct (remove m g) as [[e1|] g1] eqn:Hr; apply (remove_other n) in Hr; [|done| |done];
      [by injection Hrec as <- <- <-|].
    destruct (add c g1) as [[e2|] g2] eqn:Ha; apply (add_other n) in Ha; [|congruence| |congruence];
      [by injection Hrec as <- <- <-; congruence|]. rewrite (IH _ _ Hrec) by done. congruence.
  - by eapply IH.
  - destruct (add c g) as [[e2|] g2] eqn:Ha; apply (add_other n) in Ha; [|congruence| |congruence];
      [by injection Hrec as <- <- <-; congruence|]. rewrite (IH _ _ Hrec) by done. congruence.
Qed.

Lemma diff_other n olds news force oldOrder newOrder g e act g' :
  diff kind name add remove olds news force oldOrder newOrder g = (e, act, g') ->
  oldOrder ≡ₚ map_to_list (byName name olds) -> newOrder ≡ₚ map_to_list (byName name news) ->
  byName name olds !! n = None -> byName name news !! n = None -> view g' !! n = view g !! n.
Proof.
  intros Hd Ho Hn Hno Hnn. unfold diff in Hd.
  destruct (removeDeleted _ _ _ _ _ g) as [[e1 act1] g1] eqn:Hrm.
  apply (removeDeleted_other n) in Hrm; [|rewrite (entries_dom _ _ _ Ho), Hno; by apply is_Some_None].
  destruct e1 as [e1|]; [by injection Hd as <- <- <-|].
  apply (addOrRestart_other n) in Hd; [congruence|rewrite (entries_dom _ _ _ Hn), Hnn; by apply is_Some_None|].
  apply Forall_forall. intros [m c] Hin. rewrite Hn, elem_of_map_to_list in Hin.
  by apply byName_named in Hin.
Qed.

End Untouched.

(** ** The engine the executor drives ([core.Engine])

    The operations with what can be observed of an engine: the components it
    runs, its rules and its derived tags.  [build_rules] and [build_derived] say
    what setting rules or derived tags gives, or that it fails. *)
Class EngineAPI (G RO DO : Type) := {
  api_AddDriver : DriverConfig -> G -> option error * G;
  api_RemoveDriver : string -> G -> option error * G;
  api_AddTransport : TransportConfig -> G -> option error * G;
  api_RemoveTransport : string -> G -> option error * G;
  api_SetRules : list RuleConfig -> G -> option error * G;
  api_ApplyDerivedTags : list DerivedTagConfig -> G -> option error * G;
  api_Suspend : G -> option error * G;
  api_Resume : G -> option error * G;
  drivers_of : G -> gmap string DriverConfig;
  transports_of : G -> gmap string TransportConfig;
  rules_of : G -> RO;
  derived_of : G -> DO;
  build_rules : list RuleConfig -> RO -> option RO;
  build_derived : list DerivedTagConfig -> DO -> option DO;
}.

Definition observe {G RO DO} `{!EngineAPI G RO DO} (g : G) :=
  (drivers_of g, transports_of g, rules_of g, derived_of g).

(** A call that sets a whole set of [cs]: it succeeds as [build] says, or
    changes nothing. *)
Definition sets {G O C F} (call : list C -> G -> option error * G) (obs : G -> O)
    (build : list C -> O -> option O) (frame : G -> F) : Prop :=
  forall cs g e g', call cs g = (e, g') -> frame g' = frame g /\
    match build cs (obs g) with
    | Some o => e = None /\ obs g' = o
    | None => e <> None /\ obs g' = obs g
    end.

(** What can be built does not depend on what was built before. *)
Definition rebuilds {O C} (build : list C -> O -> option O) : Prop :=
  forall cs o o', build cs o = Some o' -> forall cs', build cs' o' = build cs' o.

Class EngineLaws (G RO DO : Type) `{!EngineAPI G RO DO} : Prop := {
  driver_laws : component_laws dc_Name api_AddDriver api_RemoveDriver drivers_of
    (fun g : G => (transports_of g, rules_of g, derived_of g));
  transport_laws : component_laws tp_Name api_AddTransport api_RemoveTransport transports_of
    (fun g : G => (drivers_of g, rules_of g, derived_of g));
  rules_law : sets api_SetRules rules_of build_rules
    (fun g : G => (drivers_of g, transports_of g, derived_of g));
  rules_rebuild : rebuilds build_rules;
  derived_law : sets api_ApplyDerivedTags derived_of build_derived
    (fun g : G => (drivers_of g, transports_of g, rules_of g));
  derived_rebuild : rebuilds build_derived;
  suspend_law (g : G) : observe (api_Suspend g).2 = observe g;
  resume_law (g : G) : observe (api_Resume g).2 = observe g;
}.

(** ** Applying a configuration *)

(** [LevelMapping] of [log/level.go]; the levels of [slog]. *)
Definition ParseLevel (s : string) : option Z :=
  if decide (s = "debug"%string) then Some (-4)
  else if decide (s = "info"%string) then Some 0
  else if decide (s = "warn" \/ s = "warning")%string then Some 4
  else if decide (s = "error"%string) then Some 8
  else if decide (s = "silent"%string) then Some 18
  else None.

(** The iteration orders of the four maps. *)
Record orders := mkOrders {
  od_old : list (string * DriverConfig);
  od_new : list (string * DriverConfig);
  ot_old : list (string * TransportConfig);
  ot_new : list (string * TransportConfig);
}.

Definition orders_ok (ord : orders) (old new : Config) : Prop :=
  od_old ord ≡ₚ map_to_list (byName dc_Name (cf_Drivers old)) /\
  od_new ord ≡ₚ map_to_list (byName dc_Name (cf_Drivers new)) /\
  ot_old ord ≡ₚ map_to_list (byName tp_Name (cf_Transports old)) /\
  ot_new ord ≡ₚ map_to_list (byName tp_Name (cf_Transports new)).

(** [core.ConfigAuditEntry]. *)
Record ConfigAuditEntry := mkAuditEntry {
  au_At : Z;
  au_Action : string;
  au_Remote : string;
  au_Keys : list string;
  au_Details : string;
}.

(** The package's variables, the process log level and format, and the audit
    trail. *)
Record executor (G : Type) := mkExecutor {
  ex_engine : option G;
  ex_current : option Config;
  ex_path : string;
  ex_level : Z;
  ex_format : string;
  ex_audit : list ConfigAuditEntry;
}.
Arguments mkExecutor {G} _ _ _ _ _ _.
Arguments ex_engine {G} _.
Arguments ex_current {G} _.
Arguments ex_path {G} _.
Arguments ex_level {G} _.
Arguments ex_format {G} _.
Arguments ex_audit {G} _.

Section Apply.
Context {G RO DO : Type} `{!EngineAPI G RO DO}.
Context `{!DeepEqual DriverConfig} `{!DeepEqual TransportConfig}.
Context `{!DeepEqual (list RuleConfig)} `{!DeepEqual (list DerivedTagConfig)}.

Definition diffDrivers (ord : orders) (olds news : list DriverConfig) (force : bool) (g : G) :=
  diff "driver" dc_Name api_AddDriver api_RemoveDriver olds news force (od_old ord) (od_new ord) g.
Definition diffTransports (ord : orders) (olds news : list TransportConfig) (force : bool) (g : G) :=
  diff "transport" tp_Name api_AddTransport api_RemoveTransport olds news force (ot_old ord) (ot_new ord) g.

Definition rollback (oldCfg : Config) (ad : actions DriverConfig) (at_ : actions TransportConfig)
    (rulesApplied : bool) (g : G) : G :=
  let g := undo api_AddTransport api_RemoveTransport at_ g in
  let g := undo api_AddDriver api_RemoveDriver ad g in
  if rulesApplied then (api_SetRules (cf_Rules oldCfg) g).2 else g.

(** Steps 5 and 5b, with the flag [rulesApplied]. *)
Definition updateRules (oldCfg cfg : Config) (force : bool) (g : G) : option error * bool * G :=
  if force || negb (deepEqual (cf_Rules oldCfg) (cf_Rules cfg)) then
    match api_SetRules (cf_Rules cfg) g with
    | (Some e, g) => (Some (ErrWrap "error updating rules: " e ""), false, g)
    | (None, g) => (None, true, g)
    end
  else (None, false, g).

Definition updateDerived (oldCfg cfg : Config) (force : bool) (g : G) : option error * G :=
  if force || negb (deepEqual (cf_DerivedTags oldCfg) (cf_DerivedTags cfg)) then
    match api_ApplyDerivedTags (cf_DerivedTags cfg) g with
    | (Some e, g) => (Some (ErrWrap "error updating derived tags: " e ""), g)
    | (None, g) => (None, g)
    end
  else (None, g).

(** The body of [ApplyConfig] between the suspension and the resumption. *)
Definition applyDiffs (ord : orders) (oldCfg cfg : Config) (force : bool) (g : G)
  : option error * G :=
  match diffDrivers ord (cf_Drivers oldCfg) (cf_Drivers cfg) force g with
  | (Some e, ad, g) =>
    (Some (ErrWrap "error updating drivers: " e ""), rollback oldCfg ad (mkActions [] []) false g)
  | (None, ad, g) =>
    match diffTransports ord (cf_Transports oldCfg) (cf_Transports cfg) force g with
    | (Some e, at_, g) =>
      (Some (ErrWrap "error updating transports: " e ""), rollback oldCfg ad at_ false g)
    | (None, at_, g) =>
      match updateRules oldCfg cfg force g with
      | (Some e, applied, g) => (Some e, rollback oldCfg ad at_ applied g)
      | (None, applied, g) =>
        match updateDerived oldCfg cfg force g with
        | (Some e, g) => (Some e, rollback oldCfg ad at_ applied g)
        | (None, g) => (None, g)
        end
      end
    end
  end.

Definition ApplyConfig (ord : orders) (cfg : Config) (force : bool) (x : executor G)
  : option error * executor G :=
  match ex_engine x with
  | None => (Some (ErrFmt "engine not initialized in executor"), x)
  | Some g =>
    let level := default (ex_level x) (ParseLevel (gl_LogLevel (cf_Global cfg))) in
    let g := (api_Suspend g).2 in
    let '(err, g) := applyDiffs ord (default Config_zero (ex_current x)) cfg force g in
    let g := (api_Resume g).2 in
    (err, mkExecutor (Some g) (if err then ex_current x else Some cfg) (ex_path x) level
            (ex_format x) (ex_audit x))
  end.

End Apply.

Section ApplyProofs.
Context {G RO DO : Type} `{!EngineAPI G RO DO} `{!EngineLaws G RO DO}.
Context `{!DeepEqual DriverConfig} `{!DeepEqual TransportConfig}.
Context `{!DeepEqual (list RuleConfig)} `{!DeepEqual (list DerivedTagConfig)}.
Implicit Types (g : G) (old cfg : Config).

(** The engine runs what the configuration says. *)
Record in_sync cfg g : Prop := {
  sy_drivers : drivers_of g = byName dc_Name (cf_Drivers cfg);
  sy_transports : transports_of g = byName tp_Name (cf_Transports cfg);
  sy_rules : build_rules (cf_Rules cfg) (rules_of g) = Some (rules_of g);
  sy_derived : build_derived (cf_DerivedTags cfg) (derived_of g) = Some (derived_of g);
}.

Lemma in_sync_observe cfg g g' : observe g' = observe g -> in_sync cfg g -> in_sync cfg g'.
Proof. intros [= H1 H2 H3 H4] [? ? ? ?]. constructor; congruence. Qed.

(** Components that are there stop without an error, and the components of the
    old configuration start again. *)
Record reversible old : Prop := {
  rv_stop_driver : stops_ok api_RemoveDriver (drivers_of (G := G));
  rv_stop_transport : stops_ok api_RemoveTransport (transports_of (G := G));
  rv_add_driver c g : byName dc_Name (cf_Drivers old) !! dc_Name c = Some c -> (api_AddDriver c g).1 = None;
  rv_add_transport c g :
    byName tp_Name (cf_Transports old) !! tp_Name c = Some c -> (api_AddTransport c g).1 = None;
}.

Lemma no_actions {C} (name : C -> string) view g :
  diff_inv (G := G) name view (view g) (mkActions [] []) g.
Proof. constructor; simpl; try by intros ? ?%elem_of_nil. done. Qed.

(** The rollback undoes what the two diffs and the rule update did. *)
Lemma rollback_spec old ad at_ (applied : bool) g0 g :
  in_sync old g0 -> reversible old ->
  diff_inv dc_Name drivers_of (byName dc_Name (cf_Drivers old)) ad g ->
  diff_inv tp_Name transports_of (byName tp_Name (cf_Transports old)) at_ g ->
  derived_of g = derived_of g0 ->
  (if applied then exists rs, build_rules rs (rules_of g0) = Some (rules_of g) else rules_of g = rules_of g0) ->
  observe (rollback old ad at_ applied g) = observe g0.
Proof.
  intros Hsync Hrev Had Hat Hd Hr. unfold rollback.
  destruct (undo_spec _ _ _ _ _ transport_laws _ _ _ Hat (rv_stop_transport _ Hrev) (rv_add_transport _ Hrev))
    as [Ht1 Hf1]. set (g1 := undo api_AddTransport _ _ _) in *. injection Hf1 as Hd1 Hr1 Hv1.
  apply (diff_inv_same _ _ _ _ _ g1) in Had; [|done].
  destruct (undo_spec _ _ _ _ _ driver_laws _ _ _ Had (rv_stop_driver _ Hrev) (rv_add_driver _ Hrev))
    as [Ht2 Hf2]. set (g2 := undo api_AddDriver _ _ _) in *. injection Hf2 as Hd2 Hr2 Hv2.
  unfold observe. destruct applied.
  - destruct (api_SetRules (cf_Rules old) g2) as [e g3] eqn:Hs. simpl.
    destruct (rules_law _ _ _ _ Hs) as [[= H1 H2 H3] Hb]. destruct Hr as [rs Hr].
    rewrite Hr2, Hr1, (rules_rebuild _ _ _ Hr), (sy_rules _ _ Hsync) in Hb. destruct Hb as [_ Hb].
    rewrite H1, H2, H3, Hb, Ht2, Hd2, Ht1, Hv2, Hv1, Hd.
    by rewrite (sy_drivers _ _ Hsync), (sy_transports _ _ Hsync).
  - rewrite Ht2, Hd2, Ht1, Hr2, Hr1, Hr, Hv2, Hv1, Hd.
    by rewrite (sy_drivers _ _ Hsync), (sy_transports _ _ Hsync).
Qed.

Lemma updateRules_spec old cfg force g e applied g' :
  updateRules old cfg force g = (e, applied, g') ->
  build_rules (cf_Rules old) (rules_of g) = Some (rules_of g) ->
  (drivers_of g', transports_of g', derived_of g') = (drivers_of g, transports_of g, derived_of g) /\
  match e with
  | None => build_rules (cf_Rules cfg) (rules_of g') = Some (rules_of g') /\
            (if applied then exists rs, build_rules rs (rules_of g) = Some (rules_of g')
             else rules_of g' = rules_of g)
  | Some _ => applied = false /\ rules_of g' = rules_of g
  end.
Proof.
  unfold updateRules. intros Hu Hold. destruct (force || _) eqn:Hf.
  - destruct (api_SetRules (cf_Rules cfg) g) as [e1 g1] eqn:Hs.
    destruct (rules_law _ _ _ _ Hs) as [Hfr Hb].
    destruct (build_rules (cf_Rules cfg) (rules_of g)) as [ro|] eqn:Hro; destruct Hb as [He Hg].
    + subst e1. injection Hu as <- <- <-. split; [done|]. rewrite Hg. split; [|by exists (cf_Rules cfg)].
      by rewrite (rules_rebuild _ _ _ Hro).
    + destruct e1; [|done]. injection Hu as <- <- <-. by split.
  - injection Hu as <- <- <-. split; [done|]. apply orb_false_iff in Hf as [_ Hf%negb_false_iff].
    apply deepEqual_sound in Hf as <-. done.
Qed.

Lemma updateDerived_spec old cfg force g e g' :
  updateDerived old cfg force g = (e, g') ->
  build_derived (cf_DerivedTags old) (derived_of g) = Some (derived_of g) ->
  (drivers_of g', transports_of g', rules_of g') = (drivers_of g, transports_of g, rules_of g) /\
  match e with
  | None => build_derived (cf_DerivedTags cfg) (derived_of g') = Some (derived_of g')
  | Some _ => derived_of g' = derived_of g
  end.
Proof.
  unfold updateDerived. intros Hu Hold. destruct (force || _) eqn:Hf.
  - destruct (api_ApplyDerivedTags (cf_DerivedTags cfg) g) as [e1 g1] eqn:Hs.
    destruct (derived_law _ _ _ _ Hs) as [Hfr Hb].
    destruct (build_derived (cf_DerivedTags cfg) (derived_of g)) as [d|] eqn:Hd; destruct Hb as [He Hg].
    + subst e1. injection Hu as <- <-. split; [done|]. rewrite Hg. by rewrite (derived_rebuild _ _ _ Hd).
    + destruct e1; [|done]. injection Hu as <- <-. by split.
  - injection Hu as <- <-. split; [done|]. apply orb_false_iff in Hf as [_ Hf%negb_false_iff].
    apply deepEqual_sound in Hf as <-. done.
Qed.

Lemma applyDiffs_spec ord old cfg force g e g' :
  applyDiffs ord old cfg force g = (e, g') ->
  in_sync old g -> orders_ok ord old cfg -> reversible old ->
  match e with None => in_sync cfg g' | Some _ => observe g' = observe g end.
Proof.
  intros Ha Hsync (Ho1 & Ho2 & Ho3 & Ho4) Hrev. unfold applyDiffs in Ha.
  destruct (diffDrivers _ _ _ _ g) as [[e1 ad] g1] eqn:Hd.
  apply (diff_spec _ _ _ _ _ _ driver_laws) in Hd as (Hinv1 & Hf1 & Hv1);
    [|apply (sy_drivers _ _ Hsync)|done..|right; apply (rv_stop_driver _ Hrev)].
  injection Hf1 as Ht1 Hr1 Hd1.
  assert (Hnone : diff_inv tp_Name transports_of (byName tp_Name (cf_Transports old)) (mkActions [] []) g1).
  { rewrite <- (sy_transports _ _ Hsync), <- Ht1. apply no_actions. }
  destruct e1 as [e1|]; [injection Ha as <- <-; by apply (rollback_spec old ad (mkActions [] []) false g g1)|].
  destruct (diffTransports _ _ _ _ g1) as [[e2 at_] g2] eqn:Ht.
  apply (diff_spec _ _ _ _ _ _ transport_laws) in Ht as (Hinv2 & Hf2 & Hv2);
    [|by rewrite Ht1; apply (sy_transports _ _ Hsync)|done..|right; apply (rv_stop_transport _ Hrev)].
  injection Hf2 as Hd2 Hr2 Hv2'.
  apply (diff_inv_same _ _ _ _ _ g2) in Hinv1; [|done].
  destruct e2 as [e2|]; [injection Ha as <- <-; apply (rollback_spec old ad at_ false g g2); congruence|].
  destruct (updateRules _ _ _ g2) as [[e3 applied] g3] eqn:Hu.
  apply updateRules_spec in Hu as [[= H1 H2 H3] Hu]; [|rewrite Hr2, Hr1; apply (sy_rules _ _ Hsync)].
  apply (diff_inv_same _ _ _ _ _ g3) in Hinv1, Hinv2; [|done..].
  destruct e3 as [e3|].
  { destruct Hu as [-> Hu]. injection Ha as <- <-. apply (rollback_spec old ad at_ false g g3); congruence. }
  destruct Hu as [Hrules Happ]. rewrite Hr2, Hr1 in Happ.
  destruct (updateDerived _ _ _ g3) as [e4 g4] eqn:Hdv.
  apply updateDerived_spec in Hdv as [[= H4 H5 H6] Hdv];
    [|rewrite H3, Hv2', Hd1; apply (sy_derived _ _ Hsync)].
  apply (diff_inv_same _ _ _ _ _ g4) in Hinv1, Hinv2; [|done..].
  destruct e4 as [e4|]; injection Ha as <- <-.
  - apply (rollback_spec old ad at_ applied g g4); try done; [congruence|]. by rewrite H6.
  - constructor; try congruence. rewrite H4, H1, Hd2. by apply Hv1. rewrite H5, H2. by apply Hv2.
Qed.

Lemma ApplyConfig_spec ord cfg force (x x' : executor G) g err :
  ex_engine x = Some g ->
  let old := default Config_zero (ex_current x) in
  in_sync old g -> orders_ok ord old cfg -> reversible old ->
  ApplyConfig ord cfg force x = (err, x') ->
  exists g', ex_engine x' = Some g' /\
    match err with
    | None => in_sync cfg g' /\ ex_current x' = Some cfg
    | Some _ => observe g' = observe g /\ ex_current x' = ex_current x
    end.
Proof.
  intros Hg old Hsync Hord Hrev. unfold ApplyConfig. rewrite Hg. fold old.
  destruct (applyDiffs ord old cfg force (api_Suspend g).2) as [e g1] eqn:Ha. intros [= <- <-].
  exists (api_Resume g1).2. split; [done|]. simpl.
  apply applyDiffs_spec in Ha; try done; [|by eapply in_sync_observe; [apply suspend_law|]].
  destruct e as [e|]; simpl.
  - split; [|done]. by rewrite resume_law, Ha, suspend_law.
  - split; [|done]. by eapply in_sync_observe; [apply resume_law|].
Qed.

(** The drivers of an update that succeeds are those the driver diff left. *)
Lemma applyDiffs_drivers ord old cfg force g g' :
  applyDiffs ord old cfg force g = (None, g') ->
  exists ad g1, diffDrivers ord (cf_Drivers old) (cf_Drivers cfg) force g = (None, ad, g1) /\
    drivers_of g' = drivers_of g1.
Proof.
  unfold applyDiffs. destruct (diffDrivers _ _ _ _ g) as [[[e1|] ad] g1]; [done|].
  destruct (diffTransports _ _ _ _ g1) as [[[e2|] at_] g2] eqn:Ht; [done|].
  apply (diff_frame _ _ _ _ _ _ transport_laws) in Ht. injection Ht as Hd2 _ _.
  unfold updateRules, updateDerived.
  assert (Hr : forall rs h, drivers_of (api_SetRules rs h).2 = drivers_of h).
  { intros rs h. destruct (api_SetRules rs h) as [e h'] eqn:Hs. destruct (rules_law _ _ _ _ Hs) as [[= Hx _ _] _]; exact Hx. }
  assert (Hv : forall ds h, drivers_of (api_ApplyDerivedTags ds h).2 = drivers_of h).
  { intros ds h. destruct (api_ApplyDerivedTags ds h) as [e h'] eqn:Hs. destruct (derived_law _ _ _ _ Hs) as [[= Hx _ _] _]; exact Hx. }
  intros Ha. exists ad, g1. split; [done|]. rewrite <- Hd2.
  specialize (Hr (cf_Rules cfg) g2).
  destruct (force || negb (deepEqual (cf_Rules old) (cf_Rules cfg)));
    [destruct (api_SetRules (cf_Rules cfg) g2) as [[e3|] g3]; [done|]; simpl in Hr; rewrite <- Hr; clear Hr|];
    (destruct (force || _); [|by injection Ha as <-]);
    match type of Ha with context [api_ApplyDerivedTags ?ds ?h] =>
      specialize (Hv ds h); destruct (api_ApplyDerivedTags ds h) as [[e4|] g4]; [done|];
      simpl in Hv; injection Ha as <-; exact Hv end.
Qed.

(** A driver whose [Stop] fails is lost: it is gone from the engine, the update
    reports the error and rolls back, but the driver is not put back, while the
    current configuration still has it. *)
Theorem stop_error_loses_driver ord cfg (x x' : executor G) g c e g1 old r :
  ex_engine x = Some g -> ex_current x = Some old -> cf_Drivers old = [c] -> cf_Drivers cfg = [] ->
  od_old ord = [(dc_Name c, c)] ->
  api_RemoveDriver (dc_Name c) (api_Suspend g).2 = (Some e, g1) -> drivers_of g1 !! dc_Name c = None ->
  ApplyConfig ord cfg false x = (r, x') ->
  r <> None /\ ex_current x' = Some old /\
  exists g', ex_engine x' = Some g' /\ drivers_of g' !! dc_Name c = None.
Proof.
  intros Hg Hcur Hold Hnew Hord Hrm Hgone.
  unfold ApplyConfig, applyDiffs, diffDrivers, diff. rewrite Hg, Hcur. simpl.
  rewrite Hold, Hnew, Hord. simpl. rewrite Hrm. intros [= <- <-]. split_and!; [done..|].
  exists (api_Resume g1).2. split; [done|].
  assert (Hres := resume_law g1). unfold observe in Hres. injection Hres as Hres _ _ _.
  by rewrite Hres.
Qed.

(** C3.  Applying a configuration is atomic: if it succeeds,
    the engine runs exactly the drivers, transports, rules and derived tags of
    the new configuration, which becomes the current one; if it fails at any
    step, the engine runs what it ran before and the current configuration
    stays.  This assumes that components stop without an error and that those
    of the old configuration can be started again. *)
Theorem apply_config_atomic ord cfg force (x x' : executor G) g err :
  ex_engine x = Some g ->
  let old := default Config_zero (ex_current x) in
  in_sync old g -> orders_ok ord old cfg -> reversible old ->
  ApplyConfig ord cfg force x = (err, x') ->
  exists g', ex_engine x' = Some g' /\
    match err with
    | None => in_sync cfg g' /\ ex_current x' = Some cfg
    | Some _ => observe g' = observe g /\ ex_current x' = ex_current x
    end.
Proof. apply ApplyConfig_spec. Qed.

End ApplyProofs.
