(* ===== verification/Engine.v ===== *)
(** * The engine as the executor drives it ([engine/engine.go],
    [engine/engine_stats.go], [engine/runtime.go], [engine/rules.go],
    [engine/lifecycle_support.go])

    The composition of the driver and transport registries, the rule engine and
    the derived tags into one engine, and the proof that it keeps the promises
    of the interface [EngineAPI] the executor is proved against. *)

From Stdlib Require Import ZArith Lia String.
From stdpp Require Import base list gmap strings.
From S2P Require Import Prelude GoFloat GoTime Types Util RuleEngine Cache Scheduler Config Manager.
From S2P Require Import Derived Validate Executor.

Open Scope Z_scope.

Inductive EngineStatus := EngineStatusStopped | EngineStatusRunning | EngineStatusSuspended.

(** [CoreCEngine], by its roles. *)
Record coreEngine (E prog dprog : Type) := mkCore {
  co_mgr : Manager.engine E;
  co_rules : RuleSystem (prog := prog);
  co_derived : derivedSupport dprog;
  co_status : EngineStatus;
}.
Arguments mkCore {E prog dprog} _ _ _ _.
Arguments co_mgr {E prog dprog} _.
Arguments co_rules {E prog dprog} _.
Arguments co_derived {E prog dprog} _.
Arguments co_status {E prog dprog} _.

Section Core.
Context {E : Type} `{!SchedEnv E} `{!ManagerEnv E} `{!GoArch}.
Context {prog : Type} `{!ExprLib prog} {dprog : Type} `{!DerivedExpr dprog}.
Notation core := (coreEngine E prog dprog).

(** A call of the registries. *)
Definition onMgr {A} (f : Manager.engine E -> A * Manager.engine E) (g : core) : A * core :=
  let '(x, m) := f (co_mgr g) in (x, mkCore m (co_rules g) (co_derived g) (co_status g)).

Definition coreAddDriver (c : DriverConfig) : core -> option error * core := onMgr (AddDriver c).
Definition coreRemoveDriver (n : string) : core -> option error * core := onMgr (RemoveDriver n).
Definition coreAddTransport (c : TransportConfig) : core -> option error * core := onMgr (AddTransport c).
Definition coreRemoveTransport (n : string) : core -> option error * core := onMgr (RemoveTransport n).

(** [ruleRole.SetRules]; [compileExpr] returns a program or an error. *)
Definition coreSetRules (rs : list RuleConfig) (g : core) : option error * core :=
  let y := co_rules g in
  match SetRules rs (rs_providers y) (rs_subs y) with
  | Ok e => (None, mkCore (co_mgr g) (mkSystem e (rs_providers y) (rs_subs y) (rs_heap y))
                     (co_derived g) (co_status g))
  | Err e => (Some e, g)
  | Panic => (Some (ErrFmt ""), g)
  end.

Definition coreApplyDerivedTags (cs : list DerivedTagConfig) (g : core) : option error * core :=
  let '(e, l) := applyDerivedTags cs (co_derived g) in
  (e, mkCore (co_mgr g) (co_rules g) l (co_status g)).

(** [Suspend] and [Resume] with the scheduler's [Pause] and [Resume], which do
    not fail. *)
Definition coreSuspend (g : core) : option error * core :=
  (None, mkCore (with_sched Pause (co_mgr g)) (co_rules g) (co_derived g) EngineStatusSuspended).
Definition coreResume (g : core) : option error * core :=
  (None, mkCore (with_sched Scheduler.Resume (co_mgr g)) (co_rules g) (co_derived g) EngineStatusRunning).

(** ** What is observed *)

(** The configurations of the components that are registered. *)
Definition registered {C} (ids : gmap string nat) (cfgs : gmap string C) : gmap string C :=
  map_zip_with (fun _ c => c) ids cfgs.

Definition coreDrivers (g : core) : gmap string DriverConfig :=
  registered (dr_drivers (en_reg (co_mgr g))) (dr_driverConfigs (en_reg (co_mgr g))).
Definition coreTransports (g : core) : gmap string TransportConfig :=
  registered (tm_transports (en_tm (co_mgr g))) (tm_transportCfg (en_tm (co_mgr g))).

(** The rules in order, with what new rules are built from. *)
Definition rulesObs : Type :=
  list (Rule prog * nat) * gmap string (provider (prog := prog)) * gmap string nat.
Definition coreRules (g : core) : rulesObs :=
  (stat (e_rules (rs_top (co_rules g))), rs_providers (co_rules g), rs_subs (co_rules g)).
Definition buildRules (rs : list RuleConfig) (o : rulesObs) : option rulesObs :=
  let '(_, providers, subs) := o in
  match SetRules rs providers subs with
  | Ok e => Some (stat (e_rules e), providers, subs)
  | _ => None
  end.

(** The tags of the installed evaluator; no evaluator is as one without tags. *)
Definition derivedObs : Type := bool * list (compiledDerivedTag dprog).
Definition coreDerived (g : core) : derivedObs :=
  (ls_ctx (co_derived g),
   default [] (ls_evaluator (co_derived g) ≫= fun ev => ls_tags (co_derived g) !! ev)).
Definition buildDerived (cs : list DerivedTagConfig) (o : derivedObs) : option derivedObs :=
  if o.1 then
    match Derived.validateDerivedTags cs, newDerivedTagEvaluator cs with
    | None, Ok tags => Some (true, tags)
    | _, _ => None
    end
  else None.

#[global] Instance coreAPI : EngineAPI core rulesObs derivedObs := {|
  api_AddDriver := coreAddDriver;
  api_RemoveDriver := coreRemoveDriver;
  api_AddTransport := coreAddTransport;
  api_RemoveTransport := coreRemoveTransport;
  api_SetRules := coreSetRules;
  api_ApplyDerivedTags := coreApplyDerivedTags;
  api_Suspend := coreSuspend;
  api_Resume := coreResume;
  drivers_of := coreDrivers;
  transports_of := coreTransports;
  rules_of := coreRules;
  derived_of := coreDerived;
  build_rules := buildRules;
  build_derived := buildDerived;
|}.

End Core.

(** ** The engine keeps the interface *)

Section Views.
Context {E : Type} `{!SchedEnv E} `{!ManagerEnv E} `{!GoArch}.
Implicit Types g : Manager.engine E.

(** What adding a driver does to the registry's two maps. *)
Lemma AddDriver_view config g err g' :
  AddDriver config g = (err, g') ->
  en_tm g' = en_tm g /\
  match err with
  | None => exists id,
      dr_drivers (en_reg g') = <[dc_Name config := id]> (dr_drivers (en_reg g)) /\
      dr_driverConfigs (en_reg g') = <[dc_Name config := config]> (dr_driverConfigs (en_reg g))
  | Some _ => en_reg g' = en_reg g
  end.
Proof.
  unfold AddDriver. destruct (startInstance_spec config g) as [e He].
  destruct (startInstance config g) as [[id|e0] g1]; cbn [fst snd] in *.
  2:{ subst g1. by intros [= <- <-]. }
  destruct He as [-> ->]. cbn [en_reg set_env set_reg reg_run dr_drivers].
  set (g2 := match dr_drivers (en_reg g) !! _ with Some _ => _ | None => _ end).
  assert (Hg2 : en_tm g2 = en_tm g /\ dr_driverConfigs (en_reg g2) = dr_driverConfigs (en_reg g) /\
    <[dc_Name config := en_next g]> (dr_drivers (en_reg g2)) =
    <[dc_Name config := en_next g]> (dr_drivers (en_reg g))).
  { unfold g2. destruct (dr_drivers (en_reg g) !! dc_Name config) as [old|]; [|done].
    match goal with |- context [stopInstance old ?x] =>
      destruct (stopInstance_spec old x) as [e1 ->] end. simpl. by rewrite insert_delete_eq. }
  clearbody g2. destruct Hg2 as (Htm & Hcfg & Hdrv).
  match goal with |- context [schedule config ?x] =>
    destruct (schedule_eq config x) as (e1 & s1 & -> & _) end.
  match goal with |- context [startTagFileWatcher config ?x] =>
    destruct (startTagFileWatcher_eq config x) as (e2 & [->|(tw & _ & ->)]) end;
  intros [= <- <-]; simpl; rewrite Htm; (split; [done|]); exists (en_next g); by rewrite Hdrv, Hcfg.
Qed.

Lemma AddTransport_view config g err g' :
  AddTransport config g = (err, g') ->
  en_reg g' = en_reg g /\
  match err with
  | None => exists id,
      tm_transports (en_tm g') = <[tp_Name config := id]> (tm_transports (en_tm g)) /\
      tm_transportCfg (en_tm g') = <[tp_Name config := config]> (tm_transportCfg (en_tm g))
  | Some _ => en_tm g' = en_tm g
  end.
Proof.
  unfold AddTransport. destruct (startTransport_spec config g) as [e He].
  destruct (startTransport config g) as [[id|e0] g1]; cbn [fst snd] in *.
  2:{ subst g1. by intros [= <- <-]. }
  destruct He as [-> ->]. cbn [en_tm set_env set_tm tm_run tm_transports].
  destruct (tm_transports (en_tm g) !! tp_Name config) as [old|] eqn:Hold.
  - unfold stopTransport, call. destruct (env_tstop old _) as [e1 e2]. intros [= <- <-]. simpl.
    split; [done|]. exists (en_next g). by rewrite insert_delete_eq.
  - intros [= <- <-]. split; [done|]. by exists (en_next g).
Qed.

Lemma registered_insert {C} (ids : gmap string nat) (cfgs : gmap string C) n id c :
  registered (<[n := id]> ids) (<[n := c]> cfgs) = <[n := c]> (registered ids cfgs).
Proof. unfold registered. by rewrite <- (map_insert_zip_with (fun _ c => c)). Qed.

Lemma registered_delete {C} (ids : gmap string nat) (cfgs : gmap string C) n :
  registered (delete n ids) (delete n cfgs) = delete n (registered ids cfgs).
Proof. unfold registered. by rewrite map_delete_zip_with. Qed.

Lemma registered_lookup {C} (ids : gmap string nat) (cfgs : gmap string C) n :
  is_Some (registered ids cfgs !! n) -> is_Some (ids !! n).
Proof.
  unfold registered. intros [c Hc]. apply map_lookup_zip_with_Some in Hc as (id & ? & _ & ? & _).
  by exists id.
Qed.

End Views.

Section Laws.
Context {E : Type} `{!SchedEnv E} `{!ManagerEnv E} `{!GoArch}.
Context {prog : Type} `{!ExprLib prog} {dprog : Type} `{!DerivedExpr dprog}.
Notation core := (coreEngine E prog dprog).
Implicit Types g : core.

Lemma onMgr_inv {A} (f : Manager.engine E -> A * Manager.engine E) g x g' :
  onMgr f g = (x, g') -> exists m, f (co_mgr g) = (x, m) /\
    g' = mkCore m (co_rules g) (co_derived g) (co_status g).
Proof. unfold onMgr. destruct (f (co_mgr g)) as [y m]. intros [= -> <-]. by exists m. Qed.

Lemma core_driver_laws :
  component_laws dc_Name coreAddDriver coreRemoveDriver coreDrivers
    (fun g : core => (coreTransports g, coreRules g, coreDerived g)).
Proof.
  constructor.
  - intros c g g' (m & Ha & ->)%onMgr_inv. apply AddDriver_view in Ha as [Htm (id & Hd & Hc)].
    unfold coreDrivers, coreTransports. simpl. by rewrite Hd, Hc, Htm, registered_insert.
  - intros c g e g' (m & Ha & ->)%onMgr_inv. apply AddDriver_view in Ha as [Htm Hr].
    unfold coreDrivers, coreTransports. simpl. by rewrite Hr, Htm.
  - intros n g g' (m & Hr & ->)%onMgr_inv. destruct (dr_drivers (en_reg (co_mgr g)) !! n) as [id|] eqn:Hid.
    + rewrite (RemoveDriver_eq _ _ _ Hid) in Hr. injection Hr as _ <-.
      unfold coreDrivers, coreTransports. simpl. by rewrite registered_delete.
    + by rewrite (RemoveDriver_none _ _ Hid) in Hr.
  - intros n g e g' (m & Hr & ->)%onMgr_inv. destruct (dr_drivers (en_reg (co_mgr g)) !! n) as [id|] eqn:Hid.
    + rewrite (RemoveDriver_eq _ _ _ Hid) in Hr. injection Hr as _ <-.
      unfold coreDrivers, coreTransports. simpl. rewrite registered_delete. by auto.
    + rewrite (RemoveDriver_none _ _ Hid) in Hr. injection Hr as _ <-. by auto.
Qed.

Lemma core_transport_laws :
  component_laws tp_Name coreAddTransport coreRemoveTransport coreTransports
    (fun g : core => (coreDrivers g, coreRules g, coreDerived g)).
Proof.
  constructor.
  - intros c g g' (m & Ha & ->)%onMgr_inv. apply AddTransport_view in Ha as [Hr (id & Hd & Hc)].
    unfold coreDrivers, coreTransports. simpl. by rewrite Hd, Hc, Hr, registered_insert.
  - intros c g e g' (m & Ha & ->)%onMgr_inv. apply AddTransport_view in Ha as [Hr Htm].
    unfold coreDrivers, coreTransports. simpl. by rewrite Hr, Htm.
  - intros n g g' (m & Hr & ->)%onMgr_inv. destruct (tm_transports (en_tm (co_mgr g)) !! n) as [id|] eqn:Hid.
    + rewrite (RemoveTransport_eq _ _ _ Hid) in Hr. injection Hr as _ <-.
      unfold coreDrivers, coreTransports. simpl. by rewrite registered_delete.
    + unfold RemoveTransport in Hr. by rewrite Hid in Hr.
  - intros n g e g' (m & Hr & ->)%onMgr_inv. destruct (tm_transports (en_tm (co_mgr g)) !! n) as [id|] eqn:Hid.
    + rewrite (RemoveTransport_eq _ _ _ Hid) in Hr. injection Hr as _ <-.
      unfold coreDrivers, coreTransports. simpl. rewrite registered_delete. by auto.
    + unfold RemoveTransport in Hr. rewrite Hid in Hr. injection Hr as _ <-. destruct g. by auto.
Qed.

#[global] Instance coreLaws : EngineLaws core rulesObs derivedObs.
Proof.
  constructor; [apply core_driver_laws|apply core_transport_laws|..].
  - intros rs g e g'. simpl. unfold coreSetRules, buildRules.
    destruct (SetRules rs _ _) as [eng|err|]; intros [= <- <-]; by simpl.
  - intros rs [[st pv] subs] o' Hb rs'. simpl in Hb. destruct (SetRules rs pv subs); [|done..].
    by injection Hb as <-.
  - intros cs g e g'. simpl. unfold coreApplyDerivedTags, applyDerivedTags, buildDerived, buildEvaluator, coreDerived.
    simpl. destruct (ls_ctx (co_derived g)) eqn:Hctx; [|intros [= <- <-]; simpl; by rewrite ?Hctx].
    destruct (Derived.validateDerivedTags cs); [intros [= <- <-]; simpl; by rewrite ?Hctx|].
    destruct (newDerivedTagEvaluator cs) as [tags|err|]; intros [= <- <-]; simpl; rewrite ?Hctx; try done.
    destruct (ls_evaluator (co_derived g)) as [ev|]; simpl; rewrite ?Hctx, lookup_insert_eq; done.
  - intros cs [ctx cur] o' Hb cs'. unfold build_derived in *. simpl in *. unfold buildDerived in *. simpl in *.
    destruct ctx; [|done]. destruct (Derived.validateDerivedTags cs); [done|].
    destruct (newDerivedTagEvaluator cs); [|done..]. by injection Hb as <-.
  - done.
  - done.
Qed.

End Laws.

(** ** When an update can be rolled back *)

Section Reversible.
Context {E : Type} `{!SchedEnv E} `{!ManagerEnv E} `{!GoArch}.
Context {prog : Type} `{!ExprLib prog} {dprog : Type} `{!DerivedExpr dprog}.
Notation core := (coreEngine E prog dprog).

(** The environment lets a driver or a transport start. *)
Definition startable (c : DriverConfig) : Prop :=
  forall id e, (env_create c e).1 = None /\ (env_init id c e).1 = None /\ (env_start id e).1 = None.
Definition tstartable (c : TransportConfig) : Prop :=
  forall id e, (env_tcreate c e).1 = None /\ (env_tinit id c e).1 = None /\ (env_tstart id e).1 = None.

Lemma AddDriver_startable c (g : Manager.engine E) : startable c -> (AddDriver c g).1 = None.
Proof.
  intros Hs. unfold AddDriver, startInstance, call. cbn [en_env bump].
  destruct (Hs (en_next g) (en_env g)) as [Hc _]. destruct (env_create c _) as [oe e1]; simpl in Hc; subst oe.
  cbn [en_env set_env]. destruct (Hs (en_next g) e1) as (_ & Hi & _).
  destruct (env_init _ c e1) as [oe e2]; simpl in Hi; subst oe. cbn [en_env set_env].
  destruct (Hs (en_next g) e2) as (_ & _ & Hst). by destruct (env_start _ e2) as [oe e3]; simpl in Hst; subst oe.
Qed.

Lemma AddTransport_startable c (g : Manager.engine E) : tstartable c -> (AddTransport c g).1 = None.
Proof.
  intros Hs. unfold AddTransport, startTransport, call. cbn [en_env bump].
  destruct (Hs (en_next g) (en_env g)) as [Hc _]. destruct (env_tcreate c _) as [oe e1]; simpl in Hc; subst oe.
  cbn [en_env set_env]. destruct (Hs (en_next g) e1) as (_ & Hi & _).
  destruct (env_tinit _ c e1) as [oe e2]; simpl in Hi; subst oe. cbn [en_env set_env].
  destruct (Hs (en_next g) e2) as (_ & _ & Hst). by destruct (env_tstart _ e2) as [oe e3]; simpl in Hst; subst oe.
Qed.

Lemma onMgr_fst {A} (f : Manager.engine E -> A * Manager.engine E) (g : core) :
  (onMgr f g).1 = (f (co_mgr g)).1.
Proof. unfold onMgr. by destruct (f (co_mgr g)). Qed.

Lemma core_reversible (old : Config) :
  (forall id e, (env_stop id e).1 = None /\ (env_tstop id e).1 = None) ->
  (forall c, c ∈ cf_Drivers old -> startable c) -> (forall c, c ∈ cf_Transports old -> tstartable c) ->
  reversible (G := core) old.
Proof.
  intros Hstop Hd Ht. constructor.
  - intros n g Hn. simpl in *. unfold coreRemoveDriver. rewrite onMgr_fst.
    apply registered_lookup in Hn as [id Hid]. rewrite (RemoveDriver_eq _ _ _ Hid). apply Hstop.
  - intros n g Hn. simpl in *. unfold coreRemoveTransport. rewrite onMgr_fst.
    apply registered_lookup in Hn as [id Hid]. rewrite (RemoveTransport_eq _ _ _ Hid). apply Hstop.
  - intros c g Hc. simpl. unfold coreAddDriver. rewrite onMgr_fst.
    apply AddDriver_startable, Hd. by eapply byName_elem.
  - intros c g Hc. simpl. unfold coreAddTransport. rewrite onMgr_fst.
    apply AddTransport_startable, Ht. by eapply byName_elem.
Qed.

End Reversible.

(** ** A concrete engine *)

Module Demo.

(** A clock; devices of the type [broken] cannot be created. *)
#[global] Instance sched_env : SchedEnv Z := {|
  env_now := fun e : Z => (e, e + 1);
  env_read := fun _ _ (_ : list string) e => (inr (ErrFmt "timeout"), e);
  env_range := fun _ _ _ _ m e => (map_to_list m, e);
  env_range_perm := fun _ _ _ _ m e => Permutation_refl _;
|}.

#[global] Instance manager_env : ManagerEnv Z := {|
  env_create := fun (c : DriverConfig) (e : Z) =>
    (if decide (dc_Type c = "broken"%string) then Some (ErrFmt "unknown driver type: broken") else None, e);
  env_init := fun _ _ e => (None, e);
  env_start := fun _ e => (None, e);
  env_stop := fun _ e => (None, e);
  env_floor := fun _ => None;
  env_tagsfile := fun _ e => (inl ([], EmptyString), e);
  env_tcreate := fun _ e => (None, e);
  env_tinit := fun _ _ e => (None, e);
  env_tstart := fun _ e => (None, e);
  env_tstop := fun _ e => (None, e);
|}.

#[global] Instance expr_lib : ExprLib string := demo_expr.

(** [reflect.DeepEqual] as equality. *)
#[global] Instance deep_equal {A} `{EqDecision A} : DeepEqual A := {|
  deepEqual := fun (x y : A) => bool_decide (x = y);
  deepEqual_sound := fun (x y : A) (Hxy : bool_decide (x = y) = true) => bool_decide_eq_true_1 _ Hxy |}.

Definition driver (name type : string) : DriverConfig :=
  mkDriverConfig name type ∅ Scheduler.Demo.tags "" "".

Definition config (ds : list DriverConfig) : Config :=
  mkConfig (mkNodeConfig "" "" [] "") GlobalConfig_zero ds [] [] [] ∅ [].

Definition old : Config := config [driver "a" "modbus"; driver "b" "modbus"].
Definition bad : Config := config [driver "b" "s7"; driver "c" "broken"].

Definition core : Type := coreEngine Z string string.
Definition start : core :=
  mkCore (mkEngine 0 emptyRegistry (emptyTransports false) (NewScheduler 0) NewLatestCache ∅
            second (30 * second) true 0)
    (mkSystem (engine_of []) ∅ ∅ ∅) (mkDS true None ∅ ∅ 0) EngineStatusRunning.

Definition engine : core :=
  (coreAddDriver (H := amd64_f2i) (driver "b" "modbus")
     (coreAddDriver (H := amd64_f2i) (driver "a" "modbus") start).2).2.

Definition ordersOf (old new : Config) : orders :=
  mkOrders (map_to_list (byName dc_Name (cf_Drivers old))) (map_to_list (byName dc_Name (cf_Drivers new)))
    (map_to_list (byName tp_Name (cf_Transports old))) (map_to_list (byName tp_Name (cf_Transports new))).

Lemma ordersOf_ok o n : orders_ok (ordersOf o n) o n.
Proof. by repeat split. Qed.

Lemma engine_in_sync : in_sync (EngineAPI0 := coreAPI (H := amd64_f2i)) old engine.
Proof. constructor; vm_compute; reflexivity. Qed.

Lemma old_reversible : reversible (EngineAPI0 := coreAPI (H := amd64_f2i)) (G := core) old.
Proof.
  apply core_reversible; [done| |by intros c ?%elem_of_nil].
  intros c Hc id e. simpl. rewrite decide_False; [done|].
  unfold old, config in Hc. simpl in Hc. set_solver.
Qed.

Definition apply (cfg : Config) (x : Executor.executor core) :=
  ApplyConfig (EngineAPI0 := coreAPI (H := amd64_f2i)) (ordersOf old cfg) cfg false x.

Definition executor : Executor.executor core := mkExecutor (Some engine) (Some old) "/etc/c.yaml" 0 "text" [].

End Demo.

Lemma apply_config_atomic_witness :
  (Demo.apply Demo.bad Demo.executor).1 <> None /\
  exists g', ex_engine (Demo.apply Demo.bad Demo.executor).2 = Some g' /\
    drivers_of (EngineAPI := coreAPI (H := amd64_f2i)) g' = byName dc_Name (cf_Drivers Demo.old).
Proof.
  destruct (apply_config_atomic (EngineAPI0 := coreAPI (H := amd64_f2i)) (EngineLaws0 := coreLaws (H := amd64_f2i))
    (Demo.ordersOf Demo.old Demo.bad) Demo.bad false Demo.executor (Demo.apply Demo.bad Demo.executor).2
    Demo.engine (Demo.apply Demo.bad Demo.executor).1
    eq_refl Demo.engine_in_sync (Demo.ordersOf_ok _ _) Demo.old_reversible (surjective_pairing _)) as (g' & Hg & Hm).
  assert (He : exists e, (Demo.apply Demo.bad Demo.executor).1 = Some e) by (eexists; vm_compute; reflexivity).
  destruct He as [e He]. rewrite He in Hm |- *. split; [discriminate|]. exists g'. split; [exact Hg|].
  etransitivity; [exact (f_equal (fun o => o.1.1.1) (proj1 Hm))|]. exact (sy_drivers _ _ Demo.engine_in_sync).
Defined.
