(* ===== verification/Runtime.v ===== *)
(** * Starting and stopping the engine ([engine/runtime.go], with the starters of
    [engine/lifecycle_support.go], [engine/rules.go], [engine/processing.go],
    [engine/tagfile_watcher.go] and the [applyConfig] methods of the roles)

    [Start] brings up the parts of the engine in order and rolls back what it
    started when one of them fails; [Stop] takes them down.  The state says of
    every kind of goroutine or instance which of them run. *)

From Stdlib Require Import ZArith Lia String Ascii.
From stdpp Require Import base list gmap strings.
From S2P Require Import Prelude GoFloat GoTime Types Util RuleEngine Cache DataBus Alerts Processing.
From S2P Require Import Batcher Scheduler Config Manager Derived Validate Executor Engine.

Open Scope Z_scope.

(** ** Tuning *)

(** The knobs the configuration sets, by role. *)
Record tuning := mkTuning {
  tu_dataBusSize : Z;
  tu_numWorkers : Z;
  tu_numHighPriorityWorkers : Z;
  tu_alertActiveWindow : Z;
  tu_badQualityPolicy : badQualityPolicy;
  tu_errorThrottleWin : Z;
  tu_defaultTagInterval : Z;
  tu_staleThreshold : Z;
  tu_shutdownTimeout : Z;
  tu_writeRetryCount : Z;
  tu_commandConcurrency : Z;
  tu_writeMinInterval : Z;
}.

(** [if d, err := time.ParseDuration(s); err == nil && d > 0 { x = d }]. *)
Definition durationOr `{!GoArch} (s : string) (x : Z) : Z :=
  match ParseDuration s with
  | Some d => if decide (d > 0) then d else x
  | None => x
  end.

Definition positiveOr (n x : Z) : Z := if decide (n > 0) then n else x.

Definition applyProcessing `{!GoArch} (cfg : EngineConfig) (t : tuning) : tuning :=
  mkTuning (positiveOr (ec_DataBusSize cfg) (tu_dataBusSize t)) (positiveOr (ec_Workers cfg) (tu_numWorkers t))
    (positiveOr (ec_HighPriorityWorkers cfg) (tu_numHighPriorityWorkers t))
    (durationOr (ec_AlertActiveWindow cfg) (tu_alertActiveWindow t)) (tu_badQualityPolicy t)
    (tu_errorThrottleWin t) (tu_defaultTagInterval t) (tu_staleThreshold t) (tu_shutdownTimeout t)
    (tu_writeRetryCount t) (tu_commandConcurrency t) (tu_writeMinInterval t).

Definition applyLifecycle `{!GoArch} (cfg : EngineConfig) (t : tuning) : tuning :=
  mkTuning (tu_dataBusSize t) (tu_numWorkers t) (tu_numHighPriorityWorkers t) (tu_alertActiveWindow t)
    (tu_badQualityPolicy t) (durationOr (ec_ErrorThrottleWindow cfg) (tu_errorThrottleWin t))
    (durationOr (ec_DefaultTagInterval cfg) (tu_defaultTagInterval t)) (tu_staleThreshold t)
    (tu_shutdownTimeout t) (tu_writeRetryCount t) (tu_commandConcurrency t) (tu_writeMinInterval t).

Definition applyReads `{!GoArch} (cfg : EngineConfig) (t : tuning) : tuning :=
  mkTuning (tu_dataBusSize t) (tu_numWorkers t) (tu_numHighPriorityWorkers t) (tu_alertActiveWindow t)
    (tu_badQualityPolicy t) (tu_errorThrottleWin t) (tu_defaultTagInterval t)
    (durationOr (ec_StaleThreshold cfg) (tu_staleThreshold t)) (tu_shutdownTimeout t)
    (tu_writeRetryCount t) (tu_commandConcurrency t) (tu_writeMinInterval t).

Definition set_policy (p : badQualityPolicy) (t : tuning) : tuning :=
  mkTuning (tu_dataBusSize t) (tu_numWorkers t) (tu_numHighPriorityWorkers t) (tu_alertActiveWindow t)
    p (tu_errorThrottleWin t) (tu_defaultTagInterval t) (tu_staleThreshold t) (tu_shutdownTimeout t)
    (tu_writeRetryCount t) (tu_commandConcurrency t) (tu_writeMinInterval t).

Definition set_shutdownTimeout (d : Z) (t : tuning) : tuning :=
  mkTuning (tu_dataBusSize t) (tu_numWorkers t) (tu_numHighPriorityWorkers t) (tu_alertActiveWindow t)
    (tu_badQualityPolicy t) (tu_errorThrottleWin t) (tu_defaultTagInterval t) (tu_staleThreshold t) d
    (tu_writeRetryCount t) (tu_commandConcurrency t) (tu_writeMinInterval t).

Definition set_writes (retries concurrency interval : Z) (t : tuning) : tuning :=
  mkTuning (tu_dataBusSize t) (tu_numWorkers t) (tu_numHighPriorityWorkers t) (tu_alertActiveWindow t)
    (tu_badQualityPolicy t) (tu_errorThrottleWin t) (tu_defaultTagInterval t) (tu_staleThreshold t)
    (tu_shutdownTimeout t) retries concurrency interval.

(** ** The node's automatic configuration *)

Definition setDefault (key : string) (v : Value) (m : gmap string Value) : gmap string Value :=
  match m !! key with Some _ => m | None => <[key := v]> m end.

(** The settings of one transport; the parser is the map with type default. *)
Definition autoFillTransport (prefix id : string) (tc : TransportConfig) : TransportConfig :=
  if decide (tp_Type tc = "mqtt"%string) then
    let s := tp_Settings tc in
    let s := setDefault "topic-template" (VString (prefix +:+ "/" +:+ id +:+ "/data/{{.Driver}}/{{.Tag}}")) s in
    let s := setDefault "command-topic" (VString (prefix +:+ "/" +:+ id +:+ "/cmd/#")) s in
    let s := match s !! "data-topic"%string with
             | Some _ => setDefault "parser" (VOther "map[string]interface {}") s
             | None => s
             end in
    mkTransportConfig (tp_Name tc) (tp_Type tc) s (tp_BatchSize tc) (tp_FlushInterval tc)
      (tp_RetryCount tc) (tp_BufferSize tc) (tp_Fallback tc)
  else tc.

Definition autoForward (target : string) : RuleConfig :=
  mkRuleConfig "topo-auto-forward" "ALL" "forward" target [] 0 None false.

Definition autoFillNodeConfig (config : Config) : Config :=
  let node := cf_Node config in
  if decide (nd_ID node = EmptyString) then config
  else
    let prefix := if decide (nd_TopicPrefix node = EmptyString) then "topo"%string else nd_TopicPrefix node in
    let transports := autoFillTransport prefix (nd_ID node) <$> cf_Transports config in
    let rules :=
      match cf_Rules config, transports with
      | [], tc :: _ => [autoForward (tp_Name tc)]
      | rs, _ => rs
      end in
    mkConfig node (cf_Global config) (cf_Drivers config) transports rules (cf_RuleProviders config)
      (cf_RuleGroups config) (cf_DerivedTags config).

(** ** State *)

(** [brokerEndpoint]: a broker and the topic pattern published there. *)
Record brokerEndpoint := mkBroker { be_Broker : string; be_Publish : option string }.

(** What the roles need from outside while the engine starts and stops: the
    stores for dead letters and the write audit, the offline buffer, the files of
    rule providers, the discovery module, and the order in which Go ranges over
    a map (all its values, in some order). *)
Class RuntimeEnv (E : Type) := {
  re_deadLetter : string -> E -> option error * E;          (* openDeadLetterStore *)
  re_audit : string -> E -> option error * E;               (* writeAudits.configure *)
  re_offline : string -> Z -> E -> option error * E;        (* NewOfflineBuffer *)
  re_rulefile : string -> E -> (list RuleConfig + error) * E; (* reading and parsing a rule file *)
  re_discovery : NodeConfig -> gmap string brokerEndpoint -> E -> option error * E; (* Discovery.Start *)
  re_groups : gmap string (list RuleConfig) -> list string;
  re_groups2 : gmap string (list RuleConfig) -> list string;
  re_values : gmap string nat -> list nat;
  re_values_all m id : id ∈ re_values m <-> exists n, m !! n = Some id;
}.

(** [engineRuntime] with the other roles.  [rt_workers] counts the processing
    goroutines that run, [rt_sweeping] says whether the sweep of the alerts
    runs, [rt_replaced] holds the alert registries that were replaced.  The
    scheduler of an engine that was never started has no tasks. *)
Record runtime (E prog dprog : Type) := mkRuntime {
  rt_core : coreEngine E prog dprog;
  rt_tuning : tuning;
  rt_bus : option DataBus;
  rt_workers : Z;
  rt_alerts : alertManager;
  rt_sweeping : bool;
  rt_replaced : list alertManager;
  rt_discovery : bool;
  rt_totalErrors : Z;
}.
Arguments mkRuntime {E prog dprog} _ _ _ _ _ _ _ _ _.
Arguments rt_core {E prog dprog} _.
Arguments rt_tuning {E prog dprog} _.
Arguments rt_bus {E prog dprog} _.
Arguments rt_workers {E prog dprog} _.
Arguments rt_alerts {E prog dprog} _.
Arguments rt_sweeping {E prog dprog} _.
Arguments rt_replaced {E prog dprog} _.
Arguments rt_discovery {E prog dprog} _.
Arguments rt_totalErrors {E prog dprog} _.

Section Runtime.
Context {E : Type} `{!SchedEnv E} `{!ManagerEnv E} `{!GoArch}.
Context {prog : Type} `{!ExprLib prog} {dprog : Type} `{!DerivedExpr dprog} `{!RuntimeEnv E}.
Notation runtime := (runtime E prog dprog).
Notation core := (coreEngine E prog dprog).
Implicit Types x : runtime.

Definition set_core (c : core) x : runtime :=
  mkRuntime c (rt_tuning x) (rt_bus x) (rt_workers x) (rt_alerts x) (rt_sweeping x) (rt_replaced x)
    (rt_discovery x) (rt_totalErrors x).
Definition set_tuning (t : tuning) x : runtime :=
  mkRuntime (rt_core x) t (rt_bus x) (rt_workers x) (rt_alerts x) (rt_sweeping x) (rt_replaced x)
    (rt_discovery x) (rt_totalErrors x).
Definition set_bus (b : option DataBus) x : runtime :=
  mkRuntime (rt_core x) (rt_tuning x) b (rt_workers x) (rt_alerts x) (rt_sweeping x) (rt_replaced x)
    (rt_discovery x) (rt_totalErrors x).
Definition set_workers (n : Z) x : runtime :=
  mkRuntime (rt_core x) (rt_tuning x) (rt_bus x) n (rt_alerts x) (rt_sweeping x) (rt_replaced x)
    (rt_discovery x) (rt_totalErrors x).
Definition set_alerts (a : alertManager) (sweeping : bool) x : runtime :=
  mkRuntime (rt_core x) (rt_tuning x) (rt_bus x) (rt_workers x) a sweeping (rt_replaced x)
    (rt_discovery x) (rt_totalErrors x).
Definition set_discovery (d : bool) x : runtime :=
  mkRuntime (rt_core x) (rt_tuning x) (rt_bus x) (rt_workers x) (rt_alerts x) (rt_sweeping x) (rt_replaced x)
    d (rt_totalErrors x).
Definition add_errors (n : Z) x : runtime :=
  mkRuntime (rt_core x) (rt_tuning x) (rt_bus x) (rt_workers x) (rt_alerts x) (rt_sweeping x)
    (rt_replaced x) (rt_discovery x) (u64 (rt_totalErrors x + n)).

Definition mgr x : Manager.engine E := co_mgr (rt_core x).
Definition set_mgr (m : Manager.engine E) x : runtime :=
  let c := rt_core x in set_core (mkCore m (co_rules c) (co_derived c) (co_status c)) x.
Definition set_sys (y : RuleSystem (prog := prog)) x : runtime :=
  let c := rt_core x in set_core (mkCore (co_mgr c) y (co_derived c) (co_status c)) x.
Definition set_derived (l : derivedSupport dprog) x : runtime :=
  let c := rt_core x in set_core (mkCore (co_mgr c) (co_rules c) l (co_status c)) x.
Definition set_status (s : EngineStatus) x : runtime :=
  let c := rt_core x in set_core (mkCore (co_mgr c) (co_rules c) (co_derived c) s) x.
Definition set_context (live : bool) (m : Manager.engine E) : Manager.engine E :=
  mkEngine (en_env m) (en_reg m) (en_tm m) (en_sched m) (en_cache m) (en_pacer m)
    (en_defaultTagInterval m) (en_shutdownTimeout m) live (en_next m).

(** A call of the outside world. *)
Definition outside {A} (f : E -> A * E) x : A * runtime :=
  let '(a, m) := call f (mgr x) in (a, set_mgr m x).

(** ** Configuration *)

(** The stores of dead letters and of the write audit. *)
Definition openStores (cfg : EngineConfig) x : option error * runtime :=
  let '(err, x) := if decide (ec_DeadLetterPath cfg = EmptyString) then (None, x)
                   else outside (re_deadLetter (ec_DeadLetterPath cfg)) x in
  match err with
  | Some e => (Some e, x)
  | None => outside (re_audit (ec_WriteAuditPath cfg)) x
  end.

(** [writeManager.applyConfig]. *)
Definition applyWrites (cfg : EngineConfig) x : option error * runtime :=
  let t := rt_tuning x in
  let retries := positiveOr (ec_WriteRetryCount cfg) (tu_writeRetryCount t) in
  let concurrency := positiveOr (ec_CommandConcurrency cfg) (tu_commandConcurrency t) in
  let x := set_tuning (set_writes retries concurrency (tu_writeMinInterval t) t) x in
  let bad (e : error) := (Some e, x) in
  let value := ec_WriteMinInterval cfg in
  if decide (value = EmptyString) then openStores cfg x
  else
    match ParseDuration value with
    | None => bad (ErrWrap ("invalid write-min-interval " +:+ quote value +:+ ": ") (durationError value) "")
    | Some interval =>
      if decide (interval < 0) then
        bad (ErrFmt ("invalid write-min-interval " +:+ quote value +:+ ": must not be negative"))
      else openStores cfg (set_tuning (set_writes retries concurrency interval t) x)
    end.

Definition applyEngineConfig (cfg : EngineConfig) x : option error * runtime :=
  let t := applyReads cfg (applyLifecycle cfg (applyProcessing cfg (rt_tuning x))) in
  let x := set_tuning t x in
  let rest x :=
    applyWrites cfg (set_tuning (set_shutdownTimeout
      (durationOr (ec_ShutdownTimeout cfg) (tu_shutdownTimeout (rt_tuning x))) (rt_tuning x)) x) in
  if decide (ec_OnBadQuality cfg = EmptyString) then rest x
  else
    match parseBadQualityPolicy (ec_OnBadQuality cfg) with
    | inr e => (Some e, x)
    | inl p => rest (set_tuning (set_policy p (rt_tuning x)) x)
    end.

(** The registries take the two knobs they use. *)
Definition tuneRegistries x : runtime :=
  let m := mgr x in
  set_mgr (mkEngine (en_env m) (en_reg m) (en_tm m) (en_sched m) (en_cache m) (en_pacer m)
    (tu_defaultTagInterval (rt_tuning x)) (tu_shutdownTimeout (rt_tuning x)) (en_ctx m) (en_next m)) x.

(** ** Starting the parts *)

(** [startScheduler]: a new data bus and a new scheduler, started (its [Start]
    does not fail). *)
Definition startScheduler x : runtime :=
  let x := set_bus (Some (NewDataBus (tu_dataBusSize (rt_tuning x)))) x in
  set_mgr (set_sched (Scheduler.Start (NewScheduler (tu_errorThrottleWin (rt_tuning x)))) (mgr x)) x.

(** The loop of [FileProvider.load]: a match expression that does not compile is
    skipped. *)
Definition matcherOf (rc : RuleConfig) : option (option prog) :=
  let m := TrimSpace (rc_Match rc) in
  if EqualFold m "ALL" then Some None
  else match compileExpr m with Ok node => Some (Some node) | _ => None end.

(** [NewFileProvider] with its first [load]. *)
Definition NewFileProvider (pc : RuleProviderConfig) x
  : (provider (prog := prog) + error) * runtime :=
  let interval := rp_Interval pc in
  if negb (bool_decide (is_Some (ParseDuration interval))) && negb (bool_decide (interval = EmptyString)) then
    (inr (ErrWrap ("invalid interval " +:+ quote interval +:+ ": ") (durationError interval) ""), x)
  else
    match outside (re_rulefile (rp_Path pc)) x with
    | (inl rules, x) => (inl (omap matcherOf rules), x)
    | (inr e, x) => (inr (ErrWrap ("provider " +:+ rp_Name pc +:+ ": ") e ""), x)
    end.

(** [AddProvider]. *)
Definition AddProvider (name : string) (p : provider (prog := prog)) x : runtime :=
  let y := co_rules (rt_core x) in
  set_sys (mkSystem (rs_top y) (<[name := p]> (rs_providers y)) (rs_subs y) (rs_heap y)) x.

Fixpoint addProviders (pcs : list RuleProviderConfig) x : option error * runtime :=
  match pcs with
  | [] => (None, x)
  | pc :: rest =>
    match NewFileProvider pc x with
    | (inr e, x) => (Some (ErrWrap ("failed to create rule provider " +:+ rp_Name pc +:+ ": ") e ""), x)
    | (inl p, x) => addProviders rest (AddProvider (rp_Name pc) p x)
    end
  end.

Definition initRules (config : Config) x : option error * runtime :=
  match addProviders (cf_RuleProviders config) x with
  | (Some e, x) => (Some e, x)
  | (None, x) =>
    let groups := cf_RuleGroups config in
    let rules x :=
      match coreSetRules (cf_Rules config) (rt_core x) with
      | (Some e, c) => (Some (ErrWrap "failed to set rules: " e ""), set_core c x)
      | (None, c) => (None, set_core c x)
      end in
    if decide (groups = ∅) then rules x
    else
      match SetSubRules (re_groups groups) (re_groups2 groups) groups (co_rules (rt_core x)) with
      | Ok y => rules (set_sys y x)
      | Err e => (Some (ErrWrap "failed to set sub-rules: " e ""), x)
      | Panic => (Some (ErrFmt ""), x)
      end
  end.

Definition startProcessingWorkers x : runtime :=
  let t := rt_tuning x in
  let numWorkers := if decide (tu_numWorkers t < 1) then 1 else tu_numWorkers t in
  let numHP := if decide (tu_numHighPriorityWorkers t < 0) then 0 else tu_numHighPriorityWorkers t in
  set_workers (numWorkers + numHP) x.

(** This run's alert registry; the previous one is only forgotten. *)
Definition startAlerts x : runtime :=
  mkRuntime (rt_core x) (rt_tuning x) (rt_bus x) (rt_workers x)
    (newAlertManager (tu_alertActiveWindow (rt_tuning x))) true (rt_alerts x :: rt_replaced x)
    (rt_discovery x) (rt_totalErrors x).

Definition onDerived (f : derivedSupport dprog -> option error * derivedSupport dprog) x
  : option error * runtime :=
  let '(err, l) := f (co_derived (rt_core x)) in (err, set_derived l x).

Definition startDerived (config : Config) x : option error * runtime :=
  match cf_DerivedTags config with
  | [] => (None, x)
  | cs => onDerived (startDerivedTags cs) x
  end.

(** ** Discovery *)

Definition trimSlash (s : string) : string :=
  match str_rev s with
  | String "/"%char r => str_rev r
  | _ => s
  end.

Definition topicTemplateToSubscriptionPattern (topicTemplate : string) : string :=
  match String.index 0 "{{" topicTemplate with
  | None => trimSlash topicTemplate +:+ "/#"
  | Some idx =>
    let prefix := trimSlash (String.substring 0 idx topicTemplate) in
    if decide (prefix = EmptyString) then "#"%string else prefix +:+ "/#"
  end.

(** The loop over the transports: the brokers, with the pattern of the last
    transport that has a topic template. *)
Definition collectBroker (m : gmap string brokerEndpoint) (tc : TransportConfig)
  : gmap string brokerEndpoint :=
  if decide (tp_Type tc = "mqtt"%string) then
    match tp_Settings tc !! "broker"%string with
    | Some (VString broker) =>
      if decide (broker = EmptyString) then m
      else
        let be := default (mkBroker broker None) (m !! broker) in
        match tp_Settings tc !! "topic-template"%string with
        | Some (VString tpl) =>
          if decide (tpl = EmptyString) then <[broker := be]> m
          else <[broker := mkBroker broker (Some (topicTemplateToSubscriptionPattern tpl))]> m
        | _ => <[broker := be]> m
        end
    | _ => m
    end
  else m.

Definition startDiscovery (config : Config) x : runtime :=
  if decide (nd_ID (cf_Node config) = EmptyString) then x
  else
    let brokers := foldl collectBroker ∅ (cf_Transports config) in
    if decide (brokers = ∅) then x
    else
      match outside (re_discovery (cf_Node config) brokers) x with
      | (Some _, x) => set_discovery false x
      | (None, x) => set_discovery true x
      end.

(** ** Start *)

(** The first critical section: a live context, status running, and empty maps of
    instances.  Stored configurations and tag-file watchers are not cleared. *)
Definition beginStart x : runtime :=
  let m := mgr x in
  let r := en_reg m in
  let t := en_tm m in
  let m := set_reg (mkDriverRegistry ∅ (dr_driverConfigs r) (dr_tagFileWatchers r) ∅ (dr_running r)
             (dr_watching r)) m in
  let m := set_tm (mkTransportManager ∅ (tm_transportCfg t) ∅ ∅ (tm_offline t) (tm_running t)
             (tm_listening t) (tm_flushing t)) m in
  let l := co_derived (rt_core x) in
  let l := mkDS true (ls_evaluator l) (ls_tags l) (ls_live l) (ls_next l) in
  set_status EngineStatusRunning (set_derived l (set_mgr (set_context true m) x)).

(** The size of the command semaphore. *)
Definition makeCommandSem x : runtime :=
  let t := rt_tuning x in
  set_tuning (set_writes (tu_writeRetryCount t)
    (if decide (tu_commandConcurrency t <= 0) then DefaultCommandConcurrency else tu_commandConcurrency t)
    (tu_writeMinInterval t) t) x.

(** A failure of the offline buffer is only logged. *)
Definition openOfflineBuffer (config : Config) x : runtime :=
  let b := gl_Buffer (cf_Global config) in
  if bf_Enabled b && negb (bool_decide (bf_Path b = EmptyString)) then
    match outside (re_offline (bf_Path b) (bf_MaxSize b)) x with
    | (Some _, x) => x
    | (None, x) =>
      let m := mgr x in
      let t := en_tm m in
      set_mgr (set_tm (mkTransportManager (tm_transports t) (tm_transportCfg t) (tm_batchers t)
        (tm_transportCancels t) true (tm_running t) (tm_listening t) (tm_flushing t)) m) x
    end
  else x.

Definition onManager (f : Manager.engine E -> option error * Manager.engine E) x
  : option error * runtime :=
  let '(err, m) := f (mgr x) in (err, set_mgr m x).

(** A step that may fail, and what follows it. *)
Definition andThen (r : option error * runtime) (k : runtime -> option error * runtime)
  : option error * runtime :=
  match r with
  | (Some e, x) => (Some e, x)
  | (None, x) => k x
  end.

(** The part of [Start] that is rolled back when it fails, on the configuration
    that [autoFillNodeConfig] has completed. *)
Definition startParts (config : Config) x : option error * runtime :=
  andThen (onManager (startTransports (cf_Transports config)) (startScheduler x)) (fun x =>
  andThen (initRules config x) (fun x =>
  andThen (onManager (startDrivers (cf_Drivers config)) x) (fun x =>
  andThen (startDerived config (startAlerts (startProcessingWorkers x))) (fun x =>
  (None, startDiscovery config x))))).

(** ** Stopping the parts *)

(** Cancelling the root context ends the listeners and the sweep of the alerts. *)
Definition cancelRoot x : runtime :=
  let m := mgr x in
  let t := en_tm m in
  set_alerts (rt_alerts x) false
    (set_mgr (set_context false (set_tm (mkTransportManager (tm_transports t) (tm_transportCfg t)
       (tm_batchers t) (tm_transportCancels t) (tm_offline t) (tm_running t) ∅ (tm_flushing t)) m)) x).

Definition stopBatcher (b : nat) (m : Manager.engine E) : Manager.engine E :=
  let t := en_tm m in
  set_tm (mkTransportManager (tm_transports t) (tm_transportCfg t) (tm_batchers t)
    (tm_transportCancels t) (tm_offline t) (tm_running t) (tm_listening t) (tm_flushing t ∖ {[b]})) m.

(** The loops over the snapshots.  [stopWithErrorTimeout] only bounds the wait. *)
Definition stopAllDrivers (ids : list nat) (m : Manager.engine E) : Manager.engine E :=
  foldl (fun m id => (stopInstance id m).2) m ids.
Definition stopAllBatchers (bs : list nat) (m : Manager.engine E) : Manager.engine E :=
  foldl (fun m b => stopBatcher b m) m bs.
Definition stopAllTransports (ids : list nat) (m : Manager.engine E) : Manager.engine E :=
  foldl (fun m id => (stopTransport id m).2) m ids.

Definition stopAllTagFileWatchers (m : Manager.engine E) : Manager.engine E :=
  let r := en_reg m in
  set_reg (mkDriverRegistry (dr_drivers r) (dr_driverConfigs r) ∅ (dr_tagGroups r) (dr_running r)
    (foldl (fun ws w => delete w ws) (dr_watching r) (re_values (dr_tagFileWatchers r)))) m.

(** [CloseProviders]. *)
Definition CloseProviders x : runtime :=
  let y := co_rules (rt_core x) in
  set_sys (mkSystem (rs_top y) ∅ (rs_subs y) (rs_heap y)) x.

Definition closeBus x : runtime := set_bus (Close <$> rt_bus x) x.

(** The wait group: every processing worker has returned. *)
Definition waitWorkers x : runtime := set_workers 0 x.

Definition stopScheduler x : runtime := set_mgr (with_sched Scheduler.Stop (mgr x)) x.

Definition rollbackStart x : runtime :=
  let x := stopScheduler (cancelRoot x) in
  let m := mgr x in
  let drivers := re_values (dr_drivers (en_reg m)) in
  let batchers := re_values (tm_batchers (en_tm m)) in
  let transports := re_values (tm_transports (en_tm m)) in
  let m := stopAllTransports transports (stopAllBatchers batchers (stopAllDrivers drivers m)) in
  let x := CloseProviders (set_mgr m x) in
  let x := closeBus (set_mgr (stopAllTagFileWatchers (mgr x)) x) in
  let m := mgr x in
  let r := en_reg m in
  let t := en_tm m in
  let m := set_reg (mkDriverRegistry ∅ (dr_driverConfigs r) (dr_tagFileWatchers r) (dr_tagGroups r)
             (dr_running r) (dr_watching r)) m in
  let m := set_tm (mkTransportManager ∅ (tm_transportCfg t) ∅ (tm_transportCancels t) (tm_offline t)
             (tm_running t) (tm_listening t) (tm_flushing t)) m in
  waitWorkers (set_status EngineStatusStopped (set_mgr m x)).

(** [Start]; it also gives the configuration it was handed, which
    [autoFillNodeConfig] completes in place. *)
Definition Start (config : Config) x : option error * Config * runtime :=
  match applyEngineConfig (gl_Engine (cf_Global config)) (beginStart x) with
  | (Some e, x) => (Some e, config, tuneRegistries x)
  | (None, x) =>
    let config' := autoFillNodeConfig config in
    match startParts config' (openOfflineBuffer config (makeCommandSem (tuneRegistries x))) with
    | (Some e, x) => (Some e, config', rollbackStart x)
    | (None, x) => (None, config', x)
    end
  end.

(** ** Stop *)

(** A receive case of a [select] is ready when the channel holds something or is
    closed. *)
Definition recv_ready {A} (c : chan A) : bool :=
  negb (bool_decide (ch_items c = [])) || ch_closed c.

Definition set_chans (c hp : chan DataPoint) (b : DataBus) : DataBus :=
  mkBus c hp (b_subscribers b) (b_closed b) (b_subCount b) (b_dropped b) (b_pushDropped b)
    (b_highPriPushDropped b) (b_nextSub b).

(** [drainDataBusOnShutdown]: between two ready cases [select] chooses, here by
    [pick]; a receive without a value comes from a closed channel and ends the
    loop.  [None] is a loop that has not ended with this fuel. *)
Fixpoint drain (pick : nat -> bool) (fuel : nat) (b : DataBus) : option (Z * DataBus) :=
  match fuel with
  | O => None
  | S fuel =>
    let main := recv_ready (b_ch b) in
    let hp := recv_ready (b_highPriCh b) in
    let received (v : option DataPoint) (b : DataBus) :=
      match v with
      | None => Some (0, b)
      | Some _ => match drain pick fuel b with Some (n, b) => Some (u64 (1 + n), b) | None => None end
      end in
    if main && (negb hp || pick fuel) then
      let '(c, v) := try_recv (b_ch b) in received v (set_chans c (b_highPriCh b) b)
    else if hp then
      let '(c, v) := try_recv (b_highPriCh b) in received v (set_chans (b_ch b) c b)
    else Some (0, b)
  end.

Definition drainFuel (b : DataBus) : nat :=
  S (length (ch_items (b_ch b)) + length (ch_items (b_highPriCh b))).

Definition drainDataBusOnShutdown (pick : nat -> bool) x : Z * runtime :=
  match rt_bus x with
  | None => (0, x)
  | Some b =>
    match drain pick (drainFuel b) b with
    | Some (n, b) => (n, set_bus (Some b) x)
    | None => (0, x)
    end
  end.

Definition stopComponents (pick : nat -> bool) x : runtime :=
  let m := mgr x in
  let drivers := re_values (dr_drivers (en_reg m)) in
  let batchers := re_values (tm_batchers (en_tm m)) in
  let transports := re_values (tm_transports (en_tm m)) in
  let x := set_mgr (stopAllDrivers drivers m) x in
  let '(dropped, x) := drainDataBusOnShutdown pick x in
  let x := if decide (dropped > 0) then add_errors dropped x else x in
  let x := set_mgr (stopAllTransports transports (stopAllBatchers batchers (mgr x))) x in
  let x := CloseProviders (closeBus x) in
  set_mgr (stopAllTagFileWatchers (mgr x)) x.

Definition stopDiscovery x : runtime := set_discovery false x.

Definition Stop (pick : nat -> bool) x : option error * runtime :=
  let x := stopDiscovery (cancelRoot x) in
  let x := set_derived (stopDerived (co_derived (rt_core x))) x in
  let x := waitWorkers (stopComponents pick (stopScheduler x)) in
  let x := set_alerts (Alerts.stop (rt_alerts x)) (rt_sweeping x) x in
  (None, set_status EngineStatusStopped x).

Definition Reload (pick : nat -> bool) (config : Config) x : option error * Config * runtime :=
  match Stop pick x with
  | (Some e, x) => (Some e, config, x)
  | (None, x) => Start config x
  end.

End Runtime.

(** ** Draining the data bus *)

Section DrainProofs.
Implicit Types b : DataBus.

Definition queued b : nat := length (ch_items (b_ch b)) + length (ch_items (b_highPriCh b)).

Lemma drain_step pick fuel b :
  queued b <> 0%nat -> ch_closed (b_ch b) = false -> ch_closed (b_highPriCh b) = false ->
  exists c hp, queued (set_chans c hp b) = pred (queued b) /\ ch_closed c = false /\ ch_closed hp = false /\
    drain pick (S fuel) b =
      match drain pick fuel (set_chans c hp b) with Some (n, b) => Some (u64 (1 + n), b) | None => None end.
Proof.
  destruct b as [[cap items []] [hcap hitems []] subs cl sc d pd hpd nx]; unfold queued; simpl; try done.
  intros Hq _ _. destruct items as [|p items], hitems as [|q hitems]; simpl in *; try done.
  - exists (mkChan cap [] false), (mkChan hcap hitems false). simpl. done.
  - exists (mkChan cap items false), (mkChan hcap [] false). simpl. split_and!; [lia|done..].
  - destruct (pick fuel); simpl.
    + exists (mkChan cap items false), (mkChan hcap (q :: hitems) false). simpl. done.
    + exists (mkChan cap (p :: items) false), (mkChan hcap hitems false). simpl. split_and!; [lia|done..].
Qed.

(** On an open bus the loop ends, whatever [select] chooses: everything queued is
    dropped and counted. *)
Lemma drain_open pick fuel b :
  ch_closed (b_ch b) = false -> ch_closed (b_highPriCh b) = false -> (queued b < fuel)%nat ->
  exists c hp, drain pick fuel b = Some (u64 (Z.of_nat (queued b)), set_chans c hp b) /\
    ch_items c = [] /\ ch_items hp = [] /\ ch_closed c = false /\ ch_closed hp = false.
Proof.
  revert b. induction fuel as [|fuel IH]; intros b Hc Hh Hf; [lia|].
  destruct (decide (queued b = 0%nat)) as [Hz|Hnz].
  - destruct b as [[cap [|] []] [hcap [|] []] subs cl sc d pd hpd nx]; try done.
    by exists (mkChan cap [] false), (mkChan hcap [] false).
  - destruct (drain_step pick fuel b Hnz Hc Hh) as (c & hp & Hq & Hc' & Hh' & ->).
    destruct (IH (set_chans c hp b)) as (c2 & hp2 & -> & Hrest); [done..|lia|].
    exists c2, hp2. split; [|done]. rewrite Hq. f_equal. f_equal.
    unfold wrapu. rewrite Zplus_mod_idemp_r. f_equal. lia.
Qed.

(** On a bus that is closed (a second [Stop]) it ends too. *)
Lemma drain_ends pick fuel b : (queued b < fuel)%nat -> exists n b', drain pick fuel b = Some (n, b').
Proof.
  revert b. induction fuel as [|fuel IH]; intros b Hf; [lia|]. simpl.
  destruct b as [[cap items cl1] [hcap hitems cl2] subs cl sc d pd hpd nx].
  unfold queued in *. simpl in *.
  repeat match goal with |- context [if ?t then _ else _] => destruct t end; try by eauto.
  - destruct items as [|p items]; simpl in *; [by eauto|].
    match goal with |- context [drain pick fuel ?b1] => destruct (IH b1) as (n & b' & ->) end;
      [simpl; lia|by eauto].
  - destruct hitems as [|p hitems]; simpl in *; [by eauto|].
    match goal with |- context [drain pick fuel ?b1] => destruct (IH b1) as (n & b' & ->) end;
      [simpl; lia|by eauto].
Qed.

End DrainProofs.

(** ** What runs can be found *)

(** Everything in [running] is listed under some name. *)
Definition led (m : gmap string nat) (running : gset nat) : Prop :=
  forall id, id ∈ running -> exists n, m !! n = Some id.

Lemma led_insert m running name id :
  led m running -> m !! name = None -> led (<[name := id]> m) ({[id]} ∪ running).
Proof.
  intros Hl Hn i [->%elem_of_singleton|Hi]%elem_of_union; [by exists name; apply lookup_insert_eq|].
  destruct (Hl i Hi) as [n Hni]. exists n. rewrite lookup_insert_ne; [done|congruence].
Qed.

Lemma led_delete m running name id :
  led m running -> m !! name = Some id -> led (delete name m) (running ∖ {[id]}).
Proof.
  intros Hl Hn i [Hi Hne%not_elem_of_singleton]%elem_of_difference. destruct (Hl i Hi) as [n Hni].
  exists n. rewrite lookup_delete_ne; [done|congruence].
Qed.

Lemma led_replace m running name old id :
  led m running -> m !! name = Some old ->
  led (<[name := id]> m) (({[id]} ∪ running) ∖ {[old]}).
Proof.
  intros Hl Hn i [[->%elem_of_singleton|Hi]%elem_of_union Hne%not_elem_of_singleton]%elem_of_difference.
  - by exists name; apply lookup_insert_eq.
  - destruct (Hl i Hi) as [n Hni]. exists n. rewrite lookup_insert_ne; [done|congruence].
Qed.

(** Of an engine: the drivers, the watchers, the transports and the batchers that
    run are those the maps list, and the scheduler is consistent. *)
Record accounted {E} (m : Manager.engine E) : Prop := {
  ac_drivers : led (dr_drivers (en_reg m)) (dr_running (en_reg m));
  ac_watch w : is_Some (dr_watching (en_reg m) !! w) -> exists n, dr_tagFileWatchers (en_reg m) !! n = Some w;
  ac_wdom n : is_Some (dr_tagFileWatchers (en_reg m) !! n) -> is_Some (dr_drivers (en_reg m) !! n);
  ac_transports : led (tm_transports (en_tm m)) (tm_running (en_tm m));
  ac_flush : led (tm_batchers (en_tm m)) (tm_flushing (en_tm m));
  ac_bdom n : is_Some (tm_batchers (en_tm m) !! n) -> is_Some (tm_transports (en_tm m) !! n);
  ac_sched : sd_inv (en_sched m);
}.

Section Accounted.
Context {E : Type} `{!SchedEnv E} `{!ManagerEnv E} `{!GoArch}.
Implicit Types m : Manager.engine E.

Lemma accounted_env e m : accounted m -> accounted (set_env e m).
Proof. by intros []. Qed.

(** A driver added under a name that no watcher has. *)
Lemma AddDriver_accounted config m :
  accounted m -> dr_tagFileWatchers (en_reg m) !! dc_Name config = None -> accounted (AddDriver config m).2.
Proof.
  intros [Hd Hw Hwd Ht Hf Hb Hs] Hnone. unfold AddDriver. destruct (startInstance_spec config m) as [e He].
  destruct (startInstance config m) as [[id|err] m1]; cbn [fst snd] in *; [|by subst m1].
  destruct He as [-> ->]. cbn [en_reg set_env set_reg reg_run dr_drivers].
  set (m2 := match dr_drivers (en_reg m) !! _ with Some _ => _ | None => _ end).
  assert (Hm2 : led (<[dc_Name config := en_next m]> (dr_drivers (en_reg m2))) (dr_running (en_reg m2)) /\
    dr_watching (en_reg m2) = dr_watching (en_reg m) /\
    dr_tagFileWatchers (en_reg m2) = dr_tagFileWatchers (en_reg m) /\ en_tm m2 = en_tm m /\
    sd_inv (en_sched m2) /\ (forall n, is_Some (dr_tagFileWatchers (en_reg m) !! n) ->
      is_Some (<[dc_Name config := en_next m]> (dr_drivers (en_reg m2)) !! n))).
  { unfold m2. destruct (dr_drivers (en_reg m) !! dc_Name config) as [old|] eqn:Hold.
    - match goal with |- context [stopInstance old ?x] =>
        destruct (stopInstance_spec old x) as [e1 ->] end. simpl. split_and!; try done.
      + rewrite insert_delete_eq. by apply led_replace.
      + intros n Hn%Hwd. rewrite insert_delete_eq, lookup_insert_is_Some'. by right.
    - simpl. split_and!; try done; [by apply led_insert|].
      intros n Hn%Hwd. rewrite lookup_insert_is_Some'. by right. }
  clearbody m2. destruct Hm2 as (Hd2 & Hw2 & Hf2 & Ht2 & Hs2 & Hwd2).
  match goal with |- context [schedule config ?x] =>
    destruct (schedule_eq config x) as (e1 & s1 & -> & Hs1) end.
  apply Hs1 in Hs2 as [Hs2 _].
  match goal with |- context [startTagFileWatcher config ?x] =>
    destruct (startTagFileWatcher_eq config x) as (e2 & [->|(tw & Htw & ->)]) end;
    constructor; simpl; rewrite ?Ht2, ?Hw2, ?Hf2; try done.
  - intros w. rewrite lookup_insert_is_Some'. intros [<-|[n Hn]%Hw].
    + exists (tw_driver tw). apply lookup_insert_eq.
    + exists n. rewrite lookup_insert_ne; [done|]. rewrite Htw. congruence.
  - intros n. rewrite lookup_insert_is_Some'. intros [<-|Hn]; [|by apply Hwd2].
    rewrite Htw, lookup_insert_eq. by eexists.
Qed.

Lemma RemoveDriver_accounted name m : accounted m -> accounted (RemoveDriver name m).2.
Proof.
  intros [Hd Hw Hwd Ht Hf Hb Hs].
  assert (Hw' : forall w, is_Some (dr_watching (reg_unwatch name (en_reg m)) !! w) ->
    exists n, delete name (dr_tagFileWatchers (en_reg m)) !! n = Some w).
  { intros w. simpl. destruct (dr_tagFileWatchers (en_reg m) !! name) as [v|] eqn:Hv.
    - rewrite lookup_delete_is_Some. intros [Hne [n Hn]%Hw]. exists n.
      rewrite lookup_delete_ne; [done|congruence].
    - intros [n Hn]%Hw. exists n. rewrite lookup_delete_ne; [done|congruence]. }
  destruct (dr_drivers (en_reg m) !! name) as [id|] eqn:Hid.
  - rewrite (RemoveDriver_eq _ _ _ Hid). constructor; simpl; try done.
    + rewrite Hid. by apply led_delete.
    + intros n. rewrite !lookup_delete_is_Some. naive_solver.
    + by apply RemoveDriverTasks_inv.
  - rewrite (RemoveDriver_none _ _ Hid). constructor; simpl; try done.
    intros n. rewrite lookup_delete_is_Some. naive_solver.
Qed.

Lemma reloadDriverTags_accounted config m : accounted m -> accounted (reloadDriverTags config m).2.
Proof.
  intros [Hd Hw Hwd Ht Hf Hb Hs]. unfold reloadDriverTags. destruct (startInstance_spec config m) as [e He].
  destruct (startInstance config m) as [[id|err] m1]; cbn [fst snd] in *; [|by subst m1].
  destruct He as [-> ->]. cbn [en_reg set_env set_reg reg_run dr_drivers].
  set (m2 := match dr_drivers (en_reg m) !! _ with Some _ => _ | None => _ end).
  assert (Hm2 : led (<[dc_Name config := en_next m]> (dr_drivers (en_reg m2))) (dr_running (en_reg m2)) /\
    dr_watching (en_reg m2) = dr_watching (en_reg m) /\
    dr_tagFileWatchers (en_reg m2) = dr_tagFileWatchers (en_reg m) /\ en_tm m2 = en_tm m /\
    sd_inv (en_sched m2) /\ (forall n, is_Some (dr_tagFileWatchers (en_reg m) !! n) ->
      is_Some (<[dc_Name config := en_next m]> (dr_drivers (en_reg m2)) !! n))).
  { unfold m2. destruct (dr_drivers (en_reg m) !! dc_Name config) as [old|] eqn:Hold.
    - match goal with |- context [stopInstance old ?x] =>
        destruct (stopInstance_spec old x) as [e1 ->] end. simpl. split_and!; try done.
      + rewrite insert_delete_eq. by apply led_replace.
      + by apply RemoveDriverTasks_inv.
      + intros n Hn%Hwd. rewrite insert_delete_eq, lookup_insert_is_Some'. by right.
    - simpl. split_and!; try done; [by apply led_insert|].
      intros n Hn%Hwd. rewrite lookup_insert_is_Some'. by right. }
  clearbody m2. destruct Hm2 as (Hd2 & Hw2 & Hf2 & Ht2 & Hs2 & Hwd2).
  match goal with |- context [schedule config ?x] =>
    destruct (schedule_eq config x) as (e1 & s1 & -> & Hs1) end.
  apply Hs1 in Hs2 as [Hs2 _]. constructor; simpl; by rewrite ?Ht2, ?Hw2, ?Hf2.
Qed.

Lemma checkAndReload_accounted w m : accounted m -> accounted (checkAndReload w m).2.
Proof.
  intros Ha. unfold checkAndReload. destruct (dr_watching (en_reg m) !! w) as [tw|] eqn:Hw; [|done].
  unfold call. destruct (env_tagsfile _ _) as [[[tags hash]|err] e]; [|by apply accounted_env].
  case_decide; [by apply accounted_env|].
  match goal with |- context [onReload _ _ ?x] => set (m1 := x) end.
  assert (Ha1 : accounted m1).
  { destruct Ha as [Hd Hw1 Hwd Ht Hf Hb Hs]. constructor; simpl; try done.
    intros v. rewrite lookup_insert_is_Some'. intros [<-|Hv]; [|by apply Hw1]. apply Hw1. by eexists. }
  clearbody m1. unfold onReload. destruct (dr_driverConfigs (en_reg m1) !! _) as [base|]; [|done].
  match goal with |- context [reloadDriverTags ?c ?x] =>
    assert (Ha2 : accounted (reloadDriverTags c x).2) by (apply reloadDriverTags_accounted; destruct Ha1; by constructor);
    by destruct (reloadDriverTags c x) as [[e1|] m2] end.
Qed.

(** What [detach] and [attach] do to a map and to what runs. *)
Lemma led_detach (m : gmap string nat) running name :
  led m running ->
  led (delete name m) (match m !! name with Some b => running ∖ {[b]} | None => running end).
Proof.
  intros Hl. destruct (m !! name) as [b|] eqn:Hb; [by apply led_delete|]. by rewrite delete_id.
Qed.

Lemma attach_accounted config m e :
  accounted m -> tm_transports (en_tm m) !! tp_Name config = None ->
  accounted (attach config (en_next m) (set_env e (set_tm (tm_run (en_next m) (en_tm m)) (bump m)))).
Proof.
  intros [Hd Hw Hwd Ht Hf Hb Hs] Hn.
  assert (Hnb : tm_batchers (en_tm m) !! tp_Name config = None).
  { apply eq_None_not_Some. intros Hx%Hb. rewrite Hn in Hx. by apply is_Some_None in Hx. }
  unfold attach. constructor; simpl; try done.
  - by apply led_insert.
  - destruct (Batcher.newTransportBatcher _ _ _); [|done]. by apply led_insert.
  - intros n. rewrite lookup_insert_is_Some'. destruct (Batcher.newTransportBatcher _ _ _); [|by right; apply Hb].
    rewrite lookup_insert_is_Some'. intros [?|?%Hb]; auto.
Qed.

(** A transport gone from the maps, with its listeners and its batcher. *)
Lemma drop_accounted name m : accounted m -> accounted (set_tm (tm_drop name (en_tm m)) m).
Proof.
  intros [Hd Hw Hwd Ht Hf Hb Hs]. constructor; simpl; try done; try by apply led_detach.
  intros n. rewrite !lookup_delete_is_Some. naive_solver.
Qed.

Lemma AddTransport_accounted config m : accounted m -> accounted (AddTransport config m).2.
Proof.
  intros Ha. unfold AddTransport. destruct (startTransport_spec config m) as [e He].
  destruct (startTransport config m) as [[id|err] m1]; cbn [fst snd] in *.
  2:{ subst m1. by destruct Ha. }
  destruct He as [-> ->]. cbn [en_tm set_env set_tm tm_run tm_transports].
  destruct (tm_transports (en_tm m) !! tp_Name config) as [old|] eqn:Hold; [|by apply attach_accounted].
  apply (drop_accounted (tp_Name config)) in Ha as [Hd Hw Hwd Ht Hf Hb Hs].
  simpl in Hd, Hw, Ht, Hf, Hb, Hs. rewrite Hold in Ht.
  unfold stopTransport, call. destruct (env_tstop old _) as [err e1]. cbn [snd].
  unfold attach. simpl. set (b := Batcher.newTransportBatcher _ _ _).
  assert (Hnb : delete (tp_Name config) (tm_batchers (en_tm m)) !! tp_Name config = None) by apply lookup_delete_eq.
  constructor; simpl; try done.
  - rewrite insert_delete_eq. intros i Hi. apply elem_of_difference in Hi as [[->%elem_of_singleton|Hi]%elem_of_union Hne].
    + exists (tp_Name config). apply lookup_insert_eq.
    + destruct (Ht i) as [n Hn]; [set_solver|]. exists n. apply lookup_delete_Some in Hn as [Hnn Hn].
      by rewrite lookup_insert_ne.
  - destruct b; [|done]. by apply led_insert.
  - intros n Hx. rewrite insert_delete_eq, lookup_insert_is_Some'.
    destruct (decide (tp_Name config = n)) as [|Hne]; [by left|right].
    assert (Hx' : is_Some (delete (tp_Name config) (tm_batchers (en_tm m)) !! n)).
    { destruct b; [|done]. by rewrite lookup_insert_ne in Hx. }
    apply Hb in Hx'. by rewrite lookup_delete_ne in Hx'.
Qed.

Lemma RemoveTransport_accounted name m : accounted m -> accounted (RemoveTransport name m).2.
Proof.
  intros Ha. destruct (tm_transports (en_tm m) !! name) as [id|] eqn:Hid.
  - rewrite (RemoveTransport_eq _ _ _ Hid). by apply accounted_env, drop_accounted.
  - unfold RemoveTransport. by rewrite Hid.
Qed.

Lemma AddDriver_watchers config m n :
  n <> dc_Name config ->
  dr_tagFileWatchers (en_reg (AddDriver config m).2) !! n = dr_tagFileWatchers (en_reg m) !! n.
Proof.
  intros Hn. unfold AddDriver. destruct (startInstance_spec config m) as [e He].
  destruct (startInstance config m) as [[id|err] m1]; cbn [fst snd] in *; [|by subst m1].
  destruct He as [-> ->]. cbn [en_reg set_env set_reg reg_run dr_drivers].
  set (m2 := match dr_drivers (en_reg m) !! _ with Some _ => _ | None => _ end).
  assert (Hm2 : dr_tagFileWatchers (en_reg m2) = dr_tagFileWatchers (en_reg m)).
  { unfold m2. destruct (dr_drivers (en_reg m) !! dc_Name config) as [old|]; [|done].
    match goal with |- context [stopInstance old ?x] => by destruct (stopInstance_spec old x) as [e1 ->] end. }
  clearbody m2.
  match goal with |- context [schedule config ?x] =>
    destruct (schedule_eq config x) as (e1 & s1 & -> & _) end.
  match goal with |- context [startTagFileWatcher config ?x] =>
    destruct (startTagFileWatcher_eq config x) as (e2 & [->|(tw & Htw & ->)]) end; simpl; rewrite Hm2; [done|].
  by rewrite Htw, lookup_insert_ne.
Qed.

(** [startDrivers] on configurations with distinct names, that no watcher has. *)
Lemma startDrivers_accounted configs m :
  NoDup (dc_Name <$> configs) -> accounted m ->
  (forall c, c ∈ configs -> dr_tagFileWatchers (en_reg m) !! dc_Name c = None) ->
  accounted (startDrivers configs m).2.
Proof.
  revert m. induction configs as [|c configs IH]; intros m Hnd Ha Hw; [done|]. csimpl in Hnd.
  apply NoDup_cons in Hnd as [Hnin Hnd]. simpl.
  pose proof (AddDriver_accounted c m Ha (Hw c (list_elem_of_here _ _))) as Ha1.
  pose proof (AddDriver_watchers c m) as Hw1.
  destruct (AddDriver c m) as [[e|] m1]; [done|]. simpl in *. apply IH; [done..|].
  intros c' Hc'. rewrite Hw1; [apply Hw; by right|]. intros Heq. apply Hnin. rewrite <- Heq.
  by apply list_elem_of_fmap_2.
Qed.

Lemma startTransports_accounted configs m : accounted m -> accounted (startTransports configs m).2.
Proof.
  revert m. induction configs as [|c configs IH]; intros m Ha; [done|]. simpl.
  pose proof (AddTransport_accounted c m Ha) as Ha1. destruct (AddTransport c m) as [[e|] m1]; [done|].
  by apply IH.
Qed.

(** What they register: the configurations given, over what was there. *)
Lemma startDrivers_view configs m m' :
  startDrivers configs m = (None, m') ->
  en_tm m' = en_tm m /\
  registered (dr_drivers (en_reg m')) (dr_driverConfigs (en_reg m')) =
    foldl (fun v c => <[dc_Name c := c]> v)
      (registered (dr_drivers (en_reg m)) (dr_driverConfigs (en_reg m))) configs.
Proof.
  revert m. induction configs as [|c configs IH]; intros m; simpl; [by intros [= ->]|].
  destruct (AddDriver c m) as [[e|] m1] eqn:Ha; [done|].
  apply AddDriver_view in Ha as (Htm & id & Hd & Hc). intros [-> ->]%IH. split; [done|].
  by rewrite Hd, Hc, registered_insert.
Qed.

Lemma startTransports_view configs m m' :
  startTransports configs m = (None, m') ->
  en_reg m' = en_reg m /\
  registered (tm_transports (en_tm m')) (tm_transportCfg (en_tm m')) =
    foldl (fun v c => <[tp_Name c := c]> v)
      (registered (tm_transports (en_tm m)) (tm_transportCfg (en_tm m))) configs.
Proof.
  revert m. induction configs as [|c configs IH]; intros m; simpl; [by intros [= ->]|].
  destruct (AddTransport c m) as [[e|] m1] eqn:Ha; [done|].
  apply AddTransport_view in Ha as (Hr & id & Hd & Hc). intros [-> ->]%IH. split; [done|].
  by rewrite Hd, Hc, registered_insert.
Qed.

Lemma startTransports_reg configs m : en_reg (startTransports configs m).2 = en_reg m.
Proof.
  revert m. induction configs as [|c configs IH]; intros m; [done|]. simpl.
  destruct (AddTransport c m) as [[e|] m1] eqn:Ha; apply AddTransport_view in Ha as [Hr _]; simpl;
    by rewrite ?IH, Hr.
Qed.

End Accounted.

(** ** Stopping leaves nothing running *)

Section Quiet.
Context {E : Type} `{!SchedEnv E} `{!ManagerEnv E} `{!GoArch} `{!RuntimeEnv E}.
Implicit Types m : Manager.engine E.

Definition reg_halts (ids : list nat) (r : driverRegistry) : driverRegistry :=
  mkDriverRegistry (dr_drivers r) (dr_driverConfigs r) (dr_tagFileWatchers r) (dr_tagGroups r)
    (dr_running r ∖ list_to_set ids) (dr_watching r).

Lemma stopAllDrivers_eq ids m :
  exists e, stopAllDrivers ids m = set_env e (set_reg (reg_halts ids (en_reg m)) m).
Proof.
  revert m. induction ids as [|id ids IH]; intros m; simpl.
  - exists (en_env m). destruct m as [? [] ? ? ? ? ? ? ? ?]. unfold reg_halts. simpl.
    by rewrite difference_empty_L.
  - destruct (stopInstance_spec id m) as [e ->].
    destruct (IH (set_env e (set_reg (reg_halt id (en_reg m)) m))) as [e' ->]. exists e'.
    unfold set_env, set_reg, reg_halts, reg_halt. simpl. by rewrite difference_difference_l_L, ?difference_empty_L.
Qed.

Definition tm_halts (bs ids : list nat) (t : transportManager) : transportManager :=
  mkTransportManager (tm_transports t) (tm_transportCfg t) (tm_batchers t) (tm_transportCancels t)
    (tm_offline t) (tm_running t ∖ list_to_set ids) (tm_listening t) (tm_flushing t ∖ list_to_set bs).

Lemma stopAllBatchers_eq bs m :
  stopAllBatchers bs m = set_tm (tm_halts bs [] (en_tm m)) m.
Proof.
  revert m. induction bs as [|b bs IH]; intros m; simpl.
  - destruct m as [? ? [] ? ? ? ? ? ? ?]. unfold tm_halts, set_tm. simpl. by rewrite !difference_empty_L.
  - rewrite IH. unfold set_tm, tm_halts. simpl. by rewrite difference_difference_l_L, ?difference_empty_L.
Qed.

Lemma stopAllTransports_eq ids m :
  exists e, stopAllTransports ids m = set_env e (set_tm (tm_halts [] ids (en_tm m)) m).
Proof.
  revert m. induction ids as [|id ids IH]; intros m; simpl.
  - exists (en_env m). destruct m as [? ? [] ? ? ? ? ? ? ?]. unfold tm_halts, set_tm, set_env. simpl.
    by rewrite !difference_empty_L.
  - unfold stopTransport, call. destruct (env_tstop id (en_env m)) as [err e]. simpl.
    match goal with |- context [stopAllTransports ids ?x] => destruct (IH x) as [e' ->] end. exists e'.
    unfold set_env, set_tm, tm_halts. simpl. by rewrite difference_difference_l_L, !difference_empty_L.
Qed.

Lemma delete_all_lookup {A} (ws : list nat) (t : gmap nat A) w :
  is_Some (foldl (fun t w => delete w t) t ws !! w) -> is_Some (t !! w) /\ w ∉ ws.
Proof.
  revert t. induction ws as [|v ws IH]; intros t; simpl; [intros; split; [done|apply not_elem_of_nil]|].
  intros [[Hne Hw]%lookup_delete_is_Some Hn]%IH. split; [done|]. rewrite not_elem_of_cons. naive_solver.
Qed.

Lemma led_none (mp : gmap string nat) running : led mp running -> running ∖ list_to_set (re_values mp) = ∅.
Proof.
  intros Hl. apply set_eq. intros i. rewrite elem_of_difference, elem_of_list_to_set, re_values_all.
  set_solver.
Qed.

(** The loops of [rollbackStart] and [stopComponents] over what was running. *)
Definition haltAll m : Manager.engine E :=
  stopAllTagFileWatchers
    (stopAllTransports (re_values (tm_transports (en_tm m)))
       (stopAllBatchers (re_values (tm_batchers (en_tm m)))
          (stopAllDrivers (re_values (dr_drivers (en_reg m))) m))).

Record halted m : Prop := {
  ha_drivers : dr_running (en_reg m) = ∅;
  ha_watching : dr_watching (en_reg m) = ∅;
  ha_watchers : dr_tagFileWatchers (en_reg m) = ∅;
  ha_transports : tm_running (en_tm m) = ∅;
  ha_listening : tm_listening (en_tm m) = ∅;
  ha_flushing : tm_flushing (en_tm m) = ∅;
  ha_tasks : allDone (en_sched m);
}.

Lemma haltAll_halted m :
  accounted m -> tm_listening (en_tm m) = ∅ -> allDone (en_sched m) -> halted (haltAll m).
Proof.
  intros [Hd Hw Hwd Ht Hf Hb Hs] Hl Hdone. unfold haltAll.
  destruct (stopAllDrivers_eq (re_values (dr_drivers (en_reg m))) m) as [e ->].
  rewrite stopAllBatchers_eq.
  match goal with |- context [stopAllTransports ?ids ?x] => destruct (stopAllTransports_eq ids x) as [e' ->] end.
  constructor; simpl; try done.
  - by apply led_none.
  - apply map_eq. intros w. rewrite lookup_empty. apply eq_None_not_Some.
    intros [[n Hn]%Hw Hnot]%delete_all_lookup. apply Hnot, re_values_all. by exists n.
  - rewrite difference_empty_L. by apply led_none.
  - rewrite difference_empty_L. by apply led_none.
Qed.

End Quiet.

Section StartStop.
Context {E : Type} `{!SchedEnv E} `{!ManagerEnv E} `{!GoArch} `{!RuntimeEnv E}.
Context {prog : Type} `{!ExprLib prog} {dprog : Type} `{!DerivedExpr dprog}.
Notation runtime := (runtime E prog dprog).
Implicit Types x : runtime.

(** The settings, the outside world and the presence of an offline buffer: all
    that applying the configuration changes. *)
Definition retune (t : tuning) (e : E) (offline : bool) (d s : Z) x : runtime :=
  let m := mgr x in
  let tm := en_tm m in
  set_tuning t (set_mgr (mkEngine e (en_reg m)
    (mkTransportManager (tm_transports tm) (tm_transportCfg tm) (tm_batchers tm) (tm_transportCancels tm)
       offline (tm_running tm) (tm_listening tm) (tm_flushing tm))
    (en_sched m) (en_cache m) (en_pacer m) d s (en_ctx m) (en_next m)) x).

Definition retuned x x' : Prop := exists t e offline d s, x' = retune t e offline d s x.

Lemma retuned_refl x : retuned x x.
Proof.
  exists (rt_tuning x), (en_env (mgr x)), (tm_offline (en_tm (mgr x))), (en_defaultTagInterval (mgr x)),
    (en_shutdownTimeout (mgr x)).
  by destruct x as [[[? ? [] ? ? ? ? ? ? ?] ? ? ?] ? ? ? ? ? ? ? ?].
Qed.

Lemma retuned_trans x x1 x2 : retuned x x1 -> retuned x1 x2 -> retuned x x2.
Proof. intros (t & e & o & d & s & ->) (t' & e' & o' & d' & s' & ->). by exists t', e', o', d', s'. Qed.

Lemma retuned_tuning t x : retuned x (set_tuning t x).
Proof.
  exists t, (en_env (mgr x)), (tm_offline (en_tm (mgr x))), (en_defaultTagInterval (mgr x)),
    (en_shutdownTimeout (mgr x)).
  by destruct x as [[[? ? [] ? ? ? ? ? ? ?] ? ? ?] ? ? ? ? ? ? ? ?].
Qed.

Lemma retuned_outside {A} (f : E -> A * E) x : retuned x (outside f x).2.
Proof.
  unfold outside, call. destruct (f (en_env (mgr x))) as [a e].
  exists (rt_tuning x), e, (tm_offline (en_tm (mgr x))), (en_defaultTagInterval (mgr x)),
    (en_shutdownTimeout (mgr x)).
  by destruct x as [[[? ? [] ? ? ? ? ? ? ?] ? ? ?] ? ? ? ? ? ? ? ?].
Qed.

Lemma retuned_registries x : retuned x (tuneRegistries x).
Proof.
  exists (rt_tuning x), (en_env (mgr x)), (tm_offline (en_tm (mgr x))), (tu_defaultTagInterval (rt_tuning x)),
    (tu_shutdownTimeout (rt_tuning x)).
  by destruct x as [[[? ? [] ? ? ? ? ? ? ?] ? ? ?] ? ? ? ? ? ? ? ?].
Qed.

Lemma retuned_offline config x : retuned x (openOfflineBuffer config x).
Proof.
  unfold openOfflineBuffer. case_match; [|apply retuned_refl].
  pose proof (retuned_outside (re_offline (bf_Path (gl_Buffer (cf_Global config)))
    (bf_MaxSize (gl_Buffer (cf_Global config)))) x) as Ho.
  destruct (outside _ x) as [[e|] x1]; [done|]. simpl in Ho. eapply retuned_trans; [done|].
  exists (rt_tuning x1), (en_env (mgr x1)), true, (en_defaultTagInterval (mgr x1)), (en_shutdownTimeout (mgr x1)).
  by destruct x1 as [[[? ? [] ? ? ? ? ? ? ?] ? ? ?] ? ? ? ? ? ? ? ?].
Qed.

Lemma retuned_stores cfg x : retuned x (openStores cfg x).2.
Proof.
  unfold openStores.
  assert (Hd : retuned x (if decide (ec_DeadLetterPath cfg = EmptyString) then (None, x)
    else outside (re_deadLetter (ec_DeadLetterPath cfg)) x).2).
  { case_decide; [apply retuned_refl|apply retuned_outside]. }
  destruct (if decide _ then _ else _) as [[e|] x1]; [done|].
  eapply retuned_trans; [done|apply retuned_outside].
Qed.

Lemma retuned_writes cfg x : retuned x (applyWrites cfg x).2.
Proof.
  unfold applyWrites. set (x1 := set_tuning _ x).
  assert (Hx1 : retuned x x1) by apply retuned_tuning.
  case_decide; [eapply retuned_trans; [done|apply retuned_stores]|].
  destruct (ParseDuration _) as [d|]; [|done]. case_decide; [done|].
  eapply retuned_trans; [|apply retuned_stores]. eapply retuned_trans; [done|apply retuned_tuning].
Qed.

Lemma retuned_config cfg x : retuned x (applyEngineConfig cfg x).2.
Proof.
  unfold applyEngineConfig. set (x1 := set_tuning _ x).
  assert (Hx1 : retuned x x1) by apply retuned_tuning.
  assert (Hrest : forall y, retuned x y -> retuned x (applyWrites cfg (set_tuning (set_shutdownTimeout
      (durationOr (ec_ShutdownTimeout cfg) (tu_shutdownTimeout (rt_tuning y))) (rt_tuning y)) y)).2).
  { intros y Hy. eapply retuned_trans; [|apply retuned_writes]. eapply retuned_trans; [done|]. apply retuned_tuning. }
  case_decide; [by apply Hrest|]. destruct (parseBadQualityPolicy _) as [p|e]; [|done].
  apply Hrest. eapply retuned_trans; [done|]. apply retuned_tuning.
Qed.

(** Nothing of the engine runs: no instance, listener, batcher, watcher, task,
    rule provider, evaluator, worker, sweep or discovery; its data bus, if it
    has one, is closed. *)
Record quiescent x : Prop := {
  qu_halted : halted (mgr x);
  qu_providers : rs_providers (co_rules (rt_core x)) = ∅;
  qu_evaluator : ls_evaluator (co_derived (rt_core x)) = None;
  qu_live : ls_live (co_derived (rt_core x)) = ∅;
  qu_workers : rt_workers x = 0;
  qu_sweeping : rt_sweeping x = false;
  qu_discovery : rt_discovery x = false;
  qu_bus b : rt_bus x = Some b -> b_closed b = true;
}.

(** What runs can be found: in the maps, in the installed evaluator. *)
Record found x : Prop := {
  fo_mgr : accounted (mgr x);
  fo_live : derived_inv (co_derived (rt_core x));
}.

Lemma stopped_accounted x :
  accounted (mgr x) -> accounted (mgr (stopScheduler (cancelRoot x))) /\
  tm_listening (en_tm (mgr (stopScheduler (cancelRoot x)))) = ∅ /\
  allDone (en_sched (mgr (stopScheduler (cancelRoot x)))).
Proof.
  intros [Hd Hw Hwd Ht Hf Hb Hs]. split_and!; [|done|by apply Stop_allDone].
  constructor; simpl; try done. by apply Stop_inv.
Qed.

Lemma Close_closed b : b_closed (Close b) = true.
Proof. unfold Close. by destruct (b_closed b) eqn:Hc. Qed.

Lemma closed_bus (o : option DataBus) b : Close <$> o = Some b -> b_closed b = true.
Proof. destruct o as [b0|]; [|done]. intros [= <-]. apply Close_closed. Qed.

Lemma rollback_quiescent x :
  accounted (mgr x) -> ls_evaluator (co_derived (rt_core x)) = None ->
  ls_live (co_derived (rt_core x)) = ∅ -> rt_discovery x = false ->
  quiescent (rollbackStart x) /\ co_status (rt_core (rollbackStart x)) = EngineStatusStopped.
Proof.
  intros Ha He Hl Hd. split; [|done].
  destruct (stopped_accounted x Ha) as (Ha' & Hls & Hdone).
  destruct (haltAll_halted _ Ha' Hls Hdone) as [H1 H2 H3 H4 H5 H6 H7].
  constructor; try done; try by constructor. intros b. apply closed_bus.
Qed.

Lemma stopDerived_none (l : derivedSupport dprog) :
  derived_inv l -> ls_evaluator (stopDerived l) = None /\ ls_live (stopDerived l) = ∅.
Proof.
  intros [Hl _]. unfold stopDerived, swapDerivedEvaluator. simpl.
  destruct (ls_evaluator l); simpl; rewrite Hl; split; [done|set_solver|done..].
Qed.

Lemma stop_closed am : am_closed (Alerts.stop am) = true.
Proof. unfold Alerts.stop. by destruct (am_closed am) eqn:Hc. Qed.

Lemma stop_quiescent pick x :
  found x ->
  quiescent (Stop pick x).2 /\ co_status (rt_core (Stop pick x).2) = EngineStatusStopped /\
  am_closed (rt_alerts (Stop pick x).2) = true.
Proof.
  intros [Ha [Hl Hn]]. destruct (stopped_accounted x Ha) as (Ha' & Hls & Hdone).
  destruct (haltAll_halted _ Ha' Hls Hdone) as [H1 H2 H3 H4 H5 H6 H7].
  split.
  - unfold Stop, stopComponents. set (x0 := stopScheduler _). set (x1 := set_mgr _ x0).
    destruct (drainDataBusOnShutdown pick x1) as [n x2] eqn:Hdr.
    assert (Hx2 : exists bus, x2 = set_bus bus x1).
    { unfold drainDataBusOnShutdown in Hdr. destruct (rt_bus x1) as [b|] eqn:Hb; [|injection Hdr as <- <-].
      - destruct (drain _ _ _) as [[k b']|]; injection Hdr as <- <-; [by eexists|].
        exists (Some b). by destruct x1; simpl in *; subst.
      - exists None. by destruct x1; simpl in *; subst. }
    destruct Hx2 as [bus ->]. destruct (stopDerived_none _ (Build_derived_inv _ Hl Hn)) as [Hev Hlive].
    case_decide; (constructor; [by constructor|done|done|done|done|done|done|intros b; apply closed_bus]).
  - split; [done|]. apply stop_closed.
Qed.

(** ** The parts started in order *)

(** Setting up the rules changes the rules and calls the outside world. *)
Record rules_only x x' : Prop := {
  ro_mgr : exists e, mgr x' = set_env e (mgr x);
  ro_derived : co_derived (rt_core x') = co_derived (rt_core x);
  ro_status : co_status (rt_core x') = co_status (rt_core x);
  ro_discovery : rt_discovery x' = rt_discovery x;
  ro_alerts : rt_alerts x' = rt_alerts x /\ rt_replaced x' = rt_replaced x;
}.

Lemma rules_only_trans x x1 x2 : rules_only x x1 -> rules_only x1 x2 -> rules_only x x2.
Proof.
  intros [[e1 H1] H2 H3 H4 H5] [[e2 H6] H7 H8 H9 H10]. constructor; [|naive_solver congruence..].
  exists e2. by rewrite H6, H1.
Qed.

Lemma addProviders_only pcs x : rules_only x (addProviders pcs x).2.
Proof.
  revert x. induction pcs as [|pc pcs IH]; intros x.
  { simpl. constructor; [|done..]. exists (en_env (mgr x)). by destruct (mgr x). }
  assert (Hp : rules_only x (NewFileProvider pc x).2).
  { unfold NewFileProvider. case_match; simpl.
    - constructor; [|done..]. exists (en_env (mgr x)). by destruct (mgr x).
    - unfold outside, call. destruct (re_rulefile _ _) as [[rules|e] e']; simpl;
        (constructor; [by exists e'|done..]). }
  simpl. destruct (NewFileProvider pc x) as [[p|e] x1]; simpl in Hp; [|done].
  eapply rules_only_trans; [|apply IH]. destruct Hp. by constructor.
Qed.

Lemma initRules_only config x : rules_only x (initRules config x).2.
Proof.
  unfold initRules. pose proof (addProviders_only (cf_RuleProviders config) x) as Hp.
  destruct (addProviders _ x) as [[e|] x1]; [done|]. simpl in Hp.
  assert (Hr : forall y, rules_only x y -> rules_only x (match coreSetRules (cf_Rules config) (rt_core y) with
      | (Some e, c) => (Some (ErrWrap "failed to set rules: " e ""), set_core c y)
      | (None, c) => (None, set_core c y) end).2).
  { intros y Hy. unfold coreSetRules. destruct (SetRules _ _ _) as [e|e|]; simpl; destruct Hy; by constructor. }
  case_decide; [by apply Hr|]. destruct (SetSubRules _ _ _ _) as [y|e|]; [|done..].
  apply Hr. destruct Hp. by constructor.
Qed.

Lemma initRules_built config x x' :
  initRules config x = (None, x') ->
  buildRules (cf_Rules config) (coreRules (rt_core x')) = Some (coreRules (rt_core x')).
Proof.
  unfold initRules. destruct (addProviders _ x) as [[e|] x1]; [done|].
  assert (Hr : forall y, match coreSetRules (cf_Rules config) (rt_core y) with
      | (Some e, c) => (Some (ErrWrap "failed to set rules: " e ""), set_core c y)
      | (None, c) => (None, set_core c y) end = (None, x') ->
    buildRules (cf_Rules config) (coreRules (rt_core x')) = Some (coreRules (rt_core x'))).
  { intros y. unfold coreSetRules. destruct (SetRules _ _ _) as [e|e|] eqn:He; [|done..].
    intros [= <-]. unfold buildRules, coreRules. simpl. by rewrite He. }
  case_decide; [apply Hr|]. destruct (SetSubRules _ _ _ _) as [y|e|]; [|done..]. apply Hr.
Qed.

(** Starting the derived tags of an engine that has no evaluator. *)
Lemma startDerived_spec config x err x' :
  ls_evaluator (co_derived (rt_core x)) = None -> ls_live (co_derived (rt_core x)) = ∅ ->
  ls_ctx (co_derived (rt_core x)) = true ->
  startDerived config x = (err, x') ->
  exists l, x' = set_derived l x /\
  match err with
  | Some _ => ls_evaluator l = None /\ ls_live l = ∅
  | None => derived_inv l /\
      buildDerived (cf_DerivedTags config) (ls_ctx l, default [] (ls_evaluator l ≫= fun ev => ls_tags l !! ev)) =
        Some (ls_ctx l, default [] (ls_evaluator l ≫= fun ev => ls_tags l !! ev))
  end.
Proof.
  intros He Hl Hc. unfold startDerived. set (l0 := co_derived (rt_core x)) in *.
  destruct (cf_DerivedTags config) as [|c cs] eqn:Hcs.
  { intros [= <- <-]. exists l0. split; [by destruct x as [[]]|]. rewrite He, Hc. split; [|done].
    constructor; rewrite He; done. }
  rewrite <- Hcs. clear Hcs. unfold onDerived, startDerivedTags, buildEvaluator. fold l0.
  destruct (Derived.validateDerivedTags _) as [e|] eqn:Hv; [intros [= <- <-]; by exists l0|].
  destruct (newDerivedTagEvaluator _) as [tags|e|] eqn:Hn; intros [= <- <-]; eexists; (split; [done|]); [|done..].
  simpl. split.
  - constructor; simpl; [rewrite Hl; set_solver|intros ev [= <-]; lia].
  - unfold buildDerived. simpl. rewrite lookup_insert_eq, Hc. simpl. by rewrite Hv, Hn.
Qed.

(** What [Start] begins with: empty maps, nothing running, a context. *)
Record cleared x : Prop := {
  cl_drivers : dr_drivers (en_reg (mgr x)) = ∅;
  cl_transports : tm_transports (en_tm (mgr x)) = ∅;
  cl_batchers : tm_batchers (en_tm (mgr x)) = ∅;
  cl_drunning : dr_running (en_reg (mgr x)) = ∅;
  cl_watching : dr_watching (en_reg (mgr x)) = ∅;
  cl_watchers : dr_tagFileWatchers (en_reg (mgr x)) = ∅;
  cl_trunning : tm_running (en_tm (mgr x)) = ∅;
  cl_flushing : tm_flushing (en_tm (mgr x)) = ∅;
  cl_evaluator : ls_evaluator (co_derived (rt_core x)) = None;
  cl_live : ls_live (co_derived (rt_core x)) = ∅;
  cl_ctx : ls_ctx (co_derived (rt_core x)) = true;
  cl_discovery : rt_discovery x = false;
}.

Lemma cleared_accounted x : cleared x -> accounted (mgr (startScheduler x)).
Proof.
  intros []. unfold mgr in *. constructor; unfold mgr; simpl; unfold mgr; simpl.
  - rewrite cl_drunning0. intros i. set_solver.
  - intros w. rewrite cl_watching0, lookup_empty. by intros ?%is_Some_None.
  - intros n. rewrite cl_watchers0, lookup_empty. by intros ?%is_Some_None.
  - rewrite cl_trunning0. intros i. set_solver.
  - rewrite cl_flushing0. intros i. set_solver.
  - intros n. rewrite cl_batchers0, lookup_empty. by intros ?%is_Some_None.
  - eapply (sd_reachable_inv _ (mkWorld (en_env (co_mgr (rt_core x))) [] [])
      (mkWorld (en_env (co_mgr (rt_core x))) [] [])).
    apply rtc_once. constructor.
Qed.

Lemma registered_empty {C} (cfgs : gmap string C) : registered (∅ : gmap string nat) cfgs = ∅.
Proof. apply map_eq. intros n. unfold registered. by rewrite map_lookup_zip_with, !lookup_empty. Qed.

(** Where [startParts] stands when it is done or has failed. *)
Record started (config : Config) (err : option error) x' : Prop := {
  sp_accounted : accounted (mgr x');
  sp_result : match err with
    | Some _ => ls_evaluator (co_derived (rt_core x')) = None /\ ls_live (co_derived (rt_core x')) = ∅ /\
                rt_discovery x' = false
    | None => derived_inv (co_derived (rt_core x')) /\ in_sync config (rt_core x')
    end;
}.

Lemma startDiscovery_core config x : exists e,
  rt_core (startDiscovery config x) = rt_core (set_mgr (set_env e (mgr x)) x).
Proof.
  unfold startDiscovery.
  assert (Hs : rt_core x = rt_core (set_mgr (set_env (en_env (mgr x)) (mgr x)) x))
    by (by destruct x as [[[]]]).
  case_decide; [by eexists|]. case_decide; [by eexists|].
  unfold outside, call. destruct (re_discovery _ _ _) as [[e|] e']; by exists e'.
Qed.

Lemma startParts_spec config x err x' :
  cleared x -> NoDup (dc_Name <$> cf_Drivers config) -> startParts config x = (err, x') ->
  started config err x' /\ (err = None -> co_status (rt_core x') = co_status (rt_core x)).
Proof.
  intros Hcl Hnd. pose proof (cleared_accounted x Hcl) as Ha. unfold startParts.
  set (x0 := startScheduler x) in *.
  assert (Hx0 : registered (dr_drivers (en_reg (mgr x0))) (dr_driverConfigs (en_reg (mgr x0))) = ∅ /\
    registered (tm_transports (en_tm (mgr x0))) (tm_transportCfg (en_tm (mgr x0))) = ∅ /\
    dr_tagFileWatchers (en_reg (mgr x0)) = ∅ /\ ls_evaluator (co_derived (rt_core x0)) = None /\
    ls_live (co_derived (rt_core x0)) = ∅ /\ ls_ctx (co_derived (rt_core x0)) = true /\
    rt_discovery x0 = false /\ co_status (rt_core x0) = co_status (rt_core x)).
  { destruct Hcl. unfold mgr in *. unfold x0, mgr. simpl. unfold mgr. simpl. rewrite cl_drivers0, cl_transports0, !registered_empty. done. }
  clearbody x0. clear Hcl. destruct Hx0 as (Hd0 & Ht0 & Hw0 & He0 & Hl0 & Hc0 & Hdis0 & Hst0).
  (* the transports *)
  unfold onManager. pose proof (startTransports_accounted (cf_Transports config) (mgr x0) Ha) as Ha1.
  pose proof (startTransports_reg (cf_Transports config) (mgr x0)) as Hr1.
  destruct (startTransports (cf_Transports config) (mgr x0)) as [[e|] m1] eqn:Hst; simpl in Ha1, Hr1.
  { intros [= <- <-]. split; [|done]. by constructor. }
  apply startTransports_view in Hst as [_ Htv]. rewrite Ht0 in Htv. cbn [andThen].
  (* the rules *)
  match goal with |- context [initRules config ?y] => set (x1 := y) end.
  pose proof (initRules_only config x1) as [[e2 Hm2] Hder2 Hst2 Hdis2 _].
  change (mgr x1) with m1 in Hm2. change (co_derived (rt_core x1)) with (co_derived (rt_core x0)) in Hder2.
  change (co_status (rt_core x1)) with (co_status (rt_core x0)) in Hst2.
  change (rt_discovery x1) with (rt_discovery x0) in Hdis2.
  destruct (initRules config x1) as [[e|] x2] eqn:Hir; simpl in Hm2, Hder2, Hst2, Hdis2.
  { intros [= <- <-]. split; [|done]. constructor; [rewrite Hm2; by apply accounted_env|]. by rewrite Hder2, Hdis2. }
  apply initRules_built in Hir. cbn [andThen].
  (* the drivers *)
  assert (Ha2 : accounted (mgr x2)) by (rewrite Hm2; by apply accounted_env).
  pose proof (startDrivers_accounted (cf_Drivers config) (mgr x2) Hnd Ha2) as Ha3.
  assert (Hw2 : dr_tagFileWatchers (en_reg (mgr x2)) = ∅) by (rewrite Hm2; simpl; by rewrite Hr1).
  destruct (startDrivers (cf_Drivers config) (mgr x2)) as [[e|] m3] eqn:Hsd; simpl in Ha3.
  { intros [= <- <-]. split; [|done]. constructor; [apply Ha3; intros; by rewrite Hw2|].
    simpl. by rewrite Hder2, Hdis2. }
  apply startDrivers_view in Hsd as [Htm3 Hdv]. cbn [andThen].
  specialize (Ha3 (fun c _ => ltac:(by rewrite Hw2))).
  (* the derived tags *)
  match goal with |- context [startDerived config ?y] => set (x3 := y) end.
  destruct (startDerived config x3) as [err4 x4] eqn:Hsdv.
  apply startDerived_spec in Hsdv as (l & -> & Hl); try (simpl; by rewrite Hder2).
  destruct err4 as [e|]; cbn [andThen]; intros [= <- <-].
  { split; [|done]. constructor; [done|]. destruct Hl as [Hl1 Hl2]. simpl. by rewrite Hdis2. }
  destruct Hl as [Hdi Hbd]. destruct (startDiscovery_core config (set_derived l x3)) as [e5 Hcore].
  split; [|intros _; by rewrite Hcore; simpl; rewrite Hst2].
  constructor; unfold mgr; rewrite Hcore; [by apply accounted_env|]. split; [done|].
  constructor; simpl; [| |done|done].
  - unfold coreDrivers, mgr. simpl. rewrite Hdv, Hm2. simpl. by rewrite Hr1, Hd0.
  - unfold coreTransports, mgr. simpl. by rewrite Htm3, Hm2.
Qed.

Lemma retuned_cleared x x' : retuned x x' -> cleared x -> cleared x'.
Proof. intros (t & e & o & d & sh & ->) []. by constructor. Qed.

Lemma retuned_quiescent x x' : retuned x x' -> quiescent x -> quiescent x'.
Proof. intros (t & e & o & d & sh & ->) [[]]. constructor; try done; by constructor. Qed.

Lemma retuned_status x x' : retuned x x' -> co_status (rt_core x') = co_status (rt_core x).
Proof. by intros (t & e & o & d & sh & ->). Qed.

Lemma begin_cleared x : quiescent x -> cleared (beginStart x).
Proof. intros [[]]. by constructor. Qed.

Lemma begin_quiescent x : quiescent x -> quiescent (beginStart x).
Proof. intros [[]]. constructor; try done; by constructor. Qed.

Lemma Start_spec config x err config' x' :
  quiescent x -> NoDup (dc_Name <$> cf_Drivers config) -> Start config x = (err, config', x') ->
  match err with
  | None => config' = autoFillNodeConfig config /\ found x' /\ in_sync config' (rt_core x') /\
      co_status (rt_core x') = EngineStatusRunning
  | Some e => quiescent x' /\
      (co_status (rt_core x') = EngineStatusStopped \/
       (applyEngineConfig (gl_Engine (cf_Global config)) (beginStart x)).1 = Some e)
  end.
Proof.
  intros Hq Hnd. unfold Start.
  pose proof (retuned_config (gl_Engine (cf_Global config)) (beginStart x)) as Hr.
  destruct (applyEngineConfig _ _) as [[e|] x1]; simpl in Hr; intros Hs.
  { injection Hs as <- <- <-. split; [|by right].
    eapply retuned_quiescent; [|by apply begin_quiescent]. eapply retuned_trans; [done|apply retuned_registries]. }
  match type of Hs with context [startParts ?c ?y] => set (x2 := y) in *; set (cfg := c) in * end.
  assert (Hr2 : retuned (beginStart x) x2).
  { eapply retuned_trans; [|apply retuned_offline]. eapply retuned_trans; [|apply retuned_tuning].
    eapply retuned_trans; [done|apply retuned_registries]. }
  assert (Hnd' : NoDup (dc_Name <$> cf_Drivers cfg)).
  { unfold cfg, autoFillNodeConfig. by case_decide. }
  destruct (startParts cfg x2) as [err' x3] eqn:Hp.
  apply startParts_spec in Hp as [[Ha Hres] Hst]; [|eapply retuned_cleared; [done|by apply begin_cleared]|done].
  destruct err' as [e|]; injection Hs as <- <- <-.
  - destruct Hres as (Hev & Hlive & Hdis). destruct (rollback_quiescent x3 Ha Hev Hlive Hdis) as [? ?].
    split; [done|by left].
  - destruct Hres as [Hdi Hsync]. split_and!; try done. rewrite Hst by done. by rewrite (retuned_status _ _ Hr2).
Qed.

(** ** While it runs *)

(** What may happen between [Start] and [Stop]: drivers are added (under new
    names), removed and reloaded from their tags file, transports added, replaced
    and removed, rules and derived tags replaced, the engine suspended and
    resumed; the scheduler's own steps; points, alerts and time go by. *)
Inductive rt_step : runtime -> runtime -> Prop :=
| rs_add_driver x config :
    dr_drivers (en_reg (mgr x)) !! dc_Name config = None -> rt_step x (onManager (AddDriver config) x).2
| rs_remove_driver x name : rt_step x (onManager (RemoveDriver name) x).2
| rs_watcher x w : rt_step x (onManager (checkAndReload w) x).2
| rs_add_transport x config : rt_step x (onManager (AddTransport config) x).2
| rs_remove_transport x name : rt_step x (onManager (RemoveTransport name) x).2
| rs_rules x rules : rt_step x (set_core (coreSetRules rules (rt_core x)).2 x)
| rs_derived x configs : rt_step x (onDerived (applyDerivedTags configs) x).2
| rs_suspend x : rt_step x (set_core (coreSuspend (rt_core x)).2 x)
| rs_resume x : rt_step x (set_core (coreResume (rt_core x)).2 x)
| rs_scheduler x s w w' :
    sd_step (en_sched (mgr x), w) (s, w') -> rt_step x (set_mgr (set_sched s (mgr x)) x)
| rs_cache x c : rt_step x (set_mgr (set_cache c (mgr x)) x)
| rs_pacer x p : rt_step x (set_mgr (set_pacer p (mgr x)) x)
| rs_env x e : rt_step x (set_mgr (set_env e (mgr x)) x)
| rs_bus x b : rt_step x (set_bus (Some b) x)
| rs_alerts x a : rt_step x (set_alerts a (rt_sweeping x) x).

Lemma found_mgr (f : Manager.engine E -> option error * Manager.engine E) x :
  (accounted (mgr x) -> accounted (f (mgr x)).2) -> found x -> found (onManager f x).2.
Proof.
  intros Hf [Ha Hl]. unfold onManager. specialize (Hf Ha). destruct (f (mgr x)) as [e m]. by constructor.
Qed.

Lemma rt_step_found x x' : rt_step x x' -> found x -> found x'.
Proof.
  destruct 1 as [x config Hn|x name|x w|x config|x name|x rules|x configs|x|x|x s w w' Hs|x c|x p|x e|x b|x a];
    intros Hx.
  - apply found_mgr; [|done]. intros Ha. apply AddDriver_accounted; [done|].
    apply eq_None_not_Some. intros Hw%(ac_wdom _ Ha). rewrite Hn in Hw. by apply is_Some_None in Hw.
  - apply found_mgr; [|done]. apply RemoveDriver_accounted.
  - apply found_mgr; [|done]. apply checkAndReload_accounted.
  - apply found_mgr; [|done]. apply AddTransport_accounted.
  - apply found_mgr; [|done]. apply RemoveTransport_accounted.
  - destruct Hx. unfold coreSetRules. destruct (SetRules _ _ _); by constructor.
  - destruct Hx as [Ha Hl]. unfold onDerived.
    pose proof (derived_swap configs (co_derived (rt_core x))) as Hd.
    destruct (applyDerivedTags configs _) as [err l]. constructor; [done|]. by eapply Hd.
  - destruct Hx as [[] ?]. constructor; [|done]. by constructor.
  - destruct Hx as [[] ?]. constructor; [|done]. by constructor.
  - destruct Hx as [[] ?]. constructor; [|done]. constructor; try done. by apply (sd_step_inv _ _ Hs).
  - destruct Hx as [[] ?]. constructor; [|done]. by constructor.
  - destruct Hx as [[] ?]. constructor; [|done]. by constructor.
  - destruct Hx as [[] ?]. constructor; [|done]. by constructor.
  - by destruct Hx.
  - by destruct Hx.
Qed.

(** C6.  [Start] on an engine of which nothing runs is all or nothing, for
    configurations whose drivers have distinct names.  If it succeeds, the engine
    is running, and it runs exactly the drivers, transports, rules and derived
    tags of the configuration as [autoFillNodeConfig] completed it -- the
    state from which updates of the configuration are atomic.  If any part fails
    to start, nothing runs any more -- no instance, listener, batcher, watcher,
    task, rule provider, evaluator, worker, sweep or discovery -- and the engine
    is stopped, unless the settings of the engine were rejected first. *)
Theorem start_all_or_nothing config x err config' x' :
  quiescent x -> NoDup (dc_Name <$> cf_Drivers config) -> Start config x = (err, config', x') ->
  match err with
  | None => config' = autoFillNodeConfig config /\ in_sync config' (rt_core x') /\
      co_status (rt_core x') = EngineStatusRunning
  | Some e => quiescent x' /\
      (co_status (rt_core x') = EngineStatusStopped \/
       (applyEngineConfig (gl_Engine (cf_Global config)) (beginStart x)).1 = Some e)
  end.
Proof. intros Hq Hnd Hs. pose proof (Start_spec _ _ _ _ _ Hq Hnd Hs) as H1. destruct err; naive_solver. Qed.

(** The points [Stop] finds queued on an open bus are counted as errors. *)
Lemma Stop_counts pick x b :
  rt_bus x = Some b -> ch_closed (b_ch b) = false -> ch_closed (b_highPriCh b) = false ->
  Z.of_nat (queued b) < 2 ^ 64 ->
  u64 (rt_totalErrors (Stop pick x).2) = u64 (rt_totalErrors x + Z.of_nat (queued b)).
Proof.
  intros Hb Hc Hh Hlt. unfold Stop, stopComponents, drainDataBusOnShutdown. cbn -[drain drainFuel Z.pow].
  rewrite Hb. destruct (drain_open pick (drainFuel b) b Hc Hh) as (c & hp & -> & _); [unfold drainFuel, queued; lia|].
  rewrite (wrapu_small 64 (Z.of_nat (queued b))) by lia. case_decide as Hd; cbn -[Z.pow].
  - by rewrite wrapu_idem.
  - f_equal. lia.
Qed.


End StartStop.

(** ** The node's configuration *)

Lemma setDefault_lookup key v m k :
  setDefault key v m !! k = match m !! k with Some u => Some u | None => if decide (k = key) then Some v else None end.
Proof.
  unfold setDefault. destruct (m !! key) as [u|] eqn:Hu.
  - case_decide; [subst; by rewrite Hu|]. by destruct (m !! k).
  - destruct (decide (k = key)) as [->|Hne]; [by rewrite lookup_insert_eq, Hu|].
    rewrite lookup_insert_ne by done. by destruct (m !! k).
Qed.

Lemma autoFillTransport_keeps prefix id tc k v :
  tp_Settings tc !! k = Some v -> tp_Settings (autoFillTransport prefix id tc) !! k = Some v.
Proof.
  intros Hk. unfold autoFillTransport. case_decide; [|done]. simpl.
  assert (Hs : forall key u m, m !! k = Some v -> setDefault key u m !! k = Some v).
  { intros key u m Hm. by rewrite setDefault_lookup, Hm. }
  case_match; auto.
Qed.

Lemma autoFillTransport_topics prefix id tc :
  tp_Type tc = "mqtt"%string ->
  is_Some (tp_Settings (autoFillTransport prefix id tc) !! "topic-template"%string) /\
  is_Some (tp_Settings (autoFillTransport prefix id tc) !! "command-topic"%string).
Proof.
  intros Ht. unfold autoFillTransport. rewrite decide_True by done. simpl.
  case_match; rewrite !setDefault_lookup; simpl;
    split; repeat (case_match; simplify_eq; try by eexists).
Qed.

Lemma setDefault_present key v m : is_Some (m !! key) -> setDefault key v m = m.
Proof. intros [u Hu]. unfold setDefault. by rewrite Hu. Qed.

Lemma setDefault_set key v m : is_Some (setDefault key v m !! key).
Proof. rewrite setDefault_lookup, decide_True by done. by destruct (m !! key); eexists. Qed.

Lemma autoFillTransport_idem prefix id tc :
  autoFillTransport prefix id (autoFillTransport prefix id tc) = autoFillTransport prefix id tc.
Proof.
  destruct (decide (tp_Type tc = "mqtt"%string)) as [Ht|Ht].
  2:{ unfold autoFillTransport. by rewrite !(decide_False (P := tp_Type tc = _)). }
  destruct (autoFillTransport_topics prefix id tc Ht) as [H1 H2].
  set (tc' := autoFillTransport prefix id tc) in *.
  assert (Ht' : tp_Type tc' = "mqtt"%string) by (unfold tc', autoFillTransport; by rewrite decide_True).
  unfold autoFillTransport at 1. rewrite decide_True by done.
  rewrite !(setDefault_present "topic-template"), !(setDefault_present "command-topic") by done.
  destruct (tp_Settings tc' !! "data-topic"%string) eqn:Hd; [|by destruct tc'].
  rewrite setDefault_present; [by destruct tc'|].
  unfold tc', autoFillTransport in Hd |- *. rewrite decide_True in Hd |- * by done. simpl in Hd |- *.
  case_match eqn:Hm; [apply setDefault_set|]. by rewrite Hm in Hd.
Qed.

(** The automatic configuration of a node: what the operator wrote
    stays -- every setting of every transport, the rules when there are any, all
    the rest; on a node with an id every MQTT transport then has a topic template
    and a command topic, and there is a rule when there is a transport; filling in
    twice is filling in once. *)
Theorem autofill_explicit config :
  let config' := autoFillNodeConfig config in
  length (cf_Transports config') = length (cf_Transports config) /\
  (forall i tc tc', cf_Transports config !! i = Some tc -> cf_Transports config' !! i = Some tc' ->
     tp_Name tc' = tp_Name tc /\ tp_Type tc' = tp_Type tc /\ tp_Settings tc ⊆ tp_Settings tc' /\
     (nd_ID (cf_Node config) <> EmptyString -> tp_Type tc = "mqtt"%string ->
      is_Some (tp_Settings tc' !! "topic-template"%string) /\
      is_Some (tp_Settings tc' !! "command-topic"%string))) /\
  (cf_Rules config <> [] -> cf_Rules config' = cf_Rules config) /\
  (nd_ID (cf_Node config) <> EmptyString -> cf_Transports config <> [] -> cf_Rules config' <> []) /\
  cf_Drivers config' = cf_Drivers config /\ cf_DerivedTags config' = cf_DerivedTags config /\
  cf_RuleProviders config' = cf_RuleProviders config /\ cf_RuleGroups config' = cf_RuleGroups config /\
  autoFillNodeConfig config' = config'.
Proof.
  simpl. unfold autoFillNodeConfig at 1 2 3 4 5 6 7 8 10. case_decide as Hid.
  { unfold autoFillNodeConfig. rewrite decide_True by done. split_and!; try done; try (intros; simplify_eq; done). }
  set (prefix := if decide _ then _ else _). simpl. split_and!; try done.
  - apply length_fmap.
  - intros i tc tc' Htc Htc'. rewrite list_lookup_fmap, Htc in Htc'. injection Htc' as <-.
    split_and!; [unfold autoFillTransport; by case_decide..| |by intros; apply autoFillTransport_topics].
    apply map_subseteq_spec. intros k v. apply autoFillTransport_keeps.
  - by destruct (cf_Rules config).
  - intros _ Ht. destruct (cf_Rules config); [|done]. by destruct (cf_Transports config).
  - unfold autoFillNodeConfig. simpl. rewrite !(decide_False (P := nd_ID _ = _)) by done. simpl. fold prefix. f_equal.
    + rewrite <- list_fmap_compose. apply list_fmap_ext. intros. apply autoFillTransport_idem.
    + destruct (cf_Rules config); [|done]. by destruct (cf_Transports config).
Qed.

(** ** Two gaps *)

Section Gaps.
Context {E : Type} `{!SchedEnv E} `{!ManagerEnv E} `{!GoArch} `{!RuntimeEnv E}.
Context {prog : Type} `{!ExprLib prog} {dprog : Type} `{!DerivedExpr dprog}.
Context `{!DeepEqual DriverConfig, !DeepEqual TransportConfig, !DeepEqual (list RuleConfig),
  !DeepEqual (list DerivedTagConfig)}.
Notation runtime := (runtime E prog dprog).
Implicit Types x : runtime.

(** When the settings of the engine are rejected, [Start] returns before the
    rollback is armed: the engine, of which nothing runs, reports that it is
    running, and its context stays alive. *)
Theorem rejected_settings_report_running config x e config' x' :
  (applyEngineConfig (gl_Engine (cf_Global config)) (beginStart x)).1 = Some e ->
  Start config x = (Some e, config', x') ->
  co_status (rt_core x') = EngineStatusRunning /\ en_ctx (mgr x') = true.
Proof.
  intros Ha. unfold Start. pose proof (retuned_config (gl_Engine (cf_Global config)) (beginStart x)) as Hr.
  destruct (applyEngineConfig _ _) as [oe x1]. simpl in Ha, Hr. subst oe. intros [= <- <-].
  destruct (retuned_trans _ _ _ Hr (retuned_registries x1)) as (t & e' & o & d & s & ->). done.
Qed.

(** The automatic rule is one rule of the engine. *)
Lemma autoForward_set target pv subs :
  exists e : RuleEngine.Engine prog, SetRules [autoForward target] pv subs = Ok e /\ stat (e_rules e) <> [].
Proof.
  eexists. split; [reflexivity|]. unfold engine_of.
  destruct (build_index _ _ _ _). simpl. discriminate.
Qed.

(** What [autoFillNodeConfig] adds does not survive a reload of the same file:
    the update goes to the configuration as written, so the rule that forwards
    everything is gone, and so are the topics of the transports. *)
Theorem reload_drops_autofill ord raw force (ex ex' : executor (coreEngine E prog dprog)) g :
  nd_ID (cf_Node raw) <> EmptyString -> cf_Rules raw = [] -> cf_Transports raw <> [] ->
  ex_engine ex = Some g -> ex_current ex = Some (autoFillNodeConfig raw) ->
  in_sync (autoFillNodeConfig raw) g -> orders_ok ord (autoFillNodeConfig raw) raw ->
  reversible (G := coreEngine E prog dprog) (autoFillNodeConfig raw) ->
  ApplyConfig ord raw force ex = (None, ex') ->
  (coreRules g).1.1 <> [] /\
  exists g', ex_engine ex' = Some g' /\ (coreRules g').1.1 = [] /\
    coreTransports g' = byName tp_Name (cf_Transports raw).
Proof.
  intros Hid Hr Ht Hg Hcur Hsync Hord Hrev Ha. split.
  - pose proof (sy_rules _ _ Hsync) as Hrules. change (rules_of g) with (coreRules g) in Hrules.
    destruct (coreRules g) as [[st pv] subs]. cbn [fst].
    assert (Hauto : exists target, cf_Rules (autoFillNodeConfig raw) = [autoForward target]).
    { unfold autoFillNodeConfig. rewrite decide_False by done. simpl. rewrite Hr.
      destruct (cf_Transports raw) as [|tc tcs]; [done|]. by eexists. }
    destruct Hauto as [target Hauto]. rewrite Hauto in Hrules.
    destruct (autoForward_set target pv subs) as (e & He & Hne).
    change (buildRules [autoForward target] (st, pv, subs) = Some (st, pv, subs)) in Hrules.
    unfold buildRules in Hrules. rewrite He in Hrules. congruence.
  - assert (Hd : default Config_zero (ex_current ex) = autoFillNodeConfig raw) by (by rewrite Hcur).
    destruct (ApplyConfig_spec ord raw force ex ex' g None Hg) as (g' & Hg' & Hs' & _); try (by rewrite Hd); [done|].
    exists g'. split; [done|]. split; [|apply (sy_transports _ _ Hs')].
    pose proof (sy_rules _ _ Hs') as Hrules. change (rules_of g') with (coreRules g') in Hrules.
    destruct (coreRules g') as [[st pv] subs]. simpl in Hrules |- *. rewrite Hr in Hrules. simpl in Hrules.
    congruence.
Qed.

End Gaps.

(** ** A concrete engine *)

Module Demo.

Lemma values_all (m : gmap string nat) id : id ∈ (map_to_list m).*2 <-> exists n, m !! n = Some id.
Proof.
  rewrite list_elem_of_fmap. split.
  - intros ([n i] & -> & Hin%elem_of_map_to_list). by exists n.
  - intros [n Hn]. exists (n, id). by rewrite elem_of_map_to_list.
Qed.

(** Everything outside works; no rule file exists. *)
#[global] Instance runtime_env : RuntimeEnv Z := {|
  re_deadLetter := fun _ e => (None, e);
  re_audit := fun _ e => (None, e);
  re_offline := fun _ _ e => (None, e);
  re_rulefile := fun _ e => (inr (ErrFmt "no such file"), e);
  re_discovery := fun _ _ e => (None, e);
  re_groups := fun groups => (map_to_list groups).*1;
  re_groups2 := fun groups => (map_to_list groups).*1;
  re_values := fun m => (map_to_list m).*2;
  re_values_all := values_all;
|}.

Definition tuned : tuning := mkTuning 0 1 0 0 badQualityPublish second second second second 3 16 0.

(** An engine as [New] makes it. *)
Definition new : runtime Z string string :=
  mkRuntime (mkCore (mkEngine 0 emptyRegistry (emptyTransports false) (NewScheduler 0) NewLatestCache ∅
               second (30 * second) false 0)
               (mkSystem (engine_of []) ∅ ∅ ∅) (mkDS false None ∅ ∅ 0) EngineStatusStopped)
    tuned None 0 (newAlertManager 0) false [] false 0.

Definition driver (name type : string) : DriverConfig := mkDriverConfig name type ∅ Scheduler.Demo.tags "" "".
Definition mqtt : TransportConfig :=
  mkTransportConfig "out" "mqtt" {[ "broker"%string := VString "tcp://h:1883" ]} 10 "1s" 3 0 "".
Definition config (type : string) : Config :=
  mkConfig (mkNodeConfig "edge" "" [] "") GlobalConfig_zero [driver "a" "modbus"; driver "b" type] [mqtt] [] [] ∅ [].

Definition start (type : string) := Start (H := amd64_f2i) (config type) new.

Lemma new_quiescent : quiescent new.
Proof. constructor; try done; by constructor. Qed.

Lemma config_names type : NoDup (dc_Name <$> cf_Drivers (config type)).
Proof. apply (bool_decide_unpack _). reflexivity. Qed.

End Demo.

Lemma start_all_or_nothing_witness :
  (exists e, (Demo.start "broken").1.1 = Some e) /\ quiescent (Demo.start "broken").2 /\
  (Demo.start "s7").1.1 = None /\ co_status (rt_core (Demo.start "s7").2) = EngineStatusRunning.
Proof.
  assert (He : exists e, (Demo.start "broken").1.1 = Some e) by (eexists; vm_compute; reflexivity).
  assert (Hok : (Demo.start "s7").1.1 = None) by (vm_compute; reflexivity).
  split; [exact He|]. split; [|split; [exact Hok|]].
  - destruct He as [e He].
    pose proof (start_all_or_nothing (H := amd64_f2i) (Demo.config "broken") Demo.new (Some e)
      (Demo.start "broken").1.2 (Demo.start "broken").2 Demo.new_quiescent (Demo.config_names _)) as Hw.
    apply Hw. rewrite <- He. unfold Demo.start. by destruct (Start _ _) as [[? ?] ?].
  - pose proof (start_all_or_nothing (H := amd64_f2i) (Demo.config "s7") Demo.new None
      (Demo.start "s7").1.2 (Demo.start "s7").2 Demo.new_quiescent (Demo.config_names _)) as Hw.
    apply Hw. rewrite <- Hok. unfold Demo.start. by destruct (Start _ _) as [[? ?] ?].
Defined.

