(* ===== verification/Control.v ===== *)
(** * Managing the configuration of a running engine ([hub/executor/executor.go],
    [hub/executor/audit.go], [hub/executor/errors.go],
    [hub/executor/backups.go], [config/config.go])

    The operations of the management interface: reloading a configuration from a
    file or a payload, patching settings, removing one component by name and
    restoring a backup, with the audit trail and the file on disk. *)

From Stdlib Require Import ZArith Lia String.
From stdpp Require Import base list gmap strings.
From S2P Require Import Prelude GoFloat GoTime Types Util RuleEngine Config Manager Derived Validate.
From S2P Require Import ConfigPath Backups Executor Engine.

Open Scope Z_scope.

(** ** Parsing *)

(** Decoding ([expandEnvVars] and the strict YAML decoder) and encoding a
    configuration; reading a tags file, with the step that failed; the working
    directory. *)
Class ControlEnv := {
  ce_decode : string -> Config + error;
  ce_encode : Config -> string + error;
  ce_tags : string -> list TagConfig + string * error;
  ce_cwd : string;
}.

Section Parse.
Context `{!ControlEnv}.

(** [loadTagsFiles]: the tags of the file come first. *)
Fixpoint loadTags (ds : list DriverConfig) : list DriverConfig + error :=
  match ds with
  | [] => inl []
  | dc :: rest =>
    let loaded :=
      if decide (dc_TagsFile dc = EmptyString) then inl dc
      else match ce_tags (dc_TagsFile dc) with
           | inr (step, e) =>
             inr (ErrWrap ("driver " +:+ dc_Name dc +:+ ": failed to " +:+ step +:+ " tags file "
                           +:+ dc_TagsFile dc +:+ ": ") e "")
           | inl fileTags =>
             inl (mkDriverConfig (dc_Name dc) (dc_Type dc) (dc_Settings dc) (fileTags ++ dc_Tags dc)
                    (dc_TagsFile dc) (dc_TagsInterval dc))
           end in
    match loaded with
    | inr e => inr e
    | inl dc => match loadTags rest with inr e => inr e | inl ds => inl (dc :: ds) end
    end
  end.

Definition withDrivers (ds : list DriverConfig) (cfg : Config) : Config :=
  mkConfig (cf_Node cfg) (cf_Global cfg) ds (cf_Transports cfg) (cf_Rules cfg)
    (cf_RuleProviders cfg) (cf_RuleGroups cfg) (cf_DerivedTags cfg).
Definition withTransports (ts : list TransportConfig) (cfg : Config) : Config :=
  mkConfig (cf_Node cfg) (cf_Global cfg) (cf_Drivers cfg) ts (cf_Rules cfg)
    (cf_RuleProviders cfg) (cf_RuleGroups cfg) (cf_DerivedTags cfg).
Definition withRules (rs : list RuleConfig) (cfg : Config) : Config :=
  mkConfig (cf_Node cfg) (cf_Global cfg) (cf_Drivers cfg) (cf_Transports cfg) rs
    (cf_RuleProviders cfg) (cf_RuleGroups cfg) (cf_DerivedTags cfg).
Definition withGlobal (gl : GlobalConfig) (cfg : Config) : Config :=
  mkConfig (cf_Node cfg) gl (cf_Drivers cfg) (cf_Transports cfg) (cf_Rules cfg)
    (cf_RuleProviders cfg) (cf_RuleGroups cfg) (cf_DerivedTags cfg).

Definition ParseNoValidate (data : string) : Config + error :=
  match ce_decode data with
  | inr e => inr e
  | inl cfg =>
    match loadTags (cf_Drivers cfg) with
    | inr e => inr e
    | inl ds => inl (withDrivers ds cfg)
    end
  end.

Definition LoadNoValidate `{!OS} (path : string) (d : disk) : Config + error :=
  let failed e := inr (ErrWrap ("failed to read config file " +:+ path +:+ ": ") e "") in
  match os_read path with
  | Some e => failed e
  | None =>
    match dk_files d !! path with
    | None => failed (ErrFmt ("open " +:+ path +:+ ": no such file or directory"))
    | Some data => ParseNoValidate data
    end
  end.

End Parse.

(** ** The audit trail *)

Definition configAuditCap : nat := 500.

Definition recordConfigAudit (entry : ConfigAuditEntry) (l : list ConfigAuditEntry) : list ConfigAuditEntry :=
  let l := l ++ [entry] in
  if decide (configAuditCap < length l)%nat then drop (length l - configAuditCap) l else l.

(** Newest first. *)
Definition ConfigAuditHistory (l : list ConfigAuditEntry) : list ConfigAuditEntry := reverse l.

Definition reloadChangeKeys (path payload : string) : list string :=
  if decide (payload <> EmptyString) then ["payload"%string]
  else if decide (path <> EmptyString) then ["path:" +:+ path] else ["active-file"%string].

(** ** The operations *)

(** [ConfigError]s are the caller's to fix. *)
Inductive failure := ConfigError (e : error) | OtherError (e : error).

Definition ErrResourceNotFound : error := ErrNew "resource not found".

Inductive resourceErr := ResourceErrNotFound | ResourceErrConfig | ResourceErrInternal.

Definition failure_error (f : failure) : error := match f with ConfigError e | OtherError e => e end.

Definition classifyResourceError (f : failure) : resourceErr :=
  if errors_Is (failure_error f) ErrResourceNotFound then ResourceErrNotFound
  else match f with ConfigError _ => ResourceErrConfig | OtherError _ => ResourceErrInternal end.

(** The executor with the disk and the engine's staleness threshold. *)
Record control (G : Type) := mkControl {
  cn_exec : executor G;
  cn_disk : disk;
  cn_stale : Z;
}.
Arguments mkControl {G} _ _ _.
Arguments cn_exec {G} _.
Arguments cn_disk {G} _.
Arguments cn_stale {G} _.

Section Setters.
Context {G : Type}.
Implicit Types x : control G.

Definition set_exec (e : executor G) x : control G := mkControl e (cn_disk x) (cn_stale x).
Definition set_disk (d : disk) x : control G := mkControl (cn_exec x) d (cn_stale x).
Definition set_stale (s : Z) x : control G := mkControl (cn_exec x) (cn_disk x) s.
Definition set_current (c : option Config) x : control G :=
  let e := cn_exec x in
  set_exec (mkExecutor (ex_engine e) c (ex_path e) (ex_level e) (ex_format e) (ex_audit e)) x.
Definition set_path (p : string) x : control G :=
  let e := cn_exec x in
  set_exec (mkExecutor (ex_engine e) (ex_current e) p (ex_level e) (ex_format e) (ex_audit e)) x.
Definition set_log (level : Z) (format : string) x : control G :=
  let e := cn_exec x in
  set_exec (mkExecutor (ex_engine e) (ex_current e) (ex_path e) level format (ex_audit e)) x.
Definition audit (entry : ConfigAuditEntry) x : control G :=
  let e := cn_exec x in
  set_exec (mkExecutor (ex_engine e) (ex_current e) (ex_path e) (ex_level e) (ex_format e)
              (recordConfigAudit entry (ex_audit e))) x.
Definition map_current (f : Config -> Config) x : control G := set_current (f <$> ex_current (cn_exec x)) x.

End Setters.

Section Operations.
Context {G RO DO : Type} `{!EngineAPI G RO DO}.
Context `{!DeepEqual DriverConfig} `{!DeepEqual TransportConfig}.
Context `{!DeepEqual (list RuleConfig)} `{!DeepEqual (list DerivedTagConfig)}.
Context `{!Registry} `{!GoArch} `{!OS} `{!ControlEnv}.
Implicit Types x : control G.

(** [Init]. *)
Definition Init (g : G) (cfg : option Config) (path : string) x : control G :=
  let e := cn_exec x in
  set_exec (mkExecutor (Some g) cfg path (ex_level e) (ex_format e) (ex_audit e)) x.

Definition CurrentConfig x : option Config := ex_current (cn_exec x).

(** [Validate]: a dry run. *)
Definition Validate (payload : string) : list warning + error :=
  if decide (payload = EmptyString) then inr (ErrFmt "empty config payload")
  else
    match ParseNoValidate payload with
    | inr e => inr e
    | inl cfg =>
      match validate cfg with
      | Some e => inr (ErrWrap "config validation failed: " e "")
      | None => inl (IdleWarnings cfg)
      end
    end.

Definition RawConfigYAML x : string + error :=
  match ex_current (cn_exec x) with
  | None => inr (ErrFmt "no active configuration")
  | Some cfg =>
    match ce_encode cfg with
    | inr e => inr (ErrWrap "failed to marshal config: " e "")
    | inl data => inl data
    end
  end.

(** The first part of [ReloadWithOrigin]: the configuration to apply. *)
Definition loadForReload (path payload : string) x : (Config + failure) * control G :=
  let parsed (r : Config + error) :=
    match r with
    | inl cfg => inl cfg
    | inr e => inr (ConfigError (ErrWrap "failed to parse config for reload: " e ""))
    end in
  if decide (payload <> EmptyString) then (parsed (ParseNoValidate payload), x)
  else
    let base := ex_path (cn_exec x) in
    let target := if decide (path = EmptyString) then inl base
                  else resolveConfigPath ce_cwd base path in
    match target with
    | inr e => (inr (ConfigError (ErrWrap "invalid config path: " e "")), x)
    | inl target =>
      if decide (target = EmptyString) then (inr (ConfigError (ErrFmt "no config path specified")), x)
      else
        match LoadNoValidate target (cn_disk x) with
        | inl cfg => (inl cfg, if decide (path <> EmptyString) then set_path target x else x)
        | inr e => (parsed (inr e), x)
        end
    end.

(** Writing an accepted payload back to the configuration file. *)
Definition persist (payload : string) (now : Z) x : control G :=
  let p := ex_path (cn_exec x) in
  if decide (payload <> EmptyString /\ p <> EmptyString) then
    let x := set_disk (snapshotExistingConfig p p now (cn_disk x)) x in
    match os_write p with
    | Some _ => x
    | None => set_disk (mkDisk (<[p := payload]> (dk_files (cn_disk x))) (dk_dirs (cn_disk x))) x
    end
  else x.

Definition ReloadWithOrigin (ord : orders) (path payload remote : string) (now : Z) x
  : option failure * control G :=
  match loadForReload path payload x with
  | (inr f, x) => (Some f, x)
  | (inl cfg, x) =>
    match validate cfg with
    | Some e => (Some (ConfigError (ErrWrap "config validation failed: " e "")), x)
    | None =>
      match ApplyConfig ord cfg false (cn_exec x) with
      | (Some e, ex) => (Some (OtherError e), set_exec ex x)
      | (None, ex) =>
        let x := audit (mkAuditEntry now "reload" remote (reloadChangeKeys path payload) "") (set_exec ex x) in
        (None, persist payload now x)
      end
    end
  end.

Definition Reload (ord : orders) (path payload : string) (now : Z) x : option failure * control G :=
  ReloadWithOrigin ord path payload "" now x.

Definition RestoreConfigBackup (ord : orders) (name : string) (now : Z) x : option failure * control G :=
  match GetConfigBackup (ex_path (cn_exec x)) name (cn_disk x) with
  | inr e => (Some (OtherError e), x)
  | inl content =>
    match Validate content with
    | inr e => (Some (OtherError (ErrWrap "" ErrBackupInvalid (": " +:+ error_text e))), x)
    | inl _ => Reload ord "" content now x
    end
  end.

(** *** Patching settings *)

Definition supportedPatchKeys : list string := ["log-format"; "log-level"; "stale-threshold"]%string.

(** [rejectUnknownPatchKeys]; [order] is the iteration order of the patch. *)
Definition rejectUnknownPatchKeys (order : list string) : option error :=
  let unknown := filter (fun k => k ∉ supportedPatchKeys) order in
  match unknown with
  | [] => None
  | _ => Some (ErrFmt ("unsupported patch key(s): [" +:+ join " " unknown +:+ "] (supported: " +:+
                       join ", " supportedPatchKeys +:+ ")"))
  end.

Definition patchAudit (now : Z) (remote key : string) : ConfigAuditEntry :=
  mkAuditEntry now "patch" remote [key] "".

Definition set_LogFormat (s : string) (cfg : Config) : Config :=
  let gl := cf_Global cfg in
  withGlobal (mkGlobalConfig (gl_LogLevel gl) s (gl_API gl) (gl_Engine gl) (gl_Buffer gl)) cfg.
Definition set_LogLevel (s : string) (cfg : Config) : Config :=
  let gl := cf_Global cfg in
  withGlobal (mkGlobalConfig s (gl_LogFormat gl) (gl_API gl) (gl_Engine gl) (gl_Buffer gl)) cfg.
Definition set_StaleThreshold (s : string) (cfg : Config) : Config :=
  let gl := cf_Global cfg in
  let e := gl_Engine gl in
  withGlobal (mkGlobalConfig (gl_LogLevel gl) (gl_LogFormat gl) (gl_API gl)
    (mkEngineConfig (ec_DataBusSize e) (ec_Workers e) (ec_ShutdownTimeout e) (ec_ErrorThrottleWindow e)
       (ec_DefaultTagInterval e) (ec_OnBadQuality e) s (ec_WriteRetryCount e) (ec_CommandConcurrency e)
       (ec_HighPriorityWorkers e) (ec_DeadLetterPath e) (ec_WriteMinInterval e) (ec_WriteAuditPath e)
       (ec_AlertActiveWindow e)) (gl_Buffer gl)) cfg.

Definition applyPatchLogFormat (raw : Value) (remote : string) (now : Z) x : option error * control G :=
  match raw with
  | VString format =>
    if decide (format ∉ [""; "text"; "json"]%string) then
      (Some (ErrFmt ("invalid log-format " +:+ quote format +:+ " (valid: text, json)")), x)
    else if decide (format = EmptyString) then (None, x)
    else
      let x := set_log (ex_level (cn_exec x)) format x in
      (None, audit (patchAudit now remote "log-format") (map_current (set_LogFormat format) x))
  | _ => (Some (ErrFmt ("log-format must be a string, got " +:+ typeName raw)), x)
  end.

(** [SetStaleThreshold] of the engine. *)
Definition SetStaleThreshold (d : Z) x : control G := set_stale (if decide (d <= 0) then 0 else d) x.

Definition applyPatchStaleThreshold (raw : Value) (remote : string) (now : Z) x
  : option error * control G :=
  match raw with
  | VString st =>
    if decide (st = EmptyString) then
      (Some (ErrFmt ("stale-threshold cannot be empty; use " +:+ quote "0" +:+ " to disable")), x)
    else
      match ParseDuration st with
      | None => (Some (ErrWrap ("invalid stale-threshold " +:+ quote st +:+ ": ") (durationError st) ""), x)
      | Some d =>
        match ex_engine (cn_exec x) with
        | None => (Some (ErrFmt "stale-threshold patching not supported by this engine"), x)
        | Some _ =>
          (None, audit (patchAudit now remote "stale-threshold")
                   (map_current (set_StaleThreshold st) (SetStaleThreshold d x)))
        end
      end
  | _ => (Some (ErrFmt ("stale-threshold must be a duration string, got " +:+ typeName raw)), x)
  end.

Definition applyPatchLogLevel (raw : Value) (remote : string) (now : Z) x : option error * control G :=
  match raw with
  | VString lvl =>
    if decide (lvl = EmptyString) then (None, x)
    else
      match ParseLevel lvl with
      | None => (Some (ErrFmt ("invalid log-level " +:+ quote lvl)), x)
      | Some l =>
        let x := set_log l (ex_format (cn_exec x)) x in
        (None, audit (patchAudit now remote "log-level") (map_current (set_LogLevel lvl) x))
      end
  | _ => (Some (ErrFmt ("log-level must be a string, got " +:+ typeName raw)), x)
  end.

(** One key of a patch, when it is there. *)
Definition patchKey (apply : Value -> string -> Z -> control G -> option error * control G)
    (raw : option Value) (remote : string) (now : Z) x : option error * control G :=
  match raw with Some raw => apply raw remote now x | None => (None, x) end.

Definition PatchWithOrigin (order : list string) (patch : gmap string Value) (remote : string) (now : Z) x
  : option error * control G :=
  match rejectUnknownPatchKeys order with
  | Some e => (Some e, x)
  | None =>
    match patchKey applyPatchLogFormat (patch !! "log-format"%string) remote now x with
    | (Some e, x) => (Some e, x)
    | (None, x) =>
      match patchKey applyPatchStaleThreshold (patch !! "stale-threshold"%string) remote now x with
      | (Some e, x) => (Some e, x)
      | (None, x) => patchKey applyPatchLogLevel (patch !! "log-level"%string) remote now x
      end
    end
  end.

Definition Patch (order : list string) (patch : gmap string Value) (now : Z) x : option error * control G :=
  PatchWithOrigin order patch EmptyString now x.

(** *** Removing one component by name *)

(** [append(s[:i], s[i+1:]...)]: the result is shorter, and the elements move
    inside the array of [s], which other slices still see with their length. *)
Definition cut {A} (i : nat) (l : list A) : list A := take i l ++ drop (S i) l.
Definition shifted {A} (i : nat) (l : list A) : list A := cut i l ++ drop (length l - 1) l.

(** The first entry with the name: the slice without it, and what the slice of
    the active configuration becomes. *)
Fixpoint findNamed {A} (nm : A -> string) (name : string) (l : list A) : option nat :=
  match l with
  | [] => None
  | a :: l => if decide (nm a = name) then Some 0%nat else S <$> findNamed nm name l
  end.
Definition removeNamed {A} (nm : A -> string) (name : string) (l : list A) : option (list A * list A) :=
  match findNamed nm name l with
  | Some i => Some (cut i l, shifted i l)
  | None => None
  end.

(** [removeNamedDriver] and its two twins on the copy of the active
    configuration: the copy, and the active configuration after it. *)
Definition removeNamedDriver (name : string) (cfg : Config) : option (Config * Config) :=
  match removeNamed dc_Name name (cf_Drivers cfg) with
  | Some (l, l') => Some (withDrivers l cfg, withDrivers l' cfg)
  | None => None
  end.
Definition removeNamedTransport (name : string) (cfg : Config) : option (Config * Config) :=
  match removeNamed tp_Name name (cf_Transports cfg) with
  | Some (l, l') => Some (withTransports l cfg, withTransports l' cfg)
  | None => None
  end.
Definition removeNamedRule (name : string) (cfg : Config) : option (Config * Config) :=
  match removeNamed rc_Name name (cf_Rules cfg) with
  | Some (l, l') => Some (withRules l cfg, withRules l' cfg)
  | None => None
  end.

Definition removeResource (ord : orders) (kind name remote : string) (now : Z)
    (drop : Config -> option (Config * Config)) x : option failure * control G :=
  match ex_current (cn_exec x) with
  | None => (Some (OtherError (ErrFmt "no active configuration")), x)
  | Some cfg =>
    match drop cfg with
    | None => (Some (OtherError ErrResourceNotFound), x)
    | Some (snapshot, active) =>
      let x := set_current (Some active) x in
      match ce_encode snapshot with
      | inr e => (Some (OtherError (ErrWrap "failed to re-marshal config: " e "")), x)
      | inl payload =>
        match ReloadWithOrigin ord "" payload remote now x with
        | (Some f, x) => (Some f, x)
        | (None, x) =>
          (None, audit (mkAuditEntry now "reload" remote ["delete-" +:+ kind +:+ ":" +:+ name]
                          (kind +:+ " " +:+ name +:+ " removed via resource endpoint")) x)
        end
      end
    end
  end.

Definition RemoveDriverByName (ord : orders) (name remote : string) (now : Z) x :=
  removeResource ord "driver" name remote now (removeNamedDriver name) x.
Definition RemoveTransportByName (ord : orders) (name remote : string) (now : Z) x :=
  removeResource ord "transport" name remote now (removeNamedTransport name) x.
Definition RemoveRuleByName (ord : orders) (name remote : string) (now : Z) x :=
  removeResource ord "rule" name remote now (removeNamedRule name) x.

End Operations.

(** ** Reloading *)

Section ReloadProofs.
Context {G RO DO : Type} `{!EngineAPI G RO DO} `{!EngineLaws G RO DO}.
Context `{!DeepEqual DriverConfig} `{!DeepEqual TransportConfig}.
Context `{!DeepEqual (list RuleConfig)} `{!DeepEqual (list DerivedTagConfig)}.
Context `{!Registry} `{!GoArch} `{!OS} `{!ControlEnv}.
Implicit Types x : control G.

(** Loading may only move the configuration path. *)
Lemma loadForReload_frame path payload x r x' :
  loadForReload path payload x = (r, x') ->
  ex_engine (cn_exec x') = ex_engine (cn_exec x) /\ ex_current (cn_exec x') = ex_current (cn_exec x) /\
  ex_audit (cn_exec x') = ex_audit (cn_exec x) /\ cn_disk x' = cn_disk x.
Proof.
  unfold loadForReload. case_decide; [by intros [= _ <-]|].
  destruct (if decide (path = EmptyString) then _ else _) as [t|e]; [|by intros [= _ <-]].
  case_decide; [by intros [= _ <-]|]. destruct (LoadNoValidate t _); [|by intros [= _ <-]].
  case_decide; by intros [= _ <-].
Qed.

Lemma recordConfigAudit_last entry l : last (recordConfigAudit entry l) = Some entry.
Proof.
  unfold recordConfigAudit. case_decide as Hl; [|apply last_snoc].
  rewrite drop_app_le; [apply last_snoc|]. rewrite length_app in *. unfold configAuditCap in *. simpl in *. lia.
Qed.

Lemma recordConfigAudit_bounded entry l :
  (length (recordConfigAudit entry l) <= configAuditCap)%nat.
Proof. unfold recordConfigAudit. case_decide; [rewrite length_drop|]; lia. Qed.

Lemma persist_spec payload now x :
  ex_engine (cn_exec (persist payload now x)) = ex_engine (cn_exec x) /\
  ex_current (cn_exec (persist payload now x)) = ex_current (cn_exec x) /\
  ex_audit (cn_exec (persist payload now x)) = ex_audit (cn_exec x) /\
  (payload <> EmptyString -> ex_path (cn_exec x) <> EmptyString -> os_write (ex_path (cn_exec x)) = None ->
   dk_files (cn_disk (persist payload now x)) !! ex_path (cn_exec x) = Some payload).
Proof.
  unfold persist. case_decide as Hp; [|split_and!; [done..|tauto]].
  destruct (os_write _) eqn:Hw; split_and!; try done. intros _ _ _. simpl. by rewrite lookup_insert_eq.
Qed.

(** A reload is all or nothing.  When it succeeds, the
    configuration parsed, is well formed, runs on the engine and is the current
    one, the newest audit entry records it, and a payload is in the
    configuration file if that can be written.  When it fails, the engine, the
    current configuration, the audit trail and the files are as before. *)
Theorem reload_all_or_nothing ord path payload remote now x g r x' :
  ex_engine (cn_exec x) = Some g ->
  let old := default Config_zero (ex_current (cn_exec x)) in
  in_sync old g -> reversible (G := G) old ->
  (forall cfg, (loadForReload path payload x).1 = inl cfg -> orders_ok ord old cfg) ->
  ReloadWithOrigin ord path payload remote now x = (r, x') ->
  exists g', ex_engine (cn_exec x') = Some g' /\
    match r with
    | None => exists cfg, (loadForReload path payload x).1 = inl cfg /\ wf_config cfg /\
        in_sync cfg g' /\ ex_current (cn_exec x') = Some cfg /\
        head (ConfigAuditHistory (ex_audit (cn_exec x'))) =
          Some (mkAuditEntry now "reload" remote (reloadChangeKeys path payload) "") /\
        (payload <> EmptyString -> ex_path (cn_exec x) <> EmptyString ->
         os_write (ex_path (cn_exec x)) = None ->
         dk_files (cn_disk x') !! ex_path (cn_exec x) = Some payload)
    | Some _ => observe g' = observe g /\ ex_current (cn_exec x') = ex_current (cn_exec x) /\
        ex_audit (cn_exec x') = ex_audit (cn_exec x) /\ cn_disk x' = cn_disk x
    end.
Proof.
  intros Hg old Hsync Hrev Hord. unfold ReloadWithOrigin.
  destruct (loadForReload path payload x) as [[cfg|f] x1] eqn:Hl;
    apply loadForReload_frame in Hl as Hfr; destruct Hfr as (He & Hc & Ha & Hd).
  2:{ intros [= <- <-]. exists g. rewrite He, Hc, Ha, Hd. done. }
  destruct (validate cfg) as [e|] eqn:Hv.
  { intros [= <- <-]. exists g. rewrite He, Hc, Ha, Hd. done. }
  apply validate_iff in Hv. destruct (ApplyConfig ord cfg false (cn_exec x1)) as [e ex] eqn:Hap.
  assert (Hpath : ex_audit ex = ex_audit (cn_exec x1) /\ ex_path ex = ex_path (cn_exec x1)).
  { revert Hap. unfold ApplyConfig. destruct (ex_engine (cn_exec x1)); [|by intros [= _ <-]].
    destruct (applyDiffs _ _ _ _ _) as [? ?]. by intros [= _ <-]. }
  destruct Hpath as [Haud Hpath].
  apply (ApplyConfig_spec ord cfg false _ _ g) in Hap as (g' & Hg' & Hap);
    [|by rewrite He|by rewrite Hc|rewrite Hc; by apply (Hord cfg)|by rewrite Hc].
  destruct e as [e|]; intros [= <- <-].
  { exists g'. simpl. destruct Hap as [Hobs Hcur]. split; [done|]. rewrite Hcur, Haud, Ha, Hc, Hd. done. }
  destruct Hap as [Hs Hcur].
  match goal with |- context [persist payload now ?y] =>
    destruct (persist_spec payload now y) as (P1 & P2 & P3 & P4) end.
  exists g'. rewrite P1, P2, P3. split; [done|]. exists cfg. split_and!; try done.
  - simpl. unfold ConfigAuditHistory. by rewrite head_reverse, recordConfigAudit_last.
  - simpl in P4. intros Hpay. assert (Hx1 : ex_path ex = ex_path (cn_exec x)).
    { rewrite Hpath. revert Hl. unfold loadForReload. rewrite decide_True by done. by intros [= _ <-]. }
    rewrite Hx1 in P4. by apply P4.
Qed.

(** A path that parses but is not valid is refused, and still becomes the path
    the next accepted payload is written to. *)
Theorem refused_path_is_kept ord path remote now x cfg target e r x' :
  path <> EmptyString -> resolveConfigPath ce_cwd (ex_path (cn_exec x)) path = inl target ->
  target <> EmptyString -> LoadNoValidate target (cn_disk x) = inl cfg -> validate cfg = Some e ->
  ReloadWithOrigin ord path "" remote now x = (r, x') ->
  r <> None /\ ex_path (cn_exec x') = target.
Proof.
  intros Hp Hr Ht Hl Hv. unfold ReloadWithOrigin, loadForReload.
  rewrite decide_False by (by intros []). rewrite (decide_False (P := path = EmptyString)) by done.
  rewrite Hr. rewrite decide_False by done. rewrite Hl. rewrite decide_True by done. rewrite Hv.
  by intros [= <- <-].
Qed.

End ReloadProofs.

(** ** Removing a component by name *)

Section RemoveProofs.
Context {G RO DO : Type} `{!EngineAPI G RO DO} `{!EngineLaws G RO DO}.
Context `{!DeepEqual DriverConfig} `{!DeepEqual TransportConfig}.
Context `{!DeepEqual (list RuleConfig)} `{!DeepEqual (list DerivedTagConfig)}.
Context `{!Registry} `{!GoArch} `{!OS} `{!ControlEnv}.
Implicit Types x : control G.

Lemma findNamed_lookup {A} (nm : A -> string) l i a :
  NoDup (nm <$> l) -> l !! i = Some a -> findNamed nm (nm a) l = Some i.
Proof.
  revert i. induction l as [|b l IH]; intros i; [done|]. csimpl. intros [Hni Hnd]%NoDup_cons.
  destruct i as [|i]; simpl; [intros [= ->]; by rewrite decide_True|]. intros Hi.
  rewrite decide_False; [by rewrite (IH i)|]. intros Heq. apply Hni. rewrite Heq.
  by apply list_elem_of_fmap_2, list_elem_of_lookup_2 with i.
Qed.

Lemma cut_names {A} (nm : A -> string) l i a :
  NoDup (nm <$> l) -> l !! i = Some a -> nm a ∉ nm <$> cut i l.
Proof.
  intros Hnd Hi. rewrite <- (take_drop_middle l i a Hi) in Hnd. rewrite fmap_app in Hnd. csimpl in Hnd.
  apply NoDup_app in Hnd as (_ & Hd & [Hni _]%NoDup_cons). unfold cut. rewrite fmap_app, elem_of_app.
  intros [Hin|Hin]; [|done]. apply (Hd _ Hin). left.
Qed.

Lemma shifted_names {A} (nm : A -> string) l i a :
  NoDup (nm <$> l) -> l !! i = Some a -> (S i < length l)%nat -> nm a ∉ nm <$> shifted i l.
Proof.
  intros Hnd Hi Hlen. pose proof (cut_names nm l i a Hnd Hi) as Hcut. unfold shifted.
  rewrite fmap_app, elem_of_app. intros [Hin|Hin]; [done|]. apply Hcut. unfold cut.
  rewrite fmap_app, elem_of_app. right. apply list_elem_of_fmap in Hin as (b & Hb & Hin).
  apply list_elem_of_fmap. exists b. split; [done|].
  replace (length l - 1)%nat with (S i + (length l - 1 - S i))%nat in Hin by lia.
  rewrite <- drop_drop in Hin. apply list_elem_of_lookup in Hin as [k Hk]. rewrite lookup_drop in Hk.
  by eapply list_elem_of_lookup_2.
Qed.

Lemma byName_absent {C} (nm : C -> string) cs n : n ∉ nm <$> cs -> byName nm cs !! n = None.
Proof.
  intros Hn. apply eq_None_not_Some. intros [c Hc]. apply Hn.
  pose proof (byName_named nm cs n c Hc) as <-. apply list_elem_of_fmap_2. by eapply byName_elem.
Qed.

Lemma byName_lookup {C} (nm : C -> string) cs c :
  NoDup (nm <$> cs) -> c ∈ cs -> byName nm cs !! nm c = Some c.
Proof.
  induction cs as [|c' cs IH] using rev_ind; [by intros _ ?%elem_of_nil|].
  rewrite fmap_app. intros (Hnd & Hdis & _)%NoDup_app Hin. rewrite byName_snoc.
  apply elem_of_app in Hin as [Hin|Hin%list_elem_of_singleton]; [|subst; by rewrite lookup_insert_eq].
  rewrite lookup_insert_ne; [by apply IH|]. intros Heq.
  apply (Hdis (nm c)); [by apply list_elem_of_fmap_2|]. rewrite <- Heq. left.
Qed.

(** What a successful reload of a payload did to the drivers. *)
Lemma reload_drivers ord payload remote now x g cfg x' :
  ex_engine (cn_exec x) = Some g -> payload <> EmptyString -> ParseNoValidate payload = inl cfg ->
  ReloadWithOrigin ord "" payload remote now x = (None, x') ->
  exists ad g1 g', ex_engine (cn_exec x') = Some g' /\ drivers_of g' = drivers_of g1 /\
    ex_current (cn_exec x') = Some cfg /\
    diffDrivers ord (cf_Drivers (default Config_zero (ex_current (cn_exec x)))) (cf_Drivers cfg) false
      (api_Suspend g).2 = (None, ad, g1).
Proof.
  intros Hg Hpay Hparse. unfold ReloadWithOrigin, loadForReload. rewrite decide_True by done. rewrite Hparse.
  destruct (validate cfg); [done|]. unfold ApplyConfig. rewrite Hg.
  destruct (applyDiffs _ _ _ _ _) as [[e|] g2] eqn:Ha; [done|]. intros [= <-].
  apply applyDiffs_drivers in Ha as (ad & g1 & Hd & Heq).
  match goal with |- context [persist payload now ?y] =>
    destruct (persist_spec payload now y) as (P1 & P2 & _) end.
  exists ad, g1, (api_Resume g2).2. rewrite P1, P2. split_and!; try done.
  assert (Hr := resume_law g2). unfold observe in Hr. injection Hr as Hr _ _ _. by rewrite Hr.
Qed.

(** Removing a driver by name that is not the last of the
    configuration leaves it running, when the removal reports success.  The copy
    the removal works on shares its array with the active configuration, so the
    removed entry is overwritten there as well; the reload then does not find the
    driver among the old ones and does not remove it, and the engine still runs
    a driver the current configuration no longer names.  The text the
    configuration is written to is assumed to parse back to it. *)
Theorem delete_leaves_driver_running ord remote now x g cfg i d payload x' :
  ex_engine (cn_exec x) = Some g -> ex_current (cn_exec x) = Some cfg -> in_sync cfg g ->
  NoDup (dc_Name <$> cf_Drivers cfg) -> cf_Drivers cfg !! i = Some d -> (S i < length (cf_Drivers cfg))%nat ->
  let rest := withDrivers (cut i (cf_Drivers cfg)) cfg in
  ce_encode rest = inl payload -> payload <> EmptyString -> ParseNoValidate payload = inl rest ->
  orders_ok ord (withDrivers (shifted i (cf_Drivers cfg)) cfg) rest ->
  RemoveDriverByName ord (dc_Name d) remote now x = (None, x') ->
  exists g', ex_engine (cn_exec x') = Some g' /\ drivers_of g' !! dc_Name d = Some d /\
    ex_current (cn_exec x') = Some rest /\ dc_Name d ∉ dc_Name <$> cf_Drivers rest.
Proof.
  intros Hg Hcur Hsync Hnd Hi Hlen rest Henc Hpay Hparse Hord.
  unfold RemoveDriverByName, removeResource, removeNamedDriver, removeNamed. rewrite Hcur.
  rewrite (findNamed_lookup _ _ _ _ Hnd Hi). fold rest. rewrite Henc.
  destruct (ReloadWithOrigin ord "" payload remote now _) as [[f|] x1] eqn:Hr; [done|]. intros [= <-].
  apply (reload_drivers _ _ _ _ _ g rest) in Hr as (ad & g1 & g' & Hg' & Hd & Hc' & Hdiff); [|done..].
  exists g'. simpl. split_and!; [done| |done|by apply cut_names].
  destruct Hord as (Ho1 & Ho2 & _ & _). simpl in Hdiff.
  rewrite Hd, (diff_other _ _ _ _ _ _ driver_laws _ _ _ _ _ _ _ _ _ _ Hdiff Ho1 Ho2).
  - assert (Hsus := suspend_law g). unfold observe in Hsus. injection Hsus as -> _ _ _.
    rewrite (sy_drivers _ _ Hsync). apply byName_lookup; [done|]. by eapply list_elem_of_lookup_2.
  - by apply byName_absent, shifted_names.
  - by apply byName_absent, cut_names.
Qed.

End RemoveProofs.

(** ** Two edits of the active configuration that a later reload refuses *)

Section Refused.
Context {G RO DO : Type} `{!EngineAPI G RO DO}.
Context `{!DeepEqual DriverConfig} `{!DeepEqual TransportConfig}.
Context `{!DeepEqual (list RuleConfig)} `{!DeepEqual (list DerivedTagConfig)}.
Context `{!Registry} `{!GoArch} `{!OS} `{!ControlEnv}.
Implicit Types x : control G.

(** Disabling the staleness check by a patch, as its message tells to, is
    accepted and leaves an active configuration that does not validate: every
    later removal of a component by name is refused. *)
Theorem patch_disable_unvalidates order remote now x cfg x' st d :
  ex_current (cn_exec x) = Some cfg -> st <> EmptyString -> ParseDuration st = Some d -> d <= 0 ->
  PatchWithOrigin order {["stale-threshold"%string := VString st]} remote now x = (None, x') ->
  exists cfg', ex_current (cn_exec x') = Some cfg' /\ validate cfg' <> None /\ cn_stale x' = 0.
Proof.
  intros Hcur Hst Hd Hle. unfold PatchWithOrigin. destruct (rejectUnknownPatchKeys order); [done|].
  rewrite lookup_singleton_ne by done. simpl. rewrite lookup_singleton_eq. simpl.
  rewrite decide_False by done. rewrite Hd. destruct (ex_engine (cn_exec x)); [|done].
  rewrite lookup_singleton_ne by done. simpl. intros [= <-]. simpl. rewrite Hcur. simpl.
  eexists. split; [done|]. rewrite decide_True by done. split; [|done].
  intros [_ Hdur _ _ _ _ _ _ _ _ _ _ _ _]%validate_iff. unfold engineDurations in Hdur.
  rewrite !Forall_cons in Hdur. destruct Hdur as (_ & _ & _ & [He|(d' & Hd' & Hpos)] & _); simpl in *; [done|].
  rewrite Hd in Hd'. simplify_eq. lia.
Qed.

Lemma loadTags_file ds0 ds d fileTags :
  loadTags ds0 = inl ds -> d ∈ ds0 -> dc_TagsFile d <> EmptyString ->
  ce_tags (dc_TagsFile d) = inl fileTags ->
  exists d', d' ∈ ds /\ dc_Tags d' = fileTags ++ dc_Tags d.
Proof.
  intros Hl Hin Hfile Htags. revert ds Hl.
  induction ds0 as [|d0 rest IH]; intros ds Hl; [by apply elem_of_nil in Hin|]. simpl in Hl.
  destruct (if decide (dc_TagsFile d0 = EmptyString) then _ else _) as [d1|e] eqn:Hd1; [|done].
  destruct (loadTags rest) as [ds1|e] eqn:Hd2; [|done]. injection Hl as <-.
  apply elem_of_cons in Hin as [->|Hin].
  - rewrite decide_False in Hd1 by done. rewrite Htags in Hd1. injection Hd1 as <-. eexists. split; [left|done].
  - destruct (IH Hin ds1 eq_refl) as (d' & ? & ?). exists d'. by split; [right|].
Qed.

(** A driver with a tags file cannot be reloaded from the text of the active
    configuration: the file's tags are in that text already and are loaded a
    second time, so the names repeat. *)
Theorem tags_file_text_refused cfg data d fileTags t inline :
  ce_decode data = inl cfg -> d ∈ cf_Drivers cfg -> dc_TagsFile d <> EmptyString ->
  ce_tags (dc_TagsFile d) = inl (t :: fileTags) -> dc_Tags d = (t :: fileTags) ++ inline ->
  forall parsed, ParseNoValidate data = inl parsed -> validate parsed <> None.
Proof.
  intros Hdec Hin Hfile Htags Hd parsed. unfold ParseNoValidate. rewrite Hdec.
  destruct (loadTags (cf_Drivers cfg)) as [ds|e] eqn:Hl; [|done].
  intros [= <-] [? ? ? Hdrv ? ? ? ? ? ? ? ? ? ?]%validate_iff. simpl in Hdrv.
  destruct (loadTags_file _ _ _ _ Hl Hin Hfile Htags) as (d' & Hin' & Heq). rewrite Forall_forall in Hdrv.
  destruct (Hdrv d' Hin') as [_ _ _ _ _ Hnd _]. rewrite Heq, Hd in Hnd. csimpl in Hnd.
  apply NoDup_cons in Hnd as [Hni _]. apply Hni. rewrite !fmap_app, elem_of_app. right. csimpl. left.
Qed.

End Refused.

(** ** Concrete instances *)

Module Demo.
Import Engine.Demo.

Definition rest : Config := withDrivers (cut 0 (cf_Drivers old)) old.

(** One text, which is the configuration without the first driver. *)
#[global] Instance control_env : ControlEnv := {|
  ce_decode := fun s => if decide (s = "rest"%string) then inl rest else inr (ErrFmt "bad yaml");
  ce_encode := fun (_ : Config) => inl "rest"%string;
  ce_tags := fun (_ : string) => inl [];
  ce_cwd := "/" |}.

Definition state : control Engine.Demo.core := mkControl executor (mkDisk ∅ ∅) 0.

Definition reload : option failure * control Engine.Demo.core :=
  ReloadWithOrigin (EngineAPI0 := coreAPI (H := amd64_f2i)) (H0 := amd64_f2i) (ordersOf old rest) "" "rest" "op" 7 state.

Definition after : Config := withDrivers (shifted 0 (cf_Drivers old)) old.

Definition delete : option failure * control Engine.Demo.core :=
  RemoveDriverByName (EngineAPI0 := coreAPI (H := amd64_f2i)) (H0 := amd64_f2i) (ordersOf after rest) "a" "op" 7 state.

End Demo.

Lemma reload_all_or_nothing_witness :
  Demo.reload.1 = None /\ ex_current (cn_exec Demo.reload.2) = Some Demo.rest /\
  dk_files (cn_disk Demo.reload.2) !! "/etc/c.yaml"%string = Some "rest"%string.
Proof.
  assert (Hr : Demo.reload.1 = None) by (vm_compute; reflexivity).
  assert (Hl : forall cfg, (loadForReload "" "rest" Demo.state).1 = inl cfg -> cfg = Demo.rest).
  { intros cfg Hcfg. vm_compute in Hcfg. injection Hcfg as <-. vm_compute. reflexivity. }
  destruct (reload_all_or_nothing (EngineAPI0 := coreAPI (H := amd64_f2i)) (EngineLaws0 := coreLaws (H := amd64_f2i))
    (H0 := amd64_f2i) (Engine.Demo.ordersOf Engine.Demo.old Demo.rest) "" "rest" "op" 7 Demo.state Engine.Demo.engine
    Demo.reload.1 Demo.reload.2 eq_refl Engine.Demo.engine_in_sync Engine.Demo.old_reversible) as (g' & Hg & Hm).
  - intros cfg Hcfg. rewrite (Hl cfg Hcfg). apply Engine.Demo.ordersOf_ok.
  - apply surjective_pairing.
  - rewrite Hr in Hm. destruct Hm as (cfg & Hcfg & _ & _ & Hcur & _ & Hdisk).
    split; [exact Hr|]. split; [exact (eq_trans Hcur (f_equal Some (Hl cfg Hcfg)))|].
    apply Hdisk; [discriminate|discriminate|reflexivity].
Defined.

Lemma delete_leaves_driver_running_witness :
  Demo.delete.1 = None /\
  exists g', ex_engine (cn_exec Demo.delete.2) = Some g' /\
    drivers_of (EngineAPI := coreAPI (H := amd64_f2i)) g' !! "a"%string = Some (Engine.Demo.driver "a" "modbus").
Proof.
  assert (Hr : Demo.delete.1 = None) by (vm_compute; reflexivity). split; [exact Hr|].
  destruct (delete_leaves_driver_running (EngineAPI0 := coreAPI (H := amd64_f2i)) (EngineLaws0 := coreLaws (H := amd64_f2i))
    (H0 := amd64_f2i) (Engine.Demo.ordersOf Demo.after Demo.rest) "op" 7 Demo.state Engine.Demo.engine Engine.Demo.old 0
    (Engine.Demo.driver "a" "modbus") "rest" Demo.delete.2) as (g' & Hg & Hd & _).
  - reflexivity.
  - reflexivity.
  - exact Engine.Demo.engine_in_sync.
  - vm_compute. repeat constructor; set_solver.
  - reflexivity.
  - simpl. lia.
  - reflexivity.
  - discriminate.
  - vm_compute. reflexivity.
  - apply Engine.Demo.ordersOf_ok.
  - rewrite <- Hr. apply surjective_pairing.
  - exists g'. split; [exact Hg|exact Hd].
Defined.
