(* ===== verification/Discovery.v ===== *)
(** * Topology discovery ([engine/discovery.go])

    The heartbeats of nodes and their JSON form, the registry of nodes seen, its
    eviction, and the reconciliation that subscribes to upstream nodes.  The MQTT
    clients are not modelled: a heartbeat is a payload that arrives at a time.
    What discovery needs of the engine is the interface [TransportHost], which
    the transport registry of [Manager] implements.

    The theorems show that the registry holds exactly the nodes heard of within
    three heartbeats, that heartbeats are read as they were sent, which
    transports discovery can add, that the advertised pattern covers the topics
    a node publishes on; and that with several brokers each reconciliation moves
    a working subscription to the next broker. *)

From Stdlib Require Import ZArith Lia String Ascii Sorted.
From stdpp Require Import base list gmap strings.
From S2P Require Import Prelude GoFloat GoTime Types Util JsonDecode JsonText Json JsonValue CommandJson PointJson.
From S2P Require Import Parser Config Manager Runtime.

Open Scope Z_scope.

Definition discoveryTopicPrefix : string := "corec/_discovery".
Definition defaultHeartbeatSecs : Z := 5.

Record endpoint := mkEndpoint { ep_Type : string; ep_Topic : string; ep_URL : string }.

Record nodeInfo := mkInfo {
  ni_ID : string;
  ni_Role : string;
  ni_Subscribe : list string;
  ni_Publish : option endpoint;
  ni_Receive : option endpoint;
  ni_Timestamp : Z;
}.

(** ** Heartbeats as JSON *)

Definition ep_fields : list string := ["type"; "topic"; "url"]%string.

Definition ep_set (f : string) (v : json) (e : endpoint) : option endpoint :=
  let '(mkEndpoint ty tp u) := e in
  if bool_decide (f = "type"%string) then (fun s => mkEndpoint s tp u) <$> set_string v ty
  else if bool_decide (f = "topic"%string) then (fun s => mkEndpoint ty s u) <$> set_string v tp
  else (fun s => mkEndpoint ty tp s) <$> set_string v u.

(** A pointer to an endpoint: a null is nil, an object goes into what is there. *)
Definition set_endpoint (v : json) (old : option endpoint) : option (option endpoint) :=
  match v with
  | JNull => Some None
  | _ => Some <$> decode_struct ep_fields ep_set v (default (mkEndpoint "" "" "") old)
  end.

Definition set_strings (v : json) : option (list string) :=
  match v with
  | JNull => Some []
  | JArr l => mapM (fun x => set_string x EmptyString) l
  | _ => None
  end.

Definition ni_fields : list string := ["id"; "role"; "subscribe"; "publish"; "receive"; "ts"]%string.

Definition ni_set (f : string) (v : json) (i : nodeInfo) : option nodeInfo :=
  let '(mkInfo id ro su pu re ts) := i in
  if bool_decide (f = "id"%string) then (fun s => mkInfo s ro su pu re ts) <$> set_string v id
  else if bool_decide (f = "role"%string) then (fun s => mkInfo id s su pu re ts) <$> set_string v ro
  else if bool_decide (f = "subscribe"%string) then (fun l => mkInfo id ro l pu re ts) <$> set_strings v
  else if bool_decide (f = "publish"%string) then (fun e => mkInfo id ro su e re ts) <$> set_endpoint v pu
  else if bool_decide (f = "receive"%string) then (fun e => mkInfo id ro su pu e ts) <$> set_endpoint v re
  else (fun z => mkInfo id ro su pu re z) <$> set_int v ts.

Definition ni_zero : nodeInfo := mkInfo "" "" [] None None 0.

Definition unmarshal_info (payload : string) : option nodeInfo :=
  match parse payload with
  | Some v => decode_struct ni_fields ni_set v ni_zero
  | None => None
  end.

Definition ep_json (e : endpoint) : json :=
  JObj ([("type", jstring (ep_Type e))]%string
    ++ omitempty "topic" (String.eqb "") jstring (ep_Topic e)
    ++ omitempty "url" (String.eqb "") jstring (ep_URL e)).

Definition opt_member (key : string) (e : option endpoint) : list (string * json) :=
  match e with Some e => [(key, ep_json e)] | None => [] end.

Definition sub_member (l : list string) : list (string * json) :=
  if decide (l = []) then [] else [("subscribe"%string, JArr (jstring <$> l))].

Definition info_members (i : nodeInfo) : list (string * json) :=
  [("id", jstring (ni_ID i)); ("role", jstring (ni_Role i))]%string
  ++ sub_member (ni_Subscribe i) ++ opt_member "publish" (ni_Publish i) ++ opt_member "receive" (ni_Receive i)
  ++ [("ts"%string, JNum (itoa (ni_Timestamp i)))].

(** [json.Marshal(info)]. *)
Definition marshal_info (i : nodeInfo) : string := print (hescape (JObj (info_members i))).

(** ** The module *)

Record Discovery := mkDiscovery {
  di_nodeID : string;
  di_role : string;
  di_subscribe : list string;
  di_brokers : list brokerEndpoint;
  di_clients : gset string;
  di_registry : gmap string (nodeInfo * Z);   (* with the time it was last seen *)
  di_autoAdded : gset string;
}.

Definition NewDiscovery (node : NodeConfig) (brokers : list brokerEndpoint) : Discovery :=
  mkDiscovery (nd_ID node) (nd_Role node) (nd_Subscribe node) brokers ∅ ∅ ∅.

(** [Start]: a client per broker; a connection that times out is retried. *)
Definition Start (d : Discovery) : Discovery :=
  mkDiscovery (di_nodeID d) (di_role d) (di_subscribe d) (di_brokers d)
    (di_clients d ∪ list_to_set (be_Broker <$> di_brokers d)) (di_registry d) (di_autoAdded d).

(** [sendHeartbeats]: the broker, topic and payload of each message. *)
Definition sendHeartbeats (now : Z) (d : Discovery) : list (string * string * string) :=
  omap (fun be =>
    if bool_decide (be_Broker be ∈ di_clients d) then
      let info := mkInfo (di_nodeID d) (di_role d) (di_subscribe d)
        ((fun topic => mkEndpoint "mqtt" topic "") <$> be_Publish be) None (now / second) in
      Some (be_Broker be, discoveryTopicPrefix +:+ "/" +:+ di_nodeID d, marshal_info info)
    else None) (di_brokers d).

Definition with_registry (r : gmap string (nodeInfo * Z)) (a : gset string) (d : Discovery) : Discovery :=
  mkDiscovery (di_nodeID d) (di_role d) (di_subscribe d) (di_brokers d) (di_clients d) r a.

Definition onDiscoveryMessage (now : Z) (payload : string) (d : Discovery) : Discovery :=
  match unmarshal_info payload with
  | None => d
  | Some info =>
      if bool_decide (ni_ID info = di_nodeID d) then d
      else with_registry (<[ni_ID info := (info, now)]> (di_registry d)) (di_autoAdded d) d
  end.

Definition has_suffix (s p : string) : bool := String.prefix (str_rev p) (str_rev s).

Definition evictThreshold (now : Z) : Z := now - defaultHeartbeatSecs * 3 * second.

(** The eviction of [reconcile]: stale nodes leave the registry, and with them the
    marks of their subscriptions. *)
Definition evict (now : Z) (d : Discovery) : Discovery :=
  let stale := filter (fun kv => kv.2.2 < evictThreshold now) (di_registry d) in
  let gone := (map_to_list stale).*1 in
  with_registry (filter (fun kv => evictThreshold now <= kv.2.2) (di_registry d))
    (filter (fun key => Forall (fun id => has_suffix key ("|" +:+ id) = false) gone) (di_autoAdded d)) d.

(** ** What discovery needs of the engine *)

Class TransportHost (T : Type) := {
  host_add : TransportConfig -> T -> option error * T;
  host_cfg : T -> gmap string TransportConfig;
  host_add_ok tc t t' : host_add tc t = (None, t') -> host_cfg t' = <[tp_Name tc := tc]> (host_cfg t);
  host_add_err tc t t' e : host_add tc t = (Some e, t') -> host_cfg t' = host_cfg t;
}.

Section reconcile.
Context {T : Type} `{!TransportHost T}.

(** The transport [reconcile] makes for an upstream. *)
Definition auto_transport (broker upstreamID topic : string) : TransportConfig :=
  mkTransportConfig ("auto-" +:+ upstreamID) "mqtt"
    {["broker" := VString broker; "data-topic" := VString topic;
      "parser" := VOther "map[string]interface {}"]} 0 "" 0 0 "".

Definition set_added (a : gset string) (d : Discovery) : Discovery := with_registry (di_registry d) a d.

(** The loop over the brokers. *)
Fixpoint try_brokers (bs : list brokerEndpoint) (upstreamID topic : string) (st : Discovery * T) : Discovery * T :=
  match bs with
  | [] => st
  | be :: bs =>
      let '(d, t) := st in
      let key := be_Broker be +:+ "|" +:+ upstreamID in
      if bool_decide (key ∈ di_autoAdded d) then try_brokers bs upstreamID topic st
      else
        match host_add (auto_transport (be_Broker be) upstreamID topic) t with
        | (Some _, t) =>
            (* marked before the call, unmarked after its error *)
            try_brokers bs upstreamID topic (set_added (di_autoAdded d ∖ {[key]}) d, t)
        | (None, t) => (set_added ({[key]} ∪ di_autoAdded d) d, t)
        end
  end.

Definition reconcile_one (snapshot : gmap string (nodeInfo * Z)) (st : Discovery * T) (upstreamID : string)
    : Discovery * T :=
  match snapshot !! upstreamID with
  | None => st
  | Some (info, _) =>
      match ni_Publish info with
      | None => st
      | Some ep =>
          if bool_decide (ep_Type ep <> "mqtt"%string) then st
          else try_brokers (di_brokers st.1) upstreamID (ep_Topic ep) st
      end
  end.

Definition reconcile (now : Z) (st : Discovery * T) : Discovery * T :=
  let d := evict now st.1 in
  foldl (reconcile_one (di_registry d)) (d, st.2) (di_subscribe d).

(** What happens to the module. *)
Inductive disc_event :=
| Heartbeat (now : Z) (payload : string)
| Reconcile (now : Z).

Definition disc_step (st : Discovery * T) (e : disc_event) : Discovery * T :=
  match e with
  | Heartbeat now payload => (onDiscoveryMessage now payload st.1, st.2)
  | Reconcile now => reconcile now st
  end.
End reconcile.

(** [GetDiscoveredNodes]. *)
Definition GetDiscoveredNodes (d : Discovery) : list nodeInfo := (fun kv => kv.2.1) <$> map_to_list (di_registry d).

(** [strings.NewReplacer] of [sanitizeBroker]. *)
Definition sanitizeBroker : string -> string :=
  str_map (fun c =>
    if bool_decide (c = ":"%char) || bool_decide (c = "/"%char) then "_"%char
    else if bool_decide (c = "."%char) then "-"%char else c).

(** ** The registry *)

Section registry.
Context {T : Type} `{!TransportHost T}.

Lemma try_brokers_registry bs up topic : forall st : Discovery * T,
  di_registry (try_brokers bs up topic st).1 = di_registry st.1
  /\ di_nodeID (try_brokers bs up topic st).1 = di_nodeID st.1
  /\ di_brokers (try_brokers bs up topic st).1 = di_brokers st.1
  /\ di_subscribe (try_brokers bs up topic st).1 = di_subscribe st.1.
Proof.
  induction bs as [|be bs IH]; intros [d t]; [done|]. cbn [try_brokers]. case_bool_decide; [apply IH|].
  destruct (host_add _ t) as [[e|] t']; [|done]. by destruct (IH (set_added (di_autoAdded d ∖ {[be_Broker be +:+ "|" +:+ up]}) d, t')) as (-> & -> & -> & ->).
Qed.

Lemma reconcile_one_registry snap (st : Discovery * T) up :
  di_registry (reconcile_one snap st up).1 = di_registry st.1
  /\ di_nodeID (reconcile_one snap st up).1 = di_nodeID st.1
  /\ di_brokers (reconcile_one snap st up).1 = di_brokers st.1
  /\ di_subscribe (reconcile_one snap st up).1 = di_subscribe st.1.
Proof.
  unfold reconcile_one. destruct (snap !! up) as [[info ?]|]; [|done].
  destruct (ni_Publish info) as [ep|]; [|done]. case_bool_decide; [done|]. apply try_brokers_registry.
Qed.

Lemma reconcile_all_registry snap ups : forall st : Discovery * T,
  let st' := foldl (reconcile_one snap) st ups in
  di_registry st'.1 = di_registry st.1 /\ di_nodeID st'.1 = di_nodeID st.1
  /\ di_brokers st'.1 = di_brokers st.1 /\ di_subscribe st'.1 = di_subscribe st.1.
Proof.
  induction ups as [|up ups IH]; intros st; [done|]. cbn [foldl].
  destruct (reconcile_one_registry snap st up) as (E1 & E2 & E3 & E4).
  destruct (IH (reconcile_one snap st up)) as (F1 & F2 & F3 & F4). cbv zeta.
  split_and!; by etransitivity.
Qed.

Definition fresh_at (now : Z) (kv : string * (nodeInfo * Z)) : Prop := evictThreshold now <= kv.2.2.

#[local] Instance fresh_at_dec now kv : Decision (fresh_at now kv).
Proof. unfold fresh_at. apply _. Defined.

Lemma reconcile_registry now (st : Discovery * T) :
  di_registry (reconcile now st).1 = filter (fresh_at now) (di_registry st.1)
  /\ di_nodeID (reconcile now st).1 = di_nodeID st.1.
Proof.
  unfold reconcile.
  destruct (reconcile_all_registry (di_registry (evict now st.1)) (di_subscribe (evict now st.1))
    (evict now st.1, st.2)) as (E1 & E2 & _). cbv zeta in E1, E2. rewrite E1, E2. split; [|done].
  simpl. apply map_filter_ext. done.
Qed.

(** The last heartbeat of each other node, however long ago. *)
Definition hear (own : string) (m : gmap string (nodeInfo * Z)) (e : disc_event) : gmap string (nodeInfo * Z) :=
  match e with
  | Heartbeat now payload =>
      match unmarshal_info payload with
      | Some info => if bool_decide (ni_ID info = own) then m else <[ni_ID info := (info, now)]> m
      | None => m
      end
  | Reconcile _ => m
  end.

Definition event_time (e : disc_event) : Z := match e with Heartbeat now _ => now | Reconcile now => now end.

Lemma filter_fresh_mono now now' (m : gmap string (nodeInfo * Z)) :
  now <= now' -> filter (fresh_at now') (filter (fresh_at now) m) = filter (fresh_at now') m.
Proof.
  intros Hn. rewrite map_filter_filter. apply map_filter_ext. intros k x _. unfold fresh_at, evictThreshold.
  simpl. lia.
Qed.

(** What the registry and the heartbeats agree on from a time on. *)
Definition agree (now : Z) (r m : gmap string (nodeInfo * Z)) : Prop :=
  forall now', now <= now' -> filter (fresh_at now') r = filter (fresh_at now') m.

Lemma agree_insert now r m k v : agree now r m -> agree now (<[k := v]> r) (<[k := v]> m).
Proof. intros Ha now' Hn. rewrite !map_filter_insert, !map_filter_delete. by rewrite (Ha now' Hn). Qed.

Lemma disc_step_agree own now (st : Discovery * T) m e :
  di_nodeID st.1 = own -> agree now (di_registry st.1) m -> now <= event_time e ->
  di_nodeID (disc_step st e).1 = own /\ agree (event_time e) (di_registry (disc_step st e).1) (hear own m e).
Proof.
  intros Ho Ha Hn. assert (agree (event_time e) (di_registry st.1) m) as Ha' by (intros ? ?; apply Ha; lia).
  destruct e as [t payload|t]; simpl in *.
  - unfold onDiscoveryMessage. destruct (unmarshal_info payload) as [info|]; [|done]. rewrite Ho.
    case_bool_decide; [done|]. split; [done|]. by apply agree_insert.
  - destruct (reconcile_registry t st) as [-> ->]. split; [done|]. intros now' Hn'.
    rewrite filter_fresh_mono by done. by apply Ha'.
Qed.

Lemma disc_run_agree own es : forall now (st : Discovery * T) m,
  di_nodeID st.1 = own -> agree now (di_registry st.1) m ->
  StronglySorted Z.le (now :: (event_time <$> es)) ->
  forall now', Forall (fun e => event_time e <= now') es -> now <= now' ->
  agree now' (di_registry (foldl disc_step st es).1) (foldl (hear own) m es).
Proof.
  induction es as [|e es IH]; intros now st m Ho Ha Hs now' Hle Hn.
  { intros n' Hn'. apply Ha. lia. }
  cbn [foldl]. apply StronglySorted_inv in Hs as [Hs Hhd]. apply Forall_cons_1 in Hhd as [Hhd _].
  apply Forall_cons_1 in Hle as [Hle0 Hle].
  destruct (disc_step_agree own now st m e Ho Ha Hhd) as [Ho' Ha'].
  by apply (IH (event_time e)).
Qed.

(** After any sequence of heartbeats and reconciliations in the order
    of time, a reconciliation leaves in the registry exactly the other nodes whose
    last heartbeat came within the last three heartbeat intervals, each with that
    heartbeat. *)
Theorem registry_exact node brokers (t : T) es now :
  StronglySorted Z.le (event_time <$> es) -> Forall (fun e => event_time e <= now) es ->
  di_registry (disc_step (foldl disc_step (NewDiscovery node brokers, t) es) (Reconcile now)).1
  = filter (fresh_at now) (foldl (hear (nd_ID node)) ∅ es).
Proof.
  intros Hs Hle. cbn [disc_step]. destruct (reconcile_registry now (foldl disc_step (NewDiscovery node brokers, t) es)) as [-> _].
  destruct es as [|e es]; [done|].
  assert (event_time e <= now) as He by (by apply Forall_cons_1 in Hle as [? _]).
  refine (disc_run_agree (nd_ID node) (e :: es) (event_time e) (NewDiscovery node brokers, t) ∅ eq_refl
    _ _ now Hle He now _); [done| |lia].
  apply SSorted_cons; [done|]. apply StronglySorted_inv in Hs as [_ Hs]. by constructor.
Qed.
End registry.

(** ** The transports discovery adds *)

Section added.
Context {T : Type} `{!TransportHost T}.

Lemma try_brokers_added bs up topic : forall (st : Discovery * T) name tc,
  host_cfg (try_brokers bs up topic st).2 !! name = Some tc ->
  host_cfg st.2 !! name = Some tc \/ exists be, be ∈ bs /\ tc = auto_transport (be_Broker be) up topic.
Proof.
  induction bs as [|be bs IH]; intros [d t] name tc Hl; [by left|]. cbn [try_brokers] in Hl.
  assert (forall st', host_cfg st'.2 = host_cfg t -> host_cfg (try_brokers bs up topic st').2 !! name = Some tc ->
    host_cfg t !! name = Some tc \/ exists be', be' ∈ be :: bs /\ tc = auto_transport (be_Broker be') up topic) as Hgo.
  { intros st' E Hl'. apply IH in Hl' as [Hl'|(be' & Hin & ->)]; [left; by rewrite <- E|right; set_solver]. }
  case_bool_decide; [by apply (Hgo (d, t))|].
  destruct (host_add _ t) as [[e|] t'] eqn:E.
  - eapply Hgo; [|exact Hl]. simpl. by eapply host_add_err.
  - simpl in Hl. apply host_add_ok in E. rewrite E in Hl.
    apply lookup_insert_Some in Hl as [[_ <-]|[_ Hl]]; [right; set_solver|by left].
Qed.

(** A transport that answers a heartbeat heard. *)
Definition answers (own : string) (brokers : list brokerEndpoint) (ups : list string) (es : list disc_event)
    (tc : TransportConfig) : Prop :=
  exists be now payload info ep,
    be ∈ brokers /\ ni_ID info ∈ ups /\ ni_ID info <> own
    /\ Heartbeat now payload ∈ es /\ unmarshal_info payload = Some info
    /\ ni_Publish info = Some ep /\ ep_Type ep = "mqtt"%string
    /\ tc = auto_transport (be_Broker be) (ni_ID info) (ep_Topic ep).

(** The registry holds heartbeats of the past, under the ids they give. *)
Definition registered (own : string) (es : list disc_event) (r : gmap string (nodeInfo * Z)) : Prop :=
  map_Forall (fun id x => ni_ID x.1 = id /\ id <> own
    /\ exists now payload, Heartbeat now payload ∈ es /\ unmarshal_info payload = Some x.1) r.

Lemma registered_more own es e r : registered own es r -> registered own (es ++ [e]) r.
Proof. intros Hr id x Hx. destruct (Hr id x Hx) as (? & ? & now & p & ? & ?). set_solver. Qed.

Lemma reconcile_one_added own es snap (st : Discovery * T) up name tc :
  registered own es snap -> up ∈ di_subscribe st.1 ->
  host_cfg (reconcile_one snap st up).2 !! name = Some tc ->
  host_cfg st.2 !! name = Some tc \/ answers own (di_brokers st.1) (di_subscribe st.1) es tc.
Proof.
  intros Hr Hup Hl. unfold reconcile_one in Hl. destruct (snap !! up) as [[info seen]|] eqn:E; [|by left].
  destruct (ni_Publish info) as [ep|] eqn:Ep; [|by left]. case_bool_decide as Hm; [by left|].
  apply try_brokers_added in Hl as [Hl|(be & Hbe & ->)]; [by left|]. right.
  destruct (Hr _ _ E) as (Hid & Hown & now & payload & Hin & Hu). simpl in *. subst up.
  exists be, now, payload, info, ep. split_and!; done.
Qed.

Lemma reconcile_all_added own es snap ups : forall (st : Discovery * T) name tc,
  registered own es snap -> (forall up, up ∈ ups -> up ∈ di_subscribe st.1) ->
  host_cfg (foldl (reconcile_one snap) st ups).2 !! name = Some tc ->
  host_cfg st.2 !! name = Some tc \/ answers own (di_brokers st.1) (di_subscribe st.1) es tc.
Proof.
  induction ups as [|up ups IH]; intros st name tc Hr Hups Hl; [by left|]. cbn [foldl] in Hl.
  destruct (reconcile_one_registry snap st up) as (_ & _ & Eb & Es).
  apply IH in Hl; [|done|rewrite Es; set_solver]. rewrite Eb, Es in Hl. destruct Hl as [Hl|Hl]; [|by right].
  apply (reconcile_one_added own es) in Hl; [done|done|set_solver].
Qed.

(** The invariant of a run. *)
Record disc_inv (node : NodeConfig) (brokers : list brokerEndpoint) (cfg0 : gmap string TransportConfig)
    (es : list disc_event) (st : Discovery * T) : Prop := {
  dv_own : di_nodeID st.1 = nd_ID node;
  dv_brokers : di_brokers st.1 = brokers;
  dv_subscribe : di_subscribe st.1 = nd_Subscribe node;
  dv_registry : registered (nd_ID node) es (di_registry st.1);
  dv_cfg : forall name tc, host_cfg st.2 !! name = Some tc ->
    cfg0 !! name = Some tc \/ answers (nd_ID node) brokers (nd_Subscribe node) es tc;
}.

Lemma answers_more own brokers ups es e tc : answers own brokers ups es tc -> answers own brokers ups (es ++ [e]) tc.
Proof. intros (be & now & p & i & ep & ? & ? & ? & ? & ?). exists be, now, p, i, ep. set_solver. Qed.

Lemma disc_step_inv node brokers cfg0 es e (st : Discovery * T) :
  disc_inv node brokers cfg0 es st -> disc_inv node brokers cfg0 (es ++ [e]) (disc_step st e).
Proof.
  intros [Ho Hb Hs Hr Hc]. destruct e as [now payload|now]; simpl.
  - unfold onDiscoveryMessage.
    destruct (unmarshal_info payload) as [info|] eqn:Hu; [|split; try done; [by apply registered_more|
      intros ? ? [?|?]%Hc; auto using answers_more]].
    case_bool_decide as Hid; (split; simpl; try done; [|intros ? ? [?|?]%Hc; auto using answers_more]).
    + by apply registered_more.
    + apply map_Forall_insert_2; [|by apply registered_more]. simpl. split_and!; [done|by rewrite <- Ho|].
      exists now, payload. set_solver.
  - unfold reconcile. set (d := evict now st.1).
    assert (registered (nd_ID node) (es ++ [Reconcile now]) (di_registry d)) as Hrd.
    { apply registered_more. intros id x Hx. apply Hr. simpl in Hx. by apply map_lookup_filter_Some in Hx as [? _]. }
    destruct (reconcile_all_registry (di_registry d) (di_subscribe d) (d, st.2)) as (E1 & E2 & E3 & E4).
    cbv zeta in *. split; [by rewrite E2|by rewrite E3|by rewrite E4|by rewrite E1|].
    intros name tc Hl. apply (reconcile_all_added (nd_ID node) (es ++ [Reconcile now])) in Hl; [|done|done].
    simpl in Hl. rewrite Hb, Hs in Hl. destruct Hl as [[?|?]%Hc|?]; auto using answers_more.
Qed.

(** Whatever payloads arrive on the discovery topics and whenever
    reconciliations run, every transport of the engine is one it had before or
    answers a heartbeat heard: a data subscription without commands, on a broker
    of this node, to the MQTT topic advertised under an id the node is configured
    to subscribe to and that is not its own. *)
Theorem discovered_transports node brokers (t : T) es name tc :
  host_cfg (foldl disc_step (NewDiscovery node brokers, t) es).2 !! name = Some tc ->
  host_cfg t !! name = Some tc \/ answers (nd_ID node) brokers (nd_Subscribe node) es tc.
Proof.
  assert (disc_inv node brokers (host_cfg t) es (foldl disc_step (NewDiscovery node brokers, t) es)) as Hinv.
  { induction es as [|e es IH] using rev_ind; [by split; auto|]. rewrite foldl_snoc. by apply disc_step_inv. }
  apply (dv_cfg _ _ _ _ _ Hinv).
Qed.
End added.

(** ** Several brokers *)

Section moves.
Context {T : Type} `{!TransportHost T}.

Definition broker_key (up : string) (be : brokerEndpoint) : string := be_Broker be +:+ "|" +:+ up.

Lemma str_app_inj_r (a b c : string) : a +:+ c = b +:+ c -> a = b.
Proof.
  intros H. assert (String.length a = String.length b) as Hl.
  { apply (f_equal String.length) in H. rewrite !str_app_length in H. lia. }
  revert b H Hl. induction a as [|x a IH]; intros [|y b] H Hl; simpl in Hl; try lia; [done|].
  rewrite !str_app_cons in H. injection H as -> H. f_equal. apply IH; [done|lia].
Qed.

Lemma broker_key_inj up b1 b2 : broker_key up b1 = broker_key up b2 -> be_Broker b1 = be_Broker b2.
Proof. apply str_app_inj_r. Qed.

Lemma try_brokers_next up topic : forall done_ be bs (d : Discovery) (t t' : T),
  (forall b, b ∈ done_ -> broker_key up b ∈ di_autoAdded d) -> broker_key up be ∉ di_autoAdded d ->
  host_add (auto_transport (be_Broker be) up topic) t = (None, t') ->
  try_brokers (done_ ++ be :: bs) up topic (d, t) = (set_added ({[broker_key up be]} ∪ di_autoAdded d) d, t').
Proof.
  induction done_ as [|b done_ IH]; intros be bs d t t' Hdone Hbe Ha; cbn [app try_brokers].
  - rewrite bool_decide_eq_false_2 by done. by rewrite Ha.
  - rewrite bool_decide_eq_true_2 by (apply (Hdone b); set_solver). apply IH; [set_solver|done|done].
Qed.

(** The state of a node with one upstream, subscribed through its first brokers. *)
Record moving (up topic : string) (bs : list brokerEndpoint) (k : nat) (d : Discovery) : Prop := {
  mv_subscribe : di_subscribe d = [up];
  mv_brokers : di_brokers d = bs;
  mv_info : exists info ep seen, di_registry d = {[up := (info, seen)]}
    /\ ni_Publish info = Some ep /\ ep_Type ep = "mqtt"%string /\ ep_Topic ep = topic;
  mv_added : di_autoAdded d = list_to_set (broker_key up <$> take k bs);
}.

Definition seen_at (up : string) (d : Discovery) : Z :=
  match di_registry d !! up with Some (_, s) => s | None => 0 end.

Lemma evict_fresh up topic bs k d now :
  moving up topic bs k d -> evictThreshold now <= seen_at up d ->
  di_registry (evict now d) = di_registry d /\ di_autoAdded (evict now d) = di_autoAdded d.
Proof.
  intros [_ _ (info & ep & seen & Hr & _) _] Hf. unfold seen_at in Hf. rewrite Hr, lookup_singleton_eq in Hf.
  unfold evict. simpl. rewrite Hr. rewrite !map_filter_singleton. simpl.
  rewrite decide_True, decide_False by lia. split; [done|].
  rewrite map_to_list_empty. simpl. apply set_eq. intros x. rewrite elem_of_filter. naive_solver.
Qed.

Lemma reconcile_moves up topic bs k d (t : T) now be :
  moving up topic bs k d -> evictThreshold now <= seen_at up d -> NoDup (be_Broker <$> bs) ->
  bs !! k = Some be -> (forall tc t, (host_add tc t).1 = None) ->
  let st := reconcile now (d, t) in
  moving up topic bs (S k) st.1 /\ seen_at up st.1 = seen_at up d
  /\ host_cfg st.2 !! ("auto-" +:+ up) = Some (auto_transport (be_Broker be) up topic).
Proof.
  intros Hm Hf Hnd Hk Hadd. destruct (evict_fresh up topic bs k d now Hm Hf) as [Er Ea].
  destruct Hm as [Hs Hb (info & ep & seen & Hr & Hp & Hty & Htop) Hau].
  destruct (host_add (auto_transport (be_Broker be) up topic) t) as [err t'] eqn:E.
  pose proof (Hadd (auto_transport (be_Broker be) up topic) t) as Herr. rewrite E in Herr. simpl in Herr. subst err.
  pose proof (take_drop_middle bs k be Hk) as Hbs.
  assert (broker_key up be ∉ di_autoAdded d) as Hnew.
  { rewrite Hau, elem_of_list_to_set, list_elem_of_fmap. intros (b & Hkey & Hin). apply broker_key_inj in Hkey.
    apply list_elem_of_lookup in Hin as [i Hi]. apply lookup_take_Some in Hi as [Hi Hlt].
    assert (k = i) as ->; [|lia]. eapply NoDup_lookup; [exact Hnd| |]; rewrite list_lookup_fmap.
    - by rewrite Hk.
    - rewrite Hi. simpl. by rewrite Hkey. }
  assert (reconcile now (d, t) = (set_added ({[broker_key up be]} ∪ di_autoAdded d) (evict now d), t')) as ->.
  { unfold reconcile. simpl. rewrite Hs. cbn [foldl]. unfold reconcile_one. fold (di_registry (evict now d)).
    change (filter _ (di_registry d)) with (di_registry (evict now d)). rewrite Er, Hr, lookup_singleton_eq, Hp.
    rewrite bool_decide_eq_false_2 by naive_solver. simpl. rewrite Hb, <- Hbs, Htop, <- Ea.
    apply try_brokers_next; rewrite ?Ea; try done.
    intros b Hin. rewrite Hau, elem_of_list_to_set. by apply list_elem_of_fmap_2. }
  cbv zeta. split_and!.
  - split; [exact Hs|exact Hb| |].
    + exists info, ep, seen. split_and!; try done. etransitivity; [exact Er|done].
    + change ({[broker_key up be]} ∪ di_autoAdded d = list_to_set (broker_key up <$> take (S k) bs)).
      rewrite Hau, (take_S_r _ _ be), fmap_app, list_to_set_app_L by done. set_solver.
  - unfold seen_at. change (di_registry (_, t').1) with (di_registry (evict now d)). by rewrite Er.
  - apply host_add_ok in E. simpl. rewrite E. by rewrite lookup_insert_eq.
Qed.

(** A node with several brokers and a live upstream: the first
    reconciliation subscribes to it through the first broker, and each later one
    replaces that subscription by one through the next broker, although the
    first works; after as many reconciliations as there are brokers the node
    listens only on the last, wherever the upstream publishes. *)
Theorem subscription_moves up topic bs d (t : T) nows k be :
  moving up topic bs 0 d -> Forall (fun now => evictThreshold now <= seen_at up d) nows ->
  NoDup (be_Broker <$> bs) -> (forall tc t, (host_add tc t).1 = None) ->
  length nows = S k -> bs !! k = Some be ->
  host_cfg (foldl (fun st now => reconcile now st) (d, t) nows).2 !! ("auto-" +:+ up)
  = Some (auto_transport (be_Broker be) up topic).
Proof.
  intros Hm Hf Hnd Hadd Hlen Hk.
  assert (forall j st, (k = j + length nows - 1)%nat -> moving up topic bs j st.1 -> seen_at up st.1 = seen_at up d ->
    nows <> [] -> host_cfg (foldl (fun st now => reconcile now st) st nows).2 !! ("auto-" +:+ up)
    = Some (auto_transport (be_Broker be) up topic)) as Hgen.
  { clear Hm Hlen. induction Hf as [|now nows Hnow Hf IH]; intros j [d' t'] Hj Hm Hs Hne; [done|]. cbn [length] in Hj.
    destruct (lookup_lt_is_Some_2 bs j) as [bj Hbj]; [apply lookup_lt_Some in Hk; lia|].
    simpl in Hm, Hs. destruct (reconcile_moves up topic bs j d' t' now bj Hm) as (Hm' & Hs' & Hc); try done;
      [by rewrite Hs|]. cbn [foldl]. destruct nows as [|now' nows].
    - simpl in *. assert (k = j) as -> by lia. congruence.
    - apply (IH (S j)); [simpl in *; lia|done|congruence|done]. }
  apply (Hgen 0%nat); try done; [lia|]. by intros ->.
Qed.
End moves.

(** ** Topic patterns *)

(** How a broker matches a topic with a filter: level by level, a plus sign for
    any one level, a hash sign for the parent and everything below. *)
Fixpoint levels_match (f t : list string) : bool :=
  match f, t with
  | ["#"%string], _ => true
  | x :: f, y :: t => (String.eqb x "+" || String.eqb x y) && levels_match f t
  | [], [] => true
  | _, _ => false
  end.

Definition subscribed (pattern topic : string) : bool := levels_match (split_slash pattern) (split_slash topic).

Lemma split_slash_app a b : split_slash (a +:+ String "/" b) = split_slash a ++ split_slash b.
Proof.
  induction a as [|c a IH]; [done|]. rewrite str_app_cons. cbn [split_slash]. rewrite IH.
  case_bool_decide; [done|]. destruct (split_slash a) as [|h l] eqn:E; [|done].
  exfalso. destruct a as [|x a]; simpl in E; [done|]. case_bool_decide; [done|]. by destruct (split_slash a).
Qed.

Lemma levels_match_below f t : levels_match (f ++ ["#"%string]) (f ++ t) = true.
Proof.
  induction f as [|x f IH]; [done|]. rewrite <- !app_comm_cons.
  assert (exists y l, f ++ ["#"%string] = y :: l) as (y & l & E) by (destruct f; simpl; eauto).
  cbn [levels_match]. rewrite E in *. rewrite IH, String.eqb_refl, orb_true_r.
  by destruct (String.eqb x "#") eqn:Ex; [apply String.eqb_eq in Ex as ->|]; repeat case_match.
Qed.

Lemma trimSlash_snoc p : trimSlash (p +:+ "/") = p.
Proof.
  unfold trimSlash, str_rev.
  assert (String.list_ascii_of_string (p +:+ "/") = String.list_ascii_of_string p ++ ["/"%char]) as ->.
  { induction p as [|c p IH]; [done|]. rewrite str_app_cons. simpl. by rewrite IH. }
  rewrite rev_app_distr. simpl. rewrite list_ascii_of_string_of_list_ascii, rev_involutive.
  apply string_of_list_ascii_of_string.
Qed.

(** The pattern a node advertises covers every topic its template
    can give, when the fixed part before the first variable is empty or ends in a
    slash. *)
Theorem pattern_covers tpl idx p rest :
  String.index 0 "{{" tpl = Some idx ->
  String.substring 0 idx tpl = EmptyString \/ String.substring 0 idx tpl = p +:+ "/" ->
  subscribed (topicTemplateToSubscriptionPattern tpl) (String.substring 0 idx tpl +:+ rest) = true.
Proof.
  intros Hi Hp. unfold topicTemplateToSubscriptionPattern, subscribed. rewrite Hi.
  destruct Hp as [->| ->]; [done|]. rewrite trimSlash_snoc, str_app_assoc. case_decide as Hp.
  - by subst.
  - change ("/" +:+ rest) with (String "/" rest). change "/#"%string with (String "/" "#").
    rewrite !split_slash_app. apply levels_match_below.
Qed.

(** So does that of a template without variables. *)
Lemma pattern_covers_static tpl p :
  String.index 0 "{{" tpl = None -> tpl = p \/ tpl = p +:+ "/" -> trimSlash p = p ->
  subscribed (topicTemplateToSubscriptionPattern tpl) tpl = true.
Proof.
  intros Hi Ht Hp. unfold topicTemplateToSubscriptionPattern, subscribed. rewrite Hi.
  destruct Ht as [->| ->]; rewrite ?Hp, ?trimSlash_snoc; change "/#"%string with (String "/" "#");
    rewrite split_slash_app; [|rewrite (split_slash_app p "")]; [|apply levels_match_below].
  rewrite <- (app_nil_r (split_slash p)) at 2. apply levels_match_below.
Qed.

(** A variable in the middle of a segment is not covered. *)
Lemma pattern_misses :
  topicTemplateToSubscriptionPattern "plant-{{.Driver}}/data" = "plant-/#"%string
  /\ subscribed "plant-/#" "plant-A/data" = false.
Proof. done. Qed.

(** ** Heartbeats arrive as they were sent *)

Definition ep_ok (e : endpoint) : Prop := utf8 (ep_Type e) /\ utf8 (ep_Topic e) /\ utf8 (ep_URL e).

Record info_ok (i : nodeInfo) : Prop := {
  io_id : utf8 (ni_ID i);
  io_role : utf8 (ni_Role i);
  io_subscribe : Forall utf8 (ni_Subscribe i);
  io_publish : forall e, ni_Publish i = Some e -> ep_ok e;
  io_receive : forall e, ni_Receive i = Some e -> ep_ok e;
  io_ts : - 2 ^ 63 <= ni_Timestamp i < 2 ^ 63;
}.

(** The next field, whose decoding is the given equation. *)
Ltac next_field E :=
  erewrite decode_members_field;
  [|vm_compute; reflexivity|cbn [ni_set ep_set]; unfold ni_set, ep_set; simpl bool_decide; cbn iota; rewrite E by done; reflexivity].

Lemma ep_decode e old : ep_ok e -> old = None -> set_endpoint (ep_json e) old = Some (Some e).
Proof.
  intros (Ht & Hp & Hu) ->. unfold set_endpoint, ep_json, decode_struct. cbn [default].
  destruct e as [ty tp u]. cbn [ep_Type ep_Topic ep_URL] in *.
  assert (decode_members ep_fields ep_set
    ([("type", jstring ty)]%string ++ omitempty "topic" (String.eqb "") jstring tp
      ++ omitempty "url" (String.eqb "") jstring u) (mkEndpoint "" "" "") = Some (mkEndpoint ty tp u)) as ->; [|done].
  rewrite <- app_comm_cons. next_field set_jstring. cbn [app]. unfold omitempty.
  destruct (String.eqb_spec "" tp) as [<-|]; destruct (String.eqb_spec "" u) as [<-|]; cbn [app];
    repeat next_field set_jstring; done.
Qed.

Lemma set_strings_json l : Forall utf8 l -> set_strings (JArr (jstring <$> l)) = Some l.
Proof.
  intros Hl. simpl. induction Hl as [|s l Hs Hl IH]; [done|]. rewrite fmap_cons. cbn [mapM].
  rewrite set_jstring by done. simpl in *. by rewrite IH.
Qed.

Lemma info_decode i : info_ok i -> decode_members ni_fields ni_set (info_members i) ni_zero = Some i.
Proof.
  intros [Hid Hro Hsu Hpu Hre Hts]. destruct i as [id ro su pu re ts].
  cbn [ni_ID ni_Role ni_Subscribe ni_Publish ni_Receive ni_Timestamp] in *.
  unfold info_members, ni_zero. cbn [ni_ID ni_Role ni_Subscribe ni_Publish ni_Receive ni_Timestamp].
  rewrite <- !app_comm_cons. do 2 next_field set_jstring. cbn [app]. rewrite !decode_members_app.
  assert (decode_members ni_fields ni_set (sub_member su) (mkInfo id ro [] None None 0)
    = Some (mkInfo id ro su None None 0)) as ->.
  { unfold sub_member. case_decide; [by subst|]. by next_field set_strings_json. }
  cbn [mbind option_bind]. rewrite decode_members_app.
  assert (decode_members ni_fields ni_set (opt_member "publish" pu) (mkInfo id ro su None None 0)
    = Some (mkInfo id ro su pu None 0)) as ->.
  { destruct pu as [e|]; [|done]. pose proof (fun old => ep_decode e old (Hpu e eq_refl)) as He.
    unfold opt_member. by next_field He. }
  cbn [mbind option_bind]. rewrite decode_members_app.
  assert (decode_members ni_fields ni_set (opt_member "receive" re) (mkInfo id ro su pu None 0)
    = Some (mkInfo id ro su pu re 0)) as ->.
  { destruct re as [e|]; [|done]. pose proof (fun old => ep_decode e old (Hre e eq_refl)) as He.
    unfold opt_member. by next_field He. }
  cbn [mbind option_bind]. by next_field set_int_itoa.
Qed.

(** A document without characters to escape, of small depth. *)
Definition plain_json (n : Z) (v : json) : Prop := wf v /\ hescape v = v /\ nesting v <= n.

Lemma plain_json_string n s : 0 <= n -> plain_json n (jstring s).
Proof. intros Hn. split_and!; [apply body_ok_esc|simpl; by rewrite hesc_esc|done]. Qed.

Lemma plain_obj n l :
  0 <= n -> Forall (fun kv => esc kv.1 = kv.1 /\ plain_json n kv.2) l -> plain_json (n + 1) (JObj l).
Proof.
  intros Hn Hl. split_and!.
  - apply wf_obj. eapply Forall_impl; [exact Hl|]. intros [k v] (Hk & Hw & _). simpl in *. split; [|done].
    rewrite <- Hk. apply body_ok_esc.
  - cbn [hescape]. f_equal. rewrite <- (list_fmap_id l) at 2. apply Forall_fmap_ext_1.
    eapply Forall_impl; [exact Hl|]. intros [k v] (Hk & _ & Hv & _). simpl in *. rewrite Hv.
    by rewrite <- Hk, hesc_esc, Hk.
  - apply nesting_obj_flat; [done|]. eapply Forall_impl; [exact Hl|]. by intros [k v] (_ & _ & _ & ?).
Qed.

Lemma plain_arr n l : 0 <= n -> Forall (plain_json n) l -> plain_json (n + 1) (JArr l).
Proof.
  intros Hn Hl. split_and!.
  - apply wf_arr. eapply Forall_impl; [exact Hl|]. by intros ? [].
  - cbn [hescape]. f_equal. rewrite <- (list_fmap_id l) at 2. apply Forall_fmap_ext_1.
    eapply Forall_impl; [exact Hl|]. by intros ? (_ & ? & _).
  - simpl. induction Hl as [|v l (_ & _ & Hv) _ IH]; simpl in *; lia.
Qed.

Lemma plain_ep e : plain_json 1 (ep_json e).
Proof.
  apply (plain_obj 0); [done|]. unfold omitempty. repeat apply Forall_app_2; repeat case_match;
    repeat apply Forall_cons_2; try apply Forall_nil_2; (split; [reflexivity|by apply plain_json_string]).
Qed.

Lemma plain_opt key e : esc key = key -> Forall (fun kv => esc kv.1 = kv.1 /\ plain_json 1 kv.2) (opt_member key e).
Proof. intros Hk. destruct e; repeat constructor; simpl; try done; apply plain_ep. Qed.

Lemma plain_info i : info_ok i -> plain_json 2 (JObj (info_members i)).
Proof.
  intros Hi. apply (plain_obj 1); [done|]. unfold info_members. repeat apply Forall_app_2.
  - repeat apply Forall_cons_2; try apply Forall_nil_2; (split; [reflexivity|by apply plain_json_string]).
  - unfold sub_member. case_decide; [done|]. apply Forall_cons_2; [|done]. split; [reflexivity|].
    apply (plain_arr 0); [done|]. apply Forall_fmap, Forall_true. intros. by apply plain_json_string.
  - by apply plain_opt.
  - by apply plain_opt.
  - apply Forall_cons_2; [|done]. split; [reflexivity|]. pose proof (io_ts i Hi). split_and!; try done.
    apply num_ok_itoa. lia.
Qed.

(** A heartbeat sent by one node is read by every other as it was:
    id, role, subscriptions, endpoints and time. *)
Theorem heartbeat_roundtrip i : info_ok i -> unmarshal_info (marshal_info i) = Some i.
Proof.
  intros Hi. destruct (plain_info i Hi) as (Hw & Hh & Hn). unfold unmarshal_info, marshal_info. rewrite Hh.
  rewrite parse_print by (done || (unfold maxNestingDepth; lia)). simpl. by apply info_decode.
Qed.

(** ** The registry of transports implements the interface *)

Section host.
Context {E : Type} `{!ManagerEnv E} `{!GoArch}.

Lemma startTransport_cfg tc (g : engine E) :
  tm_transportCfg (en_tm (startTransport tc g).2) = tm_transportCfg (en_tm g).
Proof.
  destruct (startTransport_spec tc g) as [e He].
  destruct (startTransport tc g) as [[id|err] g1]; simpl in *; [destruct He as [_ ->]|subst]; done.
Qed.

Lemma stopTransport_cfg id (g : engine E) : tm_transportCfg (en_tm (stopTransport id g).2) = tm_transportCfg (en_tm g).
Proof. unfold stopTransport, call. by destruct (env_tstop id (en_env g)). Qed.

Lemma AddTransport_cfg tc (g g' : engine E) err :
  AddTransport tc g = (err, g') ->
  tm_transportCfg (en_tm g') = match err with
    | None => <[tp_Name tc := tc]> (tm_transportCfg (en_tm g))
    | Some _ => tm_transportCfg (en_tm g)
    end.
Proof.
  intros Ha. unfold AddTransport in Ha. pose proof (startTransport_cfg tc g) as Hs.
  destruct (startTransport tc g) as [[id|e] g1]; simpl in Hs; injection Ha as <- <-; [|done].
  simpl. f_equal. destruct (tm_transports (en_tm g1) !! tp_Name tc); [|done].
  rewrite stopTransport_cfg. done.
Qed.

#[export] Instance manager_host : TransportHost (engine E).
Proof.
  refine {| host_add := AddTransport; host_cfg g := tm_transportCfg (en_tm g) |}.
  - intros tc g g' Ha. exact (AddTransport_cfg tc g g' None Ha).
  - intros tc g g' e Ha. exact (AddTransport_cfg tc g g' (Some e) Ha).
Defined.
End host.

(** ** Examples *)

Module Examples.
#[export] Instance host : TransportHost (engine (Z * bool)) := manager_host (H := amd64_f2i).

Definition node : NodeConfig := mkNodeConfig "hub" "core" ["edge"%string] "".
Definition brokers : list brokerEndpoint := [mkBroker "tcp://a" None; mkBroker "tcp://b" None].
Definition edge : nodeInfo := mkInfo "edge" "edge" [] (Some (mkEndpoint "mqtt" "corec/edge/#" "")) None 1700000000.
Definition hello : disc_event := Heartbeat second (marshal_info edge).
Definition heard : Discovery := onDiscoveryMessage second (marshal_info edge) (NewDiscovery node brokers).
End Examples.
Import Examples.

Lemma registry_exact_witness :
  di_registry (disc_step (foldl disc_step (NewDiscovery node brokers, Manager.Demo.empty) [hello])
    (Reconcile (16 * second))).1 !! "edge"%string = Some (edge, second)
  /\ di_registry (disc_step (foldl disc_step (NewDiscovery node brokers, Manager.Demo.empty) [hello])
       (Reconcile (17 * second))).1 !! "edge"%string = None.
Proof.
  split; rewrite registry_exact by (repeat constructor; vm_compute; discriminate); vm_compute; reflexivity.
Defined.

Lemma discovered_transports_witness :
  answers "hub" brokers ["edge"%string] [hello; Reconcile (2 * second)]
    (auto_transport "tcp://a" "edge" "corec/edge/#").
Proof.
  destruct (discovered_transports node brokers Manager.Demo.empty [hello; Reconcile (2 * second)]
    "auto-edge" (auto_transport "tcp://a" "edge" "corec/edge/#")) as [H|H].
  - vm_compute. reflexivity.
  - vm_compute in H. discriminate.
  - exact H.
Defined.

Lemma subscription_moves_witness :
  host_cfg (foldl (fun st now => reconcile now st) (heard, Manager.Demo.empty) [2 * second; 4 * second]).2
    !! "auto-edge"%string = Some (auto_transport "tcp://b" "edge" "corec/edge/#").
Proof.
  apply (subscription_moves "edge" "corec/edge/#" brokers heard Manager.Demo.empty [2 * second; 4 * second] 1%nat
    (mkBroker "tcp://b" None)).
  - split; [reflexivity|reflexivity| |vm_compute; reflexivity].
    exists edge, (mkEndpoint "mqtt" "corec/edge/#" ""), second. split_and!; vm_compute; reflexivity.
  - repeat constructor; vm_compute; discriminate.
  - apply (bool_decide_eq_true_1 (NoDup _)). vm_compute. reflexivity.
  - intros tc t. unfold host_add, host, manager_host, AddTransport, startTransport, call. reflexivity.
  - reflexivity.
  - reflexivity.
Defined.

Lemma heartbeat_roundtrip_witness : unmarshal_info (marshal_info edge) = Some edge.
Proof.
  apply heartbeat_roundtrip. split; try (by apply utf8_ascii); [constructor| |done|done].
  intros e [= <-]. split_and!; by apply utf8_ascii.
Defined.

Lemma pattern_covers_witness : subscribed "corec/edge/#" "corec/edge/plc1/count" = true.
Proof.
  apply (pattern_covers "corec/edge/{{.Driver}}/{{.Tag}}" 11 "corec/edge" "plc1/count"); [reflexivity|by right].
Defined.
