(* ===== verification/Metrics.v ===== *)
(** * Metric primitives ([common/metrics]: rate, latency, registry)

    The sliding rate window, whose sixty buckets are single words updated by
    compare-and-swap loops; the cumulative latency histogram; the registry of
    the metrics drivers emit.  The loops of concurrent observers are steps of a
    machine, one load or one compare-and-swap at a time.

    The theorems show that the window's sum is the number of observations of
    the last minute under every interleaving of the observers, and that a
    histogram's counts are the numbers of observations up to each bound. *)

From Stdlib Require Import ZArith Lia String Ascii SpecFloat.
From stdpp Require Import base list gmap strings.
From S2P Require Import Prelude GoFloat GoTime.

Open Scope Z_scope.

(** ** The rate window *)

Definition rateWindowSeconds : Z := 60.
Definition rateCountBits : Z := 24.
Definition rateCountMax : Z := 2 ^ rateCountBits - 1.

(** The words of the buckets. *)
Notation RateWindow := (list Z).

Definition NewRateWindow : RateWindow := replicate (Z.to_nat rateWindowSeconds) 0.

Definition pack (sec count : Z) : Z :=
  Z.lor (u64 (Z.shiftl sec rateCountBits)) (if decide (rateCountMax < count) then rateCountMax else count).

Definition unpack (w : Z) : Z * Z := (Z.shiftr w rateCountBits, Z.land w rateCountMax).

(** [uint64(now.Unix())]. *)
Definition unixSeconds (now : Z) : Z := u64 (now / second).

Definition rateSlot (sec : Z) : nat := Z.to_nat (sec mod rateWindowSeconds).

(** The word that replaces [old]. *)
Definition observeWord (sec n old : Z) : Z :=
  let '(oldSec, oldCount) := unpack old in
  if decide (oldSec <> sec) then pack sec n else pack sec (u64 (oldCount + n)).

(** [Observe] when no other observer interferes. *)
Definition Observe (now n : Z) (r : RateWindow) : RateWindow :=
  if decide (n = 0) then r
  else let sec := unixSeconds now in alter (observeWord sec n) (rateSlot sec) r.

(** What a bucket adds to the sum. *)
Definition counted (sec w : Z) : Z :=
  let '(bSec, bCount) := unpack w in
  if decide (bCount = 0) then 0
  else if decide (bSec <= sec /\ sec - bSec < rateWindowSeconds) then bCount else 0.

Definition Sum (now : Z) (r : RateWindow) : Z :=
  foldl (fun total w => u64 (total + counted (unixSeconds now) w)) 0 r.

Definition WindowSeconds : Z := rateWindowSeconds.

(** *** Concurrent observers

    An observer that has read its clock is about to load its bucket, or has
    loaded a word and is about to swap.  A successful swap is an event. *)
Inductive observer := ToLoad (sec n : Z) | ToSwap (sec n old : Z).

Record rateState := mkRateState { rt_words : RateWindow; rt_threads : gmap nat observer }.

Inductive rate_step : rateState -> option (Z * Z) -> rateState -> Prop :=
| step_call r ts t now n : ts !! t = None -> n <> 0 ->
    rate_step (mkRateState r ts) None (mkRateState r (<[t := ToLoad (unixSeconds now) n]> ts))
| step_load r ts t sec n w : ts !! t = Some (ToLoad sec n) -> r !! rateSlot sec = Some w ->
    rate_step (mkRateState r ts) None (mkRateState r (<[t := ToSwap sec n w]> ts))
| step_swap r ts t sec n old : ts !! t = Some (ToSwap sec n old) -> r !! rateSlot sec = Some old ->
    rate_step (mkRateState r ts) (Some (sec, n))
      (mkRateState (<[rateSlot sec := observeWord sec n old]> r) (delete t ts))
| step_retry r ts t sec n old w : ts !! t = Some (ToSwap sec n old) -> r !! rateSlot sec = Some w -> w <> old ->
    rate_step (mkRateState r ts) None (mkRateState r (<[t := ToLoad sec n]> ts)).

(** A run with its events in order. *)
Inductive rate_run : rateState -> list (Z * Z) -> rateState -> Prop :=
| run_nil s : rate_run s [] s
| run_silent s l s' s'' : rate_run s l s' -> rate_step s' None s'' -> rate_run s l s''
| run_event s l s' e s'' : rate_run s l s' -> rate_step s' (Some e) s'' -> rate_run s (l ++ [e]) s''.

(** ** The latency histogram *)

Definition bounds (l : list (Z * Z)) : list float := (fun p => fdiv F64 (f_of_Z F64 p.1) (f_of_Z F64 p.2)) <$> l.

Definition DefaultReadLatencyBuckets : list float :=
  bounds [(1, 1000); (5, 1000); (1, 100); (5, 100); (1, 10); (5, 10); (1, 1); (5, 1); (10, 1)].
Definition DefaultPublishLatencyBuckets : list float := DefaultReadLatencyBuckets.
Definition DefaultDataAgeBuckets : list float :=
  bounds [(1, 10); (5, 10); (1, 1); (5, 1); (10, 1); (30, 1); (60, 1); (300, 1); (600, 1)].

Record LatencyHistogram := mkHistogram {
  lh_buckets : list float;
  lh_counts : list Z;
  lh_sum : float;
  lh_count : Z;
}.

Definition NewLatencyHistogram (buckets : list float) : LatencyHistogram :=
  mkHistogram buckets (replicate (length buckets) 0) f_zero 0.

Definition observeLatency (d : Z) (h : LatencyHistogram) : LatencyHistogram :=
  let secs := Duration_Seconds d in
  mkHistogram (lh_buckets h)
    (zip_with (fun ub c => if fleb secs ub then u64 (c + 1) else c) (lh_buckets h) (lh_counts h))
    (fadd F64 (lh_sum h) secs) (u64 (lh_count h + 1)).

Definition latencySnapshot (h : LatencyHistogram) : list float * list Z * float * Z :=
  (lh_buckets h, lh_counts h, lh_sum h, lh_count h).

(** ** The registry *)

Inductive MetricKind := KindCounter | KindGauge.

Record Metric := mkMetric {
  me_Name : string;
  me_Kind : MetricKind;
  me_Labels : gmap string string;
  me_Value : float;
}.

Definition labelPair (kv : string * string) : string := kv.1 +:+ "=" +:+ kv.2 +:+ ";".

(** The labels in the order of their names. *)
Definition sortedLabels (labels : gmap string string) : list (string * string) :=
  stable_sort (fun a b => String.ltb a.1 b.1) (map_to_list labels).

Definition labelsText (labels : gmap string string) : string :=
  foldr (fun kv s => labelPair kv +:+ s) EmptyString (sortedLabels labels).

Definition keyFor (name : string) (labels : gmap string string) : string * string := (name, labelsText labels).

Record MetricRegistry := mkMetrics {
  mr_counters : gmap (string * string) Metric;
  mr_gauges : gmap (string * string) Metric;
}.

Definition NewRegistry : MetricRegistry := mkMetrics ∅ ∅.

(** The series after [delta] was added or set. *)
Definition updateMetric (name : string) (kind : MetricKind) (labels : gmap string string) (delta : float)
    (increment : bool) (found : option Metric) : Metric :=
  let m := default (mkMetric name kind labels f_zero) found in
  mkMetric (me_Name m) (me_Kind m) (me_Labels m)
    (if increment then fadd F64 (me_Value m) delta else delta).

Definition addMetric (name : string) (kind : MetricKind) (labels : gmap string string) (delta : float)
    (increment : bool) (r : MetricRegistry) : MetricRegistry :=
  let key := keyFor name labels in
  let upd m := <[key := updateMetric name kind labels delta increment (m !! key)]> m in
  match kind with
  | KindCounter => mkMetrics (upd (mr_counters r)) (mr_gauges r)
  | KindGauge => mkMetrics (mr_counters r) (upd (mr_gauges r))
  end.

Definition IncCounter (name : string) (labels : gmap string string) : MetricRegistry -> MetricRegistry :=
  addMetric name KindCounter labels (f_of_Z F64 1) true.

Definition SetGauge (name : string) (value : float) (labels : gmap string string) : MetricRegistry -> MetricRegistry :=
  addMetric name KindGauge labels value false.

Definition metric_ltb (a b : Metric) : bool :=
  if bool_decide (me_Name a <> me_Name b) then String.ltb (me_Name a) (me_Name b)
  else String.ltb (labelsText (me_Labels a)) (labelsText (me_Labels b)).

(** [sort.Slice] is not stable, and a counter and a gauge may compare equal;
    [tie] stands for the order it happens to give. *)
Definition metricsSnapshot (tie : list Metric -> list Metric) (r : MetricRegistry) : list Metric :=
  stable_sort metric_ltb (tie ((map_to_list (mr_counters r)).*2 ++ (map_to_list (mr_gauges r)).*2)).

(** ** The window counts the last minute *)

Lemma unpack_pack s c : 0 <= s < 2 ^ 40 -> 0 <= c <= rateCountMax -> unpack (pack s c) = (s, c).
Proof.
  intros Hs Hc. unfold pack, unpack. rewrite decide_False by lia.
  unfold rateCountMax, rateCountBits in *.
  assert (Hsh : Z.shiftl s 24 = s * 2 ^ 24) by (by rewrite Z.shiftl_mul_pow2).
  rewrite wrapu_small by (rewrite Hsh; lia). rewrite lor_shiftl_add, Z.shiftr_div_pow2 by lia.
  change (2 ^ 24 - 1) with (Z.ones 24). rewrite Z.land_ones by lia.
  f_equal; [symmetry; apply Z.div_unique with c; lia|symmetry; apply Z.mod_unique with s; lia].
Qed.

Lemma unpack_0 : unpack 0 = (0, 0).
Proof. done. Qed.

(** The observations of one second. *)
Definition perSecond (l : list (Z * Z)) (s : Z) : Z := zsum (filter (fun e => e.1 = s) l).*2.

Lemma perSecond_snoc l e s : perSecond (l ++ [e]) s = perSecond l s + (if decide (e.1 = s) then e.2 else 0).
Proof.
  unfold perSecond. rewrite filter_app, fmap_app, zsum_app. f_equal. rewrite filter_cons, filter_nil.
  case_decide; cbn; lia.
Qed.

Lemma perSecond_none l s : Forall (fun e => e.1 <> s) l -> perSecond l s = 0.
Proof. intros Hl. unfold perSecond. by rewrite filter_none. Qed.

Lemma perSecond_nonneg l s : Forall (fun e => 0 < e.2) l -> 0 <= perSecond l s.
Proof.
  intros Hl. apply zsum_nonneg, Forall_fmap, Forall_filter. eapply Forall_impl; [exact Hl|]. cbn. lia.
Qed.

(** What is expected of the events: seconds of this era up to [now], at least
    one observation each, none that lands a whole window after its clock was
    read, and no second that saturates its bucket. *)
Record events_ok (now : Z) (l : list (Z * Z)) : Prop := {
  eo_range : Forall (fun e => 0 <= e.1 <= now) l;
  eo_count : Forall (fun e => 0 < e.2) l;
  eo_delay i j a b : (i < j)%nat -> l !! i = Some a -> l !! j = Some b -> a.1 - rateWindowSeconds < b.1;
  eo_capacity s : perSecond l s <= rateCountMax;
}.

Lemma events_prefix now l e : events_ok now (l ++ [e]) -> events_ok now l.
Proof.
  intros [Hr Hc Hd Hs]. apply Forall_app in Hr as [Hr _]. apply Forall_app in Hc as [Hc [He _]%Forall_cons_1].
  split; [done|done| |].
  - intros i j a b Hij Ha Hb. apply (Hd i j); [done|by apply lookup_app_l_Some..].
  - intros s. specialize (Hs s). rewrite perSecond_snoc in Hs.  case_decide; lia.
Qed.

(** The word of a slot: empty, or the newest second of the slot with its count. *)
Definition slot_ok (l : list (Z * Z)) (i : nat) (w : Z) : Prop :=
  (w = 0 /\ Forall (fun e => rateSlot e.1 <> i) l)
  \/ exists s, rateSlot s = i /\ w = pack s (perSecond l s) /\ (exists n, (s, n) ∈ l)
       /\ Forall (fun e => rateSlot e.1 = i -> e.1 <= s) l.

Lemma same_slot a b : 0 <= a -> 0 <= b -> rateSlot a = rateSlot b -> a - 60 < b -> a <= b.
Proof. unfold rateSlot, rateWindowSeconds. intros ? ? Heq ?. apply Z2Nat.inj in Heq; Z.to_euclidean_division_equations; lia. Qed.

(** One more event. *)
Lemma observe_slot now l sec n i w :
  now < 2 ^ 40 -> events_ok now (l ++ [(sec, n)]) -> slot_ok l i w ->
  slot_ok (l ++ [(sec, n)]) i (if decide (rateSlot sec = i) then observeWord sec n w else w).
Proof.
  intros Hnow Hok Hw. pose proof (events_prefix _ _ _ Hok) as Hpre.
  assert (Hr : 0 <= sec <= now) by (destruct Hok as [Hr _ _ _]; apply Forall_app in Hr as [_ [Hr _]%Forall_cons_1]; done).
  assert (Hn : 0 < n) by (destruct Hok as [_ Hc _ _]; apply Forall_app in Hc as [_ [Hc _]%Forall_cons_1]; done).
  pose proof (eo_capacity _ _ Hok sec) as Hcap. rewrite perSecond_snoc, decide_True in Hcap by done. cbn in Hcap.
  pose proof (perSecond_nonneg l sec (eo_count _ _ Hpre)) as Hnn.
  assert (Hmem : exists m, (sec, m) ∈ l ++ [(sec, n)]) by (exists n; apply elem_of_app; right; left).
  case_decide as Hi.
  2:{ destruct Hw as [[-> Hno]|(s & Hs & -> & [m Hm] & Hmax)]; [left|right].
      - split; [done|]. by apply Forall_app; split; [|apply Forall_singleton].
      - exists s. split; [done|]. rewrite perSecond_snoc, decide_False by (cbn; congruence). rewrite Z.add_0_r.
        split; [done|]. split; [exists m; apply elem_of_app; by left|].
        apply Forall_app. split; [done|]. apply Forall_singleton. by cbn. }
  right. exists sec. split; [done|]. rewrite perSecond_snoc, decide_True by done. cbn [snd].
  assert (Hfresh : Forall (fun e => rateSlot e.1 = i -> e.1 < sec) l -> perSecond l sec = 0).
  { intros Hlt. apply perSecond_none. eapply Forall_impl; [exact Hlt|]. cbn. intros e He Heq. subst.
    specialize (He eq_refl). lia. }
  destruct Hw as [[-> Hno]|(s & Hs & -> & [m Hm] & Hmax)].
  - assert (Hz : perSecond l sec = 0).
    { apply Hfresh. eapply Forall_impl; [exact Hno|]. by cbn. }
    unfold observeWord. rewrite unpack_0. rewrite Hz, Z.add_0_l, wrapu_small.
    2:{ unfold rateCountMax, rateCountBits in *. lia. }
    split; [by case_decide|]. split; [done|]. apply Forall_app. split; [|by apply Forall_singleton].
    eapply Forall_impl; [exact Hno|]. by cbn.
  - assert (Hsle : 0 <= s <= sec).
    { apply list_elem_of_lookup in Hm as [k Hk]. pose proof (proj1 (list.Forall_forall _ _) (eo_range _ _ Hpre)) as Hrange.
      specialize (Hrange (s, m) ltac:(by eapply list_elem_of_lookup_2)). cbn in Hrange.
      split; [lia|]. apply same_slot; [lia..|congruence|]. apply lookup_lt_Some in Hk as Hlt.
      eapply (eo_delay _ _ Hok k (length l) (s, m) (sec, n)); [done|by apply lookup_app_l_Some|].
      rewrite lookup_app_r, Nat.sub_diag by lia. done. }
    assert (Hle : Forall (fun e => rateSlot e.1 = i -> e.1 <= sec) (l ++ [(sec, n)])).
    { apply Forall_app. split; [|by apply Forall_singleton]. eapply Forall_impl; [exact Hmax|]. cbn. intros e He He'.
      specialize (He He'). lia. }
    unfold observeWord. rewrite unpack_pack.
    2:{ lia. }
    2:{ split; [by apply perSecond_nonneg, (eo_count _ _ Hpre)|apply (eo_capacity _ _ Hpre)]. }
    case_decide as Hne.
    + rewrite Hfresh; [by rewrite Z.add_0_l|]. eapply Forall_impl; [exact Hmax|]. cbn. intros e He He'.
      specialize (He He'). lia.
    + subst s. rewrite wrapu_small; [done|]. unfold rateCountMax, rateCountBits in *. lia.
Qed.

(** Under every interleaving the words are those of the events one after the other. *)
Lemma run_words l s : rate_run (mkRateState NewRateWindow ∅) l s ->
  rt_words s = foldl (fun r e => alter (observeWord e.1 e.2) (rateSlot e.1) r) NewRateWindow l.
Proof.
  remember (mkRateState NewRateWindow ∅) as s0 eqn:E. intros Hr.
  induction Hr as [s|s l s' s'' Hr IH Hs|s l s' e s'' Hr IH Hs]; [by subst|..]; specialize (IH E).
  - by inversion Hs; subst.
  - inversion Hs as [| |r ts t sec n old Ht Hw|]; subst. cbn [rt_words] in *. rewrite foldl_snoc. cbn [fst snd]. rewrite <- IH.
    symmetry. apply list_eq. intros k. destruct (decide (k = rateSlot sec)) as [->|Hne].
    + rewrite list_lookup_alter_eq, Hw, list_lookup_insert_eq by by eapply lookup_lt_Some. done.
    + by rewrite list_lookup_alter_ne, list_lookup_insert_ne by done.
Qed.

Lemma words_ok now l i w :
  now < 2 ^ 40 -> events_ok now l ->
  foldl (fun r e => alter (observeWord e.1 e.2) (rateSlot e.1) r) NewRateWindow l !! i = Some w -> slot_ok l i w.
Proof.
  intros Hnow. revert w. induction l as [|e l IH] using rev_ind; intros w Hok Hw.
  - cbn in Hw. left. apply lookup_replicate in Hw as [-> _]. done.
  - rewrite foldl_snoc in Hw. destruct e as [sec n]. cbn in Hw. set (r := foldl _ _ l) in *.
    pose proof (events_prefix _ _ _ Hok) as Hpre.
    destruct (r !! i) as [v|] eqn:Hv.
    + pose proof (observe_slot now l sec n i v Hnow Hok (IH v Hpre eq_refl)) as Hs.
      case_decide as Hi; [|rewrite list_lookup_alter_ne in Hw by done; by simplify_eq].
      subst i. rewrite list_lookup_alter_eq, Hv in Hw. by injection Hw as <-.
    + exfalso. destruct (decide (rateSlot sec = i)) as [<-|Hi];
        [rewrite list_lookup_alter_eq in Hw|rewrite list_lookup_alter_ne in Hw by done]; by rewrite Hv in Hw.
Qed.

(** What a slot adds: its observations of the window. *)
Definition inWindow (now : Z) (e : Z * Z) : Prop := now - rateWindowSeconds < e.1 <= now.

Lemma counted_slot now l i w :
  0 <= now < 2 ^ 40 -> events_ok now l -> slot_ok l i w ->
  counted now w = zsum (filter (fun e => rateSlot e.1 = i /\ inWindow now e) l).*2.
Proof.
  intros Hnow Hok [[-> Hno]|(s & Hs & -> & [m Hm] & Hmax)].
  - rewrite filter_none; [done|]. eapply Forall_impl; [exact Hno|]. cbn. tauto.
  - pose proof (proj1 (list.Forall_forall _ _) (eo_range _ _ Hok)) as Hrange. pose proof (Hrange _ Hm) as Hsr. cbn in Hsr.
    unfold counted. rewrite unpack_pack.
    2:{ lia. }
    2:{ split; [by apply perSecond_nonneg, (eo_count _ _ Hok)|apply (eo_capacity _ _ Hok)]. }
    pose proof (proj1 (list.Forall_forall _ _) Hmax) as Hmax'. unfold inWindow, rateWindowSeconds in *.
    destruct (decide (now - s < 60)) as [Hin|Hout].
    + assert (Heq : filter (fun e => rateSlot e.1 = i /\ now - 60 < e.1 <= now) l = filter (fun e => e.1 = s) l).
      { apply filter_ext_in. intros e He. specialize (Hrange e He). specialize (Hmax' e He). cbn in *. split.
        - intros [Hi Hw]. specialize (Hmax' Hi).
          assert (s <= e.1); [|lia]. apply same_slot; [lia..|congruence|lia].
        - intros <-. split; [done|lia]. }
      rewrite Heq. change (zsum _) with (perSecond l s). repeat case_decide; lia.
    + rewrite filter_none; [repeat case_decide; cbn; lia|]. apply list.Forall_forall. intros e He [Hi Hw].
      specialize (Hmax' e He Hi). cbn in *. lia.
Qed.

(** The slots together hold every observation of the window once. *)
Lemma slots_sum now (l : list (Z * Z)) :
  zsum ((fun i => zsum (filter (fun e => rateSlot e.1 = i /\ inWindow now e) l).*2) <$> seq 0 60)
  = zsum (filter (inWindow now) l).*2.
Proof.
  induction l as [|e l IH]; [done|].
  transitivity (zsum ((fun i => (if decide (i = rateSlot e.1) then if decide (inWindow now e) then e.2 else 0 else 0)
      + zsum (filter (fun e => rateSlot e.1 = i /\ inWindow now e) l).*2) <$> seq 0 60)).
  - f_equal. apply list_fmap_ext. intros k i _. rewrite filter_cons.
    destruct (decide (i = rateSlot e.1)) as [->|Hi]; [|rewrite decide_False by naive_solver; lia].
    destruct (decide (inWindow now e)); [rewrite decide_True by done|rewrite decide_False by naive_solver]; done.
  - rewrite zsum_fmap_add, IH, zsum_single.
    + rewrite filter_cons. by case_decide.
    + unfold rateSlot, rateWindowSeconds. pose proof (Z.mod_pos_bound e.1 60 ltac:(lia)). lia.
Qed.

Lemma Sum_zsum now r : Forall (fun w => 0 <= counted (unixSeconds now) w <= rateCountMax) r -> (length r <= 60)%nat ->
  Sum now r = zsum (counted (unixSeconds now) <$> r).
Proof.
  intros Hr Hlen. unfold Sum. set (c := counted (unixSeconds now)) in *.
  assert (Hgo : forall acc, 0 <= acc -> acc + rateCountMax * Z.of_nat (length r) < 2 ^ 64 ->
    foldl (fun total w => u64 (total + c w)) acc r = acc + zsum (c <$> r)).
  { clear Hlen. induction Hr as [|w r Hw Hr IH]; intros acc Ha Hb; cbn in *; [lia|].
    rewrite wrapu_small by (unfold rateCountMax, rateCountBits in *; lia).
    rewrite IH by (unfold rateCountMax, rateCountBits in *; lia). unfold zsum. cbn. lia. }
  rewrite Hgo; [lia|lia|]. unfold rateCountMax, rateCountBits. lia.
Qed.

Lemma run_length l : length (foldl (fun r e => alter (observeWord e.1 e.2) (rateSlot e.1) r) NewRateWindow l) = 60%nat.
Proof.
  induction l as [|e l IH] using rev_ind; [done|]. rewrite foldl_snoc. by rewrite length_alter.
Qed.

(** The words of the events one after the other. *)
Definition observed (l : list (Z * Z)) : RateWindow :=
  foldl (fun r e => alter (observeWord e.1 e.2) (rateSlot e.1) r) NewRateWindow l.

Lemma observed_sum now l :
  0 <= now / second < 2 ^ 40 -> events_ok (now / second) l ->
  Sum now (observed l) = zsum (filter (inWindow (now / second)) l).*2.
Proof.
  intros Hnow Hok.
  set (r := observed l). assert (Hlen : length r = 60%nat) by apply run_length.
  assert (Hu : unixSeconds now = now / second) by (apply wrapu_small; lia).
  assert (Hw : forall i w, r !! i = Some w -> slot_ok l i w) by (intros i w Hi; by apply (words_ok (now / second)); [lia|..]).
  assert (Hc : counted (unixSeconds now) <$> r
    = (fun i => zsum (filter (fun e => rateSlot e.1 = i /\ inWindow (now / second) e) l).*2) <$> seq 0 60).
  { apply list_eq. intros i. rewrite !list_lookup_fmap. destruct (r !! i) as [w|] eqn:Hi.
    - apply lookup_lt_Some in Hi as Hl. rewrite lookup_seq_lt by lia. cbn. f_equal. rewrite Hu.
      apply counted_slot; [lia|done|]. by apply Hw.
    - apply lookup_ge_None in Hi. by rewrite lookup_seq_ge by lia. }
  rewrite Sum_zsum, Hc; [by apply slots_sum| |lia].
  apply list.Forall_forall. intros w [i Hi]%list_elem_of_lookup. rewrite Hu.
  unfold counted. destruct (Hw i w Hi) as [[-> _]|(x & _ & -> & [m Hm] & _)].
  { rewrite unpack_0, decide_True by done. unfold rateCountMax, rateCountBits. lia. }
  pose proof (proj1 (list.Forall_forall _ _) (eo_range _ _ Hok) _ Hm) as Hx. cbn in Hx.
  pose proof (perSecond_nonneg l x (eo_count _ _ Hok)). pose proof (eo_capacity _ _ Hok x).
  rewrite unpack_pack by lia. repeat case_decide; lia.
Qed.

(** C35. The rate window counts the last minute.  Whatever the interleaving of
    the loads and compare-and-swaps of concurrent observers, failed swaps
    included, the sum is the number of points of the observations that took
    effect whose clock read a second of the last sixty, as long as none of them
    takes effect sixty seconds after it read its clock and no second has more
    than 16777215 points. *)
Theorem rate_window_exact now l s :
  rate_run (mkRateState NewRateWindow ∅) l s ->
  0 <= now / second < 2 ^ 40 -> events_ok (now / second) l ->
  Sum now (rt_words s) = zsum (filter (inWindow (now / second)) l).*2.
Proof. intros Hrun%run_words. rewrite Hrun. apply observed_sum. Qed.

(** A failed swap means that another observer's swap succeeded after the load:
    the word the observer loaded is no longer there. *)
Lemma retry_means_progress r ts t sec n old l s :
  ts !! t = Some (ToSwap sec n old) -> r !! rateSlot sec = Some old ->
  rate_run (mkRateState r ts) l s -> rt_words s !! rateSlot sec <> Some old -> l <> [].
Proof.
  intros _ Hw Hr Hne ->. apply Hne. remember (mkRateState r ts) as s0 eqn:E. remember [] as l eqn:El.
  revert Hne. induction Hr as [s|s l s' s'' Hr IH Hs|s l s' e s'' Hr IH Hs]; intros Hne; [by subst| |by destruct l].
  subst. assert (Heq : rt_words s'' = rt_words s') by (by inversion Hs).
  rewrite Heq in *. by apply IH.
Qed.

(** ** Histograms count *)

(** The observations within a bound. *)
Definition upTo (ub : float) (ds : list Z) : list Z := filter (fun d => fleb (Duration_Seconds d) ub = true) ds.

Definition observeAll (ds : list Z) (h : LatencyHistogram) : LatencyHistogram :=
  foldl (fun h d => observeLatency d h) h ds.

(** Every count is the number of observations up to its bound, and the total is
    their number, as unsigned 64-bit integers. *)
Lemma histogram_exact buckets ds :
  let h := observeAll ds (NewLatencyHistogram buckets) in
  lh_buckets h = buckets
  /\ lh_counts h = (fun ub => u64 (Z.of_nat (length (upTo ub ds)))) <$> buckets
  /\ lh_count h = u64 (Z.of_nat (length ds)).
Proof.
  induction ds as [|d ds IH] using rev_ind.
  - cbn. split_and!; [done| |done]. induction buckets as [|b l IH]; [done|]. cbn. by rewrite IH.
  - unfold observeAll in *. rewrite foldl_snoc. set (h := foldl _ _ ds) in *. destruct IH as (Hb & Hc & Hn).
    cbn. split_and!; [done| |].
    + rewrite Hb, Hc. clear. induction buckets as [|b l IH]; [done|]. cbn. f_equal; [|done].
      unfold upTo. rewrite filter_app, length_app. rewrite filter_cons, filter_nil.
      destruct (fleb (Duration_Seconds d) b) eqn:Hf;
        [rewrite decide_True by done; cbn; rewrite u64_add|rewrite decide_False by congruence; cbn]; f_equal; lia.
    + rewrite Hn, u64_add. f_equal. rewrite length_app. cbn. lia.
Qed.

(** Before any counter wraps, no bucket counts more than the total. *)
Lemma histogram_bounded buckets ds i c :
  Z.of_nat (length ds) < 2 ^ 64 ->
  lh_counts (observeAll ds (NewLatencyHistogram buckets)) !! i = Some c ->
  0 <= c <= lh_count (observeAll ds (NewLatencyHistogram buckets)).
Proof.
  intros Hlen Hi. destruct (histogram_exact buckets ds) as (_ & Hc & Hn). rewrite Hc, list_lookup_fmap in Hi.
  destruct (buckets !! i) as [ub|]; [|done]. injection Hi as <-. rewrite Hn.
  pose proof (length_filter (fun d => fleb (Duration_Seconds d) ub = true) ds) as Hf. unfold upTo.
  rewrite !wrapu_small by lia. lia.
Qed.

(** ** Series of the registry *)

(** A counter incremented [n] times below 2^53 would be exact; here only that
    series of different keys do not interfere. *)
Lemma counter_other name labels name' labels' r :
  keyFor name labels <> keyFor name' labels' ->
  mr_counters (IncCounter name labels r) !! keyFor name' labels' = mr_counters r !! keyFor name' labels'.
Proof. intros Hne. cbn. by rewrite lookup_insert_ne. Qed.

(** Label sets that differ may have one key, and then one series: the values
    are joined without escaping. *)
Lemma label_keys_collide :
  let a := {["tag"%string := "x;unit=bar"%string]} in
  let b := <["unit"%string := "bar"%string]> {["tag"%string := "x"%string]} in
  (a : gmap string string) <> b /\ keyFor "m" a = keyFor "m" b
  /\ size (mr_counters (IncCounter "m" b (IncCounter "m" a NewRegistry))) = 1%nat.
Proof. split_and!; [intros Heq%(f_equal (fun m : gmap string string => m !! "unit"%string)); done|vm_compute; reflexivity..]. Qed.

(** ** A run *)

Module Demo.
(** Two observers of second 100 load the same word; the swap of the second one
    fails and is repeated. *)
Definition w1 : Z := pack 100 3.
Definition w2 : Z := pack 100 7.
Definition words (w : Z) : RateWindow := <[40%nat := w]> NewRateWindow.
Definition events : list (Z * Z) := [(100, 3); (100, 4)].

(** Extend the run [R] by a step. *)
Ltac silently R c := eapply run_silent; [exact R|eapply c; first [reflexivity|discriminate]].
Ltac swapping R c := eapply run_event; [exact R|eapply c; reflexivity].

Lemma interleaved : exists s, rate_run (mkRateState NewRateWindow ∅) events s /\ rt_words s = words w2.
Proof.
  pose proof (run_nil (mkRateState NewRateWindow ∅)) as R0.
  eassert (R1 : rate_run _ _ _) by silently R0 (step_call NewRateWindow ∅ 1%nat (100 * second) 3).
  eassert (R2 : rate_run _ _ _) by silently R1 (fun r ts => step_load r ts 1%nat 100 3 0).
  eassert (R3 : rate_run _ _ _) by silently R2 (fun r ts => step_call r ts 2%nat (100 * second) 4).
  eassert (R4 : rate_run _ _ _) by silently R3 (fun r ts => step_load r ts 2%nat 100 4 0).
  eassert (R5 : rate_run _ _ _) by swapping R4 (fun r ts => step_swap r ts 1%nat 100 3 0).
  eassert (R6 : rate_run _ _ _) by silently R5 (fun r ts => step_retry r ts 2%nat 100 4 0 w1).
  eassert (R7 : rate_run _ _ _) by silently R6 (fun r ts => step_load r ts 2%nat 100 4 w1).
  eassert (R8 : rate_run _ _ _) by swapping R7 (fun r ts => step_swap r ts 2%nat 100 4 w1).
  eexists. split; [exact R8|]. vm_compute. reflexivity.
Qed.

Lemma events_fine : events_ok 130 events.
Proof.
  split.
  - repeat constructor; cbn; lia.
  - repeat constructor; cbn; lia.
  - intros [|[|i]] [|[|j]] a b Hij Ha Hb; cbn in *; simplify_eq; unfold rateWindowSeconds; cbn; lia.
  - intros s. unfold perSecond, events. rewrite !filter_cons, filter_nil. unfold rateCountMax, rateCountBits.
    repeat case_decide; cbn; lia.
Qed.
End Demo.

Lemma rate_window_exact_witness :
  exists s, rate_run (mkRateState NewRateWindow ∅) Demo.events s /\ Sum (130 * second) (rt_words s) = 7.
Proof.
  destruct Demo.interleaved as (s & Hr & _). exists s. split; [exact Hr|].
  rewrite (rate_window_exact (130 * second) Demo.events s Hr).
  - reflexivity.
  - vm_compute. split; [discriminate|reflexivity].
  - exact Demo.events_fine.
Defined.
