(* ===== verification/Stats.v ===== *)
(** * The engine's statistics ([engine/stats_collector.go], [engine/labeled_latency.go])

    The counters, the rate window, the latency histograms (one aggregate and
    one per driver or transport for each kind) and what the statistics report
    of the engine: its components, the data bus, the batchers and the offline
    buffer, which are handed in as they are when the report is made.

    The theorems show that an aggregate histogram is the sum of the labelled
    ones, whichever path the observations take, and what the reported rate is
    after a minute without data. *)

From Stdlib Require Import ZArith Lia String Ascii SpecFloat.
From stdpp Require Import base list gmap strings.
From S2P Require Import Prelude GoFloat GoTime Types DataBus OfflineBuffer Engine Metrics.

Open Scope Z_scope.

(** ** Labelled histograms *)

Inductive latencyKind := ReadLatency | PublishLatency | DataAge.

Definition scaleOf (k : latencyKind) : list float :=
  match k with
  | ReadLatency => DefaultReadLatencyBuckets
  | PublishLatency => DefaultPublishLatencyBuckets
  | DataAge => DefaultDataAgeBuckets
  end.

Record labeledLatencyStore := mkLatencyStore {
  ll_globalRead : LatencyHistogram;
  ll_globalPublish : LatencyHistogram;
  ll_globalAge : LatencyHistogram;
  ll_readByDriver : gmap string LatencyHistogram;
  ll_pubByTransport : gmap string LatencyHistogram;
  ll_ageByTransport : gmap string LatencyHistogram;
}.

Definition newLabeledLatencyStore : labeledLatencyStore :=
  mkLatencyStore (NewLatencyHistogram DefaultReadLatencyBuckets) (NewLatencyHistogram DefaultPublishLatencyBuckets)
    (NewLatencyHistogram DefaultDataAgeBuckets) ∅ ∅ ∅.

(** The histogram of a key, made on first use and never removed, so a pointer
    handed out keeps meaning the entry of its key. *)
Definition histogramFor (m : gmap string LatencyHistogram) (key : string) (buckets : list float)
  : gmap string LatencyHistogram :=
  match m !! key with Some _ => m | None => <[key := NewLatencyHistogram buckets]> m end.

Definition observeLabeled (key : string) (buckets : list float) (d : Z) (m : gmap string LatencyHistogram)
  : gmap string LatencyHistogram := alter (observeLatency d) key (histogramFor m key buckets).

Definition observeRead (driver : string) (d : Z) (l : labeledLatencyStore) : labeledLatencyStore :=
  mkLatencyStore (observeLatency d (ll_globalRead l)) (ll_globalPublish l) (ll_globalAge l)
    (observeLabeled driver DefaultReadLatencyBuckets d (ll_readByDriver l)) (ll_pubByTransport l) (ll_ageByTransport l).

Definition observePublish (transport : string) (d : Z) (l : labeledLatencyStore) : labeledLatencyStore :=
  mkLatencyStore (ll_globalRead l) (observeLatency d (ll_globalPublish l)) (ll_globalAge l)
    (ll_readByDriver l) (observeLabeled transport DefaultPublishLatencyBuckets d (ll_pubByTransport l)) (ll_ageByTransport l).

Definition observeAge (transport : string) (d : Z) (l : labeledLatencyStore) : labeledLatencyStore :=
  mkLatencyStore (ll_globalRead l) (ll_globalPublish l) (observeLatency d (ll_globalAge l))
    (ll_readByDriver l) (ll_pubByTransport l) (observeLabeled transport DefaultDataAgeBuckets d (ll_ageByTransport l)).

(** [publishObserver] and [ageObserver] make the entry; what they return is
    the pair of the aggregate and the entry of the transport. *)
Definition publishObserver (transport : string) (l : labeledLatencyStore) : labeledLatencyStore :=
  mkLatencyStore (ll_globalRead l) (ll_globalPublish l) (ll_globalAge l) (ll_readByDriver l)
    (histogramFor (ll_pubByTransport l) transport DefaultPublishLatencyBuckets) (ll_ageByTransport l).

Definition ageObserver (transport : string) (l : labeledLatencyStore) : labeledLatencyStore :=
  mkLatencyStore (ll_globalRead l) (ll_globalPublish l) (ll_globalAge l) (ll_readByDriver l) (ll_pubByTransport l)
    (histogramFor (ll_ageByTransport l) transport DefaultDataAgeBuckets).

(** [transportLatencyFanout.Observe] of an observer that was handed out. *)
Definition fanoutPublish (transport : string) (d : Z) (l : labeledLatencyStore) : labeledLatencyStore :=
  mkLatencyStore (ll_globalRead l) (observeLatency d (ll_globalPublish l)) (ll_globalAge l)
    (ll_readByDriver l) (alter (observeLatency d) transport (ll_pubByTransport l)) (ll_ageByTransport l).

Definition fanoutAge (transport : string) (d : Z) (l : labeledLatencyStore) : labeledLatencyStore :=
  mkLatencyStore (ll_globalRead l) (ll_globalPublish l) (observeLatency d (ll_globalAge l))
    (ll_readByDriver l) (ll_pubByTransport l) (alter (observeLatency d) transport (ll_ageByTransport l)).

Definition globalOf (k : latencyKind) (l : labeledLatencyStore) : LatencyHistogram :=
  match k with ReadLatency => ll_globalRead l | PublishLatency => ll_globalPublish l | DataAge => ll_globalAge l end.

Definition labeledOf (k : latencyKind) (l : labeledLatencyStore) : gmap string LatencyHistogram :=
  match k with
  | ReadLatency => ll_readByDriver l | PublishLatency => ll_pubByTransport l | DataAge => ll_ageByTransport l
  end.

(** [snapshotsOf]. *)
Definition snapshotsOf (m : gmap string LatencyHistogram) : gmap string (list float * list Z * float * Z) :=
  latencySnapshot <$> m.

(** ** The collector *)

Record statsCollector := mkStats {
  st_totalRead : Z;
  st_totalPublish : Z;
  st_totalErrors : Z;
  st_startTime : Z;
  st_driverMetrics : MetricRegistry;
  st_badQualityDropped : Z;
  st_readRate : RateWindow;
  st_labeled : labeledLatencyStore;
}.

Definition newStatsCollector (now : Z) : statsCollector :=
  mkStats 0 0 0 now NewRegistry 0 NewRateWindow newLabeledLatencyStore.

(** [recordRead] of [n] points, an [int]. *)
Definition recordRead (n now : Z) (s : statsCollector) : statsCollector :=
  if decide (n <= 0) then s
  else mkStats (u64 (st_totalRead s + n)) (st_totalPublish s) (st_totalErrors s) (st_startTime s) (st_driverMetrics s)
         (st_badQualityDropped s) (Observe now n (st_readRate s)) (st_labeled s).

Definition recordBadQualityDrop (s : statsCollector) : statsCollector :=
  mkStats (st_totalRead s) (st_totalPublish s) (st_totalErrors s) (st_startTime s) (st_driverMetrics s)
    (u64 (st_badQualityDropped s + 1)) (st_readRate s) (st_labeled s).

Definition onBatchPublish (n : Z) (s : statsCollector) : statsCollector :=
  mkStats (st_totalRead s) (u64 (st_totalPublish s + u64 n)) (st_totalErrors s) (st_startTime s) (st_driverMetrics s)
    (st_badQualityDropped s) (st_readRate s) (st_labeled s).

(** ** Reports *)

Record EngineStats := mkEngineStats {
  es_Status : EngineStatus;
  es_Uptime : Z;
  es_Drivers : Z;
  es_Transports : Z;
  es_Rules : Z;
  es_TotalRead : Z;
  es_TotalPublish : Z;
  es_TotalErrors : Z;
  es_TotalDropped : Z;
  es_PointsPerSec : float;
  es_DriverStats : gmap string DriverStatus;
  es_TransportStats : gmap string TransportStatus;
}.

(** What the report reads of the engine. *)
Record engineParts := mkParts {
  ep_status : EngineStatus;
  ep_drivers : gmap string DriverStatus;
  ep_transports : gmap string TransportStatus;
  ep_rules : nat;
  ep_bus : option DataBus;
  ep_logDropped : Z;
}.

(** The events the bus and the log dropped; none before the bus exists. *)
Definition totalDropped (e : engineParts) : Z :=
  match ep_bus e with
  | Some b => u64 (i64 (i64 (i64 (b_dropped b + b_pushDropped b) + b_highPriPushDropped b) + ep_logDropped e))
  | None => 0
  end.

Section report.
Context `{GoArch}.

(** The seconds the window's total is divided by. *)
Definition rateDivisor (uptime : Z) : Z :=
  let elapsedSecs := f_to_s 64 (Duration_Seconds uptime) in
  let divisor := if decide (elapsedSecs < WindowSeconds) then elapsedSecs else WindowSeconds in
  if decide (divisor < 1) then 1 else divisor.

Definition Stats (now : Z) (e : engineParts) (s : statsCollector) : EngineStats :=
  let uptime := time_Sub now (st_startTime s) in
  mkEngineStats (ep_status e) uptime (Z.of_nat (size (ep_drivers e))) (Z.of_nat (size (ep_transports e)))
    (Z.of_nat (ep_rules e)) (st_totalRead s) (st_totalPublish s) (st_totalErrors s) (totalDropped e)
    (fdiv F64 (f_of_Z F64 (Sum now (st_readRate s))) (f_of_Z F64 (rateDivisor uptime)))
    (ep_drivers e) (ep_transports e).
End report.

(** The counters of one transport's batcher. *)
Record batcherCounters := mkCounters { bx_offlineBufferPushes : Z; bx_flushBatchesDropped : Z }.

Section buffers.
Context {data : Type}.
Implicit Types (bs : list batcherCounters) (buf : option (OfflineBuffer data)).

Definition OfflineBufferStats bs buf : Z * Z * Z :=
  let pushed := foldl (fun t b => u64 (t + bx_offlineBufferPushes b)) 0 bs in
  match buf with
  | Some ob => (Z.of_nat (Len ob), ob_drainCount ob, pushed)
  | None => (0, 0, pushed)
  end.

Definition OfflineBufferEvictions buf : Z := match buf with Some ob => ob_evictCount ob | None => 0 end.

(** [fileSize]: what the directory entry tells, if it is still there. *)
Definition OfflineBufferBytes (fileSize : string -> option Z) buf : Z :=
  match buf with
  | Some ob =>
      foldl (fun t e => if is_json e then match fileSize e.1 with Some n => i64 (t + n) | None => t end else t) 0
        (map_to_list (ob_files ob))
  | None => 0
  end.

Definition FlushBatchesDropped bs : Z := foldl (fun t b => u64 (t + bx_flushBatchesDropped b)) 0 bs.
End buffers.

Definition DriverMetrics (tie : list Metric -> list Metric) (s : statsCollector) : list Metric :=
  metricsSnapshot tie (st_driverMetrics s).

Record DroppedBreakdown := mkBreakdown {
  bd_BadQuality : Z;
  bd_LogEvents : Z;
  bd_DataBusMain : Z;
  bd_DataBusPriority : Z;
  bd_SlowSubscriber : Z;
}.

Definition droppedBreakdown (e : engineParts) (s : statsCollector) : DroppedBreakdown :=
  match ep_bus e with
  | Some b => mkBreakdown (st_badQualityDropped s) (u64 (ep_logDropped e)) (u64 (b_pushDropped b))
                (u64 (b_highPriPushDropped b)) (u64 (b_dropped b))
  | None => mkBreakdown (st_badQualityDropped s) (u64 (ep_logDropped e)) 0 0 0
  end.

(** ** Aggregates and labels agree *)

Inductive latency_op :=
| ObsRead (driver : string) (d : Z)
| ObsPublish (transport : string) (d : Z)
| ObsAge (transport : string) (d : Z)
| MakePublish (transport : string)
| MakeAge (transport : string)
| FanPublish (transport : string) (d : Z)
| FanAge (transport : string) (d : Z).

Definition latency_step (l : labeledLatencyStore) (op : latency_op) : labeledLatencyStore :=
  match op with
  | ObsRead n d => observeRead n d l
  | ObsPublish n d => observePublish n d l
  | ObsAge n d => observeAge n d l
  | MakePublish n => publishObserver n l
  | MakeAge n => ageObserver n l
  | FanPublish n d => fanoutPublish n d l
  | FanAge n d => fanoutAge n d l
  end.

Definition latency_run (ops : list latency_op) : labeledLatencyStore :=
  foldl latency_step newLabeledLatencyStore ops.

(** The label an operation names, and what it observes. *)
Definition op_kind (op : latency_op) : latencyKind :=
  match op with
  | ObsRead _ _ => ReadLatency
  | ObsPublish _ _ | MakePublish _ | FanPublish _ _ => PublishLatency
  | ObsAge _ _ | MakeAge _ | FanAge _ _ => DataAge
  end.

Definition op_label (op : latency_op) : string :=
  match op with
  | ObsRead n _ | ObsPublish n _ | ObsAge n _ | MakePublish n | MakeAge n | FanPublish n _ | FanAge n _ => n
  end.

Definition op_value (op : latency_op) : option Z :=
  match op with
  | ObsRead _ d | ObsPublish _ d | ObsAge _ d | FanPublish _ d | FanAge _ d => Some d
  | MakePublish _ | MakeAge _ => None
  end.

#[global] Instance latencyKind_eq_dec : EqDecision latencyKind.
Proof. solve_decision. Defined.

Definition of_kind (k : latencyKind) (ops : list latency_op) : list latency_op := filter (fun op => op_kind op = k) ops.
Definition of_label (key : string) (ops : list latency_op) : list latency_op := filter (fun op => op_label op = key) ops.

(** A fan-out exists only once it was made. *)
Definition handed_out (ops : list latency_op) (op : latency_op) : Prop :=
  match op with
  | FanPublish _ _ | FanAge _ _ => of_label (op_label op) (of_kind (op_kind op) ops) <> []
  | _ => True
  end.

Fixpoint ops_ok (before ops : list latency_op) : Prop :=
  match ops with
  | [] => True
  | op :: ops => handed_out before op /\ ops_ok (before ++ [op]) ops
  end.

(** The labelled histogram that the operations with its label leave. *)
Definition labelled (k : latencyKind) (ops : list latency_op) : option LatencyHistogram :=
  match ops with [] => None | _ => Some (observeAll (omap op_value ops) (NewLatencyHistogram (scaleOf k))) end.

Lemma labelled_snoc k l op :
  labelled k (l ++ [op])
  = Some (let h := default (NewLatencyHistogram (scaleOf k)) (labelled k l) in
          match op_value op with Some d => observeLatency d h | None => h end).
Proof.
  unfold labelled. destruct (l ++ [op]) eqn:E; [by destruct l|]. rewrite <- E. clear E. f_equal.
  rewrite omap_app. unfold observeAll. rewrite foldl_app. destruct l; cbn; by destruct (op_value op).
Qed.

Lemma filter_snoc {A} (P : A -> Prop) `{forall x, Decision (P x)} l x :
  filter P (l ++ [x]) = filter P l ++ (if decide (P x) then [x] else []).
Proof. rewrite filter_app, filter_cons, filter_nil. by case_decide. Qed.

Lemma histogramFor_lookup m key b k :
  histogramFor m key b !! k = if decide (k = key) then Some (default (NewLatencyHistogram b) (m !! key)) else m !! k.
Proof.
  unfold histogramFor. case_decide as Hk; destruct (m !! key) as [h|] eqn:E; subst;
    by rewrite ?lookup_insert_eq, ?lookup_insert_ne by done.
Qed.

Lemma alter_lookup {A} (f : A -> A) (m : gmap string A) key k :
  alter f key m !! k = if decide (k = key) then f <$> m !! key else m !! k.
Proof. case_decide; subst; [apply lookup_alter_eq|by apply lookup_alter_ne]. Qed.

(** What an operation does to the histogram of a label. *)
Lemma labeled_effect k l op key :
  labeledOf k (latency_step l op) !! key
  = if decide (op_kind op = k /\ op_label op = key) then
      match op with
      | FanPublish _ d | FanAge _ d => observeLatency d <$> labeledOf k l !! key
      | _ => Some (let h := default (NewLatencyHistogram (scaleOf k)) (labeledOf k l !! key) in
                   match op_value op with Some d => observeLatency d h | None => h end)
      end
    else labeledOf k l !! key.
Proof.
  destruct op as [n d|n d|n d|n|n|n d|n d], k; cbn [op_kind op_label op_value labeledOf latency_step scaleOf
    observeRead observePublish observeAge publishObserver ageObserver fanoutPublish fanoutAge
    ll_readByDriver ll_pubByTransport ll_ageByTransport]; unfold observeLabeled; try done;
    rewrite ?alter_lookup, ?histogramFor_lookup; destruct (decide (key = n)) as [->|Hne];
    try (rewrite decide_True by done); rewrite ?(decide_False (P := _ /\ _)) by naive_solver; try done;
    by rewrite decide_True.
Qed.

(** One operation on the labelled histograms of a kind. *)
Lemma labeled_run k ops op key :
  handed_out ops op ->
  (forall key, labeledOf k (latency_run ops) !! key = labelled k (of_label key (of_kind k ops))) ->
  labeledOf k (latency_step (latency_run ops) op) !! key = labelled k (of_label key (of_kind k (ops ++ [op]))).
Proof.
  intros Hout IH. rewrite labeled_effect. unfold of_kind, of_label in *. rewrite filter_snoc.
  destruct (decide (op_kind op = k)) as [Hk|Hk]; [|rewrite decide_False by naive_solver; by rewrite app_nil_r, <- IH].
  rewrite filter_snoc. destruct (decide (op_label op = key)) as [Hl|Hl];
    [|rewrite decide_False by naive_solver; by rewrite app_nil_r, <- IH].
  rewrite decide_True by done. rewrite labelled_snoc, <- IH. destruct op; try done; cbn [op_value].
  all: cbn [handed_out] in Hout; unfold of_kind, of_label in Hout; rewrite Hk, Hl in Hout; rewrite !IH;
    unfold labelled; by destruct (filter _ (filter _ _)).
Qed.

Lemma global_step k ops op :
  globalOf k (latency_run ops) = observeAll (omap op_value (of_kind k ops)) (NewLatencyHistogram (scaleOf k)) ->
  globalOf k (latency_step (latency_run ops) op)
  = observeAll (omap op_value (of_kind k (ops ++ [op]))) (NewLatencyHistogram (scaleOf k)).
Proof.
  intros IH. unfold of_kind in *. rewrite filter_snoc. case_decide as Hk.
  - subst k. rewrite omap_app. unfold observeAll in *. rewrite foldl_app, <- IH. by destruct op.
  - rewrite app_nil_r, <- IH. by destruct op, k.
Qed.

Lemma ops_ok_snoc before ops op : ops_ok before (ops ++ [op]) <-> ops_ok before ops /\ handed_out (before ++ ops) op.
Proof.
  revert before. induction ops as [|o ops IH]; intros before; cbn; [rewrite app_nil_r; tauto|].
  rewrite IH, <- (app_assoc before [o] ops). cbn. tauto.
Qed.

Lemma latency_run_exact ops k :
  ops_ok [] ops ->
  globalOf k (latency_run ops) = observeAll (omap op_value (of_kind k ops)) (NewLatencyHistogram (scaleOf k))
  /\ forall key, labeledOf k (latency_run ops) !! key = labelled k (of_label key (of_kind k ops)).
Proof.
  induction ops as [|op ops IH] using rev_ind.
  - intros _. split; [by destruct k|]. intros key. destruct k; apply lookup_empty.
  - intros [Hok Hout]%ops_ok_snoc. destruct (IH Hok) as [IHg IHl]. unfold latency_run. rewrite foldl_snoc.
    fold (latency_run ops). split; [by apply global_step|]. intros key. by apply labeled_run.
Qed.

(** The labels used. *)
Definition labels_of (k : latencyKind) (ops : list latency_op) : list string :=
  remove_dups (op_label <$> of_kind k ops).

Definition values_upTo (ub : float) (ops : list latency_op) : nat := length (upTo ub (omap op_value ops)).

Lemma of_label_cons key op ops :
  of_label key (op :: ops) = if decide (op_label op = key) then op :: of_label key ops else of_label key ops.
Proof. unfold of_label. rewrite filter_cons. by case_decide. Qed.

Lemma group_cons (f : latency_op -> nat) (keys : list string) op ops :
  NoDup keys ->
  sum_list_with (fun key => sum_list_with f (of_label key (op :: ops))) keys
  = ((if decide (op_label op ∈ keys) then f op else 0)
     + sum_list_with (fun key => sum_list_with f (of_label key ops)) keys)%nat.
Proof.
  induction 1 as [|key keys Hk Hnd IH]; [done|]. cbn [sum_list_with]. rewrite IH, of_label_cons.
  destruct (decide (op_label op = key)) as [<-|Hne].
  - rewrite (decide_False (P := _ ∈ keys)) by done. rewrite decide_True by left. cbn [sum_list_with]. lia.
  - destruct (decide (op_label op ∈ keys)); [rewrite decide_True by (by right)|rewrite decide_False by (rewrite elem_of_cons; tauto)]; lia.
Qed.

Lemma group_lengths (f : latency_op -> nat) (keys : list string) ops :
  NoDup keys -> (forall op, op ∈ ops -> op_label op ∈ keys) ->
  sum_list_with (fun key => sum_list_with f (of_label key ops)) keys = sum_list_with f ops.
Proof.
  intros Hnd. induction ops as [|op ops IH]; intros Hin.
  - clear. by induction keys.
  - rewrite group_cons by done. rewrite decide_True by (apply Hin; left). rewrite IH; [done|]. intros o Ho. apply Hin. by right.
Qed.

Definition observes (ub : float) (op : latency_op) : nat :=
  match op_value op with Some d => if fleb (Duration_Seconds d) ub then 1 else 0 | None => 0 end.

Lemma observes_sum ub ops : values_upTo ub ops = sum_list_with (observes ub) ops.
Proof.
  unfold values_upTo. induction ops as [|op ops IH]; [done|]. cbn. unfold observes at 1.
  destruct (op_value op) as [d|]; [|done]. unfold upTo in *. rewrite filter_cons.
  destruct (fleb (Duration_Seconds d) ub) eqn:Hf; [rewrite decide_True by done|rewrite decide_False by congruence]; cbn; lia.
Qed.

(** The aggregate histograms and the labelled ones tell the same story: for
    reads, publishes and data ages alike, and whether the observations came
    directly or through the observers handed to the batchers, the aggregate
    counts every observation, each labelled histogram those of its label, and
    in every bucket the aggregate is the sum over the labels. *)
Theorem latency_labels_exact ops k :
  ops_ok [] ops ->
  globalOf k (latency_run ops) = observeAll (omap op_value (of_kind k ops)) (NewLatencyHistogram (scaleOf k))
  /\ (forall key, labeledOf k (latency_run ops) !! key = labelled k (of_label key (of_kind k ops)))
  /\ forall i ub, scaleOf k !! i = Some ub ->
       exists n (per : string -> nat),
         lh_counts (globalOf k (latency_run ops)) !! i = Some (u64 (Z.of_nat n))
         /\ (forall key, key ∈ labels_of k ops -> exists h, labeledOf k (latency_run ops) !! key = Some h
               /\ lh_counts h !! i = Some (u64 (Z.of_nat (per key))))
         /\ n = sum_list_with per (labels_of k ops).
Proof.
  intros Hok. destruct (latency_run_exact ops k Hok) as [Hg Hl]. split; [done|]. split; [done|].
  intros i ub Hub. exists (values_upTo ub (of_kind k ops)), (fun key => values_upTo ub (of_label key (of_kind k ops))).
  split_and!.
  - rewrite Hg. destruct (histogram_exact (scaleOf k) (omap op_value (of_kind k ops))) as (_ & Hc & _).
    by rewrite Hc, list_lookup_fmap, Hub.
  - intros key Hkey. unfold labels_of in Hkey. apply elem_of_remove_dups, list_elem_of_fmap in Hkey as (op & -> & Hop).
    rewrite Hl. unfold labelled. destruct (of_label (op_label op) (of_kind k ops)) as [|o os] eqn:E.
    + exfalso. assert (Hin : op ∈ of_label (op_label op) (of_kind k ops)) by (by apply list_elem_of_filter).
      rewrite E in Hin. by apply elem_of_nil in Hin.
    + eexists. split; [done|]. destruct (histogram_exact (scaleOf k) (omap op_value (o :: os))) as (_ & Hc & _).
      by rewrite Hc, list_lookup_fmap, Hub.
  - rewrite observes_sum. rewrite <- (group_lengths (observes ub) (labels_of k ops)).
    + clear. generalize (labels_of k ops). intros keys. induction keys as [|key keys IH]; [done|]. cbn.
      by rewrite IH, observes_sum.
    + apply NoDup_remove_dups.
    + intros op Hop. by apply elem_of_remove_dups, list_elem_of_fmap_2.
Qed.

(** ** The reported rate *)

(** Reads, each with its time and its points. *)
Definition recordReads (reads : list (Z * Z)) (s : statsCollector) : statsCollector :=
  foldl (fun s r => recordRead r.2 r.1 s) s reads.

Definition inSeconds (r : Z * Z) : Z * Z := (r.1 / second, r.2).

Lemma recordReads_rate t0 reads now :
  0 <= now < 2 ^ 40 -> events_ok now (inSeconds <$> reads) ->
  st_readRate (recordReads reads (newStatsCollector t0)) = observed (inSeconds <$> reads)
  /\ st_totalRead (recordReads reads (newStatsCollector t0)) = u64 (zsum reads.*2)
  /\ st_startTime (recordReads reads (newStatsCollector t0)) = t0.
Proof.
  intros Hnow. induction reads as [|[t n] reads IH] using rev_ind; [done|].
  rewrite fmap_app. intros Hok. pose proof (events_prefix _ _ _ Hok) as Hpre. destruct (IH Hpre) as (Hr & Ht & Hs).
  destruct Hok as [Hrange Hcount _ _]. apply Forall_app in Hrange as [_ [Hrange _]%Forall_cons_1].
  apply Forall_app in Hcount as [_ [Hcount _]%Forall_cons_1]. cbn in Hrange, Hcount.
  unfold recordReads in *. rewrite foldl_snoc. set (s := foldl _ _ reads) in *. cbn [fst snd].
  unfold recordRead. rewrite decide_False by lia. cbn [st_readRate st_totalRead st_startTime]. split_and!; [| |done].
  - unfold Observe. rewrite decide_False by lia. unfold unixSeconds.
    rewrite wrapu_small by lia. unfold observed in *. change (inSeconds <$> [(t, n)]) with [(t / second, n)].
    rewrite foldl_snoc. cbn [fst snd]. by rewrite Hr.
  - rewrite Ht, u64_add, fmap_app, zsum_app. f_equal. cbn. lia.
Qed.

(** No points over any divisor of the report. *)
Lemma zero_rate d : 1 <= d <= 60 -> fdiv F64 (f_of_Z F64 0) (f_of_Z F64 d) = f_zero.
Proof.
  intros Hd.
  assert (Hall : List.forallb (fun d => match fdiv F64 (f_of_Z F64 0) (f_of_Z F64 d) with
                                        | S754_zero false => true | _ => false end) (seqZ 1 60) = true)
    by (vm_compute; reflexivity).
  rewrite List.forallb_forall in Hall. specialize (Hall d). rewrite <- list_elem_of_In, elem_of_seqZ in Hall.
  specialize (Hall ltac:(lia)). by destruct (fdiv _ _ _) as [[]| | |].
Qed.

Section rate.
Context `{GoArch}.

(** The reported rate is that of the last minute.  After any reads the
    engine reports their number in total, and as points per second the points
    of the last sixty seconds over the window or the uptime; a minute after
    the last read the rate is zero. *)
Theorem reported_rate t0 reads now e :
  0 <= now / second < 2 ^ 40 -> events_ok (now / second) (inSeconds <$> reads) ->
  let x := Stats now e (recordReads reads (newStatsCollector t0)) in
  let recent := filter (inWindow (now / second)) (inSeconds <$> reads) in
  es_TotalRead x = u64 (zsum reads.*2)
  /\ es_PointsPerSec x = fdiv F64 (f_of_Z F64 (zsum recent.*2)) (f_of_Z F64 (rateDivisor (time_Sub now t0)))
  /\ 1 <= rateDivisor (time_Sub now t0) <= rateWindowSeconds
  /\ (Forall (fun r => r.1 / second <= now / second - rateWindowSeconds) reads -> es_PointsPerSec x = f_zero).
Proof.
  intros Hnow Hok. destruct (recordReads_rate t0 reads _ Hnow Hok) as (Hr & Ht & Hs). cbv zeta.
  set (s := recordReads _ _) in *. cbn [es_TotalRead es_PointsPerSec Stats].
  assert (Hdiv : 1 <= rateDivisor (time_Sub now t0) <= rateWindowSeconds).
  { unfold rateDivisor, WindowSeconds, rateWindowSeconds. repeat case_decide; lia. }
  rewrite Hr, Hs, observed_sum by done. split_and!; [done|done|lia|lia|].
  intros Hold. rewrite filter_none.
  2:{ apply Forall_fmap. eapply Forall_impl; [exact Hold|]. unfold inWindow, compose. cbn. lia. }
  unfold rateWindowSeconds in Hdiv. set (d := rateDivisor _) in *. clearbody d. clear -Hdiv. cbn.
  by apply zero_rate.
Qed.
End rate.

(** ** Concrete runs *)

Module Demo.
Definition reads : list (Z * Z) := [(100 * second, 3); (130 * second, 4)].
Definition parts : engineParts := mkParts EngineStatusRunning ∅ ∅ 0 None 0.

Lemma reads_ok : events_ok 170 (inSeconds <$> reads).
Proof.
  split.
  - repeat constructor; vm_compute; discriminate.
  - repeat constructor; vm_compute; reflexivity.
  - intros [|[|i]] [|[|j]] a b Hij Ha Hb; cbn in Ha, Hb; simplify_eq; try lia. vm_compute. reflexivity.
  - intros s. unfold perSecond, reads. change (inSeconds <$> _) with [(100, 3); (130, 4)].
    rewrite !filter_cons, filter_nil. unfold rateCountMax, rateCountBits. repeat case_decide; cbn; lia.
Qed.
End Demo.

Lemma latency_labels_exact_witness :
  globalOf PublishLatency (latency_run [MakePublish "mqtt"; FanPublish "mqtt" 5; ObsPublish "http" 7; FanPublish "mqtt" second])
  = observeAll [5; 7; second] (NewLatencyHistogram (scaleOf PublishLatency)).
Proof.
  apply (latency_labels_exact [MakePublish "mqtt"; FanPublish "mqtt" 5; ObsPublish "http" 7; FanPublish "mqtt" second]
    PublishLatency).
  cbn. split_and!; try done; by rewrite ?of_label_cons.
Defined.

Lemma reported_rate_witness :
  es_PointsPerSec (Stats (H := amd64_f2i) (170 * second) Demo.parts
    (recordReads Demo.reads (newStatsCollector (90 * second)))) = fdiv F64 (f_of_Z F64 4) (f_of_Z F64 60).
Proof.
  destruct (reported_rate (H := amd64_f2i) (90 * second) Demo.reads (170 * second) Demo.parts) as (_ & Hr & _).
  - vm_compute. split; [discriminate|reflexivity].
  - exact Demo.reads_ok.
  - rewrite Hr. vm_compute. reflexivity.
Defined.
