(* ===== verification/Streams.v ===== *)
(** * The realtime streams ([hub/route/stream.go], [alerts.go], [logs.go],
    [traffic.go], [memory.go])

    Two loops serve the websockets: one relays the items of a subscription, the
    other pushes a snapshot at every tick.  What the loop meets, the end of the
    request, an item, a closed subscription or a tick, and whether a write
    succeeds, is its input.

    The theorems show what a client is sent, how the connection is closed, and
    that the rates of [/traffic] account for every point counted since the first
    frame. *)

From Stdlib Require Import ZArith Lia String.
From stdpp Require Import base list gmap strings.
From S2P Require Import Prelude GoFloat GoTime Types Stats.

Open Scope Z_scope.

(** ** Relaying a subscription *)

Inductive closing := StatusNormalClosure | StatusInternalError.

(** One turn of the [select]: the item comes with the outcome of its write. *)
Inductive relayIn (T : Type) :=
| Done
| ChannelClosed
| Item (x : T) (written : bool).
Arguments Done {T}.
Arguments ChannelClosed {T}.
Arguments Item {T} _ _.

(** The frames sent, and how the handler ended: [None] while it runs.  The
    deferred close has no effect after a normal one. *)
Fixpoint relay {T} (ins : list (relayIn T)) : list T * option closing :=
  match ins with
  | [] => ([], None)
  | Done :: _ | ChannelClosed :: _ => ([], Some StatusNormalClosure)
  | Item x true :: ins => let '(fs, c) := relay ins in (x :: fs, c)
  | Item x false :: _ => ([], Some StatusInternalError)
  end.

(** The items before the first turn that ends the loop. *)
Fixpoint items {T} (ins : list (relayIn T)) : list T :=
  match ins with
  | Item x true :: ins => x :: items ins
  | _ => []
  end.

(** A client is sent the items of its subscription in order, and nothing after
    the end of the request, the end of the subscription or a write that failed. *)
Lemma relay_exact {T} (ins : list (relayIn T)) :
  (relay ins).1 = items ins /\
  ((relay ins).2 = None <-> exists xs, ins = (fun x => Item x true) <$> xs).
Proof.
  induction ins as [|[| |x []] ins [IH1 IH2]]; cbn.
  - split; [done|]. split; [by exists []|done].
  - split; [done|]. split; [done|]. by intros [[|y xs] Hx].
  - split; [done|]. split; [done|]. by intros [[|y xs] Hx].
  - destruct (relay ins) as [fs c]. cbn in *. split; [by f_equal|]. rewrite IH2. split.
    + intros [xs ->]. by exists (x :: xs).
    + intros [[|y xs] Hx]; [done|]. injection Hx as _ ->. by exists xs.
  - split; [done|]. split; [done|]. by intros [[|y xs] Hx].
Qed.

(** ** Pushing at every tick *)

Definition wsPushInterval : Z := 1 * second.

(** The [interval] of the query. *)
Definition pushInterval `{GoArch} (v : string) : Z :=
  if decide (v = EmptyString) then wsPushInterval
  else match ParseDuration v with
       | Some d => if decide (d > 0) then d else wsPushInterval
       | None => wsPushInterval
       end.

(** A turn: the end of the request, or a tick with the snapshot then taken and
    the outcome of the write. *)
Inductive tickIn (S : Type) :=
| Cancelled
| Tick (snapshot : S) (written : bool).
Arguments Cancelled {S}.
Arguments Tick {S} _ _.

(** *** [/traffic] *)

Inductive trafficFrame :=
| Totals (read publish dropped : Z)
| Rates (read_rate publish_rate dropped_rate : float).

(** The counters of the previous frame, when there was one. *)
Definition prevTotals : Type := option (Z * Z * Z).

Definition trafficFrame_of (modeTotals : bool) (interval : Z) (prev : prevTotals) (st : EngineStats)
    : trafficFrame * prevTotals :=
  if modeTotals then (Totals (es_TotalRead st) (es_TotalPublish st) (es_TotalDropped st), prev)
  else
    let secs := Duration_Seconds interval in
    let rate now before := fdiv F64 (f_of_Z F64 (u64 (now - before))) secs in
    (match prev with
     | None => Rates (es_PointsPerSec st) f_zero f_zero
     | Some (r, p, d) =>
         Rates (rate (es_TotalRead st) r) (rate (es_TotalPublish st) p) (rate (es_TotalDropped st) d)
     end, Some (es_TotalRead st, es_TotalPublish st, es_TotalDropped st)).

Fixpoint trafficLoop (modeTotals : bool) (interval : Z) (prev : prevTotals) (ins : list (tickIn EngineStats))
    : list trafficFrame * option closing :=
  match ins with
  | [] => ([], None)
  | Cancelled :: _ => ([], Some StatusNormalClosure)
  | Tick st written :: ins =>
      let '(f, prev) := trafficFrame_of modeTotals interval prev st in
      if written then let '(fs, c) := trafficLoop modeTotals interval prev ins in (f :: fs, c)
      else ([], Some StatusInternalError)
  end.

Definition getTraffic `{GoArch} (interval mode : string) (ins : list (tickIn EngineStats)) : list trafficFrame * option closing :=
  trafficLoop (bool_decide (mode = "totals"%string)) (pushInterval interval) None ins.

(** *** [/memory] *)

(** The four samples of the runtime, and the number of goroutines. *)
Record memoryFrame := mkMemory {
  mf_alloc : Z;
  mf_total_alloc : Z;
  mf_sys : Z;
  mf_num_gc : Z;
  mf_goroutines : Z;
}.

Fixpoint getMemory (ins : list (tickIn memoryFrame)) : list memoryFrame * option closing :=
  match ins with
  | [] => ([], None)
  | Cancelled :: _ => ([], Some StatusNormalClosure)
  | Tick m written :: ins =>
      if written then let '(fs, c) := getMemory ins in (m :: fs, c)
      else ([], Some StatusInternalError)
  end.

(** *** What the rates account for *)

(** The frame for what was counted since the previous one. *)
Definition rateFrame (interval : Z) (inc : Z * Z * Z) : trafficFrame :=
  let rate n := fdiv F64 (f_of_Z F64 n) (Duration_Seconds interval) in
  Rates (rate inc.1.1) (rate inc.1.2) (rate inc.2).

Definition counters (st : EngineStats) : Z * Z * Z := (es_TotalRead st, es_TotalPublish st, es_TotalDropped st).

(** Counters that only grow, within 64 bits. *)
Definition grows (a b : EngineStats) : Prop :=
  0 <= es_TotalRead b - es_TotalRead a < 2 ^ 64 /\ 0 <= es_TotalPublish b - es_TotalPublish a < 2 ^ 64 /\
  0 <= es_TotalDropped b - es_TotalDropped a < 2 ^ 64.

Fixpoint growing (st : EngineStats) (sts : list EngineStats) : Prop :=
  match sts with [] => True | s :: sts => grows st s /\ growing s sts end.

Definition sums (incs : list (Z * Z * Z)) : Z * Z * Z :=
  (foldr Z.add 0 ((fun i => i.1.1) <$> incs), foldr Z.add 0 ((fun i => i.1.2) <$> incs),
   foldr Z.add 0 ((fun i => i.2) <$> incs)).

Definition plus3 (a b : Z * Z * Z) : Z * Z * Z := (a.1.1 + b.1.1, a.1.2 + b.1.2, a.2 + b.2).

Lemma traffic_from interval st sts :
  growing st sts ->
  exists incs, trafficLoop false interval (Some (counters st)) ((fun s => Tick s true) <$> sts)
               = (rateFrame interval <$> incs, None) /\
    length incs = length sts /\ plus3 (counters st) (sums incs) = counters (default st (last sts)).
Proof.
  revert st. induction sts as [|s sts IH]; intros st Hg.
  { exists []. split_and!; [done..|]. unfold plus3, counters, sums. cbn. by rewrite !Z.add_0_r. }
  destruct Hg as [(H1 & H2 & H3) Hg]. destruct (IH s Hg) as (incs & Hl & Hn & Hs).
  exists ((es_TotalRead s - es_TotalRead st, es_TotalPublish s - es_TotalPublish st, es_TotalDropped s - es_TotalDropped st) :: incs).
  rewrite !fmap_cons. cbn [trafficLoop trafficFrame_of counters]. fold (counters s). rewrite Hl.
  split_and!.
  - unfold rateFrame. cbn [fst snd]. by rewrite !wrapu_small by lia.
  - cbn. lia.
  - replace (default st (last (s :: sts))) with (default s (last sts)).
    + rewrite <- Hs. unfold plus3, counters, sums. cbn. f_equal; [f_equal|]; lia.
    + destruct sts as [|x sts]; [done|]. rewrite last_cons_cons. by destruct (last (x :: sts)) eqn:E; [|apply last_None in E].
Qed.

(** The first frame of [/traffic] gives the rate of the engine's own window; the
    later ones are increments per second of the interval, and the increments add
    up to what was counted between the first and the last frame: no point is
    reported twice or left out. *)
Theorem traffic_accounts `{GoArch} interval mode st sts :
  mode <> "totals"%string -> growing st sts ->
  exists incs, getTraffic interval mode ((fun s => Tick s true) <$> st :: sts)
               = (Rates (es_PointsPerSec st) f_zero f_zero :: (rateFrame (pushInterval interval) <$> incs), None) /\
    length incs = length sts /\ plus3 (counters st) (sums incs) = counters (default st (last sts)).
Proof.
  intros Hm Hg. unfold getTraffic. rewrite bool_decide_eq_false_2 by done.
  destruct (traffic_from (pushInterval interval) st sts Hg) as (incs & Hl & Hn & Hs). exists incs.
  rewrite fmap_cons. cbn [trafficLoop trafficFrame_of]. fold (counters st). by rewrite Hl.
Qed.

(** A push interval is positive, and the default for text that is none. *)
Lemma pushInterval_positive `{GoArch} v : 0 < pushInterval v.
Proof.
  assert (0 < wsPushInterval) by (vm_compute; reflexivity).
  unfold pushInterval. case_decide; [lia|]. destruct (ParseDuration v); [case_decide|]; lia.
Qed.
