(* ===== verification/Net.v ===== *)
(** * Network addresses (the parts of [net] and [net/netip] the program calls)

    [net.SplitHostPort], [net.ParseIP] and [IP.IsLoopback] written out on byte
    strings, with the address of [hub/route/server_lifecycle.go] that gates
    the servers without authentication, [isLoopbackAddr].

    The theorems show that the port never takes part in the host of an
    address, that the printed form of four octets is read back, and which
    addresses pass the gate. *)

From Stdlib Require Import ZArith Lia String Ascii.
From stdpp Require Import base list strings numbers.
From S2P Require Import Prelude JsonText.

Open Scope Z_scope.

(** ** Byte searches *)

Fixpoint has_byte (c : ascii) (s : string) : bool :=
  match s with
  | EmptyString => false
  | String d t => bool_decide (d = c) || has_byte c t
  end.

(** The string around the first byte [c]. *)
Fixpoint cut_byte (c : ascii) (s : string) : option (string * string) :=
  match s with
  | EmptyString => None
  | String d t =>
      if bool_decide (d = c) then Some (EmptyString, t)
      else prod_map (String d) id <$> cut_byte c t
  end.

(** The string around the last byte [c]. *)
Fixpoint cut_last (c : ascii) (s : string) : option (string * string) :=
  match s with
  | EmptyString => None
  | String d t =>
      match cut_last c t with
      | Some (a, b) => Some (String d a, b)
      | None => if bool_decide (d = c) then Some (EmptyString, t) else None
      end
  end.

(** ** [net.SplitHostPort] *)

(** The bracketed form: the first [']'] must stand just before the last colon,
    and neither bracket may occur again. *)
Definition split_bracketed (t : string) : option (string * string) :=
  match cut_byte "]" t with
  | Some (host, String c port) =>
      if bool_decide (c = ":"%char) && negb (has_byte ":" port)
         && negb (has_byte "[" t) && negb (has_byte "]" port)
      then Some (host, port) else None
  | _ => None
  end.

Definition split_plain (s : string) : option (string * string) :=
  match cut_last ":" s with
  | Some (host, port) =>
      if has_byte ":" host || has_byte "[" s || has_byte "]" s then None else Some (host, port)
  | None => None
  end.

Definition SplitHostPort (s : string) : option (string * string) :=
  match s with
  | String c t => if bool_decide (c = "["%char) then split_bracketed t else split_plain s
  | EmptyString => None
  end.

(** [net.JoinHostPort]. *)
Definition JoinHostPort (host port : string) : string :=
  if has_byte ":" host || has_byte "%" host
  then String "[" (host +:+ String "]" (String ":" port))
  else host +:+ String ":" port.

(** ** [net.ParseIP] *)

(** [parseIPv4Fields]: [dot] holds at the start and after a dot. *)
Fixpoint ipv4_go (s : string) (dot : bool) (digLen val : Z) (fields : list Z) : option (list Z) :=
  match s with
  | EmptyString => if decide (Z.of_nat (length fields) < 3) then None else Some (fields ++ [val])
  | String c t =>
      match digit_val c with
      | Some d =>
          if (digLen =? 1) && (val =? 0) then None
          else if 255 <? val * 10 + d then None
          else ipv4_go t false (digLen + 1) (val * 10 + d) fields
      | None =>
          if bool_decide (c = "."%char) then
            if dot || bool_decide (t = EmptyString) then None
            else if decide (length fields = 3%nat) then None
            else ipv4_go t true 0 0 (fields ++ [val])
          else None
      end
  end.

Definition parseIPv4Fields (s : string) : option (list Z) := ipv4_go s true 0 0 [].

(** One group of hexadecimal digits: its value, its length, the rest. *)
Fixpoint hex_group (s : string) (off acc : Z) : option (Z * Z * string) :=
  match s with
  | EmptyString => Some (acc, off, EmptyString)
  | String c t =>
      match hex_val c with
      | Some d =>
          if 3 <? off then None
          else if 65535 <? acc * 16 + d then None
          else hex_group t (off + 1) (acc * 16 + d)
      | None => Some (acc, off, s)
      end
  end.

(** The loop of [parseIPv6], [n] groups before the 16 bytes are full: the bytes
    read, the position of the ellipsis and the rest of the text. *)
Fixpoint ipv6_go (n : nat) (ip : list Z) (ell : option nat) (s : string)
  : option (list Z * option nat * string) :=
  match n with
  | O => Some (ip, ell, s)
  | S n =>
      match hex_group s 0 0 with
      | None => None
      | Some (acc, off, rest) =>
          if off =? 0 then None
          else match rest with
          | EmptyString => Some (ip ++ [acc / 256; acc mod 256], ell, EmptyString)
          | String c t =>
              if bool_decide (c = "."%char) then
                if (match ell with None => negb (Nat.eqb (length ip) 12) | Some _ => false end)
                   || Nat.ltb 16 (length ip + 4) then None
                else match parseIPv4Fields s with
                     | Some b => Some (ip ++ b, ell, EmptyString)
                     | None => None
                     end
              else if negb (bool_decide (c = ":"%char)) then None
              else
                let ip' := ip ++ [acc / 256; acc mod 256] in
                match t with
                | EmptyString => None
                | String c' t' =>
                    if bool_decide (c' = ":"%char) then
                      match ell with
                      | Some _ => None
                      | None =>
                          if bool_decide (t' = EmptyString)
                          then Some (ip', Some (length ip'), EmptyString)
                          else ipv6_go n ip' (Some (length ip')) t'
                      end
                    else ipv6_go n ip' ell t
                end
          end
      end
  end.

Definition zeros (n : nat) : list Z := replicate n 0.

Definition expand_ellipsis (ip : list Z) (ell : option nat) : option (list Z) :=
  if Nat.ltb (length ip) 16 then
    match ell with
    | Some e => Some (take e ip ++ zeros (16 - length ip) ++ drop e ip)
    | None => None
    end
  else match ell with Some _ => None | None => Some ip end.

(** An address with a zone is no [net.IP]. *)
Definition parseIPv6 (s : string) : option (list Z) :=
  if has_byte "%" s then None
  else
    let '(ell, t) :=
      match s with
      | String ":" (String ":" t) => (Some O, t)
      | _ => (None, s)
      end in
    if bool_decide (ell = Some O) && bool_decide (t = EmptyString) then Some (zeros 16)
    else match ipv6_go 8 [] ell t with
         | Some (ip, ell', EmptyString) => expand_ellipsis ip ell'
         | _ => None
         end.

Definition v4_mapped (b : list Z) : list Z := zeros 10 ++ [255; 255] ++ b.

(** [netip.ParseAddr] picks the family by the first of these bytes. *)
Fixpoint family (s : string) : option ascii :=
  match s with
  | EmptyString => None
  | String c t =>
      if bool_decide (c = "."%char) || bool_decide (c = ":"%char) || bool_decide (c = "%"%char)
      then Some c else family t
  end.

Definition ParseIP (s : string) : option (list Z) :=
  match family s with
  | Some "."%char => v4_mapped <$> parseIPv4Fields s
  | Some ":"%char => parseIPv6 s
  | _ => None
  end.

(** [IP.IsLoopback]: 127.0.0.0/8 or [::1]. *)
Definition IsLoopback (ip : list Z) : bool :=
  if bool_decide (take 12 ip = zeros 10 ++ [255; 255]) then bool_decide (ip !! 12%nat = Some 127)
  else bool_decide (ip = zeros 15 ++ [1]).

(** ** The gate of the servers without authentication *)

Definition isLoopbackAddr (addr : string) : bool :=
  match SplitHostPort addr with
  | None => false
  | Some (host, _) =>
      if bool_decide (host = "localhost"%string) then true
      else match ParseIP host with None => false | Some ip => IsLoopback ip end
  end.

(** ** Splitting *)

Lemma has_byte_app c a b : has_byte c (a +:+ b) = has_byte c a || has_byte c b.
Proof.
  induction a as [|d a IH]; [done|]. rewrite str_app_cons. cbn [has_byte]. rewrite IH.
  by rewrite orb_assoc.
Qed.

Lemma cut_last_app c a b : has_byte c b = false -> cut_last c (a +:+ String c b) = Some (a, b).
Proof.
  intros Hb.
  assert (Hnone : cut_last c b = None).
  { revert Hb. induction b as [|d b IH]; [done|]. cbn [has_byte cut_last].
    intros [Hd Hb]%orb_false_iff. rewrite (IH Hb), Hd. done. }
  induction a as [|d a IH].
  - rewrite str_app_nil_l. cbn [cut_last]. rewrite Hnone. by rewrite bool_decide_true.
  - rewrite str_app_cons. cbn [cut_last]. by rewrite IH.
Qed.

Lemma cut_byte_app c a b : has_byte c a = false -> cut_byte c (a +:+ String c b) = Some (a, b).
Proof.
  induction a as [|d a IH]; intros Ha.
  - rewrite str_app_nil_l. cbn [cut_byte]. by rewrite bool_decide_true.
  - cbn [has_byte] in Ha. apply orb_false_iff in Ha as [Hd Ha].
    rewrite str_app_cons. cbn [cut_byte]. by rewrite Hd, (IH Ha).
Qed.

(** A text without colons and brackets: a host name, a dotted address, a port. *)
Definition bare (s : string) : bool := negb (has_byte ":" s || has_byte "[" s || has_byte "]" s).

Lemma bare_iff s :
  bare s = true <-> has_byte ":" s = false /\ has_byte "[" s = false /\ has_byte "]" s = false.
Proof. unfold bare. rewrite negb_true_iff, !orb_false_iff. tauto. Qed.

Lemma split_bare h p : bare h = true -> bare p = true -> SplitHostPort (h +:+ String ":" p) = Some (h, p).
Proof.
  intros (Hc & Ho & Hb)%bare_iff (Pc & Po & Pb)%bare_iff.
  assert (Hs : split_plain (h +:+ String ":" p) = Some (h, p)).
  { unfold split_plain. rewrite cut_last_app by done. rewrite !has_byte_app. cbn [has_byte].
    by rewrite Hc, Ho, Hb, Po, Pb. }
  destruct h as [|c h]; [exact Hs|]. rewrite str_app_cons in *. cbn [SplitHostPort].
  cbn [has_byte] in Ho. apply orb_false_iff in Ho as [Hc' _]. rewrite Hc'. exact Hs.
Qed.

(** The bracketed form of an IPv6 host. *)
Lemma split_brackets h p :
  has_byte "[" h = false -> has_byte "]" h = false -> bare p = true ->
  SplitHostPort (String "[" (h +:+ String "]" (String ":" p))) = Some (h, p).
Proof.
  intros Ho Hb (Pc & Po & Pb)%bare_iff. cbn [SplitHostPort]. rewrite bool_decide_true by done.
  unfold split_bracketed. rewrite cut_byte_app by done. rewrite !has_byte_app. cbn [has_byte].
  by rewrite Pc, Po, Pb, Ho.
Qed.

Lemma split_join h p :
  has_byte "[" h = false -> has_byte "]" h = false -> bare p = true ->
  SplitHostPort (JoinHostPort h p) = Some (h, p).
Proof.
  intros Ho Hb Hp. unfold JoinHostPort. destruct (has_byte ":" h) eqn:Hc; cbn [orb].
  - by apply split_brackets.
  - destruct (has_byte "%" h); [by apply split_brackets|]. apply split_bare; [|done]. by apply bare_iff.
Qed.

(** ** Dotted addresses *)

Definition dotted (a b c d : Z) : string :=
  decimal a +:+ String "." (decimal b +:+ String "." (decimal c +:+ String "." (decimal d))).

Definition octet (a : Z) : Prop := 0 <= a < 256.

(** The digits of an octet, the first of them not zero unless alone. *)
Definition octet_digits (a : Z) : list Z :=
  if a <? 10 then [a] else if a <? 100 then [a / 10; a mod 10]
  else [a / 100; a / 10 mod 10; a mod 10].

Fixpoint digits_string (l : list Z) : string :=
  match l with [] => EmptyString | d :: l => String (digit_char d) (digits_string l) end.

Lemma decimal_octet a : octet a -> decimal a = digits_string (octet_digits a).
Proof.
  intros Ha.
  assert (Hall : List.forallb (fun n => String.eqb (decimal (Z.of_nat n)) (digits_string (octet_digits (Z.of_nat n))))
                   (seq 0 256) = true) by (vm_compute; reflexivity).
  rewrite List.forallb_forall in Hall. specialize (Hall (Z.to_nat a)).
  unfold octet in Ha. rewrite Z2Nat.id in Hall by lia. apply String.eqb_eq, Hall.
  apply List.in_seq. lia.
Qed.

Lemma octet_digits_ok a : octet a -> Forall (fun d => 0 <= d <= 9) (octet_digits a).
Proof.
  unfold octet, octet_digits. intros Ha.
  repeat case_match; repeat constructor; Z.to_euclidean_division_equations; lia.
Qed.

Lemma ipv4_digit d dot n v rest fields :
  0 <= d <= 9 -> (n =? 1) && (v =? 0) = false -> v * 10 + d <= 255 ->
  ipv4_go (String (digit_char d) rest) dot n v fields = ipv4_go rest false (n + 1) (v * 10 + d) fields.
Proof.
  intros Hd Hz Hv. cbn [ipv4_go]. rewrite digit_val_char, Hz by done.
  by rewrite (proj2 (Z.ltb_ge 255 (v * 10 + d))) by lia.
Qed.

Lemma ipv4_octet a rest fields : octet a -> exists n,
  ipv4_go (decimal a +:+ rest) true 0 0 fields = ipv4_go rest false n a fields.
Proof.
  intros Ha. rewrite decimal_octet by done. pose proof (octet_digits_ok a Ha) as Hd.
  unfold octet, octet_digits in *.
  destruct (Z.ltb_spec a 10); [|destruct (Z.ltb_spec a 100)];
    rewrite ?Forall_cons in Hd; cbn [digits_string]; rewrite ?str_app_cons, str_app_nil_l.
  - eexists. rewrite ipv4_digit by (try done; lia). by rewrite Z.mul_0_l, Z.add_0_l.
  - eexists. rewrite !ipv4_digit by (try done; Z.to_euclidean_division_equations; lia).
    f_equal. Z.to_euclidean_division_equations; lia.
  - eexists. rewrite !ipv4_digit by (try done; Z.to_euclidean_division_equations; lia).
    f_equal. Z.to_euclidean_division_equations; lia.
Qed.

Lemma parse_dotted a b c d : octet a -> octet b -> octet c -> octet d ->
  parseIPv4Fields (dotted a b c d) = Some [a; b; c; d].
Proof.
  intros Ha Hb Hc Hd. unfold parseIPv4Fields, dotted.
  assert (Hdot : forall x rest fields l, octet x -> (length fields < 3)%nat -> rest <> EmptyString ->
    ipv4_go (String "." rest) false l x fields = ipv4_go rest true 0 0 (fields ++ [x])).
  { intros x rest fields l _ Hf Hr. cbn [ipv4_go]. change (digit_val ".") with (@None Z). cbv iota.
    rewrite bool_decide_true by done. cbn [orb]. rewrite bool_decide_false by done.
    rewrite decide_False by lia. done. }
  assert (Hne : forall x (t : string), decimal x +:+ t <> EmptyString).
  { intros x t Hx. pose proof (dec_go_nonempty 20 x EmptyString ltac:(lia)) as Hn.
    change (dec_go 20 x EmptyString) with (decimal x) in Hn.
    destruct (decimal x); [done|]. by rewrite str_app_cons in Hx. }
  rewrite <- (str_app_nil_r (decimal d)).
  destruct (ipv4_octet a (String "." (decimal b +:+ String "." (decimal c +:+ String "." (decimal d +:+ EmptyString)))) [] Ha) as [n1 ->].
  rewrite Hdot by (done || apply Hne || (cbn; lia)). cbn [app].
  destruct (ipv4_octet b (String "." (decimal c +:+ String "." (decimal d +:+ EmptyString))) [a] Hb) as [n2 ->].
  rewrite Hdot by (done || apply Hne || (cbn; lia)). cbn [app].
  destruct (ipv4_octet c (String "." (decimal d +:+ EmptyString)) [a; b] Hc) as [n3 ->].
  rewrite Hdot by (done || apply Hne || (cbn; lia)). cbn [app].
  by destruct (ipv4_octet d EmptyString [a; b; c] Hd) as [n4 ->].
Qed.

Lemma decimal_bytes a : octet a ->
  forall c, digit_val c = None -> has_byte c (decimal a) = false.
Proof.
  intros Ha c Hc.
  rewrite decimal_octet by done. pose proof (octet_digits_ok a Ha) as Hd.
  induction Hd as [|d l Hd _ IH]; [done|]. cbn [digits_string has_byte]. rewrite IH, orb_false_r.
  apply bool_decide_false. intros <-. by rewrite digit_val_char in Hc.
Qed.

Lemma dotted_bytes a b c d x : octet a -> octet b -> octet c -> octet d ->
  digit_val x = None -> x <> "."%char -> has_byte x (dotted a b c d) = false.
Proof.
  intros Ha Hb Hc Hd Hx Hdot. unfold dotted.
  repeat (rewrite has_byte_app; cbn [has_byte]).
  rewrite !decimal_bytes by done. by rewrite bool_decide_false.
Qed.

Lemma family_dotted a b c d : octet a -> octet b -> octet c -> octet d ->
  family (dotted a b c d) = Some "."%char.
Proof.
  intros Ha _ _ _. unfold dotted. generalize (decimal b +:+ String "." (decimal c +:+ String "." (decimal d))).
  intros t. pose proof (decimal_bytes a Ha) as Hb. induction (decimal a) as [|x s IH].
  - rewrite str_app_nil_l. reflexivity.
  - rewrite str_app_cons. cbn [family].
    assert (Hx : forall y, digit_val y = None -> bool_decide (x = y) = false).
    { intros y Hy. specialize (Hb y Hy). cbn [has_byte] in Hb. by apply orb_false_iff in Hb as [? _]. }
    rewrite !Hx by done. cbn [orb]. apply IH. intros y Hy. specialize (Hb y Hy).
    cbn [has_byte] in Hb. by apply orb_false_iff in Hb as [_ ?].
Qed.

Lemma ParseIP_dotted a b c d : octet a -> octet b -> octet c -> octet d ->
  ParseIP (dotted a b c d) = Some (v4_mapped [a; b; c; d]).
Proof. intros. unfold ParseIP. by rewrite family_dotted, parse_dotted. Qed.

(** The gate passes a dotted address exactly for the network 127.0.0.0/8,
    whatever the port. *)
Theorem loopback_dotted a b c d port : octet a -> octet b -> octet c -> octet d -> bare port = true ->
  isLoopbackAddr (dotted a b c d +:+ String ":" port) = (a =? 127).
Proof.
  intros Ha Hb Hc Hd Hp. unfold isLoopbackAddr.
  rewrite split_bare by (done || (apply bare_iff; by rewrite !dotted_bytes)).
  rewrite bool_decide_false.
  - rewrite ParseIP_dotted by done. unfold IsLoopback, v4_mapped. rewrite bool_decide_true by done.
    cbn. destruct (Z.eqb_spec a 127) as [->|Hne]; [done|]. apply bool_decide_false. congruence.
  - intros Heq. pose proof (dotted_bytes a b c d "l" Ha Hb Hc Hd eq_refl ltac:(done)) as Hl.
    by rewrite Heq in Hl.
Qed.

(** A wildcard address, whose host is empty, never passes. *)
Lemma loopback_wildcard port : bare port = true -> isLoopbackAddr (String ":" port) = false.
Proof. intros Hp. unfold isLoopbackAddr. rewrite <- (str_app_nil_l (String ":" port)). by rewrite split_bare. Qed.

(** Hosts of the other forms. *)
Lemma loopback_examples :
  isLoopbackAddr "[::1]:6060" = true /\ isLoopbackAddr "localhost:6060" = true
  /\ isLoopbackAddr "[::ffff:127.0.0.1]:6060" = true /\ isLoopbackAddr "[::]:6060" = false
  /\ isLoopbackAddr "localhost" = false /\ isLoopbackAddr "127.0.0.1.nip.io:6060" = false
  /\ isLoopbackAddr "[fe80::1%lo]:6060" = false /\ isLoopbackAddr "0127.0.0.1:6060" = false.
Proof. repeat split. Qed.
