(* ===== verification/Http.v ===== *)
(** * The HTTP gateway ([hub/route]: common, middleware, http_metrics, router, server)

    The request as [net/http] delivers it, the responses the handlers render,
    and the middleware every request passes: CORS, request metrics, the
    per-host rate limiter and the authentication of the protected group.  The
    handlers themselves are in the file Api; here they are the parameter [run]
    of the request pipeline, one constructor of [endpoint] per handler.

    The routing of chi, a library, is the class [Chi]: it is only known to
    answer with a route of the table.

    The theorems show what the limiter admits, that the request metrics count
    every request once, and that no protected handler runs without the secret
    the server was last configured with. *)

From Stdlib Require Import ZArith Lia String Ascii SpecFloat.
From stdpp Require Import base list gmap strings.
From S2P Require Import Prelude GoFloat GoTime JsonText Json JsonValue CommandJson Sha256 Net.

Open Scope Z_scope.

(** ** Requests and responses *)

(** Header names are in canonical form; a header or a query parameter holds
    its values in order. *)
Record request := mkRequest {
  rq_Method : string;
  rq_Path : string;
  rq_RequestURI : string;
  rq_RemoteAddr : string;
  rq_Header : gmap string (list string);
  rq_Query : gmap string (list string);
  rq_Body : string;
}.

(** [Header.Get] and [Values.Get]: the first value, or nothing. *)
Definition get (m : gmap string (list string)) (k : string) : string :=
  match m !! k with Some (v :: _) => v | _ => EmptyString end.

Definition header (r : request) (k : string) : string := get (rq_Header r) k.
Definition query (r : request) (k : string) : string := get (rq_Query r) k.

(** What is written after the header: nothing, the error object, the JSON of a
    Go value of the handlers' type of answers [D], or a text. *)
Inductive body (D : Type) := NoBody | ErrorBody (message : string) | DataBody (data : D) | TextBody (s : string).
Arguments NoBody {D}.
Arguments ErrorBody {D} _.
Arguments DataBody {D} _.
Arguments TextBody {D} _.

Record response (D : Type) := mkResponse {
  rs_Status : Z;
  rs_Header : gmap string string;
  rs_Body : body D;
}.
Arguments mkResponse {D} _ _ _.
Arguments rs_Status {D} _.
Arguments rs_Header {D} _.
Arguments rs_Body {D} _.

Section render.
Context {D : Type}.

(** [w.Header().Set] before the rest of the response is written; the handler's
    own headers replace those of the middleware. *)
Definition with_header (k v : string) (x : response D) : response D :=
  mkResponse (rs_Status x) (rs_Header x ∪ {[k := v]}) (rs_Body x).

Definition jsonHeader : gmap string string := {["Content-Type"%string := "application/json"%string]}.

Definition render (status : Z) (data : D) : response D := mkResponse status jsonHeader (DataBody data).

Definition renderError (status : Z) (message : string) : response D :=
  mkResponse status jsonHeader (ErrorBody message).

(** The error is logged, not rendered. *)
Definition renderInternalError (err : error) : response D := renderError 500 "internal server error".

Definition renderNoContent : response D := mkResponse 204 ∅ NoBody.
End render.

(** A handler over the state [S]; without a response it panicked. *)
Definition handler (D S : Type) : Type := request -> S -> option (response D) * S.

(** *** Request bodies *)

Definition maxRequestBody : Z := 2 ^ 20.

(** [io.ReadAll(limitedBody(r).Body)]. *)
Definition readBody (r : request) : option string :=
  if decide (Z.of_nat (String.length (rq_Body r)) <= maxRequestBody) then Some (rq_Body r) else None.

(** A value whose end shows without another byte. *)
Definition self_delimiting (v : json) : bool :=
  match v with JObj _ | JArr _ | JStr _ => true | _ => false end.

(** [json.NewDecoder(limitedBody(r).Body)]: the first value of the body, which
    must end within the limit; what follows it is not read. *)
Definition decodeBody (r : request) : option json :=
  let s := str_firstn (Z.to_nat maxRequestBody) (rq_Body r) in
  match pvalue (fuel_for s) 0 s with
  | Some (v, rest) =>
      if bool_decide (maxRequestBody < Z.of_nat (String.length (rq_Body r)))
         && bool_decide (rest = EmptyString) && negb (self_delimiting v)
      then None else Some v
  | None => None
  end.

(** ** CORS *)

Definition corsMaxAgeSeconds : Z := 86400.

Definition corsMethods : string := "GET, POST, PUT, PATCH, OPTIONS".

Definition corsGrant {D} (origin : string) (x : response D) : response D :=
  with_header "Access-Control-Max-Age" (itoa corsMaxAgeSeconds)
    (with_header "Access-Control-Allow-Headers" "Content-Type, Authorization"
      (with_header "Access-Control-Allow-Methods" corsMethods
        (with_header "Access-Control-Allow-Origin" origin x))).

Definition corsHeaders {D} (allowedOrigins : list string) (origin : string) (x : response D) : response D :=
  if bool_decide (allowedOrigins = []) then corsGrant "*" x
  else if bool_decide (origin <> EmptyString) && bool_decide (origin ∈ allowedOrigins)
  then with_header "Vary" "Origin" (corsGrant origin x)
  else if bool_decide (origin <> EmptyString) then with_header "Vary" "Origin" x
  else x.

(** A preflight is answered here; [next] serves the rest. *)
Definition corsMiddleware {D S} (allowedOrigins : list string) (next : handler D S) : handler D S := fun r s =>
  let grant := corsHeaders allowedOrigins (header r "Origin") in
  if bool_decide (rq_Method r = "OPTIONS"%string) then (Some (grant renderNoContent), s)
  else let '(x, s) := next r s in (grant <$> x, s).

(** [acceptWS]: the origin check of an upgrade, none in permissive mode. *)
Inductive wsOptions := InsecureSkipVerify | OriginPatterns (l : list string).

Definition acceptOptions (wsAllowedOrigins : list string) : wsOptions :=
  match wsAllowedOrigins with [] => InsecureSkipVerify | l => OriginPatterns l end.

(** ** Authentication *)

Definition isWebSocketUpgrade (r : request) : bool :=
  String.eqb (fold_name (header r "Upgrade")) "WEBSOCKET".

(** The credential a request presents. *)
Definition credential (r : request) : string :=
  let token := header r "Authorization" in
  if bool_decide (token <> EmptyString) then
    if bool_decide (7 < String.length token)%nat && has_prefix token "Bearer "
    then String.substring 7 (String.length token - 7) token else token
  else if isWebSocketUpgrade r then query r "token"
  else EmptyString.

Definition unauthorized {D} : response D := renderError 401 "unauthorized".

Definition authentication {D S} (secret : string) (next : handler D S) : handler D S := fun r s =>
  if bool_decide (secret = EmptyString) then (Some unauthorized, s)
  else if bool_decide (sha256_bytes (bytes_of secret) = sha256_bytes (bytes_of (credential r)))
  then next r s
  else (Some unauthorized, s).

(** ** The request log line *)

Definition url_safe (c : ascii) : bool :=
  let b := byte c in
  within 97 122 b || within 65 90 b || within 48 57 b
  || List.existsb (Ascii.eqb c) ["-"; "_"; "."; "~"]%char.

Definition hex_upper (d : Z) : ascii := chr (if d <? 10 then 48 + d else 55 + d).

(** [url.QueryEscape]. *)
Fixpoint QueryEscape (s : string) : string :=
  match s with
  | EmptyString => EmptyString
  | String c t =>
      (if url_safe c then String c EmptyString
       else if bool_decide (c = " "%char) then "+"
       else String "%" (String (hex_upper (byte c / 16)) (String (hex_upper (byte c mod 16)) EmptyString)))
      +:+ QueryEscape t
  end.

Fixpoint join_amp (l : list string) : string :=
  match l with [] => EmptyString | [x] => x | x :: l => x +:+ "&" +:+ join_amp l end.

(** [Values.Encode]: the keys in order. *)
Definition Encode (q : gmap string (list string)) : string :=
  join_amp (kv ← stable_sort (fun a b => String.ltb a.1 b.1) (map_to_list q);
            (fun v => QueryEscape kv.1 +:+ "=" +:+ QueryEscape v) <$> kv.2).

(** The URI [safeRequestLogger] logs. *)
Definition loggedURI (r : request) : string :=
  match rq_Query r !! "token"%string with
  | None => rq_RequestURI r
  | Some _ =>
      let encoded := Encode (delete "token"%string (rq_Query r)) in
      if bool_decide (encoded = EmptyString) then rq_Path r else rq_Path r +:+ "?" +:+ encoded
  end.

(** ** The rate limiter *)

Definition rateLimitBucketTTL : Z := 5 * minute.
Definition rateLimitEvictInterval : Z := minute.

Record bucket := mkBucket { bk_tokens : Z; bk_lastTime : Z; bk_lastAccess : Z }.

(** The key of a client: the host of its address, or the whole address. *)
Definition clientKey (remote : string) : string :=
  match SplitHostPort remote with Some (host, _) => host | None => remote end.

Section limiter.
Context `{GoArch}.

(** The tokens that [elapsed] is worth. *)
Definition refillAmount (perSec elapsed : Z) : Z :=
  f_to_s 64 (fmul F64 (Duration_Seconds elapsed) (f_of_Z F64 perSec)).

Definition refill (perSec now : Z) (b : bucket) : bucket :=
  let add := refillAmount perSec (time_Sub now (bk_lastTime b)) in
  if decide (0 < add) then
    let tokens := wraps 64 (bk_tokens b + add) in
    mkBucket (if decide (perSec < tokens) then perSec else tokens) now (bk_lastAccess b)
  else b.

(** One request of a client at [now]; the refill reads the clock again. *)
Definition takeToken (perSec now now' : Z) (found : option bucket) : bool * bucket :=
  let b := default (mkBucket perSec now now) found in
  let b := refill perSec now' (mkBucket (bk_tokens b) (bk_lastTime b) now) in
  if decide (bk_tokens b <= 0) then (false, b)
  else (true, mkBucket (bk_tokens b - 1) (bk_lastTime b) (bk_lastAccess b)).

Definition allow (perSec now now' : Z) (remote : string) (bs : gmap string bucket)
  : bool * gmap string bucket :=
  let ip := clientKey remote in
  let '(ok, b) := takeToken perSec now now' (bs !! ip) in (ok, <[ip := b]> bs).

(** The sweep of the eviction loop. *)
Definition evict (now : Z) (bs : gmap string bucket) : gmap string bucket :=
  filter (fun kb => ~ bk_lastAccess kb.2 < now - rateLimitBucketTTL) bs.

Definition tooMany {D} : response D := with_header "Retry-After" "1" (renderError 429 "rate limit exceeded").
End limiter.

(** ** Request metrics *)

Definition defaultHTTPDurationBuckets : list float :=
  (fun p => fdiv F64 (f_of_Z F64 p.1) (f_of_Z F64 p.2))
  <$> [(1, 1000); (5, 1000); (1, 100); (5, 100); (1, 10); (5, 10); (1, 1); (5, 1)].

Record durationBuckets := mkDurations {
  db_buckets : list float;
  db_counts : list Z;
  db_sum : float;
  db_count : Z;
}.

Record httpMetrics := mkHttpMetrics {
  hm_requestCount : gmap string Z;
  hm_durations : durationBuckets;
}.

(** The package-level collector at start. *)
Definition httpMetricsCollector : httpMetrics :=
  mkHttpMetrics ∅ (mkDurations defaultHTTPDurationBuckets
    (replicate (S (length defaultHTTPDurationBuckets)) 0) f_zero 0).

(** The first bucket whose bound is not below; the overflow bucket if none. *)
Fixpoint bucketIndex (bounds : list float) (secs : float) : nat :=
  match bounds with
  | [] => O
  | ub :: l => if fleb secs ub then O else S (bucketIndex l secs)
  end.

Definition incr (m : gmap string Z) (k : string) : gmap string Z := <[k := u64 (default 0 (m !! k) + 1)]> m.

Definition recordMetric (method : string) (status duration : Z) (m : httpMetrics) : httpMetrics :=
  let secs := Duration_Seconds duration in
  let db := hm_durations m in
  mkHttpMetrics (incr (hm_requestCount m) (method +:+ ":" +:+ itoa status))
    (mkDurations (db_buckets db)
       (alter (fun n => u64 (n + 1)) (bucketIndex (db_buckets db) secs) (db_counts db))
       (fadd F64 (db_sum db) secs) (u64 (db_count db + 1))).

Definition snapshot (m : httpMetrics) : gmap string Z * list Z * float * Z :=
  (hm_requestCount m, db_counts (hm_durations m), db_sum (hm_durations m), db_count (hm_durations m)).

(** *** The status recorder

    What a handler does with its writer, and the status that results. *)
Inductive writerOp := OpWriteHeader (code : Z) | OpWrite.

Record statusRecorder := mkRecorder { sr_code : Z; sr_wroteHeader : bool; sr_sent : list Z }.

Definition recorder_op (op : writerOp) (r : statusRecorder) : statusRecorder :=
  match op with
  | OpWriteHeader code =>
      if decide (100 <= code <= 199 /\ code <> 101) then
        mkRecorder (sr_code r) (sr_wroteHeader r) (sr_sent r ++ [code])
      else if sr_wroteHeader r then r
      else mkRecorder code true (sr_sent r ++ [code])
  | OpWrite =>
      if sr_wroteHeader r then r else mkRecorder 200 true (sr_sent r)
  end.

Definition recorder_new : statusRecorder := mkRecorder 0 false [].

Definition recorder_status (r : statusRecorder) : Z := if sr_wroteHeader r then sr_code r else 200.

(** ** Routes *)

Inductive endpoint :=
| Hello | GetVersion | HealthzLive | HealthzReady
| GetConfigs | GetConfigsRaw | UpdateConfigs | PatchConfigs | ValidateConfigs | GetConfigAudit
| GetConfigBackups | CreateConfigBackup | GetConfigBackupContent | RestoreConfigBackup
| GetDrivers | GetPausedDrivers | GetDriver | GetDriverTags | TestDriver | PauseDriver | ResumeDriver
| DeleteResourceDriver
| GetTransports | GetTransport | TestTransport | DeleteResourceTransport
| GetAllTags | WriteTag | BatchWrite | GetFailedWrites | GetWriteHistory
| GetRules | DisableRule | PreviewRule | DeleteResourceRule
| GetAlerts | AckAlert | StreamAlerts
| GetStats | GetMemory | GetLogs | GetTraffic | StreamTags
| PromMetrics | PprofIndex | PprofCmdline | PprofProfile | PprofSymbol | PprofTrace.

(** A route without a method answers every method. *)
Record route := mkRoute {
  ro_method : option string;
  ro_pattern : string;
  ro_protected : bool;
  ro_endpoint : endpoint;
}.

Definition get_ (p : string) (e : endpoint) : option string * string * endpoint := (Some "GET"%string, p, e).
Definition post (p : string) (e : endpoint) : option string * string * endpoint := (Some "POST"%string, p, e).
Definition put (p : string) (e : endpoint) : option string * string * endpoint := (Some "PUT"%string, p, e).
Definition patch (p : string) (e : endpoint) : option string * string * endpoint := (Some "PATCH"%string, p, e).
Definition delete_ (p : string) (e : endpoint) : option string * string * endpoint := (Some "DELETE"%string, p, e).
Definition any_ (p : string) (e : endpoint) : option string * string * endpoint := (None, p, e).

Definition publicRoutes : list (option string * string * endpoint) :=
  [get_ "/" Hello; get_ "/version" GetVersion;
   get_ "/healthz/live" HealthzLive; get_ "/healthz/ready" HealthzReady].

Definition groupRoutes (pprofEnabled metricsDedicated : bool) : list (option string * string * endpoint) :=
  [get_ "/configs" GetConfigs; get_ "/configs/raw" GetConfigsRaw; put "/configs" UpdateConfigs;
   patch "/configs" PatchConfigs; post "/configs/validate" ValidateConfigs;
   get_ "/configs/audit" GetConfigAudit;
   get_ "/configs/backups" GetConfigBackups; post "/configs/backups" CreateConfigBackup;
   get_ "/configs/backups/{name}" GetConfigBackupContent;
   post "/configs/backups/{name}/restore" RestoreConfigBackup;
   get_ "/drivers" GetDrivers; get_ "/drivers/paused" GetPausedDrivers;
   get_ "/drivers/{name}" GetDriver; get_ "/drivers/{name}/tags" GetDriverTags;
   post "/drivers/test" TestDriver; post "/drivers/{name}/pause" PauseDriver;
   post "/drivers/{name}/resume" ResumeDriver; delete_ "/drivers/{name}" DeleteResourceDriver;
   get_ "/transports" GetTransports; get_ "/transports/{name}" GetTransport;
   post "/transports/{name}/test" TestTransport; delete_ "/transports/{name}" DeleteResourceTransport;
   get_ "/tags" GetAllTags; post "/write" WriteTag; post "/write/batch" BatchWrite;
   get_ "/write/failed" GetFailedWrites; get_ "/write/history" GetWriteHistory;
   get_ "/rules" GetRules; patch "/rules/disable" DisableRule; post "/rules/preview" PreviewRule;
   delete_ "/rules/{name}" DeleteResourceRule;
   get_ "/alerts" GetAlerts; post "/alerts/ack" AckAlert; get_ "/alerts/stream" StreamAlerts;
   get_ "/stats" GetStats; get_ "/memory" GetMemory;
   get_ "/logs" GetLogs; get_ "/traffic" GetTraffic; get_ "/tags/stream" StreamTags]
  ++ (if metricsDedicated then [] else [get_ "/metrics" PromMetrics])
  ++ (if pprofEnabled then
        [any_ "/debug/pprof/*" PprofIndex; any_ "/debug/pprof/cmdline" PprofCmdline;
         any_ "/debug/pprof/profile" PprofProfile; any_ "/debug/pprof/symbol" PprofSymbol;
         any_ "/debug/pprof/trace" PprofTrace]
      else []).

Definition register (protected : bool) (e : option string * string * endpoint) : route :=
  mkRoute e.1.1 e.1.2 protected e.2.

(** The routes [router] registers; the group is protected when there is a
    secret. *)
Definition routes (secret : string) (pprofEnabled metricsDedicated : bool) : list route :=
  (register false <$> publicRoutes)
  ++ (register (bool_decide (secret <> EmptyString)) <$> groupRoutes pprofEnabled metricsDedicated).

Inductive routed := Found (i : nat) (params : gmap string string) | RouteNotFound | MethodNotAllowed.

(** chi: the route of a method and a path among the registered ones, and its
    own answers. *)
Class Chi := {
  chi_find : list (option string * string) -> string -> string -> routed;
  chi_notFound : forall {D}, response D;
  chi_notAllowed : forall {D}, response D;
  chi_recovered : forall {D}, request -> response D;
  chi_find_method : forall t m p i ps, chi_find t m p = Found i ps ->
    exists pat, t !! i = Some (Some m, pat) \/ t !! i = Some (None, pat);
}.

(** What [router] builds its handler from. *)
Record muxConfig := mkMux {
  mc_secret : string;
  mc_allowedOrigins : list string;
  mc_rateLimitPerSec : Z;
  mc_pprofEnabled : bool;
  mc_metricsDedicated : bool;
}.

Definition mux_routes (mc : muxConfig) : list route :=
  routes (mc_secret mc) (mc_pprofEnabled mc) (mc_metricsDedicated mc).

(** The buckets of the handler, the collector, and the state of the handlers. *)
Record gateway (S : Type) := mkGateway {
  gw_buckets : gmap string bucket;
  gw_metrics : httpMetrics;
  gw_state : S;
}.
Arguments mkGateway {S} _ _ _.
Arguments gw_buckets {S} _.
Arguments gw_metrics {S} _.
Arguments gw_state {S} _.

(** The times of one request: its arrival, the refill, its duration. *)
Record timing := mkTiming { tm_now : Z; tm_refill : Z; tm_duration : Z }.

Section pipeline.
Context `{GoArch} `{Chi} {D S : Type} (run : endpoint -> gmap string string -> handler D S).

Definition dispatch (mc : muxConfig) : handler D S := fun r s =>
  let rs := mux_routes mc in
  match chi_find ((fun x => (ro_method x, ro_pattern x)) <$> rs) (rq_Method r) (rq_Path r) with
  | Found i ps =>
      match rs !! i with
      | Some ro =>
          if ro_protected ro then authentication (mc_secret mc) (run (ro_endpoint ro) ps) r s
          else run (ro_endpoint ro) ps r s
      | None => (Some chi_notFound, s)
      end
  | RouteNotFound => (Some chi_notFound, s)
  | MethodNotAllowed => (Some chi_notAllowed, s)
  end.

(** [rateLimitMiddleware] in front of the routes, when a limit is set. *)
Definition limited (mc : muxConfig) (t : timing) : handler D (gateway S) := fun r g =>
  let serve g := let '(x, s) := dispatch mc r (gw_state g) in
                 (x, mkGateway (gw_buckets g) (gw_metrics g) s) in
  if decide (0 < mc_rateLimitPerSec mc) then
    let '(ok, bs) := allow (mc_rateLimitPerSec mc) (tm_now t) (tm_refill t) (rq_RemoteAddr r) (gw_buckets g) in
    let g := mkGateway bs (gw_metrics g) (gw_state g) in
    if ok then serve g else (Some tooMany, g)
  else serve g.

(** A request is recorded when its handler has returned. *)
Definition httpMetricsMiddleware (t : timing) (next : handler D (gateway S)) : handler D (gateway S) := fun r g =>
  let '(x, g) := next r g in
  (x, match x with
      | Some x => mkGateway (gw_buckets g) (recordMetric (rq_Method r) (rs_Status x) (tm_duration t) (gw_metrics g))
                    (gw_state g)
      | None => g
      end).

(** [router]: the middleware in its order.  The recovery stands outside the
    CORS middleware, whose headers are already on the writer when it answers,
    and is therefore inside it here. *)
Definition serve (mc : muxConfig) (t : timing) (r : request) (g : gateway S) : response D * gateway S :=
  let '(x, g) :=
    corsMiddleware (mc_allowedOrigins mc)
      (fun r g => let '(x, g) := httpMetricsMiddleware t (limited mc t) r g in
                  (Some (default (chi_recovered r) x), g)) r g in
  (default (chi_recovered r) x, g).
End pipeline.

(** ** The limiter *)

Section limiter_proofs.
Context `{GoArch}.

(** The tokens of an empty span of time. *)
Lemma refillAmount_0 perSec : 0 <= perSec < 2 ^ 63 -> refillAmount perSec 0 = 0.
Proof.
  intros Hp. unfold refillAmount.
  assert (Hz : Duration_Seconds 0 = S754_zero false) by (vm_compute; reflexivity).
  rewrite Hz. pose proof (f_of_Z_number perSec ltac:(lia)) as Hf.
  by destruct (f_of_Z F64 perSec).
Qed.

Lemma time_Sub_0 t : time_Sub t t = 0.
Proof. unfold time_Sub, minInt64, maxInt64. lia. Qed.

(** A bucket of the present instant only counts down. *)
Lemma admit_now perSec now k : 0 <= perSec < 2 ^ 63 ->
  takeToken perSec now now (Some (mkBucket k now now))
  = if decide (k <= 0) then (false, mkBucket k now now) else (true, mkBucket (k - 1) now now).
Proof.
  intros Hp. unfold takeToken, refill. cbn. rewrite time_Sub_0, refillAmount_0 by done.
  rewrite (decide_False (P := 0 < 0)) by lia. cbn. by destruct (decide (k <= 0)).
Qed.

(** The requests of several addresses at one instant. *)
Fixpoint allow_all (perSec now : Z) (remotes : list string) (bs : gmap string bucket)
  : list bool * gmap string bucket :=
  match remotes with
  | [] => ([], bs)
  | x :: l =>
      let '(ok, bs) := allow perSec now now x bs in
      let '(oks, bs) := allow_all perSec now l bs in (ok :: oks, bs)
  end.

Lemma allow_all_bucket perSec now ip remotes : 0 <= perSec < 2 ^ 63 ->
  Forall (fun x => clientKey x = ip) remotes -> forall k bs, 0 <= k ->
  bs !! ip = Some (mkBucket k now now) ->
  let n := length remotes in
  let m := Nat.min n (Z.to_nat k) in
  (allow_all perSec now remotes bs).1 = replicate m true ++ replicate (n - m) false.
Proof.
  intros Hp Hips. induction Hips as [|x l Hx Hl IH]; intros k bs Hk Hb; [done|].
  cbn [allow_all]. unfold allow. rewrite Hx, Hb, admit_now by done. cbn [length].
  destruct (decide (k <= 0)) as [Hz|Hz].
  - specialize (IH k (<[ip := mkBucket k now now]> bs) Hk (lookup_insert_eq _ _ _)).
    destruct (allow_all perSec now l _) as [oks bs']. cbn in *. rewrite IH.
    replace (Z.to_nat k) with O by lia. by rewrite Nat.min_0_r, Nat.sub_0_r.
  - specialize (IH (k - 1) (<[ip := mkBucket (k - 1) now now]> bs) ltac:(lia) (lookup_insert_eq _ _ _)).
    destruct (allow_all perSec now l _) as [oks bs']. cbn in *. rewrite IH.
    replace (Z.to_nat k) with (Datatypes.S (Z.to_nat (k - 1))) by lia. done.
Qed.


(** Other hosts do not matter. *)
Lemma allow_other perSec now now' remote ip bs :
  clientKey remote <> ip -> (allow perSec now now' remote bs).2 !! ip = bs !! ip.
Proof.
  intros Hne. unfold allow. destruct (takeToken _ _ _ _) as [ok b]. cbn. by rewrite lookup_insert_ne.
Qed.

Definition bucket_ok (perSec : Z) (b : bucket) : Prop := 0 <= bk_tokens b <= perSec.

(** The tokens of a bucket stay within the limit. *)
Lemma admit_ok perSec now now' found ok b :
  0 <= perSec -> (forall b, found = Some b -> bucket_ok perSec b) ->
  perSec + refillAmount perSec (time_Sub now' (default now (bk_lastTime <$> found))) <= maxInt64 ->
  takeToken perSec now now' found = (ok, b) -> bucket_ok perSec b.
Proof.
  unfold bucket_ok, takeToken, refill, maxInt64. intros Hp Hf Hov.
  assert (Hb : 0 <= bk_tokens (default (mkBucket perSec now now) found) <= perSec).
  { destruct found as [b0|]; cbn; [by apply Hf|lia]. }
  replace (default now (bk_lastTime <$> found)) with (bk_lastTime (default (mkBucket perSec now now) found))
    in Hov by by destruct found.
  set (c := default _ _) in *. cbn in *. set (a := refillAmount _ _) in *.
  destruct (decide (0 < a)).
  - rewrite wraps_small by (change (64 - 1) with 63; lia). cbn.
    repeat case_decide; intros [= <- <-]; cbn in *; lia.
  - cbn. repeat case_decide; intros [= <- <-]; cbn in *; lia.
Qed.
End limiter_proofs.

(** ** The request metrics *)

Lemma bucketIndex_bound bounds secs : (bucketIndex bounds secs <= length bounds)%nat.
Proof. induction bounds as [|b l IH]; cbn; [lia|]. destruct (fleb secs b); lia. Qed.

Lemma zsum_alter i l : (i < length l)%nat ->
  u64 (zsum (alter (fun n => u64 (n + 1)) i l)) = u64 (zsum l + 1).
Proof.
  revert i. induction l as [|x l IH]; intros [|i] Hi; cbn in *; try lia.
  - rewrite (u64_add (x + 1)). f_equal. lia.
  - rewrite (Z.add_comm x), <- (u64_add (foldr Z.add 0 _)). fold (zsum (alter (fun n => u64 (n + 1)) i l)).
    rewrite IH, u64_add by lia. f_equal. unfold zsum. lia.
Qed.

(** One observation: its method, its status and its duration. *)
Definition observation : Type := string * Z * Z.

Definition observe_all (l : list observation) (m : httpMetrics) : httpMetrics :=
  foldl (fun m o => recordMetric o.1.1 o.1.2 o.2 m) m l.

Definition obs_key (o : observation) : string := o.1.1 +:+ ":" +:+ itoa o.1.2.

Definition metrics_inv (l : list observation) (m : httpMetrics) : Prop :=
  db_count (hm_durations m) = u64 (Z.of_nat (length l))
  /\ u64 (zsum (db_counts (hm_durations m))) = u64 (Z.of_nat (length l))
  /\ length (db_counts (hm_durations m)) = Datatypes.S (length (db_buckets (hm_durations m)))
  /\ forall k, default 0 (hm_requestCount m !! k)
               = u64 (Z.of_nat (length (filter (fun o => obs_key o = k) l))).

Lemma record_inv l o m : metrics_inv l m -> metrics_inv (l ++ [o]) (recordMetric o.1.1 o.1.2 o.2 m).
Proof.
  intros (Hc & Hs & Hl & Hk). unfold metrics_inv, recordMetric. cbn [hm_durations hm_requestCount].
  cbn [db_count db_counts db_buckets]. rewrite length_app. cbn [length]. split_and!.
  - rewrite Hc, u64_add. f_equal. lia.
  - rewrite zsum_alter by (rewrite Hl; pose proof (bucketIndex_bound (db_buckets (hm_durations m)) (Duration_Seconds o.2)); lia).
    rewrite <- u64_add, Hs, u64_add. f_equal. lia.
  - by rewrite length_alter.
  - intros k. rewrite filter_app, length_app, filter_cons, filter_nil. unfold incr.
    change (o.1.1 +:+ ":" +:+ itoa o.1.2) with (obs_key o).
    destruct (decide (obs_key o = k)) as [<-|Hne].
    + rewrite lookup_insert_eq. cbn. rewrite Hk, u64_add. f_equal. lia.
    + rewrite lookup_insert_ne by done. rewrite Hk. f_equal. cbn. lia.
Qed.

(** Every recorded request is counted once in the histogram and once under
    its method and status: the bucket counts add up to the number of requests,
    and so does each label's count over its own requests, all modulo 2^64. *)
Theorem metrics_exact l : metrics_inv l (observe_all l httpMetricsCollector).
Proof.
  assert (H0 : metrics_inv [] httpMetricsCollector) by (vm_compute; done).
  unfold observe_all. change l with ([] ++ l) at 1. revert H0.
  generalize (@nil observation) httpMetricsCollector.
  induction l as [|o l IH]; intros l0 m Hm; cbn [foldl]; [by rewrite app_nil_r|].
  rewrite (cons_middle o l0 l), app_assoc. apply IH, record_inv, Hm.
Qed.

(** The status a handler's writes end with. *)
Fixpoint final_status (ops : list writerOp) : Z :=
  match ops with
  | [] => 200
  | OpWrite :: _ => 200
  | OpWriteHeader code :: l => if decide (100 <= code <= 199 /\ code <> 101) then final_status l else code
  end.

Lemma recorder_exact ops : recorder_status (foldl (fun r op => recorder_op op r) recorder_new ops) = final_status ops.
Proof.
  assert (Hdone : forall l r, sr_wroteHeader r = true ->
    recorder_status (foldl (fun r op => recorder_op op r) r l) = sr_code r).
  { induction l as [|op l IH]; intros r Hr; cbn [foldl]; [unfold recorder_status; by rewrite Hr|].
    rewrite IH; destruct op; cbn; rewrite ?Hr; repeat case_decide; done. }
  unfold recorder_new. generalize (@nil Z). induction ops as [|op ops IH]; intros sent; [done|].
  cbn [foldl]. destruct op as [code|]; cbn [recorder_op final_status sr_wroteHeader sr_sent sr_code].
  - destruct (decide _); [apply IH|]. by rewrite Hdone.
  - by rewrite Hdone.
Qed.

(** ** The request log *)

(** Two requests that differ in the value of their token, and so in their
    URI, leave the same log line. *)
Lemma log_hides_token r r' t t' :
  rq_Path r = rq_Path r' ->
  rq_Query r !! "token"%string = Some t -> rq_Query r' !! "token"%string = Some t' ->
  delete "token"%string (rq_Query r) = delete "token"%string (rq_Query r') ->
  loggedURI r = loggedURI r'.
Proof. intros Hp Ht Ht' Hd. unfold loggedURI. by rewrite Ht, Ht', Hd, Hp. Qed.

(** ** The protected group *)

Definition publicEndpoints : list endpoint := (fun e => e.2) <$> publicRoutes.

(** The request presents the secret, as the middleware compares them. *)
Definition presents (secret : string) (r : request) : Prop :=
  sha256_bytes (bytes_of secret) = sha256_bytes (bytes_of (credential r)).

Lemma routes_cases secret p m i ro : secret <> EmptyString -> routes secret p m !! i = Some ro ->
  ro_protected ro = true \/ ro_protected ro = false /\ ro_endpoint ro ∈ publicEndpoints.
Proof.
  intros Hs Hi. unfold routes in Hi. apply lookup_app_Some in Hi as [Hi|[_ Hi]];
    rewrite list_lookup_fmap in Hi; apply fmap_Some in Hi as (e & He & ->).
  - right. split; [done|]. apply list_elem_of_fmap. exists e. split; [done|].
    by eapply list_elem_of_lookup_2.
  - left. cbn. by apply bool_decide_true.
Qed.

Section protected.
Context `{GoArch} `{Chi} {D S : Type}.
Implicit Types run : endpoint -> gmap string string -> handler D S.

Lemma dispatch_without run run' mc r s :
  mc_secret mc <> EmptyString -> ~ presents (mc_secret mc) r ->
  (forall e ps, e ∈ publicEndpoints -> run e ps = run' e ps) ->
  dispatch run mc r s = dispatch run' mc r s.
Proof.
  intros Hs Hr Heq. unfold dispatch. destruct (chi_find _ _ _) as [i ps| |]; [|done..].
  destruct (mux_routes mc !! i) as [ro|] eqn:Hi; [|done].
  destruct (routes_cases _ _ _ _ _ Hs Hi) as [->|[-> Hpub]].
  - unfold authentication. rewrite bool_decide_false by done. by rewrite bool_decide_false.
  - by rewrite Heq.
Qed.

Lemma limited_without run run' mc t r g :
  mc_secret mc <> EmptyString -> ~ presents (mc_secret mc) r ->
  (forall e ps, e ∈ publicEndpoints -> run e ps = run' e ps) ->
  limited run mc t r g = limited run' mc t r g.
Proof.
  intros Hs Hr Heq. unfold limited. destruct (decide _).
  - destruct (allow _ _ _ _ _) as [[] bs]; [|done]. by rewrite (dispatch_without run run').
  - by rewrite (dispatch_without run run').
Qed.

(** Without the secret no protected handler takes part in a request. *)
Lemma serve_without run run' mc t r g :
  mc_secret mc <> EmptyString -> ~ presents (mc_secret mc) r ->
  (forall e ps, e ∈ publicEndpoints -> run e ps = run' e ps) ->
  serve run mc t r g = serve run' mc t r g.
Proof.
  intros Hs Hr Heq. unfold serve, corsMiddleware, httpMetricsMiddleware.
  by rewrite (limited_without run run').
Qed.

(** With it, the handler of the route answers. *)
Lemma dispatch_with run mc r s i ps ro :
  presents (mc_secret mc) r ->
  chi_find ((fun x => (ro_method x, ro_pattern x)) <$> mux_routes mc) (rq_Method r) (rq_Path r) = Found i ps ->
  mux_routes mc !! i = Some ro -> mc_secret mc <> EmptyString ->
  dispatch run mc r s = run (ro_endpoint ro) ps r s.
Proof.
  intros Hr Hf Hi Hs. unfold dispatch. rewrite Hf, Hi. destruct (ro_protected ro); [|done].
  unfold authentication. rewrite bool_decide_false by done. by rewrite bool_decide_true.
Qed.
End protected.

(** No route that answers another method than GET is public. *)
Lemma public_only_reads secret p m ro :
  secret <> EmptyString -> ro ∈ routes secret p m -> ro_protected ro = false -> ro_method ro = Some "GET"%string.
Proof.
  intros Hs Hin Hp. unfold routes in Hin. apply elem_of_app in Hin as [Hin|Hin];
    apply list_elem_of_fmap in Hin as (e & -> & He).
  - repeat (apply elem_of_cons in He as [->|He]; [done|]). by apply elem_of_nil in He.
  - cbn in Hp. by rewrite bool_decide_true in Hp.
Qed.

(** The two DELETE-capable resources are not among the methods a browser is
    told it may use. *)
Lemma cors_misses_delete secret :
  str_contains corsMethods "DELETE" = false
  /\ Some "DELETE"%string ∈ (ro_method <$> routes secret true false).
Proof.
  split; [done|]. unfold routes. rewrite fmap_app. apply elem_of_app. right.
  rewrite <- list_fmap_compose. vm_compute.
  repeat first [apply list_elem_of_here | apply list_elem_of_further].
Qed.

