(* ===== verification/Server.v ===== *)
(** * The API server's life ([hub/route/server.go], [server_lifecycle.go], [hub/hub.go])

    The package variables of the server as one record, [ReCreateServer] and
    [CloseServer] as operations on it, the two side servers without
    authentication, and the start of the hub from a configuration.  A
    lifecycle context is a number; [sv_live] holds the contexts that were not
    cancelled, each of which keeps one eviction loop of the rate limiter
    running.  Whether the address can be bound is an input.

    The theorems show that whatever sequence of reloads led to a state, its
    handlers are out of reach without the secret, and that the side servers
    only ever listen on loopback addresses. *)

From Stdlib Require Import ZArith Lia String Ascii.
From stdpp Require Import base list gmap sets strings.
From S2P Require Import Prelude GoFloat GoTime Config JsonText Json CommandJson Sha256 Net Http.

Open Scope Z_scope.

Definition defaultReadHeaderTimeout : Z := 10 * second.
Definition defaultReadTimeout : Z := 0.
Definition defaultWriteTimeout : Z := 0.
Definition defaultIdleTimeout : Z := 120 * second.

(** [route.Config]. *)
Record serverConfig := mkServerConfig {
  sc_Addr : string;
  sc_Secret : string;
  sc_TLSCert : string;
  sc_TLSKey : string;
  sc_AllowedOrigins : list string;
  sc_RateLimitPerSec : Z;
  sc_ReadHeaderTimeout : Z;
  sc_ReadTimeout : Z;
  sc_WriteTimeout : Z;
  sc_IdleTimeout : Z;
  sc_PprofDisabled : bool;
  sc_MetricsAddr : string;
  sc_PprofAddr : string;
}.

Definition timeoutOr (d def : Z) : Z := if decide (d <= 0) then def else d.

(** Read header, read, write, idle. *)
Definition resolveTimeouts (cfg : serverConfig) : Z * Z * Z * Z :=
  (timeoutOr (sc_ReadHeaderTimeout cfg) defaultReadHeaderTimeout,
   timeoutOr (sc_ReadTimeout cfg) defaultReadTimeout,
   timeoutOr (sc_WriteTimeout cfg) defaultWriteTimeout,
   timeoutOr (sc_IdleTimeout cfg) defaultIdleTimeout).

(** The server that was created, and what [serveAPI] serves it with. *)
Record apiServer := mkApiServer {
  as_timeouts : Z * Z * Z * Z;
  as_tls : option (string * string);
}.

Record server := mkServer {
  sv_http : option apiServer;               (* httpServer *)
  sv_listener : option string;              (* serverListener, by its address *)
  sv_addr : string;                         (* serverAddr *)
  sv_handler : option (muxConfig * nat);    (* handlerPtr: the mux and its context *)
  sv_cancel : option nat;                   (* serverCancel, by its context *)
  sv_live : gset nat;
  sv_next : nat;
  sv_pprof : option string;                 (* pprofServer, by its address *)
  sv_metrics : option string;               (* metricsServer *)
  sv_start : Z;                             (* startTime *)
  sv_wsOrigins : list string;               (* wsAllowedOrigins *)
}.

(** The package at program start. *)
Definition server_init (now : Z) : server := mkServer None None "" None None ∅ 0 None None now [].

(** Cancel the lifecycle context of the running server. *)
Definition cancelContext (s : server) : server :=
  mkServer (sv_http s) (sv_listener s) (sv_addr s) (sv_handler s) None
    (match sv_cancel s with Some c => sv_live s ∖ {[c]} | None => sv_live s end)
    (sv_next s) (sv_pprof s) (sv_metrics s) (sv_start s) (sv_wsOrigins s).

Definition set_listening (h : option apiServer) (l : option string) (addr : string) (s : server) : server :=
  mkServer h l addr (sv_handler s) (sv_cancel s) (sv_live s) (sv_next s) (sv_pprof s) (sv_metrics s)
    (sv_start s) (sv_wsOrigins s).

Definition set_handler (h : option (muxConfig * nat)) (c : option nat) (s : server) : server :=
  mkServer (sv_http s) (sv_listener s) (sv_addr s) h c (sv_live s) (sv_next s) (sv_pprof s) (sv_metrics s)
    (sv_start s) (sv_wsOrigins s).

Definition set_side (p m : option string) (s : server) : server :=
  mkServer (sv_http s) (sv_listener s) (sv_addr s) (sv_handler s) (sv_cancel s) (sv_live s) (sv_next s) p m
    (sv_start s) (sv_wsOrigins s).

Definition mux_of (cfg : serverConfig) : muxConfig :=
  mkMux (sc_Secret cfg) (sc_AllowedOrigins cfg) (sc_RateLimitPerSec cfg)
    (negb (sc_PprofDisabled cfg) && bool_decide (sc_PprofAddr cfg = EmptyString))
    (bool_decide (sc_MetricsAddr cfg <> EmptyString)).

(** The new router with a fresh context, swapped in. *)
Definition swapHandler (cfg : serverConfig) (now : Z) (s : server) : server :=
  mkServer (sv_http s) (sv_listener s) (sv_addr s) (Some (mux_of cfg, sv_next s)) (Some (sv_next s))
    (sv_live s ∪ {[sv_next s]}) (Datatypes.S (sv_next s)) (sv_pprof s) (sv_metrics s) now (sc_AllowedOrigins cfg).

Definition startPprofServer (cfg : serverConfig) (s : server) : server :=
  if bool_decide (sc_PprofAddr cfg = EmptyString) || sc_PprofDisabled cfg then s
  else if negb (isLoopbackAddr (sc_PprofAddr cfg)) then s
  else set_side (Some (sc_PprofAddr cfg)) (sv_metrics s) s.

Definition startMetricsServer (cfg : serverConfig) (s : server) : server :=
  if bool_decide (sc_MetricsAddr cfg = EmptyString) then s
  else if negb (isLoopbackAddr (sc_MetricsAddr cfg)) then s
  else set_side (sv_pprof s) (Some (sc_MetricsAddr cfg)) s.

Definition tls_of (cfg : serverConfig) : option (string * string) :=
  if bool_decide (sc_TLSCert cfg <> EmptyString) && bool_decide (sc_TLSKey cfg <> EmptyString)
  then Some (sc_TLSCert cfg, sc_TLSKey cfg) else None.

(** The end of [ReCreateServer]: bind and create, with [bound] the outcome of
    [net.Listen]. *)
Definition listenAndServe (cfg : serverConfig) (bound : bool) (s : server) : server :=
  let s := set_listening None None (sv_addr s) s in
  if bound then
    let s := set_listening (Some (mkApiServer (resolveTimeouts cfg) (tls_of cfg))) (Some (sc_Addr cfg)) (sc_Addr cfg) s in
    startMetricsServer cfg (startPprofServer cfg s)
  else set_listening None None "" (set_handler None None s).

Definition ReCreateServer (cfg : option serverConfig) (now : Z) (bound : bool) (s : server) : server :=
  let s := cancelContext s in
  match cfg with
  | None => set_handler None (sv_cancel s) (set_listening None None "" s)
  | Some cfg =>
      if bool_decide (sc_Addr cfg = EmptyString)
      then set_handler None (sv_cancel s) (set_listening None None "" s)
      else if bool_decide (sc_Secret cfg = EmptyString) then s
      else
        let s := swapHandler cfg now s in
        match sv_http s, sv_listener s with
        | Some _, Some _ =>
            if bool_decide (sv_addr s = sc_Addr cfg) then s else listenAndServe cfg bound s
        | _, _ => listenAndServe cfg bound s
        end
  end.

(** [shutdown] is the error of the graceful shutdown. *)
Definition CloseServer (shutdown : option error) (s : server) : option error * server :=
  let s := cancelContext s in
  match sv_http s with
  | None => (None, set_side None None s)
  | Some _ =>
      (shutdown, set_side None None (set_handler None (sv_cancel s) (set_listening None None "" s)))
  end.

(** ** Serving *)

Section serving.
Context `{GoArch} `{Chi} {D S : Type} (run : endpoint -> gmap string string -> handler D S).

Definition notReady : response D :=
  mkResponse 503 (<["X-Content-Type-Options"%string := "nosniff"%string]>
                   {["Content-Type"%string := "text/plain; charset=utf-8"%string]})
    (TextBody ("server not ready" +:+ String (ascii_of_N 10) EmptyString)).

(** [atomicHandler.ServeHTTP]. *)
Definition ServeHTTP (s : server) (t : timing) (r : request) (g : gateway S) : response D * gateway S :=
  match sv_handler s with
  | Some (mc, _) => serve run mc t r g
  | None => (notReady, g)
  end.
End serving.

(** ** The hub *)

Definition hubDuration `{GoArch} (s : string) : Z :=
  if bool_decide (s = EmptyString) then 0 else default 0 (ParseDuration s).

Definition routeConfig `{GoArch} (a : APIConfig) : serverConfig :=
  mkServerConfig (ap_Listen a) (ap_Secret a) (ap_TLSCert a) (ap_TLSKey a) (ap_AllowedOrigins a)
    (ap_RateLimitPerSec a) (hubDuration (ap_ReadHeaderTimeout a)) (hubDuration (ap_ReadTimeout a))
    (hubDuration (ap_WriteTimeout a)) (hubDuration (ap_IdleTimeout a)) (ap_PprofDisabled a)
    (ap_MetricsAddr a) (ap_PprofAddr a).

(** The part of [hub.Start] that starts the server. *)
Definition hubStart `{GoArch} (a : APIConfig) (now : Z) (bound : bool) (s : server) : server :=
  if bool_decide (ap_Listen a <> EmptyString) then ReCreateServer (Some (routeConfig a)) now bound s else s.

(** What happens to the server. *)
Inductive server_step : server -> server -> Prop :=
| step_recreate cfg now bound s : server_step s (ReCreateServer cfg now bound s)
| step_close e s : server_step s (CloseServer e s).2.

(** ** Reachable states *)

Definition reachable (now : Z) : server -> Prop := rtc server_step (server_init now).

Record server_inv (s : server) : Prop := {
  si_secret mc c : sv_handler s = Some (mc, c) -> mc_secret mc <> EmptyString;
  si_pprof a : sv_pprof s = Some a -> isLoopbackAddr a = true;
  si_metrics a : sv_metrics s = Some a -> isLoopbackAddr a = true;
  si_listening : sv_http s = None <-> sv_listener s = None;
}.

Lemma cancel_inv s : server_inv s -> server_inv (cancelContext s).
Proof. intros []. by split. Qed.

Lemma start_pprof_inv cfg s : server_inv s -> server_inv (startPprofServer cfg s).
Proof.
  intros Hs. unfold startPprofServer. destruct (_ || _); [done|].
  destruct (isLoopbackAddr (sc_PprofAddr cfg)) eqn:Hl; [|done]. destruct Hs. split; cbn; [done| |done..].
  by intros a [= <-].
Qed.

Lemma start_metrics_inv cfg s : server_inv s -> server_inv (startMetricsServer cfg s).
Proof.
  intros Hs. unfold startMetricsServer. destruct (bool_decide _); [done|].
  destruct (isLoopbackAddr (sc_MetricsAddr cfg)) eqn:Hl; [|done]. destruct Hs. split; cbn; [done..| |done].
  by intros a [= <-].
Qed.

Lemma listen_inv cfg bound s : server_inv s -> server_inv (listenAndServe cfg bound s).
Proof.
  intros [Hsec Hp Hm Hl]. unfold listenAndServe. destruct bound.
  - apply start_metrics_inv, start_pprof_inv. by split.
  - by split.
Qed.

Lemma recreate_inv cfg now bound s : server_inv s -> server_inv (ReCreateServer cfg now bound s).
Proof.
  intros Hs%cancel_inv. unfold ReCreateServer.
  assert (Hoff : server_inv (set_handler None (sv_cancel (cancelContext s)) (set_listening None None "" (cancelContext s)))).
  { destruct Hs. by split. }
  destruct cfg as [cfg|]; [|done]. destruct (bool_decide (sc_Addr cfg = _)); [done|].
  case_bool_decide as Hsec; [done|].
  assert (Hsw : server_inv (swapHandler cfg now (cancelContext s))).
  { destruct Hs. split; [|done..]. by intros mc c [= <- <-]. }
  set (s1 := swapHandler cfg now (cancelContext s)) in *.
  destruct (sv_http s1), (sv_listener s1); try case_bool_decide; by try apply listen_inv.
Qed.

Lemma close_inv e s : server_inv s -> server_inv (CloseServer e s).2.
Proof.
  intros Hs%cancel_inv. unfold CloseServer. destruct (sv_http (cancelContext s)); destruct Hs; by split.
Qed.

Lemma reachable_inv now s : reachable now s -> server_inv s.
Proof.
  intros Hr. unfold reachable in Hr. remember (server_init now) as s0 eqn:E.
  assert (Hs0 : server_inv s0) by (subst; by split). clear E.
  induction Hr as [|? ? ? [cfg t bound s|e s]]; eauto using recreate_inv, close_inv.
Qed.

Section safety.
Context `{GoArch} `{Chi} {D S : Type}.

(** C14. Whatever sequence of server reloads and stops led here, a request that
    does not present the secret of the installed handler is answered without
    any protected handler: replacing all of them changes neither the response
    nor the state, rate limiter and metrics included. *)
Theorem protected_need_secret now s t r g (run run' : endpoint -> gmap string string -> handler D S) :
  reachable now s ->
  (forall mc c, sv_handler s = Some (mc, c) -> ~ presents (mc_secret mc) r) ->
  (forall e ps, e ∈ publicEndpoints -> run e ps = run' e ps) ->
  ServeHTTP run s t r g = ServeHTTP run' s t r g.
Proof.
  intros Hs%reachable_inv Hr Heq. unfold ServeHTTP.
  destruct (sv_handler s) as [[mc c]|] eqn:Hh; [|done].
  apply serve_without; [by eapply si_secret|by eapply Hr|done].
Qed.
End safety.

(** The profiling and metrics servers, which ask for no credential, listen
    on loopback addresses only: an address of four octets they are bound to
    lies in 127.0.0.0/8. *)
Theorem side_servers_loopback now s addr :
  reachable now s -> sv_pprof s = Some addr \/ sv_metrics s = Some addr ->
  isLoopbackAddr addr = true
  /\ forall a b c d port, octet a -> octet b -> octet c -> octet d -> bare port = true ->
       addr = dotted a b c d +:+ String ":" port -> a = 127.
Proof.
  intros Hs%reachable_inv Haddr.
  assert (Hl : isLoopbackAddr addr = true).
  { destruct Haddr; [by eapply si_pprof|by eapply si_metrics]. }
  split; [done|]. intros a b c d port Ha Hb Hc Hd Hp ->.
  rewrite loopback_dotted in Hl by done. by apply Z.eqb_eq.
Qed.

(** ** Gaps of the reload *)

(** A reload on the same address that adds a dedicated metrics server takes
    [/metrics] off the API and starts no server for it. *)
Lemma reload_loses_metrics cfg now bound s h l :
  sv_http s = Some h -> sv_listener s = Some l -> sv_addr s = sc_Addr cfg ->
  sc_Addr cfg <> EmptyString -> sc_Secret cfg <> EmptyString -> sc_MetricsAddr cfg <> EmptyString ->
  let s' := ReCreateServer (Some cfg) now bound s in
  sv_metrics s' = sv_metrics s /\ sv_handler s' = Some (mux_of cfg, sv_next s)
  /\ mc_metricsDedicated (mux_of cfg) = true.
Proof.
  intros Hh Hl Ha Hne Hsec Hm s'. subst s'. unfold ReCreateServer.
  rewrite !bool_decide_false by done. cbn. rewrite Hh, Hl. rewrite bool_decide_true by done.
  split_and!; [done..|]. by apply bool_decide_true.
Qed.

Lemma dedicated_no_route mc i ro : mc_metricsDedicated mc = true -> mux_routes mc !! i = Some ro -> ro_endpoint ro <> PromMetrics.
Proof.
  unfold mux_routes. intros -> Hi%list_elem_of_lookup_2. unfold routes in Hi.
  apply elem_of_app in Hi as [Hi|Hi]; apply list_elem_of_fmap in Hi as (e & -> & He).
  - repeat (apply elem_of_cons in He as [->|He]; [done|]). by apply elem_of_nil in He.
  - unfold groupRoutes in He. rewrite app_nil_l in He. apply elem_of_app in He as [He|He].
    + repeat (apply elem_of_cons in He as [->|He]; [done|]). by apply elem_of_nil in He.
    + destruct (mc_pprofEnabled mc); [|by apply elem_of_nil in He].
      repeat (apply elem_of_cons in He as [->|He]; [done|]). by apply elem_of_nil in He.
Qed.

(** A failed bind abandons a router whose eviction loop nothing stops. *)
Lemma failed_bind_leaks cfg now s :
  sc_Addr cfg <> EmptyString -> sc_Secret cfg <> EmptyString -> sv_addr s <> sc_Addr cfg ->
  let s' := ReCreateServer (Some cfg) now false s in
  sv_cancel s' = None /\ sv_handler s' = None /\ sv_next s ∈ sv_live s'.
Proof.
  intros Hne Hsec Ha s'. subst s'. unfold ReCreateServer. rewrite !bool_decide_false by done. cbn.
  destruct (sv_http s), (sv_listener s); try rewrite bool_decide_false by done; cbn; set_solver.
Qed.

(** A reload without a secret leaves the running handler in place but stops
    the eviction of its rate limiter. *)
Lemma empty_secret_stops_eviction cfg now bound s mc c :
  sc_Addr cfg <> EmptyString -> sc_Secret cfg = EmptyString ->
  sv_handler s = Some (mc, c) -> sv_cancel s = Some c ->
  let s' := ReCreateServer (Some cfg) now bound s in
  sv_handler s' = Some (mc, c) /\ c ∉ sv_live s'.
Proof.
  intros Hne Hsec Hh Hc s'. subst s'. unfold ReCreateServer. rewrite bool_decide_false by done.
  rewrite bool_decide_true by done. cbn. rewrite Hc. set_solver.
Qed.

(** ** A server in use *)

Module Demo.
(** Exact paths only. *)
Definition find (t : list (option string * string)) (m p : string) : routed :=
  match list_find (fun e => (e.1 = Some m \/ e.1 = None) /\ e.2 = p) t with
  | Some (i, _) => Found i ∅
  | None => RouteNotFound
  end.

#[global, refine] Instance exact_paths : Chi := {|
  chi_find := find;
  chi_notFound _ := mkResponse 404 ∅ NoBody;
  chi_notAllowed _ := mkResponse 405 ∅ NoBody;
  chi_recovered _ _ := mkResponse 500 ∅ NoBody;
|}.
Proof.
  intros t m p i ps Hf. unfold find in Hf. destruct (list_find _ t) as [[j e]|] eqn:Hl; [|done].
  injection Hf as <- _. apply list_find_Some in Hl as (He & [Hm _] & _). exists e.2.
  destruct e as [mth pat]. cbn in *. destruct Hm as [->| ->]; auto.
Defined.

Definition cfg : serverConfig :=
  mkServerConfig "127.0.0.1:9090" "s3cret" "" "" [] 5 0 0 0 0 false "127.0.0.1:9100" "127.0.0.1:6060".

Definition up : server := ReCreateServer (Some cfg) 0 true (server_init 0).

Definition req (token : string) : request :=
  mkRequest "POST" "/write" "/write" "10.0.0.7:51034"
    {["Authorization"%string := [token]]} ∅ "{}".

(** Handlers that count their calls, and handlers that do nothing. *)
Definition counting (e : endpoint) (ps : gmap string string) : handler unit nat := fun _ n => (Some renderNoContent, S n).
Definition idle (e : endpoint) (ps : gmap string string) : handler unit nat := fun r n =>
  match e with
  | Hello | GetVersion | HealthzLive | HealthzReady => counting e ps r n
  | _ => (None, n)
  end.

Definition start : gateway nat := mkGateway ∅ httpMetricsCollector 0%nat.

Lemma up_reachable : reachable 0 up.
Proof. apply rtc_once. constructor. Qed.
End Demo.

(** The secret lets a request through to its handler, and only the secret. *)
Example demo_served :
  let g token := ServeHTTP (H := amd64_f2i) Demo.counting Demo.up (mkTiming 0 0 0) (Demo.req token) Demo.start in
  (rs_Status (g "Bearer s3cret"%string).1, gw_state (g "Bearer s3cret"%string).2,
   rs_Status (g "Bearer guess"%string).1, gw_state (g "Bearer guess"%string).2) = (204, 1%nat, 401, 0%nat).
Proof. vm_compute. reflexivity. Qed.

Lemma protected_need_secret_witness :
  ServeHTTP (H := amd64_f2i) Demo.counting Demo.up (mkTiming 0 0 0) (Demo.req "Bearer guess") Demo.start
  = ServeHTTP (H := amd64_f2i) Demo.idle Demo.up (mkTiming 0 0 0) (Demo.req "Bearer guess") Demo.start.
Proof.
  apply (protected_need_secret (H := amd64_f2i) 0).
  - exact Demo.up_reachable.
  - intros mc c [= <- <-] Hp. vm_compute in Hp. discriminate.
  - intros e ps He.
    repeat (apply elem_of_cons in He as [->|He]; [reflexivity|]). by apply elem_of_nil in He.
Defined.

Lemma side_servers_loopback_witness :
  isLoopbackAddr "127.0.0.1:9100" = true
  /\ forall a b c d port, octet a -> octet b -> octet c -> octet d -> bare port = true ->
       "127.0.0.1:9100"%string = dotted a b c d +:+ String ":" port -> a = 127.
Proof.
  apply (side_servers_loopback 0 Demo.up "127.0.0.1:9100" Demo.up_reachable). right. vm_compute. reflexivity.
Defined.
