(* ===== verification/Api.v ===== *)
(** * The API's handlers ([hub/route]: tags, drivers, rules, alerts, health, ...)

    [CoreEngine] is the interface [core.Engine] with the optional roles a
    handler asserts; an engine without a role has [None] there, and before
    [SetEngine] there is no engine at all.  Each handler is a definition over
    the engine's state; its answer is the Go value it renders.  The text of a
    decoding error is a parameter ([RouteEnv]), and so is the time.

    The theorems show that a write reaches the engine only with a type named
    by the client and stamped with its origin, what a batch answers, what the
    history and tag queries return, and when the node reports itself ready. *)

From Stdlib Require Import ZArith Lia String Ascii.
From stdpp Require Import base list gmap strings.
From S2P Require Import Prelude GoFloat GoTime Types JsonDecode JsonText Json JsonValue CommandJson PointJson RuleEngine Alerts WriteManager Config Engine Metrics Stats Http.

Open Scope Z_scope.

(** ** The engine as the handlers see it *)

(** [core.AlertProvider] and [driverPausable]. *)
Record alertRole (G : Type) := mkAlertRole {
  ar_ActiveAlerts : G -> list Alert;
  ar_AlertHistory : G -> list AlertEvent;
  ar_AckAlert : string -> Z -> G -> option error * G;
}.
Arguments mkAlertRole {G} _ _ _.
Arguments ar_ActiveAlerts {G} _ _.
Arguments ar_AlertHistory {G} _ _.
Arguments ar_AckAlert {G} _ _ _ _.

Record pauseRole (G : Type) := mkPauseRole {
  pr_PauseDriver : string -> G -> option error * G;
  pr_ResumeDriver : string -> G -> option error * G;
  pr_PausedDrivers : G -> list string;
}.
Arguments mkPauseRole {G} _ _ _.
Arguments pr_PauseDriver {G} _ _ _.
Arguments pr_ResumeDriver {G} _ _ _.
Arguments pr_PausedDrivers {G} _ _.

Class CoreEngine (G : Type) := {
  (* StatsProvider *)
  en_Stats : Z -> G -> EngineStats;
  en_StaleThreshold : G -> Z;
  en_DeadLetterEntries : G -> list DeadLetterEntry;
  (* DriverManager, TransportManager *)
  en_ListDrivers : G -> list DriverStatus;
  en_ListTransports : G -> list TransportStatus;
  en_Publish : string -> DataPoint -> G -> option (option error * G); (* none: no such transport *)
  (* RuleManager *)
  en_GetRuleStats : G -> list RuleStat;
  en_SetRuleDisabled : Z -> bool -> G -> option error * G;
  en_SetRuleDisabledByName : string -> bool -> G -> option error * G;
  (* DataAccessor *)
  en_WriteTag : WriteCommand -> G -> (option WriteResult + error) * G;
  en_LatestValues : string -> G -> option (gmap string DataPoint) * G;
  (* optional roles *)
  en_WriteHistory : option (G -> list WriteAuditEntry);
  en_IngressDeadLetters : option (G -> list DeadLetterEntry);
  en_PreviewRule : option (string -> DataPoint -> G -> bool + error);
  en_alerts : option (alertRole G);
  en_pausable : option (pauseRole G);
}.

(** The Go values the handlers render. *)
Inductive answer :=
| Tags (tags : option (gmap string DataPoint))
| WriteAnswer (r : option WriteResult)
| FailedWrites (entries : list DeadLetterEntry)
| Batch (results : list WriteResult) (succeeded failed : Z)
| Writes (entries : list WriteAuditEntry)
| Drivers (l : list DriverStatus)
| OneDriver (d : DriverStatus)
| Paused (names : list string)
| Transports (l : list TransportStatus)
| OneTransport (t : TransportStatus)
| TransportTest (ok : bool) (message : string)
| DriverTest (connected : bool) (err : string) (latencyMs : Z) (driverType : string)
| Rules (l : list RuleStat)
| Matched (b : bool)
| AlertList (active : list Alert) (history : list AlertEvent) (active_count acked_count : Z)
| Stats (s : EngineStats)
| Alive | Ready
| NotReady (reason : string) (drivers transports : list (string * bool))
| HelloAnswer (version uptime : string) (now : Z)
| Version (version : string).

(** The texts [encoding/json] gives its errors, [time.Parse] with the layout
    RFC 3339, and the version injected at build time. *)
Class RouteEnv := {
  decode_error : string -> string -> string;
  parse_rfc3339 : string -> option Z;
  build_version : string;
}.

Section handlers.
Context {G : Type} `{CoreEngine G} `{RouteEnv} `{TimeCodec} `{GoArch}.
Implicit Types (r : request) (s : option G).

Definition api := handler answer (option G).

(** A handler that calls the engine; without one it panics. *)
Definition with_engine (f : request -> G -> response answer * G) : api := fun r s =>
  match s with
  | Some g => let '(x, g) := f r g in (Some x, Some g)
  | None => (None, None)
  end.

(** A handler that only reads the engine. *)
Definition reading (f : request -> G -> response answer) : api := with_engine (fun r g => (f r g, g)).

(** A handler that decodes its body first. *)
Definition decoding {D S A} (what : string) (dec : json -> option A) (f : A -> handler D S) : handler D S := fun r st =>
  match decodeBody r with
  | Some v =>
      match dec v with
      | Some a => f a r st
      | None => (Some (renderError 400 (decode_error what (rq_Body r))), st)
      end
  | None => (Some (renderError 400 (decode_error what (rq_Body r))), st)
  end.

Definition answering (x : response answer) : api := fun _ s => (Some x, s).

(** A handler of an optional role; a missing engine has no role either. *)
Definition asserting {R} (role : option R) (missing : string) (f : R -> api) : api := fun r s =>
  match s, role with
  | Some _, Some p => f p r s
  | _, _ => (Some (renderError 501 missing), s)
  end.

(** ** Tags *)

Definition mark_stale (cutoff : Z) (p : DataPoint) : DataPoint :=
  if decide (dp_Timestamp p < cutoff) then
    mkDataPoint (dp_Driver p) (dp_Device p) (dp_Group p) (dp_Tag p) (dp_Value p) (dp_Type p)
      (dp_Quality p) (dp_Timestamp p) (dp_Metadata p) true
  else p.

Definition annotateStaleness (now threshold : Z) (tags : option (gmap string DataPoint))
  : option (gmap string DataPoint) :=
  match tags with
  | None => None
  | Some m =>
      if decide (threshold <= 0 \/ m = ∅) then tags else Some (mark_stale (now - threshold) <$> m)
  end.

(** A filter allocates a map of its own. *)
Definition keep_keys (P : string -> bool) (tags : option (gmap string DataPoint))
  : option (gmap string DataPoint) :=
  Some (filter (fun kp => P kp.1 = true) (default ∅ tags)).

Definition getAllTags (now : Z) : api := with_engine (fun r g =>
  let '(all, g) := en_LatestValues "" g in
  let tags := annotateStaleness now (en_StaleThreshold g) all in
  let d := query r "driver" in
  let '(tags, g) :=
    if bool_decide (d <> EmptyString) then
      let '(mine, g) := en_LatestValues d g in (annotateStaleness now (en_StaleThreshold g) mine, g)
    else (tags, g) in
  let p := query r "prefix" in
  let tags := if bool_decide (p <> EmptyString) then keep_keys (fun k => has_prefix k p) tags else tags in
  let t := query r "tag" in
  let tags := if bool_decide (t <> EmptyString) then keep_keys (fun k => str_contains k t) tags else tags in
  (render 200 (Tags tags), g)).

Definition getDriverTags (now : Z) (name : string) : api := with_engine (fun r g =>
  let '(tags, g) := en_LatestValues name g in
  (render 200 (Tags (annotateStaleness now (en_StaleThreshold g) tags)), g)).

(** ** Writes *)

Definition typeRequired : string :=
  quote "type" +:+ " is required (one of: bool, int8, int16, int32, int64, uint8, uint16, uint32, uint64, float32, float64, string, bytes) — an omitted type would silently write a bool value".

(** The probe of a parsed value: an object, or null, which leaves no members. *)
Definition probeType (v : json) : option string :=
  match v with
  | JObj m => if decide (is_Some (obj_map m !! "type"%string)) then None else Some typeRequired
  | JNull => Some typeRequired
  | _ => Some (decode_error "probe" (print v))
  end.

Definition requireWriteCommandType (raw : string) : option string :=
  match parse raw with
  | None => Some (decode_error "probe" raw)
  | Some v => probeType v
  end.

(** The provenance of a command, set after it was decoded. *)
Definition stampOrigin (source remote : string) (c : WriteCommand) : WriteCommand :=
  mkWriteCommand (cmd_Driver c) (cmd_Device c) (cmd_Tag c) (cmd_Value c) (cmd_Type c) source remote (cmd_Raw c).

Definition write_failed (err : error) : response answer :=
  let errMsg := error_text err in
  if errors_Is err ErrWritePaced then with_header "Retry-After" "1" (renderError 429 errMsg)
  else if str_contains errMsg "not found" || str_contains errMsg "not connected" || str_contains errMsg "read-only"
  then renderError 400 errMsg
  else renderInternalError err.

Definition writeTag : api := fun r s =>
  match readBody r with
  | None => (Some (renderInternalError (ErrFmt "http: request body too large")), s)
  | Some body =>
      match requireWriteCommandType body with
      | Some msg => (Some (renderError 400 msg), s)
      | None =>
          match unmarshal_cmd body with
          | None => (Some (renderError 400 (decode_error "command" body)), s)
          | Some cmd =>
              with_engine (fun r g =>
                let '(res, g) := en_WriteTag (stampOrigin "api" (rq_RemoteAddr r) cmd) g in
                (match res with inr err => write_failed err | inl res => render 200 (WriteAnswer res) end, g)) r s
          end
      end
  end.

Definition maxBatchWrites : Z := 128.

(** The raw elements of the field [writes], as the probe decodes them. *)
Definition probeWrites (v : json) : option (list json) :=
  decode_struct ["writes"%string]
    (fun _ v _ => match v with JArr l => Some l | JNull => Some [] | _ => None end) v [].

Definition batchCommands (v : json) : option (list WriteCommand) :=
  decode_struct ["writes"%string]
    (fun _ v _ => match v with
                  | JArr l => mapM WriteCommand_UnmarshalJSON l
                  | JNull => Some []
                  | _ => None
                  end) v [].

(** The first element without a type, with its position. *)
Fixpoint firstUntyped (i : Z) (l : list json) : option string :=
  match l with
  | [] => None
  | v :: l =>
      match probeType v with
      | Some msg => Some ("writes[" +:+ itoa i +:+ "]: " +:+ msg)
      | None => firstUntyped (i + 1) l
      end
  end.

(** One command after the other, each with its own outcome. *)
Fixpoint writeAll (remote : string) (cmds : list WriteCommand) (g : G) : list WriteResult * Z * G :=
  match cmds with
  | [] => ([], 0, g)
  | cmd :: cmds =>
      let '(res, g) := en_WriteTag (stampOrigin "api-batch" remote cmd) g in
      let '(out, n) :=
        match res with
        | inr err => (mkWriteResult false (error_text err), 0)
        | inl (Some res) => (res, if wr_Success res then 1 else 0)
        | inl None => (mkWriteResult false "no result returned", 0)
        end in
      let '(outs, k, g) := writeAll remote cmds g in (out :: outs, n + k, g)
  end.

Definition batchWrite : api := fun r s =>
  match readBody r with
  | None => (Some (renderInternalError (ErrFmt "http: request body too large")), s)
  | Some body =>
      match parse body with
      | None => (Some (renderError 400 (decode_error "batch" body)), s)
      | Some v =>
          match probeWrites v with
          | None => (Some (renderError 400 (decode_error "batch" body)), s)
          | Some raws =>
              match firstUntyped 0 raws, batchCommands v with
              | Some msg, _ => (Some (renderError 400 msg), s)
              | None, None => (Some (renderError 400 (decode_error "commands" body)), s)
              | None, Some [] => (Some (renderError 400 "writes is required and must not be empty"), s)
              | None, Some cmds =>
                  if decide (maxBatchWrites < Z.of_nat (length cmds)) then
                    (Some (renderError 400 ("batch too large: " +:+ itoa (Z.of_nat (length cmds))
                       +:+ " writes (max 128); split into multiple requests")), s)
                  else
                    with_engine (fun r g =>
                      let '(results, succeeded, g) := writeAll (rq_RemoteAddr r) cmds g in
                      (render (if decide (succeeded = 0) then 422 else 200)
                         (Batch results succeeded (Z.of_nat (length cmds) - succeeded)), g)) r s
              end
          end
      end
  end.

Definition deadLetterEntriesForSource (r : request) (g : G) : list DeadLetterEntry + string :=
  let source := query r "source" in
  if bool_decide (source = EmptyString) || bool_decide (source = "engine"%string)
  then inl (en_DeadLetterEntries g)
  else if bool_decide (source = "ingress"%string) then
    inl (match en_IngressDeadLetters with Some f => f g | None => [] end)
  else inr ("unknown source " +:+ quote source +:+ " (valid: engine, ingress)").

Definition getFailedWrites : api := reading (fun r g =>
  match deadLetterEntriesForSource r g with
  | inl entries => render 200 (FailedWrites entries)
  | inr msg => renderError 400 msg
  end).

Definition sinceMessage : string := "since must be RFC 3339 (e.g. 2026-10-20T12:00:00Z)".

(** [strconv.Atoi] of the limit; a text it refuses is no limit. *)
Definition limitOf (lv : string) (n : nat) : nat :=
  match ParseInt lv 64 with
  | Some k => if decide (0 <= k < Z.of_nat n) then Z.to_nat k else n
  | None => n
  end.

(** A filter of the query; an empty parameter does not filter. *)
Definition narrow {A} (v : string) (P : string -> A -> bool) (l : list A) : list A :=
  if bool_decide (v <> EmptyString) then filter (fun e => P v e = true) l else l.

Definition getWriteHistory : api :=
  asserting en_WriteHistory "write history not supported by this engine" (fun history => reading (fun r g =>
    let entries := narrow (query r "driver") (fun d e => String.eqb (wa_Driver e) d) (history g) in
    let entries := narrow (query r "tag") (fun t e => str_contains (wa_Tag e) t) entries in
    let sv := query r "since" in
    if bool_decide (sv <> EmptyString) && bool_decide (parse_rfc3339 sv = None) then renderError 400 sinceMessage
    else
      let since := default 0 (parse_rfc3339 sv) in
      let entries := narrow sv (fun _ e => negb (wa_Timestamp e <? since)) entries in
      let lv := query r "limit" in
      let entries := if bool_decide (lv <> EmptyString) then take (limitOf lv (length entries)) entries else entries in
      render 200 (Writes entries))).

(** ** Drivers *)

Definition getDrivers : api := reading (fun r g => render 200 (Drivers (en_ListDrivers g))).

Definition getDriver (name : string) : api := reading (fun r g =>
  match list_find (fun d => ds_Name d = name) (en_ListDrivers g) with
  | Some (_, d) => render 200 (OneDriver d)
  | None => renderError 404 "driver not found"
  end).

Definition driverExists (name : string) (g : G) : bool :=
  List.existsb (fun d => String.eqb (ds_Name d) name) (en_ListDrivers g).

Definition pauseUnsupported : string := "driver pause/resume not supported by this engine".

(** [resolveDriverPausable]: the role, then the driver. *)
Definition resolveDriverPausable (name : string) (f : pauseRole G -> api) : api :=
  asserting en_pausable pauseUnsupported (fun p r s =>
    match s with
    | Some g =>
        if driverExists name g then f p r s
        else (Some (renderError 404 ("driver not found: " +:+ name)), s)
    | None => (None, s)
    end).

Definition outcome_204 (e : option error) : response answer :=
  match e with Some err => renderError 500 (error_text err) | None => renderNoContent end.

(** A body, when there is one, must be an object or null; the server gives a
    request without one [http.NoBody]. *)
Definition emptyRequest (v : json) : option unit := decode_struct [] (fun _ _ _ => None) v ().

Definition pauseDriver (name : string) : api :=
  resolveDriverPausable name (fun p r s =>
    let pause := with_engine (fun r g => let '(e, g) := pr_PauseDriver p name g in (outcome_204 e, g)) in
    if bool_decide (rq_Body r = EmptyString) then pause r s
    else decoding "pause" emptyRequest (fun _ => pause) r s).

Definition resumeDriver (name : string) : api :=
  resolveDriverPausable name (fun p =>
    with_engine (fun r g => let '(e, g) := pr_ResumeDriver p name g in (outcome_204 e, g))).

Definition getPausedDrivers : api :=
  asserting en_pausable pauseUnsupported (fun p => reading (fun r g => render 200 (Paused (pr_PausedDrivers p g)))).

(** ** Transports *)

Definition getTransports : api := reading (fun r g => render 200 (Transports (en_ListTransports g))).

Definition getTransport (name : string) : api := reading (fun r g =>
  match list_find (fun t => ts_Name t = name) (en_ListTransports g) with
  | Some (_, t) => render 200 (OneTransport t)
  | None => renderError 404 "transport not found"
  end).

Definition testPoint (now : Z) : DataPoint :=
  mkDataPoint "test" "test" "" "test-notification" (VInt 1) TypeInt16 QualityGood now
    {["rule"%string := "test"%string]} false.

Definition testTransport (now : Z) (name : string) : api := with_engine (fun r g =>
  match en_Publish name (testPoint now) g with
  | None => (renderError 404 "transport not found", g)
  | Some (Some err, g) => (render 200 (TransportTest false (error_text err)), g)
  | Some (None, g) => (render 200 (TransportTest true "test notification sent"), g)
  end).

(** ** Rules *)

Definition getRules : api := reading (fun r g => render 200 (Rules (en_GetRuleStats g))).

Record disableRuleRequest := mkDisable { dr_Name : string; dr_Index : Z; dr_Disabled : bool }.

Definition disable_decode (v : json) : option disableRuleRequest :=
  decode_struct ["name"; "index"; "disabled"]%string (fun f v x =>
    if bool_decide (f = "name"%string) then (fun n => mkDisable n (dr_Index x) (dr_Disabled x)) <$> set_string v (dr_Name x)
    else if bool_decide (f = "index"%string) then (fun i => mkDisable (dr_Name x) i (dr_Disabled x)) <$> set_int v (dr_Index x)
    else (fun b => mkDisable (dr_Name x) (dr_Index x) b) <$> set_bool v (dr_Disabled x)) v (mkDisable "" 0 false).

Definition disableRule : api :=
  decoding "disable" disable_decode (fun req => with_engine (fun r g =>
    let '(err, g) :=
      if bool_decide (dr_Name req <> EmptyString) then en_SetRuleDisabledByName (dr_Name req) (dr_Disabled req) g
      else en_SetRuleDisabled (dr_Index req) (dr_Disabled req) g in
    (match err with Some err => renderError 400 (error_text err) | None => renderNoContent end, g))).

Definition preview_decode (v : json) : option (string * DataPoint) :=
  decode_struct ["match"; "point"]%string (fun f v x =>
    if bool_decide (f = "match"%string) then (fun m => (m, x.2)) <$> set_string v x.1
    else (fun p => (x.1, p)) <$> DataPoint_UnmarshalJSON v) v (EmptyString, pt_zero).

Definition previewRule : api :=
  decoding "preview" preview_decode (fun req =>
    if bool_decide (req.1 = EmptyString) then answering (renderError 400 "match is required")
    else asserting en_PreviewRule "rule preview not supported by this engine" (fun preview => reading (fun r g =>
      match preview req.1 req.2 g with
      | inl matched => render 200 (Matched matched)
      | inr err => renderError 400 (error_text err)
      end))).

(** ** Alerts *)

Definition alertsUnsupported : string := "alerts not supported by this engine".

Definition getAlerts : api :=
  asserting en_alerts alertsUnsupported (fun p => reading (fun r g =>
    let active := ar_ActiveAlerts p g in
    render 200 (AlertList active (ar_AlertHistory p g) (Z.of_nat (length active))
      (Z.of_nat (length (filter (fun a => al_Acked a = true) active)))))).

Definition ack_decode (v : json) : option string :=
  decode_struct ["key"%string] (fun _ v x => set_string v x) v EmptyString.

Definition ackAlert (now : Z) : api :=
  decoding "ack" ack_decode (fun key =>
    if bool_decide (key = EmptyString) then answering (renderError 400 "key is required")
    else asserting en_alerts alertsUnsupported (fun p => with_engine (fun r g =>
      let '(err, g) := ar_AckAlert p key now g in
      (match err with Some err => renderError 404 (error_text err) | None => renderNoContent end, g)))).

(** ** Health *)

Definition statusText (s : EngineStatus) : string :=
  match s with
  | EngineStatusRunning => "running" | EngineStatusSuspended => "suspended" | EngineStatusStopped => "stopped"
  end.

Definition anyConnectedDriver (l : list DriverStatus) : bool :=
  List.existsb (fun d => bool_decide (ds_State d = StateConnected)) l.

Definition anyConnectedTransport (l : list TransportStatus) : bool :=
  List.existsb (fun t => bool_decide (ts_State t = StateConnected)) l.

Definition readinessReason (stats : EngineStats) (ds : list DriverStatus) (ts : list TransportStatus) : string :=
  if bool_decide (statusText (es_Status stats) <> "running"%string)
  then "engine not running (status: " +:+ quote (statusText (es_Status stats)) +:+ ")"
  else if bool_decide (0 < es_Drivers stats) && negb (anyConnectedDriver ds) then "no drivers connected"
  else if bool_decide (0 < es_Transports stats) && negb (anyConnectedTransport ts) then "no transports connected"
  else EmptyString.

Definition writeHealthNotReady (reason : string) (ds : list DriverStatus) (ts : list TransportStatus) : response answer :=
  render 503 (NotReady reason ((fun d => (ds_Name d, bool_decide (ds_State d = StateConnected))) <$> ds)
                ((fun t => (ts_Name t, bool_decide (ts_State t = StateConnected))) <$> ts)).

Definition healthzLive : api := answering (render 200 Alive).

Definition healthzReady (now : Z) : api := fun r s =>
  match s with
  | None => (Some (writeHealthNotReady "engine not initialized" [] []), s)
  | Some g =>
      let ds := en_ListDrivers g in
      let ts := en_ListTransports g in
      let reason := readinessReason (en_Stats now g) ds ts in
      (Some (if bool_decide (reason <> EmptyString) then writeHealthNotReady reason ds ts else render 200 Ready), s)
  end.

(** ** The rest *)

Definition getStats (now : Z) : api := reading (fun r g => render 200 (Stats (en_Stats now g))).

Definition getVersion : api := answering (render 200 (Version build_version)).

Definition hello (now started : Z) : api :=
  answering (render 200 (HelloAnswer build_version (Duration_String (time_Sub now started)) now)).

(** ** The connectivity test of a driver

    The instance is created from the request alone.  Its life is what the
    driver does: the error of its factory, of [Init] and of [Start], and
    whether an outcome arrives before the deadline. *)
Record driverTrial := mkTrial {
  dt_create : option error;
  dt_init : option error;
  dt_start : option error;
  dt_inTime : bool;
  dt_elapsed : Z;
}.

Definition driverTestTimeout : Z := 5 * second.

Record testDriverRequest := mkTestDriver { tq_Type : string; tq_Name : string }.

Definition test_decode (v : json) : option testDriverRequest :=
  decode_struct ["type"; "settings"; "name"]%string (fun f v x =>
    if bool_decide (f = "type"%string) then (fun t => mkTestDriver t (tq_Name x)) <$> set_string v (tq_Type x)
    else if bool_decide (f = "settings"%string) then
      match v with JNull | JObj _ => if any_ok v then Some x else None | _ => None end
    else (fun n => mkTestDriver (tq_Type x) n) <$> set_string v (tq_Name x)) v (mkTestDriver "" "").

(** [runDriverTestLifecycle]: whether it connected, and the error. *)
Definition runDriverTestLifecycle (t : driverTrial) : bool * string :=
  match dt_init t with
  | Some err => (false, error_text err)
  | None => match dt_start t with Some err => (false, error_text err) | None => (true, EmptyString) end
  end.

Definition testDriver (registered : list string) (trial : testDriverRequest -> driverTrial) : api :=
  decoding "driver test" test_decode (fun req =>
    answering
      (if bool_decide (tq_Type req = EmptyString) then renderError 400 "type is required"
       else if bool_decide (tq_Type req ∉ registered) then renderError 400 ("unknown driver type: " +:+ tq_Type req)
       else
         let t := trial req in
         match dt_create t with
         | Some err => renderError 400 (error_text err)
         | None =>
             let '(connected, err) :=
               if dt_inTime t then runDriverTestLifecycle t
               else (false, "driver test timed out after " +:+ Duration_String driverTestTimeout) in
             render 200 (DriverTest connected err (Z.quot (dt_elapsed t) millisecond) (tq_Type req))
         end)).
End handlers.

(** ** What the client must say *)

(** The member of a decoded command that named its type. *)
Definition names_type (v : json) (t : DataType) : Prop :=
  exists members k tv, v = JObj members /\ (k, tv) ∈ members
    /\ field_of cmd_fields (unq k) = Some "type"%string /\ DataType_UnmarshalJSON tv = Some t.

Lemma cmd_set_type f v c c' : f ∈ cmd_fields -> cmd_set f v c = Some c' ->
  if bool_decide (f = "type"%string) then DataType_UnmarshalJSON v = Some (cmd_Type c') else cmd_Type c' = cmd_Type c.
Proof.
  intros Hf Hs. destruct c as [dr de tg va ty so re ra]. unfold cmd_set in Hs.
  repeat (apply elem_of_cons in Hf as [->|Hf]; [cbn in Hs |- *; by simplify_option_eq|]).
  by apply elem_of_nil in Hf.
Qed.

Lemma field_of_known names k f : field_of names k = Some f -> f ∈ names.
Proof.
  unfold field_of. case_bool_decide as Hk; [congruence|]. intros [Hf _]%List.find_some.
  by apply list_elem_of_In.
Qed.

Definition is_type (kv : string * json) : Prop := field_of cmd_fields (unq kv.1) = Some "type"%string.

Lemma decode_members_type l : forall c c', decode_members cmd_fields cmd_set l c = Some c' ->
  cmd_Type c' = cmd_Type c /\ Forall (fun kv => ~ is_type kv) l
  \/ exists k tv, (k, tv) ∈ l /\ is_type (k, tv) /\ DataType_UnmarshalJSON tv = Some (cmd_Type c').
Proof.
  induction l as [|[k v] l IH]; intros c c' Hd; cbn in Hd; [left; by simplify_eq|].
  destruct (field_of cmd_fields (unq k)) as [f|] eqn:Hf.
  - destruct (cmd_set f v c) as [c1|] eqn:Hs; [|done].
    pose proof (cmd_set_type f v c c1 (field_of_known _ _ _ Hf) Hs) as Ht.
    destruct (IH _ _ Hd) as [[Hty Hno]|(k' & tv & Hin & Hk)].
    + case_bool_decide as He; subst.
      * right. exists k, v. rewrite Hty. split_and!; [apply list_elem_of_here|done|done].
      * left. split; [congruence|]. constructor; [|done]. unfold is_type. cbn. congruence.
    + right. exists k', tv. split; [by apply list_elem_of_further|done].
  - destruct (IH _ _ Hd) as [[Hty Hno]|(k' & tv & Hin & Hk)].
    + left. split; [done|]. constructor; [|done]. unfold is_type. cbn. congruence.
    + right. exists k', tv. split; [by apply list_elem_of_further|done].
Qed.

(** A command with a member of the exact name [type] has its type from the
    text. *)
Lemma typed_command v m cmd :
  v = JObj m -> is_Some (obj_map m !! "type"%string) -> WriteCommand_UnmarshalJSON v = Some cmd ->
  names_type v (cmd_Type cmd).
Proof.
  intros -> [tv Htv] Hc. unfold WriteCommand_UnmarshalJSON in Hc. cbn [decode_struct] in Hc.
  destruct (decode_members cmd_fields cmd_set m cmd_zero) as [fields|] eqn:Hd; [|done].
  injection Hc as <-. cbn [cmd_Type cmd_with_value].
  destruct (decode_members_type m _ _ Hd) as [[_ Hno]|(k & t & Hin & Hk & Ht)]; [exfalso|by exists m, k, t].
  apply elem_of_list_to_map_2 in Htv. apply elem_of_reverse, list_elem_of_fmap in Htv as ([k v] & Heq & Hin).
  rewrite list.Forall_forall in Hno. apply (Hno _ Hin). injection Heq as Hk _. unfold is_type. cbn.
  by rewrite <- Hk.
Qed.

Section typed.
Context `{RouteEnv}.

Lemma probed_object v : probeType v = None -> exists m, v = JObj m /\ is_Some (obj_map m !! "type"%string).
Proof. destruct v; cbn; try done. case_decide; [|done]. eauto. Qed.

Lemma probed_type v cmd : probeType v = None -> WriteCommand_UnmarshalJSON v = Some cmd -> names_type v (cmd_Type cmd).
Proof. intros (m & -> & Hm)%probed_object Hc. by eapply typed_command. Qed.

Lemma untyped_none l i : firstUntyped i l = None -> Forall (fun v => probeType v = None) l.
Proof.
  revert i. induction l as [|v l IH]; intros i Hi; [constructor|]. cbn in Hi.
  destruct (probeType v) eqn:Hv; [done|]. constructor; [done|]. by eapply IH.
Qed.

(** The two passes over a batch see the same elements. *)
Lemma batch_same v raws cmds : probeWrites v = Some raws -> batchCommands v = Some cmds ->
  mapM WriteCommand_UnmarshalJSON raws = Some cmds.
Proof.
  unfold probeWrites, batchCommands. destruct v as [| | | | |m]; cbn; try (intros; by simplify_eq).
  assert (Hg : forall xs cs, mapM WriteCommand_UnmarshalJSON xs = Some cs ->
    decode_members ["writes"%string]
      (fun _ v _ => match v with JArr l => Some l | JNull => Some [] | _ => None end) m xs = Some raws ->
    decode_members ["writes"%string]
      (fun _ v _ => match v with
                    | JArr l => mapM WriteCommand_UnmarshalJSON l | JNull => Some [] | _ => None end) m cs = Some cmds ->
    mapM WriteCommand_UnmarshalJSON raws = Some cmds); [|by apply Hg].
  induction m as [|[k v] m IH]; intros xs cs Hxc Hx Hc; cbn in Hx, Hc; [by simplify_eq|].
  destruct (field_of _ (unq k)); [|by eapply IH].
  destruct v as [| | | |l|]; try done; [by eapply (IH [] [])|].
  destruct (mapM WriteCommand_UnmarshalJSON l) as [cs'|] eqn:Hl; [|done]. by eapply IH.
Qed.

Lemma batch_typed raws cmds : mapM WriteCommand_UnmarshalJSON raws = Some cmds ->
  Forall (fun v => probeType v = None) raws -> Forall2 (fun v c => names_type v (cmd_Type c)) raws cmds.
Proof.
  intros Hm%mapM_Some. induction Hm as [|v c raws cmds Hv Hm IH]; intros Hp; [constructor|].
  apply Forall_cons in Hp as [Hpv Hp]. constructor; [by apply probed_type|by apply IH].
Qed.
End typed.
