(* ===== verification/ApiEngine.v ===== *)
(** * The engine behind the API ([engine/engine_stats.go], [query.go], [read_accessor.go])

    [corec] holds the roles of [CoreCEngine] the handlers reach: the write
    manager, the latest-value cache, the alert registry, the rule engine and
    the scheduler, each with the operations of its own file.  The statuses the
    drivers and transports report, and a publish through a transport, belong
    to those components and are the class [Components].

    The theorems compose the handlers with the components: what a write over
    the API leaves in the audit trail, what a batch does, what the history
    query returns, and when a readiness probe succeeds. *)

From Stdlib Require Import ZArith Lia String Ascii.
From stdpp Require Import base list gmap strings.
From S2P Require Import Prelude GoFloat GoTime Types JsonDecode JsonText Json JsonValue CommandJson PointJson DriverBase RuleEngine Cache Alerts JsonlStore WriteManager Scheduler DataBus Config Engine Metrics Stats Http Api.

Open Scope Z_scope.

Class Components (E : Type) := {
  cp_drivers : E -> gmap string DriverStatus;
  cp_transports : E -> gmap string TransportStatus;
  cp_iterate : forall {A : Type}, E -> list A -> list A;           (* the order a map is ranged over in *)
  cp_publish : string -> DataPoint -> E -> option (option error * E);
  cp_ingress : E -> list (string * option (list DeadLetterEntry)); (* transports by name; none: no such role *)
  cp_order : E -> nat -> list string;                              (* range of a cache shard *)
  cp_evalError : string -> DataPoint -> error;                     (* what the expression library reports *)
  cp_logDropped : E -> Z;
  cp_iterate_perm : forall A e (l : list A), cp_iterate e l ≡ₚ l;
}.

Record corec (E prog : Type) := mkCorec {
  cx_writes : writeManager E;
  cx_registry : registry;
  cx_cache : LatestCache;
  cx_staleThreshold : Z;
  cx_alerts : alertManager;
  cx_rules : RuleEngine.Engine prog;
  cx_sched : scheduler;
  cx_status : EngineStatus;
  cx_bus : option DataBus;
  cx_stats : statsCollector;
}.
Arguments mkCorec {E prog} _ _ _ _ _ _ _ _ _ _.
Arguments cx_writes {E prog} _.
Arguments cx_registry {E prog} _.
Arguments cx_cache {E prog} _.
Arguments cx_staleThreshold {E prog} _.
Arguments cx_alerts {E prog} _.
Arguments cx_rules {E prog} _.
Arguments cx_sched {E prog} _.
Arguments cx_status {E prog} _.
Arguments cx_bus {E prog} _.
Arguments cx_stats {E prog} _.

Section corec.
Context {E prog : Type} `{WriteEnv E} `{LineCodec WriteAuditEntry} `{LineCodec DeadLetterEntry}.
Context `{Components E} `{ExprLib prog} `{GoArch}.
Notation corec := (corec E prog).
Implicit Types g : corec.

Definition set_writes (w : writeManager E) g : corec :=
  mkCorec w (cx_registry g) (cx_cache g) (cx_staleThreshold g) (cx_alerts g) (cx_rules g) (cx_sched g) (cx_status g) (cx_bus g) (cx_stats g).
Definition set_cache (c : LatestCache) g : corec :=
  mkCorec (cx_writes g) (cx_registry g) c (cx_staleThreshold g) (cx_alerts g) (cx_rules g) (cx_sched g) (cx_status g) (cx_bus g) (cx_stats g).
Definition set_alertManager (a : alertManager) g : corec :=
  mkCorec (cx_writes g) (cx_registry g) (cx_cache g) (cx_staleThreshold g) a (cx_rules g) (cx_sched g) (cx_status g) (cx_bus g) (cx_stats g).
Definition set_rules (e : RuleEngine.Engine prog) g : corec :=
  mkCorec (cx_writes g) (cx_registry g) (cx_cache g) (cx_staleThreshold g) (cx_alerts g) e (cx_sched g) (cx_status g) (cx_bus g) (cx_stats g).
Definition set_sched (s : scheduler) g : corec :=
  mkCorec (cx_writes g) (cx_registry g) (cx_cache g) (cx_staleThreshold g) (cx_alerts g) (cx_rules g) s (cx_status g) (cx_bus g) (cx_stats g).

Definition envOf g : E := wm_env (cx_writes g).

(** What the statistics read of the engine. *)
Definition partsOf g : engineParts :=
  mkParts (cx_status g) (cp_drivers (envOf g)) (cp_transports (envOf g)) (length (RuleStats (cx_rules g)))
    (cx_bus g) (cp_logDropped (envOf g)).

Definition ListDrivers g : list DriverStatus := cp_iterate (envOf g) (map_to_list (cp_drivers (envOf g))).*2.
Definition ListTransports g : list TransportStatus :=
  cp_iterate (envOf g) (map_to_list (cp_transports (envOf g))).*2.

(** ** The roles *)

Definition engineWriteTag (cmd : WriteCommand) g : (option WriteResult + error) * corec :=
  let '(res, w) := WriteManager.WriteTag (cx_registry g) cmd (cx_writes g) in
  (match res with inl r => inl (Some r) | inr e => inr e end, set_writes w g).

Definition LatestValues (driver : string) g : option (gmap string DataPoint) * corec :=
  if bool_decide (driver = EmptyString) then (Some (GetAll (cp_order (envOf g)) (cx_cache g)), g)
  else let '(c, m) := GetByDriver driver (cx_cache g) in (m, set_cache c g).

Definition DeadLetterEntries (w : writeManager E) : list DeadLetterEntry := wm_queue w.

Definition DeadLetterStats (w : writeManager E) : Z * Z := (Z.of_nat (length (wm_queue w)), wm_pushed w).

(** The entries of each transport that keeps them, by name, labelled with it. *)
Definition ingressDeadLetters (e : E) : list DeadLetterEntry :=
  t ← stable_sort (fun a b => String.ltb a.1 b.1) (cp_ingress e);
  (fun d => mkDeadLetterEntry (dl_Command d) (dl_Error d) (dl_FailedAt d) (dl_Attempts d) t.1) <$> default [] t.2.

Definition ruleOutcome (r : res (RuleEngine.Engine prog)) g : option error * corec :=
  match r with
  | Ok e => (None, set_rules e g)
  | Err e => (Some e, g)
  | Panic => (Some (ErrFmt "panic"), g)
  end.

(** [PreviewMatch]: a compile error and an evaluation error are both told. *)
Definition PreviewMatch (m : string) (p : DataPoint) : bool + error :=
  let trimmed := TrimSpace m in
  if bool_decide (trimmed = EmptyString) then inr (ErrFmt "empty expression")
  else if EqualFold trimmed "ALL" then inl true
  else match compileExpr trimmed with
       | Ok q =>
           match runExpr q p with
           | Some b => inl b
           | None => inr (cp_evalError trimmed p)
           end
       | Err e => inr e
       | Panic => inr (cp_evalError trimmed p)
       end.

Definition corec_alerts : alertRole corec :=
  mkAlertRole (fun g => activeAlerts (cx_alerts g)) (fun g => alertHistory (cx_alerts g))
    (fun key now g => let '(e, a) := ack key now (cx_alerts g) in (e, set_alertManager a g)).

Definition corec_pausable : pauseRole corec :=
  mkPauseRole (fun n g => (None, set_sched (Scheduler.PauseDriver n (cx_sched g)) g))
    (fun n g => (None, set_sched (Scheduler.ResumeDriver n (cx_sched g)) g))
    (fun g => PausedDrivers (cx_sched g)).

#[export] Instance corec_engine : CoreEngine corec := {|
  en_Stats now g := Stats.Stats now (partsOf g) (cx_stats g);
  en_StaleThreshold := cx_staleThreshold;
  en_DeadLetterEntries g := DeadLetterEntries (cx_writes g);
  en_ListDrivers := ListDrivers;
  en_ListTransports := ListTransports;
  en_Publish n p g :=
    match cp_publish n p (envOf g) with
    | None => None
    | Some (e, env) => Some (e, set_writes (with_env env (cx_writes g)) g)
    end;
  en_GetRuleStats g := RuleStats (cx_rules g);
  en_SetRuleDisabled i b g := ruleOutcome (RuleEngine.SetRuleDisabled i b (cx_rules g)) g;
  en_SetRuleDisabledByName n b g := ruleOutcome (RuleEngine.SetRuleDisabledByName n b (cx_rules g)) g;
  en_WriteTag := engineWriteTag;
  en_LatestValues := LatestValues;
  en_WriteHistory := Some (fun g => WriteHistory (cx_writes g));
  en_IngressDeadLetters := Some (fun g => ingressDeadLetters (envOf g));
  en_PreviewRule := Some (fun m p _ => PreviewMatch m p);
  en_alerts := Some corec_alerts;
  en_pausable := Some corec_pausable;
|}.

(** ** Writes over the API *)

Context `{RouteEnv}.

(** The trail after one more entry. *)
Lemma lastn_snoc {A} n (l k : list A) : lastn n (lastn n l ++ k) = lastn n (l ++ k).
Proof.
  unfold lastn. rewrite !length_app, length_drop.
  destruct (decide (length l <= n)%nat) as [Hl|Hl].
  - assert (Hz : (length l - n = 0)%nat) by lia. rewrite Hz, drop_0. f_equal. lia.
  - assert (Hk : (length l - (length l - n) + length k - n = length k)%nat) by lia.
    assert (Hs : (length l + length k - n = (length l - n) + length k)%nat) by lia.
    rewrite Hk, Hs, <- drop_drop. by rewrite (drop_app_le l k) by lia.
Qed.

(** C15. A write over the API either fails before the engine, which it leaves
    untouched, or its body names the type of the value it carries; then the
    engine's write is made with the origin [api] and the caller's address,
    exactly one entry with that provenance and the outcome joins the audit
    trail, and the response reports the outcome. *)
Theorem api_write_exact r g :
  let '(x, s) := writeTag r (Some g) in
  s = Some g /\ (x = Some (renderError 500 "internal server error") \/ exists msg, x = Some (renderError 400 msg))
  \/ exists v cmd res w' t,
       parse (rq_Body r) = Some v /\ WriteCommand_UnmarshalJSON v = Some cmd /\ names_type v (cmd_Type cmd)
       /\ WriteManager.WriteTag (cx_registry g) (stampOrigin "api" (rq_RemoteAddr r) cmd) (cx_writes g) = (res, w')
       /\ s = Some (set_writes w' g)
       /\ wm_audits w' = lastn writeAuditCapacity (wm_audits (cx_writes g)
            ++ [audit_entry t (stampOrigin "api" (rq_RemoteAddr r) cmd) (succeeded res) (result_text res)])
       /\ x = Some (match res with inl res => render 200 (WriteAnswer (Some res)) | inr e => write_failed e end).
Proof.
  unfold writeTag, readBody. case_decide as Hlen; [|left; eauto].
  unfold requireWriteCommandType, unmarshal_cmd.
  destruct (parse (rq_Body r)) as [v|] eqn:Hp; [|left; eauto].
  destruct (probeType v) as [msg|] eqn:Hv; [left; eauto|].
  destruct (WriteCommand_UnmarshalJSON v) as [cmd|] eqn:Hc; [|left; eauto].
  cbn. unfold engineWriteTag.
  pose proof (WriteTag_effect (cx_registry g) (stampOrigin "api" (rq_RemoteAddr r) cmd) (cx_writes g)) as He.
  destruct (WriteManager.WriteTag _ _ (cx_writes g)) as [res w'] eqn:Hw. destruct He as [(t & Ht) _ _ _ _].
  right. exists v, cmd, res, w', t. split_and!; try done; [by apply probed_type|].
  by destruct res.
Qed.

(** ** Batches *)

(** The entry the trail keeps of a batch command and its reported result. *)
Definition batch_entry (remote : string) (e : WriteAuditEntry) (c : WriteCommand) (o : WriteResult) : Prop :=
  exists t, e = audit_entry t (stampOrigin "api-batch" remote c) (wr_Success o) (wr_Error o).

Definition successes (outs : list WriteResult) : Z := Z.of_nat (length (filter (fun o => wr_Success o = true) outs)).

(** One command of the batch. *)
Lemma batch_step remote c g :
  let '(res, g1) := engineWriteTag (stampOrigin "api-batch" remote c) g in
  exists w e, g1 = set_writes w g
  /\ wm_audits w = lastn writeAuditCapacity (wm_audits (cx_writes g) ++ [e])
  /\ match res with
     | inl (Some o) => batch_entry remote e c o
     | inl None => False
     | inr err => batch_entry remote e c (mkWriteResult false (error_text err))
     end.
Proof.
  unfold engineWriteTag.
  pose proof (WriteTag_effect (cx_registry g) (stampOrigin "api-batch" remote c) (cx_writes g)) as He.
  destruct (WriteManager.WriteTag _ _ (cx_writes g)) as [res w] eqn:Hw. destruct He as [(t & Ht) _ _ _ _].
  destruct res as [o|err]; eexists _, _; (split_and!; [done|exact Ht|by exists t]).
Qed.

Lemma writeAll_spec remote cmds : forall g,
  let '(outs, n, g') := writeAll remote cmds g in
  n = successes outs /\ exists entries w', g' = set_writes w' g
  /\ Forall3 (batch_entry remote) entries cmds outs
  /\ (cmds = [] /\ w' = cx_writes g
      \/ wm_audits w' = lastn writeAuditCapacity (wm_audits (cx_writes g) ++ entries)).
Proof.
  induction cmds as [|c cmds IH]; intros g; cbn [writeAll].
  { split; [done|]. exists [], (cx_writes g). split_and!; [by destruct g|constructor|by left]. }
  pose proof (batch_step remote c g) as Hs. cbn [en_WriteTag corec_engine].
  destruct (engineWriteTag _ g) as [res g1]. destruct Hs as (w & e & -> & Ha & Hres).
  specialize (IH (set_writes w g)).
  destruct (writeAll remote cmds (set_writes w g)) as [[outs k] g'].
  destruct IH as (-> & entries & w' & -> & Hall & Haud). cbn in Haud.
  assert (Htrail : wm_audits w' = lastn writeAuditCapacity (wm_audits (cx_writes g) ++ e :: entries)).
  { destruct Haud as [[-> ->]| ->].
    - inversion Hall; subst. done.
    - by rewrite Ha, lastn_snoc, <- app_assoc. }
  destruct res as [[o|]|err]; [|done|]; (split; [|exists (e :: entries), w'; split_and!; [done|by constructor|by right]]).
  - unfold successes. rewrite filter_cons. destruct (wr_Success o) eqn:Ho;
      [rewrite decide_True by done|rewrite decide_False by done]; cbn; lia.
  - unfold successes. rewrite filter_cons. rewrite decide_False by done. cbn. lia.
Qed.

(** A batch either fails before the engine, which it leaves untouched, or
    it has between 1 and 128 commands, each of which names the type of its
    value; then every command is written in its order, each leaves exactly one
    entry in the audit trail with the origin [api-batch], the caller's address
    and the result the response reports for it, and the response counts the
    successes and answers 422 exactly when there are none. *)
Theorem api_batch_exact r g :
  let '(x, s) := batchWrite r (Some g) in
  s = Some g /\ (x = Some (renderError 500 "internal server error") \/ exists msg, x = Some (renderError 400 msg))
  \/ exists raws cmds outs entries w',
       1 <= Z.of_nat (length cmds) <= 128
       /\ Forall2 (fun v c => WriteCommand_UnmarshalJSON v = Some c /\ names_type v (cmd_Type c)) raws cmds
       /\ Forall3 (batch_entry (rq_RemoteAddr r)) entries cmds outs
       /\ wm_audits w' = lastn writeAuditCapacity (wm_audits (cx_writes g) ++ entries)
       /\ s = Some (set_writes w' g)
       /\ x = Some (render (if decide (successes outs = 0) then 422 else 200)
                     (Batch outs (successes outs) (Z.of_nat (length cmds) - successes outs))).
Proof.
  unfold batchWrite, readBody. case_decide as Hlen; [|left; eauto].
  destruct (parse (rq_Body r)) as [v|] eqn:Hp; [|left; eauto].
  destruct (probeWrites v) as [raws|] eqn:Hr; [|left; eauto].
  destruct (firstUntyped 0 raws) as [msg|] eqn:Hu; [left; eauto|].
  destruct (batchCommands v) as [cmds|] eqn:Hc; [|left; eauto].
  destruct cmds as [|c0 cmds0]; [left; eauto|]. set (cmds := c0 :: cmds0) in *.
  case_decide as Hmax; [left; eauto|]. unfold with_engine.
  pose proof (writeAll_spec (rq_RemoteAddr r) cmds g) as Hs.
  destruct (writeAll (rq_RemoteAddr r) cmds g) as [[outs n] g'].
  destruct Hs as (-> & entries & w' & -> & Hall & Haud).
  pose proof (batch_same v raws cmds Hr Hc) as Hm.
  right. exists raws, cmds, outs, entries, w'. unfold maxBatchWrites in Hmax.
  split_and!; [cbn; lia|lia| |done|by destruct Haud as [[? _]|?]|done|done].
  pose proof (batch_typed raws cmds Hm (untyped_none _ _ Hu)) as Ht. apply mapM_Some in Hm.
  clearbody cmds. clear -Hm Ht. induction Ht; inversion Hm; subst; constructor; auto.
Qed.

(** ** The history query *)

(** The entries the query asks for. *)
Definition selected (r : request) (e : WriteAuditEntry) : Prop :=
  (query r "driver" = EmptyString \/ wa_Driver e = query r "driver")
  /\ (query r "tag" = EmptyString \/ str_contains (wa_Tag e) (query r "tag") = true)
  /\ (query r "since" = EmptyString \/ default 0 (parse_rfc3339 (query r "since")) <= wa_Timestamp e).

#[local] Instance selected_dec r e : Decision (selected r e).
Proof. unfold selected. apply _. Defined.

Lemma narrow_filter {A} v (P : string -> A -> bool) (l : list A) :
  narrow v P l = filter (fun e => v = EmptyString \/ P v e = true) l.
Proof.
  unfold narrow. case_bool_decide as Hv.
  - apply list_filter_iff. intros e. tauto.
  - symmetry. apply filter_all, list.Forall_forall. intros e _. by left.
Qed.

(** The history query returns, newest first, exactly the audit entries of
    the named driver, with the tag substring and from the given time on, cut
    at the limit when it is a smaller natural number. *)
Theorem history_exact r g :
  (query r "since" <> EmptyString -> is_Some (parse_rfc3339 (query r "since"))) ->
  let l := filter (selected r) (reverse (wm_audits (cx_writes g))) in
  getWriteHistory r (Some g)
  = (Some (render 200 (Writes (if bool_decide (query r "limit" <> EmptyString)
                               then take (limitOf (query r "limit") (length l)) l else l))), Some g).
Proof.
  intros Hs. unfold getWriteHistory, asserting, reading, with_engine. cbn [en_WriteHistory corec_engine]. cbv zeta.
  assert (Hok : bool_decide (query r "since" <> EmptyString)
                && bool_decide (parse_rfc3339 (query r "since") = None) = false).
  { case_bool_decide as Hq; [|done]. destruct (Hs Hq) as [t ->]. by rewrite bool_decide_false. }
  rewrite Hok, !narrow_filter, !list_filter_filter. unfold WriteHistory.
  rewrite (list_filter_iff _ (selected r)); [done|].
  intros e. unfold selected. rewrite String.eqb_eq, negb_true_iff, Z.ltb_ge. tauto.
Qed.

(** ** Readiness *)

Lemma connected_exists {A} (f : A -> ConnState) l :
  List.existsb (fun x => bool_decide (f x = StateConnected)) l = true <-> exists x, x ∈ l /\ f x = StateConnected.
Proof.
  rewrite List.existsb_exists. split.
  - intros (x & Hx & Hb%bool_decide_eq_true). exists x. by rewrite list_elem_of_In.
  - intros (x & Hx%list_elem_of_In & Hb). exists x. by rewrite bool_decide_true.
Qed.

(** The check of one kind of component. *)
Lemma component_check {A} (f : A -> ConnState) n l : n = Z.of_nat (length l) ->
  bool_decide (0 < n) && negb (List.existsb (fun x => bool_decide (f x = StateConnected)) l) = false
  <-> (l <> [] -> exists x, x ∈ l /\ f x = StateConnected).
Proof.
  intros ->. rewrite andb_false_iff, negb_false_iff, connected_exists, bool_decide_eq_false.
  destruct l; cbn; split; [intros _ []|intros _; left; lia|intros [?|?]; [lia|done]|auto]. done.
Qed.

Lemma ready_reason st ds ts :
  es_Drivers st = Z.of_nat (length ds) -> es_Transports st = Z.of_nat (length ts) ->
  readinessReason st ds ts = EmptyString <->
  es_Status st = EngineStatusRunning
  /\ (ds <> [] -> exists d, d ∈ ds /\ ds_State d = StateConnected)
  /\ (ts <> [] -> exists t, t ∈ ts /\ ts_State t = StateConnected).
Proof.
  intros Hd Ht. unfold readinessReason, anyConnectedDriver, anyConnectedTransport.
  pose proof (component_check ds_State _ ds Hd) as Cd. pose proof (component_check ts_State _ ts Ht) as Ct.
  destruct (es_Status st); cbn [statusText];
    [rewrite bool_decide_true by done| |rewrite bool_decide_true by done];
    [rewrite str_app_cons; by split; [|intros [? _]]| |rewrite str_app_cons; by split; [|intros [? _]]].
  rewrite bool_decide_false by tauto.
  destruct (_ && _); [|destruct (_ && _)]; (split; [|intros (_ & HD & HT)]); try done; try tauto.
  - apply Cd in HD. done.
  - apply Ct in HT. done.
Qed.

(** Ranging over a map of components. *)
Lemma ranged_length {A} e (m : gmap string A) : Z.of_nat (size m) = Z.of_nat (length (cp_iterate e (map_to_list m).*2)).
Proof. by rewrite cp_iterate_perm, length_fmap, length_map_to_list. Qed.

Lemma ranged_exists {A} (f : A -> ConnState) e (m : gmap string A) :
  (cp_iterate e (map_to_list m).*2 <> [] -> exists x, x ∈ cp_iterate e (map_to_list m).*2 /\ f x = StateConnected)
  <-> (m <> ∅ -> exists n x, m !! n = Some x /\ f x = StateConnected).
Proof.
  assert (Hnil : cp_iterate e (map_to_list m).*2 <> [] <-> m <> ∅).
  { pose proof (cp_iterate_perm A e (map_to_list m).*2) as Hp. split; intros Hne He; apply Hne.
    - subst m. rewrite map_to_list_empty in Hp |- *. by apply Permutation_nil_r in Hp.
    - rewrite He in Hp. apply Permutation_nil_l in Hp. symmetry in Hp. by apply fmap_nil_inv, map_to_list_empty_iff in Hp. }
  rewrite Hnil. setoid_rewrite cp_iterate_perm. setoid_rewrite list_elem_of_fmap.
  split; intros Hm Hne; destruct (Hm Hne) as (x & Hx).
  - destruct Hx as (([n y] & -> & Hin%elem_of_map_to_list) & Hf). eauto.
  - destruct Hx as (y & Hy & Hf). exists y. split; [|done]. exists (x, y). by rewrite elem_of_map_to_list.
Qed.

(** The readiness probe answers 200 exactly when the engine is running and,
    if there are drivers, one of them is connected, and, if there are
    transports, one of them is connected; it changes nothing. *)
Theorem ready_iff now r g :
  exists x, healthzReady now r (Some g) = (Some x, Some g)
  /\ (rs_Status x = 200 <->
      cx_status g = EngineStatusRunning
      /\ (cp_drivers (envOf g) <> ∅ -> exists n d, cp_drivers (envOf g) !! n = Some d /\ ds_State d = StateConnected)
      /\ (cp_transports (envOf g) <> ∅ ->
          exists n t, cp_transports (envOf g) !! n = Some t /\ ts_State t = StateConnected)).
Proof.
  eexists. split; [done|]. rewrite <- (ranged_exists ds_State (envOf g)), <- (ranged_exists ts_State (envOf g)).
  pose proof (ready_reason (Stats.Stats now (partsOf g) (cx_stats g)) (ListDrivers g) (ListTransports g)) as Hr.
  cbn [es_Drivers es_Transports es_Status Stats.Stats partsOf ep_drivers ep_transports ep_status] in Hr.
  specialize (Hr (ranged_length _ _) (ranged_length _ _)).
  rewrite <- Hr. cbn [en_ListDrivers en_ListTransports en_Stats corec_engine].
  case_bool_decide; cbn; split; congruence.
Qed.

(** ** The connectivity test *)

End corec.

(** ** Requests against a small engine *)

(** The environment of the write manager's example: a clock, and one driver
    that accepts every write. *)
#[local] Existing Instances WriteManager.Demo.env WriteManager.Demo.audit_codec WriteManager.Demo.dead_codec amd64_f2i.

Module Demo.
#[global] Instance components : Components Z.
Proof.
  refine {|
    cp_drivers _ := {["a"%string := mkDriverStatus "a" "s7" StateError 0 "" 0 0 0 0;
                      "plc"%string := mkDriverStatus "plc" "s7" StateConnected 0 "" 0 0 0 0]};
    cp_transports _ := ∅;
    cp_iterate A _ l := l;
    cp_publish _ _ _ := None;
    cp_ingress _ := [];
    cp_order _ _ := [];
    cp_evalError _ _ := ErrFmt "bad types";
    cp_logDropped _ := 0;
  |}.
  done.
Defined.

#[global] Instance no_exprs : ExprLib unit := {| compileExpr _ := Err (ErrFmt "none"); runExpr _ _ := None |}.

#[global] Instance texts : RouteEnv := {|
  decode_error what _ := "invalid " +:+ what;
  parse_rfc3339 s := if String.eqb s "t1" then Some second else None;
  build_version := "dev";
|}.

Definition engine : corec Z unit :=
  mkCorec WriteManager.Demo.paced WriteManager.Demo.rg NewLatestCache 0 (newAlertManager minute)
    (mkEngine [] ∅ []) (NewScheduler 0) EngineStatusRunning None (newStatsCollector 0).

Definition req (path : string) (q : gmap string (list string)) (body : string) : request :=
  mkRequest "POST" path path "10.0.0.7:51034" ∅ q body.

Definition later : corec Z unit :=
  set_writes (mkWM (2 * second) 3 0 ∅ [] None [] 1000 0 None [] []) engine.

Definition quoted (s : string) : string := String dquote (s +:+ String dquote EmptyString).
Definition member (k v : string) : string := quoted k +:+ ":" +:+ v.
Definition command (rest : string) : string :=
  "{" +:+ member "driver" (quoted "plc") +:+ "," +:+ member "tag" (quoted "x") +:+ "," +:+ member "value" "7" +:+ rest +:+ "}".
Definition typed : string := command ("," +:+ member "type" (quoted "int16")).
End Demo.

(** The audit trail after a typed write, an untyped one, and a batch of both. *)
Example demo_writes :
  let status (x : option (response answer) * option (corec Z unit)) := rs_Status <$> x.1 in
  let trail (x : option (response answer) * option (corec Z unit)) :=
    (fun e => (wa_Source e, wa_Remote e, wa_Value e)) <$> default [] ((fun g => wm_audits (cx_writes g)) <$> x.2) in
  let run := Api.writeTag in
  let batch l := batchWrite
                   (Demo.req "/write/batch" ∅ ("{" +:+ Demo.member "writes" ("[" +:+ l +:+ "]") +:+ "}")) (Some Demo.later) in
  let one := run (Demo.req "/write" ∅ Demo.typed) (Some Demo.later) in
  let two := run (Demo.req "/write" ∅ (Demo.command "")) (Some Demo.later) in
  (status one, trail one, status two, trail two,
   status (batch (Demo.typed +:+ "," +:+ Demo.typed)), trail (batch (Demo.typed +:+ "," +:+ Demo.typed)),
   status (batch (Demo.typed +:+ "," +:+ Demo.command "")), trail (batch (Demo.typed +:+ "," +:+ Demo.command "")))
  = (Some 200, [("api", "10.0.0.7:51034", VInt16 7)], Some 400, [],
     Some 200, [("api-batch", "10.0.0.7:51034", VInt16 7); ("api-batch", "10.0.0.7:51034", VInt16 7)],
     Some 400, [])%string.
Proof. vm_compute. reflexivity. Qed.

Lemma history_exact_witness :
  let r := Demo.req "/write/history" {["since"%string := ["t1"%string]]} "" in
  let l := filter (selected r) (reverse (wm_audits (cx_writes Demo.later))) in
  getWriteHistory r (Some Demo.later)
  = (Some (render 200 (Writes (if bool_decide (query r "limit" <> EmptyString)
                               then take (limitOf (query r "limit") (length l)) l else l))), Some Demo.later).
Proof.
  apply (history_exact (Demo.req "/write/history" {["since"%string := ["t1"%string]]} "") Demo.later).
  intros _. vm_compute. eauto.
Defined.

