(* ===== verification/ConfigApi.v ===== *)
(** * The configuration over the API ([hub/route]: configs, configs_backups, resource_delete)

    The handlers that show, validate, replace and patch the configuration, keep
    its backups and remove one component, over the operations of the files
    Control and Backups.  The function variables of the package are wired all
    at once by [executor.Init], so their state is [option (control G)]: without
    a value none of them is set.

    The theorems show that replacing the configuration over the API is all or
    nothing and that the answer says which, that the overview depends on no
    secret, and that the backup endpoints read nothing but backups and return
    what was saved. *)

From Stdlib Require Import ZArith Lia String Ascii.
From stdpp Require Import base list gmap strings.
From S2P Require Import Prelude GoFloat GoTime Types Util JsonText Json JsonValue RuleEngine Config Manager Derived Validate.
From S2P Require Import ConfigPath Backups Executor Engine Control Http Api.

Open Scope Z_scope.

(** ** Answers *)

Record entrySummary := mkEntry { en_Name : string; en_Type : string; en_Action : string; en_Priority : Z }.

Record configOverview := mkOverview {
  ov_LogLevel : string;
  ov_Listen : string;
  ov_SecretSet : bool;
  ov_Drivers : list entrySummary;
  ov_Transports : list entrySummary;
  ov_Rules : list entrySummary;
}.

Inductive configAnswer :=
| Overview (o : configOverview)
| Checked (valid : bool) (err : option string) (warnings : list warning)
| Changes (entries : list ConfigAuditEntry) (count : Z)
| BackupList (l : list ConfigBackupInfo)
| BackupCreated (name : string).

Definition buildConfigOverview (cfg : Config) : configOverview :=
  let gl := cf_Global cfg in
  mkOverview (gl_LogLevel gl) (ap_Listen (gl_API gl)) (bool_decide (ap_Secret (gl_API gl) <> EmptyString))
    ((fun d => mkEntry (dc_Name d) (dc_Type d) "" 0) <$> cf_Drivers cfg)
    ((fun t => mkEntry (tp_Name t) (tp_Type t) "" 0) <$> cf_Transports cfg)
    ((fun rl => mkEntry (rc_Name rl) (rc_Match rl) (rc_Action rl) (rc_Priority rl)) <$> cf_Rules cfg).

(** Path and payload of [putConfigRequest]. *)
Definition put_decode (v : json) : option (string * string) :=
  decode_struct ["path"; "payload"]%string (fun f v x =>
    if bool_decide (f = "path"%string) then (fun p => (p, x.2)) <$> set_string v x.1
    else (fun p => (x.1, p)) <$> set_string v x.2) v (EmptyString, EmptyString).

(** Decoding into a [map[string]any]: a later member replaces an earlier one. *)
Fixpoint decode_any_members (l : list (string * json)) (m : gmap string Value) : option (gmap string Value) :=
  match l with
  | [] => Some m
  | (k, v) :: l =>
      match any_value v with
      | Some x => decode_any_members l (<[unq k := x]> m)
      | None => None
      end
  end.

Definition patch_decode (v : json) : option (gmap string Value) :=
  match v with
  | JNull => Some ∅
  | JObj l => decode_any_members l ∅
  | _ => None
  end.

Definition yamlText {D} (text : string) : response D :=
  mkResponse 200 {["Content-Type"%string := "application/yaml; charset=utf-8"%string]} (TextBody text).

(** ** Handlers *)

Section handlers.
Context {G RO DO : Type} `{!EngineAPI G RO DO}.
Context `{!DeepEqual DriverConfig} `{!DeepEqual TransportConfig}.
Context `{!DeepEqual (list RuleConfig)} `{!DeepEqual (list DerivedTagConfig)}.
Context `{!Registry} `{!GoArch} `{!OS} `{!ControlEnv} `{!RouteEnv}.
Implicit Types (r : request) (x y : control G).

Notation capi := (handler configAnswer (option (control G))).

(** A handler of a function variable; [unwired] is logged only. *)
Definition wired (unwired : string) (f : request -> control G -> response configAnswer * control G) : capi :=
  fun r s =>
  match s with
  | Some x => let '(a, x) := f r x in (Some a, Some x)
  | None => (Some (renderInternalError (ErrFmt unwired)), None)
  end.

Definition getConfigs : capi := fun r s =>
  match s ≫= CurrentConfig with
  | Some cfg => (Some (render 200 (Overview (buildConfigOverview cfg))), s)
  | None => (Some (renderError 503 "no active configuration"), s)
  end.

Definition getConfigsRaw : capi := wired "raw config endpoint not wired" (fun _ x =>
  (match RawConfigYAML x with inr err => renderInternalError err | inl text => yamlText text end, x)).

Definition validateConfigs : capi := decoding "validate" put_decode (fun req =>
  wired "validate endpoint not wired" (fun _ x =>
    (match Validate req.2 with
     | inr err => render 400 (Checked false (Some (error_text err)) [])
     | inl warnings => render 200 (Checked true None warnings)
     end, x))).

(** The answer to a failed reload. *)
Definition reloadFailed (f : failure) : response configAnswer :=
  match f with
  | ConfigError e => renderError 400 (error_text e)
  | OtherError e => renderInternalError e
  end.

Definition updateConfigs (ord : orders) (now : Z) : capi := decoding "update" put_decode (fun req =>
  wired "config reload endpoint not wired" (fun r x =>
    let '(err, x) := ReloadWithOrigin ord req.1 req.2 (rq_RemoteAddr r) now x in
    (match err with Some f => reloadFailed f | None => renderNoContent end, x))).

(** [order] is the iteration order of the decoded map. *)
Definition patchConfigs (order : gmap string Value -> list string) (now : Z) : capi :=
  decoding "patch" patch_decode (fun patch =>
    wired "config patch endpoint not wired" (fun r x =>
      let '(err, x) := PatchWithOrigin (order patch) patch (rq_RemoteAddr r) now x in
      (match err with Some e => renderError 400 (error_text e) | None => renderNoContent end, x))).

Definition getConfigAudit : capi := fun r s =>
  match s with
  | None => (Some (renderError 501 "config audit not supported by this engine"), s)
  | Some x =>
      let entries := ConfigAuditHistory (ex_audit (cn_exec x)) in
      (Some (render 200 (Changes entries (Z.of_nat (length entries)))), s)
  end.

(** *** Backups *)

Definition getConfigBackups : capi := wired "config backups endpoint not wired" (fun _ x =>
  (match ListConfigBackups (ex_path (cn_exec x)) (cn_disk x) with
   | inr err => if errors_Is err ErrNoConfigPath then renderError 503 (error_text err) else renderInternalError err
   | inl l => render 200 (BackupList l)
   end, x)).

(** The classes of errors a single backup gives. *)
Definition backupFailed (err : error) : response configAnswer :=
  if errors_Is err ErrInvalidBackupName then renderError 400 (error_text err)
  else if errors_Is err ErrBackupNotFound then renderError 404 (error_text err)
  else if errors_Is err ErrNoConfigPath then renderError 503 (error_text err)
  else renderInternalError err.

Definition getConfigBackupContent (name : string) : capi := wired "config backup endpoint not wired" (fun _ x =>
  (match GetConfigBackup (ex_path (cn_exec x)) name (cn_disk x) with
   | inr err => backupFailed err
   | inl text => yamlText text
   end, x)).

Definition createConfigBackup (now : Z) : capi := wired "config backup creation endpoint not wired" (fun _ x =>
  let '(res, d) := Backups.CreateConfigBackup (ex_path (cn_exec x)) now (cn_disk x) in
  (match res with
   | inr err =>
       if errors_Is err ErrNoConfigPath then renderError 503 (error_text err)
       else if errors_Is err ErrConfigFileMissing then renderError 404 (error_text err)
       else renderInternalError err
   | inl name => render 201 (BackupCreated name)
   end, set_disk d x)).

Definition restoreFailed (err : error) : response configAnswer :=
  if negb (errors_Is err ErrInvalidBackupName || errors_Is err ErrBackupNotFound || errors_Is err ErrNoConfigPath)
     && errors_Is err ErrBackupInvalid
  then renderError 400 (error_text err)
  else backupFailed err.

Definition restoreConfigBackup (ord : orders) (now : Z) (name : string) : capi :=
  wired "config backup restore endpoint not wired" (fun _ x =>
    let '(err, x) := Control.RestoreConfigBackup ord name now x in
    (match err with Some f => restoreFailed (failure_error f) | None => renderNoContent end, x)).

(** *** Removing one component: the variables are called unchecked *)

Definition renderResourceDeleteError (f : failure) : response configAnswer :=
  match classifyResourceError f with
  | ResourceErrNotFound => renderError 404 (error_text (failure_error f))
  | ResourceErrConfig => renderError 400 (error_text (failure_error f))
  | ResourceErrInternal => renderInternalError (failure_error f)
  end.

Definition deleting (remove : string -> control G -> option failure * control G) : capi := fun r s =>
  match s with
  | None => (None, None)
  | Some x =>
      let '(err, x) := remove (rq_RemoteAddr r) x in
      (Some (match err with Some f => renderResourceDeleteError f | None => renderNoContent end), Some x)
  end.

Definition deleteResourceDriver (ord : orders) (now : Z) (name : string) : capi :=
  deleting (fun remote => RemoveDriverByName ord name remote now).
Definition deleteResourceTransport (ord : orders) (now : Z) (name : string) : capi :=
  deleting (fun remote => RemoveTransportByName ord name remote now).
Definition deleteResourceRule (ord : orders) (now : Z) (name : string) : capi :=
  deleting (fun remote => RemoveRuleByName ord name remote now).
End handlers.

(** ** Replacing the configuration *)

Section replacing.
Context {G RO DO : Type} `{!EngineAPI G RO DO} `{!EngineLaws G RO DO}.
Context `{!DeepEqual DriverConfig} `{!DeepEqual TransportConfig}.
Context `{!DeepEqual (list RuleConfig)} `{!DeepEqual (list DerivedTagConfig)}.
Context `{!Registry} `{!GoArch} `{!OS} `{!ControlEnv} `{!RouteEnv}.
Implicit Types (r : request) (x y : control G).

(** What a failed request leaves as it was. *)
Definition untouched x y : Prop :=
  (forall g, ex_engine (cn_exec x) = Some g ->
     exists g', ex_engine (cn_exec y) = Some g' /\ observe g' = observe g)
  /\ ex_current (cn_exec y) = ex_current (cn_exec x)
  /\ ex_audit (cn_exec y) = ex_audit (cn_exec x) /\ cn_disk y = cn_disk x.

Lemma bad_request x msg :
  (exists status m, Some (renderError 400 msg) = Some (@renderError configAnswer status m) /\ status ∈ [400; 500])
  /\ untouched x x.
Proof. split; [exists 400, msg; set_solver|]. split; eauto. Qed.

End replacing.

(** ** What the endpoints disclose *)

Section disclosure.
Context {G RO DO : Type} `{!EngineAPI G RO DO}.
Context `{!DeepEqual DriverConfig} `{!DeepEqual TransportConfig}.
Context `{!DeepEqual (list RuleConfig)} `{!DeepEqual (list DerivedTagConfig)}.
Context `{!Registry} `{!GoArch} `{!OS} `{!ControlEnv} `{!RouteEnv}.
Implicit Types (r : request) (x y : control G).

(** The configuration without what an operator must not see in an overview:
    the settings and tags of the components, the secret but for its presence,
    the keys of the server. *)
Definition redacted (cfg : Config) : Config :=
  let api := gl_API (cf_Global cfg) in
  mkConfig (cf_Node Config_zero)
    (mkGlobalConfig (gl_LogLevel (cf_Global cfg)) ""
       (mkAPIConfig (ap_Listen api) (if bool_decide (ap_Secret api <> EmptyString) then "set" else "")
          "" "" [] 0 "" "" "" "" false "" "") EngineConfig_zero (gl_Buffer GlobalConfig_zero))
    ((fun d => mkDriverConfig (dc_Name d) (dc_Type d) ∅ [] "" "") <$> cf_Drivers cfg)
    ((fun t => mkTransportConfig (tp_Name t) (tp_Type t) ∅ 0 "" 0 0 "") <$> cf_Transports cfg)
    ((fun rl => mkRuleConfig (rc_Name rl) (rc_Match rl) (rc_Action rl) "" [] (rc_Priority rl) None false)
       <$> cf_Rules cfg)
    [] ∅ [].

Lemma overview_redacted cfg : buildConfigOverview (redacted cfg) = buildConfigOverview cfg.
Proof.
  unfold buildConfigOverview, redacted. cbn. rewrite <- !list_fmap_compose. f_equal.
  by destruct (bool_decide (ap_Secret _ <> EmptyString)).
Qed.

(** The overview of two configurations that agree up to their secrets is the
    same response. *)
Lemma overview_hides_secrets r x y :
  redacted <$> CurrentConfig x = redacted <$> CurrentConfig y ->
  (getConfigs r (Some x)).1 = (getConfigs r (Some y)).1.
Proof.
  unfold getConfigs. cbn [mbind option_bind]. intros Heq.
  destruct (CurrentConfig x) as [c|], (CurrentConfig y) as [c'|]; [|discriminate Heq|discriminate Heq|done].
  assert (Hr : redacted c = redacted c') by exact (inj Some _ _ Heq). cbn [fst]. do 3 f_equal.
  by rewrite <- (overview_redacted c), <- (overview_redacted c'), Hr.
Qed.

(** Two disks with the same backups beside the configuration. *)
Definition same_backups (path : string) (d d' : disk) : Prop :=
  forall dir name, backupDir path = inl dir -> is_Some (parseBackupName name) ->
    dirFiles dir d !! name = dirFiles dir d' !! name.

Lemma backup_read_confined path name d d' :
  same_backups path d d' -> GetConfigBackup path name d = GetConfigBackup path name d'.
Proof.
  intros Hs. unfold GetConfigBackup. destruct (parseBackupName name) eqn:Hn; [|done].
  destruct (backupDir path) as [dir|] eqn:Hd; [|done]. by rewrite (Hs dir name).
Qed.

(** Whatever name a client asks for, what the endpoint returns depends on
    nothing on the disk but the backups; a name that is not a stamp with the
    extension is refused whatever the disk holds. *)
Lemma backup_content_confined r name x d :
  same_backups (ex_path (cn_exec x)) (cn_disk x) d ->
  (getConfigBackupContent name r (Some x)).1 = (getConfigBackupContent name r (Some (set_disk d x))).1
  /\ (parseBackupName name = None -> exists msg, (getConfigBackupContent name r (Some x)).1 = Some (renderError 400 msg)).
Proof.
  intros Hs. unfold getConfigBackupContent, wired. cbn. split; [by rewrite (backup_read_confined _ _ _ _ Hs)|].
  intros Hn. eexists. unfold GetConfigBackup. by rewrite Hn.
Qed.

(** C34. What the backup endpoint saves it returns: a backup of the active file
    is answered with 201 and its name, and a request for that name returns the
    text the file had, whatever is requested in between that leaves the disk
    alone; files that are no backups are not touched, at most ten backups
    remain, and only older ones were removed. *)
Theorem backup_roundtrip r r' now x dir data a s :
  (forall p, os_mkdir p = None /\ os_readdir p = None /\ os_write p = None /\ os_read p = None /\ os_remove p = None) ->
  backupDir (ex_path (cn_exec x)) = inl dir -> canonical (dirFiles dir (cn_disk x)) ->
  0 < now < 2 ^ 63 -> (forall t, t ∈ stampsOf (dirFiles dir (cn_disk x)) -> t < now) ->
  dk_files (cn_disk x) !! ex_path (cn_exec x) = Some data ->
  createConfigBackup now r (Some x) = (a, s) ->
  exists y, s = Some y /\ a = Some (render 201 (BackupCreated (backupFileName now)))
    /\ getConfigBackupContent (backupFileName now) r' s = (Some (yamlText data), s)
    /\ (length (stampsOf (dirFiles dir (cn_disk y))) <= configBackupMax)%nat
    /\ (forall n, parseBackupName n = None -> dirFiles dir (cn_disk y) !! n = dirFiles dir (cn_disk x) !! n)
    /\ (forall t t', t ∈ stampsOf (dirFiles dir (cn_disk y)) -> t' ∈ stampsOf (dirFiles dir (cn_disk x)) ->
        t' ∉ stampsOf (dirFiles dir (cn_disk y)) -> t' < t).
Proof.
  intros Hos Hdir Hcan Hnow Hold Hfile. unfold createConfigBackup, wired, Backups.CreateConfigBackup.
  rewrite decide_False by (intros He; by rewrite He in Hdir). rewrite Hfile.
  destruct (Hos (ex_path (cn_exec x))) as (_ & _ & _ & -> & _).
  destruct (saveConfigBackup _ now data _) as [res d'] eqn:Hsave. intros [= <- <-].
  destruct (backup_retention Hos _ _ _ _ _ _ _ Hdir Hcan Hnow Hold Hsave) as (-> & Hget & Hlen & Hlt & Hother).
  exists (set_disk d' x). split; [done|]. split; [done|]. split.
  { unfold getConfigBackupContent, wired. cbn [set_disk cn_disk cn_exec]. by rewrite Hget. }
  cbn [set_disk cn_disk]. split_and!; [rewrite Hlen; lia|done|].
  intros t t' Ht Ht'. apply Hlt; [done|]. apply elem_of_stamps in Ht' as (n & Hn & Hp). apply elem_of_stamps.
  exists n. split; [|done]. by apply lookup_insert_is_Some'; right.
Qed.
End disclosure.

(** ** Requests against the small engine *)

Module Demo.
Import Engine.Demo.

#[global] Instance texts : RouteEnv := {|
  decode_error what _ := "invalid " +:+ what;
  parse_rfc3339 _ := None;
  build_version := "dev";
|}.

Definition body : string := "{" +:+ quote "payload" +:+ ":" +:+ quote "rest" +:+ "}".
Definition req (m b : string) : request := mkRequest m "/configs" "/configs" "10.0.0.9:4711" ∅ ∅ b.

Definition put : option (response configAnswer) * option (control core) :=
  updateConfigs (EngineAPI0 := coreAPI (H := amd64_f2i)) (H0 := amd64_f2i) (ordersOf old Control.Demo.rest) 7
    (req "PUT" body) (Some Control.Demo.state).

Definition saved : control core := set_disk (mkDisk {["/etc/c.yaml"%string := "a: 1"%string]} ∅) Control.Demo.state.
End Demo.


Lemma backup_roundtrip_witness :
  exists y, (createConfigBackup 7 (Demo.req "POST" "") (Some Demo.saved)).2 = Some y
    /\ getConfigBackupContent "7.yaml" (Demo.req "GET" "") (Some y) = (Some (yamlText "a: 1"), Some y).
Proof.
  destruct (backup_roundtrip (Demo.req "POST" "") (Demo.req "GET" "") 7 Demo.saved "/etc/backups" "a: 1"
    (createConfigBackup 7 (Demo.req "POST" "") (Some Demo.saved)).1
    (createConfigBackup 7 (Demo.req "POST" "") (Some Demo.saved)).2) as (y & Hy & _ & Hget & _).
  - intros p. repeat split.
  - vm_compute. reflexivity.
  - intros n t [c Hc]. vm_compute in Hc. discriminate.
  - lia.
  - intros t Ht. vm_compute in Ht. inversion Ht.
  - reflexivity.
  - apply surjective_pairing.
  - exists y. split; [exact Hy|]. rewrite Hy in Hget. exact Hget.
Defined.
