(* ===== verification/Exposition.v ===== *)
(** * The metrics page ([hub/route]: metrics, metrics_engine, metrics_driver, ...)

    The page [GET /metrics] serves, in the text format of Prometheus: a
    declaration of each family, two lines, then its samples.  [promEngine] is
    what the handler finds in the engine, a missing role as [None].  Printing a
    floating-point number is the class [FloatText], and the figures of the Go
    runtime are an input.

    The theorems show that the page declares every family once, in front of its
    samples, as long as no latency family has two labels, and that a label
    written as the driver families write theirs is read back as it was. *)

From Stdlib Require Import ZArith Lia String Ascii SpecFloat Sorting.Sorted.
From stdpp Require Import base list gmap strings.
From S2P Require Import Prelude GoFloat GoTime Types Util Alerts Scheduler Engine Metrics Stats Net Http.

Open Scope Z_scope.

(** ** Text *)

Inductive promLine :=
| Header (name typ help : string)
| Sample (name labels value : string).

Definition lf : ascii := ascii_of_N 10.
Definition dq : ascii := ascii_of_N 34.
Definition bslash : ascii := ascii_of_N 92.
Definition str1 (c : ascii) : string := String c EmptyString.

Definition lineText (l : promLine) : string :=
  match l with
  | Header name typ help =>
      "# HELP " +:+ name +:+ " " +:+ help +:+ str1 lf +:+ "# TYPE " +:+ name +:+ " " +:+ typ +:+ str1 lf
  | Sample name labels value => name +:+ labels +:+ " " +:+ value +:+ str1 lf
  end.

Definition pageText (l : list promLine) : string := foldr (fun x s => lineText x +:+ s) EmptyString l.

(** [strings.ReplaceAll] of one byte. *)
Fixpoint replaceByte (c : ascii) (by_ : string) (s : string) : string :=
  match s with
  | EmptyString => EmptyString
  | String a t => (if Ascii.eqb a c then by_ else str1 a) +:+ replaceByte c by_ t
  end.

Definition promEscape (s : string) : string :=
  if negb (has_byte bslash s || has_byte dq s || has_byte lf s) then s
  else replaceByte lf (String bslash "n")
         (replaceByte dq (String bslash (str1 dq)) (replaceByte bslash (String bslash (str1 bslash)) s)).

(** A label with its value between quotes, and with the verb [%q]. *)
Definition label_s (k v : string) : string := k +:+ "=" +:+ str1 dq +:+ promEscape v +:+ str1 dq.
Definition label_q (k v : string) : string := k +:+ "=" +:+ quote (promEscape v).

Definition braces (labels : list string) : string := "{" +:+ String.concat "," labels +:+ "}".

Definition sortedKeys {V} (m : gmap string V) : list string := sortStrings (map_to_list m).*1.

(** The entries of a map in the order of their keys. *)
Definition sortedEntries {V} (m : gmap string V) : list (string * V) :=
  omap (fun k => pair k <$> m !! k) (sortedKeys m).

(** [%g], and [FormatFloat] with the format f and the least precision. *)
Class FloatText := { fmt_g : float -> string; fmt_f : float -> string }.

Definition gauge01 (b : bool) : string := if b then "1" else "0".

(** What [runtime] and [runtime/metrics] report. *)
Record runtimeSamples := mkRuntime {
  rt_goroutines : Z;
  rt_objects : Z;
  rt_free : Z;
  rt_unused : Z;
  rt_released : Z;
  rt_stacks : Z;
  rt_allocs : Z;
  rt_cycles : Z;
  rt_pauses : list Z * list float;   (* counts and bounds of the histogram *)
  rt_cpus : Z;
}.

(** The engine and its optional roles. *)
Record promEngine := mkPromEngine {
  pe_stats : EngineStats;
  pe_logDropped : Z;
  pe_health : option (list TaskHealth);
  pe_breakdown : option DroppedBreakdown;
  pe_driverMetrics : option (list Metric);
  pe_offline : option (Z * Z * Z);
  pe_offlineBytes : option Z;
  pe_offlineEvictions : option Z;
  pe_flushDropped : option Z;
  pe_deadLetters : option (Z * Z);
  pe_alerts : option (gmap string Z * Z);
  pe_labeled : option labeledLatencyStore;
  pe_latency : option (LatencyHistogram * LatencyHistogram);
  pe_dataAge : option LatencyHistogram;
}.

(** The roles [CoreCEngine] has: all of them. *)
Section of_engine.
Context `{GoArch} {data : Type}.

Definition corecProm (now : Z) (e : engineParts) (s : statsCollector) (sched : scheduler) (am : alertManager)
    (tie : list Metric -> list Metric) (bs : list batcherCounters) (buf : option (OfflineBuffer.OfflineBuffer data))
    (fileSize : string -> option Z) (dead : Z * Z) : promEngine :=
  mkPromEngine (Stats now e s) (ep_logDropped e) (Some (Health sched)) (Some (droppedBreakdown e s))
    (Some (DriverMetrics tie s)) (Some (OfflineBufferStats bs buf)) (Some (OfflineBufferBytes fileSize buf))
    (Some (OfflineBufferEvictions buf)) (Some (FlushBatchesDropped bs)) (Some dead)
    (Some (fireCounts am, Z.of_nat (activeCount am))) (Some (st_labeled s))
    (Some (ll_globalRead (st_labeled s), ll_globalPublish (st_labeled s))) (Some (ll_globalAge (st_labeled s))).
End of_engine.

Section page.
Context `{FloatText}.

(** ** Families *)

Definition writeEngineTotals (st : EngineStats) (logDropped : Z) : list promLine :=
  [Header "corec_reads_total" "counter" "Total data points read from drivers";
   Sample "corec_reads_total" "" (itoa (es_TotalRead st));
   Header "corec_publishes_total" "counter" "Total data points published to transports";
   Sample "corec_publishes_total" "" (itoa (es_TotalPublish st));
   Header "corec_errors_total" "counter" "Total processing errors";
   Sample "corec_errors_total" "" (itoa (es_TotalErrors st));
   Header "corec_dropped_total" "counter" "Total data points dropped";
   Sample "corec_dropped_total" "" (itoa (es_TotalDropped st));
   Header "corec_log_dropped_total" "counter" "Total log events dropped due to slow consumers (full source channel or subscriber buffer)";
   Sample "corec_log_dropped_total" "" (itoa logDropped);
   Header "corec_drivers" "gauge" "Number of configured drivers";
   Sample "corec_drivers" "" (itoa (es_Drivers st));
   Header "corec_transports" "gauge" "Number of configured transports";
   Sample "corec_transports" "" (itoa (es_Transports st));
   Header "corec_rules" "gauge" "Number of configured rules";
   Sample "corec_rules" "" (itoa (es_Rules st));
   Header "corec_uptime_seconds" "gauge" "Engine uptime in seconds";
   Sample "corec_uptime_seconds" "" (fmt_g (Duration_Seconds (es_Uptime st)));
   Header "corec_points_per_second" "gauge" "Data points processed per second over the last minute (0 when collection stalls)";
   Sample "corec_points_per_second" "" (fmt_g (es_PointsPerSec st))].

Definition writeDriverMetrics (now : Z) (driverStats : gmap string DriverStatus) : list promLine :=
  let ds := sortedEntries driverStats in
  let readers := filter (fun x : string * DriverStatus => ds_LastRead x.2 <> zeroTime) ds in
  if decide (driverStats = ∅) then [] else
     (Header "corec_driver_read_total" "counter" "Total reads performed by this driver"
      :: ((fun x => Sample "corec_driver_read_total" (braces [label_s "driver" x.1; label_s "type" (ds_Type x.2)]) (itoa (ds_ReadCount x.2))) <$> ds))
  ++ (Header "corec_driver_errors_total" "counter" "Total errors reported by this driver"
      :: ((fun x => Sample "corec_driver_errors_total" (braces [label_s "driver" x.1]) (itoa (ds_ErrorCount x.2))) <$> ds))
  ++ (Header "corec_driver_reconnect_total" "counter" "Total reconnect attempts made by this driver"
      :: ((fun x => Sample "corec_driver_reconnect_total" (braces [label_s "driver" x.1]) (itoa (ds_ReconnectCount x.2))) <$> ds))
  ++ (Header "corec_driver_tags" "gauge" "Number of tags configured for this driver"
      :: ((fun x => Sample "corec_driver_tags" (braces [label_s "driver" x.1]) (itoa (ds_TagCount x.2))) <$> ds))
  ++ (Header "corec_driver_connected" "gauge" "1 if the driver is connected, 0 otherwise"
      :: ((fun x => Sample "corec_driver_connected" (braces [label_s "driver" x.1]) (gauge01 (bool_decide (ds_State x.2 = StateConnected)))) <$> ds))
  ++ (Header "corec_driver_last_read_timestamp_seconds" "gauge" "Unix timestamp (seconds) of the driver's last successful read; omitted before the first read"
      :: ((fun x => Sample "corec_driver_last_read_timestamp_seconds" (braces [label_s "driver" x.1]) (itoa (ds_LastRead x.2 / second))) <$> readers))
  ++ (Header "corec_driver_last_read_seconds" "gauge" "Seconds since the driver's last successful read; use for staleness alerting (e.g. > 2x collection interval means the driver went quiet); omitted before the first read"
      :: ((fun x => Sample "corec_driver_last_read_seconds" (braces [label_s "driver" x.1]) (fmt_g (Duration_Seconds (time_Sub now (ds_LastRead x.2))))) <$> readers)).

Definition writeTransportMetrics (transportStats : gmap string TransportStatus) : list promLine :=
  let ts := sortedEntries transportStats in
  if decide (transportStats = ∅) then [] else
     (Header "corec_transport_published_total" "counter" "Total messages published by this transport"
      :: ((fun x => Sample "corec_transport_published_total" (braces [label_q "transport" x.1; label_q "type" (ts_Type x.2)]) (itoa (ts_Published x.2))) <$> ts))
  ++ (Header "corec_transport_failed_total" "counter" "Total publish failures for this transport"
      :: ((fun x => Sample "corec_transport_failed_total" (braces [label_q "transport" x.1]) (itoa (ts_Failed x.2))) <$> ts))
  ++ (Header "corec_transport_received_total" "counter" "Total data points received by this transport"
      :: ((fun x => Sample "corec_transport_received_total" (braces [label_q "transport" x.1]) (itoa (ts_Received x.2))) <$> ts))
  ++ (Header "corec_transport_queue_size" "gauge" "Current outbound queue size for this transport"
      :: ((fun x => Sample "corec_transport_queue_size" (braces [label_q "transport" x.1]) (itoa (ts_QueueSize x.2))) <$> ts))
  ++ (Header "corec_transport_connected" "gauge" "1 if the transport is connected, 0 otherwise"
      :: ((fun x => Sample "corec_transport_connected" (braces [label_q "transport" x.1]) (gauge01 (bool_decide (ts_State x.2 = StateConnected)))) <$> ts))
  ++ (Header "corec_transport_dropped_commands_total" "counter" "Write commands dropped at ingress because the command channel was full"
      :: ((fun x => Sample "corec_transport_dropped_commands_total" (braces [label_q "transport" x.1]) (itoa (ts_DroppedCommands x.2))) <$> filter (fun x : string * TransportStatus => 0 < ts_DroppedCommands x.2) ts)).

Definition writeSchedulerMetrics (health : option (list TaskHealth)) : list promLine :=
  let hs := default [] health in
  if bool_decide (length hs = O) then [] else
     (Header "corec_scheduler_degraded" "gauge" "1 if any of this driver's collection tasks is auto-degraded (interval stretched after sustained read failures), 0 otherwise"
      :: ((fun x => Sample "corec_scheduler_degraded" (braces [label_s "driver" (th_Driver x)]) (gauge01 (th_Degraded x))) <$> hs))
  ++ (Header "corec_scheduler_consecutive_errors" "gauge" "Worst streak of consecutive read failures across this driver's collection tasks (resets on the first success)"
      :: ((fun x => Sample "corec_scheduler_consecutive_errors" (braces [label_s "driver" (th_Driver x)]) (itoa (th_ConsecutiveErrors x))) <$> hs))
  ++ (Header "corec_scheduler_overruns_total" "counter" "Total reads whose latency exceeded the collection interval, per driver (cumulative over the process lifetime, never reset)"
      :: ((fun x => Sample "corec_scheduler_overruns_total" (braces [label_s "driver" (th_Driver x)]) (itoa (th_OverrunsTotal x))) <$> hs))
  ++ (Header "corec_deadband_heartbeats_total" "counter" "Total samples released by an enforce-interval heartbeat while the value stayed inside its deadband, per driver (cumulative over the process lifetime)"
      :: ((fun x => Sample "corec_deadband_heartbeats_total" (braces [label_s "driver" (th_Driver x)]) (itoa (th_HeartbeatsTotal x))) <$> hs))
  ++ (Header "corec_trigger_group_skipped_total" "counter" "Total detail reads suppressed because a trigger group's condition was false, per driver (cumulative over the process lifetime)"
      :: ((fun x => Sample "corec_trigger_group_skipped_total" (braces [label_s "driver" (th_Driver x)]) (itoa (th_TriggerSkipsTotal x))) <$> hs)).

Definition writeDroppedBreakdown (bd : option DroppedBreakdown) : list promLine :=
  match bd with
  | None => []
  | Some bd =>
  [Header "corec_databus_dropped_total" "counter" "Data points dropped from the internal data bus because it was full, by channel (oldest evicted per push)";
   Sample "corec_databus_dropped_total" (braces [label_s "channel" "main"]) (itoa (bd_DataBusMain bd));
   Sample "corec_databus_dropped_total" (braces [label_s "channel" "priority"]) (itoa (bd_DataBusPriority bd));
   Header "corec_slow_subscriber_dropped_total" "counter" "Data points dropped because a /tags/stream subscriber fell behind (bounded per-subscriber buffers)";
   Sample "corec_slow_subscriber_dropped_total" "" (itoa (bd_SlowSubscriber bd));
   Header "corec_bad_quality_dropped_total" "counter" "Data points discarded by the on-bad-quality: drop policy (a configured policy, not a processing error)";
   Sample "corec_bad_quality_dropped_total" "" (itoa (bd_BadQuality bd))]
  end.

Definition kindText (k : MetricKind) : string := match k with KindCounter => "counter" | KindGauge => "gauge" end.

Definition driverHelp : string := "Driver-emitted protocol metric (see docs/config/drivers.md)".

Definition driverSample (m : Metric) : promLine :=
  Sample (me_Name m) (braces ((fun kv => label_q kv.1 kv.2) <$> sortedLabels (me_Labels m))) (fmt_g (me_Value m)).

(** One declaration when the name changes. *)
Fixpoint driverSeries (family : string) (series : list Metric) : list promLine :=
  match series with
  | [] => []
  | m :: series =>
      (if bool_decide (me_Name m <> family) then [Header (me_Name m) (kindText (me_Kind m)) driverHelp] else [])
      ++ driverSample m :: driverSeries (me_Name m) series
  end.

Definition writeDriverEmittedMetrics (series : option (list Metric)) : list promLine :=
  driverSeries EmptyString (default [] series).

Definition writeOfflineBufferMetrics (e : promEngine) : list promLine :=
  match pe_offline e with
  | None => []
  | Some (pending, drained, pushed) =>
      [Header "corec_offline_buffer_pending" "gauge" "Batches currently held in the offline buffer awaiting replay";
   Sample "corec_offline_buffer_pending" "" (itoa pending);
   Header "corec_offline_buffer_drained_total" "counter" "Total batches successfully replayed from the offline buffer";
   Sample "corec_offline_buffer_drained_total" "" (itoa drained);
   Header "corec_offline_buffer_pushed_total" "counter" "Total batches persisted to the offline buffer after retries exhausted";
   Sample "corec_offline_buffer_pushed_total" "" (itoa pushed)]
      ++ match pe_offlineBytes e with
         | Some n => [Header "corec_offline_buffer_bytes" "gauge" "Total on-disk bytes held by the offline buffer awaiting replay";
   Sample "corec_offline_buffer_bytes" "" (itoa n)]
         | None => []
         end
      ++ match pe_offlineEvictions e with
         | Some n => [Header "corec_offline_buffer_evicted_total" "counter" "Total batches evicted from the offline buffer when full (oldest dropped, newest wins)";
   Sample "corec_offline_buffer_evicted_total" "" (itoa n)]
         | None => []
         end
  end.

Definition writeFlushBatchesDropped (dropped : option Z) : list promLine :=
  match dropped with
  | None => []
  | Some n => [Header "corec_flush_batches_dropped_total" "counter" "Full batches evicted or dropped from batcher flush queues due to sustained backpressure";
   Sample "corec_flush_batches_dropped_total" "" (itoa n)]
  end.

Definition writeDeadLetterMetrics (dead : option (Z * Z)) : list promLine :=
  match dead with
  | None => []
  | Some (size, pushed) => [Header "corec_dead_letter_queue_size" "gauge" "Write commands currently held in the dead letter queue (retries exhausted); alert on sustained growth";
   Sample "corec_dead_letter_queue_size" "" (itoa size);
   Header "corec_dead_letter_pushed_total" "counter" "Total write commands pushed into the dead letter queue since startup";
   Sample "corec_dead_letter_pushed_total" "" (itoa pushed)]
  end.

Definition writeAlertMetrics (alerts : option (gmap string Z * Z)) : list promLine :=
  match alerts with
  | None => []
  | Some (fires, active) =>
      (if decide (fires = ∅) then [] else
     (Header "corec_alerts_total" "counter" "Total rule alert fires per rule (raw, not deduplicated); rate() shows firing frequency"
      :: ((fun x => Sample "corec_alerts_total" (braces [label_q "rule" x.1]) (itoa x.2)) <$> sortedEntries fires)))
      ++ [Header "corec_alerts_active" "gauge" "Currently-active alerts (fired within the active window, acknowledged or not)";
   Sample "corec_alerts_active" "" (itoa active)]
  end.

(** [splitMetricKey]: a key is split at its first colon. *)
Definition splitMetricKey (k : string) : option (string * string) := cut_byte ":" k.

Fixpoint cumulate (acc : Z) (l : list Z) : list Z :=
  match l with [] => [] | n :: l => u64 (acc + n) :: cumulate (u64 (acc + n)) l end.

Definition writeHTTPMetrics (m : httpMetrics) : list promLine :=
  let '(counts, durBuckets, durSum, durCount) := snapshot m in
  let cums := cumulate 0 durBuckets in
  (Header "corec_http_requests_total" "counter" "Total HTTP requests served by the API gateway"
   :: omap (fun x => (fun ms => Sample "corec_http_requests_total" (braces [label_q "method" ms.1; label_q "status" ms.2]) (itoa x.2)) <$> splitMetricKey x.1) (sortedEntries counts))
  ++ (Header "corec_http_request_duration_seconds" "histogram" "HTTP request duration in seconds"
      :: zip_with (fun ub c => Sample "corec_http_request_duration_seconds_bucket" (braces ["le=" +:+ quote (fmt_f ub)]) (itoa c))
           defaultHTTPDurationBuckets cums)
  ++ [Sample "corec_http_request_duration_seconds_bucket" (braces ["le=" +:+ quote "+Inf"])
        (itoa (default 0 (cums !! length defaultHTTPDurationBuckets)));
      Sample "corec_http_request_duration_seconds_sum" "" (fmt_g durSum);
      Sample "corec_http_request_duration_seconds_count" "" (itoa durCount)].

(** One series of a histogram; its labels are given as they are written. *)
Definition writeLatencyHistogram (name help : string) (labels : list string) (h : LatencyHistogram) : list promLine :=
  let '(buckets, counts, sum, count) := latencySnapshot h in
  let suffix := match labels with [] => EmptyString | _ => braces labels end in
  Header name "histogram" help
  :: zip_with (fun ub c => Sample (name +:+ "_bucket") (braces (labels ++ ["le=" +:+ quote (fmt_f ub)])) (itoa c)) buckets counts
  ++ [Sample (name +:+ "_bucket") (braces (labels ++ ["le=" +:+ quote "+Inf"])) (itoa count);
      Sample (name +:+ "_sum") suffix (fmt_g sum); Sample (name +:+ "_count") suffix (itoa count)].

Definition writeLabeledHistogram (name help label : string) (snaps : gmap string LatencyHistogram) : list promLine :=
  x ← sortedEntries snaps; writeLatencyHistogram name help [label_q label x.1] x.2.

Definition writeLatencyMetrics (e : promEngine) : list promLine :=
  match pe_labeled e with
  | Some l =>
      writeLabeledHistogram "corec_read_latency_seconds" "Driver read latency in seconds, per driver" "driver" (ll_readByDriver l)
      ++ writeLabeledHistogram "corec_publish_latency_seconds" "Transport publish latency in seconds, per transport" "transport"
           (ll_pubByTransport l)
      ++ writeLabeledHistogram "corec_data_age_seconds"
           "Data age (publish time minus collection timestamp) in seconds, per transport" "transport" (ll_ageByTransport l)
  | None =>
      match pe_latency e with
      | Some (rd, pub) =>
          writeLatencyHistogram "corec_read_latency_seconds" "Driver read latency in seconds" [] rd
          ++ writeLatencyHistogram "corec_publish_latency_seconds" "Transport publish latency in seconds" [] pub
      | None => []
      end
      ++ match pe_dataAge e with
         | Some a => writeLatencyHistogram "corec_data_age_seconds"
                       "Data age (publish time minus collection timestamp) in seconds" [] a
         | None => []
         end
  end.

(** The sum over the buckets of a pause histogram, a bucket's pauses taken at
    its middle and those of the last one at its lower bound.  A histogram of the
    runtime has one bound more than it has counts. *)
Fixpoint pauseTotal (total : float) (counts : list Z) (bounds : list float) : float :=
  match counts, bounds with
  | count :: counts, lo :: ((hi :: _) as bounds) =>
      let n := f_of_Z F64 count in
      pauseTotal
        (if decide (count = 0) then total
         else match counts with
              | [] => fadd F64 total (fmul F64 n lo)
              | _ => if fleb f_zero lo then fadd F64 total (fdiv F64 (fmul F64 n (fadd F64 lo hi)) (f_of_Z F64 2)) else total
              end)
        counts bounds
  | _, _ => total
  end.

Definition pauseTotalSeconds (h : list Z * list float) : float := pauseTotal f_zero h.1 h.2.

Definition writeRuntimeMetrics (r : runtimeSamples) : list promLine :=
  let heapSys := u64 (u64 (u64 (rt_objects r + rt_free r) + rt_unused r) + rt_released r) in
  [Header "corec_goroutines" "gauge" "Number of running goroutines";
   Sample "corec_goroutines" "" (itoa (rt_goroutines r));
   Header "corec_mem_heap_alloc_bytes" "gauge" "Bytes of heap memory allocated and still in use";
   Sample "corec_mem_heap_alloc_bytes" "" (itoa (rt_objects r));
   Header "corec_mem_heap_sys_bytes" "gauge" "Bytes of heap memory obtained from the OS";
   Sample "corec_mem_heap_sys_bytes" "" (itoa heapSys);
   Header "corec_mem_stack_inuse_bytes" "gauge" "Bytes of stack memory in use";
   Sample "corec_mem_stack_inuse_bytes" "" (itoa (rt_stacks r));
   Header "corec_mem_total_alloc_bytes" "counter" "Total bytes of memory allocated (cumulative)";
   Sample "corec_mem_total_alloc_bytes" "" (itoa (rt_allocs r));
   Header "corec_gc_count" "counter" "Total number of GC completions";
   Sample "corec_gc_count" "" (itoa (rt_cycles r));
   Header "corec_gc_pause_total_seconds" "counter" "Total GC pause time in seconds";
   Sample "corec_gc_pause_total_seconds" "" (fmt_g (pauseTotalSeconds (rt_pauses r)));
   Header "corec_cpu_count" "gauge" "Number of logical CPUs available to the process";
   Sample "corec_cpu_count" "" (itoa (rt_cpus r))].

(** ** The page *)

Definition promPage (now : Z) (e : promEngine) (m : httpMetrics) (r : runtimeSamples) : list promLine :=
  writeEngineTotals (pe_stats e) (pe_logDropped e)
  ++ writeDriverMetrics now (es_DriverStats (pe_stats e))
  ++ writeSchedulerMetrics (pe_health e)
  ++ writeTransportMetrics (es_TransportStats (pe_stats e))
  ++ writeDroppedBreakdown (pe_breakdown e)
  ++ writeDriverEmittedMetrics (pe_driverMetrics e)
  ++ writeOfflineBufferMetrics e
  ++ writeFlushBatchesDropped (pe_flushDropped e)
  ++ writeDeadLetterMetrics (pe_deadLetters e)
  ++ writeAlertMetrics (pe_alerts e)
  ++ writeHTTPMetrics m
  ++ writeLatencyMetrics e
  ++ writeRuntimeMetrics r.

Definition promContentType : string := "text/plain; version=0.0.4; charset=utf-8".

Definition promMetrics {D} (now : Z) (e : promEngine) (m : httpMetrics) (r : runtimeSamples) : response D :=
  mkResponse 200 {["Content-Type"%string := promContentType]} (TextBody (pageText (promPage now e m r))).
End page.

(** ** Labels *)

(** A quoted label value as a scraper reads it, after the opening quote: three
    escapes, and the rest of the line. *)
Fixpoint readValue (s : string) : option (string * string) :=
  match s with
  | EmptyString => None
  | String c t =>
      if Ascii.eqb c dq then Some (EmptyString, t)
      else if Ascii.eqb c bslash then
        match t with
        | EmptyString => None
        | String d t =>
            if Ascii.eqb d dq || Ascii.eqb d bslash then prod_map (String d) id <$> readValue t
            else if Ascii.eqb d "n" then prod_map (String lf) id <$> readValue t
            else None
        end
      else prod_map (String c) id <$> readValue t
  end.

(** What [promEscape] makes of one byte. *)
Definition escByte (c : ascii) : string :=
  if Ascii.eqb c bslash then String bslash (str1 bslash)
  else if Ascii.eqb c dq then String bslash (str1 dq)
  else if Ascii.eqb c lf then String bslash "n"
  else str1 c.

Fixpoint escapeAll (s : string) : string :=
  match s with EmptyString => EmptyString | String c t => escByte c +:+ escapeAll t end.

Lemma replaceByte_app c r a b : replaceByte c r (a +:+ b) = replaceByte c r a +:+ replaceByte c r b.
Proof.
  induction a as [|x a IH]; [done|]. rewrite str_app_cons. cbn [replaceByte]. by rewrite IH, str_app_assoc.
Qed.

Lemma escByte_replaced c :
  replaceByte lf (String bslash "n") (replaceByte dq (String bslash (str1 dq))
    (replaceByte bslash (String bslash (str1 bslash)) (str1 c))) = escByte c.
Proof. unfold escByte. destruct c as [[] [] [] [] [] [] [] []]; reflexivity. Qed.

Lemma escapeAll_replaced s :
  replaceByte lf (String bslash "n") (replaceByte dq (String bslash (str1 dq))
    (replaceByte bslash (String bslash (str1 bslash)) s)) = escapeAll s.
Proof.
  induction s as [|c s IH]; [done|].
  change (String c s) with (str1 c +:+ s). rewrite !replaceByte_app, IH, escByte_replaced. done.
Qed.

Lemma escapeAll_plain s : has_byte bslash s || has_byte dq s || has_byte lf s = false -> escapeAll s = s.
Proof.
  induction s as [|c s IH]; [done|]. cbn [has_byte escapeAll]. rewrite !orb_false_iff.
  intros [[[H1 H2] [H3 H4]] [H5 H6]]. rewrite IH by (by rewrite H2, H4, H6).
  apply bool_decide_eq_false in H1, H3, H5. unfold escByte.
  destruct (Ascii.eqb_spec c bslash), (Ascii.eqb_spec c dq), (Ascii.eqb_spec c lf); done.
Qed.

(** The guard only avoids work. *)
Lemma promEscape_all s : promEscape s = escapeAll s.
Proof.
  unfold promEscape. destruct (_ || _) eqn:E; cbn [negb]; [apply escapeAll_replaced|by rewrite escapeAll_plain].
Qed.

Lemma readValue_escByte c s : readValue (escByte c +:+ s) = prod_map (String c) id <$> readValue s.
Proof.
  unfold escByte.
  destruct (Ascii.eqb_spec c bslash) as [->|Hb]; [reflexivity|].
  destruct (Ascii.eqb_spec c dq) as [->|Hq]; [reflexivity|].
  destruct (Ascii.eqb_spec c lf) as [->|Hl]; [reflexivity|].
  unfold str1. rewrite str_app_cons. change (EmptyString +:+ s) with s. cbn [readValue].
  destruct (Ascii.eqb_spec c dq); [done|]. by destruct (Ascii.eqb_spec c bslash).
Qed.

Lemma readValue_escapeAll s rest : readValue (escapeAll s +:+ String dq rest) = Some (s, rest).
Proof.
  induction s as [|c s IH]; [done|]. cbn [escapeAll].
  rewrite str_app_assoc, readValue_escByte, IH. done.
Qed.

(** Printable ASCII. *)
Definition printable (c : ascii) : bool := bool_decide (32 <= N_of_ascii c < 127)%N.

Fixpoint all_bytes (P : ascii -> bool) (s : string) : bool :=
  match s with EmptyString => true | String c t => P c && all_bytes P t end.

Lemma quote_char_printable c : printable c = true -> quote_char c = escByte c.
Proof. unfold printable, quote_char, escByte. destruct c as [[] [] [] [] [] [] [] []]; done || discriminate. Qed.

Lemma quote_body_printable s : all_bytes printable s = true -> quote_body s = escapeAll s +:+ str1 dq.
Proof.
  induction s as [|c s IH]; [done|]. cbn [all_bytes quote_body escapeAll]. intros [Hc Hs]%andb_true_iff.
  by rewrite quote_char_printable, IH, str_app_assoc.
Qed.

Lemma all_bytes_app P a b : all_bytes P (a +:+ b) = all_bytes P a && all_bytes P b.
Proof. induction a as [|c a IH]; [done|]. rewrite str_app_cons. cbn [all_bytes]. by rewrite IH, andb_assoc. Qed.

Lemma escByte_printable c : printable c || Ascii.eqb c lf = true -> all_bytes printable (escByte c) = true.
Proof. destruct c as [[] [] [] [] [] [] [] []]; done || discriminate. Qed.

Lemma escapeAll_printable s :
  all_bytes (fun c => printable c || Ascii.eqb c lf) s = true -> all_bytes printable (escapeAll s) = true.
Proof.
  induction s as [|c s IH]; [done|]. cbn [all_bytes escapeAll]. intros [Hc Hs]%andb_true_iff.
  by rewrite all_bytes_app, escByte_printable, IH.
Qed.

Lemma escapeAll_length s : (String.length s <= String.length (escapeAll s))%nat.
Proof.
  induction s as [|c s IH]; [done|]. cbn [escapeAll]. rewrite str_app_length.
  assert (1 <= String.length (escByte c))%nat by (unfold escByte; repeat case_match; simpl; lia). simpl. lia.
Qed.

Lemma escapeAll_fixed s : escapeAll s = s <-> has_byte bslash s || has_byte dq s || has_byte lf s = false.
Proof.
  split; [|apply escapeAll_plain].
  induction s as [|c s IH]; [done|]. cbn [escapeAll has_byte]. intros E.
  assert (Hc : escByte c = str1 c).
  { unfold escByte in *. pose proof (escapeAll_length s).
    apply (f_equal String.length) in E as El. rewrite str_app_length in El. cbn [String.length] in El.
    repeat case_match; try done; simpl in El; lia. }
  rewrite Hc in E. unfold str1 in E. rewrite str_app_cons in E. injection E as E.
  specialize (IH E). rewrite !orb_false_iff in IH. destruct IH as [[-> ->] ->]. rewrite !orb_false_r.
  unfold escByte in Hc. rewrite !orb_false_iff, !bool_decide_eq_false.
  repeat split; intros ->; discriminate.
Qed.

(** A label of the driver and scheduler families is read back as it was: for
    every value, whatever bytes it has, a scraper that undoes the three escapes
    gets the value itself and goes on after the closing quote. *)
Theorem label_roundtrip k v rest :
  label_s k v +:+ rest = k +:+ "=" +:+ String dq (promEscape v +:+ String dq rest)
  /\ readValue (promEscape v +:+ String dq rest) = Some (v, rest).
Proof.
  split.
  - unfold label_s, str1. by rewrite !str_app_assoc, !str_app_cons.
  - rewrite promEscape_all. apply readValue_escapeAll.
Qed.

(** A label of the transport, alert, request and latency families is escaped
    twice: over printable text and line ends a scraper reads the escaped value,
    which is the value itself exactly when it has no quote, backslash or line
    end. *)
Theorem label_escaped_twice k v rest :
  all_bytes (fun c => printable c || Ascii.eqb c lf) v = true ->
  label_q k v +:+ rest = k +:+ "=" +:+ String dq (quote_body (promEscape v) +:+ rest)
  /\ readValue (quote_body (promEscape v) +:+ rest) = Some (promEscape v, rest)
  /\ (promEscape v = v <-> has_byte bslash v || has_byte dq v || has_byte lf v = false).
Proof.
  intros Hv. rewrite promEscape_all. split_and!.
  - unfold label_q, quote. rewrite promEscape_all. by rewrite !str_app_assoc, !str_app_cons.
  - rewrite quote_body_printable by (by apply escapeAll_printable).
    rewrite str_app_assoc. apply readValue_escapeAll.
  - apply escapeAll_fixed.
Qed.

Lemma label_escaped_twice_witness :
  readValue (quote_body (promEscape (String "a" (String dq "b"))) +:+ "}")
  = Some (promEscape (String "a" (String dq "b")), "}"%string)
  /\ promEscape (String "a" (String dq "b")) <> String "a" (String dq "b").
Proof.
  destruct (label_escaped_twice "transport" (String "a" (String dq "b")) "}") as (_ & H1 & H2); [reflexivity|].
  split; [exact H1|]. intros H3. apply H2 in H3. discriminate.
Defined.

(** ** The shape of the page *)

Definition headerNames (l : list promLine) : list string :=
  omap (fun x => match x with Header n _ _ => Some n | _ => None end) l.

(** The names the samples of a family may have. *)
Definition belongs (fam : option (string * string)) (n : string) : Prop :=
  match fam with
  | None => False
  | Some (f, typ) =>
      n = f \/ typ = "histogram"%string /\ (n = f +:+ "_bucket" \/ n = f +:+ "_sum" \/ n = f +:+ "_count")
  end.

(** Every sample belongs to the family declared last. *)
Fixpoint grouped (fam : option (string * string)) (l : list promLine) : Prop :=
  match l with
  | [] => True
  | Header n typ _ :: l => grouped (Some (n, typ)) l
  | Sample n _ _ :: l => belongs fam n /\ grouped fam l
  end.

(** A page a scraper accepts: no family is declared twice, and the samples of a
    family follow its declaration. *)
Definition wf_page (l : list promLine) : Prop := NoDup (headerNames l) /\ grouped None l.

Lemma grouped_app fam a b : grouped fam a -> grouped None b -> grouped fam (a ++ b).
Proof.
  revert fam. induction a as [|[n typ h|n lb v] a IH]; intros fam; cbn [grouped app].
  - intros _. destruct b as [|[]]; cbn [grouped]; [done..|]. by intros [[] _].
  - intros. by apply IH.
  - intros [? ?] ?. split; [done|]. by apply IH.
Qed.

Lemma grouped_fmap {A} n typ (lb vl : A -> string) l :
  grouped (Some (n, typ)) ((fun x => Sample n (lb x) (vl x)) <$> l).
Proof. induction l as [|x l IH]; cbn; auto. Qed.

Lemma headerNames_app a b : headerNames (a ++ b) = headerNames a ++ headerNames b.
Proof. apply omap_app. Qed.

Lemma headerNames_fmap {A} (n : string) (lb vl : A -> string) l :
  headerNames ((fun x => Sample n (lb x) (vl x)) <$> l) = [].
Proof. induction l as [|x l IH]; cbn; auto. Qed.

Lemma headerNames_samples l : Forall (fun x => match x with Sample _ _ _ => True | _ => False end) l -> headerNames l = [].
Proof. induction 1 as [|[] l Hx Hl IH]; done. Qed.

Lemma sortedEntries_perm {V} (m : gmap string V) : sortedEntries m ≡ₚ map_to_list m.
Proof.
  unfold sortedEntries, sortedKeys, sortStrings. rewrite stable_sort_perm.
  assert (Hl : forall x, x ∈ map_to_list m -> m !! x.1 = Some x.2) by (intros [k v]; apply elem_of_map_to_list).
  revert Hl. induction (map_to_list m) as [|[k v] l IH]; intros Hl; [done|].
  pose proof (Hl (k, v) ltac:(left)) as Hk. cbn in *. rewrite Hk. cbn. f_equiv. apply IH. intros x Hx. apply Hl. by right.
Qed.

Section shape.
Context `{FloatText}.

(** One family of plain samples. *)
Lemma family_shape {A} n typ h (lb vl : A -> string) (l : list A) :
  grouped None (Header n typ h :: ((fun x => Sample n (lb x) (vl x)) <$> l))
  /\ headerNames (Header n typ h :: ((fun x => Sample n (lb x) (vl x)) <$> l)) = [n].
Proof. split; [apply grouped_fmap|]. cbn. f_equal. apply headerNames_fmap. Qed.

(** A part of the page: grouped, with names taken in order from a list. *)
Definition part (names : list string) (l : list promLine) : Prop :=
  grouped None l /\ sublist (headerNames l) names.

Lemma part_nil names : part names [].
Proof. split; [done|]. apply sublist_nil_l. Qed.

Lemma part_app n1 n2 a b : part n1 a -> part n2 b -> part (n1 ++ n2) (a ++ b).
Proof. intros [? ?] [? ?]. split; [by apply grouped_app|]. rewrite headerNames_app. by apply sublist_app. Qed.

Lemma part_family {A} n typ h (lb vl : A -> string) (l : list A) :
  part [n] (Header n typ h :: ((fun x => Sample n (lb x) (vl x)) <$> l)).
Proof. destruct (family_shape n typ h lb vl l) as [Hg Hn]. split; [done|]. by rewrite Hn. Qed.

Lemma part_single n typ h v : part [n] [Header n typ h; Sample n "" v].
Proof. split; cbn; auto. Qed.
(** The families of each part, in the order they are written. *)
Definition totalsNames : list string :=
  ["corec_reads_total"; "corec_publishes_total"; "corec_errors_total"; "corec_dropped_total";
   "corec_log_dropped_total"; "corec_drivers"; "corec_transports"; "corec_rules"; "corec_uptime_seconds";
   "corec_points_per_second"].

Definition driverNames : list string :=
  ["corec_driver_read_total"; "corec_driver_errors_total"; "corec_driver_reconnect_total"; "corec_driver_tags";
   "corec_driver_connected"; "corec_driver_last_read_timestamp_seconds"; "corec_driver_last_read_seconds"].

Definition schedulerNames : list string :=
  ["corec_scheduler_degraded"; "corec_scheduler_consecutive_errors"; "corec_scheduler_overruns_total";
   "corec_deadband_heartbeats_total"; "corec_trigger_group_skipped_total"].

Definition transportNames : list string :=
  ["corec_transport_published_total"; "corec_transport_failed_total"; "corec_transport_received_total";
   "corec_transport_queue_size"; "corec_transport_connected"; "corec_transport_dropped_commands_total"].

Definition dropNames : list string :=
  ["corec_databus_dropped_total"; "corec_slow_subscriber_dropped_total"; "corec_bad_quality_dropped_total"].

Definition queueNames : list string :=
  ["corec_offline_buffer_pending"; "corec_offline_buffer_drained_total"; "corec_offline_buffer_pushed_total";
   "corec_offline_buffer_bytes"; "corec_offline_buffer_evicted_total"; "corec_flush_batches_dropped_total";
   "corec_dead_letter_queue_size"; "corec_dead_letter_pushed_total"; "corec_alerts_total"; "corec_alerts_active"].

Definition httpNames : list string := ["corec_http_requests_total"; "corec_http_request_duration_seconds"].

Definition runtimeNames : list string :=
  ["corec_goroutines"; "corec_mem_heap_alloc_bytes"; "corec_mem_heap_sys_bytes"; "corec_mem_stack_inuse_bytes";
   "corec_mem_total_alloc_bytes"; "corec_gc_count"; "corec_gc_pause_total_seconds"; "corec_cpu_count"].

Definition latencyNames : list string :=
  ["corec_read_latency_seconds"; "corec_publish_latency_seconds"; "corec_data_age_seconds"].

Ltac fixed_part := split; [cbn; intuition auto|cbn; reflexivity].

(** The parts whose families are written one after the other. *)
Ltac families := repeat (apply (part_app [_]); [apply part_family|]); apply part_family.

Lemma totals_part st n : part totalsNames (writeEngineTotals st n).
Proof. fixed_part. Qed.

Lemma driver_part now m : part driverNames (writeDriverMetrics now m).
Proof. unfold writeDriverMetrics. destruct (decide _); [apply part_nil|]. families. Qed.

Lemma scheduler_part h : part schedulerNames (writeSchedulerMetrics h).
Proof. unfold writeSchedulerMetrics. case_bool_decide; [apply part_nil|]. families. Qed.

Lemma transport_part m : part transportNames (writeTransportMetrics m).
Proof. unfold writeTransportMetrics. destruct (decide _); [apply part_nil|]. families. Qed.

Lemma drop_part bd : part dropNames (writeDroppedBreakdown bd).
Proof. destruct bd; [fixed_part|apply part_nil]. Qed.

Lemma runtime_part r : part runtimeNames (writeRuntimeMetrics r).
Proof. fixed_part. Qed.

Lemma offline_part e : part (take 5 queueNames) (writeOfflineBufferMetrics e).
Proof.
  unfold writeOfflineBufferMetrics. destruct (pe_offline e) as [[[pending drained] pushed]|]; [|apply part_nil].
  apply (part_app (take 3 queueNames)); [fixed_part|]. apply (part_app [_] [_]).
  - destruct (pe_offlineBytes e); [apply part_single|apply part_nil].
  - destruct (pe_offlineEvictions e); [apply part_single|apply part_nil].
Qed.

Lemma flush_part n : part (take 1 (drop 5 queueNames)) (writeFlushBatchesDropped n).
Proof. destruct n; [apply part_single|apply part_nil]. Qed.

Lemma dead_part d : part (take 2 (drop 6 queueNames)) (writeDeadLetterMetrics d).
Proof. destruct d as [[size pushed]|]; [fixed_part|apply part_nil]. Qed.

Lemma alert_part a : part (drop 8 queueNames) (writeAlertMetrics a).
Proof.
  destruct a as [[fires active]|]; [|apply part_nil]. unfold writeAlertMetrics. apply (part_app [_] [_]).
  - destruct (decide _); [apply part_nil|apply part_family].
  - apply part_single.
Qed.

(** The bucket, sum and count lines of a histogram. *)
Lemma histogram_lines n {A B} (lb : A -> B -> string) (vl : A -> B -> string) xs ys lb1 v1 lb2 v2 lb3 v3 :
  let l := zip_with (fun x y => Sample (n +:+ "_bucket") (lb x y) (vl x y)) xs ys
           ++ [Sample (n +:+ "_bucket") lb1 v1; Sample (n +:+ "_sum") lb2 v2; Sample (n +:+ "_count") lb3 v3] in
  grouped (Some (n, "histogram"%string)) l /\ headerNames l = [].
Proof.
  intros l. subst l. split; revert ys; induction xs as [|x xs IH]; intros [|y ys]; cbn; auto 10; apply IH.
Qed.

Lemma latency_part name help labels h :
  grouped None (writeLatencyHistogram name help labels h)
  /\ headerNames (writeLatencyHistogram name help labels h) = [name].
Proof.
  unfold writeLatencyHistogram. destruct (latencySnapshot h) as [[[buckets counts] sum] count].
  destruct (histogram_lines name (fun ub (_ : Z) => braces (labels ++ ["le=" +:+ quote (fmt_f ub)])) (fun _ c => itoa c)
    buckets counts (braces (labels ++ ["le=" +:+ quote "+Inf"])) (itoa count)
    (match labels with [] => EmptyString | _ => braces labels end) (fmt_g sum)
    (match labels with [] => EmptyString | _ => braces labels end) (itoa count)) as [Hg Hn].
  split; [exact Hg|]. cbn [headerNames omap list_omap]. f_equal. exact Hn.
Qed.

Lemma http_part m : part httpNames (writeHTTPMetrics m).
Proof.
  unfold writeHTTPMetrics. destruct (snapshot m) as [[[counts buckets] sum] count].
  apply (part_app [_] [_]); [split|].
  - cbn. induction (sortedEntries counts) as [|x l IH]; cbn; [done|].
    destruct (splitMetricKey x.1); cbn; auto.
  - cbn. apply sublist_skip.
    induction (sortedEntries counts) as [|x l IH]; cbn; [done|]. by destruct (splitMetricKey x.1).
  - set (cums := cumulate 0 buckets).
    destruct (histogram_lines "corec_http_request_duration_seconds"
      (fun ub (_ : Z) => braces ["le=" +:+ quote (fmt_f ub)]) (fun _ c => itoa c) defaultHTTPDurationBuckets cums
      (braces ["le=" +:+ quote "+Inf"]) (itoa (default 0 (cums !! length defaultHTTPDurationBuckets)))
      "" (fmt_g sum) "" (itoa count)) as [Hg Hn].
    split; [exact Hg|]. apply sublist_skip, reflexive_eq, Hn.
Qed.

(** A labelled family is declared once for each label. *)
Lemma labeled_part name help label snaps :
  grouped None (writeLabeledHistogram name help label snaps)
  /\ headerNames (writeLabeledHistogram name help label snaps) = replicate (size snaps) name.
Proof.
  unfold writeLabeledHistogram.
  assert (Hs : length (sortedEntries snaps) = size snaps) by (by rewrite sortedEntries_perm, length_map_to_list).
  rewrite <-Hs. clear Hs. induction (sortedEntries snaps) as [|x l [IHg IHn]]; [done|].
  destruct (latency_part name help [label_q label x.1] x.2) as [Hg Hn]. cbn [mbind list_bind length replicate].
  split; [by apply grouped_app|]. rewrite headerNames_app, Hn. cbn. f_equal. exact IHn.
Qed.

(** *** The driver's own families *)

Lemma metric_ltb_asym a b : metric_ltb a b = true -> metric_ltb b a = false.
Proof.
  unfold metric_ltb. repeat case_bool_decide; try congruence; apply string_ltb_asym.
Qed.

Lemma metric_ltb_name a b : metric_ltb b a = false -> String.ltb (me_Name b) (me_Name a) = false.
Proof.
  unfold metric_ltb. case_bool_decide as Hn; [done|]. rewrite Hn. intros _.
  apply string_ltb_irrefl.
Qed.

Lemma metric_ltb_neg_trans a b c : metric_ltb b a = false -> metric_ltb c b = false -> metric_ltb c a = false.
Proof.
  intros H1 H2. pose proof (metric_ltb_name _ _ H1) as N1. pose proof (metric_ltb_name _ _ H2) as N2.
  unfold metric_ltb in *. destruct (decide (me_Name c = me_Name a)) as [Hca|Hca].
  - assert (Hab : me_Name b = me_Name a) by (apply string_ltb_total; congruence).
    rewrite Hca, Hab in *. rewrite !bool_decide_false in * by (intros Hx; by apply Hx).
    by eapply string_ltb_neg_trans.
  - rewrite (bool_decide_true (me_Name c <> me_Name a)) by done. by eapply string_ltb_neg_trans.
Qed.

Lemma snapshot_sorted tie r :
  StronglySorted (fun a b => String.ltb (me_Name b) (me_Name a) = false) (metricsSnapshot tie r).
Proof.
  unfold metricsSnapshot.
  induction (stable_sort_ordered metric_ltb metric_ltb_asym metric_ltb_neg_trans
    (tie ((map_to_list (mr_counters r)).*2 ++ (map_to_list (mr_gauges r)).*2))) as [|x l Hl IH Hx]; constructor; [done|].
  eapply Forall_impl; [exact Hx|]. intros y. apply metric_ltb_name.
Qed.

Lemma driverSeries_grouped l f fam :
  (forall m, m ∈ l -> me_Name m <> EmptyString) ->
  (f <> EmptyString -> exists typ, fam = Some (f, typ)) ->
  grouped fam (driverSeries f l).
Proof.
  revert f fam. induction l as [|m l IH]; intros f fam Hne Hf; [done|].
  assert (Hm : me_Name m <> EmptyString) by (apply Hne; left).
  assert (Hl : forall x, x ∈ l -> me_Name x <> EmptyString) by (intros x Hx; apply Hne; by right).
  cbn [driverSeries]. case_bool_decide as Hn; cbn [app grouped driverSample].
  - split; [by left|]. apply IH; eauto.
  - rewrite Hn in *. destruct (Hf Hm) as [typ ->]. split; [by left|]. apply IH; eauto.
Qed.

Lemma driverSeries_names l f n : n ∈ headerNames (driverSeries f l) -> n ∈ me_Name <$> l.
Proof.
  revert f. induction l as [|m l IH]; intros f; [done|]. cbn [driverSeries]. rewrite headerNames_app, fmap_cons.
  case_bool_decide; cbn; rewrite ?elem_of_cons.
  - intros [->|Hn]; [by left|]. right. by eapply IH.
  - intros Hn. right. by eapply IH.
Qed.

Lemma driverSeries_once l f :
  StronglySorted (fun a b => String.ltb (me_Name b) (me_Name a) = false) l ->
  Forall (fun m => String.ltb (me_Name m) f = false) l ->
  NoDup (headerNames (driverSeries f l)) /\ f ∉ headerNames (driverSeries f l).
Proof.
  intros Hs. revert f. induction Hs as [|m l Hs IH Hm]; intros f Hf.
  - split; [constructor|]. apply not_elem_of_nil.
  - apply Forall_cons_1 in Hf as [Hfm Hfl]. cbn [driverSeries]. rewrite headerNames_app.
    case_bool_decide as Hn; cbn.
    + destruct (IH (me_Name m) Hm) as [Hnd Hni]. split; [by constructor|].
      rewrite elem_of_cons. intros [Heq|Hin]; [by subst f|].
      apply driverSeries_names, list_elem_of_fmap in Hin as (x & -> & Hx). rewrite Forall_forall in Hm, Hfl.
      apply Hn, string_ltb_total; [done|]. by apply Hm.
    + rewrite Hn. by apply IH.
Qed.

Lemma ltb_empty (s : string) : String.ltb s EmptyString = false.
Proof. by destruct s. Qed.

(** *** The whole page *)

Definition beforeNames : list string := totalsNames ++ driverNames ++ schedulerNames ++ transportNames ++ dropNames.
Definition afterNames : list string := queueNames ++ httpNames.

Definition before (now : Z) (e : promEngine) : list promLine :=
  writeEngineTotals (pe_stats e) (pe_logDropped e) ++ writeDriverMetrics now (es_DriverStats (pe_stats e))
  ++ writeSchedulerMetrics (pe_health e) ++ writeTransportMetrics (es_TransportStats (pe_stats e))
  ++ writeDroppedBreakdown (pe_breakdown e).

Definition after (e : promEngine) (m : httpMetrics) : list promLine :=
  writeOfflineBufferMetrics e ++ writeFlushBatchesDropped (pe_flushDropped e)
  ++ writeDeadLetterMetrics (pe_deadLetters e) ++ writeAlertMetrics (pe_alerts e) ++ writeHTTPMetrics m.

Lemma page_split now e m r :
  promPage now e m r
  = before now e ++ writeDriverEmittedMetrics (pe_driverMetrics e) ++ after e m ++ writeLatencyMetrics e
    ++ writeRuntimeMetrics r.
Proof. unfold promPage, before, after. by rewrite <-!app_assoc. Qed.

Lemma before_part now e : part beforeNames (before now e).
Proof.
  apply part_app; [apply totals_part|]. apply part_app; [apply driver_part|].
  apply part_app; [apply scheduler_part|]. apply part_app; [apply transport_part|apply drop_part].
Qed.

Lemma after_part e m : part afterNames (after e m).
Proof.
  unfold after. apply (part_app (take 5 queueNames)); [apply offline_part|].
  apply (part_app (take 1 (drop 5 queueNames))); [apply flush_part|].
  apply (part_app (take 2 (drop 6 queueNames))); [apply dead_part|].
  apply (part_app (drop 8 queueNames)); [apply alert_part|apply http_part].
Qed.

Definition corecNames : list string := beforeNames ++ afterNames ++ latencyNames ++ runtimeNames.

Lemma corecNames_nodup : NoDup corecNames.
Proof. apply (bool_decide_unpack _). vm_compute. done. Qed.

Lemma corecNames_prefix n : n ∈ corecNames -> String.prefix "corec_" n = true.
Proof.
  intros Hn. assert (Hf : List.forallb (String.prefix "corec_") corecNames = true) by (vm_compute; done).
  rewrite List.forallb_forall in Hf. by apply Hf, list_elem_of_In.
Qed.

(** Names a driver may give its metrics: not empty, and outside the namespace of
    the core. *)
Definition foreign (series : list Metric) : Prop :=
  forall x, x ∈ series -> me_Name x <> EmptyString /\ String.prefix "corec_" (me_Name x) = false.

Lemma page_nodup (b d a l r : list string) :
  sublist b beforeNames -> sublist a afterNames -> sublist l latencyNames -> sublist r runtimeNames ->
  NoDup d -> (forall n, n ∈ d -> String.prefix "corec_" n = false) ->
  NoDup (b ++ d ++ a ++ l ++ r).
Proof.
  intros Hb Ha Hl Hr Hd Hout.
  assert (Hs : sublist (b ++ a ++ l ++ r) corecNames) by (repeat apply sublist_app; done).
  assert (Hp : b ++ d ++ a ++ l ++ r ≡ₚ d ++ (b ++ a ++ l ++ r)) by solve_Permutation.
  rewrite Hp. apply NoDup_app. split_and!; [done| |eapply sublist_NoDup; [exact corecNames_nodup|exact Hs]].
  intros n Hn Hin. apply Hout in Hn. rewrite corecNames_prefix in Hn; [done|]. by eapply elem_of_sublist.
Qed.

Lemma replicate_sublist n (x : string) : (n <= 1)%nat -> sublist (replicate n x) [x].
Proof. destruct n as [|[|]]; [intros; apply sublist_nil_l|done|lia]. Qed.

Lemma nodup_replicate n (x : string) : NoDup (replicate n x) -> (n <= 1)%nat.
Proof.
  destruct n as [|[|n]]; [lia..|]. cbn. intros [Hni _]%NoDup_cons. destruct Hni. left.
Qed.

(** A page whose latency part is [l]. *)
Lemma page_wf now e m r tie reg :
  pe_driverMetrics e = Some (metricsSnapshot tie reg) -> foreign (metricsSnapshot tie reg) ->
  grouped None (writeLatencyMetrics e) -> sublist (headerNames (writeLatencyMetrics e)) latencyNames ->
  wf_page (promPage now e m r).
Proof.
  intros Hd Hf Hg Hn. rewrite page_split.
  destruct (before_part now e) as [Hbg Hbn], (after_part e m) as [Hag Han], (runtime_part r) as [Hrg Hrn].
  unfold writeDriverEmittedMetrics. rewrite Hd. cbn [default]. split.
  - rewrite !headerNames_app. apply page_nodup; try done.
    + apply driverSeries_once; [apply snapshot_sorted|]. apply Forall_forall. intros. apply ltb_empty.
    + intros n [x [-> Hx]]%driverSeries_names%list_elem_of_fmap. by apply Hf.
  - apply grouped_app; [exact Hbg|]. apply grouped_app; [|apply grouped_app; [exact Hag|by apply grouped_app]].
    apply driverSeries_grouped; [|done]. intros x Hx. by apply Hf.
Qed.

(** C36. The metrics page of an engine with labelled latencies is well formed,
    every family declared once and in front of its samples, exactly when none of
    the three latency families has two labels; the names drivers give their
    metrics are assumed to be outside the core's namespace.  With two drivers
    the page declares [corec_read_latency_seconds] twice. *)
Theorem page_well_formed now e m r tie reg l :
  pe_driverMetrics e = Some (metricsSnapshot tie reg) ->
  foreign (metricsSnapshot tie reg) ->
  pe_labeled e = Some l ->
  wf_page (promPage now e m r)
  <-> (size (ll_readByDriver l) <= 1 /\ size (ll_pubByTransport l) <= 1 /\ size (ll_ageByTransport l) <= 1)%nat.
Proof.
  intros Hd Hf Hl.
  assert (Hlat : exists h1 h2 h3, writeLatencyMetrics e
    = writeLabeledHistogram "corec_read_latency_seconds" h1 "driver" (ll_readByDriver l)
      ++ writeLabeledHistogram "corec_publish_latency_seconds" h2 "transport" (ll_pubByTransport l)
      ++ writeLabeledHistogram "corec_data_age_seconds" h3 "transport" (ll_ageByTransport l))
    by (unfold writeLatencyMetrics; rewrite Hl; eauto).
  destruct Hlat as (h1 & h2 & h3 & Hlat).
  destruct (labeled_part "corec_read_latency_seconds" h1 "driver" (ll_readByDriver l)) as [Hg1 Hn1].
  destruct (labeled_part "corec_publish_latency_seconds" h2 "transport" (ll_pubByTransport l)) as [Hg2 Hn2].
  destruct (labeled_part "corec_data_age_seconds" h3 "transport" (ll_ageByTransport l)) as [Hg3 Hn3].
  split.
  - intros [Hnd _]. rewrite page_split, !headerNames_app, Hlat, !headerNames_app, Hn1, Hn2, Hn3 in Hnd.
    rewrite !NoDup_app in Hnd. destruct Hnd as (_ & _ & _ & _ & _ & _ & (H1 & _ & H2 & _ & H3) & _).
    split_and!; by eapply nodup_replicate.
  - intros (H1 & H2 & H3). eapply page_wf; [done..| |]; rewrite Hlat.
    + by repeat apply grouped_app.
    + rewrite !headerNames_app, Hn1, Hn2, Hn3.
      apply (sublist_app _ [_] _ [_; _]); [by apply replicate_sublist|].
      apply (sublist_app _ [_] _ [_]); by apply replicate_sublist.
Qed.

(** An engine without labels has a well-formed page. *)
Lemma unlabeled_well_formed now e m r tie reg :
  pe_driverMetrics e = Some (metricsSnapshot tie reg) -> foreign (metricsSnapshot tie reg) ->
  pe_labeled e = None -> wf_page (promPage now e m r).
Proof.
  intros Hd Hf Hl.
  assert (Hone : forall n h lb x, part [n] (writeLatencyHistogram n h lb x)).
  { intros n h lb x. destruct (latency_part n h lb x) as [Hg Hn]. split; [done|by rewrite Hn]. }
  assert (Hp : part latencyNames (writeLatencyMetrics e)).
  { unfold writeLatencyMetrics. rewrite Hl. apply (part_app (take 2 latencyNames)).
    - destruct (pe_latency e) as [[rd pub]|]; [|apply part_nil]. apply (part_app [_] [_]); apply Hone.
    - destruct (pe_dataAge e); [apply Hone|apply part_nil]. }
  destruct Hp. by eapply page_wf.
Qed.
End shape.

(** ** Requests *)

Lemma cumulate_lookup acc l i n :
  cumulate acc l !! i = Some n -> u64 acc = acc -> n = u64 (acc + zsum (take (S i) l)).
Proof.
  assert (Hu : forall z, u64 (u64 z) = u64 z) by (intros z; pose proof (u64_add z 0) as Hz; by rewrite !Z.add_0_r in Hz).
  revert acc i. induction l as [|x l IH]; intros acc [|i] Hl Ha; try done; cbn in *.
  - injection Hl as <-. f_equal. rewrite take_0. cbn. lia.
  - rewrite (IH _ _ Hl) by apply Hu.
    rewrite u64_add. f_equal. unfold zsum. cbn. lia.
Qed.

Lemma observed_buckets l m : db_buckets (hm_durations (observe_all l m)) = db_buckets (hm_durations m).
Proof. unfold observe_all. revert m. induction l as [|o l IH]; intros m; cbn [foldl]; [done|]. by rewrite IH. Qed.

(** The [+Inf] bucket of the request histogram is its count: the number of
    requests served. *)
Lemma http_inf_is_count l :
  let m := observe_all l httpMetricsCollector in
  default 0 (cumulate 0 (db_counts (hm_durations m)) !! length defaultHTTPDurationBuckets)
  = db_count (hm_durations m).
Proof.
  intros m. destruct (metrics_exact l) as (Hc & Hs & Hl & _). fold m in Hc, Hs, Hl.
  assert (Hb : db_buckets (hm_durations m) = defaultHTTPDurationBuckets) by apply observed_buckets.
  rewrite Hb in Hl. rewrite Hc, <-Hs.
  assert (Hlen : forall acc k, length (cumulate acc k) = length k)
    by (intros acc k; revert acc; induction k as [|x k IH]; intros acc; cbn; auto).
  destruct (cumulate 0 (db_counts (hm_durations m)) !! length defaultHTTPDurationBuckets) as [n|] eqn:E.
  - apply cumulate_lookup in E; [|done]. cbn [default]. rewrite E, <-Hl, firstn_all. done.
  - apply lookup_ge_None in E. rewrite Hlen, Hl in E. lia.
Qed.

(** ** A run *)

Module ExpositionDemo.
(** The text of a number does not matter here: the shape of the page does not
    depend on it. *)
Definition plainText : FloatText := {| fmt_g := fun _ => "0"%string; fmt_f := fun _ => "0"%string |}.

Definition reg : MetricRegistry := IncCounter "modbus_reads_total" {["driver"%string := "plc1"%string]} NewRegistry.
Definition hist : LatencyHistogram := NewLatencyHistogram [f_zero].
Definition labeled (names : list string) : labeledLatencyStore :=
  mkLatencyStore hist hist hist (list_to_map ((fun n => (n, hist)) <$> names)) ∅ ∅.
Definition stats : EngineStats := mkEngineStats EngineStatusRunning 0 1 0 0 0 0 0 0 f_zero ∅ ∅.
Definition engine (names : list string) : promEngine :=
  mkPromEngine stats 0 None None (Some (metricsSnapshot id reg)) None None None None None None (Some (labeled names))
    None None.
Definition runtime : runtimeSamples := mkRuntime 1 0 0 0 0 0 0 0 ([], []) 1.

Lemma reg_foreign : foreign (metricsSnapshot id reg).
Proof.
  intros x Hx. assert (Hs : (fun m => me_Name m) <$> metricsSnapshot id reg = ["modbus_reads_total"%string])
    by (vm_compute; reflexivity).
  assert (Hn : me_Name x ∈ (fun m => me_Name m) <$> metricsSnapshot id reg)
    by (by apply (list_elem_of_fmap_2 (fun m => me_Name m))).
  rewrite Hs in Hn. clear Hs Hx. apply list_elem_of_singleton in Hn. rewrite Hn. split; [discriminate|reflexivity].
Qed.
End ExpositionDemo.

(** With one driver the page is well formed; with two it is not. *)
Lemma page_well_formed_witness :
  wf_page (promPage (H := ExpositionDemo.plainText) 0 (ExpositionDemo.engine ["plc1"%string]) httpMetricsCollector
             ExpositionDemo.runtime)
  /\ ~ wf_page (promPage (H := ExpositionDemo.plainText) 0 (ExpositionDemo.engine ["plc1"%string; "plc2"%string])
                  httpMetricsCollector ExpositionDemo.runtime).
Proof.
  split.
  - refine (proj2 (page_well_formed (H := ExpositionDemo.plainText) 0 (ExpositionDemo.engine ["plc1"%string])
      httpMetricsCollector ExpositionDemo.runtime id ExpositionDemo.reg (ExpositionDemo.labeled ["plc1"%string])
      eq_refl ExpositionDemo.reg_foreign eq_refl) _).
    split_and!; vm_compute; lia.
  - intros Hw.
    assert (Hsize := proj1 (proj1 (page_well_formed (H := ExpositionDemo.plainText) 0
      (ExpositionDemo.engine ["plc1"%string; "plc2"%string]) httpMetricsCollector ExpositionDemo.runtime id
      ExpositionDemo.reg (ExpositionDemo.labeled ["plc1"%string; "plc2"%string])
      eq_refl ExpositionDemo.reg_foreign eq_refl) Hw)).
    clear Hw. vm_compute in Hsize. lia.
Defined.
