(* ===== verification/Mcp.v ===== *)
(** * The agent adapter ([cmd/corec-mcp])

    A separate program that offers a running instance to agents: lines of
    JSON-RPC on its input, one authenticated request of the control-plane API
    for each tool call.  [D] is the state of the other side, and [client_do]
    what the HTTP client does with it; printing a floating-point number, the
    texts of decoding errors and the parsing of URLs are in the class [McpLib].

    The theorems show that without [-allow-write] nothing but reads and the dry
    run of a configuration is ever requested, whatever the input; that a request
    is answered once, under its own id; and what a tool call requests. *)

From Stdlib Require Import ZArith Lia String Ascii.
From stdpp Require Import base list gmap strings.
From S2P Require Import Prelude GoFloat Types JsonText Json JsonDecode JsonValue CommandJson Net Http.

Open Scope Z_scope.

Definition protoVersion : string := "2025-06-18".
Definition serverName : string := "corec".
Definition serverVersion : string := "1.0.0".

Definition codeParseError : Z := -32700.
Definition codeInvalidRequest : Z := -32600.
Definition codeMethodNotFound : Z := -32601.
Definition codeInvalidParams : Z := -32602.

Record mcpServer := mkServer {
  ms_base : string;
  ms_secret : string;
  ms_write : bool;
}.

(** ** The client *)

Record clientRequest := mkClientRequest {
  cr_Method : string;
  cr_URL : string;
  cr_Header : gmap string string;
  cr_Body : string;
}.

Inductive clientAnswer :=
| Refused (err : error)                       (* no response *)
| Broken (err : error)                        (* the body could not be read *)
| Answered (status : Z) (body : string).

Class McpLib (D : Type) := {
  client_do : clientRequest -> D -> D * clientAnswer;
  newRequest_error : string -> option error;  (* of a URL that does not parse *)
  json_float : float -> string;
  parse_error : string -> string;
  args_error : json -> string;
}.

(** [http.StatusText]. *)
Definition StatusText (code : Z) : string :=
  match code with
  | 100 => "Continue" | 101 => "Switching Protocols" | 102 => "Processing" | 103 => "Early Hints"
  | 200 => "OK" | 201 => "Created" | 202 => "Accepted" | 203 => "Non-Authoritative Information"
  | 204 => "No Content" | 205 => "Reset Content" | 206 => "Partial Content" | 207 => "Multi-Status"
  | 208 => "Already Reported" | 226 => "IM Used"
  | 300 => "Multiple Choices" | 301 => "Moved Permanently" | 302 => "Found" | 303 => "See Other"
  | 304 => "Not Modified" | 305 => "Use Proxy" | 307 => "Temporary Redirect" | 308 => "Permanent Redirect"
  | 400 => "Bad Request" | 401 => "Unauthorized" | 402 => "Payment Required" | 403 => "Forbidden"
  | 404 => "Not Found" | 405 => "Method Not Allowed" | 406 => "Not Acceptable"
  | 407 => "Proxy Authentication Required" | 408 => "Request Timeout" | 409 => "Conflict" | 410 => "Gone"
  | 411 => "Length Required" | 412 => "Precondition Failed" | 413 => "Request Entity Too Large"
  | 414 => "Request URI Too Long" | 415 => "Unsupported Media Type" | 416 => "Requested Range Not Satisfiable"
  | 417 => "Expectation Failed" | 418 => "I'm a teapot" | 421 => "Misdirected Request"
  | 422 => "Unprocessable Entity" | 423 => "Locked" | 424 => "Failed Dependency" | 425 => "Too Early"
  | 426 => "Upgrade Required" | 428 => "Precondition Required" | 429 => "Too Many Requests"
  | 431 => "Request Header Fields Too Large" | 451 => "Unavailable For Legal Reasons"
  | 500 => "Internal Server Error" | 501 => "Not Implemented" | 502 => "Bad Gateway"
  | 503 => "Service Unavailable" | 504 => "Gateway Timeout" | 505 => "HTTP Version Not Supported"
  | 506 => "Variant Also Negotiates" | 507 => "Insufficient Storage" | 508 => "Loop Detected"
  | 510 => "Not Extended" | 511 => "Network Authentication Required"
  | _ => ""
  end.

(** The bytes [url.PathEscape] leaves, besides those of [url_safe]. *)
Definition path_safe (c : ascii) : bool :=
  url_safe c || List.existsb (Ascii.eqb c) ["$"; "&"; "+"; ":"; "="; "@"]%char.

Fixpoint PathEscape (s : string) : string :=
  match s with
  | EmptyString => EmptyString
  | String c t =>
      (if path_safe c then String c EmptyString
       else String "%" (String (hex_upper (byte c / 16)) (String (hex_upper (byte c mod 16)) EmptyString)))
      +:+ PathEscape t
  end.

Definition withQuery (q : gmap string (list string)) : string :=
  if decide (q = ∅) then EmptyString else "?" +:+ Encode q.

(** [strings.TrimRight] with a slash. *)
Fixpoint trim_slashes (s : string) : string :=
  match s with
  | EmptyString => EmptyString
  | String c t =>
      match trim_slashes t with
      | EmptyString => if bool_decide (c = "/"%char) then EmptyString else String c EmptyString
      | t' => String c t'
      end
  end.

(** ** The program *)

Record mcpFlags := mkFlags {
  mf_url : string;
  mf_secret : string;
  mf_envSecret : string;
  mf_allowWrite : bool;
}.

(** [main] up to the loop; [parsed] is the scheme and host of the URL. *)
Definition configure (parsed : option (string * string)) (f : mcpFlags) : string + mcpServer :=
  if decide (mf_url f = EmptyString) then inl "corec-mcp: -url is required (e.g. http://127.0.0.1:8080)"%string
  else
    match parsed with
    | Some (scheme, host) =>
        if decide (scheme = EmptyString \/ host = EmptyString)
        then inl ("corec-mcp: invalid -url " +:+ quote (mf_url f) +:+ " (want scheme://host:port)")
        else
          let key := if decide (mf_secret f = EmptyString) then mf_envSecret f else mf_secret f in
          if decide (key = EmptyString)
          then inl "corec-mcp: no API secret: pass -secret or set COREC_API_SECRET"%string
          else inr (mkServer (trim_slashes (mf_url f)) key (mf_allowWrite f))
    | None => inl ("corec-mcp: invalid -url " +:+ quote (mf_url f) +:+ " (want scheme://host:port)")
    end.

(** ** Tools *)

Definition jstr (s : string) : json := JStr (esc s).

(** The members of a map are given in the order of their names; no properties
    are a nil map. *)
Definition obj (props : option (list (string * json))) (required : list string) : json :=
  JObj ([("properties"%string, match props with Some l => JObj l | None => JNull end)]
        ++ (if decide (required = []) then [] else [("required"%string, JArr (jstr <$> required))])
        ++ [("type"%string, jstr "object")]).

Definition strProp (desc : string) : json :=
  JObj [("description"%string, jstr desc); ("type"%string, jstr "string")].

Record toolDef := mkTool {
  td_name : string;
  td_description : string;
  td_schema : option json;
  td_write : bool;
}.

Definition readTools : list toolDef := [
  mkTool "list_drivers"
    "List every configured southbound driver with its type, connection state and tag count." None false;
  mkTool "driver_status"
    "Report one driver's status, including whether collection is paused and its scheduler health."
    (Some (obj (Some [("name"%string, strProp "driver name")]) ["name"%string])) false;
  mkTool "list_tags"
    "List the latest collected values (value, type, quality, timestamp) of configured points, optionally filtered by driver or tag name substring."
    (Some (obj (Some [("driver"%string, strProp "optional driver name to filter by");
                      ("tag"%string, strProp "optional tag name substring to filter by")]) [])) false;
  mkTool "read_tag" "Return the latest cached value of one point on one driver."
    (Some (obj (Some [("driver"%string, strProp "driver name"); ("tag"%string, strProp "tag (point) name")])
             ["driver"; "tag"]%string)) false;
  mkTool "list_alerts"
    "List active alerts with their key, message, occurrence count and acknowledgement state, optionally filtered by driver."
    (Some (obj (Some [("driver"%string, strProp "optional driver name to filter by")]) [])) false;
  mkTool "list_paused_drivers" "List drivers whose collection is currently paused." None false;
  mkTool "get_configs"
    "Read the running configuration as YAML text (GET /configs/raw). Read-only: applying a change is not exposed here."
    None false;
  mkTool "validate_configs"
    "Dry-run a candidate configuration against CoreC's validator without applying it (POST /configs/validate). Reports valid/invalid plus the server's own error message."
    (Some (obj (Some [("payload"%string, strProp "full configuration as YAML text")]) ["payload"%string])) false].

Definition writeTools : list toolDef := [
  mkTool "write_tag"
    "Write a value to a point. The engine enforces per-tag write protection and device write pacing: a read-only point, or a write inside the pacing window, is refused with the reason rather than queued."
    (Some (obj (Some [("driver"%string, strProp "driver name");
       ("raw"%string, JObj [("description"%string, jstr "optional: skip scale/offset inversion and write the raw device value");
                            ("type"%string, jstr "boolean")]);
       ("tag"%string, strProp "tag (point) name");
       ("type"%string, strProp "data type: bool, int8, int16, int32, int64, uint8, uint16, uint32, uint64, float32, float64, string, bytes");
       ("value"%string, JObj [("description"%string, jstr "value to write, matching the declared type")])])
       ["driver"; "tag"; "type"; "value"]%string)) true;
  mkTool "pause_driver"
    "Pause a driver's collection. The connection is kept; no data points are produced until resumed."
    (Some (obj (Some [("name"%string, strProp "driver name")]) ["name"%string])) true;
  mkTool "resume_driver" "Resume a paused driver's collection."
    (Some (obj (Some [("name"%string, strProp "driver name")]) ["name"%string])) true;
  mkTool "ack_alert"
    "Acknowledge an active alert by key (the key is returned by list_alerts). Acknowledgement does not clear it; only silence for the active window does."
    (Some (obj (Some [("key"%string, strProp "alert key")]) ["key"%string])) true].

Definition toolDefs (s : mcpServer) : list toolDef := readTools ++ if ms_write s then writeTools else [].

(** A tool as it is listed. *)
Definition toolJSON (t : toolDef) : json :=
  JObj [("description"%string, jstr (td_description t)); ("inputSchema"%string, default (obj None []) (td_schema t));
        ("name"%string, jstr (td_name t))].

Definition hasTool (s : mcpServer) (name : string) : bool :=
  List.existsb (fun t => bool_decide (td_name t = name)) (toolDefs s).

Section adapter.
Context {D : Type} `{McpLib D}.
Implicit Types s : mcpServer.
Implicit Types x : D.

(** A decoded value as it is marshalled again: numbers have become
    floating-point numbers, the members of objects are in the order of their
    keys. *)
Fixpoint any_json (v : json) : json :=
  match v with
  | JNum l => JNum (match parse_number F64 l with Some f => json_float f | None => l end)
  | JStr b => JStr (esc (unq b))
  | JArr l => JArr (List.map any_json l)
  | JObj l =>
      JObj ((fun kv => (esc kv.1, kv.2))
            <$> sorted_members (list_to_map (reverse (List.map (fun kv => (unq kv.1, any_json kv.2)) l))))
  | _ => v
  end.

Definition argStr (args : gmap string json) (key : string) : string :=
  match args !! key with
  | None | Some JNull => EmptyString
  | Some (JStr b) => unq b
  | Some v => print (any_json v)
  end.

(** *** Requests *)

(** Text and whether it is an error. *)
Notation outcome := (string * bool)%type.

Definition maxBody : Z := 8388608.

(** [io.LimitReader]. *)
Fixpoint limit (n : Z) (t : string) : string :=
  match t with
  | EmptyString => EmptyString
  | String c t => if decide (n <= 0) then EmptyString else String c (limit (n - 1) t)
  end.

Definition do_ s (r : clientRequest) x : D * outcome :=
  let r := mkClientRequest (cr_Method r) (cr_URL r)
             (<["Authorization"%string := ("Bearer " +:+ ms_secret s)%string]> (cr_Header r)) (cr_Body r) in
  match client_do r x with
  | (x, Refused e) => (x, ("request failed: " +:+ error_text e, true))
  | (x, Broken e) => (x, ("read response failed: " +:+ error_text e, true))
  | (x, Answered status body) =>
      let text := TrimSpace (limit maxBody body) in
      let text := if decide (text = EmptyString) then "(empty body)"%string else text in
      if decide (status < 200 \/ status > 299)
      then (x, ("HTTP " +:+ itoa status +:+ " " +:+ StatusText status +:+ ": " +:+ text, true))
      else (x, (text, false))
  end.

Definition send s (r : clientRequest) x : D * outcome :=
  match newRequest_error (cr_URL r) with
  | Some e => (x, (error_text e, true))
  | None => do_ s r x
  end.

Definition get s (path : string) : D -> D * outcome :=
  send s (mkClientRequest "GET" (ms_base s +:+ path) ∅ "").

Definition getRaw s (path accept : string) : D -> D * outcome :=
  send s (mkClientRequest "GET" (ms_base s +:+ path) {["Accept"%string := accept]} "").

Definition post s (path : string) (body : option (gmap string json)) : D -> D * outcome :=
  match body with
  | None => send s (mkClientRequest "POST" (ms_base s +:+ path) ∅ "")
  | Some m => send s (mkClientRequest "POST" (ms_base s +:+ path)
                {["Content-Type"%string := "application/json"%string]} (marshal_map (Some m)))
  end.

(** *** Tools *)

(** The [tags] of an answer; decoding a member into a map adds to it. *)
Definition tags_of (v : json) : option (option (gmap string json)) :=
  decode_struct ["tags"%string]
    (fun _ v old =>
       match v with
       | JNull => Some None
       | JObj l => if any_ok v then Some (Some (obj_map l ∪ default ∅ old)) else None
       | _ => None
       end) v None.

Definition exactTag (raw driver tag : string) : string :=
  match parse raw ≫= tags_of with
  | Some (Some tags) =>
      match tags !! tag with
      | None => raw
      | Some want =>
          let other := match want with
                       | JObj m => match obj_map m !! "driver"%string with
                                   | Some (JStr b) => bool_decide (unq b <> EmptyString) && bool_decide (unq b <> driver)
                                   | _ => false
                                   end
                       | _ => false
                       end in
          if other then raw else print (JObj [("tags"%string, JObj [(esc tag, any_json want)])])
      end
  | _ => raw
  end.

Definition setQuery (k v : string) (q : gmap string (list string)) : gmap string (list string) :=
  if decide (v = EmptyString) then q else <[k := [v]]> q.

Definition callConfig s (name : string) (args : gmap string json) x : D * outcome :=
  if bool_decide (name = "get_configs"%string) then getRaw s "/configs/raw" "application/yaml" x
  else if bool_decide (name = "validate_configs"%string) then
    let payload := argStr args "payload" in
    if decide (payload = EmptyString) then (x, ("validate_configs requires a non-empty payload"%string, true))
    else
      let '(x, (text, bad)) := post s "/configs/validate" (Some {["payload"%string := jstr payload]}) x in
      (x, (text, bad && negb (String.prefix "HTTP 400" text)))
  else (x, ("unknown tool " +:+ name, true)).

Definition writeBody (args : gmap string json) : gmap string json :=
  let body := <["driver"%string := jstr (argStr args "driver")]> (<["tag"%string := jstr (argStr args "tag")]>
    (<["type"%string := jstr (argStr args "type")]>
    {["value"%string := match args !! "value"%string with Some v => any_json v | None => JNull end]})) in
  match args !! "raw"%string with Some (JBool b) => <["raw"%string := JBool b]> body | _ => body end.

Definition callTool s (name : string) (args : gmap string json) x : D * outcome :=
  let named n := bool_decide (name = n) in
  if named "list_drivers"%string then get s "/drivers" x
  else if named "driver_status"%string then get s ("/drivers/" +:+ PathEscape (argStr args "name")) x
  else if named "list_tags"%string then
    get s ("/tags" +:+ withQuery (setQuery "tag" (argStr args "tag") (setQuery "driver" (argStr args "driver") ∅))) x
  else if named "read_tag"%string then
    let driver := argStr args "driver" in
    let tag := argStr args "tag" in
    if decide (driver = EmptyString \/ tag = EmptyString)
    then (x, ("read_tag requires non-empty driver and tag"%string, true))
    else
      match get s ("/tags" +:+ withQuery (<["tag"%string := [tag]]> {["driver"%string := [driver]]})) x with
      | (x, (text, true)) => (x, (text, true))
      | (x, (text, false)) => (x, (exactTag text driver tag, false))
      end
  else if named "list_alerts"%string then get s ("/alerts" +:+ withQuery (setQuery "driver" (argStr args "driver") ∅)) x
  else if named "list_paused_drivers"%string then get s "/drivers/paused" x
  else if named "get_configs"%string || named "validate_configs"%string then callConfig s name args x
  else if named "write_tag"%string then post s "/write" (Some (writeBody args)) x
  else if named "pause_driver"%string then post s ("/drivers/" +:+ PathEscape (argStr args "name") +:+ "/pause") None x
  else if named "resume_driver"%string then post s ("/drivers/" +:+ PathEscape (argStr args "name") +:+ "/resume") None x
  else if named "ack_alert"%string then post s "/alerts/ack" (Some {["key"%string := jstr (argStr args "key")]}) x
  else (x, ("unknown tool " +:+ name, true)).

(** ** JSON-RPC *)

Record rpcRequest := mkRpc {
  rp_JSONRPC : string;
  rp_ID : option json;
  rp_Method : string;
  rp_Params : option json;
}.

Definition rpc_decode (v : json) : option rpcRequest :=
  decode_struct ["jsonrpc"; "id"; "method"; "params"]%string
    (fun f v r =>
       if bool_decide (f = "jsonrpc"%string) then
         (fun t => mkRpc t (rp_ID r) (rp_Method r) (rp_Params r)) <$> set_string v (rp_JSONRPC r)
       else if bool_decide (f = "id"%string) then Some (mkRpc (rp_JSONRPC r) (Some v) (rp_Method r) (rp_Params r))
       else if bool_decide (f = "method"%string) then
         (fun t => mkRpc (rp_JSONRPC r) (rp_ID r) t (rp_Params r)) <$> set_string v (rp_Method r)
       else Some (mkRpc (rp_JSONRPC r) (rp_ID r) (rp_Method r) (Some v)))
    v (mkRpc "" None "" None).

Record rpcResponse := mkRpcResponse {
  rr_ID : option json;
  rr_Result : json + (Z * string);   (* a result, or the code and text of an error *)
}.

Definition ok (id : option json) (result : json) : rpcResponse := mkRpcResponse id (inl result).
Definition fail (id : option json) (code : Z) (msg : string) : rpcResponse := mkRpcResponse id (inr (code, msg)).

(** The line that is written. *)
Definition responseText (r : rpcResponse) : string :=
  print (JObj ([("jsonrpc"%string, jstr "2.0")]
    ++ match rr_ID r with Some v => [("id"%string, hescape v)] | None => [] end
    ++ match rr_Result r with
       | inl v => [("result"%string, v)]
       | inr (code, msg) => [("error"%string, JObj [("code"%string, JNum (itoa code)); ("message"%string, jstr msg)])]
       end)).

Definition initializeResult (version : string) : json :=
  JObj [("capabilities"%string, JObj [("tools"%string, JObj [])]); ("protocolVersion"%string, jstr version);
        ("serverInfo"%string, JObj [("name"%string, jstr serverName); ("version"%string, jstr serverVersion)])].

(** The name and the raw arguments of a call. *)
Definition call_decode (v : json) : option (string * option json) :=
  decode_struct ["name"; "arguments"]%string
    (fun f v p => if bool_decide (f = "name"%string) then (fun n => (n, p.2)) <$> set_string v p.1
                  else Some (p.1, Some v)) v (EmptyString, None).

Definition args_decode (a : option json) : option (gmap string json) :=
  match a with
  | None | Some JNull => Some ∅
  | Some (JObj l) => if any_ok (JObj l) then Some (obj_map l) else None
  | Some _ => None
  end.

Definition toolResult (o : outcome) : json :=
  JObj ([("content"%string, JArr [JObj [("text"%string, jstr o.1); ("type"%string, jstr "text")]])]
        ++ if o.2 then [("isError"%string, JBool true)] else []).

Definition handleToolCall s (req : rpcRequest) x : D * rpcResponse :=
  match rp_Params req ≫= call_decode with
  | None => (x, fail (rp_ID req) codeInvalidParams "tools/call requires name and arguments")
  | Some (name, raw) =>
      if decide (name = EmptyString) then (x, fail (rp_ID req) codeInvalidParams "tools/call requires name and arguments")
      else
        match args_decode raw with
        | None => (x, fail (rp_ID req) codeInvalidParams
                        ("arguments must be an object: " +:+ args_error (default JNull raw)))
        | Some args =>
            if hasTool s name then
              let '(x, o) := callTool s name args x in (x, ok (rp_ID req) (toolResult o))
            else (x, fail (rp_ID req) codeInvalidParams ("unknown tool " +:+ quote name))
        end
  end.

Definition handleLine s (line : string) x : D * option rpcResponse :=
  match parse line ≫= rpc_decode with
  | None => (x, Some (fail None codeParseError ("parse error: " +:+ parse_error line)))
  | Some req =>
      let m := rp_Method req in
      let named n := bool_decide (m = n) in
      let rid := rp_ID req in
      if decide (rp_JSONRPC req <> EmptyString /\ rp_JSONRPC req <> "2.0"%string)
      then (x, Some (fail rid codeInvalidRequest ("jsonrpc must be " +:+ quote "2.0")))
      else if decide (m = EmptyString) then (x, Some (fail rid codeInvalidRequest "method is required"))
      else if named "initialize"%string then (x, Some (ok rid (initializeResult protoVersion)))
      else if named "notifications/initialized"%string || named "initialized"%string || named "notifications/cancelled"%string
      then (x, None)
      else if named "ping"%string then (x, Some (ok rid (JObj [])))
      else if named "tools/list"%string
      then (x, Some (ok rid (JObj [("tools"%string, JArr (toolJSON <$> toolDefs s))])))
      else if named "tools/call"%string then let '(x, r) := handleToolCall s req x in (x, Some r)
      else if named "resources/list"%string then (x, Some (ok rid (JObj [("resources"%string, JArr [])])))
      else if named "prompts/list"%string then (x, Some (ok rid (JObj [("prompts"%string, JArr [])])))
      else (x, Some (fail rid codeMethodNotFound ("method not found: " +:+ m)))
  end.

(** The longest line the scanner takes, with its end. *)
Definition maxLine : Z := 4194304.

(** [serve]: the lines written, and whether the input ended well. *)
Fixpoint serve s (lines : list string) x (out : list string) : D * list string * bool :=
  match lines with
  | [] => (x, out, true)
  | line :: lines =>
      if decide (maxLine <= Z.of_nat (String.length line)) then (x, out, false)
      else
        let line := TrimSpace line in
        if decide (line = EmptyString) then serve s lines x out
        else
          let '(x, r) := handleLine s line x in
          serve s lines x (out ++ match r with Some r => [responseText r] | None => [] end)
  end.

(** ** Without -allow-write *)

(** What a read-only adapter may send: an authenticated read, or the dry run of
    a configuration. *)
Definition read_request s (r : clientRequest) : Prop :=
  cr_Header r !! "Authorization"%string = Some ("Bearer " +:+ ms_secret s)%string
  /\ (cr_Method r = "GET"%string /\ (exists path, cr_URL r = ms_base s +:+ path)
      \/ cr_Method r = "POST"%string /\ cr_URL r = ms_base s +:+ "/configs/validate").

Section read_only.
Variable (s : mcpServer) (I : D -> Prop).
Hypothesis client_keeps : forall r x, read_request s r -> I x -> I (client_do r x).1.

Lemma send_keeps r x :
  cr_Method r = "GET"%string /\ (exists path, cr_URL r = ms_base s +:+ path)
  \/ cr_Method r = "POST"%string /\ cr_URL r = ms_base s +:+ "/configs/validate" ->
  I x -> I (send s r x).1.
Proof.
  intros Hr Hx. unfold send. destruct (newRequest_error _); [done|]. unfold do_.
  set (r' := mkClientRequest _ _ _ _).
  assert (Hk : I (client_do r' x).1).
  { apply client_keeps; [|done]. split; [apply lookup_insert_eq|exact Hr]. }
  destruct (client_do r' x) as [x' [e|e|st b]]; cbn in *; [done..|]. by destruct (decide _).
Qed.

Lemma get_keeps path x : I x -> I (get s path x).1.
Proof. apply send_keeps. left. cbn. eauto. Qed.

Lemma callConfig_keeps name args x : I x -> I (callConfig s name args x).1.
Proof.
  intros Hx. unfold callConfig. case_bool_decide; [apply send_keeps; [left; cbn; eauto|done]|].
  case_bool_decide; [|done]. destruct (decide _); [done|].
  pose proof (send_keeps (mkClientRequest "POST" (ms_base s +:+ "/configs/validate")
    {["Content-Type"%string := "application/json"%string]}
    (marshal_map (Some {["payload"%string := jstr (argStr args "payload")]}))) x) as Hk.
  cbn [post]. destruct (send s _ x) as [x' [text bad]]. cbn in *. apply Hk; [by right|done].
Qed.

Lemma hasTool_read name :
  ms_write s = false -> hasTool s name = true -> name ∈ td_name <$> readTools.
Proof.
  intros Hw. unfold hasTool, toolDefs. rewrite Hw, app_nil_r. intros (t & Ht & Hn)%List.existsb_exists.
  apply bool_decide_eq_true in Hn as <-. apply list_elem_of_fmap_2. by apply list_elem_of_In.
Qed.

Lemma callTool_keeps name args x : name ∈ td_name <$> readTools -> I x -> I (callTool s name args x).1.
Proof.
  intros Hn Hx. cbn in Hn. repeat (apply elem_of_cons in Hn as [->|Hn]); [..|by apply elem_of_nil in Hn];
    try (by apply get_keeps); try (by apply callConfig_keeps).
  change (I (callTool s "read_tag" args x).1). unfold callTool. cbn [bool_decide].
  destruct (decide (argStr args "driver" = EmptyString \/ argStr args "tag" = EmptyString)); [done|].
  pose proof (get_keeps ("/tags" +:+ withQuery (<["tag"%string := [argStr args "tag"]]>
    {["driver"%string := [argStr args "driver"]]})) x Hx) as Hk.
  destruct (get s _ x) as [x' [text []]]; exact Hk.
Qed.

Lemma handleLine_keeps line x : ms_write s = false -> I x -> I (handleLine s line x).1.
Proof.
  intros Hw Hx. unfold handleLine. destruct (_ ≫= _) as [req|]; [|done].
  repeat (destruct (decide _); [done|]). do 4 (case_bool_decide; [done|]). cbn [orb].
  do 2 (case_bool_decide; [done|]). case_bool_decide; [|by repeat case_bool_decide].
  unfold handleToolCall. destruct (_ ≫= _) as [[name raw]|]; [|done]. destruct (decide _); [done|].
  destruct (args_decode raw) as [args|]; [|done]. destruct (hasTool s name) eqn:Ht; [|done].
  pose proof (callTool_keeps name args x (hasTool_read _ Hw Ht) Hx) as Hk.
  by destruct (callTool s name args x).
Qed.
End read_only.

(** C16. An adapter started without [-allow-write] only ever reads: whatever lines
    it is sent, every request it makes is an authenticated GET below the
    configured URL or the dry run of a configuration, so any property of the
    other side these requests keep is kept. *)
Theorem mcp_read_only s (I : D -> Prop) lines x out :
  ms_write s = false ->
  (forall r y, read_request s r -> I y -> I (client_do r y).1) ->
  I x -> I (serve s lines x out).1.1.
Proof.
  intros Hw Hc. revert x out. induction lines as [|line lines IH]; intros x out Hx; [done|].
  cbn [serve]. destruct (decide _); [done|]. destruct (decide _); [by apply IH|].
  pose proof (handleLine_keeps s I Hc (TrimSpace line) x Hw Hx) as Hk.
  destruct (handleLine s (TrimSpace line) x) as [x' r]. by apply IH.
Qed.

(** ** One answer for each request *)

Definition silent (method : string) : bool :=
  bool_decide (method = "notifications/initialized"%string) || bool_decide (method = "initialized"%string)
  || bool_decide (method = "notifications/cancelled"%string).

(** A request is answered under its own id, and the three notifications the
    adapter knows are not answered. *)
Lemma answered s line x v req :
  parse line = Some v -> rpc_decode v = Some req ->
  match (handleLine s line x).2 with
  | Some r => rr_ID r = rp_ID req
  | None => silent (rp_Method req) = true
  end.
Proof.
  intros Hp Hd. unfold handleLine. rewrite Hp. cbn [mbind option_bind]. rewrite Hd. unfold silent.
  repeat (destruct (decide _); [done|]). do 4 (case_bool_decide; [done|]). cbn [orb].
  do 2 (case_bool_decide; [done|]). case_bool_decide; [|by repeat case_bool_decide].
  unfold handleToolCall. destruct (_ ≫= _) as [[name raw]|]; [|done]. destruct (decide _); [done|].
  destruct (args_decode raw) as [args|]; [|done]. destruct (hasTool s name); [|done].
  by destruct (callTool s name args x).
Qed.

(** ** What a write asks for *)

Lemma sorted_write (a b c v : json) :
  sorted_members (<["driver"%string := a]> (<["tag"%string := b]> (<["type"%string := c]> {["value"%string := v]})))
  = [("driver"%string, a); ("tag"%string, b); ("type"%string, c); ("value"%string, v)].
Proof. vm_compute. reflexivity. Qed.

Lemma sorted_write_raw (a b c v r : json) :
  sorted_members (<["raw"%string := r]> (<["driver"%string := a]> (<["tag"%string := b]> (<["type"%string := c]>
    {["value"%string := v]}))))
  = [("driver"%string, a); ("raw"%string, r); ("tag"%string, b); ("type"%string, c); ("value"%string, v)].
Proof. vm_compute. reflexivity. Qed.

(** The members of the body. *)
Definition writeMembers (args : gmap string json) (v : json) : list (string * json) :=
  [("driver"%string, jstr (argStr args "driver"))]
  ++ match args !! "raw"%string with Some (JBool b) => [("raw"%string, JBool b)] | _ => [] end
  ++ [("tag"%string, jstr (argStr args "tag")); ("type"%string, jstr (argStr args "type")); ("value"%string, v)].

Lemma hescape_jstr t : hescape (jstr t) = jstr t.
Proof. unfold jstr. cbn. by rewrite hesc_esc. Qed.

Lemma writeBody_json args v :
  args !! "value"%string = Some v -> map_json (writeBody args) = JObj (writeMembers args (hescape (any_json v))).
Proof.
  intros Hv. unfold writeBody, writeMembers, map_json. rewrite Hv.
  destruct (args !! "raw"%string) as [[|b| | | |]|]; rewrite ?sorted_write, ?sorted_write_raw; cbn [fmap list_fmap app fst snd];
    rewrite ?hescape_jstr; done.
Qed.

Definition rawArg (args : gmap string json) : bool :=
  match args !! "raw"%string with Some (JBool b) => b | _ => false end.

Lemma writeMembers_decode args v y ty :
  utf8 (argStr args "driver") -> utf8 (argStr args "tag") -> utf8 (argStr args "type") ->
  ParseDataType (argStr args "type") = (ty, true) -> any_value v = Some y ->
  decode_members cmd_fields cmd_set (writeMembers args v) cmd_zero
  = Some (mkWriteCommand (argStr args "driver") "" (argStr args "tag") y ty "" "" (rawArg args)).
Proof.
  intros Hd Ht Hy Hty Hv. unfold writeMembers, rawArg, cmd_zero. cbn [app].
  erewrite decode_members_field;
    [|vm_compute; reflexivity|cmd_set_simpl; unfold jstr; cbn [set_string]; rewrite (unq_esc _ Hd); reflexivity].
  assert (Htail : forall r,
    decode_members cmd_fields cmd_set [("tag"%string, jstr (argStr args "tag")); ("type"%string, jstr (argStr args "type"));
      ("value"%string, v)] (mkWriteCommand (argStr args "driver") "" "" VNil TypeBool "" "" r)
    = Some (mkWriteCommand (argStr args "driver") "" (argStr args "tag") y ty "" "" r)).
  { intros r.
    erewrite decode_members_field;
      [|vm_compute; reflexivity|cmd_set_simpl; unfold jstr; cbn [set_string]; rewrite (unq_esc _ Ht); reflexivity].
    erewrite decode_members_field;
      [|vm_compute; reflexivity|cmd_set_simpl; unfold jstr; cbn [DataType_UnmarshalJSON]; rewrite (unq_esc _ Hy), Hty; reflexivity].
    erewrite decode_members_field; [|vm_compute; reflexivity|cmd_set_simpl; rewrite Hv; reflexivity].
    done. }
  destruct (args !! "raw"%string) as [[|b| | | |]|]; cbn [app]; apply Htail.
Qed.

Lemma writeMembers_value args v :
  decode_members ["value"%string] (fun _ v _ => Some (Some v)) (writeMembers args v) None = Some (Some v).
Proof. unfold writeMembers. by destruct (args !! "raw"%string) as [[]|]. Qed.

(** C19. The tool [write_tag] makes one request, a POST of the API's write
    endpoint, and the command the API decodes from its body is the one the call
    asked for: its driver, tag, type and raw flag, and its value as it is after
    a number has become a floating-point number. *)
Theorem write_tag_command s args v ty x :
  args !! "value"%string = Some v ->
  wf (any_json v) -> nesting (any_json v) < maxNestingDepth -> any_ok (hescape (any_json v)) = true ->
  utf8 (argStr args "driver") -> utf8 (argStr args "tag") -> utf8 (argStr args "type") ->
  ParseDataType (argStr args "type") = (ty, true) ->
  exists body,
    callTool s "write_tag" args x
    = send s (mkClientRequest "POST" (ms_base s +:+ "/write") {["Content-Type"%string := "application/json"%string]} body) x
    /\ unmarshal_cmd body
       = Some (mkWriteCommand (argStr args "driver") "" (argStr args "tag")
                 (decodeValueByType (print (hescape (any_json v))) ty) ty "" "" (rawArg args)).
Proof.
  intros Hv Hwf Hn Hok Hd Ht Hy Hty. exists (marshal_map (Some (writeBody args))). split; [reflexivity|].
  destruct (any_value_ok _ Hok) as [y Hval]. unfold unmarshal_cmd, marshal_map.
  rewrite parse_print; [|rewrite (writeBody_json args v Hv)..].
  - rewrite (writeBody_json args v Hv). unfold WriteCommand_UnmarshalJSON, probeRawValue. cbn [decode_struct].
    rewrite (writeMembers_decode args _ y ty), writeMembers_value by done. done.
  - apply wf_obj. unfold writeMembers.
    assert (Hj : forall t, wf (jstr t)) by (intros t; apply body_ok_esc).
    pose proof (hescape_wf _ Hwf) as Hw.
    destruct (args !! "raw"%string) as [[]|]; cbn [app]; rewrite !Forall_cons; cbn [fst snd];
      repeat split; auto; try apply Forall_nil_2; try exact (body_ok_esc "driver"); try exact (body_ok_esc "raw");
      try exact (body_ok_esc "tag"); try exact (body_ok_esc "type"); try exact (body_ok_esc "value").
  - rewrite <-hescape_nesting in Hn. unfold writeMembers.
    destruct (args !! "raw"%string) as [[]|]; cbn [app nesting List.map List.fold_right foldr fst snd jstr]; 
      unfold maxNestingDepth in *; cbn; lia.
Qed.

(** ** Limits *)

(** A number outside the integers of 53 bits is changed on its way: two
    different 64-bit values give the same body. *)
Lemma write_value_rounded :
  any_json (JNum "9007199254740993") = any_json (JNum "9007199254740992").
Proof. vm_compute. reflexivity. Qed.

(** A call for a tag the answer does not have returns the answer as it is, with
    the values of the tags whose names contain that name. *)
Lemma absent_tag_passed raw v driver tag tags :
  parse raw = Some v -> tags_of v = Some (Some tags) -> tags !! tag = None -> exactTag raw driver tag = raw.
Proof. intros Hp Ht Hn. unfold exactTag. rewrite Hp. cbn [mbind option_bind]. by rewrite Ht, Hn. Qed.

(** A notification of another method is answered: here a ping without an id. *)
Definition pingLine : string := print (JObj [("jsonrpc"%string, jstr "2.0"); ("method"%string, jstr "ping")]).

Lemma notification_answered s x : handleLine s pingLine x = (x, Some (ok None (JObj []))).
Proof. reflexivity. Qed.

(** A tool without arguments is listed with a null where a schema has an
    object. *)
Lemma null_properties s :
  JObj [("description"%string, jstr "List drivers whose collection is currently paused.");
        ("inputSchema"%string, JObj [("properties"%string, JNull); ("type"%string, jstr "object")]);
        ("name"%string, jstr "list_paused_drivers")] ∈ toolJSON <$> toolDefs s.
Proof.
  apply (list_elem_of_fmap_2' toolJSON (toolDefs s) (mkTool "list_paused_drivers"
    "List drivers whose collection is currently paused." None false)); [|reflexivity].
  apply elem_of_app. left. unfold readTools. do 5 right. left.
Qed.
End adapter.

(** ** A run *)

Module McpDemo.
(** The other side keeps the requests it gets and answers all of them. *)
#[export] Instance recorder : McpLib (list clientRequest) := {
  client_do := fun r x => (x ++ [r], Answered 200 "{}");
  newRequest_error := fun _ => None;
  json_float := fun _ => "5"%string;
  parse_error := fun _ => EmptyString;
  args_error := fun _ => EmptyString;
}.

Definition readOnly : mcpServer := mkServer "http://plc" "k" false.
Definition writing : mcpServer := mkServer "http://plc" "k" true.

Definition call (name : string) (args : list (string * json)) : string :=
  print (JObj [("id"%string, JNum "1"); ("method"%string, jstr "tools/call");
               ("params"%string, JObj [("name"%string, jstr name); ("arguments"%string, JObj args)])]).

Definition args : list (string * json) :=
  [("driver"%string, jstr "plc"); ("tag"%string, jstr "t"); ("type"%string, jstr "int32"); ("value"%string, JNum "5")].

Definition lines : list string := [call "write_tag" args; call "list_drivers" []].
End McpDemo.

#[local] Existing Instance McpDemo.recorder.

(** A call of a write tool is refused and only the read arrives. *)
Lemma mcp_read_only_witness :
  length (serve McpDemo.readOnly McpDemo.lines [] []).1.1 = 1%nat
  /\ length (serve McpDemo.writing McpDemo.lines [] []).1.1 = 2%nat
  /\ Forall (read_request McpDemo.readOnly) (serve McpDemo.readOnly McpDemo.lines [] []).1.1.
Proof.
  split; [vm_compute; reflexivity|]. split; [vm_compute; reflexivity|].
  apply (mcp_read_only McpDemo.readOnly (Forall (read_request McpDemo.readOnly))).
  - reflexivity.
  - intros r y Hr Hy. cbn. apply Forall_app. split; [exact Hy|]. constructor; [exact Hr|constructor].
  - constructor.
Defined.

Lemma write_tag_command_witness :
  exists body, callTool McpDemo.writing "write_tag" (obj_map McpDemo.args) []
    = send McpDemo.writing (mkClientRequest "POST" "http://plc/write"
        {["Content-Type"%string := "application/json"%string]} body) []
  /\ unmarshal_cmd body = Some (mkWriteCommand "plc" "" "t" (VInt32 5) TypeInt32 "" "" false).
Proof.
  destruct (write_tag_command McpDemo.writing (obj_map McpDemo.args) (JNum "5") TypeInt32 []) as (body & Hc & Hb);
    [vm_compute; reflexivity..|apply utf8_ascii; vm_compute; reflexivity|apply utf8_ascii; vm_compute; reflexivity
    |apply utf8_ascii; vm_compute; reflexivity|vm_compute; reflexivity|].
  exists body. split; [exact Hc|]. rewrite Hb. vm_compute. reflexivity.
Defined.
