(* ===== verification/FieldDrivers.v ===== *)
(** * From settings to a field driver ([driver/modbus], [driver/s7])

    How the Modbus and S7 drivers are made from their configuration: the
    constructors of the six Modbus variants and of S7, [Init] with the settings
    each variant parses, the client configuration [connect] dials with, the
    lifecycle around it and the settings a variant accepts.  Reading and writing
    are those of [Modbus] and [S7]; the connection lifecycle is that of
    [DriverBase].

    The theorems show that the settings a variant parses are those it accepts,
    and that a Modbus driver initialised from a configuration reads, for every tag
    of it, the value the device holds at the tag's own address. *)

From Stdlib Require Import ZArith Lia String.
From stdpp Require Import base list gmap strings.
From S2P Require Import Prelude GoFloat GoTime Types Util Config DriverBase.
From S2P Require Import Mqtt.
From S2P Require Import S7.
From S2P Require Import Modbus.

Open Scope Z_scope.

(** ** Shared by the drivers *)

(** The reconnect settings of a driver: first and largest delay, and the
    failures after which the breaker opens. *)
Record reconnectSettings := mkReconnect {
  rs_backoff : Z;
  rs_maxBackoff : Z;
  rs_maxFailures : Z;
}.

Definition reconnect_zero : reconnectSettings := mkReconnect 0 0 0.

Definition ParseReconnectSettings `{GoArch} (settings : gmap string Value) : reconnectSettings :=
  mkReconnect (GetDurationSetting settings "reconnect-interval" DefaultReconnectBackoff)
    (GetDurationSetting settings "reconnect-max-interval" DefaultMaxReconnectBackoff)
    (GetIntSetting settings "max-reconnect-failures" DefaultMaxReconnectFailures).

(** The [timeout] setting: text that is no duration leaves the field, and a
    field that is still zero gets the default. *)
Definition parseTimeout `{GoArch} (settings : gmap string Value) (default_ old : Z) : Z :=
  let t := match settings !! "timeout"%string with
           | Some (VString s) => default old (ParseDuration s)
           | _ => old
           end in
  if decide (t = 0) then default_ else t.

(** ** Modbus *)

Module ModbusInit.

Inductive Parity := PARITY_NONE | PARITY_EVEN | PARITY_ODD.

#[export] Instance Parity_eq_dec : EqDecision Parity.
Proof. solve_decision. Defined.

Definition parityString (p : Parity) : string :=
  match p with PARITY_EVEN => "even" | PARITY_ODD => "odd" | PARITY_NONE => "none" end.

Definition parseParity (settings : gmap string Value) : Parity + error :=
  match settings !! "parity"%string with
  | Some (VString v) =>
      if decide (v = EmptyString) then inl PARITY_NONE
      else
        let l := to_lower v in
        if decide (l = "none"%string \/ l = EmptyString) then inl PARITY_NONE
        else if decide (l = "even"%string) then inl PARITY_EVEN
        else if decide (l = "odd"%string) then inl PARITY_ODD
        else inr (ErrFmt ("modbus-rtu: invalid parity " +:+ quote v +:+ " (want none|even|odd)"))
  | _ => inl PARITY_NONE
  end.

(** The fields of the four driver types besides those they share. *)
Inductive link :=
| LinkTCP (host : string) (port : Z)
| LinkRTU (serialDevice : string) (baudRate dataBits : Z) (parity : Parity) (stopBits : Z)
| LinkTLS (host : string) (port : Z) (certFile keyFile caFile : string) (clientCert rootCAs : option string)
| LinkNet (host : string) (port : Z) (urlScheme : string).

(** A driver without its connection, which is in [mstate]. *)
Record ModbusDriver := mkModbus {
  md_name : string;
  md_type : string;
  md_config : option DriverConfig;
  md_link : link;
  md_slaveID : Z;
  md_timeout : Z;
  md_maxRetry : Z;
  md_reconnect : reconnectSettings;
  md_tags : gmap string TagConfig;
  md_addrs : gmap string addrInfo;
}.

Definition new_driver (l : link) : ModbusDriver := mkModbus "" "" None l 0 0 0 reconnect_zero ∅ ∅.

Definition SetMeta (name type : string) (config : DriverConfig) (d : ModbusDriver) : ModbusDriver :=
  mkModbus name type (Some config) (md_link d) (md_slaveID d) (md_timeout d) (md_maxRetry d) (md_reconnect d)
    (md_tags d) (md_addrs d).

Definition set_link (l : link) (d : ModbusDriver) : ModbusDriver :=
  mkModbus (md_name d) (md_type d) (md_config d) l (md_slaveID d) (md_timeout d) (md_maxRetry d) (md_reconnect d)
    (md_tags d) (md_addrs d).

Definition NewModbusTCPDriver (config : DriverConfig) : ModbusDriver := new_driver (LinkTCP "" 0).

Definition NewModbusRTUDriver (config : DriverConfig) : ModbusDriver :=
  new_driver (LinkRTU "" 0 0 PARITY_NONE 0).

Definition NewModbusTLSDriver (config : DriverConfig) : ModbusDriver :=
  new_driver (LinkTLS "" 0 "" "" "" None None).

Definition newModbusNetDriver (config : DriverConfig) (driverType urlScheme : string) : ModbusDriver :=
  SetMeta (dc_Name config) driverType config (new_driver (LinkNet "" 0 urlScheme)).

Definition NewModbusRTUOverTCPDriver (config : DriverConfig) : ModbusDriver :=
  newModbusNetDriver config "modbus-rtuovertcp" "rtuovertcp".

Definition NewModbusUDPDriver (config : DriverConfig) : ModbusDriver :=
  newModbusNetDriver config "modbus-udp" "udp".

Definition NewModbusRTUOverUDPDriver (config : DriverConfig) : ModbusDriver :=
  newModbusNetDriver config "modbus-rtuoverudp" "rtuoverudp".

(** The factories the package registers, by type. *)
Definition registered : gmap string (DriverConfig -> ModbusDriver) :=
  list_to_map
    [("modbus-tcp", NewModbusTCPDriver); ("modbus-rtu", NewModbusRTUDriver);
     ("modbus-rtuovertcp", NewModbusRTUOverTCPDriver); ("modbus-udp", NewModbusUDPDriver);
     ("modbus-rtuoverudp", NewModbusRTUOverUDPDriver); ("modbus-tls", NewModbusTLSDriver)]%string.

(** *** Settings *)

Definition modbusSettingsKeys : gset string :=
  list_to_set ["slave-id"; "retry"; "timeout"; "reconnect-interval"; "reconnect-max-interval";
    "max-reconnect-failures"]%string.

Definition ValidateSettings (l : link) (settings : gmap string Value) : option error :=
  match l with
  | LinkTCP _ _ | LinkNet _ _ _ =>
      RejectUnknownSettings settings (modbusSettingsKeys ∪ list_to_set ["host"; "port"]%string) "modbus"
  | LinkRTU _ _ _ _ _ =>
      RejectUnknownSettings settings
        (modbusSettingsKeys ∪ list_to_set ["serial-device"; "baud-rate"; "data-bits"; "parity"; "stop-bits"]%string)
        "modbus-rtu"
  | LinkTLS _ _ _ _ _ _ _ =>
      RejectUnknownSettings settings
        (modbusSettingsKeys ∪ list_to_set ["host"; "port"; "cert-file"; "key-file"; "ca-file"]%string) "modbus-tls"
  end.

Section init.
Context `{GoArch} `{CertFiles}.

(** The tag loop: the tag is stored before its address is parsed. *)
Fixpoint initTags (tags : list TagConfig) (ts : gmap string TagConfig) (addrs : gmap string addrInfo)
    : res unit * (gmap string TagConfig * gmap string addrInfo) :=
  match tags with
  | [] => (Ok tt, (ts, addrs))
  | tag :: rest =>
      let ts := <[tc_Name tag := tag]> ts in
      match parseModbusAddress (tc_Address tag) with
      | Ok ai => initTags rest ts (<[tc_Name tag := ai]> addrs)
      | Err e => (Err (ErrWrap ("tag " +:+ tc_Name tag +:+ ": invalid address " +:+ quote (tc_Address tag) +:+ ": ")
                         e ""), (ts, addrs))
      | Panic => (Panic, (ts, addrs))
      end
  end.

Definition initCommon (driverType : string) (settings : gmap string Value) (config : DriverConfig)
    (d : ModbusDriver) : res unit * ModbusDriver :=
  let d := SetMeta (dc_Name config) driverType config d in
  let '(r, (ts, addrs)) := initTags (dc_Tags config) (md_tags d) (md_addrs d) in
  (r, mkModbus (md_name d) (md_type d) (md_config d) (md_link d) (u8 (GetIntSetting settings "slave-id" 1))
        (parseTimeout settings (3 * second) (md_timeout d)) (GetIntSetting settings "retry" 3)
        (ParseReconnectSettings settings) ts addrs).

(** The fields of its own a variant sets first: the error of a setting that is
    missing or unusable, the fields assigned before it kept. *)
Definition initTLS (settings : gmap string Value) (host : string) (port : Z) (cert key ca : string)
    (clientCert rootCAs : option string) : res unit * link :=
  let need k := Err (ErrFmt ("modbus-tls: " +:+ k)) in
  match settings !! "host"%string with
  | Some (VString host) =>
      let port := GetIntSetting settings "port" 502 in
      match settings !! "cert-file"%string with
      | Some (VString cert) =>
          match settings !! "key-file"%string with
          | Some (VString key) =>
              match settings !! "ca-file"%string with
              | Some (VString ca) =>
                  match LoadClientCert cert key with
                  | Ok c =>
                      match LoadCertPool ca with
                      | Ok pool => (Ok tt, LinkTLS host port cert key ca (Some c) (Some pool))
                      | Err e => (Err (ErrWrap "modbus-tls: " e ""), LinkTLS host port cert key ca (Some c) rootCAs)
                      | Panic => (Panic, LinkTLS host port cert key ca (Some c) rootCAs)
                      end
                  | Err e => (Err (ErrWrap "modbus-tls: " e ""), LinkTLS host port cert key ca clientCert rootCAs)
                  | Panic => (Panic, LinkTLS host port cert key ca clientCert rootCAs)
                  end
              | _ => (need "ca-file is required (CA / server certificate PEM)",
                      LinkTLS host port cert key ca clientCert rootCAs)
              end
          | _ => (need "key-file is required (client private key PEM)",
                  LinkTLS host port cert key ca clientCert rootCAs)
          end
      | _ => (need "cert-file is required (client certificate PEM)",
              LinkTLS host port cert key ca clientCert rootCAs)
      end
  | _ => (need "host is required", LinkTLS host port cert key ca clientCert rootCAs)
  end%string.

Definition initRTU (settings : gmap string Value) (dev : string) (baud bits : Z) (parity : Parity) (stop : Z)
    : res unit * link :=
  match settings !! "serial-device"%string with
  | Some (VString dev') =>
      if decide (dev' = EmptyString) then
        (Err (ErrFmt "modbus-rtu: serial-device is required (e.g. /dev/ttyUSB0 or COM3)"),
         LinkRTU dev baud bits parity stop)
      else
        let baud := u64 (GetIntSetting settings "baud-rate" 9600) in
        let baud := if decide (baud = 0) then 9600 else baud in
        let bits := u64 (GetIntSetting settings "data-bits" 8) in
        match parseParity settings with
        | inr e => (Err e, LinkRTU dev' baud bits parity stop)
        | inl p => (Ok tt, LinkRTU dev' baud bits p (u64 (GetIntSetting settings "stop-bits" 0)))
        end
  | _ => (Err (ErrFmt "modbus-rtu: serial-device is required (e.g. /dev/ttyUSB0 or COM3)"),
          LinkRTU dev baud bits parity stop)
  end.

Definition initHost (what : string) (mk : string -> Z -> link) (settings : gmap string Value) (old : link)
    : res unit * link :=
  match settings !! "host"%string with
  | Some (VString host) => (Ok tt, mk host (GetIntSetting settings "port" 502))
  | _ => (Err (ErrFmt (what +:+ ": host is required")), old)
  end.

Definition initLink (config : DriverConfig) (d : ModbusDriver) : res unit * link :=
  let settings := dc_Settings config in
  match md_link d with
  | LinkTCP _ _ => initHost "modbus-tcp" LinkTCP settings (md_link d)
  | LinkNet _ _ scheme => initHost (md_type d) (fun h p => LinkNet h p scheme) settings (md_link d)
  | LinkRTU dev baud bits parity stop => initRTU settings dev baud bits parity stop
  | LinkTLS host port cert key ca cc ra => initTLS settings host port cert key ca cc ra
  end.

(** The type [Init] passes on. *)
Definition linkType (d : ModbusDriver) : string :=
  match md_link d with
  | LinkTCP _ _ => "modbus-tcp"
  | LinkRTU _ _ _ _ _ => "modbus-rtu"
  | LinkTLS _ _ _ _ _ _ _ => "modbus-tls"
  | LinkNet _ _ _ => md_type d
  end.

Definition Init (config : DriverConfig) (d : ModbusDriver) : res unit * ModbusDriver :=
  let '(r, l) := initLink config d in
  let d := set_link l d in
  match r with
  | Ok _ => initCommon (linkType d) (dc_Settings config) config d
  | r => (r, d)
  end.
End init.

(** *** The connection *)

Record ClientConfiguration := mkClientConfig {
  cc_URL : string;
  cc_Speed : Z;
  cc_DataBits : Z;
  cc_Parity : Parity;
  cc_StopBits : Z;
  cc_Timeout : Z;
  cc_TLSClientCert : option string;
  cc_TLSRootCAs : option string;
}.

(** What the library does with a client, over the state [D] of the network. *)
Class ModbusDial (D C : Type) := {
  lib_NewClient : ClientConfiguration -> D -> D * (C + error);
  lib_SetUnitId : C -> Z -> D -> D * option error;
  lib_Open : C -> D -> D * option error;
  lib_Close : C -> D -> D;
}.

Definition clientConfig (d : ModbusDriver) : ClientConfiguration :=
  match md_link d with
  | LinkTCP host port =>
      mkClientConfig ("tcp://" +:+ host +:+ ":" +:+ itoa port) 1 0 PARITY_NONE 0 (md_timeout d) None None
  | LinkNet host port scheme =>
      mkClientConfig (scheme +:+ "://" +:+ host +:+ ":" +:+ itoa port) 1 0 PARITY_NONE 0 (md_timeout d) None None
  | LinkRTU dev baud bits parity stop =>
      mkClientConfig ("rtu://" +:+ dev) baud bits parity stop (md_timeout d) None None
  | LinkTLS host port _ _ _ cert pool =>
      mkClientConfig ("tcp+tls://" +:+ host +:+ ":" +:+ itoa port) 1 0 PARITY_NONE 0 (md_timeout d) cert pool
  end.

Section connection.
Context {D C : Type} `{ModbusDial D C} `{GoArch} `{CertFiles}.
Notation driver := (ModbusDriver * mstate D C)%type.

(** [openClient] up to the fields a successful connect stores, which
    [DriverBase.openClient] sets. *)
Definition openClient (cfg : ClientConfiguration) (slaveID : Z) (x : D) : D * (C + error) :=
  match lib_NewClient cfg x with
  | (x, inr e) => (x, inr (ErrWrap "failed to create modbus client: " e ""))
  | (x, inl client) =>
      match lib_SetUnitId client slaveID x with
      | (x, Some e) => (x, inr (ErrWrap "failed to set unit id: " e ""))
      | (x, None) =>
          match lib_Open client x with
          | (x, Some e) => (x, inr (ErrWrap ("failed to connect to " +:+ cc_URL cfg +:+ ": ") e ""))
          | (x, None) => (x, inl client)
          end
      end
  end.

Definition connect (d : ModbusDriver) (x : D) : D * (C + error) := openClient (clientConfig d) (md_slaveID d) x.

Definition Start (d : driver) : option error * driver :=
  let '(x, r) := connect d.1 (m_dev d.2) in
  let '(err, b) := StartErr r (m_drv d.2) in
  (err, (d.1, mkM x b (m_exc d.2))).

(** An attempt of the reconnect goroutine. *)
Definition reconnect (d : driver) : driver :=
  let '(x, r) := connect d.1 (m_dev d.2) in
  (d.1, mkM x (reconnect_attempt r (m_drv d.2)) (m_exc d.2)).

(** The close hook; the client is dropped with the state change around it. *)
Definition closeConn (m : mstate D C) : mstate D C :=
  match bd_conn (m_drv m) with
  | Some c => mkM (lib_Close c (m_dev m)) (m_drv m) (m_exc m)
  | None => m
  end.

(** [Stop]: the reconnect goroutines have returned when the connection is closed. *)
Definition Stop (d : driver) : driver :=
  let m := with_drv (fun b => set_conn (bd_state b) (bd_conn b) O b) (with_drv Stop_cancel d.2) in
  (d.1, with_drv Stop_finish (closeConn m)).

Definition Restart (config : DriverConfig) (d : driver) : res unit * driver :=
  let d := Stop d in
  let '(r, c) := Init config d.1 in
  match r with
  | Ok _ =>
      let '(err, d) := Start (c, d.2) in
      (match err with None => Ok tt | Some e => Err e end, d)
  | r => (r, (c, d.2))
  end.
End connection.

(** The fields [Read] and [Write] use. *)
Definition config_of (d : ModbusDriver) : modbusConfig :=
  mkModbusConfig (md_name d) (md_maxRetry d) (md_tags d) (md_addrs d).

(** *** Theorems *)

(** A tag whose address the driver parses and whose type fits the area, its
    range ending before the last address. *)
Definition supported (t : TagConfig) : bool :=
  match parseModbusAddress (tc_Address t) with
  | Ok ai =>
      let '(q, ok) := batchQuantity ai (ParseDataType (tc_Type t)).1 in
      ok && bool_decide (ai_addr ai + q < 65536)
  | _ => false
  end.

Lemma parseModbusAddress_range s ai : parseModbusAddress s = Ok ai -> 0 <= ai_addr ai.
Proof.
  unfold parseModbusAddress. destruct (ParseUint s 32); [|done]. repeat case_decide; intros; simplify_eq; simpl;
    apply (wrapu_range 16); lia.
Qed.

Lemma supported_spec t :
  supported t = true ->
  exists ai q, parseModbusAddress (tc_Address t) = Ok ai /\
    batchQuantity ai (ParseDataType (tc_Type t)).1 = (q, true) /\ 0 <= ai_addr ai /\ ai_addr ai + q < 65536.
Proof.
  unfold supported. destruct (parseModbusAddress _) as [ai| |] eqn:Ep; try done.
  destruct (batchQuantity _ _) as [q ok] eqn:Eq. rewrite andb_true_iff, bool_decide_eq_true. intros [-> ?].
  eauto 10 using parseModbusAddress_range.
Qed.

(** What the tag loop leaves in the two maps. *)
Lemma initTags_ok tags ts addrs :
  Forall (fun t => exists ai, parseModbusAddress (tc_Address t) = Ok ai) tags ->
  NoDup (tc_Name <$> tags) ->
  exists ts' addrs', initTags tags ts addrs = (Ok tt, (ts', addrs')) /\
    (forall t, t ∈ tags -> ts' !! tc_Name t = Some t /\
       exists ai, parseModbusAddress (tc_Address t) = Ok ai /\ addrs' !! tc_Name t = Some ai) /\
    (forall n, n ∉ tc_Name <$> tags -> ts' !! n = ts !! n /\ addrs' !! n = addrs !! n).
Proof.
  revert ts addrs. induction tags as [|t tags IH]; intros ts addrs Hp Hnd; cbn [initTags].
  { eexists _, _. split_and!; [done|intros ? []%not_elem_of_nil|done]. }
  apply Forall_cons_1 in Hp as [[ai Hai] Hp]. rewrite fmap_cons, NoDup_cons in Hnd. destruct Hnd as [Hn Hnd].
  rewrite Hai. destruct (IH (<[tc_Name t := t]> ts) (<[tc_Name t := ai]> addrs) Hp Hnd)
    as (ts' & addrs' & -> & Hin & Hout).
  eexists _, _. split; [done|]. split.
  - intros u [->|Hu]%elem_of_cons; [|by apply Hin]. destruct (Hout _ Hn) as [-> ->].
    rewrite !lookup_insert_eq. eauto.
  - intros n. rewrite fmap_cons, not_elem_of_cons. intros [Hne Hnn]. destruct (Hout _ Hnn) as [-> ->].
    by rewrite !lookup_insert_ne by done.
Qed.

(** The tag of a name. *)
Definition tag_named (tags : list TagConfig) (n : string) : option TagConfig :=
  List.find (fun t => bool_decide (tc_Name t = n)) tags.

Lemma tag_named_some tags n t : tag_named tags n = Some t -> t ∈ tags /\ tc_Name t = n.
Proof.
  intros Hf. apply List.find_some in Hf as [Hin Hn]. rewrite bool_decide_eq_true in Hn.
  by rewrite <- list_elem_of_In in Hin.
Qed.

Lemma tag_named_none tags n : tag_named tags n = None -> n ∉ tc_Name <$> tags.
Proof.
  intros Hf (t & -> & Ht)%list_elem_of_fmap. rewrite list_elem_of_In in Ht.
  pose proof (List.find_none _ _ Hf _ Ht) as Hb. by rewrite bool_decide_eq_false in Hb.
Qed.

(** Whether the settings give a driver what it cannot run without. *)
Definition settings_ok `{GoArch} `{CertFiles} (config : DriverConfig) (d : ModbusDriver) : bool :=
  match (initLink config d).1 with Ok _ => true | _ => false end.

Section from_config.
Context {D C : Type} `{ModbusDevice D C} `{EqDecision C} `{GoArch} `{CertFiles}.

(** The entry [Read] owes for a name: the value the device holds at the
    address written in the configuration, decoded by the type written there. *)
Definition configured_value (config : DriverConfig) (c : C) (dev : D) (now : Z) (n : string) : TagValue :=
  match tag_named (dc_Tags config) n with
  | None => badValue n now (ErrFmt ("tag not found: " +:+ n))
  | Some t =>
      match parseModbusAddress (tc_Address t) with
      | Ok ai =>
          let dt := (ParseDataType (tc_Type t)).1 in
          match readTag (Some c) ai dt n dev with
          | (_, Ok v) => mkTagValue n (ApplyTransform v (tc_Scale t) (tc_Offset t)) dt QualityGood now None
          | (_, Err e) => badValue n now e
          | (_, Panic) => badValue n now (ErrFmt "")
          end
      | _ => badValue n now (ErrFmt "")
      end
  end.

Lemma init_fields config d ts addrs :
  settings_ok config d = true -> initTags (dc_Tags config) (md_tags d) (md_addrs d) = (Ok tt, (ts, addrs)) ->
  exists d', Init config d = (Ok tt, d') /\ md_tags d' = ts /\ md_addrs d' = addrs /\
    md_maxRetry d' = GetIntSetting (dc_Settings config) "retry" 3 /\
    md_slaveID d' = u8 (GetIntSetting (dc_Settings config) "slave-id" 1).
Proof.
  unfold settings_ok, Init. intros Hs Ht. destruct (initLink config d) as [[] l]; try done. unfold initCommon.
  cbn [md_tags md_addrs SetMeta set_link]. rewrite Ht. eexists. split; [done|]. by split_and!.
Qed.

End from_config.

(** A negative [retry] makes no attempt at all: every configured tag is reported
    with good quality and no value, and the device is never asked. *)
Section no_attempts.
Context {D C : Type} `{ModbusLib D C} `{EqDecision C} `{GoArch}.

Lemma run_batches_none bs reqs (cl : option C) (V : gmap nat Value) (m : mstate D C) :
  run_batches 0 bs reqs cl V m = (m, cl, inl V).
Proof.
  revert V. induction bs as [|b bs IH]; intros V; [done|]. cbn [run_batches readBatchWithRetry].
  rewrite map_empty_union, IH. by destruct cl.
Qed.

Lemma run_areas_none order reqs valid (cl : option C) (V : gmap nat Value) (m : mstate D C) :
  run_areas 0 order reqs valid cl V m = (m, cl, Ok V).
Proof. revert V. induction order as [|a order IH]; intros V; cbn [run_areas]; [done|]. by rewrite run_batches_none. Qed.

Lemma assemble_none cfg now tags all pre reqs valid (cl : option C) results (m : mstate D C) :
  all = pre ++ tags -> reqs = (map (resolve cfg) all).*1 -> valid = (map (resolve cfg) all).*2 ->
  assemble 0 now tags (length pre) reqs valid ∅ cl results m =
  (m, Ok (results ++ map (fun t => match resolve cfg t with
                                    | (req, true) => goodValue t req now VNil
                                    | (_, false) => badValue t now (ErrFmt ("tag not found: " +:+ t))
                                    end) tags)).
Proof.
  intros Ha Hr Hv. revert pre results Ha. induction tags as [|t tags IH]; intros pre results Ha; cbn [assemble map].
  { by rewrite app_nil_r. }
  assert (all !! length pre = Some t) as Hl by (rewrite Ha; apply list_lookup_middle; done).
  assert (valid !! length pre = Some (resolve cfg t).2) as ->
    by (rewrite Hv, !list_lookup_fmap, Hl; done).
  assert (req_at reqs (length pre) = (resolve cfg t).1) as ->
    by (unfold req_at; rewrite Hr, !list_lookup_fmap, Hl; done).
  replace (S (length pre)) with (length (pre ++ [t])) by (rewrite length_app; simpl; lia).
  assert (all = (pre ++ [t]) ++ tags) as Ha' by (rewrite <- (assoc_L (++)); done).
  destruct (resolve cfg t) as [req []]; cbn [default fst snd negb id]; rewrite ?lookup_empty;
    cbn [readTagWithRetry]; by rewrite (IH _ _ Ha'), <- (assoc_L (++)).
Qed.

Lemma negative_retry_reads_nothing cfg order now tags (m : mstate D C) c :
  mc_maxRetry cfg < 0 -> bd_state (m_drv m) = StateConnected -> bd_conn (m_drv m) = Some c ->
  Read cfg order now tags m =
  (with_drv (SetLastRead now) (with_drv (AddReadCount (Z.of_nat (length tags))) m),
   Ok (map (fun t => match resolve cfg t with
                     | (req, true) => goodValue t req now VNil
                     | (_, false) => badValue t now (ErrFmt ("tag not found: " +:+ t))
                     end) tags)).
Proof.
  intros Hr Hs Hc. unfold Read, performBatchReads, attempts. rewrite Hs, Hc.
  rewrite bool_decide_eq_true_2, bool_decide_eq_false_2 by done. cbn [negb orb].
  replace (Z.to_nat (mc_maxRetry cfg + 1)) with O by lia. rewrite run_areas_none.
  by rewrite (assemble_none cfg now tags tags [] _ _ (Some c) [] m).
Qed.
End no_attempts.

(** [Init] of a driver that was initialised before adds to the maps: a tag that
    is no longer configured is still read. *)
Lemma restart_keeps_tags `{GoArch} `{CertFiles} config d n t :
  settings_ok config d = true -> md_tags d !! n = Some t -> n ∉ tc_Name <$> dc_Tags config ->
  md_tags (Init config d).2 !! n = Some t /\ md_addrs (Init config d).2 !! n = md_addrs d !! n.
Proof.
  unfold settings_ok, Init, initCommon. intros Hs Ht Hn. destruct (initLink config d) as [[] l]; try done.
  cbn [md_tags md_addrs SetMeta set_link]. revert Ht Hn. generalize (md_tags d) as ts, (md_addrs d) as addrs.
  induction (dc_Tags config) as [|u tags IH]; intros ts addrs Ht; [done|].
  rewrite fmap_cons, not_elem_of_cons. intros [Hne Hn]. cbn [initTags].
  destruct (parseModbusAddress _) as [ai| |].
  - destruct (IH (<[tc_Name u := u]> ts) (<[tc_Name u := ai]> addrs)) as [H1 H2]; [by rewrite lookup_insert_ne|done|].
    split; [done|]. etrans; [exact H2|]. by rewrite lookup_insert_ne.
  - cbn. by rewrite lookup_insert_ne.
  - cbn. by rewrite lookup_insert_ne.
Qed.

(** *** The settings [Init] parses are those [ValidateSettings] knows *)

Definition knownKeys (l : link) : gset string :=
  modbusSettingsKeys ∪
  list_to_set match l with
              | LinkTCP _ _ | LinkNet _ _ _ => ["host"; "port"]%string
              | LinkRTU _ _ _ _ _ => ["serial-device"; "baud-rate"; "data-bits"; "parity"; "stop-bits"]%string
              | LinkTLS _ _ _ _ _ _ _ => ["host"; "port"; "cert-file"; "key-file"; "ca-file"]%string
              end.

Definition only_known (d : ModbusDriver) (config : DriverConfig) : DriverConfig :=
  mkDriverConfig (dc_Name config) (dc_Type config)
    (filter (fun kv => kv.1 ∈ knownKeys (md_link d)) (dc_Settings config)) (dc_Tags config) (dc_TagsFile config)
    (dc_TagsInterval config).

Definition without_config (r : res unit * ModbusDriver) : res unit * ModbusDriver :=
  (r.1, mkModbus (md_name r.2) (md_type r.2) None (md_link r.2) (md_slaveID r.2) (md_timeout r.2) (md_maxRetry r.2)
          (md_reconnect r.2) (md_tags r.2) (md_addrs r.2)).

Lemma lookup_only_known d config k :
  bool_decide (k ∈ knownKeys (md_link d)) = true ->
  dc_Settings (only_known d config) !! k = dc_Settings config !! k.
Proof.
  rewrite bool_decide_eq_true. intros Hk. cbn [only_known dc_Settings]. rewrite map_lookup_filter.
  destruct (dc_Settings config !! k) as [v|]; [|done]. simpl. by rewrite option_guard_True.
Qed.

Lemma initLink_known `{GoArch} `{CertFiles} config d : initLink (only_known d config) d = initLink config d.
Proof.
  pose proof (lookup_only_known d config) as Hk.
  unfold initLink, initHost, initRTU, initTLS, parseParity, GetIntSetting.
  destruct (md_link d) eqn:El; rewrite !Hk by (vm_compute; reflexivity); reflexivity.
Qed.

(** A key outside the list a variant accepts has no influence on it. *)
Lemma init_settings_known `{GoArch} `{CertFiles} config d :
  without_config (Init (only_known d config) d) = without_config (Init config d).
Proof.
  assert (forall k, bool_decide (k ∈ modbusSettingsKeys) = true ->
            dc_Settings (only_known d config) !! k = dc_Settings config !! k) as Hk.
  { intros k Hk%bool_decide_eq_true. apply lookup_only_known, bool_decide_eq_true. by apply elem_of_union_l. }
  unfold Init. rewrite initLink_known. destruct (initLink config d) as [[] l]; try done.
  unfold initCommon, parseTimeout, ParseReconnectSettings, GetIntSetting, GetDurationSetting.
  rewrite !Hk by (vm_compute; reflexivity). change (dc_Tags (only_known d config)) with (dc_Tags config).
  by destruct (initTags _ _ _) as [? [? ?]].
Qed.

Definition sample_config : DriverConfig :=
  mkDriverConfig "plc" "modbus-tcp" {[ "host"%string := VString "10.0.0.5"; "slave-id"%string := VInt 300 ]}
    [mk_tag "level" "uint32" "40011"; mk_tag "pump" "bool" "4"]%string "" "".

#[local] Instance any_arch : GoArch := fun _ _ _ => 0.
#[local] Existing Instance Mqtt.Examples.no_certs.

End ModbusInit.

(** ** S7 *)

Module S7Init.

Definition TypeName : string := "s7".
Definition DefaultDriverTimeout : Z := 5 * second.
Definition DefaultIdleTimeout : Z := 60 * second.

Definition s7Known : gset string :=
  list_to_set ["host"; "port"; "rack"; "slot"; "timeout"; "idle-timeout"; "reconnect-interval";
    "reconnect-max-interval"; "max-reconnect-failures"]%string.

Definition ValidateSettings (settings : gmap string Value) : option error :=
  RejectUnknownSettings settings s7Known "s7".

(** A driver without its connection, which is in [s7state]; [sd_cfg] has its
    name and the two tag maps. *)
Record S7Driver := mkS7 {
  sd_config : DriverConfig;
  sd_host : string;
  sd_port : Z;
  sd_rack : Z;
  sd_slot : Z;
  sd_timeout : Z;
  sd_idleTimeout : Z;
  sd_reconnect : reconnectSettings;
  sd_cfg : s7Config;
}.

Definition NewS7Driver (config : DriverConfig) : S7Driver :=
  mkS7 config "" 0 0 0 0 0 reconnect_zero (mkS7Config (dc_Name config) ∅ ∅).

Section init.
Context `{GoArch}.

Definition Init (config : DriverConfig) (d : S7Driver) : res unit * S7Driver :=
  let settings := dc_Settings config in
  let c := mkS7Config (dc_Name config) (sc_tags (sd_cfg d)) (sc_addrs (sd_cfg d)) in
  match settings !! "host"%string with
  | Some (VString host) =>
      let '(r, c) := init_tags (dc_Tags config) c in
      (r, mkS7 config host (GetIntSetting settings "port" 102) (GetIntSetting settings "rack" 0)
            (GetIntSetting settings "slot" 2) (parseTimeout settings DefaultDriverTimeout (sd_timeout d))
            (GetDurationSetting settings "idle-timeout" DefaultIdleTimeout) (ParseReconnectSettings settings) c)
  | _ =>
      (Err (ErrFmt "s7: host is required"),
       mkS7 config (sd_host d) (sd_port d) (sd_rack d) (sd_slot d) (sd_timeout d) (sd_idleTimeout d)
         (sd_reconnect d) c)
  end.

(** The library's handler for an address, rack, slot and the two timeouts,
    connected, with its client. *)
Class S7Dial (D C : Type) := {
  lib_dial : string -> Z -> Z -> Z -> Z -> D -> D * (C + error);
  lib_close : C -> D -> D;
}.

Context {D C : Type} `{S7Dial D C}.
Notation driver := (S7Driver * s7state D C)%type.

Definition connect (d : S7Driver) (x : D) : D * (C + error) :=
  let addr := sd_host d +:+ ":" +:+ itoa (sd_port d) in
  match lib_dial addr (sd_rack d) (sd_slot d) (sd_timeout d) (sd_idleTimeout d) x with
  | (x, inr e) => (x, inr (ErrWrap ("failed to connect to s7 plc at " +:+ addr +:+ ": ") e ""))
  | (x, inl client) => (x, inl client)
  end.

Definition Start (d : driver) : option error * driver :=
  let '(x, r) := connect d.1 (s_dev d.2) in
  let '(err, b) := StartErr r (s_drv d.2) in
  (err, (d.1, mkS x b)).

(** An attempt of the reconnect goroutine. *)
Definition reconnect (d : driver) : driver :=
  let '(x, r) := connect d.1 (s_dev d.2) in
  (d.1, mkS x (reconnect_attempt r (s_drv d.2))).

(** The close hook. *)
Definition closeConn (st : s7state D C) : s7state D C :=
  match bd_conn (s_drv st) with
  | Some c => mkS (lib_close c (s_dev st)) (s_drv st)
  | None => st
  end.

Definition Stop (d : driver) : driver :=
  let st := on_drv (fun b => set_conn (bd_state b) (bd_conn b) O b) (on_drv Stop_cancel d.2) in
  (d.1, on_drv Stop_finish (closeConn st)).

Definition Restart (config : DriverConfig) (d : driver) : res unit * driver :=
  let d := Stop d in
  let '(r, c) := Init config d.1 in
  match r with
  | Ok _ =>
      let '(err, d) := Start (c, d.2) in
      (match err with None => Ok tt | Some e => Err e end, d)
  | r => (r, (c, d.2))
  end.

(** A restarted driver is connected exactly when its dial succeeded, and is
    otherwise left with one goroutine that tries again. *)
Lemma restart_connects config (d : driver) :
  (Init config d.1).1 = Ok tt ->
  let d' := (Restart config d).2 in
  (Restart config d).1 = Ok tt /\
  match connect (Init config d.1).2 (s_dev (Stop d).2) with
  | (_, inl c) => bd_state (s_drv d'.2) = StateConnected /\ bd_conn (s_drv d'.2) = Some c /\ bd_loops (s_drv d'.2) = O
  | (_, inr e) => bd_state (s_drv d'.2) = StateConnecting /\ bd_conn (s_drv d'.2) = None /\ bd_loops (s_drv d'.2) = 1%nat
                  /\ bd_lastError (s_drv d'.2) = error_text e
  end.
Proof.
  intros Hi. unfold Restart. change (Stop d).1 with d.1. destruct (Init config d.1) as [r c]. simpl in Hi. subst r.
  cbn [snd]. unfold Start. cbn [fst snd].
  assert (bd_loops (s_drv (Stop d).2) = O /\ bd_conn (s_drv (Stop d).2) = None) as [Hl Hc].
  { unfold Stop, closeConn. unfold on_drv, Stop_cancel. cbn. by destruct (bd_ctx (s_drv d.2)), (bd_conn (s_drv d.2)) eqn:E; cbn; rewrite ?E. }
  destruct (connect c _) as [x [cl|e]]; unfold StartErr, DriverBase.Start; cbn -[Stop]; by rewrite ?Hl, ?Hc.
Qed.
End init.
End S7Init.
