(* ===== verification/Startup.v ===== *)
(** * The process ([cmd/corec/main.go])

    What the program does from its flags to its exit code: load the configuration,
    set up logging, start the engine and the control plane, wait for a signal, and
    stop them, a second signal ending the process at once.  The parts it calls are
    verified in their own files; here they are the outcomes of the calls, and the
    program is the sequence of its actions.

    The theorems show in which order the parts are started and stopped, what the
    exit code tells, and which log level a run has. *)

From Stdlib Require Import ZArith Lia String.
From stdpp Require Import base list gmap strings.
From S2P Require Import Prelude GoFloat GoTime Types Config Validate Executor Logging.
From S2P Require Import Alerts Cache Scheduler RuleEngine Derived Processing Manager Engine Runtime.

Open Scope Z_scope.

Record flags := mkFlags {
  fl_config : string;
  fl_logLevel : string;
  fl_version : bool;
}.

Inductive action :=
| PrintVersion (v : string)
| PrintBanner (v : string)
| LoadConfig (path : string)
| LogInit (level : Z) (format : string)
| LogWarn (w : warning)
| EngineStart
| RegisterAlertHandler
| HubStart (path : string)
| ArmForcedExit
| HubStop
| EngineStop.

(** What the calls give, and when the second signal comes: before the [n]-th
    action of the shutdown. *)
Record outcomes := mkOutcomes {
  oc_load : Config + error;
  oc_start : option error;
  oc_stop : option error;
  oc_second : option nat;
}.

Definition setupLogging (cfg : Config) (override : string) : Z * string :=
  let levelStr := if decide (override <> EmptyString) then override else gl_LogLevel (cf_Global cfg) in
  let coreLevel := default LevelInfo (ParseLevel levelStr) in
  let format := if decide (gl_LogFormat (cf_Global cfg) = EmptyString) then "text"%string
                else gl_LogFormat (cf_Global cfg) in
  (coreLevel, format).

(** The shutdown with the watchdog armed: a second signal cuts it short. *)
Definition shutdown (second : option nat) : list action * Z :=
  let acts := [HubStop; EngineStop] in
  match second with
  | Some n => if decide (n < length acts)%nat then (take n acts, 1) else (acts, 0)
  | None => (acts, 0)
  end.

Section process.
Context `{!Registry} `{!GoArch}.

(** The actions of a run and its exit code. *)
Definition run (version : string) (f : flags) (o : outcomes) : list action * Z :=
  if fl_version f then ([PrintVersion version], 0)
  else
    let verStr := if decide (version <> "dev"%string) then "v" +:+ version else version in
    let acts := [PrintBanner verStr; LoadConfig (fl_config f)] in
    match oc_load o with
    | inr _ => (acts, 1)
    | inl cfg =>
        let '(level, format) := setupLogging cfg (fl_logLevel f) in
        let acts := acts ++ [LogInit level format] ++ (LogWarn <$> IdleWarnings cfg) ++ [EngineStart] in
        match oc_start o with
        | Some _ => (acts, 1)
        | None =>
            let acts := acts ++ [RegisterAlertHandler; HubStart (fl_config f)] in
            let '(down, code) := shutdown (oc_second o) in
            (acts ++ [ArmForcedExit] ++ down, code)
        end
    end.

Definition is_warn (a : action) : bool := match a with LogWarn _ => true | _ => false end.

(** The actions without the warnings of an idle configuration. *)
Definition spine (l : list action) : list action := filter (fun a => is_warn a = false) l.

Lemma spine_warns ws l : spine ((LogWarn <$> ws) ++ l) = spine l.
Proof. induction ws as [|w ws IH]; [done|]. cbn [fmap list_fmap app]. unfold spine in *. by rewrite filter_cons, decide_False. Qed.

(** A run does nothing but the actions of its stage: the version alone; without
    a configuration no logging and no engine; without an engine no control plane;
    and a full run sets up logging before the engine, the engine before the
    control plane, and stops the control plane before the engine, the exit code
    being zero exactly when the shutdown was not cut short. *)
Theorem run_order version f o :
  let '(acts, code) := run version f o in
  match fl_version f, oc_load o, oc_start o with
  | true, _, _ => acts = [PrintVersion version] /\ code = 0
  | false, inr _, _ => spine acts = [PrintBanner (if decide (version <> "dev"%string) then "v" +:+ version else version);
                                     LoadConfig (fl_config f)] /\ code = 1
  | false, inl cfg, Some _ =>
      spine acts = [PrintBanner (if decide (version <> "dev"%string) then "v" +:+ version else version);
                    LoadConfig (fl_config f);
                    LogInit (setupLogging cfg (fl_logLevel f)).1 (setupLogging cfg (fl_logLevel f)).2; EngineStart] /\
      code = 1
  | false, inl cfg, None =>
      exists down, spine acts =
        [PrintBanner (if decide (version <> "dev"%string) then "v" +:+ version else version); LoadConfig (fl_config f);
         LogInit (setupLogging cfg (fl_logLevel f)).1 (setupLogging cfg (fl_logLevel f)).2; EngineStart;
         RegisterAlertHandler; HubStart (fl_config f); ArmForcedExit] ++ down /\
      (down `prefix_of` [HubStop; EngineStop]) /\ (code = 0 \/ code = 1) /\
      (code = 0 -> down = [HubStop; EngineStop])
  end.
Proof.
  unfold run. destruct (fl_version f); [done|]. destruct (oc_load o) as [cfg|e]; [|done].
  destruct (setupLogging cfg (fl_logLevel f)) as [level format]. cbn [fst snd].
  destruct (oc_start o) as [e|].
  - split; [|done]. unfold spine. rewrite !filter_app. fold (spine (LogWarn <$> IdleWarnings cfg)).
    rewrite <- (right_id_L [] (++) (LogWarn <$> _)), spine_warns. done.
  - destruct (shutdown (oc_second o)) as [down code] eqn:Ed.
    assert (spine down = down /\ down `prefix_of` [HubStop; EngineStop] /\ (code = 0 \/ code = 1) /\
            (code = 0 -> down = [HubStop; EngineStop])) as (Hs & Hp & Hc & Hz).
    { revert Ed. unfold shutdown. destruct (oc_second o) as [[|[|n]]|]; cbn; intros [= <- <-];
        (split_and!; [done|try done|auto|done]); try apply prefix_nil; by exists [EngineStop]. }
    exists down. split_and!; try done. unfold spine. rewrite !filter_app. fold (spine (LogWarn <$> IdleWarnings cfg)) (spine down).
    rewrite <- (right_id_L [] (++) (LogWarn <$> _)), spine_warns, Hs. done.
Qed.

End process.

(** A level given on the command line that is not one is not refused, and hides
    the level of the configuration: the run logs at the default. *)
Lemma unknown_override_hides_config cfg override :
  override <> EmptyString -> ParseLevel override = None -> (setupLogging cfg override).1 = LevelInfo.
Proof. intros Ho Hp. unfold setupLogging. by rewrite decide_True, Hp by done. Qed.

(** ** [engine.New] *)

Definition DefaultShutdownTimeout : Z := 30 * second.

(** The defaults an engine has before a configuration is applied; the stale
    threshold and the write interval are zero until then. *)
Definition default_tuning (numCPU : Z) : tuning :=
  mkTuning DefaultDataBusSize numCPU DefaultHighPriorityWorkers DefaultAlertActiveWindow badQualityPublish
    DefaultErrorThrottleWindow DefaultTagInterval 0 DefaultShutdownTimeout 3 DefaultCommandConcurrency 0.

Definition New {E prog dprog : Type} (numCPU : Z) (e : E) : runtime E prog dprog :=
  mkRuntime
    (mkCore (mkEngine e emptyRegistry (emptyTransports false) (NewScheduler 0) NewLatestCache ∅ DefaultTagInterval
               DefaultShutdownTimeout false 0)
       (mkSystem (engine_of []) ∅ ∅ ∅) (mkDS false None ∅ ∅ 0) EngineStatusStopped)
    (default_tuning numCPU) None 0 (newAlertManager 0) false [] false 0.

(** A new engine is one that [Start] can be called on: stopped, with nothing
    running and nothing registered. *)
Lemma New_quiescent {E prog dprog : Type} numCPU (e : E) :
  quiescent (New (prog := prog) (dprog := dprog) numCPU e) /\
  co_status (rt_core (New (prog := prog) (dprog := dprog) numCPU e)) = EngineStatusStopped.
Proof. split; [|done]. constructor; try done; by constructor. Qed.
